(* ===== verification/_CoqProject ===== *)
-Q . S2P
Prelude.v
ObjectMap.v
Value.v
Error.v
Path.v
Domain.v
Executor.v
ExecSemantics.v
Transition.v
Fact.v
Serde.v
Hash.v
Wal.v
WalFile.v
FactsLog.v
FactsLogSpec.v
Recovery.v
Phase.v
ReactorState.v
Reactor.v
ReactorSpec.v
ReactorProps.v
CircuitBreaker.v
Signing.v
Anchor.v
SharedLog.v
SharedLogSpec.v
Permission.v
Gate.v
PermissionSpec.v
Subscriber.v
SubscriberSpec.v
Auditor.v
AuditorSpec.v
AuditorStore.v
EvidParse.v
EvidVerify.v
EvidSpec.v
McuWal.v
McuFlash.v
McuFlashSpec.v
McuExec.v
McuExecSpec.v
TimeMachine.v
TimeMachineSpec.v
Session.v
SessionSpec.v
RuleValidation.v
RuleValidationSpec.v
Cli.v
CliSpec.v
Sentinel.v
SentinelSpec.v
Discipline.v
DisciplineSpec.v
ChannelLocal.v
Ffi.v
BuildGate.v
BuildGateSpec.v
Eval.v
EvalSpec.v
EvidWasm.v
EvidWasmSpec.v
BuildGateCrates.v
BuildGateCratesSpec.v
CliTools.v
