(* ===== verification/Prelude.v ===== *)
(** EvoRule: a verification library for the rule engine and its audit trail.

    EvoRule runs instructions against a list of rules written in JSON.  Its
    kernel is a pure function from an instruction, a payload and a queue to the
    next payload and queue; around it a reactor keeps a log of facts, performs
    input and output under permissions, and an auditor keeps the log under a
    hash chain and signed anchors, which independent tools verify.

    * How the parts interact

    The kernel (TCB) is called by the reactor, the command-line tool and the
    microcontroller kernel.  The reactor appends every fact it sends to the
    facts log, which writes it ahead to a store; the auditor follows the facts
    log and seals anchors; the subscriber answers the reactor's I/O requests
    through the permission gate; sessions bundle a reactor, its log and its
    auditor; the shared facts log is a facts log of its own that all sessions
    see.  The independent verifier, the command-line tool and the sentinel read
    what the others wrote and share no code with them but the hash.

    * The files and what they model (sources under src/)

    - this file: results, machine integers, strings and their tactics; the hint
      databases; generic lemmas.
    - ObjectMap, Value, Error, Path, Domain, Executor, Transition: the kernel,
      evorule-tcb/src/{value,error,path,domain,executor,transition}.rs, a
      function for each of theirs, with [Result] for fallible code.
      A [&mut] reference is the value there and the function that puts another
      in its place.  ExecSemantics: a semantics of the meta instructions
      without limits, which Executor implements within the limits.
    - Fact, Hash: evorule-audit-chain/src/{fact,hash}.rs.
    - Serde: the interfaces to serde_json and BLAKE3, type classes with their
      documented laws, and concrete instances for the examples.
    - Wal, WalFile: evorule-reactor/src/wal.rs: the codec of records, the store
      interface [FactWalStore] and its two implementations.
    - FactsLog, FactsLogSpec, Recovery: evorule-reactor/src/facts_log.rs.
    - Phase, ReactorState, Reactor, ReactorSpec, ReactorProps:
      evorule-reactor/src/{phase,stable_detector,state,invariants,reactor,pure}.rs.
      A turn of the loop is a function on the state and the log; channels are
      the lists of what was received and sent.
    - CircuitBreaker, Permission, Gate, PermissionSpec, Subscriber,
      SubscriberSpec: the I/O path, evorule-governance/src/{circuit_breaker,
      permission/*,io_subscriber}.rs and
      evorule-reactor/src/{io_context,io_dispatcher}.rs.
    - Signing, Anchor, Auditor, AuditorSpec, AuditorStore:
      evorule-governance/src/{signing,anchor,auditor,clock}.rs.
    - SharedLog, SharedLogSpec: evorule-governance/src/shared_facts_log.rs.
    - EvidParse, EvidVerify, EvidSpec:
      evid-verify-core/src/{parse,record,verify,seal}.rs.
    - McuWal, McuFlash, McuExec and their Spec files:
      evorule-mcu/src/{error,clock,pack,wal,wal_flash,exec}.rs.
    - TimeMachine, Session and their Spec files:
      evorule-governance/src/{time_machine,session}.rs.  The manager is a state
      with its shards; operations of many threads interleave as a list of
      operations, each atomic as in the source.
    - RuleValidation, RuleValidationSpec: evorule-governance/src/rule_validation.rs.
    - Discipline, DisciplineSpec: evorule-discipline/src/lib.rs, its rules
      evorule-tcb/discipline/core_eval.json, and the commands validate and
      discipline_gate.  The clauses are run by the kernel's own executor.
    - Cli, CliSpec, Sentinel, SentinelSpec, CliTools: evorule-cli/src/{error,
      executor,fact_log,io_util,output,signing}.rs and its other commands.
    - EvidWasm, EvidWasmSpec: evid-verify-wasm/src/{handlers,abi,bindings}.rs,
      the verifier behind a web page.
    - ChannelLocal: evorule-reactor/src/channel_local.rs, queues shared through
      a heap of reference-counted cells.
    - Ffi: evorule-reactor/src/ffi.rs, the C interface and its text reader.
    - BuildGate, BuildGateSpec, BuildGateCrates, BuildGateCratesSpec: the
      build.rs of the kernel crate, and what the build.rs of the reactor, the
      governance crate and the command-line tool have of their own.
    - Eval, EvalSpec: evorule-eval/src/lib.rs.

    Definitions keep the source's names; a suffix or prefix tells apart what
    the source tells apart by its module or type.

    * What the theorems show

    - Kernel: constraints run before transforms and cannot be masked by rules
      around them; a transition refines the limit-free semantics, finishes
      within its instruction budget, and keeps values well formed; conditions
      mean their declarative semantics.
    - Log: two histories with the same chain hash are equal or yield a
      collision of the hash, found by an explicit search; the facts log keeps
      its invariant under every operation that does not lower the version;
      replay after a restart restores it exactly when each fact nests below
      the reader's recursion limit, from any store that keeps the contract,
      which both stores do.
    - Reactor: everything sent is in the log first; pending I/O is accounted
      for; an unknown I/O type is refused, every other request is answered
      once and resumes exactly its instruction; a violation blocks its
      instruction; the pure variant agrees; a quiet reactor settles.
    - I/O: a dispatched request was granted by the gate at its version; every
      request is answered exactly once; the breaker refines a full history.
    - Audit: the auditor agrees with the log it follows; its anchors verify;
      loading (below the recursion limit), export and import restore it; an
      anchored history cannot be
      changed without a collision or a signature under another key.
    - Independent verification: what is accepted is exactly a chain of the
      recomputed hashes; its verdicts agree with the auditor, the server's
      anchors, the command-line tool and the sentinel, and of these only
      verify-chain asks for the structure of the log besides the chain; a page
      reads back the verdict it was sent.
    - Microcontroller: the same facts as the reactor; the run ends; the flash
      log survives a loss of power at any byte, for facts below the recursion
      limit.
    - Sessions: the limit on sessions under interleavings; forks inherit; logs
      are never overwritten; looking back gives the past.
    - Rules: validation accepts exactly its specification; an accepted set or
      push without a faulty literal runs in some state, and with one in none;
      the discipline gate reports exactly what a direct reading of its clauses
      does, and in an accepted set no set or push runs before a request for
      input or output in its transition.
    - Tools: a run's log verifies when its facts nest below the recursion
      limit, and cannot be read otherwise; the sentinel's alarms are those of
      a reading of the logs of its own, the most severe first; two scans
      without an alarm mean that the logs only grew; made keys verify; a compiled pack loads; the
      harness's log of a session is sound.
    - Glue: the shared queues refine one queue per receiver, to every public
      call, the count of subscribers included; what the gates let
      build is free of the forbidden patterns, against a reading of a line of
      Rust.

    Where the code does not do what it says, a lemma exhibits it on a concrete
    input, next to the theorem whose statement it limits.

    * Conventions, bounds and fuel

    Integers are [Z] with their width: i64 operations check or wrap as written,
    u64 counters wrap as release builds do.  Strings are byte strings in UTF-8;
    [char] operations decode.  A map of the source is an [ObjectMap] (sorted
    association list) when its order is observable and a [gmap] otherwise.

    Loops that are not structural take fuel, and a theorem or lemma shows that
    the fuel given never runs out:
    - the readers of rotated files, [loop_fuel fs = S (size fs)]: each round
      needs another existing file ([wal_read_fails_closed]);
    - conditions, depth at most 64, the source's own limit;
    - the executor, [exec_fuel] from its instruction budget;
      the reactor, [execute_fuel], one more than the rounds left; the
      command-line loop, [max_steps + 2] ([cli_loop_total]); the drain of the
      microcontroller, more than [max_steps]; nesting in its checks 66;
    - retries of the subscriber, [MAX_RETRIES]; the clock's ticks, the distance
      to the target; the walk along causes, one more than the facts;
    - validation of rules and the discipline gate, the height of the JSON value
      ([json_height]); the text readers, the scanners of the gates and [trim],
      the length of the text; the harness, [max_steps + 2]; the walk of a source
      tree, a bound on its depth that is an argument.

    * Parameters

    serde_json's text format and numbers, BLAKE3, ed25519, base64/gzip of
    exports, the Debug text of values, the clock, entropy and the I/O handlers
    are parameters, with laws that their documentation states; every property
    that uses laws has a witness with a concrete instance.  The text of a value
    determines it, but is read back only below serde_json's recursion limit
    ([recursion_limit], 128 levels); the writers of the logs do not know the
    limit, so theorems about reading a log back say both cases.  A file is the list
    of its lines, a directory what it lists.

    * Not modelled

    - evorule-reactor/src/{channel,runtime,io_handler}.rs: aliases of tokio's
      channels, a trait around the system clock and the trait of the handlers.
      Tasks and threads: lists of messages and of operations stand for what the
      schedulers make of them; freeing of memory.
    - Metrics (a trait whose methods do nothing), modules that only re-export
      (governance hash, io_dispatcher, io_handler; cli hash; reactor fact, hash),
      the arguments of the command line, the binaries that time the harness.
    - The allocator of the microcontroller, which hands raw memory to a library,
      its board code, benchmarks, examples, fuzz targets and the proofs for other
      tools; printed progress.

    Every part with logic of its own is modelled. *)

From Stdlib Require Export String Ascii ZArith Lia Bool.
From Stdlib Require Import OrderedTypeEx.
From stdpp Require Export base option list list_numbers strings pretty gmap.

(** * Fallible code *)

(** Rust's [Result<T, E>]. *)
Inductive Result (A E : Type) : Type :=
| Ok (a : A)
| Err (e : E).
Arguments Ok {A E} a.
Arguments Err {A E} e.

Declare Scope rust_scope.
Delimit Scope rust_scope with rust.
Open Scope rust_scope.

(** The [?] operator on results and on options.  Both expand to a plain
    [match], so that [case_match] sees through them. *)
Notation "'let?' x := c 'in' k" :=
  (match c with Ok x => k | Err err => Err err end)
  (at level 10, x name, c at level 100, k at level 200,
   format "'[v' 'let?'  x  :=  c  'in' '/' k ']'") : rust_scope.
Notation "'let?' ' p := c 'in' k" :=
  (match c with Ok p => k | Err err => Err err end)
  (at level 10, p pattern, c at level 100, k at level 200) : rust_scope.
Notation "'let!' x := c 'in' k" :=
  (match c with Some x => k | None => None end)
  (at level 10, x name, c at level 100, k at level 200,
   format "'[v' 'let!'  x  :=  c  'in' '/' k ']'") : rust_scope.
Notation "'let!' ' p := c 'in' k" :=
  (match c with Some p => k | None => None end)
  (at level 10, p pattern, c at level 100, k at level 200) : rust_scope.

(** [Option::ok_or] and [Result::map]. *)
Definition ok_or {A E} (o : option A) (e : E) : Result A E :=
  match o with Some a => Ok a | None => Err e end.
Definition result_map {A B E} (f : A -> B) (r : Result A E) : Result B E :=
  match r with Ok a => Ok (f a) | Err e => Err e end.
Definition result_ok {A E} (r : Result A E) : option A :=
  match r with Ok a => Some a | Err _ => None end.
Definition is_some {A} (o : option A) : bool := match o with Some _ => true | None => false end.
Definition is_ok {A E} (r : Result A E) : bool :=
  match r with Ok _ => true | Err _ => false end.

#[export] Instance Result_eq_dec {A E} `{EqDecision A, EqDecision E} :
  EqDecision (Result A E).
Proof. solve_decision. Defined.

Lemma ok_or_Ok {A E} (o : option A) (e : E) a : ok_or o e = Ok a <-> o = Some a.
Proof. destruct o; cbn; naive_solver. Qed.

Lemma Ok_inj {A E} (a b : A) : @Ok A E a = Ok b -> a = b.
Proof. by intros [=]. Qed.

(** * Machine integers *)

Definition i64_min : Z := (- 2 ^ 63)%Z.
Definition i64_max : Z := (2 ^ 63 - 1)%Z.
Definition u64_max : Z := (2 ^ 64 - 1)%Z.
Definition is_i64 (z : Z) : bool := (i64_min <=? z)%Z && (z <=? i64_max)%Z.
Definition is_u64 (z : Z) : bool := (0 <=? z)%Z && (z <=? u64_max)%Z.

Definition i64_checked_add (a b : Z) : option Z :=
  if is_i64 (a + b)%Z then Some (a + b)%Z else None.
Definition i64_checked_sub (a b : Z) : option Z :=
  if is_i64 (a - b)%Z then Some (a - b)%Z else None.
Definition u64_checked_add (a b : Z) : option Z :=
  if (a + b <=? u64_max)%Z then Some (a + b)%Z else None.
Definition u64_saturating_add (a b : Z) : Z := Z.min (a + b) u64_max.
(** [a += b] on a [u64] in a release build: wraps modulo 2^64. *)
Definition u64_wrapping_add (a b : Z) : Z := ((a + b) mod 2 ^ 64)%Z.

(** [v as i64] on a [u64]: two's complement. *)
Definition u64_as_i64 (v : Z) : Z := if (v <=? i64_max)%Z then v else (v - 2 ^ 64)%Z.

Lemma is_i64_spec z : is_i64 z = true <-> (i64_min <= z <= i64_max)%Z.
Proof. unfold is_i64. rewrite andb_true_iff, !Z.leb_le. lia. Qed.
Lemma is_u64_spec z : is_u64 z = true <-> (0 <= z <= u64_max)%Z.
Proof. unfold is_u64. rewrite andb_true_iff, !Z.leb_le. lia. Qed.

(** * Vectors indexed by a [usize]

    Indices are integers; [vec_get] tests the bound before it converts the
    index, as the code's [Vec::get] does. *)
Section Vec.
Context {A : Type}.

Definition vec_len (l : list A) : Z := Z.of_nat (length l).
Definition vec_get (l : list A) (i : Z) : option A :=
    if ((0 <=? i)%Z && (i <? vec_len l)%Z) then l !! Z.to_nat i else None.
Definition vec_set (l : list A) (i : Z) (x : A) : list A :=
    if ((0 <=? i)%Z && (i <? vec_len l)%Z) then <[Z.to_nat i := x]> l else l.

Lemma vec_get_Some l i x :
    vec_get l i = Some x <-> (0 <= i)%Z /\ l !! Z.to_nat i = Some x.
  Proof.
    unfold vec_get, vec_len.
    destruct (Z.leb_spec 0 i); cbn; [|split; [done|lia]].
    destruct (Z.ltb_spec i (Z.of_nat (length l))); cbn; [tauto|].
    split; [done|]. intros [_ Hl%lookup_lt_Some]. lia.
  Qed.

Lemma vec_get_None l i :
    (0 <= i)%Z -> vec_get l i = None <-> (vec_len l <= i)%Z.
  Proof.
    intros Hi. unfold vec_get, vec_len.
    destruct (Z.leb_spec 0 i); cbn; [|lia].
    destruct (Z.ltb_spec i (Z.of_nat (length l))); cbn; [|split; [lia|done]].
    rewrite lookup_ge_None. lia.
  Qed.

Lemma vec_len_set l i x : vec_len (vec_set l i x) = vec_len l.
  Proof. unfold vec_len, vec_set. case_match; [by rewrite length_insert|done]. Qed.

Lemma vec_get_set_eq l i x y : vec_get l i = Some y -> vec_get (vec_set l i x) i = Some x.
  Proof.
    rewrite !vec_get_Some. intros [Hi Hl]. split; [done|].
    apply lookup_lt_Some in Hl as Hlt. unfold vec_set, vec_len.
    destruct (Z.leb_spec 0 i); [|lia].
    destruct (Z.ltb_spec i (Z.of_nat (length l))); cbn; [|lia].
    by apply list_lookup_insert_eq.
  Qed.

Lemma vec_get_set_ne l i j x :
    i <> j -> (0 <= i)%Z -> vec_get (vec_set l i x) j = vec_get l j.
  Proof.
    intros Hne Hi. unfold vec_get. rewrite vec_len_set. case_match; [|done].
    apply andb_true_iff in H as [Hj _]. apply Z.leb_le in Hj.
    unfold vec_set. case_match; [|done]. apply list_lookup_insert_ne. lia.
  Qed.

Lemma vec_set_same l i x : vec_get l i = Some x -> vec_set l i x = l.
  Proof.
    rewrite vec_get_Some. intros [Hi Hl]. unfold vec_set. case_match; [|done].
    by apply list_insert_id.
  Qed.

Lemma vec_set_set l i x y : vec_set (vec_set l i x) i y = vec_set l i y.
  Proof.
    unfold vec_set at 1. rewrite vec_len_set. unfold vec_set.
    case_match; [|done]. apply list_insert_insert_eq.
  Qed.
End Vec.

(** * Strings

    A [String] is its UTF-8 bytes; [str::cmp] is the byte-wise order. *)
#[global] Arguments String.append !s1 s2 / : simpl nomatch.

Definition str_lt (a b : string) : Prop := String.compare a b = Lt.

Lemma str_compare_refl a : String.compare a a = Eq.
Proof.
  destruct (String.compare a a) eqn:E; [done| |];
    pose proof (String.compare_antisym a a) as H; rewrite E in H; discriminate.
Qed.
Lemma str_compare_eq a b : String.compare a b = Eq <-> a = b.
Proof. split; [apply String.compare_eq_iff|intros ->; apply str_compare_refl]. Qed.
Lemma str_lt_trans a b c : str_lt a b -> str_lt b c -> str_lt a c.
Proof.
  unfold str_lt. rewrite !String_as_OT.cmp_lt. apply String_as_OT.lt_trans.
Qed.
Lemma str_lt_irrefl a : ~ str_lt a a.
Proof. unfold str_lt. by rewrite str_compare_refl. Qed.
Lemma str_compare_Gt a b : String.compare a b = Gt <-> str_lt b a.
Proof.
  unfold str_lt. rewrite (String.compare_antisym a b).
  destruct (String.compare b a); cbn; naive_solver.
Qed.

Definition starts_with (p s : string) : bool := String.prefix p s.
Fixpoint strip_prefix (p s : string) : option string :=
  match p, s with
  | EmptyString, _ => Some s
  | String a p', String b s' => if Ascii.eqb a b then strip_prefix p' s' else None
  | String _ _, EmptyString => None
  end.
Fixpoint ends_with_char (c : ascii) (s : string) : bool :=
  match s with
  | EmptyString => false
  | String a EmptyString => Ascii.eqb a c
  | String _ s' => ends_with_char c s'
  end.
Fixpoint str_all (f : ascii -> bool) (s : string) : bool :=
  match s with
  | EmptyString => true
  | String c s' => f c && str_all f s'
  end.
Definition str_is_empty (s : string) : bool :=
  match s with EmptyString => true | _ => false end.
(** [String::push]. *)
Definition push_char (s : string) (c : ascii) : string := s +:+ String c EmptyString.

Lemma str_app_nil_r s : s +:+ "" = s.
Proof. induction s; cbn; [done|by f_equal]. Qed.
Lemma str_app_assoc a b c : a +:+ (b +:+ c) = (a +:+ b) +:+ c.
Proof. induction a; cbn; [done|by f_equal]. Qed.
Lemma str_app_length a b : String.length (a +:+ b) = String.length a + String.length b.
Proof. induction a; cbn; [done|by f_equal]. Qed.
Lemma push_char_app s c t : push_char s c +:+ t = s +:+ String c t.
Proof. unfold push_char. by rewrite <- str_app_assoc. Qed.
Lemma str_app_is_empty a b :
  str_is_empty (a +:+ b) = str_is_empty a && str_is_empty b.
Proof. by destruct a. Qed.

Lemma strip_prefix_Some p s t : strip_prefix p s = Some t <-> s = p +:+ t.
Proof.
  revert s. induction p as [|a p IH]; intros s; cbn.
  - naive_solver.
  - destruct s as [|b s]; [split; intros H; discriminate H|].
    destruct (Ascii.eqb_spec a b) as [->|Hne].
    + rewrite IH. split; [by intros ->|]. intros H. by injection H.
    + split; [done|]. intros H. injection H. congruence.
Qed.

(** [str::split] on a character: always at least one part. *)
Fixpoint split_char (c : ascii) (s : string) : list string :=
  match s with
  | EmptyString => [EmptyString]
  | String a s' =>
      if Ascii.eqb a c then EmptyString :: split_char c s'
      else
        match split_char c s' with
        | [] => [String a EmptyString]
        | p :: ps => String a p :: ps
        end
  end.
Definition is_ascii_alphanumeric (c : ascii) : bool :=
  let n := nat_of_ascii c in
  ((48 <=? n) && (n <=? 57) || (65 <=? n) && (n <=? 90) || (97 <=? n) && (n <=? 122))%nat.

(** * Automation *)


(** One case split on an inner-most match of the goal or of a hypothesis. *)
Ltac split_match :=
  match goal with
  | |- context [match ?e with _ => _ end] =>
      lazymatch e with context [match _ with _ => _ end] => fail | _ => destruct e eqn:? end
  | H : context [match ?e with _ => _ end] |- _ =>
      lazymatch e with context [match _ with _ => _ end] => fail | _ => destruct e eqn:? end
  end.
Ltac split_matches := repeat (split_match; simplify_eq/=).

(** Boolean tests of the code to propositions. *)
Ltac reflect_bool :=
  repeat match goal with
  | H : andb _ _ = true |- _ => apply andb_true_iff in H as [? ?]
  | H : orb _ _ = false |- _ => apply orb_false_iff in H as [? ?]
  | H : negb _ = true |- _ => apply negb_true_iff in H
  | H : negb _ = false |- _ => apply negb_false_iff in H
  | H : Z.ltb _ _ = true |- _ => apply Z.ltb_lt in H
  | H : Z.ltb _ _ = false |- _ => apply Z.ltb_ge in H
  | H : Z.leb _ _ = true |- _ => apply Z.leb_le in H
  | H : Z.leb _ _ = false |- _ => apply Z.leb_gt in H
  | H : Z.eqb _ _ = true |- _ => apply Z.eqb_eq in H
  | H : Z.eqb _ _ = false |- _ => apply Z.eqb_neq in H
  | H : Nat.ltb _ _ = true |- _ => apply Nat.ltb_lt in H
  | H : Nat.ltb _ _ = false |- _ => apply Nat.ltb_ge in H
  | H : Nat.leb _ _ = true |- _ => apply Nat.leb_le in H
  | H : Nat.leb _ _ = false |- _ => apply Nat.leb_gt in H
  | H : Nat.eqb _ _ = true |- _ => apply Nat.eqb_eq in H
  | H : Nat.eqb _ _ = false |- _ => apply Nat.eqb_neq in H
  | H : String.eqb _ _ = true |- _ => apply String.eqb_eq in H
  | H : String.eqb _ _ = false |- _ => apply String.eqb_neq in H
  | H : is_i64 _ = true |- _ => apply is_i64_spec in H
  | H : is_u64 _ = true |- _ => apply is_u64_spec in H
  end.

Create HintDb evorule.
Create Rewrite HintDb evorule_rw.
#[export] Hint Resolve str_lt_trans : evorule.
#[export] Hint Rewrite @vec_len_set str_app_nil_r str_compare_refl : evorule_rw.

(** * Lists *)

Lemma Forall_vec_get {A} (P : A -> Prop) l i x :
  Forall P l -> vec_get l i = Some x -> P x.
Proof.
  rewrite vec_get_Some. intros HP [_ Hl]. by eapply Forall_lookup_1.
Qed.
Lemma Forall_vec_set {A} (P : A -> Prop) l i x :
  Forall P l -> P x -> Forall P (vec_set l i x).
Proof. intros Hl Hx. unfold vec_set. case_match; [by apply Forall_insert|done]. Qed.

Lemma forallb_rev {A} (f : A -> bool) l : forallb f (rev l) = forallb f l.
Proof.
  induction l as [|x l IH]; cbn; [done|]. rewrite forallb_app, IH. cbn.
  by rewrite andb_true_r, andb_comm.
Qed.
Lemma forallb_take {A} (f : A -> bool) n l : forallb f l = true -> forallb f (take n l) = true.
Proof.
  revert n. induction l as [|x l IH]; intros [|n]; cbn; try done.
  rewrite !andb_true_iff. naive_solver.
Qed.

(** Consecutive identifiers of a wrapping 64-bit counter. *)
Fixpoint ids_from (n : Z) (k : nat) : list Z :=
  match k with O => [] | Datatypes.S k => n :: ids_from (u64_wrapping_add n 1) k end.
Fixpoint id_after (n : Z) (k : nat) : Z :=
  match k with O => n | Datatypes.S k => id_after (u64_wrapping_add n 1) k end.
Lemma ids_from_app n j k : ids_from n (j + k) = ids_from n j ++ ids_from (id_after n j) k.
Proof. revert n. induction j as [|j IH]; intros n; cbn; [done|]. by rewrite IH. Qed.
Lemma id_after_add n j k : id_after n (j + k) = id_after (id_after n j) k.
Proof. revert n. induction j as [|j IH]; intros n; cbn; [done|]. apply IH. Qed.

(** [PartialEq] and [Ord] of vectors: element-wise, a proper prefix first. *)
Section ListCompare.
Context {A B : Type}.

Section Eqb.
Context (f : A -> B -> bool).
Fixpoint forall2b (l : list A) (k : list B) : bool :=
      match l, k with
      | [], [] => true
      | x :: l', y :: k' => f x y && forall2b l' k'
      | _, _ => false
      end.
End Eqb.

Section Cmp.
Context (f : A -> B -> comparison).
Fixpoint lex_cmp (l : list A) (k : list B) : comparison :=
      match l, k with
      | [], [] => Eq
      | [], _ :: _ => Lt
      | _ :: _, [] => Gt
      | x :: l', y :: k' => match f x y with Eq => lex_cmp l' k' | c => c end
      end.
End Cmp.
End ListCompare.

(** An order passes to lists: equality, antisymmetry and transitivity of the
    lexicographic order from those of the elements. *)
Section LexCmp.
Context {A : Type} (f : A -> A -> comparison).

Lemma lex_cmp_eq l :
    Forall (fun x => forall y, f x y = Eq <-> x = y) l ->
    forall k, lex_cmp f l k = Eq <-> l = k.
  Proof.
    induction 1 as [|x l Hx Hl IH]; intros [|y k]; cbn; [done..|].
    specialize (Hx y). destruct (f x y); [rewrite IH|..]; naive_solver.
  Qed.

Lemma lex_cmp_sym l :
    Forall (fun x => forall y, f y x = CompOpp (f x y)) l ->
    forall k, lex_cmp f k l = CompOpp (lex_cmp f l k).
  Proof.
    induction 1 as [|x l Hx Hl IH]; intros [|y k]; cbn; [done..|].
    rewrite Hx. by destruct (f x y); cbn.
  Qed.

Context (f_eq : forall x y, f x y = Eq <-> x = y).

Lemma lex_cmp_trans l :
    Forall (fun x => forall y z, f x y = Lt -> f y z = Lt -> f x z = Lt) l ->
    forall k j, lex_cmp f l k = Lt -> lex_cmp f k j = Lt -> lex_cmp f l j = Lt.
  Proof.
    induction 1 as [|x l Hx Hl IH]; intros [|y k] [|z j]; cbn; try done.
    specialize (Hx y z). pose proof (f_eq x y) as Hxy. pose proof (f_eq y z) as Hyz.
    destruct (f x y) eqn:Exy; [|intros _|done].
    - destruct Hxy as [Hxy _]. specialize (Hxy eq_refl) as ->.
      destruct (f y z); [apply IH|done..].
    - destruct (f y z) eqn:Eyz; [|by rewrite Hx|done].
      destruct Hyz as [Hyz _]. specialize (Hyz eq_refl) as ->. by rewrite Exy.
  Qed.
End LexCmp.

Lemma forall2b_eq {A} (f : A -> A -> bool) (P : A -> Prop) l k :
  Forall (fun x => forall y, P x -> P y -> f x y = true <-> x = y) l ->
  Forall P l -> Forall P k -> forall2b f l k = true <-> l = k.
Proof.
  intros Hf. revert k. induction Hf as [|x l Hx Hl IH]; intros [|y k] Hl' Hk;
    cbn; [done..|].
  inv Hl'. inv Hk. rewrite andb_true_iff, Hx, IH by done. naive_solver.
Qed.

(** * Character predicates on strings *)

Definition is_digit (c : ascii) : bool :=
  (48 <=? nat_of_ascii c)%nat && (nat_of_ascii c <=? 57)%nat.

Lemma str_all_app f a b : str_all f (a +:+ b) = str_all f a && str_all f b.
Proof. induction a; cbn; [done|]. by rewrite IHa, andb_assoc. Qed.

Lemma pretty_N_char_digit x : is_digit (pretty_N_char x) = true.
Proof. unfold pretty_N_char. by repeat case_match. Qed.

Lemma pretty_N_go_digits x s :
  str_all is_digit s = true -> str_all is_digit (pretty_N_go x s) = true.
Proof.
  revert s. induction (N.lt_wf_0 x) as [x _ IH]; intros s Hs.
  destruct (decide (0 < x)%N) as [Hx|Hx].
  - rewrite pretty_N_go_step by done. apply IH; [by apply N.div_lt|].
    cbn. by rewrite pretty_N_char_digit, Hs.
  - replace x with 0%N by lia. by rewrite pretty_N_go_0.
Qed.

Lemma pretty_N_digits (n : N) : str_all is_digit (pretty n) = true.
Proof. unfold pretty, pretty_N. case_decide; [done|]. by apply pretty_N_go_digits. Qed.

Lemma pretty_N_go_nonempty x s :
  (0 < x)%N \/ str_is_empty s = false -> str_is_empty (pretty_N_go x s) = false.
Proof.
  revert s. induction (N.lt_wf_0 x) as [x _ IH]; intros s Hs.
  destruct (decide (0 < x)%N) as [Hx|Hx].
  - rewrite pretty_N_go_step by done. apply IH; [by apply N.div_lt|by right].
  - replace x with 0%N in * by lia. rewrite pretty_N_go_0. by destruct Hs.
Qed.
Lemma pretty_N_nonempty (n : N) : str_is_empty (pretty n) = false.
Proof.
  unfold pretty, pretty_N. case_decide; [done|]. apply pretty_N_go_nonempty. lia.
Qed.
Lemma pretty_of_nat (n : nat) : pretty (Z.of_nat n) = pretty (N.of_nat n).
Proof. by destruct n. Qed.

(** * Text *)

(** [str::contains] on a string pattern. *)
Definition contains (pat s : string) : bool :=
  match String.index 0 pat s with Some _ => true | None => false end.

(** The encodings of the Unicode white-space characters, and [str::trim]. *)
Definition byte_string (l : list nat) : string :=
  fold_right (fun n s => String (ascii_of_nat n) s) EmptyString l.
Definition whitespace : list string :=
  map byte_string
    ([[9]; [10]; [11]; [12]; [13]; [32]; [194; 133]; [194; 160]; [225; 154; 128];
      [226; 128; 168]; [226; 128; 169]; [226; 128; 175]; [226; 129; 159]; [227; 128; 128]]
     ++ map (fun n => [226; 128; n]) (seq 128 11))%nat.
Definition strip_any (prefixes : list string) (s : string) : option string :=
  fold_right (fun p acc => match strip_prefix p s with Some t => Some t | None => acc end)
    None prefixes.
Fixpoint strip_all (fuel : nat) (prefixes : list string) (s : string) : string :=
  match fuel with
  | O => s
  | S fuel =>
      match strip_any prefixes s with
      | Some t => strip_all fuel prefixes t
      | None => s
      end
  end.
Fixpoint str_rev (s : string) : string :=
  match s with
  | EmptyString => EmptyString
  | String c s' => str_rev s' +:+ String c EmptyString
  end.
Definition trim_start (s : string) : string := strip_all (String.length s) whitespace s.
Definition trim_end (s : string) : string :=
  str_rev (strip_all (String.length s) (map str_rev whitespace) (str_rev s)).
Definition trim (s : string) : string := trim_end (trim_start s).

(** The first [n] characters of a UTF-8 string, as [{:.n}] prints them. *)
Fixpoint take_chars (n : nat) (s : string) : string :=
  match s with
  | EmptyString => EmptyString
  | String c s' =>
      let b := nat_of_ascii c in
      if ((128 <=? b) && (b <? 192))%nat then String c (take_chars n s')
      else match n with
           | O => EmptyString
           | S n' => String c (take_chars n' s')
           end
  end.

Lemma prefix_app p t : String.prefix p (p +:+ t) = true.
Proof. induction p as [|c p IH]; cbn; [by destruct t|]. by destruct (ascii_dec c c). Qed.
Lemma contains_cons p c s : contains p s = true -> contains p (String c s) = true.
Proof.
  unfold contains. cbn [String.index].
  destruct (String.prefix p (String c s)); [done|]. by destruct (String.index 0 p s).
Qed.
Lemma contains_app p a b : contains p (a +:+ (p +:+ b)) = true.
Proof.
  induction a as [|c a IH]; [|by apply contains_cons].
  unfold contains. cbn [String.append]. destruct p as [|c p]; cbn; [by destruct b|].
  destruct (ascii_dec c c); [|done]. by rewrite prefix_app.
Qed.
Lemma contains_suffix p a s : contains p s = true -> contains p (a +:+ s) = true.
Proof. intros Hs. induction a as [|c a IH]; [done|]. by apply contains_cons. Qed.
Lemma str_rev_app a b : str_rev (a +:+ b) = str_rev b +:+ str_rev a.
Proof.
  induction a as [|c a IH]; cbn; [by rewrite str_app_nil_r|].
  by rewrite IH, str_app_assoc.
Qed.
Lemma str_rev_involutive s : str_rev (str_rev s) = s.
Proof. induction s as [|c s IH]; cbn; [done|]. by rewrite str_rev_app, IH. Qed.
(** What trimming leaves is a part of the text. *)
Lemma strip_all_suffix fuel prefixes s : exists t, s = t +:+ strip_all fuel prefixes s.
Proof.
  revert s. induction fuel as [|fuel IH]; intros s; cbn [strip_all]; [by exists ""|].
  destruct (strip_any prefixes s) as [t|] eqn:Ht; [|by exists ""].
  assert (exists p, s = p +:+ t) as [p ->].
  { clear IH. unfold strip_any in Ht. induction prefixes as [|p ps IHp]; cbn in Ht; [done|].
    destruct (strip_prefix p s) as [u|] eqn:Hp; [|by apply IHp]. injection Ht as <-. exists p. by apply strip_prefix_Some. }
  destruct (IH t) as [u Hu]. exists (p +:+ u). by rewrite <- str_app_assoc, <- Hu.
Qed.
Lemma str_all_impl (f g : ascii -> bool) s :
  (forall c, f c = true -> g c = true) -> str_all f s = true -> str_all g s = true.
Proof. intros Hfg. induction s as [|c s IH]; cbn; [done|]. rewrite !andb_true_iff. naive_solver. Qed.
Lemma str_all_rev f s : str_all f (str_rev s) = str_all f s.
Proof. induction s as [|c s IH]; [done|]. cbn. rewrite str_all_app, IH. cbn. by rewrite andb_true_r, andb_comm. Qed.
Lemma str_rev_length s : String.length (str_rev s) = String.length s.
Proof. induction s as [|c s IH]; cbn; [done|]. rewrite str_app_length, IH. cbn. lia. Qed.
Lemma strip_all_length fuel prefixes s : String.length (strip_all fuel prefixes s) <= String.length s.
Proof. destruct (strip_all_suffix fuel prefixes s) as [t Ht]. apply (f_equal String.length) in Ht. rewrite str_app_length in Ht. lia. Qed.
Lemma trim_length s : String.length (trim s) <= String.length s.
Proof.
  unfold trim, trim_end, trim_start. rewrite str_rev_length. etransitivity; [apply strip_all_length|]. rewrite str_rev_length.
  apply strip_all_length.
Qed.
(** Printable ASCII but the space: no encoding of white space begins or ends
    with one. *)
Definition solid (c : ascii) : bool := ((32 <? nat_of_ascii c) && (nat_of_ascii c <? 127))%nat.
Definition solid_head (s : string) : bool := match s with String c _ => solid c | EmptyString => false end.
Lemma strip_any_solid prefixes s :
  forallb (fun p => match p with String c _ => negb (solid c) | EmptyString => false end) prefixes = true ->
  solid_head s = true -> strip_any prefixes s = None.
Proof.
  intros Hp Hs. induction prefixes as [|p prefixes IH]; [done|]. cbn in *. apply andb_true_iff in Hp as [Hp Hps].
  destruct p as [|c p]; [done|]. destruct s as [|d s]; [done|]. cbn [strip_prefix]. cbn in Hs.
  destruct (Ascii.eqb_spec c d) as [->|_]; [by rewrite Hs in Hp|]. by apply IH.
Qed.
Lemma strip_all_solid fuel prefixes s :
  forallb (fun p => match p with String c _ => negb (solid c) | EmptyString => false end) prefixes = true ->
  solid_head s = true -> strip_all fuel prefixes s = s.
Proof. intros Hp Hs. destruct fuel as [|fuel]; [done|]. cbn [strip_all]. by rewrite strip_any_solid. Qed.
Lemma trim_start_solid s : solid_head s = true -> trim_start s = s.
Proof. by apply strip_all_solid. Qed.
Lemma trim_end_solid s : solid_head (str_rev s) = true -> trim_end s = s.
Proof. intros Hs. unfold trim_end. rewrite strip_all_solid by done. apply str_rev_involutive. Qed.
Lemma trim_solid s : solid_head s = true -> solid_head (str_rev s) = true -> trim s = s.
Proof. intros H1 H2. unfold trim. by rewrite trim_start_solid, trim_end_solid. Qed.
Lemma solid_head_all s : str_all solid s = true -> s <> "" -> solid_head s = true.
Proof. destruct s as [|c s]; [done|]. cbn. by intros [-> _]%andb_true_iff. Qed.
Lemma str_rev_nonempty s : s <> "" -> str_rev s <> "".
Proof. intros Hs He. apply (f_equal String.length) in He. rewrite str_rev_length in He. by destruct s. Qed.
Lemma trim_all_solid s : str_all solid s = true -> s <> "" -> trim s = s.
Proof. intros Hs Hne. apply trim_solid; apply solid_head_all; rewrite ?str_all_rev; auto using str_rev_nonempty. Qed.
Lemma trim_space s : trim (String " " s) = trim s.
Proof. reflexivity. Qed.
(** A text between braces has no white space to trim. *)
Lemma trim_braces s : trim (String "{" (s +:+ "}")) = String "{" (s +:+ "}").
Proof.
  unfold trim. assert (trim_start (String "{" (s +:+ "}")) = String "{" (s +:+ "}")) as ->; [done|].
  unfold trim_end. change (String "{" (s +:+ "}")) with ((String "{" s) +:+ "}") at 1 2.
  rewrite str_rev_app. cbn [str_rev String.append].
  transitivity (str_rev (String "}" (str_rev s +:+ "{"))); [by destruct (String.length _)|].
  cbn. by rewrite str_rev_app, str_rev_involutive.
Qed.
