(* ===== verification/ObjectMap.v ===== *)
(** The object backend of [evorule-tcb/src/value.rs]: the ordered vector
    [KaniMap], which the source keeps API-compatible with
    [BTreeMap<String, JsonValue>], and its refinement to finite maps. *)

From Stdlib Require Export Sorted.
From stdpp Require Import sorting.
From S2P Require Import Prelude.

(** Entries in key order, the representation of [KaniMap] and the iteration
    sequence of a [BTreeMap]. *)
Abbreviation ObjectMap V := (list (string * V)).

Section KaniMap.
Context {V : Type}.
  Implicit Types (m : ObjectMap V) (k key : string) (v : V).

(** [KaniMap::locate]: [Ok] the index of the key, or [Err] the insertion
    point, the index of the first entry with a larger key. *)
Fixpoint locate_from (i : nat) m key : Result nat nat :=
  match m with
  | [] => Err i
  | (k, _) :: m' =>
      if String.eqb k key then Ok i
      else if String.ltb key k then Err i
      else locate_from (S i) m' key
  end.
Definition locate m key : Result nat nat := locate_from 0 m key.

Definition map_new : ObjectMap V := [].

(** [KaniMap::insert]: the old value and the updated map. *)
Definition map_insert m key v : option V * ObjectMap V :=
  match locate m key with
  | Ok i =>
      match m !! i with
      | Some (k, old) => (Some old, <[i := (k, v)]> m)
      | None => (None, m)
      end
  | Err pos => (None, take pos m ++ (key, v) :: drop pos m)
  end.

(** [KaniMap::get]. *)
Definition map_get m key : option V :=
  match locate m key with
  | Ok i => snd <$> (m !! i)
  | Err _ => None
  end.

(** [KaniMap::get_mut]: the current value and how a new value is written. *)
Definition map_get_mut m key : option (V * (V -> ObjectMap V)) :=
  match locate m key with
  | Ok i =>
      match m !! i with
      | Some (k, v) => Some (v, fun v' => <[i := (k, v')]> m)
      | None => None
      end
  | Err _ => None
  end.

(** [KaniMap::remove]: the removed value and the remaining map. *)
Definition map_remove m key : option V * ObjectMap V :=
  match locate m key with
  | Ok i =>
      match m !! i with
      | Some (_, v) => (Some v, take i m ++ drop (S i) m)
      | None => (None, m)
      end
  | Err _ => (None, m)
  end.

Definition map_contains_key m key : bool := is_ok (locate m key).
Definition map_values m : list V := map snd m.
Definition map_len m : nat := length m.
Definition map_is_empty m : bool := match m with [] => true | _ => false end.

(** The value the last pair with a key gives it. *)
Fixpoint assoc_last (pairs : list (string * V)) key : option V :=
  match pairs with
  | [] => None
  | (k, v) :: pairs' =>
      match assoc_last pairs' key with
      | Some x => Some x
      | None => if String.eqb k key then Some v else None
      end
  end.
(** [KaniMap::from] on an array of pairs, in order. *)
Definition map_from (pairs : list (string * V)) : ObjectMap V :=
  fold_left (fun acc '(k, v) => snd (map_insert acc k v)) pairs map_new.

(** The updated map of an insertion, when the old value is dropped. *)
Definition obj_insert m key v : ObjectMap V := snd (map_insert m key v).
Definition obj_remove m key : ObjectMap V := snd (map_remove m key).

(** * The representation invariant and the abstraction *)

Definition keys_sorted m : Prop := StronglySorted str_lt (map fst m).
Definition to_gmap m : gmap string V := list_to_map m.

(** Structural versions of the index-based operations. *)
Fixpoint ins m key v : ObjectMap V :=
  match m with
  | [] => [(key, v)]
  | (k, x) :: m' =>
      if String.eqb k key then (k, v) :: m'
      else if String.ltb key k then (key, v) :: (k, x) :: m'
      else (k, x) :: ins m' key v
  end.
Fixpoint find m key : option V :=
  match m with
  | [] => None
  | (k, x) :: m' =>
      if String.eqb k key then Some x
      else if String.ltb key k then None
      else find m' key
  end.
Fixpoint del m key : ObjectMap V :=
  match m with
  | [] => []
  | (k, x) :: m' =>
      if String.eqb k key then m'
      else if String.ltb key k then (k, x) :: m'
      else (k, x) :: del m' key
  end.

Lemma locate_from_shift n m key :
  locate_from n m key =
  match locate m key with Ok i => Ok (n + i) | Err i => Err (n + i) end.
Proof.
  unfold locate. assert (forall a b, locate_from (a + b) m key =
    match locate_from b m key with Ok i => Ok (a + i) | Err i => Err (a + i) end) as H.
  { intros a b. revert b. induction m as [|[k x] m IH]; intros b; cbn; [done|].
    do 2 (case_match; [done|]). rewrite <- IH. f_equal. lia. }
  rewrite <- (Nat.add_0_r n) at 1. apply H.
Qed.

Lemma locate_cons k x m key :
  locate ((k, x) :: m) key =
  if String.eqb k key then Ok 0
  else if String.ltb key k then Err 0
  else match locate m key with Ok i => Ok (S i) | Err i => Err (S i) end.
Proof. unfold locate at 1. cbn. by rewrite (locate_from_shift 1). Qed.

Lemma locate_Ok_lookup m key i :
  locate m key = Ok i -> exists v, m !! i = Some (key, v).
Proof.
  revert i. induction m as [|[k x] m IH]; intros i; [done|].
  rewrite locate_cons. case_match eqn:E1.
  { reflect_bool. intros [= <-]. subst. by eexists. }
  case_match; [done|]. destruct (locate m key) as [j|j] eqn:E; [|done].
  intros [= <-]. destruct (IH _ eq_refl) as [v Hv]. by exists v.
Qed.

Lemma obj_insert_ins m key v : obj_insert m key v = ins m key v.
Proof.
  unfold obj_insert, map_insert. induction m as [|[k x] m IH]; [done|].
  rewrite locate_cons. cbn [ins]. destruct (String.eqb k key); [done|]. destruct (String.ltb key k); [done|].
  rewrite <- IH. destruct (locate m key) as [i|i] eqn:E; [|done].
  apply locate_Ok_lookup in E as [y Hy]. change (((k, x) :: m) !! S i) with (m !! i). by rewrite Hy.
Qed.

Lemma map_get_find m key : map_get m key = find m key.
Proof.
  unfold map_get. induction m as [|[k x] m IH]; [done|].
  rewrite locate_cons. cbn [find]. destruct (String.eqb k key); [done|]. destruct (String.ltb key k); [done|].
  rewrite <- IH. by destruct (locate m key).
Qed.

Lemma obj_remove_del m key : obj_remove m key = del m key.
Proof.
  unfold obj_remove, map_remove. induction m as [|[k x] m IH]; [done|].
  rewrite locate_cons. cbn [del]. destruct (String.eqb k key); [done|]. destruct (String.ltb key k); [done|].
  rewrite <- IH. destruct (locate m key) as [i|i] eqn:E; [|done].
  apply locate_Ok_lookup in E as [y Hy]. change (((k, x) :: m) !! S i) with (m !! i). by rewrite Hy.
Qed.

Lemma map_insert_old m key v : fst (map_insert m key v) = map_get m key.
Proof.
  unfold map_insert, map_get. destruct (locate m key) eqn:E; [|done].
  by destruct (m !! _) as [[]|].
Qed.
Lemma map_remove_old m key : fst (map_remove m key) = map_get m key.
Proof.
  unfold map_remove, map_get. destruct (locate m key) eqn:E; [|done].
  by destruct (m !! _) as [[]|].
Qed.

(** [get_mut] reads what [get] reads, and writing through it is [insert]. *)
Lemma map_get_mut_spec m key :
  match map_get_mut m key with
  | Some (v, put) => map_get m key = Some v /\ (forall v', put v' = obj_insert m key v')
  | None => map_get m key = None
  end.
Proof.
  unfold map_get_mut, map_get, obj_insert, map_insert.
  destruct (locate m key) eqn:E; [|done].
  by destruct (m !! _) as [[]|].
Qed.

Lemma map_contains_key_get m key :
  map_contains_key m key = true <-> is_Some (map_get m key).
Proof.
  unfold map_contains_key, map_get. destruct (locate m key) eqn:E; cbn.
  - apply locate_Ok_lookup in E as [y ->]. cbn. naive_solver.
  - split; [done|]. intros [? ?]; done.
Qed.
End KaniMap.

Lemma ltb_str_lt a b : String.ltb a b = true <-> str_lt a b.
Proof. unfold String.ltb, str_lt. by destruct (String.compare a b). Qed.

(** The three-way test of [locate]. *)
Lemma key_cases (P : bool -> bool -> Prop) k key :
  (k = key -> P true false) -> (str_lt key k -> P false true) ->
  (str_lt k key -> P false false) ->
  P (String.eqb k key) (String.ltb key k).
Proof.
  intros H1 H2 H3. unfold String.ltb.
  destruct (String.compare key k) eqn:E.
  - apply str_compare_eq in E as ->. rewrite String.eqb_refl. auto.
  - destruct (String.eqb_spec k key) as [->|]; [|auto].
    by rewrite str_compare_refl in E.
  - destruct (String.eqb_spec k key) as [->|];
      [by rewrite str_compare_refl in E|]. apply H3, str_compare_Gt, E.
Qed.
Ltac key_case k key := pattern (String.eqb k key), (String.ltb key k); apply key_cases.

Section KaniMapLaws.
Context {V : Type}.
Implicit Types (m : ObjectMap V) (k key : string) (v : V).

Lemma keys_sorted_nil : keys_sorted (@nil (string * V)).
Proof. constructor. Qed.

Lemma keys_sorted_cons k v m :
  keys_sorted ((k, v) :: m) <-> keys_sorted m /\ Forall (str_lt k) (map fst m).
Proof.
  unfold keys_sorted. cbn. split.
  - by intros [? ?]%StronglySorted_inv.
  - intros [? ?]. by constructor.
Qed.

Lemma keys_below_lookup k m :
  Forall (str_lt k) (map fst m) -> to_gmap m !! k = None.
Proof.
  intros H. apply not_elem_of_list_to_map_1. intros Hin.
  rewrite Forall_forall in H. by apply (str_lt_irrefl k), H.
Qed.

Lemma keys_below_trans k k' m :
  str_lt k k' -> Forall (str_lt k') (map fst m) -> Forall (str_lt k) (map fst m).
Proof. intros Hk Hf. eapply Forall_impl; [exact Hf|]. intros x. by apply str_lt_trans. Qed.

Lemma find_to_gmap m key : keys_sorted m -> find m key = to_gmap m !! key.
Proof.
  induction m as [|[k x] m IH]; [done|].
  intros [Hs Hk]%keys_sorted_cons. cbn [find]. unfold to_gmap. cbn.
  key_case k key.
  - intros ->. by rewrite lookup_insert_eq.
  - intros Hlt. rewrite lookup_insert_ne by (intros ->; by eapply str_lt_irrefl).
    symmetry. apply keys_below_lookup. by eapply keys_below_trans.
  - intros Hlt. rewrite lookup_insert_ne by (intros ->; by eapply str_lt_irrefl).
    by apply IH.
Qed.

Lemma ins_keys_above k m key v :
  str_lt k key -> Forall (str_lt k) (map fst m) -> Forall (str_lt k) (map fst (ins m key v)).
Proof.
  intros Hk. induction m as [|[k' x] m IH]; intros Hf; cbn in *.
  - by constructor.
  - inv Hf. repeat case_match; cbn; repeat constructor; auto.
Qed.

Lemma ins_sorted m key v : keys_sorted m -> keys_sorted (ins m key v).
Proof.
  induction m as [|[k x] m IH]; intros Hs.
  { repeat constructor. }
  apply keys_sorted_cons in Hs as [Hs Hk]. cbn [ins]. key_case k key.
  - intros ->. by apply keys_sorted_cons.
  - intros Hlt. rewrite !keys_sorted_cons. cbn. split_and!; [done..|].
    constructor; [done|]. by eapply keys_below_trans.
  - intros Hlt. apply keys_sorted_cons. split; [by apply IH|]. by apply ins_keys_above.
Qed.

Lemma ins_to_gmap m key v : to_gmap (ins m key v) = <[key := v]> (to_gmap m).
Proof.
  unfold to_gmap. induction m as [|[k x] m IH]; [done|]. cbn [ins]. cbn.
  key_case k key.
  - intros ->. cbn. by rewrite insert_insert_eq.
  - done.
  - intros Hlt. cbn. rewrite IH. apply insert_insert_ne.
    intros ->. by eapply str_lt_irrefl.
Qed.

Lemma del_keys_above k m key :
  Forall (str_lt k) (map fst m) -> Forall (str_lt k) (map fst (del m key)).
Proof.
  induction m as [|[k' x] m IH]; intros Hf; cbn in *; [done|].
  inv Hf. repeat case_match; cbn; repeat constructor; auto.
Qed.

Lemma del_sorted m key : keys_sorted m -> keys_sorted (del m key).
Proof.
  induction m as [|[k x] m IH]; intros Hs; [done|].
  apply keys_sorted_cons in Hs as [Hs Hk]. cbn [del].
  repeat case_match; [done|by apply keys_sorted_cons|].
  apply keys_sorted_cons. split; [by apply IH|]. by apply del_keys_above.
Qed.

Lemma del_to_gmap m key : keys_sorted m -> to_gmap (del m key) = delete key (to_gmap m).
Proof.
  unfold to_gmap. induction m as [|[k x] m IH]; intros Hs; [cbn; by rewrite delete_empty|].
  apply keys_sorted_cons in Hs as [Hs Hk]. cbn [del]. cbn. key_case k key.
  - intros ->. rewrite delete_insert_eq. symmetry. by apply delete_id, keys_below_lookup.
  - intros Hlt. cbn. rewrite delete_insert_ne by (intros ->; by eapply str_lt_irrefl).
    rewrite delete_id; [done|]. apply keys_below_lookup. by eapply keys_below_trans.
  - intros Hlt. cbn. rewrite delete_insert_ne by (intros ->; by eapply str_lt_irrefl).
    by rewrite IH.
Qed.

(** Lookup laws used by the clients. *)
Lemma map_get_insert_eq m key v : map_get (obj_insert m key v) key = Some v.
Proof.
  rewrite map_get_find, obj_insert_ins. induction m as [|[k x] m IH]; cbn.
  { by rewrite String.eqb_refl. }
  destruct (String.eqb k key) eqn:E1; cbn; [by rewrite E1|].
  destruct (String.ltb key k) eqn:E2; cbn; [by rewrite String.eqb_refl|].
  by rewrite E1, E2.
Qed.

Lemma map_get_insert_ne m key key' v :
  keys_sorted m -> key <> key' -> map_get (obj_insert m key v) key' = map_get m key'.
Proof.
  intros Hs Hne. rewrite !map_get_find, obj_insert_ins, !find_to_gmap, ins_to_gmap
    by auto using ins_sorted. by rewrite lookup_insert_ne.
Qed.

Lemma obj_insert_sorted m key v : keys_sorted m -> keys_sorted (obj_insert m key v).
Proof. rewrite obj_insert_ins. apply ins_sorted. Qed.
Lemma obj_remove_sorted m key : keys_sorted m -> keys_sorted (obj_remove m key).
Proof. rewrite obj_remove_del. apply del_sorted. Qed.
Lemma map_get_to_gmap m key : keys_sorted m -> map_get m key = to_gmap m !! key.
Proof. rewrite map_get_find. apply find_to_gmap. Qed.
Lemma obj_insert_to_gmap m key v : to_gmap (obj_insert m key v) = <[key := v]> (to_gmap m).
Proof. rewrite obj_insert_ins. apply ins_to_gmap. Qed.
Lemma obj_remove_to_gmap m key :
  keys_sorted m -> to_gmap (obj_remove m key) = delete key (to_gmap m).
Proof. rewrite obj_remove_del. apply del_to_gmap. Qed.

Lemma map_get_In m key v : map_get m key = Some v -> In (key, v) m.
Proof.
  unfold map_get. destruct (locate m key) eqn:E; [|done].
  apply locate_Ok_lookup in E as [y Hy]. rewrite Hy. cbn. intros [= ->].
  apply list_elem_of_In. by eapply list_elem_of_lookup_2.
Qed.
Lemma map_get_None_notin m key :
  keys_sorted m -> map_get m key = None <-> key ∉ map fst m.
Proof. intros Hs. rewrite map_get_to_gmap by done. symmetry. apply not_elem_of_list_to_map. Qed.

Lemma ins_In m key v k x : In (k, x) (ins m key v) -> (k, x) = (key, v) \/ In (k, x) m.
Proof.
  induction m as [|[k' y] m IH]; cbn; [intuition congruence|].
  destruct (String.eqb_spec k' key) as [->|]; [cbn; intuition congruence|].
  case_match; cbn; intuition congruence.
Qed.
Lemma obj_insert_In m key v k x :
  In (k, x) (obj_insert m key v) -> (k, x) = (key, v) \/ In (k, x) m.
Proof. rewrite obj_insert_ins. apply ins_In. Qed.
Lemma obj_insert_Forall (P : string * V -> Prop) m key v :
  Forall P m -> P (key, v) -> Forall P (obj_insert m key v).
Proof.
  rewrite !List.Forall_forall. intros Hm Hv [k x] [->|Hin]%obj_insert_In; auto.
Qed.
Lemma obj_remove_Forall (P : string * V -> Prop) m key :
  Forall P m -> Forall P (obj_remove m key).
Proof.
  rewrite obj_remove_del. induction 1 as [|[k x] m Hx Hm IH]; cbn; [constructor|].
  repeat case_match; by repeat constructor.
Qed.

Lemma obj_insert_insert m key v v' :
  obj_insert (obj_insert m key v) key v' = obj_insert m key v'.
Proof.
  rewrite !obj_insert_ins. induction m as [|[k x] m IH]; cbn.
  { by rewrite String.eqb_refl. }
  destruct (String.eqb k key) eqn:E1; cbn; [by rewrite E1|].
  destruct (String.ltb key k) eqn:E2; cbn; [by rewrite String.eqb_refl|].
  rewrite E1, E2. by f_equal.
Qed.

Lemma obj_insert_id m key v :
  map_get m key = Some v -> obj_insert m key v = m.
Proof.
  rewrite map_get_find, obj_insert_ins. induction m as [|[k x] m IH]; cbn; [done|].
  destruct (String.eqb_spec k key) as [->|]; [by intros [= ->]|].
  case_match; [done|]. intros ?. by rewrite IH.
Qed.

Lemma to_gmap_cons k x m : to_gmap ((k, x) :: m) = <[k := x]> (to_gmap m).
Proof. reflexivity. Qed.
Lemma to_gmap_head k x m : to_gmap ((k, x) :: m) !! k = Some x.
Proof. rewrite to_gmap_cons. apply lookup_insert_eq. Qed.
Lemma to_gmap_before_head k k' x m :
  keys_sorted ((k, x) :: m) -> str_lt k' k -> to_gmap ((k, x) :: m) !! k' = None.
Proof.
  intros [Hs Hk]%keys_sorted_cons Hlt. apply (keys_below_lookup k'). cbn.
  constructor; [done|]. by eapply keys_below_trans.
Qed.

(** Two ordered vectors with the same contents are the same vector: the
    iteration sequence is a function of the contents. *)
Lemma keys_sorted_ext m1 m2 :
  keys_sorted m1 -> keys_sorted m2 -> to_gmap m1 = to_gmap m2 -> m1 = m2.
Proof.
  revert m2. induction m1 as [|[k x] m1 IH]; intros [|[k' x'] m2] H1 H2 Heq; [done|..].
  - pose proof (to_gmap_head k' x' m2) as H. by rewrite <- Heq in H.
  - pose proof (to_gmap_head k x m1) as H. by rewrite Heq in H.
  - pose proof (to_gmap_head k x m1) as Hh. pose proof (to_gmap_head k' x' m2) as Hh'.
    assert (k = k') as <-.
    { destruct (String.compare k k') eqn:E; [by apply str_compare_eq| |].
      - by rewrite Heq, (to_gmap_before_head k' k) in Hh.
      - apply str_compare_Gt in E. by rewrite <- Heq, (to_gmap_before_head k k') in Hh'. }
    rewrite Heq, Hh' in Hh. injection Hh as <-. f_equal.
    apply keys_sorted_cons in H1 as [H1 Hk1]. apply keys_sorted_cons in H2 as [H2 Hk2].
    apply IH; [done..|]. rewrite !to_gmap_cons in Heq. apply (f_equal (delete k)) in Heq.
    by rewrite !delete_insert_id in Heq by (by apply keys_below_lookup).
Qed.

Lemma map_get_In_sorted m key v : keys_sorted m -> In (key, v) m -> map_get m key = Some v.
Proof.
  rewrite map_get_find. induction m as [|[k x] m IH]; [done|].
  intros [Hs Hk]%keys_sorted_cons [Heq|Hin]; cbn [find].
  - injection Heq as -> ->. by rewrite String.eqb_refl.
  - rewrite List.Forall_forall in Hk.
    assert (str_lt k key) as Hlt by (apply Hk; change key with (fst (key, v)); by apply in_map).
    key_case k key; [..|auto]; intros H; exfalso; [subst; by eapply str_lt_irrefl|].
    by eapply (str_lt_irrefl k), str_lt_trans.
Qed.

(** Ordered vectors of the same length, the first contained in the second. *)
Lemma keys_sorted_same_length m n :
  keys_sorted m -> keys_sorted n -> length m = length n ->
  (forall k v, In (k, v) m -> map_get n k = Some v) -> m = n.
Proof.
  intros Hm Hn Hlen Hsub. apply keys_sorted_ext; [done..|].
  assert (forall m, keys_sorted m -> size (to_gmap m) = length m) as Hsize.
  { clear. intros m. induction m as [|[k x] m IH]; [done|].
    intros [Hs Hk]%keys_sorted_cons. rewrite to_gmap_cons.
    rewrite map_size_insert_None by (by apply keys_below_lookup). cbn. by rewrite IH. }
  apply map_subseteq_size_eq; [|rewrite !Hsize by done; lia].
  apply map_subseteq_spec. intros k v Hk. rewrite <- map_get_to_gmap in Hk by done.
  apply map_get_In in Hk. rewrite <- map_get_to_gmap by done. by apply Hsub.
Qed.

Lemma map_get_from_aux pairs m key :
  keys_sorted m ->
  map_get (fold_left (fun acc '(k, v) => snd (map_insert acc k v)) pairs m) key =
  match assoc_last pairs key with Some x => Some x | None => map_get m key end.
Proof.
  revert m. induction pairs as [|[k v] pairs IH]; intros m Hm; cbn; [done|].
  rewrite IH by by apply obj_insert_sorted. destruct (assoc_last pairs key); [done|].
  destruct (String.eqb_spec k key) as [->|Hne].
  - apply map_get_insert_eq.
  - by apply map_get_insert_ne.
Qed.
Lemma map_get_from pairs key : map_get (map_from (V := V) pairs) key = assoc_last pairs key.
Proof.
  unfold map_from. rewrite map_get_from_aux by apply keys_sorted_nil.
  by destruct (assoc_last pairs key).
Qed.

Lemma map_from_sorted_aux pairs m :
  keys_sorted m ->
  keys_sorted (fold_left (fun acc '(k, v) => snd (map_insert acc k v)) pairs m).
Proof.
  revert m. induction pairs as [|[k v] pairs IH]; intros m Hm; cbn; [done|].
  by apply IH, obj_insert_sorted.
Qed.
Lemma map_from_sorted pairs : keys_sorted (map_from (V := V) pairs).
Proof. apply map_from_sorted_aux, keys_sorted_nil. Qed.

Lemma map_from_In_aux pairs m kv :
  In kv (fold_left (fun acc '(k, v) => snd (map_insert acc k v)) pairs m) ->
  In kv pairs \/ In kv m.
Proof.
  revert m. induction pairs as [|[k v] pairs IH]; intros m Hin; cbn in *; [by right|].
  destruct kv as [k' v']. apply IH in Hin as [Hin|Hin]; [by left; right|].
  apply obj_insert_In in Hin as [Heq|Hin]; [left; left; congruence|by right].
Qed.
Lemma map_from_In pairs kv : In kv (map_from (V := V) pairs) -> In kv pairs.
Proof. intros [?|[]]%map_from_In_aux. done. Qed.

(** The representation invariant, as a test. *)
Fixpoint keys_sortedb m : bool :=
  match m with
  | (k, _) :: ((k', _) :: _) as m' => String.ltb k k' && keys_sortedb m'
  | _ => true
  end.
Lemma keys_sortedb_spec m : keys_sortedb m = true <-> keys_sorted m.
Proof.
  induction m as [|[k x] m IH]; [split; [intros _; apply keys_sorted_nil|done]|].
  destruct m as [|[k' x'] m]; [split; [intros _; repeat constructor|done]|].
  change (keys_sortedb ((k, x) :: (k', x') :: m))
    with (String.ltb k k' && keys_sortedb ((k', x') :: m)).
  rewrite andb_true_iff, IH, ltb_str_lt, (keys_sorted_cons k). cbn. split.
  - intros [Hk Hs]. split; [done|]. constructor; [done|].
    apply keys_sorted_cons in Hs as [_ Hs]. by eapply keys_below_trans.
  - intros [Hs Hk]. by inv Hk.
Qed.

(** Inserting entries in key order rebuilds the vector. *)
Lemma ins_above m key v :
  Forall (fun k => str_lt k key) (map fst m) -> ins m key v = m ++ [(key, v)].
Proof.
  induction m as [|[k x] m IH]; cbn; [done|]. intros [Hk Hm]%Forall_cons.
  key_case k key.
  - intros ->. by apply str_lt_irrefl in Hk.
  - intros Hlt. exfalso. by apply (str_lt_irrefl k), (str_lt_trans _ key).
  - intros _. by rewrite IH.
Qed.
Lemma map_from_id pairs : keys_sorted pairs -> map_from (V := V) pairs = pairs.
Proof.
  assert (forall m, keys_sorted (m ++ pairs) ->
    fold_left (fun acc '(k, v) => snd (map_insert acc k v)) pairs m = m ++ pairs) as H.
  { induction pairs as [|[k v] pairs IH]; intros m Hs; cbn; [by rewrite app_nil_r|].
    change (snd (map_insert m k v)) with (obj_insert m k v).
    assert (obj_insert m k v = m ++ [(k, v)]) as ->.
    { rewrite obj_insert_ins. apply ins_above. unfold keys_sorted in Hs.
      rewrite map_app in Hs. apply StronglySorted_app in Hs as (Hlt & _ & _).
      apply Forall_forall. intros k' Hk'. apply Hlt; [done|]. cbn. by apply elem_of_cons; left. }
    rewrite IH by (by rewrite <- app_assoc). by rewrite <- app_assoc. }
  intros Hs. exact (H [] Hs).
Qed.
End KaniMapLaws.

#[export] Hint Resolve keys_sorted_nil obj_insert_sorted obj_remove_sorted
  obj_insert_Forall obj_remove_Forall map_from_sorted : evorule.
#[export] Hint Rewrite @map_get_insert_eq @obj_insert_insert : evorule_rw.
#[global] Opaque locate.

(** * Properties *)

(** The ordered vector implements a finite map.  On a map with strictly
    increasing keys (which every operation re-establishes), insertion,
    removal, lookup, membership and size are those of the abstract map,
    insertion and removal report the value that was there, a write through
    [get_mut] is an insertion at a present key, and the vector itself is
    determined by the abstract contents, so iteration order is canonical. *)
Lemma kani_map_refines_gmap {V} (m : ObjectMap V) (key : string) (v : V) :
  keys_sorted m ->
  map_get m key = to_gmap m !! key /\
  map_contains_key m key = bool_decide (is_Some (to_gmap m !! key)) /\
  map_len m = size (to_gmap m) /\
  (let '(old, m') := map_insert m key v in
   keys_sorted m' /\ old = to_gmap m !! key /\ to_gmap m' = <[key := v]> (to_gmap m)) /\
  (let '(old, m') := map_remove m key in
   keys_sorted m' /\ old = to_gmap m !! key /\ to_gmap m' = delete key (to_gmap m)) /\
  (match map_get_mut m key with
   | Some (x, put) => to_gmap m !! key = Some x /\
       forall y, keys_sorted (put y) /\ to_gmap (put y) = <[key := y]> (to_gmap m)
   | None => to_gmap m !! key = None
   end) /\
  (forall m', keys_sorted m' -> to_gmap m' = to_gmap m -> m' = m).
Proof.
  intros Hs. split_and!.
  - by apply map_get_to_gmap.
  - apply eq_bool_prop_intro. rewrite !Is_true_true, bool_decide_eq_true.
    rewrite map_contains_key_get. by rewrite map_get_to_gmap.
  - induction m as [|[k x] m IH]; [done|]. apply keys_sorted_cons in Hs as [Hs Hk].
    rewrite to_gmap_cons, map_size_insert_None by (by apply keys_below_lookup).
    cbn. f_equal. by apply IH.
  - pose proof (map_insert_old m key v) as Ho. pose proof (obj_insert_sorted m key v Hs) as Hs'.
    pose proof (obj_insert_to_gmap m key v) as Hg. unfold obj_insert in *.
    destruct (map_insert m key v) as [old m']. rewrite <- map_get_to_gmap by done. done.
  - pose proof (map_remove_old m key) as Ho. pose proof (obj_remove_sorted m key Hs) as Hs'.
    pose proof (obj_remove_to_gmap m key Hs) as Hg. unfold obj_remove in *.
    destruct (map_remove m key) as [old m']. rewrite <- map_get_to_gmap by done. done.
  - pose proof (map_get_mut_spec m key) as Hm. rewrite <- map_get_to_gmap by done.
    destruct (map_get_mut m key) as [[x put]|]; [|done]. destruct Hm as [Hx Hp].
    split; [done|]. intros y. rewrite Hp. split; [by apply obj_insert_sorted|].
    apply obj_insert_to_gmap.
  - intros m' Hs' Heq. by apply keys_sorted_ext.
Qed.
Lemma kani_map_refines_gmap_witness :
  keys_sorted [("a", 1); ("c", 3)] /\
  to_gmap (snd (map_insert [("a", 1); ("c", 3)] "b" 2)) =
    <["b" := 2]> (to_gmap [("a", 1); ("c", 3)]).
Proof.
  assert (keys_sorted [("a", 1); ("c", 3)]) as Hs by (repeat constructor).
  split; [exact Hs|].
  destruct (kani_map_refines_gmap [("a", 1); ("c", 3)] "b" 2 Hs) as (_ & _ & _ & H & _).
  exact (proj2 (proj2 H)).
Defined.
