(* ===== verification/Value.v ===== *)
(** The JSON value of the kernel, [evorule-tcb/src/value.rs]: the data type
    with its hand-written equality and order, its accessors and object
    operations, and its [Display]. *)

From S2P Require Import Prelude.
From S2P Require Import ObjectMap.

#[local] Set Warnings "-register-all".
(** [enum JsonValue].  An [i64] and a [u64] are integers, bounded by [wf]. *)
Inductive JsonValue : Type :=
| JNull
| JBool (b : bool)
| JInteger (i : Z)
| JU64 (v : Z)
| JString (s : string)
| JArray (l : list JsonValue)
| JObject (m : ObjectMap JsonValue).

(** Induction with hypotheses for the elements of arrays and objects. *)
Section JsonInd.
Context (P : JsonValue -> Prop).
Context (HNull : P JNull) (HBool : forall b, P (JBool b))
    (HInteger : forall i, P (JInteger i)) (HU64 : forall v, P (JU64 v))
    (HString : forall s, P (JString s))
    (HArray : forall l, Forall P l -> P (JArray l))
    (HObject : forall m, Forall (fun kv => P (snd kv)) m -> P (JObject m)).

Fixpoint json_ind (v : JsonValue) : P v :=
  match v with
  | JNull => HNull
  | JBool b => HBool b
  | JInteger i => HInteger i
  | JU64 u => HU64 u
  | JString s => HString s
  | JArray l =>
      HArray l ((fix go l : Forall P l :=
        match l with
        | [] => @List.Forall_nil _ P
        | x :: l' => @List.Forall_cons _ P x l' (json_ind x) (go l')
        end) l)
  | JObject m =>
      HObject m ((fix go m : Forall (fun kv : string * JsonValue => P (snd kv)) m :=
        match m with
        | [] => @List.Forall_nil _ _
        | kv :: m' => @List.Forall_cons _ _ kv m' (json_ind (snd kv)) (go m')
        end) m)
  end.
End JsonInd.

(** * Equality and order *)

(** [impl PartialEq for JsonValue]. *)
Fixpoint json_eqb (a b : JsonValue) {struct a} : bool :=
  match a, b with
  | JNull, JNull => true
  | JBool x, JBool y => Bool.eqb x y
  | JInteger x, JInteger y => Z.eqb x y
  | JU64 x, JU64 y => Z.eqb x y
  | JString x, JString y => String.eqb x y
  | JArray xs, JArray ys =>
      forall2b json_eqb xs ys
  | JObject m, JObject n =>
      Nat.eqb (map_len m) (map_len n) &&
      forallb (fun '(k, v) =>
        match map_get n k with
        | Some bv => json_eqb v bv
        | None => false
        end) m
  | _, _ => false
  end.

(** [impl Ord for JsonValue]: values of different variants are ordered by
    variant, objects lexicographically by their entries. *)
Definition bool_cmp (a b : bool) : comparison :=
  match a, b with
  | false, true => Lt
  | true, false => Gt
  | _, _ => Eq
  end.

Fixpoint json_cmp (a b : JsonValue) {struct a} : comparison :=
  match a, b with
  | JNull, JNull => Eq
  | JNull, _ => Lt
  | _, JNull => Gt
  | JBool x, JBool y => bool_cmp x y
  | JBool _, _ => Lt
  | _, JBool _ => Gt
  | JInteger x, JInteger y => Z.compare x y
  | JInteger _, _ => Lt
  | _, JInteger _ => Gt
  | JU64 x, JU64 y => Z.compare x y
  | JU64 _, _ => Lt
  | _, JU64 _ => Gt
  | JString x, JString y => String.compare x y
  | JString _, _ => Lt
  | _, JString _ => Gt
  | JArray xs, JArray ys =>
      lex_cmp json_cmp xs ys
  | JArray _, _ => Lt
  | _, JArray _ => Gt
  | JObject m, JObject n =>
      lex_cmp (fun '(ak, av) '(bk, bv) =>
        match String.compare ak bk with
        | Eq => json_cmp av bv
        | c => c
        end) m n
  end.

(** * Accessors *)

Definition is_object (v : JsonValue) : bool := match v with JObject _ => true | _ => false end.
Definition is_array (v : JsonValue) : bool := match v with JArray _ => true | _ => false end.
Definition is_integer (v : JsonValue) : bool := match v with JInteger _ => true | _ => false end.
Definition is_u64_value (v : JsonValue) : bool := match v with JU64 _ => true | _ => false end.
Definition is_string (v : JsonValue) : bool := match v with JString _ => true | _ => false end.
Definition is_bool (v : JsonValue) : bool := match v with JBool _ => true | _ => false end.
Definition is_null (v : JsonValue) : bool := match v with JNull => true | _ => false end.

Definition json_len (v : JsonValue) : option nat :=
  match v with
  | JArray l => Some (length l)
  | JObject m => Some (map_len m)
  | _ => None
  end.
Definition json_is_empty (v : JsonValue) : bool :=
  match v with
  | JArray l => match l with [] => true | _ => false end
  | JObject m => map_is_empty m
  | _ => false
  end.

Definition as_i64 (v : JsonValue) : option Z := match v with JInteger i => Some i | _ => None end.
Definition as_u64 (v : JsonValue) : option Z := match v with JU64 u => Some u | _ => None end.
Definition as_str (v : JsonValue) : option string := match v with JString s => Some s | _ => None end.
Definition as_bool (v : JsonValue) : option bool := match v with JBool b => Some b | _ => None end.
Definition as_array (v : JsonValue) : option (list JsonValue) :=
  match v with JArray l => Some l | _ => None end.
Definition as_object (v : JsonValue) : option (ObjectMap JsonValue) :=
  match v with JObject m => Some m | _ => None end.

(** [executor::json_type_name]. *)
Definition json_type_name (v : JsonValue) : string :=
  match v with
  | JNull => "null"
  | JBool _ => "boolean"
  | JInteger _ => "integer"
  | JU64 _ => "u64"
  | JString _ => "string"
  | JArray _ => "array"
  | JObject _ => "object"
  end.

(** * Object operations: each returns the old value and the new object *)

(** [JsonValue::get]. *)
Definition json_get (v : JsonValue) (key : string) : option JsonValue :=
  match v with JObject m => map_get m key | _ => None end.
(** [JsonValue::get_mut]. *)
Definition json_get_mut (v : JsonValue) (key : string) :
    option (JsonValue * (JsonValue -> JsonValue)) :=
  match v with
  | JObject m =>
      match map_get_mut m key with
      | Some (x, put) => Some (x, fun x' => JObject (put x'))
      | None => None
      end
  | _ => None
  end.
(** [JsonValue::insert]. *)
Definition json_insert (v : JsonValue) (key : string) (x : JsonValue) :
    option JsonValue * JsonValue :=
  match v with
  | JObject m => let '(old, m') := map_insert m key x in (old, JObject m')
  | _ => (None, v)
  end.
(** [JsonValue::try_insert]: the error carries the existing value. *)
Definition json_try_insert (v : JsonValue) (key : string) (x : JsonValue) :
    Result JsonValue JsonValue :=
  match v with
  | JObject m =>
      if map_contains_key m key then
        match map_get m key with
        | Some existing => Err existing
        | None => Err JNull
        end
      else Ok (JObject (obj_insert m key x))
  | _ => Err JNull
  end.
(** [JsonValue::remove]. *)
Definition json_remove (v : JsonValue) (key : string) : option JsonValue * JsonValue :=
  match v with
  | JObject m => let '(old, m') := map_remove m key in (old, JObject m')
  | _ => (None, v)
  end.
(** [JsonValue::clear]. *)
Definition json_clear (v : JsonValue) : JsonValue :=
  match v with
  | JArray _ => JArray []
  | JObject _ => JObject map_new
  | _ => v
  end.

(** [JsonValue::object_from_pairs_owned] and [object_from_pairs]. *)
Definition object_from_pairs_owned (pairs : list (string * JsonValue)) : JsonValue :=
  JObject (fold_left (fun map '(k, v) => snd (map_insert map k v)) pairs map_new).
Definition object_from_pairs (pairs : list (string * JsonValue)) : JsonValue :=
  JObject (fold_left (fun map '(k, v) => snd (map_insert map k v)) pairs map_new).
Definition empty_object : JsonValue := JObject map_new.
Definition empty_array : JsonValue := JArray [].

(** * Display *)

Definition hex_digit (n : nat) : ascii :=
  if (n <? 10)%nat then ascii_of_nat (48 + n) else ascii_of_nat (87 + n).
(** One character of [escape_json_string].  The characters it rewrites are
    ASCII, so working on the UTF-8 bytes gives the code's output. *)
Definition escape_char (c : ascii) : string :=
  let n := nat_of_ascii c in
  if (n =? 34)%nat then "\" +:+ String "034" ""
  else if (n =? 92)%nat then "\\"
  else if (n =? 10)%nat then "\n"
  else if (n =? 13)%nat then "\r"
  else if (n =? 9)%nat then "\t"
  else if (n =? 8)%nat then "\b"
  else if (n =? 12)%nat then "\f"
  else if (n <? 32)%nat then
    "\u00" +:+ String (hex_digit (n / 16)) (String (hex_digit (n mod 16)) "")
  else String c "".
Fixpoint escape_body (s : string) : string :=
  match s with
  | EmptyString => ""
  | String c s' => escape_char c +:+ escape_body s'
  end.
(** [escape_json_string]. *)
Definition escape_json_string (s : string) : string :=
  String "034" (escape_body s +:+ String "034" "").

Definition bool_display (b : bool) : string := if b then "true" else "false".

(** [impl Display for JsonValue]. *)
Fixpoint json_display (v : JsonValue) : string :=
  match v with
  | JNull => "null"
  | JBool b => bool_display b
  | JInteger i => pretty i
  | JU64 u => pretty u
  | JString s => escape_json_string s
  | JArray l =>
      "[" +:+
      (fix go i l :=
         match l with
         | [] => ""
         | x :: l' => (if (0 <? i)%nat then ", " else "") +:+ json_display x +:+ go (S i) l'
         end) 0%nat l
      +:+ "]"
  | JObject m =>
      "{" +:+
      (fix go i m :=
         match m with
         | [] => ""
         | (k, x) :: m' =>
             (if (0 <? i)%nat then ", " else "") +:+ escape_json_string k
             +:+ ": " +:+ json_display x +:+ go (S i) m'
         end) 0%nat m
      +:+ "}"
  end.

(** * Well-formed values: bounded integers and ordered objects *)

Fixpoint wf_json (v : JsonValue) : bool :=
  match v with
  | JInteger i => is_i64 i
  | JU64 u => is_u64 u
  | JArray l => forallb wf_json l
  | JObject m => keys_sortedb m && forallb (fun kv => wf_json (snd kv)) m
  | _ => true
  end.

Lemma wf_JArray l : wf_json (JArray l) = true <-> Forall (fun v => wf_json v = true) l.
Proof. cbn. rewrite forallb_forall, List.Forall_forall. done. Qed.
Lemma wf_JObject m :
  wf_json (JObject m) = true <->
  keys_sorted m /\ Forall (fun kv => wf_json (snd kv) = true) m.
Proof.
  cbn. rewrite andb_true_iff, keys_sortedb_spec, forallb_forall, List.Forall_forall. done.
Qed.

(** * The equality of the code is equality of well-formed values *)

Lemma json_eqb_eq a b :
  wf_json a = true -> wf_json b = true -> json_eqb a b = true <-> a = b.
Proof.
  revert b. induction a as [|x|i|u|s|l IH|m IH] using json_ind; intros b Ha Hb;
    destruct b as [|y|j|w|t|k|n]; cbn [json_eqb]; try done.
  - rewrite Bool.eqb_true_iff. naive_solver.
  - rewrite Z.eqb_eq. naive_solver.
  - rewrite Z.eqb_eq. naive_solver.
  - rewrite String.eqb_eq. naive_solver.
  - rewrite wf_JArray in Ha, Hb.
    rewrite (forall2b_eq _ (fun v => wf_json v = true)) by done. naive_solver.
  - rewrite wf_JObject in Ha, Hb. destruct Ha as [Hs Hm], Hb as [Ht Hn].
    rewrite andb_true_iff, Nat.eqb_eq, forallb_forall. split.
    + intros [Hlen Hall]. f_equal. apply keys_sorted_same_length; [done..|].
      intros k v Hin. specialize (Hall (k, v) Hin). cbn in Hall.
      destruct (map_get n k) as [bv|] eqn:Eg; [|done]. f_equal.
      rewrite List.Forall_forall in IH, Hm, Hn.
      pose proof (map_get_In _ _ _ Eg) as Hin'.
      symmetry. by apply (IH (k, v) Hin bv (Hm (k, v) Hin) (Hn (k, bv) Hin')).
    + intros [= <-]. split; [done|]. intros [k v] Hin.
      rewrite (map_get_In_sorted _ _ _ Hs Hin).
      rewrite List.Forall_forall in IH, Hm.
      by apply (IH (k, v) Hin v (Hm (k, v) Hin) (Hm (k, v) Hin)).
Qed.

(** * The order of the code is a total order *)

Lemma json_cmp_eq a b : json_cmp a b = Eq <-> a = b.
Proof.
  revert b. induction a as [|x|i|u|s|l IH|m IH] using json_ind;
    intros [|y|j|w|t|k|n]; cbn [json_cmp]; try done.
  - destruct x, y; cbn; naive_solver.
  - rewrite Z.compare_eq_iff. naive_solver.
  - rewrite Z.compare_eq_iff. naive_solver.
  - rewrite str_compare_eq. naive_solver.
  - rewrite lex_cmp_eq by done. naive_solver.
  - rewrite lex_cmp_eq; [naive_solver|]. eapply Forall_impl; [exact IH|].
    intros [k v] Hv [k' v']. pose proof (str_compare_eq k k') as Hk.
    destruct (String.compare k k'); [rewrite (Hv v'); naive_solver|naive_solver..].
Qed.

Lemma json_cmp_sym a b : json_cmp b a = CompOpp (json_cmp a b).
Proof.
  revert b. induction a as [|x|i|u|s|l IH|m IH] using json_ind;
    intros [|y|j|w|t|k|n]; cbn [json_cmp]; try done.
  - by destruct x, y.
  - apply Z.compare_antisym.
  - apply Z.compare_antisym.
  - apply String.compare_antisym.
  - by apply lex_cmp_sym.
  - apply lex_cmp_sym. eapply Forall_impl; [exact IH|].
    intros [k v] Hv [k' v']. rewrite (String.compare_antisym k' k).
    destruct (String.compare k k'); cbn; [apply Hv|done..].
Qed.

Lemma json_cmp_trans a b c :
  json_cmp a b = Lt -> json_cmp b c = Lt -> json_cmp a c = Lt.
Proof.
  revert b c. induction a as [|x|i|u|s|l IH|m IH] using json_ind;
    intros [|y|j|w|t|k|n] [|z|j'|w'|t'|k'|n']; cbn [json_cmp]; try done.
  - by destruct x, y, z.
  - rewrite !Z.compare_lt_iff. lia.
  - rewrite !Z.compare_lt_iff. lia.
  - apply str_lt_trans.
  - apply lex_cmp_trans; [apply json_cmp_eq|done].
  - apply lex_cmp_trans.
    { intros [k v] [k' v']. pose proof (str_compare_eq k k') as Hk.
      pose proof (json_cmp_eq v v'). destruct (String.compare k k'); naive_solver. }
    eapply Forall_impl; [exact IH|]. intros [k v] Hv [k1 v1] [k2 v2].
    pose proof (str_compare_eq k k1) as H1. pose proof (str_compare_eq k1 k2) as H2.
    pose proof (str_lt_trans k k1 k2) as Ht. unfold str_lt in Ht.
    destruct (String.compare k k1) eqn:E1, (String.compare k1 k2) eqn:E2; try done.
    + destruct H1 as [-> _]; [|done]. rewrite E2. apply Hv.
    + destruct H1 as [-> _]; [|done]. by rewrite E2.
    + destruct H2 as [<- _]; [|done]. by rewrite E1.
    + by rewrite Ht.
Qed.

#[export] Instance JsonValue_eq_dec : EqDecision JsonValue.
Proof.
  intros a b. destruct (json_cmp a b) eqn:E; [left; by apply json_cmp_eq|right..];
    intros H%json_cmp_eq; congruence.
Defined.

(** * Reading an escaped string back *)

Definition hex_value (c : ascii) : option nat :=
  let n := nat_of_ascii c in
  if ((48 <=? n) && (n <=? 57))%nat then Some (n - 48)%nat
  else if ((97 <=? n) && (n <=? 102))%nat then Some (n - 87)%nat
  else None.
(** A reader of JSON string bodies up to the closing quote: the specification
    [escape_json_string] is measured against. *)
Fixpoint read_body (s : string) : option (string * string) :=
  match s with
  | String c s' =>
      let n := nat_of_ascii c in
      if (n =? 34)%nat then Some ("", s')
      else if (n =? 92)%nat then
        match s' with
        | String e s'' =>
            let simple x := let! '(t, r) := read_body s'' in Some (String x t, r) in
            let m := nat_of_ascii e in
            if (m =? 34)%nat || (m =? 92)%nat then simple e
            else if Ascii.eqb e "n" then simple "010"%char
            else if Ascii.eqb e "r" then simple "013"%char
            else if Ascii.eqb e "t" then simple "009"%char
            else if Ascii.eqb e "b" then simple "008"%char
            else if Ascii.eqb e "f" then simple "012"%char
            else if Ascii.eqb e "u" then
              match s'' with
              | String "0" (String "0" (String h1 (String h0 r))) =>
                  let! a := hex_value h1 in
                  let! b := hex_value h0 in
                  let! '(t, r') := read_body r in
                  Some (String (ascii_of_nat (16 * a + b)) t, r')
              | _ => None
              end
            else None
        | EmptyString => None
        end
      else if (n <? 32)%nat then None
      else let! '(t, r) := read_body s' in Some (String c t, r)
  | EmptyString => None
  end.
Definition read_json_string (s : string) : option (string * string) :=
  match s with
  | String c s' => if (nat_of_ascii c =? 34)%nat then read_body s' else None
  | EmptyString => None
  end.

Lemma read_escape_char c t r s :
  read_body s = Some (t, r) -> read_body (escape_char c +:+ s) = Some (String c t, r).
Proof.
  intros Hs.
  destruct c as [[] [] [] [] [] [] [] []]; 
    (match goal with |- context [escape_char ?c] =>
      let e := eval vm_compute in (escape_char c) in change (escape_char c) with e end);
    cbn -[Nat.mul]; rewrite Hs; reflexivity.
Qed.

Lemma read_escape_body s r :
  read_body (escape_body s +:+ String "034" r) = Some (s, r).
Proof.
  induction s as [|c s IH]; [done|]. cbn [escape_body].
  rewrite <- str_app_assoc. by apply read_escape_char.
Qed.

(** * Heights *)

(** The height of a value: what bounds the recursions that go through the
    fields of an object or the elements of an array. *)
Fixpoint json_height (v : JsonValue) : nat :=
  match v with
  | JArray l => S (foldr Nat.max 0 (map json_height l))
  | JObject m => S (foldr Nat.max 0 (map (fun kv => json_height (snd kv)) m))
  | _ => 1
  end.
Lemma foldr_max_ge x l : x ∈ l -> (x <= foldr Nat.max 0 l)%nat.
Proof. induction l as [|y l IH]; [by intros ?%not_elem_of_nil|]. intros [->|Hx%IH]%elem_of_cons; cbn; lia. Qed.
Lemma json_get_height t key v : json_get t key = Some v -> (json_height v < json_height t)%nat.
Proof.
  destruct t as [| | | | | |m]; try done. cbn. intros Hg%map_get_In. apply list_elem_of_In in Hg.
  apply Nat.lt_succ_r, foldr_max_ge, list_elem_of_fmap. by exists (key, v).
Qed.
Lemma array_height v l x : as_array v = Some l -> x ∈ l -> (json_height x < json_height v)%nat.
Proof.
  destruct v; try done. intros [= ->] Hx. cbn. apply Nat.lt_succ_r, foldr_max_ge, list_elem_of_fmap. by exists x.
Qed.

(** * Properties *)

(** The equality and the order of values.  On well-formed values the
    hand-written equality is equality; the order is total and strict, its
    [Equal] is equality of values, so equality and order agree. *)
Lemma json_order_laws :
  (forall a b, wf_json a = true -> wf_json b = true ->
    (json_eqb a b = true <-> a = b) /\
    (json_eqb a b = true <-> json_cmp a b = Eq)) /\
  (forall a b, json_cmp a b = Eq <-> a = b) /\
  (forall a b, json_cmp b a = CompOpp (json_cmp a b)) /\
  (forall a b c, json_cmp a b = Lt -> json_cmp b c = Lt -> json_cmp a c = Lt).
Proof.
  split_and!.
  - intros a b Ha Hb. rewrite json_cmp_eq. by split; apply json_eqb_eq.
  - apply json_cmp_eq.
  - apply json_cmp_sym.
  - apply json_cmp_trans.
Qed.
Lemma json_order_laws_witness :
  json_eqb (JInteger 5) (JU64 5) = false /\
  (json_eqb (JInteger 5) (JU64 5) = true <-> JInteger 5 = JU64 5).
Proof.
  split; [reflexivity|]. apply (proj1 json_order_laws); reflexivity.
Defined.

(** Displayed strings read back.  The quoted and escaped text of any
    string is a complete JSON string literal: a reader recovers the string and
    stops exactly at its end, whatever follows; in particular no two strings
    are displayed alike. *)
Lemma escape_json_string_roundtrip s rest :
  read_json_string (escape_json_string s +:+ rest) = Some (s, rest).
Proof.
  unfold escape_json_string. cbn. rewrite <- str_app_assoc. apply read_escape_body.
Qed.
