(* ===== verification/Error.v ===== *)
(** The kernel's error type, [evorule-tcb/src/error.rs]. *)

From S2P Require Import Prelude.

(** [enum TcbError]. *)
Inductive TcbError : Type :=
| MissingField (field : string)
| UnknownMetaInstruction (meta_type : string)
| UnknownDomainType (domain_type : string)
| UnknownOperation (operation : string)
| InvalidState (reason : string)
| InvalidType (expected actual context : string)
| PathResolutionFailed (path reason : string)
| NestingTooDeep (limit : nat)
| IntegerOverflow (operation : string) (left right : Z)
| TooManyTransformRules (limit actual : nat)
| TooManyExecutedInstructions (limit : nat)
| MissingRejected (detail : string).

#[export] Instance TcbError_eq_dec : EqDecision TcbError.
Proof. solve_decision. Defined.

(** [impl Display for TcbError]. *)
Definition tcb_error_display (e : TcbError) : string :=
  match e with
  | MissingField field => "missing field: " +:+ field
  | UnknownMetaInstruction meta_type => "unknown meta instruction: " +:+ meta_type
  | UnknownDomainType domain_type => "unknown domain type: " +:+ domain_type
  | UnknownOperation operation => "unknown operation: " +:+ operation
  | InvalidState reason => "invalid state: " +:+ reason
  | InvalidType expected actual context =>
      "type mismatch in '" +:+ context +:+ "': expected " +:+ expected
        +:+ ", got " +:+ actual
  | PathResolutionFailed path reason =>
      "path resolution failed: " +:+ path +:+ " - " +:+ reason
  | NestingTooDeep limit =>
      "branch nesting depth exceeds limit (" +:+ pretty limit +:+ ")"
  | IntegerOverflow operation lhs rhs =>
      "integer overflow: " +:+ pretty lhs +:+ " " +:+ operation +:+ " " +:+ pretty rhs
  | TooManyTransformRules limit actual =>
      "core_eval transform rules exceed limit: " +:+ pretty actual +:+ " > "
        +:+ pretty limit
  | TooManyExecutedInstructions limit =>
      "total executed meta instructions exceed limit (" +:+ pretty limit +:+ ")"
  | MissingRejected detail =>
      "domain missing rejected by on_missing=error declaration: " +:+ detail
  end.
