(* ===== verification/Path.v ===== *)
(** Path resolution, [evorule-tcb/src/path.rs]: the segment parser, the
    read resolution [resolve_path] and the write resolution
    [resolve_path_mut], a mutable reference being modelled as the value read
    together with the function that writes a new value back. *)

From S2P Require Import Prelude ObjectMap Value.

(** [enum PathSegment]. *)
Inductive PathSegment : Type :=
| Field (name : string)
| Index (name : option string) (idx : Z).

#[export] Instance PathSegment_eq_dec : EqDecision PathSegment.
Proof. solve_decision. Defined.

(** * The parser *)

Definition digit_value (c : ascii) : option Z :=
  let n := Z.of_nat (nat_of_ascii c) in
  if ((48 <=? n)%Z && (n <=? 57)%Z) then Some (n - 48)%Z else None.
Fixpoint parse_digits (acc : Z) (s : string) : option Z :=
  match s with
  | EmptyString => Some acc
  | String c s' =>
      let! d := digit_value c in
      let acc' := (acc * 10 + d)%Z in
      if (acc' <=? u64_max)%Z then parse_digits acc' s' else None
  end.
(** [str::parse::<usize>] on a 64-bit target: an optional [+], then at least
    one decimal digit, without overflow. *)
Definition parse_usize (s : string) : option Z :=
  match s with
  | EmptyString => None
  | String "+" EmptyString => None
  | String "+" s' => parse_digits 0 s'
  | _ => parse_digits 0 s
  end.

(** The inner loop of [parse_path_segments]: the index text up to the closing
    bracket and the remaining characters. *)
Fixpoint scan_index (chars idx_str : string) : option (string * string) :=
  match chars with
  | EmptyString => None
  | String ic chars' =>
      if Ascii.eqb ic "]" then Some (idx_str, chars')
      else scan_index chars' (push_char idx_str ic)
  end.

Definition after_index_ok (chars : string) : bool :=
  match chars with
  | EmptyString => true
  | String c _ => Ascii.eqb c "." || Ascii.eqb c "["
  end.

(** The main loop of [parse_path_segments]; [None] is the function's early
    return.  Every iteration consumes a character, so the length of the text
    is enough fuel ([parse_loop_fuel]). *)
Fixpoint parse_loop (fuel : nat) (chars : string) (segments : list PathSegment)
    (current : string) (escaped just_closed_index : bool) :
    option (list PathSegment * string * bool * bool) :=
  match fuel with
  | O => None
  | S fuel =>
      match chars with
      | EmptyString => Some (segments, current, escaped, just_closed_index)
      | String c rest =>
          if escaped then
            parse_loop fuel rest segments (push_char current c) false false
          else if Ascii.eqb c "\" then
            parse_loop fuel rest segments current true just_closed_index
          else if Ascii.eqb c "." then
            if str_is_empty current && negb just_closed_index then None
            else
              parse_loop fuel rest
                (if str_is_empty current then segments else segments ++ [Field current])
                "" false false
          else if Ascii.eqb c "[" then
            let field := if str_is_empty current then None else Some current in
            let! '(idx_str, rest') := scan_index rest "" in
            if str_is_empty idx_str then None
            else
              let! idx := parse_usize idx_str in
              if after_index_ok rest' then
                parse_loop fuel rest' (segments ++ [Index field idx]) "" false true
              else None
          else parse_loop fuel rest segments (push_char current c) false false
      end
  end.

(** [parse_path_segments]. *)
Definition parse_path_segments (path : string) : option (list PathSegment) :=
  let! '(segments, current, escaped, just_closed_index) :=
    parse_loop (S (String.length path)) path [] "" false false in
  if escaped then None
  else if str_is_empty current && negb just_closed_index then None
  else
    let segments := if str_is_empty current then segments else segments ++ [Field current] in
    match segments with
    | [] => None
    | _ => Some segments
    end.

(** * Reading *)

Definition resolve_segment (current : JsonValue) (seg : PathSegment) : option JsonValue :=
  match seg with
  | Field field =>
      match current with
      | JObject map => map_get map field
      | _ => None
      end
  | Index field idx =>
      let! target :=
        match field with
        | Some f => match current with JObject map => map_get map f | _ => None end
        | None => Some current
        end in
      match target with
      | JArray arr => vec_get arr idx
      | _ => None
      end
  end.

Fixpoint resolve_segments (current : JsonValue) (segments : list PathSegment) :
    option JsonValue :=
  match segments with
  | [] => Some current
  | seg :: rest =>
      let! current := resolve_segment current seg in
      resolve_segments current rest
  end.

(** [resolve_path]. *)
Definition resolve_path (state : JsonValue) (path : string) : option JsonValue :=
  if str_is_empty path then None
  else if ends_with_char "." path then None
  else
    let! segments := parse_path_segments path in
    resolve_segments state segments.

(** [resolve_exec_path]. *)
Definition resolve_exec_path (state : JsonValue) (path : string) : option JsonValue :=
  let stripped := default path (strip_prefix "__exec__." path) in
  let! exec := json_get state "__exec__" in
  resolve_path exec stripped.

(** * Writing *)

(** A mutable reference into a value: what it points to, and the whole value
    after a write through it. *)
Definition ref_mut (whole : Type) : Type := (JsonValue * (JsonValue -> whole)).

(** [arr.get_mut(idx)]. *)
Definition arr_get_mut (arr : list JsonValue) (idx : Z) : option (ref_mut JsonValue) :=
  let! v := vec_get arr idx in
  Some (v, fun v' => JArray (vec_set arr idx v')).

(** [resolve_path_mut_inner]. *)
Fixpoint resolve_path_mut_inner (state : JsonValue) (segments : list PathSegment) :
    option (ref_mut JsonValue) :=
  match segments with
  | [] => Some (state, fun v' => v')
  | first :: rest =>
      match first with
      | Field field =>
          let! '(value, put) := json_get_mut state field in
          let! '(v, put_rest) := resolve_path_mut_inner value rest in
          Some (v, fun v' => put (put_rest v'))
      | Index field idx =>
          let! '(target, put_target) :=
            match field with
            | Some f => json_get_mut state f
            | None => Some (state, fun v' => v')
            end in
          let! arr := as_array target in
          let! '(value, put) := arr_get_mut arr idx in
          let! '(v, put_rest) := resolve_path_mut_inner value rest in
          Some (v, fun v' => put_target (put (put_rest v')))
      end
  end.

(** [resolve_path_mut]. *)
Definition resolve_path_mut (state : JsonValue) (path : string) :
    option (ref_mut JsonValue) :=
  if str_is_empty path then None
  else if ends_with_char "." path then None
  else
    let! segments := parse_path_segments path in
    resolve_path_mut_inner state segments.

(** * The parser terminates within its fuel *)

Lemma scan_index_length chars idx_str i rest :
  scan_index chars idx_str = Some (i, rest) -> String.length rest < String.length chars.
Proof.
  revert idx_str. induction chars as [|c chars IH]; intros idx_str; cbn; [done|].
  case_match; [intros [= <- <-]; lia|]. intros H'%IH. lia.
Qed.

Lemma parse_loop_fuel f1 f2 chars segs cur esc jci :
  String.length chars < f1 -> String.length chars < f2 ->
  parse_loop f1 chars segs cur esc jci = parse_loop f2 chars segs cur esc jci.
Proof.
  revert f2 chars segs cur esc jci. induction f1 as [|f1 IH];
    intros [|f2] chars segs cur esc jci H1 H2; try lia.
  destruct chars as [|c rest]; [done|]. cbn in H1, H2 |- *.
  assert (forall segs cur esc jci, parse_loop f1 rest segs cur esc jci =
    parse_loop f2 rest segs cur esc jci) as IH' by (intros; apply IH; lia).
  rewrite !IH'. destruct esc; [done|]. destruct (Ascii.eqb c "\"); [done|].
  destruct (Ascii.eqb c "."); [done|]. destruct (Ascii.eqb c "["); [|done].
  destruct (scan_index rest "") as [[i rest']|] eqn:E; [|done].
  apply scan_index_length in E. destruct (str_is_empty i); [done|].
  destruct (parse_usize i); [|done]. case_match; [|done]. apply IH; lia.
Qed.

(** The loop with enough fuel, and its equations. *)
Definition parse_run (chars : string) segs cur esc jci :=
  parse_loop (S (String.length chars)) chars segs cur esc jci.

Lemma parse_run_nil segs cur esc jci :
  parse_run "" segs cur esc jci = Some (segs, cur, esc, jci).
Proof. done. Qed.

Lemma parse_run_cons c rest segs cur esc jci :
  parse_run (String c rest) segs cur esc jci =
  if esc then parse_run rest segs (push_char cur c) false false
  else if Ascii.eqb c "\" then parse_run rest segs cur true jci
  else if Ascii.eqb c "." then
    if str_is_empty cur && negb jci then None
    else parse_run rest (if str_is_empty cur then segs else segs ++ [Field cur]) "" false false
  else if Ascii.eqb c "[" then
    let field := if str_is_empty cur then None else Some cur in
    let! '(idx_str, rest') := scan_index rest "" in
    if str_is_empty idx_str then None
    else
      let! idx := parse_usize idx_str in
      if after_index_ok rest' then parse_run rest' (segs ++ [Index field idx]) "" false true
      else None
  else parse_run rest segs (push_char cur c) false false.
Proof.
  unfold parse_run at 1. cbn [String.length].
  generalize (le_n (S (S (String.length rest)))).
  generalize (S (String.length rest)) at 2 3. intros f Hf. cbn [parse_loop].
  assert (forall segs cur esc jci, parse_loop f rest segs cur esc jci =
    parse_run rest segs cur esc jci) as IH by (intros; apply parse_loop_fuel; lia).
  rewrite !IH.
  destruct esc; [done|]. destruct (Ascii.eqb c "\"); [done|].
  destruct (Ascii.eqb c "."); [done|]. destruct (Ascii.eqb c "["); [|done].
  destruct (scan_index rest "") as [[i rest']|] eqn:E; [|done].
  apply scan_index_length in E. destruct (str_is_empty i); [done|].
  destruct (parse_usize i); [|done]. case_match; [|done]. apply parse_loop_fuel; lia.
Qed.
#[global] Opaque parse_run.

(** * The printer, the inverse of the parser *)

Definition is_special (c : ascii) : bool :=
  Ascii.eqb c "\" || Ascii.eqb c "." || Ascii.eqb c "[".
Fixpoint escape_name (s : string) : string :=
  match s with
  | EmptyString => ""
  | String c s' =>
      if is_special c then String "\" (String c (escape_name s'))
      else String c (escape_name s')
  end.
Definition render_segment (seg : PathSegment) : string :=
  match seg with
  | Field f => escape_name f
  | Index f n =>
      from_option escape_name "" f +:+ String "[" (pretty (Z.to_N n) +:+ "]")
  end.
Fixpoint render_segments (segs : list PathSegment) : string :=
  match segs with
  | [] => ""
  | [seg] => render_segment seg
  | seg :: rest => render_segment seg +:+ String "." (render_segments rest)
  end.

(** The segments the parser produces: names are not empty, an index fits a
    [usize]. *)
Definition wf_segment (seg : PathSegment) : bool :=
  match seg with
  | Field f => negb (str_is_empty f)
  | Index f n => from_option (fun f => negb (str_is_empty f)) true f && is_u64 n
  end.

Lemma digit_value_char x :
  (x < 10)%N -> digit_value (pretty_N_char x) = Some (Z.of_N x).
Proof.
  intros Hx. destruct x as [|p]; [done|]. do 4 (destruct p; try done; try lia).
Qed.

Lemma parse_digits_go x s :
  (Z.of_N x <= u64_max)%Z ->
  parse_digits 0 (pretty_N_go x s) = parse_digits (Z.of_N x) s.
Proof.
  revert s. induction (N.lt_wf_0 x) as [x _ IH]; intros s Hx.
  destruct (decide (0 < x)%N) as [Hp|Hp].
  - rewrite pretty_N_go_step by done. rewrite IH by (by apply N.div_lt ||
      (pose proof (N.div_lt x 10); lia)).
    cbn [parse_digits]. rewrite digit_value_char by (by apply N.mod_lt).
    replace (Z.of_N (x `div` 10) * 10 + Z.of_N (x `mod` 10))%Z with (Z.of_N x)
      by (pose proof (N.div_mod x 10); lia).
    destruct (Z.leb_spec (Z.of_N x) u64_max); [done|lia].
  - replace x with 0%N by lia. by rewrite pretty_N_go_0.
Qed.

Lemma parse_usize_digit_head s :
  str_is_empty s = false -> str_all is_digit s = true -> parse_usize s = parse_digits 0 s.
Proof.
  destruct s as [|c s]; [done|]. cbn. intros _ [Hc _]%andb_true_iff.
  destruct c as [[] [] [] [] [] [] [] []]; done.
Qed.

Lemma parse_usize_pretty n :
  is_u64 n = true -> parse_usize (pretty (Z.to_N n)) = Some n.
Proof.
  intros Hn%is_u64_spec.
  rewrite parse_usize_digit_head by auto using pretty_N_nonempty, pretty_N_digits.
  unfold pretty, pretty_N. case_decide as Hd.
  - replace n with 0%Z by lia. done.
  - rewrite parse_digits_go by lia. cbn. f_equal. lia.
Qed.

Lemma scan_index_digits s acc rest :
  str_all is_digit s = true ->
  scan_index (s +:+ String "]" rest) acc = Some (acc +:+ s, rest).
Proof.
  revert acc. induction s as [|c s IH]; intros acc; cbn.
  - intros _. by rewrite str_app_nil_r.
  - intros [Hc Hs]%andb_true_iff.
    destruct (Ascii.eqb_spec c "]") as [->|]; [done|].
    rewrite IH by done. by rewrite push_char_app.
Qed.

(** * Round trip

    One segment's text moves the parser over that segment, whatever follows. *)

Definition starts_segment (chars : string) : bool :=
  match chars with
  | EmptyString => true
  | String c _ => Ascii.eqb c "."
  end.

Lemma parse_run_escape s chars segs cur jci :
  str_is_empty s = false ->
  parse_run (escape_name s +:+ chars) segs cur false jci =
  parse_run chars segs (cur +:+ s) false false.
Proof.
  revert cur jci. induction s as [|c s IH]; intros cur jci; [done|]. intros _.
  assert (parse_run (escape_name s +:+ chars) segs (push_char cur c) false false =
    parse_run chars segs (cur +:+ String c s) false false) as IH'.
  { destruct s as [|c' s]; [done|]. rewrite IH by done. by rewrite push_char_app. }
  cbn. unfold is_special. destruct (Ascii.eqb c "\") eqn:E1; cbn.
  { by rewrite parse_run_cons, Ascii.eqb_refl, parse_run_cons. }
  destruct (Ascii.eqb c ".") eqn:E2; cbn.
  { by rewrite parse_run_cons, Ascii.eqb_refl, parse_run_cons. }
  destruct (Ascii.eqb c "[") eqn:E3; cbn.
  { by rewrite parse_run_cons, Ascii.eqb_refl, parse_run_cons. }
  by rewrite parse_run_cons, E1, E2, E3.
Qed.

(** The parser's accumulators after a segment: a field is still in [current],
    an index has been pushed. *)
Definition pending (segs : list PathSegment) (seg : PathSegment) :
    list PathSegment * string * bool :=
  match seg with
  | Field f => (segs, f, false)
  | Index _ _ => (segs ++ [seg], "", true)
  end.

Lemma parse_run_segment seg chars segs :
  wf_segment seg = true -> starts_segment chars = true ->
  parse_run (render_segment seg +:+ chars) segs "" false false =
  let '(segs', cur, jci) := pending segs seg in parse_run chars segs' cur false jci.
Proof.
  intros Hwf Hch. destruct seg as [f|f n]; cbn in Hwf |- *.
  - apply negb_true_iff in Hwf. by rewrite parse_run_escape.
  - apply andb_true_iff in Hwf as [Hf Hn].
    assert (forall cur jci, cur = default "" f ->
      parse_run (String "[" (pretty (Z.to_N n) +:+ "]") +:+ chars) segs cur false jci =
      parse_run chars (segs ++ [Index f n]) "" false true) as H.
    { intros cur jci ->. cbn. rewrite parse_run_cons. cbn.
      rewrite <- str_app_assoc. change ("]" +:+ chars) with (String "]" chars).
      rewrite scan_index_digits by apply pretty_N_digits. cbn.
      rewrite pretty_N_nonempty, parse_usize_pretty by done.
      assert (after_index_ok chars = true) as ->
        by (destruct chars; cbn in *; by rewrite ?Hch).
      do 2 f_equal. destruct f as [f|]; cbn in *; [|done].
      by apply negb_true_iff in Hf as ->. }
    rewrite <- str_app_assoc. destruct f as [f|]; cbn in Hf |- *.
    + apply negb_true_iff in Hf. rewrite parse_run_escape by done. by apply H.
    + by apply H.
Qed.

Lemma parse_run_segments segs done_segs :
  segs <> [] -> Forall (fun seg => wf_segment seg = true) segs ->
  exists segs' cur jci,
    parse_run (render_segments segs) done_segs "" false false =
      Some (segs', cur, false, jci) /\
    str_is_empty cur && negb jci = false /\
    (if str_is_empty cur then segs' else segs' ++ [Field cur]) = done_segs ++ segs.
Proof.
  intros Hne Hwf. revert done_segs Hne.
  induction Hwf as [|seg segs Hseg Hwf IH]; intros done_segs Hne; [done|].
  destruct segs as [|seg' segs].
  - cbn. rewrite <- (str_app_nil_r (render_segment seg)), parse_run_segment by done.
    destruct seg as [f|f n]; cbn in Hseg |- *; rewrite parse_run_nil;
      repeat esplit; cbn; try done; apply negb_true_iff in Hseg; by rewrite Hseg.
  - change (render_segments (seg :: seg' :: segs)) with
      (render_segment seg +:+ String "." (render_segments (seg' :: segs))).
    rewrite parse_run_segment by done.
    destruct (IH (done_segs ++ [seg])) as (segs' & cur & jci & H1 & H2 & H3); [done|].
    rewrite <- app_assoc in H3. exists segs', cur, jci. split; [|done].
    destruct seg as [f|f n]; cbn in Hseg |- *; rewrite parse_run_cons; cbn; [|done].
    apply negb_true_iff in Hseg. by rewrite Hseg.
Qed.

(** The segments of a parsed path are well formed. *)
Lemma parse_digits_bound acc s n :
  parse_digits acc s = Some n -> (0 <= acc <= u64_max)%Z -> (0 <= n <= u64_max)%Z.
Proof.
  revert acc. induction s as [|c s IH]; intros acc; cbn; [by intros [= ->]|].
  unfold digit_value. repeat case_match; try done. simplify_eq.
  intros Hd ?. apply (IH _ Hd). reflect_bool. lia.
Qed.
Lemma parse_usize_bound s n : parse_usize s = Some n -> is_u64 n = true.
Proof.
  intros H. apply is_u64_spec.
  assert (exists s', parse_digits 0 s' = Some n) as [s' H'].
  { destruct s as [|c s]; [done|]. unfold parse_usize in H.
    repeat (case_match; simplify_eq; try by eexists). }
  eapply parse_digits_bound; [done|]. done.
Qed.

Lemma parse_run_wf chars segs cur esc jci segs' cur' esc' jci' :
  parse_run chars segs cur esc jci = Some (segs', cur', esc', jci') ->
  Forall (fun seg => wf_segment seg = true) segs ->
  Forall (fun seg => wf_segment seg = true) segs'.
Proof.
  remember (String.length chars) as n eqn:Hn.
  revert chars segs cur esc jci Hn.
  induction (lt_wf n) as [n _ IH]; intros chars segs cur esc jci -> H Hsegs.
  destruct chars as [|c rest]; [by rewrite parse_run_nil in H; simplify_eq|].
  rewrite parse_run_cons in H.
  assert (forall segs cur esc jci, Forall (fun seg => wf_segment seg = true) segs ->
    parse_run rest segs cur esc jci = Some (segs', cur', esc', jci') ->
    Forall (fun seg => wf_segment seg = true) segs') as IH'
    by (intros; eapply IH; [|done..]; cbn; lia).
  destruct esc; [by eapply IH'|]. destruct (Ascii.eqb c "\"); [by eapply IH'|].
  destruct (Ascii.eqb c ".").
  { case_match; [done|]. eapply IH'; [|done]. destruct (str_is_empty cur) eqn:E; [done|].
    apply Forall_app_2; [done|]. constructor; [|done]. cbn. by rewrite E. }
  destruct (Ascii.eqb c "["); [|by eapply IH']. cbn in H.
  destruct (scan_index rest "") as [[i rest']|] eqn:E; [|done].
  apply scan_index_length in E. destruct (str_is_empty i); [done|].
  destruct (parse_usize i) as [k|] eqn:Ek; [|done]. case_match; [|done].
  eapply IH; [|done..|]; [cbn; lia|].
  apply Forall_app_2; [done|]. constructor; [|done]. cbn.
  apply parse_usize_bound in Ek as ->.
  by destruct (str_is_empty cur) eqn:E'; cbn; rewrite ?E'.
Qed.

(** * Elementary steps

    The specification of a path: a list of object keys and array positions,
    and a lens for each. *)
Inductive Step : Type :=
| Key (k : string)
| Idx (i : Z).

#[export] Instance Step_eq_dec : EqDecision Step.
Proof. solve_decision. Defined.

Definition seg_steps (seg : PathSegment) : list Step :=
  match seg with
  | Field f => [Key f]
  | Index None i => [Idx i]
  | Index (Some f) i => [Key f; Idx i]
  end.
Definition path_steps (segs : list PathSegment) : list Step := concat (map seg_steps segs).

Definition get_step (v : JsonValue) (s : Step) : option JsonValue :=
  match s, v with
  | Key k, JObject m => map_get m k
  | Idx i, JArray l => vec_get l i
  | _, _ => None
  end.
Definition put_step (v : JsonValue) (s : Step) (x : JsonValue) : JsonValue :=
  match s, v with
  | Key k, JObject m => JObject (obj_insert m k x)
  | Idx i, JArray l => JArray (vec_set l i x)
  | _, _ => v
  end.
Fixpoint get_steps (v : JsonValue) (ss : list Step) : option JsonValue :=
  match ss with
  | [] => Some v
  | s :: ss' => let! w := get_step v s in get_steps w ss'
  end.
Fixpoint put_steps (v : JsonValue) (ss : list Step) (x : JsonValue) : JsonValue :=
  match ss with
  | [] => x
  | s :: ss' =>
      match get_step v s with
      | Some w => put_step v s (put_steps w ss' x)
      | None => v
      end
  end.

(** Two step lists that separate before either ends. *)
Fixpoint diverge (ss1 ss2 : list Step) : bool :=
  match ss1, ss2 with
  | s1 :: ss1', s2 :: ss2' => if decide (s1 = s2) then diverge ss1' ss2' else true
  | _, _ => false
  end.

Lemma get_put_step v s x y :
  get_step v s = Some x -> get_step (put_step v s y) s = Some y.
Proof.
  destruct s as [k|i], v as [| | | | |l|m]; cbn; try done.
  - intros _. apply map_get_insert_eq.
  - apply vec_get_set_eq.
Qed.
Lemma put_get_step v s x : get_step v s = Some x -> put_step v s x = v.
Proof.
  destruct s as [k|i], v as [| | | | |l|m]; cbn; try done.
  - intros H. by rewrite obj_insert_id.
  - intros H. by rewrite vec_set_same.
Qed.
Lemma put_put_step v s x y : put_step (put_step v s x) s y = put_step v s y.
Proof.
  destruct s as [k|i], v as [| | | | |l|m]; cbn; try done.
  - by rewrite obj_insert_insert.
  - by rewrite vec_set_set.
Qed.
Definition nonneg_step (s : Step) : bool :=
  match s with Key _ => true | Idx i => (0 <=? i)%Z end.
Lemma get_put_step_ne v s s' x :
  wf_json v = true -> nonneg_step s = true -> s <> s' ->
  get_step (put_step v s x) s' = get_step v s'.
Proof.
  destruct s as [k|i], v as [| | | | |l|m], s' as [k'|i']; try done.
  - intros [Hs _]%wf_JObject _ Hne. cbn. apply map_get_insert_ne; congruence.
  - intros _ Hi Hne. cbn in Hi |- *. apply vec_get_set_ne; [congruence|]. by apply Z.leb_le.
Qed.
Lemma get_step_nonneg v s x : get_step v s = Some x -> nonneg_step s = true.
Proof.
  destruct s as [k|i], v as [| | | | |l|m]; cbn; try done.
  intros [? _]%vec_get_Some. by apply Z.leb_le.
Qed.
Lemma get_step_wf v s x : wf_json v = true -> get_step v s = Some x -> wf_json x = true.
Proof.
  destruct s as [k|i], v as [| | | | |l|m]; try done.
  - intros [_ Hf]%wf_JObject Hg%map_get_In. rewrite List.Forall_forall in Hf.
    by apply (Hf (k, x)).
  - intros Hl%wf_JArray Hg. by apply (Forall_vec_get _ _ _ _ Hl Hg).
Qed.
Lemma put_step_wf v s x :
  wf_json v = true -> wf_json x = true -> wf_json (put_step v s x) = true.
Proof.
  destruct s as [k|i], v as [| | | | |l|m]; try done; cbn [put_step].
  - rewrite !wf_JObject. intros [Hs Hf] Hx. auto with evorule.
  - rewrite !wf_JArray. intros. by apply Forall_vec_set.
Qed.

Lemma get_steps_app v ss1 ss2 :
  get_steps v (ss1 ++ ss2) = let! w := get_steps v ss1 in get_steps w ss2.
Proof.
  revert v. induction ss1 as [|s ss1 IH]; intros v; cbn; [done|].
  destruct (get_step v s); [apply IH|done].
Qed.
Lemma put_steps_app v ss1 ss2 x w :
  get_steps v ss1 = Some w ->
  put_steps v (ss1 ++ ss2) x = put_steps v ss1 (put_steps w ss2 x).
Proof.
  revert v. induction ss1 as [|s ss1 IH]; intros v; cbn; [by intros [= ->]|].
  destruct (get_step v s) eqn:E; [|done]. intros H. by rewrite (IH _ H).
Qed.
Lemma get_put_steps v ss x y :
  get_steps v ss = Some x -> get_steps (put_steps v ss y) ss = Some y.
Proof.
  revert v. induction ss as [|s ss IH]; intros v; cbn; [done|].
  destruct (get_step v s) eqn:E; [|done]. intros H.
  rewrite (get_put_step _ _ _ _ E). by apply IH.
Qed.
Lemma put_put_steps v ss x y z :
  get_steps v ss = Some x -> put_steps (put_steps v ss y) ss z = put_steps v ss z.
Proof.
  revert v. induction ss as [|s ss IH]; intros v; cbn; [done|].
  destruct (get_step v s) eqn:E; [|done]. intros H.
  by rewrite (get_put_step _ _ _ _ E), put_put_step, IH.
Qed.
Lemma put_get_steps v ss x : get_steps v ss = Some x -> put_steps v ss x = v.
Proof.
  revert v. induction ss as [|s ss IH]; intros v; cbn; [by intros [= ->]|].
  destruct (get_step v s) eqn:E; [|done]. intros H. rewrite IH by done.
  by apply put_get_step.
Qed.
Lemma get_steps_wf v ss x :
  wf_json v = true -> get_steps v ss = Some x -> wf_json x = true.
Proof.
  revert v. induction ss as [|s ss IH]; intros v Hv; cbn; [by intros [= <-]|].
  destruct (get_step v s) eqn:E; [|done]. apply IH. by eapply get_step_wf.
Qed.
Lemma put_steps_wf v ss x :
  wf_json v = true -> wf_json x = true -> wf_json (put_steps v ss x) = true.
Proof.
  revert v. induction ss as [|s ss IH]; intros v Hv Hx; cbn; [done|].
  destruct (get_step v s) eqn:E; [|done].
  apply put_step_wf; [done|]. apply IH; [exact (get_step_wf _ _ _ Hv E)|done].
Qed.
Lemma get_put_steps_diverge v ss1 ss2 x :
  wf_json v = true -> diverge ss1 ss2 = true ->
  get_steps (put_steps v ss1 x) ss2 = get_steps v ss2.
Proof.
  revert v ss2. induction ss1 as [|s1 ss1 IH]; intros v [|s2 ss2] Hv Hd; try done.
  cbn in Hd |- *. destruct (get_step v s1) as [w|] eqn:E1; [|done].
  destruct (decide (s1 = s2)) as [<-|Hne].
  - rewrite (get_put_step _ _ _ _ E1), E1. apply IH; [by eapply get_step_wf|done].
  - by rewrite get_put_step_ne by (try done; by eapply get_step_nonneg).
Qed.

(** The code's reading and writing of a segment list are those of its steps. *)
Lemma resolve_segments_steps v segs :
  resolve_segments v segs = get_steps v (path_steps segs).
Proof.
  revert v. induction segs as [|seg segs IH]; intros v; [done|].
  unfold path_steps. cbn. rewrite get_steps_app.
  destruct seg as [f|[f|] i], v as [| | | | |l|m]; cbn; try done.
  - by destruct (map_get m f).
  - destruct (map_get m f) as [[]|]; cbn; try done. by destruct (vec_get l i).
  - by destruct (vec_get l i).
Qed.

Lemma json_get_mut_step v k :
  match json_get_mut v k with
  | Some (x, put) => get_step v (Key k) = Some x /\ forall y, put y = put_step v (Key k) y
  | None => get_step v (Key k) = None
  end.
Proof.
  destruct v as [| | | | |l|m]; cbn; try done.
  pose proof (map_get_mut_spec m k) as H. destruct (map_get_mut m k) as [[x put]|]; [|done].
  destruct H as [H1 H2]. split; [done|]. intros y. by rewrite H2.
Qed.
Lemma arr_get_mut_step l i :
  match arr_get_mut l i with
  | Some (x, put) =>
      get_step (JArray l) (Idx i) = Some x /\ forall y, put y = put_step (JArray l) (Idx i) y
  | None => get_step (JArray l) (Idx i) = None
  end.
Proof. unfold arr_get_mut. cbn. by destruct (vec_get l i). Qed.

Lemma resolve_path_mut_inner_steps v segs :
  match resolve_path_mut_inner v segs with
  | Some (x, put) =>
      get_steps v (path_steps segs) = Some x /\
      forall y, put y = put_steps v (path_steps segs) y
  | None => get_steps v (path_steps segs) = None
  end.
Proof.
  revert v. induction segs as [|[f|fo i] segs IH]; intros v; [by split|..].
  - unfold path_steps. cbn [resolve_path_mut_inner map concat seg_steps app get_steps put_steps].
    fold (path_steps segs).
    pose proof (json_get_mut_step v f) as Hg. destruct (json_get_mut v f) as [[x put]|];
      [destruct Hg as [-> Hp]|by rewrite Hg].
    specialize (IH x). destruct (resolve_path_mut_inner x segs) as [[y put']|]; [|done].
    destruct IH as [-> Hp']. split; [done|]. intros z. by rewrite Hp, Hp'.
  - assert (match
        match fo with Some f => json_get_mut v f | None => Some (v, fun v' => v') end with
      | Some (t, put) =>
          get_steps v (from_option (fun f => [Key f]) [] fo) = Some t /\
          forall y, put y = put_steps v (from_option (fun f => [Key f]) [] fo) y
      | None => get_steps v (from_option (fun f => [Key f]) [] fo) = None
      end) as Ht.
    { destruct fo as [f|]; [|by split]. cbn [from_option get_steps put_steps].
      pose proof (json_get_mut_step v f) as Hg. destruct (json_get_mut v f) as [[x put]|];
        [destruct Hg as [-> Hp]; by split|by rewrite Hg]. }
    assert (path_steps (Index fo i :: segs) =
      from_option (fun f => [Key f]) [] fo ++ Idx i :: path_steps segs) as -> by (by destruct fo).
    cbn [resolve_path_mut_inner].
    destruct (match fo with Some f => json_get_mut v f | None => _ end) as [[t put]|];
      [destruct Ht as [Ht Hp]|]; rewrite get_steps_app, Ht; [|done].
    destruct t as [| | | | |l|m]; try done. cbn [as_array].
    pose proof (arr_get_mut_step l i) as Ha. destruct (arr_get_mut l i) as [[x puti]|];
      [destruct Ha as [Ha Hpi]|]; cbn [get_steps]; rewrite Ha; [|done].
    specialize (IH x). destruct (resolve_path_mut_inner x segs) as [[y put']|]; [|done].
    destruct IH as [-> Hp']. split; [done|]. intros z.
    rewrite (put_steps_app _ _ _ _ _ Ht). cbn [put_steps]. by rewrite Ha, Hp, Hpi, Hp'.
Qed.

(** The steps of a path text, when it denotes any. *)
Definition denotes (path : string) : option (list Step) :=
  if str_is_empty path then None
  else if ends_with_char "." path then None
  else path_steps <$> parse_path_segments path.

Lemma resolve_path_denotes v path :
  resolve_path v path = let! ss := denotes path in get_steps v ss.
Proof.
  unfold resolve_path, denotes. do 2 (case_match; [done|]).
  destruct (parse_path_segments path); cbn; [|done]. apply resolve_segments_steps.
Qed.
Lemma resolve_path_mut_denotes v path :
  match resolve_path_mut v path with
  | Some (x, put) => exists ss, denotes path = Some ss /\ get_steps v ss = Some x /\
      forall y, put y = put_steps v ss y
  | None => forall ss, denotes path = Some ss -> get_steps v ss = None
  end.
Proof.
  unfold resolve_path_mut, denotes. destruct (str_is_empty path); [done|].
  destruct (ends_with_char "." path); [done|].
  destruct (parse_path_segments path) as [segs|]; [|done]. cbn [fmap option_fmap option_map].
  pose proof (resolve_path_mut_inner_steps v segs) as Hm.
  destruct (resolve_path_mut_inner v segs) as [[x put]|]; [|naive_solver].
  destruct Hm. eauto.
Qed.

Lemma parse_path_segments_run path :
  parse_path_segments path =
  let! '(segments, current, escaped, just_closed_index) :=
    parse_run path [] "" false false in
  if escaped then None
  else if str_is_empty current && negb just_closed_index then None
  else
    let segments := if str_is_empty current then segments else segments ++ [Field current] in
    match segments with
    | [] => None
    | _ => Some segments
    end.
Proof. done. Qed.

Lemma parse_render segs :
  segs <> [] -> Forall (fun seg => wf_segment seg = true) segs ->
  parse_path_segments (render_segments segs) = Some segs.
Proof.
  intros Hne Hwf. rewrite parse_path_segments_run.
  destruct (parse_run_segments segs [] Hne Hwf) as (segs' & cur & jci & -> & -> & ->).
  by destruct segs.
Qed.

Lemma parse_wf path segs :
  parse_path_segments path = Some segs ->
  segs <> [] /\ Forall (fun seg => wf_segment seg = true) segs.
Proof.
  rewrite parse_path_segments_run.
  destruct (parse_run path [] "" false false) as [[[[segs' cur] esc] jci]|] eqn:E; [|done].
  apply parse_run_wf in E; [|done]. destruct esc; [done|].
  destruct (str_is_empty cur) eqn:Hc; cbn; [destruct jci; cbn; [|done]|].
  - destruct segs'; [done|]. by intros [= <-].
  - assert (Forall (fun seg => wf_segment seg = true) (segs' ++ [Field cur])) as Hf.
    { apply Forall_app_2; [done|]. constructor; [|done]. cbn. by rewrite Hc. }
    intros H. assert (segs = segs' ++ [Field cur]) as -> by (by destruct segs'; simplify_eq/=).
    split; [by destruct segs'|done].
Qed.

(** * Properties *)

(** Path syntax round trip.  The path parser recovers any non-empty list
    of well-formed segments (names with dots, brackets, backslashes or any
    byte, indices over the whole range of a [usize]) from its escaped text;
    everything the parser produces is such a list; so re-rendering a parsed
    path gives a text with the same parse. *)
Lemma path_parse_roundtrip :
  (forall segs, segs <> [] -> Forall (fun seg => wf_segment seg = true) segs ->
    parse_path_segments (render_segments segs) = Some segs) /\
  (forall path segs, parse_path_segments path = Some segs ->
    segs <> [] /\ Forall (fun seg => wf_segment seg = true) segs /\
    parse_path_segments (render_segments segs) = Some segs).
Proof.
  split; [apply parse_render|]. intros path segs [Hne Hwf]%parse_wf.
  by auto using parse_render.
Qed.
Lemma path_parse_roundtrip_witness :
  parse_path_segments "a\.b.items[12][3].\[x" =
    Some [Field "a.b"; Index (Some "items") 12; Index None 3; Field "[x"] /\
  parse_path_segments (render_segments
    [Field "a.b"; Index (Some "items") 12; Index None 3; Field "[x"]) =
    Some [Field "a.b"; Index (Some "items") 12; Index None 3; Field "[x"].
Proof.
  split; [vm_compute; reflexivity|].
  apply (proj1 path_parse_roundtrip); [discriminate|]. repeat constructor.
Defined.

(** The write resolution is a lens over the read resolution.  When
    [resolve_path_mut] resolves, [resolve_path] reads the same value, a value
    written through the reference is what [resolve_path] then reads, writing
    the current value back changes nothing, a second write overwrites the
    first, and writing a well-formed value keeps the state well formed; when
    it does not resolve, neither does the read. *)
Lemma resolve_path_mut_lens state path :
  wf_json state = true ->
  match resolve_path_mut state path with
  | Some (x, put) =>
      resolve_path state path = Some x /\ put x = state /\
      forall y,
        resolve_path (put y) path = Some y /\
        (wf_json y = true -> wf_json (put y) = true) /\
        match resolve_path_mut (put y) path with
        | Some (y', put') => y' = y /\ forall z, put' z = put z
        | None => False
        end
  | None => resolve_path state path = None
  end.
Proof.
  intros Hwf. pose proof (resolve_path_mut_denotes state path) as H.
  rewrite resolve_path_denotes.
  destruct (resolve_path_mut state path) as [[x put]|]; [|destruct (denotes path); auto].
  destruct H as (ss & Hd & Hg & Hp). rewrite Hd, Hp.
  split_and!; [done|by apply put_get_steps|]. intros y.
  assert (get_steps (put y) ss = Some y) as Hgy by (rewrite Hp; by eapply get_put_steps).
  rewrite resolve_path_denotes, Hd.
  split_and!; [done|rewrite Hp; by apply put_steps_wf|].
  pose proof (resolve_path_mut_denotes (put y) path) as H.
  destruct (resolve_path_mut (put y) path) as [[y' put']|];
    [|rewrite (H _ Hd) in Hgy; done].
  destruct H as (ss' & Hd' & Hg' & Hp'). rewrite Hd in Hd'. injection Hd' as <-.
  rewrite Hg' in Hgy. injection Hgy as ->. split; [done|]. intros z.
  rewrite Hp', !Hp. by eapply put_put_steps.
Qed.

(** The frame of a write.  Writing through one path leaves every path
    that separates from it (a different key or index before either ends)
    resolving as before, found or not found. *)
Lemma resolve_path_mut_frame state p1 p2 ss1 ss2 x put y :
  wf_json state = true ->
  denotes p1 = Some ss1 -> denotes p2 = Some ss2 -> diverge ss1 ss2 = true ->
  resolve_path_mut state p1 = Some (x, put) ->
  resolve_path (put y) p2 = resolve_path state p2.
Proof.
  intros Hwf H1 H2 Hd Hm. pose proof (resolve_path_mut_denotes state p1) as H.
  rewrite Hm in H. destruct H as (ss & Hss & _ & Hp). rewrite H1 in Hss. injection Hss as <-.
  rewrite !resolve_path_denotes, H2, Hp. by apply get_put_steps_diverge.
Qed.

Definition frame_example : JsonValue :=
  object_from_pairs [("a", JArray [JInteger 1; JInteger 2]); ("b", JString "x")].
Lemma resolve_path_mut_lens_witness :
  wf_json frame_example = true /\
  match resolve_path_mut frame_example "a[1]" with
  | Some (x, put) =>
      resolve_path frame_example "a[1]" = Some x /\ put x = frame_example /\
      forall y,
        resolve_path (put y) "a[1]" = Some y /\
        (wf_json y = true -> wf_json (put y) = true) /\
        match resolve_path_mut (put y) "a[1]" with
        | Some (y', put') => y' = y /\ forall z, put' z = put z
        | None => False
        end
  | None => resolve_path frame_example "a[1]" = None
  end.
Proof.
  split; [vm_compute; reflexivity|].
  apply (resolve_path_mut_lens frame_example "a[1]"). vm_compute; reflexivity.
Defined.
Lemma resolve_path_mut_frame_witness :
  exists put, resolve_path_mut frame_example "a[1]" = Some (JInteger 2, put) /\
  resolve_path (put JNull) "a[0]" = resolve_path frame_example "a[0]".
Proof.
  eexists. split; [reflexivity|].
  apply (resolve_path_mut_frame frame_example "a[1]" "a[0]" [Key "a"; Idx 1] [Key "a"; Idx 0]
    (JInteger 2)); vm_compute; reflexivity.
Defined.
