(* ===== verification/Domain.v ===== *)
(** Domain conditions, [evorule-tcb/src/domain.rs]: the three-valued
    evaluation of [eq], [lt], [in], [exists], [instruction], [all], [not] and
    [has_fields], its depth limit, and a declarative semantics it implements. *)

From S2P Require Import Prelude ObjectMap Value Error Path.

Definition MAX_DOMAIN_DEPTH : nat := 64.

(** [enum MissingReason], [enum DomainOutcome], [struct DomainAttribution],
    [enum OnMissingPolicy]. *)
Inductive MissingReason : Type :=
| PathNotFound
| Incomparable
| ValueLiteralAmbiguous.
Inductive DomainOutcome : Type :=
| Sat
| Unsat
| Missing (reason : MissingReason).
Record DomainAttribution : Type := {
  attr_outcome : DomainOutcome;
  attr_on_missing : option string;
}.
Inductive OnMissingPolicy : Type :=
| PolicyError
| PolicyUnsat.

#[export] Instance MissingReason_eq_dec : EqDecision MissingReason.
Proof. solve_decision. Defined.
#[export] Instance DomainOutcome_eq_dec : EqDecision DomainOutcome.
Proof. solve_decision. Defined.
#[export] Instance DomainAttribution_eq_dec : EqDecision DomainAttribution.
Proof. solve_decision. Defined.

Definition reason_label (r : MissingReason) : string :=
  match r with
  | PathNotFound => "path_not_found"
  | Incomparable => "incomparable"
  | ValueLiteralAmbiguous => "value_literal_ambiguous"
  end.
Definition to_bool (o : DomainOutcome) : bool :=
  match o with Sat => true | _ => false end.
Definition outcome_label (o : DomainOutcome) : string :=
  match o with Sat => "sat" | Unsat => "unsat" | Missing _ => "missing" end.
Definition missing_reason (o : DomainOutcome) : option string :=
  match o with Missing r => Some (reason_label r) | _ => None end.
Definition from_bool (b : bool) : DomainOutcome := if b then Sat else Unsat.
Definition policy_label (p : OnMissingPolicy) : string :=
  match p with PolicyError => "error" | PolicyUnsat => "unsat" end.

(** [resolve_domain_path]. *)
Definition resolve_domain_path (exec_state : JsonValue) (path : string) : option JsonValue :=
  resolve_exec_path exec_state path.

(** [is_root_segment_dot_path]. *)
Definition dot_path_segment (seg : string) : bool :=
  negb (str_is_empty seg) &&
  str_all (fun b => is_ascii_alphanumeric b || Ascii.eqb b "_") seg.
Definition is_root_segment_dot_path (s : string) : bool :=
  match split_char "." s with
  | root :: parts =>
      (String.eqb root "instruction" || String.eqb root "payload" || String.eqb root "queue")
      && forallb dot_path_segment parts && (1 <=? length parts)%nat
  | [] => false
  end.

(** [parse_on_missing]. *)
Definition parse_on_missing (domain : JsonValue) :
    Result (option OnMissingPolicy) TcbError :=
  match json_get domain "on_missing" with
  | None => Ok None
  | Some v =>
      let bad := Err (InvalidType (String "034" "error" +:+ String "034" " | "
        +:+ String "034" "unsat" +:+ String "034" "") (json_type_name v) "on_missing") in
      match as_str v with
      | Some s =>
          if String.eqb s "error" then Ok (Some PolicyError)
          else if String.eqb s "unsat" then Ok (Some PolicyUnsat)
          else bad
      | None => bad
      end
  end.

(** [dispatch_missing]. *)
Definition dispatch_missing (policy : option OnMissingPolicy) (reason : MissingReason)
    (context : string) : Result DomainOutcome TcbError :=
  match policy with
  | Some PolicyError => Err (MissingRejected (reason_label reason +:+ ": " +:+ context))
  | _ => Ok (Missing reason)
  end.

Definition value_context (value : JsonValue) : string := default "?" (as_str value).

(** [resolve_value_reference_outcome]. *)
Definition resolve_value_reference_outcome (value exec_state : JsonValue) :
    Result JsonValue MissingReason :=
  match value with
  | JString s =>
      if starts_with "__" s then ok_or (resolve_domain_path exec_state s) PathNotFound
      else if is_root_segment_dot_path s then Err ValueLiteralAmbiguous
      else Ok value
  | _ => Ok value
  end.

(** [declared_on_missing]. *)
Definition declared_on_missing (domain : JsonValue) : option string :=
  match parse_on_missing domain with
  | Ok (Some p) => Some (policy_label p)
  | _ => None
  end.

(** [get_str_field]. *)
Definition get_str_field (domain : JsonValue) (field : string) : Result string TcbError :=
  let? value := ok_or (json_get domain field) (MissingField field) in
  ok_or (as_str value) (InvalidType "string" (json_type_name value) field).

(** [evaluate_eq_outcome]. *)
Definition evaluate_eq_outcome (domain exec_state : JsonValue) :
    Result DomainOutcome TcbError :=
  let? policy := parse_on_missing domain in
  let? path := get_str_field domain "path" in
  let? value := ok_or (json_get domain "value") (MissingField "value") in
  match resolve_value_reference_outcome value exec_state with
  | Err reason => dispatch_missing policy reason (value_context value)
  | Ok target =>
      match resolve_domain_path exec_state path with
      | Some actual => Ok (if json_eqb actual target then Sat else Unsat)
      | None => dispatch_missing policy PathNotFound path
      end
  end.
Definition evaluate_eq (domain exec_state : JsonValue) : Result bool TcbError :=
  result_map to_bool (evaluate_eq_outcome domain exec_state).

(** [evaluate_lt_outcome]. *)
Definition evaluate_lt_outcome (domain exec_state : JsonValue) :
    Result DomainOutcome TcbError :=
  let? policy := parse_on_missing domain in
  let? path := get_str_field domain "path" in
  let? value := ok_or (json_get domain "value") (MissingField "value") in
  match resolve_value_reference_outcome value exec_state with
  | Err reason => dispatch_missing policy reason (value_context value)
  | Ok target =>
      match resolve_domain_path exec_state path with
      | None => dispatch_missing policy PathNotFound path
      | Some actual =>
          match as_i64 actual, as_i64 target with
          | Some a, Some t => Ok (if (a <? t)%Z then Sat else Unsat)
          | _, _ => dispatch_missing policy Incomparable path
          end
      end
  end.

(** [evaluate_in_outcome]: the loop over the literals, then the membership. *)
Fixpoint find_ambiguous (arr : list JsonValue) : option string :=
  match arr with
  | [] => None
  | JString s :: arr' => if is_root_segment_dot_path s then Some s else find_ambiguous arr'
  | _ :: arr' => find_ambiguous arr'
  end.
Definition evaluate_in_outcome (domain exec_state : JsonValue) :
    Result DomainOutcome TcbError :=
  let? policy := parse_on_missing domain in
  let? path := get_str_field domain "path" in
  let? values := ok_or (json_get domain "values") (MissingField "values") in
  let? arr := ok_or (as_array values)
    (InvalidType "array" (json_type_name values) "in.values") in
  match find_ambiguous arr with
  | Some s => dispatch_missing policy ValueLiteralAmbiguous s
  | None =>
      match resolve_domain_path exec_state path with
      | None => dispatch_missing policy PathNotFound path
      | Some actual => Ok (if existsb (fun v => json_eqb v actual) arr then Sat else Unsat)
      end
  end.

(** [evaluate_exists]. *)
Definition evaluate_exists (domain exec_state : JsonValue) : Result bool TcbError :=
  let? path := get_str_field domain "path" in
  Ok (match resolve_domain_path exec_state path with
      | Some JNull | None => false
      | Some _ => true
      end).

(** [evaluate_instruction_eq]. *)
Definition evaluate_instruction_eq (domain exec_state : JsonValue) : Result bool TcbError :=
  let? instr_type := get_str_field domain "instruction_type" in
  let current :=
    let! e := json_get exec_state "__exec__" in
    let! i := json_get e "instruction" in
    let! t := json_get i "type" in
    as_str t in
  Ok (match current with
      | Some t => String.eqb t instr_type
      | None => false
      end).

(** [evaluate_has_fields] and its loop over the field names. *)
Fixpoint has_fields_loop (obj : ObjectMap JsonValue) (fields : list JsonValue) :
    Result bool TcbError :=
  match fields with
  | [] => Ok true
  | field_value :: fields' =>
      let? field_name := ok_or (as_str field_value)
        (InvalidType "string" (json_type_name field_value) "has_fields.fields element") in
      match map_get obj field_name with
      | None => Ok false
      | Some value =>
          if match as_array value with Some [] => true | _ => false end then Ok false
          else if is_null value then Ok false
          else has_fields_loop obj fields'
      end
  end.
Definition evaluate_has_fields (domain exec_state : JsonValue) : Result bool TcbError :=
  let? path := get_str_field domain "path" in
  let? fields_val := ok_or (json_get domain "fields") (MissingField "fields") in
  let? fields := ok_or (as_array fields_val)
    (InvalidType "array" (json_type_name fields_val) "has_fields.fields") in
  match fields with
  | [] => Err (InvalidType "non-empty array" "empty array" "has_fields.fields")
  | _ =>
      match resolve_domain_path exec_state path with
      | None => Ok false
      | Some target =>
          match as_object target with
          | None => Ok false
          | Some obj => has_fields_loop obj fields
          end
      end
  end.

(** [evaluate_all_outcome] and [evaluate_not_outcome], over the recursive
    call. *)
Fixpoint all_loop (eval : JsonValue -> Result DomainOutcome TcbError)
    (arr : list JsonValue) : Result DomainOutcome TcbError :=
  match arr with
  | [] => Ok Sat
  | sub_domain :: arr' =>
      let? o := eval sub_domain in
      match o with
      | Sat => all_loop eval arr'
      | other => Ok other
      end
  end.
Definition evaluate_all_outcome (eval : JsonValue -> Result DomainOutcome TcbError)
    (domain : JsonValue) : Result DomainOutcome TcbError :=
  let? inner := ok_or (json_get domain "inner") (MissingField "inner") in
  let? arr := ok_or (as_array inner)
    (InvalidType "array" (json_type_name inner) "all.inner") in
  all_loop eval arr.
Definition evaluate_not_outcome (eval : JsonValue -> Result DomainOutcome TcbError)
    (domain : JsonValue) : Result DomainOutcome TcbError :=
  let? inner := ok_or (json_get domain "inner") (MissingField "inner") in
  let? o := eval inner in
  Ok (match o with
      | Sat => Unsat
      | Unsat => Sat
      | Missing m => Missing m
      end).

(** The dispatch of [evaluate_domain_outcome_inner] on the domain type, over
    the recursive call. *)
Definition evaluate_domain_type (eval : JsonValue -> Result DomainOutcome TcbError)
    (domain exec_state : JsonValue) : Result DomainOutcome TcbError :=
  let? domain_type := get_str_field domain "type" in
  if String.eqb domain_type "eq" then evaluate_eq_outcome domain exec_state
  else if String.eqb domain_type "lt" then evaluate_lt_outcome domain exec_state
  else if String.eqb domain_type "in" then evaluate_in_outcome domain exec_state
  else if String.eqb domain_type "exists" then
    result_map from_bool (evaluate_exists domain exec_state)
  else if String.eqb domain_type "instruction" then
    result_map from_bool (evaluate_instruction_eq domain exec_state)
  else if String.eqb domain_type "all" then evaluate_all_outcome eval domain
  else if String.eqb domain_type "not" then evaluate_not_outcome eval domain
  else if String.eqb domain_type "has_fields" then
    result_map from_bool (evaluate_has_fields domain exec_state)
  else Err (UnknownDomainType domain_type).

(** [evaluate_domain_outcome_inner].  The depth test bounds the recursion:
    [MAX_DOMAIN_DEPTH + 2 - depth] calls are enough fuel
    ([domain_fuel_irrelevant]). *)
Fixpoint evaluate_domain_outcome_inner (fuel : nat) (domain exec_state : JsonValue)
    (depth : nat) : Result DomainOutcome TcbError :=
  match fuel with
  | O => Err (NestingTooDeep MAX_DOMAIN_DEPTH)
  | S fuel =>
      if (MAX_DOMAIN_DEPTH <? depth)%nat then Err (NestingTooDeep MAX_DOMAIN_DEPTH)
      else
        evaluate_domain_type
          (fun sub => evaluate_domain_outcome_inner fuel sub exec_state (S depth))
          domain exec_state
  end.
Definition domain_fuel (depth : nat) : nat := MAX_DOMAIN_DEPTH + 2 - depth.

(** [evaluate_domain_outcome] and [evaluate_domain]. *)
Definition evaluate_domain_outcome (domain exec_state : JsonValue) :
    Result DomainOutcome TcbError :=
  evaluate_domain_outcome_inner (domain_fuel 0) domain exec_state 0.
Definition evaluate_domain (domain exec_state : JsonValue) : Result bool TcbError :=
  result_map to_bool (evaluate_domain_outcome_inner (domain_fuel 0) domain exec_state 0).

(** * Fuel and depth *)

Lemma all_loop_ext eval1 eval2 arr :
  (forall d, eval1 d = eval2 d) -> all_loop eval1 arr = all_loop eval2 arr.
Proof. intros H. induction arr as [|d arr IH]; cbn; [done|]. by rewrite H, IH. Qed.

Lemma evaluate_domain_type_ext eval1 eval2 d s :
  (forall sub, eval1 sub = eval2 sub) ->
  evaluate_domain_type eval1 d s = evaluate_domain_type eval2 d s.
Proof.
  intros H. unfold evaluate_domain_type, evaluate_all_outcome, evaluate_not_outcome.
  destruct (get_str_field d "type") as [t|e]; [|done].
  destruct (ok_or (json_get d "inner") (MissingField "inner")) as [i|e]; [|done].
  rewrite H. destruct (ok_or (as_array i) _) as [arr|e]; [|done].
  by rewrite (all_loop_ext _ _ arr H).
Qed.

Lemma domain_fuel_irrelevant f1 f2 d s depth :
  domain_fuel depth <= f1 -> domain_fuel depth <= f2 ->
  evaluate_domain_outcome_inner f1 d s depth = evaluate_domain_outcome_inner f2 d s depth.
Proof.
  unfold domain_fuel, MAX_DOMAIN_DEPTH.
  revert f2 d depth. induction f1 as [|f1 IH]; intros [|f2] d depth H1 H2; [done|..];
    cbn [evaluate_domain_outcome_inner]; unfold MAX_DOMAIN_DEPTH;
    destruct (Nat.ltb_spec 64 depth); try done; try lia.
  apply evaluate_domain_type_ext. intros sub. apply IH; lia.
Qed.

(** The evaluation at a depth, and its equation. *)
Definition eval_at (depth : nat) (s d : JsonValue) : Result DomainOutcome TcbError :=
  evaluate_domain_outcome_inner (domain_fuel depth) d s depth.

Lemma eval_at_eq depth s d :
  eval_at depth s d =
  if (MAX_DOMAIN_DEPTH <? depth)%nat then Err (NestingTooDeep MAX_DOMAIN_DEPTH)
  else evaluate_domain_type (eval_at (S depth) s) d s.
Proof.
  unfold eval_at at 1, domain_fuel, MAX_DOMAIN_DEPTH.
  destruct (64 + 2 - depth) as [|f] eqn:E; cbn [evaluate_domain_outcome_inner];
    unfold MAX_DOMAIN_DEPTH; destruct (Nat.ltb_spec 64 depth); try done; [lia|].
  apply evaluate_domain_type_ext. intros sub.
  apply domain_fuel_irrelevant; unfold domain_fuel, MAX_DOMAIN_DEPTH; lia.
Qed.
#[global] Opaque eval_at.

(** A result carries over when the recursive calls' results do. *)
Lemma all_loop_mono (eval1 eval2 : JsonValue -> Result DomainOutcome TcbError) arr o :
  (forall d o, eval1 d = Ok o -> eval2 d = Ok o) ->
  all_loop eval1 arr = Ok o -> all_loop eval2 arr = Ok o.
Proof.
  intros H. induction arr as [|d arr IH]; cbn; [done|].
  destruct (eval1 d) as [o'|e] eqn:E; [|done]. rewrite (H _ _ E). by destruct o'.
Qed.
Lemma evaluate_domain_type_mono (eval1 eval2 : JsonValue -> Result DomainOutcome TcbError) d s o :
  (forall d o, eval1 d = Ok o -> eval2 d = Ok o) ->
  evaluate_domain_type eval1 d s = Ok o -> evaluate_domain_type eval2 d s = Ok o.
Proof.
  intros H. unfold evaluate_domain_type, evaluate_all_outcome, evaluate_not_outcome.
  destruct (get_str_field d "type") as [t|e]; [|done].
  repeat (case_match; [done|]).
  destruct (ok_or (json_get d "inner") (MissingField "inner")) as [i|e]; [|done].
  case_match.
  { destruct (ok_or (as_array i) _) as [arr|e]; [|done]. by apply all_loop_mono. }
  case_match; [|done]. destruct (eval1 i) as [o'|e] eqn:E; [|done]. by rewrite (H _ _ E).
Qed.

Lemma eval_at_shallower n m s d o :
  m <= n -> eval_at n s d = Ok o -> eval_at m s d = Ok o.
Proof.
  remember (MAX_DOMAIN_DEPTH + 1 - n) as k eqn:Hk. revert n m d o Hk.
  induction k as [|k IH]; intros n m d o Hk Hle; rewrite !eval_at_eq;
    destruct (Nat.ltb_spec MAX_DOMAIN_DEPTH n); try done; [lia|].
  destruct (Nat.ltb_spec MAX_DOMAIN_DEPTH m); [lia|].
  apply evaluate_domain_type_mono. intros d' o'. apply IH; lia.
Qed.

(** * The declarative semantics

    A condition is an atom, decided by one look at the state, or a
    connective.  Conjunction is sequential and three-valued: it stops at the
    first condition that does not hold and takes its outcome; negation keeps
    a missing outcome. *)
Definition atom_types : list string := ["eq"; "lt"; "in"; "exists"; "instruction"; "has_fields"].
Definition atom_outcome (t : string) (d s : JsonValue) : Result DomainOutcome TcbError :=
  if String.eqb t "eq" then evaluate_eq_outcome d s
  else if String.eqb t "lt" then evaluate_lt_outcome d s
  else if String.eqb t "in" then evaluate_in_outcome d s
  else if String.eqb t "exists" then result_map from_bool (evaluate_exists d s)
  else if String.eqb t "instruction" then result_map from_bool (evaluate_instruction_eq d s)
  else if String.eqb t "has_fields" then result_map from_bool (evaluate_has_fields d s)
  else Err (UnknownDomainType t).

Definition outcome_not (o : DomainOutcome) : DomainOutcome :=
  match o with Sat => Unsat | Unsat => Sat | Missing m => Missing m end.

Inductive domain_sem (s : JsonValue) : JsonValue -> DomainOutcome -> Prop :=
| sem_atom d t o :
    get_str_field d "type" = Ok t -> t ∈ atom_types -> atom_outcome t d s = Ok o ->
    domain_sem s d o
| sem_not d sub o :
    get_str_field d "type" = Ok "not" -> json_get d "inner" = Some sub ->
    domain_sem s sub o -> domain_sem s d (outcome_not o)
| sem_all d arr o :
    get_str_field d "type" = Ok "all" -> json_get d "inner" = Some (JArray arr) ->
    all_sem s arr o -> domain_sem s d o
with all_sem (s : JsonValue) : list JsonValue -> DomainOutcome -> Prop :=
| all_sem_nil : all_sem s [] Sat
| all_sem_next d arr o : domain_sem s d Sat -> all_sem s arr o -> all_sem s (d :: arr) o
| all_sem_stop d arr o : domain_sem s d o -> o <> Sat -> all_sem s (d :: arr) o.

Scheme domain_sem_mut := Minimality for domain_sem Sort Prop
  with all_sem_mut := Minimality for all_sem Sort Prop.
Combined Scheme domain_all_sem_ind from domain_sem_mut, all_sem_mut.

Lemma evaluate_domain_type_atom eval t d s :
  get_str_field d "type" = Ok t -> t ∈ atom_types ->
  evaluate_domain_type eval d s = atom_outcome t d s.
Proof.
  intros Ht Hin. unfold evaluate_domain_type. rewrite Ht.
  unfold atom_types in Hin. set_unfold in Hin. by destruct_or!; subst.
Qed.

(** The three cases of a domain object whose type is known. *)
Lemma evaluate_domain_type_cases eval d s o :
  evaluate_domain_type eval d s = Ok o ->
  (exists t, get_str_field d "type" = Ok t /\ t ∈ atom_types /\ atom_outcome t d s = Ok o) \/
  (exists sub o', get_str_field d "type" = Ok "not" /\ json_get d "inner" = Some sub /\
    eval sub = Ok o' /\ o = outcome_not o') \/
  (exists arr, get_str_field d "type" = Ok "all" /\ json_get d "inner" = Some (JArray arr) /\
    all_loop eval arr = Ok o).
Proof.
  unfold evaluate_domain_type. destruct (get_str_field d "type") as [t|e] eqn:Ht; [|done].
  destruct (decide (t = "all")) as [->|Hall].
  { cbn. unfold evaluate_all_outcome. intros H. right; right.
    destruct (json_get d "inner") as [[| | | | |arr|]|]; cbn in H; try done. by exists arr. }
  destruct (decide (t = "not")) as [->|Hnot].
  { cbn. unfold evaluate_not_outcome. intros H. right; left.
    destruct (json_get d "inner") as [sub|]; cbn in H; [|done].
    destruct (eval sub) as [o'|] eqn:E; [|done]. exists sub, o'.
    split_and!; [done..|]. by destruct o'; simplify_eq/=. }
  intros H. left. exists t. unfold atom_outcome, atom_types.
  apply String.eqb_neq in Hall, Hnot. rewrite Hall, Hnot in H.
  split; [done|].
  repeat (case_match; [reflect_bool; subst; split; [set_solver|done]|]). done.
Qed.

Lemma all_loop_sem n s arr o :
  (forall d o, eval_at n s d = Ok o -> domain_sem s d o) ->
  all_loop (eval_at n s) arr = Ok o -> all_sem s arr o.
Proof.
  intros IH. induction arr as [|d arr IHarr]; cbn; [intros [= <-]; constructor|].
  destruct (eval_at n s d) as [o'|e] eqn:E; [|done]. apply IH in E.
  destruct o'; [intros H; by apply all_sem_next, IHarr|..];
    intros [= <-]; by apply all_sem_stop.
Qed.

Lemma eval_at_sound n s d o : eval_at n s d = Ok o -> domain_sem s d o.
Proof.
  remember (MAX_DOMAIN_DEPTH + 1 - n) as k eqn:Hk. revert n d o Hk.
  induction k as [|k IH]; intros n d o Hk; rewrite eval_at_eq;
    destruct (Nat.ltb_spec MAX_DOMAIN_DEPTH n); try done; [lia|].
  intros [(t & ?)|[(sub & o' & Ht & Hi & He & ->)|(arr & Ht & Hi & He)]]%evaluate_domain_type_cases.
  - destruct_and!. by eapply sem_atom.
  - eapply sem_not; [done..|]. eapply IH; [|done]. lia.
  - eapply sem_all; [done..|]. eapply all_loop_sem; [|done].
    intros d' o'. apply IH. lia.
Qed.

(** What the evaluation can answer where the semantics gives [o]. *)
Definition ok_or_too_deep (r : Result DomainOutcome TcbError) (o : DomainOutcome) : Prop :=
  r = Ok o \/ r = Err (NestingTooDeep MAX_DOMAIN_DEPTH).

Lemma eval_at_complete s :
  (forall d o, domain_sem s d o -> forall n, ok_or_too_deep (eval_at n s d) o) /\
  (forall arr o, all_sem s arr o -> forall n, ok_or_too_deep (all_loop (eval_at n s) arr) o).
Proof.
  apply domain_all_sem_ind; unfold ok_or_too_deep.
  - intros d t o Ht Hin Ho n. rewrite eval_at_eq. case_match; [by right|].
    rewrite (evaluate_domain_type_atom _ _ _ _ Ht Hin). by left.
  - intros d sub o Ht Hi _ IH n. rewrite eval_at_eq. case_match; [by right|].
    unfold evaluate_domain_type, evaluate_not_outcome. rewrite Ht, Hi. cbn.
    by destruct (IH (S n)) as [-> | ->]; [left|right].
  - intros d arr o Ht Hi _ IH n. rewrite eval_at_eq. case_match; [by right|].
    unfold evaluate_domain_type, evaluate_all_outcome. rewrite Ht, Hi. cbn.
    by destruct (IH (S n)) as [-> | ->]; [left|right].
  - intros n. by left.
  - intros d arr o _ IHd _ IHarr n. cbn. destruct (IHd n) as [-> | ->]; [apply IHarr|by right].
  - intros d arr o _ IHd Ho n. cbn. destruct (IHd n) as [-> | ->]; [left; by destruct o|by right].
Qed.

Lemma evaluate_domain_outcome_at d s : evaluate_domain_outcome d s = eval_at 0 s d.
Proof. reflexivity. Qed.
Lemma evaluate_domain_at d s : evaluate_domain d s = result_map to_bool (eval_at 0 s d).
Proof. reflexivity. Qed.

#[global] Opaque evaluate_domain_outcome evaluate_domain.

(** * Properties *)

(** The evaluator implements the three-valued semantics.  What it answers
    is what the semantics derives, and where the semantics derives an outcome
    the evaluator answers it unless the nesting exceeds the limit; the
    outcome is unique. *)
Lemma domain_refines_semantics s d o :
  (evaluate_domain_outcome d s = Ok o -> domain_sem s d o) /\
  (domain_sem s d o ->
    evaluate_domain_outcome d s = Ok o \/
    evaluate_domain_outcome d s = Err (NestingTooDeep MAX_DOMAIN_DEPTH)).
Proof.
  rewrite evaluate_domain_outcome_at. split; [apply eval_at_sound|].
  intros H. by apply eval_at_complete.
Qed.

Definition not_domain (d : JsonValue) : JsonValue :=
  object_from_pairs [("type", JString "not"); ("inner", d)].
Definition all_domain (ds : list JsonValue) : JsonValue :=
  object_from_pairs [("type", JString "all"); ("inner", JArray ds)].


Lemma eval_at_not n s d :
  n <= MAX_DOMAIN_DEPTH -> eval_at n s (not_domain d) = result_map outcome_not (eval_at (S n) s d).
Proof.
  intros Hn. rewrite eval_at_eq. destruct (Nat.ltb_spec MAX_DOMAIN_DEPTH n); [lia|].
  change (evaluate_domain_type (eval_at (S n) s) (not_domain d) s)
    with (evaluate_not_outcome (eval_at (S n) s) (not_domain d)).
  unfold evaluate_not_outcome.
  change (json_get (not_domain d) "inner") with (Some d). cbn.
  by destruct (eval_at (S n) s d).
Qed.
Lemma eval_at_all n s ds :
  n <= MAX_DOMAIN_DEPTH -> eval_at n s (all_domain ds) = all_loop (eval_at (S n) s) ds.
Proof.
  intros Hn. rewrite eval_at_eq. destruct (Nat.ltb_spec MAX_DOMAIN_DEPTH n); [lia|].
  reflexivity.
Qed.
Lemma all_loop_Sat n s ds :
  all_loop (eval_at n s) ds = Ok Sat -> Forall (fun d => eval_at n s d = Ok Sat) ds.
Proof.
  induction ds as [|d ds IH]; cbn; [constructor|].
  destruct (eval_at n s d) as [[]|] eqn:E; try done. constructor; auto.
Qed.

(** Conditions fail closed.  A negation holds only where its operand was
    compared and found false, never because data is missing or because the
    operand is malformed; a conjunction holds only where each operand holds.
    Under a double negation a missing outcome is still missing. *)
Lemma domain_fail_closed s :
  (forall d, evaluate_domain (not_domain d) s = Ok true ->
    evaluate_domain_outcome d s = Ok Unsat) /\
  (forall ds, evaluate_domain (all_domain ds) s = Ok true ->
    Forall (fun d => evaluate_domain_outcome d s = Ok Sat) ds) /\
  (forall d r, evaluate_domain_outcome (not_domain (not_domain d)) s = Ok (Missing r) ->
    evaluate_domain_outcome d s = Ok (Missing r)).
Proof.
  split_and!.
  - intros d. rewrite evaluate_domain_at, eval_at_not by lia.
    destruct (eval_at 1 s d) as [[]|] eqn:E; intros [=].
    rewrite evaluate_domain_outcome_at. by apply (eval_at_shallower 1); [lia|].
  - intros ds. rewrite evaluate_domain_at, eval_at_all by lia.
    destruct (all_loop (eval_at 1 s) ds) as [[]|] eqn:E; intros [=].
    eapply Forall_impl; [by apply all_loop_Sat|]. intros d Hd.
    rewrite evaluate_domain_outcome_at. by apply (eval_at_shallower 1); [lia|].
  - intros d r. rewrite !evaluate_domain_outcome_at, !eval_at_not
      by (unfold MAX_DOMAIN_DEPTH; lia).
    destruct (eval_at 2 s d) as [[]|] eqn:E; intros [=]; subst.
    by apply (eval_at_shallower 2); [lia|].
Qed.

Fixpoint not_tower (n : nat) (d : JsonValue) : JsonValue :=
  match n with O => d | S n => not_domain (not_tower n d) end.

Lemma eval_at_not_tower n k s d t :
  get_str_field d "type" = Ok t -> t ∈ atom_types ->
  k <= S MAX_DOMAIN_DEPTH ->
  eval_at k s (not_tower n d) =
  if (MAX_DOMAIN_DEPTH <? n + k)%nat then Err (NestingTooDeep MAX_DOMAIN_DEPTH)
  else result_map (Nat.iter n outcome_not) (atom_outcome t d s).
Proof.
  intros Ht Hin. revert k. induction n as [|n IH]; intros k Hk; cbn [not_tower].
  - rewrite eval_at_eq, (evaluate_domain_type_atom _ _ _ _ Ht Hin). cbn [Nat.add].
    case_match; [done|]. by destruct (atom_outcome t d s).
  - destruct (decide (k = S MAX_DOMAIN_DEPTH)) as [->|Hne].
    { rewrite eval_at_eq. destruct (Nat.ltb_spec MAX_DOMAIN_DEPTH (S MAX_DOMAIN_DEPTH)),
        (Nat.ltb_spec MAX_DOMAIN_DEPTH (S n + S MAX_DOMAIN_DEPTH)); done || lia. }
    rewrite eval_at_not, IH by lia. rewrite Nat.add_succ_comm. case_match; [done|].
    by destruct (atom_outcome t d s).
Qed.

(** The depth limit is exact.  A tower of negations over an atom is
    evaluated up to [MAX_DOMAIN_DEPTH] negations, the outcome negated that
    many times; one negation more is refused with [NestingTooDeep]. *)
Lemma domain_depth_limit n s d t :
  get_str_field d "type" = Ok t -> t ∈ atom_types ->
  evaluate_domain_outcome (not_tower n d) s =
  if (n <=? MAX_DOMAIN_DEPTH)%nat then result_map (Nat.iter n outcome_not) (atom_outcome t d s)
  else Err (NestingTooDeep MAX_DOMAIN_DEPTH).
Proof.
  intros Ht Hin. rewrite evaluate_domain_outcome_at, (eval_at_not_tower _ _ _ _ t) by
    (done || lia).
  rewrite Nat.add_0_r. destruct (Nat.ltb_spec MAX_DOMAIN_DEPTH n),
    (Nat.leb_spec n MAX_DOMAIN_DEPTH); done || lia.
Qed.
Lemma domain_depth_limit_witness :
  let d := object_from_pairs [("type", JString "exists"); ("path", JString "payload.x")] in
  evaluate_domain_outcome (not_tower 65 d) JNull = Err (NestingTooDeep 64).
Proof. cbn zeta. apply (domain_depth_limit 65 JNull _ "exists"); [reflexivity|set_solver]. Defined.

(** The text the pattern [root(.segment)+] describes. *)
Definition dotted (root : string) (segs : list string) : string :=
  root +:+ foldr (fun seg acc => String "." (seg +:+ acc)) "" segs.

Lemma split_char_dotted s root segs :
  split_char "." s = root :: segs -> s = dotted root segs.
Proof.
  unfold dotted. revert root segs. induction s as [|c s IH]; intros root segs; cbn.
  { by intros [= <- <-]. }
  destruct (Ascii.eqb_spec c ".") as [->|Hc].
  - intros [= <- <-]. destruct (split_char "." s) as [|p ps] eqn:E; cbn; f_equal;
      [|by apply IH].
    destruct s as [|c s]; cbn in E; [done|]. repeat case_match; done.
  - destruct (split_char "." s) as [|p ps] eqn:E; intros [= <- <-]; cbn; f_equal;
      [|by apply IH].
    destruct s as [|c' s]; cbn in E; [done|]. repeat case_match; done.
Qed.

Lemma split_char_no_dot p rest :
  str_all (fun b => negb (Ascii.eqb b ".")) p = true ->
  split_char "." p = [p] /\
  split_char "." (p +:+ String "." rest) = p :: split_char "." rest.
Proof.
  induction p as [|c p IH]; cbn; [done|]. intros [Hc Hp]%andb_true_iff.
  apply negb_true_iff in Hc. rewrite Hc. by destruct (IH Hp) as [-> ->].
Qed.

Lemma dot_path_segment_no_dot seg :
  dot_path_segment seg = true -> str_all (fun b => negb (Ascii.eqb b ".")) seg = true.
Proof.
  intros [_ H]%andb_true_iff. induction seg as [|c seg IH]; [done|]. cbn in H |- *.
  apply andb_true_iff in H as [Hc H]. rewrite (IH H), andb_true_r.
  by destruct (Ascii.eqb_spec c ".") as [->|].
Qed.

Lemma dotted_split root segs :
  str_all (fun b => negb (Ascii.eqb b ".")) root = true ->
  Forall (fun seg => dot_path_segment seg = true) segs ->
  split_char "." (dotted root segs) = root :: segs.
Proof.
  intros Hr Hs. revert root Hr. induction Hs as [|seg segs Hseg Hs IH]; intros root Hr.
  - unfold dotted. cbn. rewrite str_app_nil_r. by destruct (split_char_no_dot root "" Hr).
  - unfold dotted in *. cbn. destruct (split_char_no_dot root
      (seg +:+ foldr (fun seg acc => String "." (seg +:+ acc)) "" segs) Hr) as [_ ->].
    by rewrite IH by by apply dot_path_segment_no_dot.
Qed.

(** The recogniser of unprefixed references accepts exactly the texts of
    the pattern [(instruction|payload|queue)(.[A-Za-z0-9_]+)+]. *)
Lemma root_segment_dot_path_spec s :
  is_root_segment_dot_path s = true <->
  exists root segs, root ∈ ["instruction"; "payload"; "queue"] /\ segs <> [] /\
    Forall (fun seg => dot_path_segment seg = true) segs /\ s = dotted root segs.
Proof.
  unfold is_root_segment_dot_path. split.
  - destruct (split_char "." s) as [|root segs] eqn:E; [done|].
    apply split_char_dotted in E as ->.
    rewrite !andb_true_iff, !orb_true_iff, !String.eqb_eq, forallb_forall, Nat.leb_le.
    intros [[Hr Hs] Hl]. exists root, segs. split_and!; [set_solver| |by apply List.Forall_forall|done].
    by destruct segs; cbn in Hl; [lia|].
  - intros (root & segs & Hr & Hne & Hs & ->). rewrite dotted_split;
      [|set_unfold in Hr; by destruct_or!; subst|done].
    rewrite !andb_true_iff, !orb_true_iff, !String.eqb_eq, forallb_forall, Nat.leb_le.
    rewrite List.Forall_forall in Hs. split_and!; [set_unfold in Hr; tauto|done|].
    destruct segs; cbn; [done|lia].
Qed.

(** Two states with the same execution context are indistinguishable. *)
Lemma evaluate_domain_type_exec s1 s2 eval d :
  json_get s1 "__exec__" = json_get s2 "__exec__" ->
  evaluate_domain_type eval d s1 = evaluate_domain_type eval d s2.
Proof.
  intros Heq.
  assert (forall p, resolve_domain_path s1 p = resolve_domain_path s2 p) as Hp.
  { intros p. unfold resolve_domain_path, resolve_exec_path. by rewrite Heq. }
  assert (forall v, resolve_value_reference_outcome v s1 =
    resolve_value_reference_outcome v s2) as Hv.
  { intros []; cbn; try done. by rewrite Hp. }
  unfold evaluate_domain_type, evaluate_eq_outcome, evaluate_lt_outcome,
    evaluate_in_outcome, evaluate_exists, evaluate_instruction_eq, evaluate_has_fields.
  rewrite Heq. destruct (get_str_field d "type"); [|done].
  destruct (get_str_field d "path"); cbn; [rewrite !Hp|done].
  destruct (parse_on_missing d), (ok_or (json_get d "value") (MissingField "value")); cbn;
    by rewrite ?Hv.
Qed.

(** A condition reads the execution context and nothing else: two states
    with the same [__exec__] give every condition the same outcome. *)
Lemma domain_reads_exec_only s1 s2 d :
  json_get s1 "__exec__" = json_get s2 "__exec__" ->
  evaluate_domain_outcome d s1 = evaluate_domain_outcome d s2.
Proof.
  intros Heq. rewrite !evaluate_domain_outcome_at. generalize 0 as n. intros n.
  remember (MAX_DOMAIN_DEPTH + 1 - n) as k eqn:Hk. revert n d Hk.
  induction k as [|k IH]; intros n d Hk; rewrite !eval_at_eq;
    destruct (Nat.ltb_spec MAX_DOMAIN_DEPTH n); try done; [lia|].
  rewrite (evaluate_domain_type_exec s1 s2) by done.
  apply evaluate_domain_type_ext. intros sub. apply IH. lia.
Qed.
Lemma domain_reads_exec_only_witness :
  evaluate_domain_outcome
    (object_from_pairs [("type", JString "exists"); ("path", JString "payload")])
    (object_from_pairs [("__exec__", object_from_pairs [("payload", JInteger 1)])])
  = evaluate_domain_outcome
    (object_from_pairs [("type", JString "exists"); ("path", JString "payload")])
    (object_from_pairs [("__exec__", object_from_pairs [("payload", JInteger 1)]);
      ("other", JBool true)]).
Proof. apply domain_reads_exec_only. reflexivity. Defined.
