(* ===== verification/Executor.v ===== *)
(** The meta-instruction executor, [evorule-tcb/src/executor.rs]: the five
    meta instructions [set], [push], [branch], [io_request] and [enforce],
    under a shared instruction budget and a nesting limit. *)

From S2P Require Import Prelude ObjectMap Value Error Path Domain.

Definition MAX_BRANCH_DEPTH : nat := 64.
Definition MAX_TOTAL_META_INSTRUCTIONS : nat := 2048.
Definition META_INSTRUCTION_TYPES : list string :=
  ["branch"; "set"; "push"; "io_request"; "enforce"].

(** [enum MetaInstructionResult]. *)
Inductive MetaInstructionResult : Type :=
| MState (state : JsonValue)
| MIoRequired (io_type : string) (params : JsonValue)
| MHalted (reason : string).

(** The [&mut] parameters of [execute_meta_instruction_budgeted]. *)
Record Outs : Type := mk_outs {
  budget : nat;
  hit_out : bool;
  domain_attr_out : option DomainAttribution;
}.

(** [resolve_path_or_literal]. *)
Definition resolve_path_or_literal (state : JsonValue) (val : option JsonValue) :
    Result JsonValue TcbError :=
  match val with
  | Some (JString s) =>
      if starts_with "__" s then
        ok_or (resolve_path state s) (PathResolutionFailed s "path not found")
      else Ok (JString s)
  | Some v => Ok v
  | None => Err (MissingField "value")
  end.

(** * set *)

Definition payload_prefix_reason : string :=
  "写侧 attr 禁止以 payload. 开头：attr 相对 __exec__.payload 解析，带前缀会双重嵌套写入 payload.payload.*。请直接写 payload 内相对路径（如 meta_guard.cleared_for_move），真需写 payload 内同名子字段时用 __exec__.payload. 显式全形式".

(** The closure [resolve_attr_from_state] and the computation of [attr] in
    [exec_set]. *)
Definition resolve_attr_from_state (state attr_raw : JsonValue) : Result string TcbError :=
  let? attr_value := resolve_path_or_literal state (Some attr_raw) in
  ok_or (as_str attr_value) (InvalidType "string" (json_type_name attr_value) "attr").
Definition guarded_attr (state attr_raw : JsonValue) : Result string TcbError :=
  let? resolved := resolve_attr_from_state state attr_raw in
  if starts_with "payload." resolved then
    Err (PathResolutionFailed resolved payload_prefix_reason)
  else Ok resolved.
Definition set_attr (state attr_raw : JsonValue) : Result string TcbError :=
  match as_str attr_raw with
  | Some raw =>
      match strip_prefix "__exec__.payload." raw with
      | Some suffix => Ok suffix
      | None => guarded_attr state attr_raw
      end
  | None => guarded_attr state attr_raw
  end.

(** [apply_set_operation]. *)
Definition apply_set_operation (operation : string) (current value : JsonValue) :
    Result JsonValue TcbError :=
  if String.eqb operation "set" then Ok value
  else if String.eqb operation "add" || String.eqb operation "sub" then
    let? cur := ok_or (as_i64 current)
      (InvalidType "integer" (json_type_name current) (operation +:+ " left operand")) in
    let? val := ok_or (as_i64 value)
      (InvalidType "integer" (json_type_name value) (operation +:+ " right operand")) in
    let? result := ok_or
      (if String.eqb operation "add" then i64_checked_add cur val else i64_checked_sub cur val)
      (IntegerOverflow operation cur val) in
    Ok (JInteger result)
  else Err (UnknownOperation operation).

(** [enum WriteSlot]: a mutable object with a field name, or a mutable array
    with an index; the continuation rebuilds the payload around it. *)
Inductive WriteSlot : Type :=
| SlotField (obj : ObjectMap JsonValue) (name : string) (put : ObjectMap JsonValue -> JsonValue)
| SlotIndex (arr : list JsonValue) (idx : Z) (put : list JsonValue -> JsonValue).
(** [enum DescendStep]. *)
Inductive DescendStep : Type :=
| Slot (slot : WriteSlot)
| Next (next : JsonValue) (put : JsonValue -> JsonValue).

Definition array_not_found (attr name : string) : TcbError :=
  PathResolutionFailed attr ("array '" +:+ name
    +:+ "' not found; set cannot auto-create arrays (create via push first)").

(** [descend_field_segment]; [rest] is the part of [segments] after this one. *)
Definition descend_field_segment (current : JsonValue) (put : JsonValue -> JsonValue)
    (name : string) (rest : list PathSegment) (attr : string) :
    Result DescendStep TcbError :=
  match as_object current with
  | None => Err (PathResolutionFailed attr ("node at segment '" +:+ name +:+ "' is "
      +:+ json_type_name current +:+ ", expected object"))
  | Some obj =>
      let put_obj := fun o => put (JObject o) in
      match rest with
      | [] => Ok (Slot (SlotField obj name put_obj))
      | next_seg :: _ =>
          let next_is_index := match next_seg with Index _ _ => true | Field _ => false end in
          let? obj :=
            match map_get obj name with
            | None | Some JNull =>
                if next_is_index then Err (array_not_found attr name)
                else Ok (obj_insert obj name empty_object)
            | Some (JObject _) => Ok obj
            | Some other => Err (PathResolutionFailed attr ("intermediate segment '"
                +:+ name +:+ "' is " +:+ json_type_name other +:+ ", expected object"))
            end in
          match map_get_mut obj name with
          | Some (next, put_field) => Ok (Next next (fun v => put_obj (put_field v)))
          | None => Err (PathResolutionFailed attr
              "failed to descend into intermediate object")
          end
      end
  end.

(** [descend_index_segment]. *)
Definition descend_index_segment (current : JsonValue) (put : JsonValue -> JsonValue)
    (opt_field : option string) (idx : Z) (is_last : bool) (attr : string) :
    Result DescendStep TcbError :=
  let? '(target, put_target) :=
    match opt_field with
    | Some f =>
        match as_object current with
        | None => Err (PathResolutionFailed attr ("node before array '" +:+ f +:+ "' is "
            +:+ json_type_name current +:+ ", expected object"))
        | Some obj =>
            match map_get_mut obj f with
            | None | Some (JNull, _) => Err (array_not_found attr f)
            | Some (v, put_field) => Ok (v, fun v' => put (JObject (put_field v')))
            end
        end
    | None => Ok (current, put)
    end in
  let? arr := ok_or (as_array target) (PathResolutionFailed attr
    ("segment '" +:+ default "" opt_field +:+ "' is not an array")) in
  if (vec_len arr <=? idx)%Z then
    Err (PathResolutionFailed attr ("index " +:+ pretty idx +:+ " out of bounds (array length "
      +:+ pretty (vec_len arr) +:+ ")"))
  else if is_last then Ok (Slot (SlotIndex arr idx (fun l => put_target (JArray l))))
  else
    match arr_get_mut arr idx with
    | Some (next, put_elem) => Ok (Next next (fun v => put_target (put_elem v)))
    | None => Err (PathResolutionFailed attr "failed to descend into array element")
    end.

(** [descend_to_write_slot]: the loop over the segments. *)
Fixpoint descend_to_write_slot (current : JsonValue) (put : JsonValue -> JsonValue)
    (segments : list PathSegment) (attr : string) : Result WriteSlot TcbError :=
  match segments with
  | [] => Err (PathResolutionFailed attr "empty path")
  | seg :: rest =>
      let? step :=
        match seg with
        | Field name => descend_field_segment current put name rest attr
        | Index opt_field idx =>
            descend_index_segment current put opt_field idx
              (match rest with [] => true | _ => false end) attr
        end in
      match step with
      | Slot slot => Ok slot
      | Next next put' => descend_to_write_slot next put' rest attr
      end
  end.

(** The current value of a slot and the write into it, the last part of
    [exec_set]. *)
Definition slot_current (attr : string) (slot : WriteSlot) : Result JsonValue TcbError :=
  match slot with
  | SlotField obj name _ =>
      Ok (match map_get obj name with
          | Some JNull => JInteger 0
          | Some other => other
          | None => JInteger 0
          end)
  | SlotIndex arr idx _ =>
      ok_or (vec_get arr idx) (PathResolutionFailed attr "array slot vanished")
  end.
Definition slot_write (slot : WriteSlot) (new_value : JsonValue) : JsonValue :=
  match slot with
  | SlotField obj name put => put (obj_insert obj name new_value)
  | SlotIndex arr idx put => put (vec_set arr idx new_value)
  end.

(** [exec_set]. *)
Definition exec_set (instr state : JsonValue) : Result JsonValue TcbError :=
  let? params := ok_or (json_get instr "params") (MissingField "params") in
  let? attr_raw := ok_or (json_get params "attr") (MissingField "attr") in
  let? attr := set_attr state attr_raw in
  let? operation := ok_or (let! v := json_get params "operation" in as_str v)
    (MissingField "operation") in
  let? value := resolve_path_or_literal state (json_get params "value") in
  let? segments := ok_or (parse_path_segments attr)
    (PathResolutionFailed attr "invalid path syntax (empty segment or malformed index)") in
  match segments with
  | [] => Err (PathResolutionFailed attr "empty path")
  | _ =>
      let? '(payload, put_payload) := ok_or (resolve_path_mut state "__exec__.payload")
        (PathResolutionFailed "__exec__.payload" "payload not found in state") in
      let? slot := descend_to_write_slot payload put_payload segments attr in
      let? current := slot_current attr slot in
      let? new_value := apply_set_operation operation current value in
      Ok (slot_write slot new_value)
  end.

(** * push *)

(** [resolve_instructions_list] and its loop. *)
Fixpoint resolve_items (state : JsonValue) (arr result : list JsonValue) :
    Result (list JsonValue) TcbError :=
  match arr with
  | [] => Ok result
  | item :: arr' =>
      let other := resolve_items state arr' (result ++ [item]) in
      match item with
      | JString s =>
          if starts_with "__" s then
            let? resolved := ok_or (resolve_path state s)
              (PathResolutionFailed s "path not found") in
            match resolved with
            | JArray inner => resolve_items state arr' (result ++ inner)
            | _ => resolve_items state arr' (result ++ [resolved])
            end
          else other
      | _ => other
      end
  end.
Definition resolve_instructions_list (state : JsonValue) (val : option JsonValue) :
    Result (list JsonValue) TcbError :=
  let? val := resolve_path_or_literal state val in
  let? arr := ok_or (as_array val) (InvalidType "array" (json_type_name val) "instructions") in
  resolve_items state arr [].

(** [exec_push]. *)
Definition exec_push (instr state : JsonValue) : Result JsonValue TcbError :=
  let? params := ok_or (json_get instr "params") (MissingField "params") in
  let? instructions := resolve_instructions_list state (json_get params "instructions") in
  match instructions with
  | [] => Ok state
  | _ =>
      let? queue_slice := ok_or
        (let! '(v, _) := resolve_path_mut state "__exec__.queue" in as_array v)
        (InvalidState "__exec__.queue is missing or not an array") in
      let? '(_, put_queue) := ok_or (resolve_path_mut state "__exec__.queue")
        (InvalidState "__exec__.queue disappeared") in
      Ok (put_queue (JArray (instructions ++ queue_slice)))
  end.

(** * enforce and io_request *)

Definition attribution (domain : JsonValue) (outcome : DomainOutcome) : DomainAttribution :=
  {| attr_outcome := outcome; attr_on_missing := declared_on_missing domain |}.

(** [exec_enforce]; the attribution is returned with the result. *)
Definition exec_enforce (instr state : JsonValue) :
    Result (MetaInstructionResult * DomainAttribution) TcbError :=
  let? params := ok_or (json_get instr "params") (MissingField "params") in
  let? domain := resolve_path_or_literal state (json_get params "domain") in
  let? outcome := evaluate_domain_outcome domain state in
  let domain_satisfied := to_bool outcome in
  if negb domain_satisfied then Ok (MState state, attribution domain outcome)
  else
    let? reason := ok_or (let! v := json_get params "reason" in as_str v)
      (MissingField "reason") in
    Ok (MHalted reason, attribution domain outcome).

(** [str::strip_suffix] on a character. *)
Fixpoint strip_suffix_char (c : ascii) (s : string) : option string :=
  match s with
  | EmptyString => None
  | String a EmptyString => if Ascii.eqb a c then Some EmptyString else None
  | String a s' => let! t := strip_suffix_char c s' in Some (String a t)
  end.

(** [exec_io_request] and its loop over the parameters. *)
Fixpoint io_params (state : JsonValue) (obj request_params : ObjectMap JsonValue) :
    Result (ObjectMap JsonValue) TcbError :=
  match obj with
  | [] => Ok request_params
  | (key, value) :: obj' =>
      if String.eqb key "io_type" then io_params state obj' request_params
      else
        let '(param_name, optional) :=
          match strip_suffix_char "?" key with
          | Some stripped => (stripped, true)
          | None => (key, false)
          end in
        match resolve_path_or_literal state (Some value) with
        | Ok resolved => io_params state obj' (obj_insert request_params param_name resolved)
        | Err (PathResolutionFailed p r) =>
            if optional : bool then io_params state obj' request_params
            else Err (PathResolutionFailed p r)
        | Err e => Err e
        end
  end.
Definition exec_io_request (instr state : JsonValue) :
    Result MetaInstructionResult TcbError :=
  let? params := ok_or (json_get instr "params") (MissingField "params") in
  let? io_type := ok_or (let! v := json_get params "io_type" in as_str v)
    (MissingField "io_type") in
  let? request_params :=
    match as_object params with
    | Some obj => io_params state obj map_new
    | None => Ok map_new
    end in
  Ok (MIoRequired io_type (JObject request_params)).

(** * branch and the dispatcher *)

(** What the dispatcher does with one instruction: the type of the recursive
    call of [exec_branch]. *)
Definition Run : Type :=
  JsonValue -> JsonValue -> Outs -> Result (MetaInstructionResult * Outs) TcbError.

(** The loop over the chosen branch: sub-instructions share the budget; their
    hit and attribution are dropped. *)
Fixpoint branch_loop (run : Run) (instrs : list JsonValue) (state : JsonValue)
    (outs : Outs) : Result (MetaInstructionResult * Outs) TcbError :=
  match instrs with
  | [] => Ok (MState state, outs)
  | sub_instr :: instrs' =>
      let? '(result, sub_outs) := run sub_instr state (mk_outs (budget outs) false None) in
      let outs := mk_outs (budget sub_outs) (hit_out outs) (domain_attr_out outs) in
      match result with
      | MState new_state => branch_loop run instrs' new_state outs
      | signal => Ok (signal, outs)
      end
  end.

(** [exec_branch]. *)
Definition exec_branch (run : Run) (instr state : JsonValue) (depth : nat) (outs : Outs) :
    Result (MetaInstructionResult * Outs) TcbError :=
  if (MAX_BRANCH_DEPTH <=? depth)%nat then Err (NestingTooDeep MAX_BRANCH_DEPTH)
  else
    let? params := ok_or (json_get instr "params") (MissingField "params") in
    let? domain := resolve_path_or_literal state (json_get params "domain") in
    let? outcome := evaluate_domain_outcome domain state in
    let branch_key := if to_bool outcome then "on_true" else "on_false" in
    let outs := mk_outs (budget outs) (hit_out outs) (Some (attribution domain outcome)) in
    match (let! v := json_get params branch_key in as_array v) with
    | Some instrs =>
        let hit := match instrs with [] => hit_out outs | _ => true end in
        branch_loop run instrs state (mk_outs (budget outs) hit (domain_attr_out outs))
    | None => Ok (MState state, outs)
    end.

(** The dispatch of [execute_meta_instruction_budgeted] after the budget has
    been charged. *)
Definition execute_dispatch (run : Run) (instr state : JsonValue) (depth : nat) (outs : Outs) :
    Result (MetaInstructionResult * Outs) TcbError :=
  let hit := mk_outs (budget outs) true (domain_attr_out outs) in
  let? instr_type := ok_or (let! v := json_get instr "type" in as_str v) (MissingField "type") in
  if String.eqb instr_type "set" then
    let? s := exec_set instr state in Ok (MState s, hit)
  else if String.eqb instr_type "push" then
    let? s := exec_push instr state in Ok (MState s, hit)
  else if String.eqb instr_type "branch" then exec_branch run instr state depth outs
  else if String.eqb instr_type "io_request" then
    let? r := exec_io_request instr state in Ok (r, hit)
  else if String.eqb instr_type "enforce" then
    let? '(r, attr) := exec_enforce instr state in
    Ok (r, mk_outs (budget outs)
      (match r with MHalted _ => true | _ => hit_out outs end) (Some attr))
  else Err (UnknownMetaInstruction instr_type).

(** [execute_meta_instruction_budgeted].  A branch is refused at
    [MAX_BRANCH_DEPTH], so [exec_fuel depth] nested calls are enough
    ([execute_fuel_irrelevant]). *)
Fixpoint execute_meta_instruction_budgeted (fuel : nat) (instr state : JsonValue)
    (depth : nat) (outs : Outs) : Result (MetaInstructionResult * Outs) TcbError :=
  match fuel with
  | O => Err (NestingTooDeep MAX_BRANCH_DEPTH)
  | S fuel =>
      match budget outs with
      | O => Err (TooManyExecutedInstructions MAX_TOTAL_META_INSTRUCTIONS)
      | S next =>
          execute_dispatch
            (fun sub st o => execute_meta_instruction_budgeted fuel sub st (S depth) o)
            instr state depth (mk_outs next (hit_out outs) (domain_attr_out outs))
      end
  end.
Definition exec_fuel (depth : nat) : nat := S (MAX_BRANCH_DEPTH - depth).

(** [execute_meta_instruction]: the entry point with a full budget. *)
Definition execute_meta_instruction (instr state : JsonValue) (depth : nat) :
    Result MetaInstructionResult TcbError :=
  result_map fst (execute_meta_instruction_budgeted (exec_fuel depth) instr state depth
    (mk_outs MAX_TOTAL_META_INSTRUCTIONS false None)).

(** * The write of set as a lens

    The specification of [descend_to_write_slot]: a write along elementary
    steps that creates an empty object for a key that is missing or null. *)
Definition child (v : JsonValue) (s : Step) : JsonValue :=
  match s with
  | Key _ => match get_step v s with Some JNull | None => empty_object | Some w => w end
  | Idx _ => default JNull (get_step v s)
  end.
Fixpoint viv_put (v : JsonValue) (ss : list Step) (x : JsonValue) : JsonValue :=
  match ss with
  | [] => x
  | s :: ss' => put_step v s (viv_put (child v s) ss' x)
  end.
Definition step_ok (v : JsonValue) (s : Step) : bool :=
  match s with
  | Key _ => is_object v
  | Idx _ => bool_decide (is_Some (get_step v s))
  end.
(** Each key step meets an object, each index step an element of an array. *)
Fixpoint writable (v : JsonValue) (ss : list Step) : bool :=
  match ss with
  | [] => true
  | s :: ss' => step_ok v s && writable (child v s) ss'
  end.
(** A field is not followed by a bracket without a name: [a[0]], not [a.[0]]. *)
Fixpoint canonical (segs : list PathSegment) : bool :=
  match segs with
  | Field _ :: ((Index None _ :: _) as segs') => false
  | _ :: segs' => canonical segs'
  | [] => true
  end.
Definition write_ok (v : JsonValue) (segs : list PathSegment) : bool :=
  canonical segs && writable v (path_steps segs).
Definition is_key (s : Step) : bool := match s with Key _ => true | Idx _ => false end.
(** The operand that [add] and [sub] start from: a missing field counts as
    zero, and so does a null field, but not a null array element. *)
Definition current_value (v : JsonValue) (ss : list Step) : JsonValue :=
  match get_steps v ss with
  | None => JInteger 0
  | Some JNull => if from_option is_key false (last ss) then JInteger 0 else JNull
  | Some x => x
  end.

Lemma get_step_child v s s' ss :
  step_ok v s = true ->
  get_steps v (s :: s' :: ss) = get_steps (child v s) (s' :: ss).
Proof.
  destruct s as [k|i]; cbn -[get_step child].
  - intros _. unfold child. destruct (get_step v (Key k)) as [[]|]; cbn; try done;
      by destruct s'.
  - intros Hs%bool_decide_eq_true. unfold child. by destruct Hs as [w ->].
Qed.
Lemma current_value_child v s s' ss :
  step_ok v s = true ->
  current_value v (s :: s' :: ss) = current_value (child v s) (s' :: ss).
Proof. intros Hs. unfold current_value. by rewrite get_step_child. Qed.

Lemma path_steps_cons seg segs : path_steps (seg :: segs) = seg_steps seg ++ path_steps segs.
Proof. done. Qed.
Lemma path_steps_nonempty segs :
  segs <> [] -> exists s ss, path_steps segs = s :: ss.
Proof. destruct segs as [|[f|[f|] i] segs]; [done|..]; by eexists _, _. Qed.

(** What a descent delivers for the value [v] in the context [put]. *)
Definition slot_for (attr : string) (v : JsonValue) (put : JsonValue -> JsonValue)
    (ss : list Step) (slot : WriteSlot) : Prop :=
  slot_current attr slot = Ok (current_value v ss) /\
  forall x, slot_write slot x = put (viv_put v ss x).

Definition fails_at (attr : string) (e : TcbError) : Prop :=
  exists reason, e = PathResolutionFailed attr reason.

Lemma descend_field_spec v put name rest attr :
  match descend_field_segment v put name rest attr with
  | Ok (Slot slot) => rest = [] /\ step_ok v (Key name) = true /\
      slot_for attr v put [Key name] slot
  | Ok (Next next put') => rest <> [] /\ step_ok v (Key name) = true /\
      next = child v (Key name) /\ is_object next = true /\
      forall x, put' x = put (put_step v (Key name) x)
  | Err e => fails_at attr e /\ write_ok v (Field name :: rest) = false
  end.
Proof.
  unfold descend_field_segment, fails_at.
  destruct v as [| | | | |l|obj]; cbn [as_object];
    try (split; [by eexists|]; apply andb_false_r).
  destruct rest as [|next_seg rest].
  { split_and!; [done..|]. split; [|done]. unfold current_value. cbn.
    by destruct (map_get obj name) as [[]|]. }
  cbn [step_ok is_object].
  assert (forall obj', is_object (child (JObject obj) (Key name)) = true -> (forall x, obj_insert obj' name x = obj_insert obj name x) ->
    map_get obj' name = Some (child (JObject obj) (Key name)) ->
    match match map_get_mut obj' name with
      | Some (next, put_field) => Ok (Next next (fun v => put (JObject (put_field v))))
      | None => Err (PathResolutionFailed attr "failed to descend into intermediate object")
      end with
    | Ok (Slot slot) => next_seg :: rest = [] /\ true = true /\
        slot_for attr (JObject obj) put [Key name] slot
    | Ok (Next next put') => next_seg :: rest <> [] /\ true = true /\
        next = child (JObject obj) (Key name) /\ is_object next = true /\
        forall x, put' x = put (put_step (JObject obj) (Key name) x)
    | Err e => (exists reason, e = PathResolutionFailed attr reason) /\
        write_ok (JObject obj) (Field name :: next_seg :: rest) = false
    end) as Hnext.
  { intros obj' Hch Hobj Hget. pose proof (map_get_mut_spec obj' name) as Hm.
    destruct (map_get_mut obj' name) as [[next pf]|]; [|by rewrite Hm in Hget].
    destruct Hm as [Hm Hp]. rewrite Hget in Hm. injection Hm as <-.
    split_and!; [done..|]. intros x. cbn. by rewrite Hp, Hobj. }
  unfold child in Hnext. cbn [get_step] in Hnext. unfold child. cbn [get_step].
  destruct (map_get obj name) as [w|] eqn:Eg.
  - destruct w as [| | | | |l|m]; try (split; [by eexists|]; unfold write_ok; cbn; rewrite Eg;
      destruct next_seg as [|[] ?]; cbn; rewrite ?andb_false_r; done).
    + destruct next_seg as [f|fo i].
      * apply Hnext; [done|intros; apply obj_insert_insert|apply map_get_insert_eq].
      * split; [by eexists|]. unfold write_ok; cbn; rewrite Eg. by destruct fo; cbn; rewrite ?andb_false_r.
    + by apply Hnext.
  - destruct next_seg as [f|fo i].
    * apply Hnext; [done|intros; apply obj_insert_insert|apply map_get_insert_eq].
    * split; [by eexists|]. unfold write_ok; cbn; rewrite Eg. by destruct fo; cbn; rewrite ?andb_false_r.
Qed.

Definition children (v : JsonValue) (ss : list Step) : JsonValue := fold_left child ss v.

Lemma viv_put_app v ss1 ss2 x :
  viv_put v (ss1 ++ ss2) x = viv_put v ss1 (viv_put (children v ss1) ss2 x).
Proof. revert v. induction ss1 as [|s ss1 IH]; intros v; cbn; [done|]. by rewrite IH. Qed.
Lemma writable_app v ss1 ss2 :
  writable v (ss1 ++ ss2) = writable v ss1 && writable (children v ss1) ss2.
Proof.
  revert v. induction ss1 as [|s ss1 IH]; intros v; cbn; [done|].
  by rewrite IH, andb_assoc.
Qed.
Lemma current_value_app v ss1 s ss2 :
  writable v ss1 = true ->
  current_value v (ss1 ++ s :: ss2) = current_value (children v ss1) (s :: ss2).
Proof.
  revert v. induction ss1 as [|s1 ss1 IH]; intros v; cbn; [done|].
  intros [H1 H2]%andb_true_iff.
  change (fold_left child ss1 (child v s1)) with (children (child v s1) ss1).
  rewrite <- IH by done.
  destruct (ss1 ++ s :: ss2) as [|s' ss'] eqn:E; [by destruct ss1|].
  by rewrite current_value_child.
Qed.

(** The index step on the target array. *)
Lemma descend_array_spec t put fo idx is_last attr :
  (0 <= idx)%Z ->
  match
    let? arr := ok_or (as_array t) (PathResolutionFailed attr
      ("segment '" +:+ default "" fo +:+ "' is not an array")) in
    if (vec_len arr <=? idx)%Z then
      Err (PathResolutionFailed attr ("index " +:+ pretty idx +:+ " out of bounds (array length "
        +:+ pretty (vec_len arr) +:+ ")"))
    else if is_last : bool then Ok (Slot (SlotIndex arr idx (fun l => put (JArray l))))
    else
      match arr_get_mut arr idx with
      | Some (next, put_elem) => Ok (Next next (fun v => put (put_elem v)))
      | None => Err (PathResolutionFailed attr "failed to descend into array element")
      end
  with
  | Ok (Slot slot) => is_last = true /\ step_ok t (Idx idx) = true /\
      slot_for attr t put [Idx idx] slot
  | Ok (Next next put') => is_last = false /\ step_ok t (Idx idx) = true /\
      next = child t (Idx idx) /\ forall x, put' x = put (put_step t (Idx idx) x)
  | Err e => fails_at attr e /\ step_ok t (Idx idx) = false
  end.
Proof.
  intros Hi. unfold fails_at, slot_for.
  destruct t as [| | | | |l|m]; cbn; try (split; [by eexists|done]).
  unfold arr_get_mut. destruct (Z.leb_spec (vec_len l) idx) as [Hl|Hl].
  { split; [by eexists|]. by rewrite (proj2 (vec_get_None l idx Hi) Hl). }
  destruct (vec_get l idx) as [w|] eqn:Eg; [|apply vec_get_None in Eg; [lia|done]].
  destruct is_last; cbn.
  - split_and!; try done. unfold current_value. cbn. rewrite Eg. by destruct w.
  - done.
Qed.

Lemma descend_index_spec v put fo idx is_last attr :
  (0 <= idx)%Z ->
  match descend_index_segment v put fo idx is_last attr with
  | Ok (Slot slot) => is_last = true /\ writable v (seg_steps (Index fo idx)) = true /\
      slot_for attr v put (seg_steps (Index fo idx)) slot
  | Ok (Next next put') => is_last = false /\ writable v (seg_steps (Index fo idx)) = true /\
      next = children v (seg_steps (Index fo idx)) /\
      forall x, put' x = put (viv_put v (seg_steps (Index fo idx)) x)
  | Err e => fails_at attr e /\ writable v (seg_steps (Index fo idx)) = false
  end.
Proof.
  intros Hi. unfold descend_index_segment. destruct fo as [f|].
  2:{ pose proof (descend_array_spec v put None idx is_last attr Hi) as H.
      cbn [seg_steps writable children fold_left viv_put]. rewrite andb_true_r. exact H. }
  destruct v as [| | | | |l|obj]; cbn [as_object];
    try (split; [by eexists|done]).
  pose proof (map_get_mut_spec obj f) as Hm.
  assert (forall w pf, map_get obj f = Some w -> (forall v', pf v' = obj_insert obj f v') ->
    w <> JNull -> child (JObject obj) (Key f) = w) as Hch.
  { intros w pf Hg _ Hw. cbn. rewrite Hg. by destruct w. }
  destruct (map_get_mut obj f) as [[w pf]|].
  2:{ split; [by eexists|]. cbn. by rewrite Hm. }
  destruct Hm as [Hg Hp].
  assert (w = JNull \/ w <> JNull) as [-> |Hw] by (destruct w; auto).
  { split; [by eexists|]. cbn. by rewrite Hg. }
  specialize (Hch w pf Hg Hp Hw).
  pose proof (descend_array_spec w (fun v' => put (JObject (pf v'))) (Some f) idx is_last attr Hi)
    as H.
  assert (forall x, put (JObject (pf (put_step w (Idx idx) x))) =
    put (viv_put (JObject obj) [Key f; Idx idx] x)) as Hput.
  { intros x. cbn -[child put_step]. rewrite Hch. cbn. by rewrite Hp. }
  change (seg_steps (Index (Some f) idx)) with [Key f; Idx idx].
  assert (step_ok w (Idx idx) = writable (JObject obj) [Key f; Idx idx]) as <-.
  { cbn -[child step_ok]. by rewrite Hch, andb_true_r. }
  assert (children (JObject obj) [Key f; Idx idx] = child w (Idx idx)) as Hcs.
  { cbn -[child]. by rewrite Hch. }
  assert (forall slot, slot_for attr w (fun v' => put (JObject (pf v'))) [Idx idx] slot ->
    slot_for attr (JObject obj) put [Key f; Idx idx] slot) as Hslot.
  { intros slot [H1 H2]. split; [|intros x; by rewrite H2, <- Hput].
    rewrite current_value_child by done. by rewrite Hch. }
  rewrite Hcs.
  replace (match w with
    | JNull => Err (array_not_found attr f)
    | _ => Ok (w, fun v' => put (JObject (pf v')))
    end) with (@Ok _ TcbError (w, fun v' => put (JObject (pf v')))) by (by destruct w).
  cbv iota beta zeta in H |- *. destruct (ok_or _ _) as [arr|e]; [|done].
  destruct (vec_len arr <=? idx)%Z; [done|]. destruct is_last.
  - destruct H as (? & ? & ?). auto.
  - destruct (arr_get_mut arr idx) as [[next pe]|]; [|done].
    destruct H as (? & ? & ? & Hx). split_and!; try done. intros x. by rewrite Hx, Hput.
Qed.

Lemma slot_for_app attr v put ss1 s ss2 slot put' :
  writable v ss1 = true ->
  (forall x, put' x = put (viv_put v ss1 x)) ->
  slot_for attr (children v ss1) put' (s :: ss2) slot ->
  slot_for attr v put (ss1 ++ s :: ss2) slot.
Proof.
  intros Hw Hput [H1 H2]. split; [by rewrite current_value_app|].
  intros x. by rewrite H2, Hput, viv_put_app.
Qed.

Lemma descend_spec segs attr v put :
  segs <> [] -> Forall (fun seg => wf_segment seg = true) segs ->
  match descend_to_write_slot v put segs attr with
  | Ok slot => write_ok v segs = true /\ slot_for attr v put (path_steps segs) slot
  | Err e => fails_at attr e /\ write_ok v segs = false
  end.
Proof.
  intros Hne Hwf. revert v put Hne.
  induction Hwf as [|seg segs Hseg Hwf IH]; intros v put Hne; [done|].
  cbn [descend_to_write_slot]. destruct seg as [f|fo i].
  - pose proof (descend_field_spec v put f segs attr) as Hd.
    destruct (descend_field_segment v put f segs attr) as [[slot|next put']|e]; [..|done].
    { destruct Hd as (-> & Hs & Hslot). unfold write_ok. cbn -[step_ok]. rewrite Hs. by split. }
    destruct Hd as (Hne' & Hs & Hch & Hobj & Hput). specialize (IH next put' Hne').
    assert (canonical (Field f :: segs) = canonical segs \/ exists i segs', segs = Index None i :: segs')
      as [Hc|(i & segs' & ->)].
    { destruct segs as [|[|[]] ?]; cbn; eauto. }
    + assert (write_ok v (Field f :: segs) = write_ok next segs) as ->.
      { unfold write_ok. rewrite Hc, path_steps_cons, writable_app. cbn -[child step_ok canonical].
        by rewrite Hs, <- Hch. }
      destruct (descend_to_write_slot next put' segs attr) as [slot|e]; [|done].
      destruct IH as [IHw IHslot]. split; [done|]. rewrite path_steps_cons.
      destruct (path_steps_nonempty segs Hne') as (s & ss & Hss). rewrite Hss in *.
      eapply slot_for_app; [|exact Hput|cbn -[child]; by rewrite <- Hch].
      cbn -[step_ok]. by rewrite Hs.
    + assert (write_ok v (Field f :: Index None i :: segs') = false) as -> by done.
      destruct next as [| | | | | |m]; try done. cbn in *. split; [by eexists|done].
  - assert ((0 <= i)%Z) as Hi.
    { cbn in Hseg. reflect_bool. lia. }
    pose proof (descend_index_spec v put fo i (match segs with [] => true | _ => false end) attr Hi)
      as Hd.
    assert (write_ok v (Index fo i :: segs) =
      writable v (seg_steps (Index fo i)) &&
      write_ok (children v (seg_steps (Index fo i))) segs) as Hw.
    { unfold write_ok. rewrite path_steps_cons, writable_app. cbn [canonical].
      by rewrite !andb_assoc, (andb_comm (canonical segs)). }
    rewrite Hw. clear Hw.
    destruct (descend_index_segment v put fo i _ attr) as [[slot|next put']|e].
    + destruct Hd as (Hl & Hs & Hslot). destruct segs; [|done]. rewrite Hs.
      rewrite path_steps_cons. unfold path_steps. cbn [map concat]. rewrite app_nil_r. by split.
    + destruct Hd as (Hl & Hs & Hch & Hput). rewrite Hs, <- Hch. cbn [andb].
      assert (segs <> []) as Hne' by (by destruct segs). specialize (IH next put' Hne').
      destruct (descend_to_write_slot next put' segs attr) as [slot|e]; [|done].
      destruct IH as [IHw IHslot]. split; [done|]. rewrite path_steps_cons.
      destruct (path_steps_nonempty segs Hne') as (s & ss & Hss). rewrite Hss in *.
      eapply slot_for_app; [done|exact Hput|by rewrite <- Hch].
    + destruct Hd as [He ->]. by split.
Qed.

(** The lens laws of the creating write. *)
Lemma child_wf v s : wf_json v = true -> wf_json (child v s) = true.
Proof.
  intros Hv. destruct s as [k|i]; unfold child;
    destruct (get_step v _) as [w|] eqn:E; try done;
    assert (wf_json w = true) as Hw by (by eapply get_step_wf); [by destruct w|done].
Qed.
Lemma get_put_step_ok v s x : step_ok v s = true -> get_step (put_step v s x) s = Some x.
Proof.
  destruct s as [k|i], v as [| | | | |l|m]; cbn; try done.
  - intros _. apply map_get_insert_eq.
  - intros [y Hy]%bool_decide_eq_true. by eapply vec_get_set_eq.
Qed.
Lemma get_viv_put v ss x : writable v ss = true -> get_steps (viv_put v ss x) ss = Some x.
Proof.
  revert v. induction ss as [|s ss IH]; intros v; cbn; [done|].
  intros [H1 H2]%andb_true_iff. rewrite get_put_step_ok by done. by apply IH.
Qed.
Lemma get_viv_put_diverge v ss1 ss2 x :
  wf_json v = true -> writable v ss1 = true -> diverge ss1 ss2 = true ->
  get_steps (viv_put v ss1 x) ss2 = get_steps v ss2.
Proof.
  revert v ss2. induction ss1 as [|s1 ss1 IH]; intros v [|s2 ss2] Hv Hw Hd; try done.
  cbn [writable] in Hw. apply andb_true_iff in Hw as [Hs Hw]. cbn [diverge] in Hd.
  assert (nonneg_step s1 = true) as Hnn.
  { destruct s1; cbn in Hs; [done|]. apply bool_decide_eq_true in Hs as [y Hy].
    by eapply get_step_nonneg. }
  cbn [viv_put get_steps]. destruct (decide (s1 = s2)) as [<-|Hne].
  - rewrite get_put_step_ok by done.
    destruct ss1 as [|s1' ss1]; [done|]. destruct ss2 as [|s2' ss2]; [done|].
    change (get_steps (viv_put (child v s1) (s1' :: ss1) x) (s2' :: ss2) =
      get_steps v (s1 :: s2' :: ss2)).
    rewrite get_step_child by done. apply IH; [by apply child_wf|done..].
  - by rewrite get_put_step_ne.
Qed.
Lemma viv_put_wf v ss x :
  wf_json v = true -> wf_json x = true -> wf_json (viv_put v ss x) = true.
Proof.
  revert v. induction ss as [|s ss IH]; intros v Hv Hx; cbn; [done|].
  apply put_step_wf; [done|]. apply IH; [by apply child_wf|done].
Qed.
Lemma current_value_wf v ss : wf_json v = true -> wf_json (current_value v ss) = true.
Proof.
  intros Hv. unfold current_value. destruct (get_steps v ss) as [x|] eqn:E; [|done].
  apply get_steps_wf in E; [|done]. destruct x; try done. by case_match.
Qed.

(** * set and push on the state *)

Definition PAYLOAD : list Step := [Key "__exec__"; Key "payload"].
Definition QUEUE : list Step := [Key "__exec__"; Key "queue"].

Lemma denotes_payload : denotes "__exec__.payload" = Some PAYLOAD.
Proof. vm_compute. reflexivity. Qed.
Lemma denotes_queue : denotes "__exec__.queue" = Some QUEUE.
Proof. vm_compute. reflexivity. Qed.

(** The resolved arguments of a set instruction. *)
Record set_args (instr state : JsonValue) (attr operation : string) (value : JsonValue)
    (segments : list PathSegment) : Prop := {
  args_attr : exists params attr_raw,
    json_get instr "params" = Some params /\ json_get params "attr" = Some attr_raw /\
    set_attr state attr_raw = Ok attr /\
    json_get params "operation" = Some (JString operation) /\
    resolve_path_or_literal state (json_get params "value") = Ok value;
  args_segments : parse_path_segments attr = Some segments;
}.

Lemma exec_set_args instr state attr operation value segments :
  set_args instr state attr operation value segments ->
  exec_set instr state =
  let? '(payload, put_payload) := ok_or (resolve_path_mut state "__exec__.payload")
    (PathResolutionFailed "__exec__.payload" "payload not found in state") in
  let? slot := descend_to_write_slot payload put_payload segments attr in
  let? current := slot_current attr slot in
  let? new_value := apply_set_operation operation current value in
  Ok (slot_write slot new_value).
Proof.
  intros [(params & attr_raw & H1 & H2 & H3 & H4 & H5) H6]. unfold exec_set.
  rewrite H1; cbn [ok_or]. rewrite H2; cbn [ok_or]. rewrite H3, H4; cbn [ok_or as_str].
  rewrite H5, H6; cbn [ok_or]. apply parse_wf in H6 as [Hne _]. by destruct segments.
Qed.

Lemma exec_set_Ok_args instr state state' :
  exec_set instr state = Ok state' ->
  exists attr operation value segments, set_args instr state attr operation value segments.
Proof.
  unfold exec_set. destruct (json_get instr "params") as [params|] eqn:H1; [|done].
  cbn [ok_or]. destruct (json_get params "attr") as [attr_raw|] eqn:H2; [|done]. cbn [ok_or].
  destruct (set_attr state attr_raw) as [attr|] eqn:H3; [|done].
  destruct (json_get params "operation") as [[]|] eqn:H4; try done. cbn [ok_or as_str].
  destruct (resolve_path_or_literal state (json_get params "value")) as [value|] eqn:H5; [|done].
  destruct (parse_path_segments attr) as [segs|] eqn:H6; [|done]. intros _.
  eexists _, _, _, _. split; [by eauto 10|done].
Qed.

Lemma exec_set_write instr state attr operation value segments payload :
  set_args instr state attr operation value segments ->
  get_steps state PAYLOAD = Some payload ->
  if write_ok payload segments then
    exec_set instr state =
      let? new_value :=
        apply_set_operation operation (current_value payload (path_steps segments)) value in
      Ok (put_steps state PAYLOAD (viv_put payload (path_steps segments) new_value))
  else exists reason, exec_set instr state = Err (PathResolutionFailed attr reason).
Proof.
  intros Hargs Hp. rewrite (exec_set_args _ _ _ _ _ _ Hargs).
  apply args_segments in Hargs as [Hne Hwf]%parse_wf.
  pose proof (resolve_path_mut_denotes state "__exec__.payload") as H.
  destruct (resolve_path_mut state "__exec__.payload") as [[p put]|].
  2:{ rewrite (H _ denotes_payload) in Hp. done. }
  destruct H as (ss & Hss & Hg & Hput). rewrite denotes_payload in Hss. injection Hss as <-.
  rewrite Hp in Hg. injection Hg as <-. cbn [ok_or].
  pose proof (descend_spec segments attr payload put Hne Hwf) as Hd.
  destruct (descend_to_write_slot payload put segments attr) as [slot|e].
  - destruct Hd as [-> [Hc Hw]]. rewrite Hc.
    destruct (apply_set_operation _ _ _) as [x|e]; [|done]. by rewrite Hw, Hput.
  - destruct Hd as [[reason ->] ->]. by exists reason.
Qed.

(** A successful set in terms of the steps of the write. *)
Lemma exec_set_Ok instr state state' :
  exec_set instr state = Ok state' ->
  exists attr operation value segments payload new_value,
    set_args instr state attr operation value segments /\
    get_steps state PAYLOAD = Some payload /\
    writable payload (path_steps segments) = true /\
    apply_set_operation operation (current_value payload (path_steps segments)) value
      = Ok new_value /\
    state' = put_steps state PAYLOAD (viv_put payload (path_steps segments) new_value).
Proof.
  intros H. destruct (exec_set_Ok_args _ _ _ H) as (attr & op & value & segs & Hargs).
  destruct (get_steps state PAYLOAD) as [payload|] eqn:Hp.
  2:{ rewrite (exec_set_args _ _ _ _ _ _ Hargs) in H.
      pose proof (resolve_path_mut_denotes state "__exec__.payload") as Hm.
      destruct (resolve_path_mut state "__exec__.payload") as [[p put]|]; [|done].
      destruct Hm as (ss & Hss & Hg & _). rewrite denotes_payload in Hss. injection Hss as <-.
      by rewrite Hp in Hg. }
  pose proof (exec_set_write _ _ _ _ _ _ _ Hargs Hp) as Hw.
  destruct (write_ok payload segs) eqn:Hok; [|destruct Hw as [? Hw]; by rewrite Hw in H].
  rewrite Hw in H. apply andb_true_iff in Hok as [_ Hok].
  destruct (apply_set_operation _ _ _) as [x|e] eqn:E; [|done]. injection H as <-.
  exists attr, op, value, segs, payload, x. done.
Qed.

Lemma exec_push_Ok instr state state' :
  exec_push instr state = Ok state' ->
  exists params instructions,
    json_get instr "params" = Some params /\
    resolve_instructions_list state (json_get params "instructions") = Ok instructions /\
    ((instructions = [] /\ state' = state) \/
     exists queue, get_steps state QUEUE = Some (JArray queue) /\
       state' = put_steps state QUEUE (JArray (instructions ++ queue))).
Proof.
  unfold exec_push. destruct (json_get instr "params") as [params|] eqn:H1; [|done].
  cbn [ok_or]. destruct (resolve_instructions_list state _) as [ins|] eqn:H2; [|done].
  pose proof (resolve_path_mut_denotes state "__exec__.queue") as Hm. intros H.
  exists params, ins. split_and!; [done..|].
  destruct ins as [|i ins]; [left; split; congruence|right].
  destruct (resolve_path_mut state "__exec__.queue") as [[q put]|]; [|done].
  destruct Hm as (ss & Hss & Hg & Hput). rewrite denotes_queue in Hss. injection Hss as <-.
  cbn in H. destruct q as [| | | | |q|]; try done. cbn in H. injection H as <-.
  exists q. split; [done|]. by rewrite Hput.
Qed.

Lemma apply_set_operation_wf operation current value x :
  apply_set_operation operation current value = Ok x -> wf_json value = true ->
  wf_json x = true.
Proof.
  unfold apply_set_operation, i64_checked_add, i64_checked_sub.
  case_match; [by intros [= <-]|]. case_match; [|done].
  destruct (as_i64 current), (as_i64 value); cbn; try done.
  destruct (String.eqb operation "add"), (is_i64 _) eqn:E; cbn; try done;
    intros [= <-] _; exact E.
Qed.

(** Values taken from a well-formed state are well formed. *)
Lemma resolve_path_wf state path x :
  wf_json state = true -> resolve_path state path = Some x -> wf_json x = true.
Proof.
  intros Hs. rewrite resolve_path_denotes. destruct (denotes path); [|done].
  by apply get_steps_wf.
Qed.
Lemma json_get_wf v k x : wf_json v = true -> json_get v k = Some x -> wf_json x = true.
Proof. exact (get_step_wf v (Key k) x). Qed.
Lemma resolve_path_or_literal_wf state val x :
  wf_json state = true -> (forall v, val = Some v -> wf_json v = true) ->
  resolve_path_or_literal state val = Ok x -> wf_json x = true.
Proof.
  intros Hs Hv. destruct val as [v|]; [|done]. specialize (Hv v eq_refl).
  destruct v as [| | | |s| |]; cbn; try (by intros [= <-]).
  case_match; [|by intros [= <-]]. intros H'%ok_or_Ok. exact (resolve_path_wf _ _ _ Hs H').
Qed.
Lemma resolve_items_wf state arr acc l :
  wf_json state = true -> Forall (fun v => wf_json v = true) arr ->
  Forall (fun v => wf_json v = true) acc ->
  resolve_items state arr acc = Ok l -> Forall (fun v => wf_json v = true) l.
Proof.
  intros Hs Harr. revert acc. induction Harr as [|v arr Hv Harr IH]; intros acc Hacc; cbn.
  { by intros [= <-]. }
  assert (forall vs, Forall (fun v => wf_json v = true) vs ->
    resolve_items state arr (acc ++ vs) = Ok l -> Forall (fun v => wf_json v = true) l) as IH'
    by (intros vs Hvs; apply IH; by apply Forall_app_2).
  destruct v as [| | | |s| |]; try (apply IH'; by repeat constructor).
  case_match; [|apply IH'; by repeat constructor].
  destruct (resolve_path state s) as [w|] eqn:E; [|done]. cbn.
  apply resolve_path_wf in E; [|done].
  destruct w as [| | | | |inner|]; try (apply IH'; by repeat constructor).
  apply IH'. by apply wf_JArray.
Qed.

Lemma exec_set_wf instr state state' :
  wf_json instr = true -> wf_json state = true ->
  exec_set instr state = Ok state' -> wf_json state' = true.
Proof.
  intros Hi Hs (attr & op & value & segs & payload & x & Hargs & Hp & Hw & Hx & ->)%exec_set_Ok.
  apply put_steps_wf; [done|]. apply viv_put_wf; [by eapply get_steps_wf|].
  apply (apply_set_operation_wf _ _ _ _ Hx).
  destruct Hargs as [(params & attr_raw & H1 & H2 & H3 & H4 & H5) H6].
  apply (resolve_path_or_literal_wf _ _ _ Hs) in H5; [done|].
  intros v Hv. apply (json_get_wf params "value"); [|done]. by apply (json_get_wf instr "params").
Qed.
Lemma exec_push_wf instr state state' :
  wf_json instr = true -> wf_json state = true ->
  exec_push instr state = Ok state' -> wf_json state' = true.
Proof.
  intros Hi Hs (params & ins & H1 & H2 & [[-> ->]|(queue & Hq & ->)])%exec_push_Ok; [done|].
  apply put_steps_wf; [done|]. apply wf_JArray, Forall_app_2.
  - unfold resolve_instructions_list in H2.
    destruct (resolve_path_or_literal state _) as [val|] eqn:Hval; [|done].
    destruct val as [| | | | |arr|]; try done. cbn in H2.
    apply (resolve_items_wf _ _ _ _ Hs) in H2; [done| |done].
    apply wf_JArray. apply (resolve_path_or_literal_wf _ _ _ Hs) in Hval; [done|].
    intros v Hv. apply (json_get_wf params "instructions"); [|done].
    by apply (json_get_wf instr "params").
  - apply wf_JArray. by apply (get_steps_wf state QUEUE).
Qed.
Lemma io_params_wf state obj acc m :
  wf_json state = true -> Forall (fun kv => wf_json (snd kv) = true) obj ->
  wf_json (JObject acc) = true -> io_params state obj acc = Ok m -> wf_json (JObject m) = true.
Proof.
  intros Hs Hobj. revert acc. induction Hobj as [|[k v] obj Hv Hobj IH]; intros acc Hacc.
  { cbn. by intros [= <-]. }
  cbn [io_params]. case_match; [by apply IH|].
  assert (forall name w, resolve_path_or_literal state (Some v) = Ok w ->
    io_params state obj (obj_insert acc name w) = Ok m -> wf_json (JObject m) = true) as Hins.
  { intros name w Hw. apply IH. apply (put_step_wf (JObject acc) (Key name)); [done|].
    apply (resolve_path_or_literal_wf _ _ _ Hs) in Hw; [done|]. by intros ? [= <-]. }
  destruct (strip_suffix_char "?" k); destruct (resolve_path_or_literal state (Some v)) as [w|e];
    try (by eapply Hins); destruct e; try done; by apply IH.
Qed.

(** * Properties *)

(** The functional specification of set.  With its arguments resolved, a
    set whose path is writable in the payload applies the operation to the
    current value; on success the addressed slot then reads the new value and
    every path that separates from it reads as before, intermediate objects
    created on the way included; otherwise the operation's error is returned.
    A path that is not writable is refused with [PathResolutionFailed]. *)
Lemma exec_set_spec instr state attr operation value segments payload :
  set_args instr state attr operation value segments ->
  wf_json state = true -> get_steps state PAYLOAD = Some payload ->
  if write_ok payload segments then
    match apply_set_operation operation
      (current_value payload (path_steps segments)) value with
    | Ok new_value => exists state',
        exec_set instr state = Ok state' /\
        get_steps state' (PAYLOAD ++ path_steps segments) = Some new_value /\
        forall ss, diverge (PAYLOAD ++ path_steps segments) ss = true ->
          get_steps state' ss = get_steps state ss
    | Err e => exec_set instr state = Err e
    end
  else exists reason, exec_set instr state = Err (PathResolutionFailed attr reason).
Proof.
  intros Hargs Hwf Hp. pose proof (exec_set_write _ _ _ _ _ _ _ Hargs Hp) as H.
  destruct (write_ok payload segments) eqn:Hok; [|done].
  apply andb_true_iff in Hok as [_ Hok].
  destruct (apply_set_operation _ _ _) as [x|e]; [|done].
  eexists. split; [exact H|].
  assert (wf_json payload = true) as Hwp by exact (get_steps_wf _ _ _ Hwf Hp). split.
  - rewrite get_steps_app, (get_put_steps _ _ _ _ Hp). by apply get_viv_put.
  - intros ss Hd. destruct (diverge PAYLOAD ss) eqn:Hd'; [by apply get_put_steps_diverge|].
    assert (exists ss', ss = PAYLOAD ++ ss' /\ diverge (path_steps segments) ss' = true)
      as (ss' & -> & Hd'').
    { clear -Hd Hd'. destruct ss as [|s1 [|s2 ss]]; cbn in Hd, Hd' |- *;
        repeat (case_decide; try done); subst; cbn in *; try done. by exists ss. }
    rewrite !get_steps_app, (get_put_steps _ _ _ _ Hp), Hp. by apply get_viv_put_diverge.
Qed.
Definition set_example_state : JsonValue :=
  object_from_pairs [("__exec__", object_from_pairs
    [("instruction", JNull);
     ("payload", object_from_pairs [("items", JArray [JInteger 1; JInteger 2])]);
     ("queue", JArray [])])].
Definition set_example : JsonValue :=
  object_from_pairs [("type", JString "set"); ("params", object_from_pairs
    [("attr", JString "a.b"); ("operation", JString "add"); ("value", JInteger 5)])].
Lemma exec_set_spec_witness :
  write_ok (object_from_pairs [("items", JArray [JInteger 1; JInteger 2])])
    [Field "a"; Field "b"] = true /\
  exists state', exec_set set_example set_example_state = Ok state' /\
    get_steps state' (PAYLOAD ++ [Key "a"; Key "b"]) = Some (JInteger 5) /\
    forall ss, diverge (PAYLOAD ++ [Key "a"; Key "b"]) ss = true ->
      get_steps state' ss = get_steps set_example_state ss.
Proof.
  split; [vm_compute; reflexivity|].
  refine (exec_set_spec set_example set_example_state "a.b" "add" (JInteger 5)
    [Field "a"; Field "b"] (object_from_pairs [("items", JArray [JInteger 1; JInteger 2])]) _ _ _).
  - split; [|vm_compute; reflexivity]. eexists _, _. repeat split; vm_compute; reflexivity.
  - vm_compute; reflexivity.
  - vm_compute; reflexivity.
Defined.

(** The arithmetic of set never wraps.  [add] and [sub] succeed exactly
    on two integers whose exact result fits an [i64], and then return that
    result; an exact result outside the range is [IntegerOverflow] with both
    operands; any operation that is not [set], [add] or [sub] is refused. *)
Lemma apply_set_operation_exact operation current value :
  (forall x, apply_set_operation operation current value = Ok x <->
    (operation = "set" /\ x = value) \/
    exists a b, current = JInteger a /\ value = JInteger b /\
      ((operation = "add" /\ x = JInteger (a + b) /\ is_i64 (a + b) = true) \/
       (operation = "sub" /\ x = JInteger (a - b) /\ is_i64 (a - b) = true))) /\
  (forall op a b, apply_set_operation operation current value = Err (IntegerOverflow op a b) <->
    current = JInteger a /\ value = JInteger b /\ op = operation /\
      ((operation = "add" /\ is_i64 (a + b) = false) \/
       (operation = "sub" /\ is_i64 (a - b) = false))) /\
  (apply_set_operation operation current value = Err (UnknownOperation operation) <->
    operation ∉ ["set"; "add"; "sub"]).
Proof.
  unfold apply_set_operation, i64_checked_add, i64_checked_sub.
  destruct (String.eqb_spec operation "set") as [->|H1].
  { split_and!; [naive_solver|naive_solver|]. set_solver. }
  destruct (String.eqb_spec operation "add") as [->|H2];
    [|destruct (String.eqb_spec operation "sub") as [->|H3]]; cbn.
  - split_and!.
    + intros x. split.
      * destruct current as [| |c1| | | |], value as [| |v1| | | |]; cbn; try done.
        destruct (is_i64 (c1 + v1)) eqn:E; intros [= <-]. right. eauto 12.
      * intros [[? _]|(a & b & -> & -> & [(? & -> & E)|(? & -> & E)])]; try done;
          cbn; by rewrite E.
    + intros op a b. split.
      * destruct current as [| |c1| | | |], value as [| |v1| | | |]; cbn; try done.
        destruct (is_i64 (c1 + v1)) eqn:E; intros [= <- <- <-]. eauto 10.
      * intros (-> & -> & -> & [[? E]|[? E]]); try done; cbn; by rewrite E.
    + split; [|set_solver].
      destruct current as [| |c1| | | |], value as [| |v1| | | |]; cbn; try done.
      by destruct (is_i64 (c1 + v1)).
  - split_and!.
    + intros x. split.
      * destruct current as [| |c1| | | |], value as [| |v1| | | |]; cbn; try done.
        destruct (is_i64 (c1 - v1)) eqn:E; intros [= <-]. right. eauto 12.
      * intros [[? _]|(a & b & -> & -> & [(? & -> & E)|(? & -> & E)])]; try done;
          cbn; by rewrite E.
    + intros op a b. split.
      * destruct current as [| |c1| | | |], value as [| |v1| | | |]; cbn; try done.
        destruct (is_i64 (c1 - v1)) eqn:E; intros [= <- <- <-]. eauto 10.
      * intros (-> & -> & -> & [[? E]|[? E]]); try done; cbn; by rewrite E.
    + split; [|set_solver].
      destruct current as [| |c1| | | |], value as [| |v1| | | |]; cbn; try done.
      by destruct (is_i64 (c1 - v1)).
  - split_and!; [naive_solver|naive_solver|]. split; [set_solver|done].
Qed.

(** Push prepends.  A successful push either has no instruction to add
    and leaves the state alone, or puts its resolved instructions, in order,
    in front of the queue and changes nothing that separates from the queue. *)
Lemma exec_push_spec instr state state' :
  wf_json state = true -> exec_push instr state = Ok state' ->
  exists instructions,
    resolve_instructions_list state
      (let! params := json_get instr "params" in json_get params "instructions")
      = Ok instructions /\
    (instructions = [] -> state' = state) /\
    (instructions <> [] -> exists queue, get_steps state QUEUE = Some (JArray queue) /\
      get_steps state' QUEUE = Some (JArray (instructions ++ queue))) /\
    forall ss, diverge QUEUE ss = true -> get_steps state' ss = get_steps state ss.
Proof.
  intros Hwf (params & ins & -> & Hi & Hcase)%exec_push_Ok. exists ins. split; [done|].
  destruct Hcase as [(-> & ->)|(queue & Hq & ->)]; [done|]. split_and!.
  - intros ->. cbn [app]. by apply put_get_steps.
  - intros _. exists queue. split; [done|]. by eapply get_put_steps.
  - intros ss Hd. by apply get_put_steps_diverge.
Qed.
Lemma exec_push_spec_witness :
  let i := object_from_pairs [("type", JString "push"); ("params", object_from_pairs
    [("instructions", JArray [JString "__exec__.payload.items"; JNull])])] in
  exists state' instructions, exec_push i set_example_state = Ok state' /\
    instructions = [JInteger 1; JInteger 2; JNull] /\
    resolve_instructions_list set_example_state
      (let! params := json_get i "params" in json_get params "instructions") = Ok instructions /\
    forall ss, diverge QUEUE ss = true -> get_steps state' ss = get_steps set_example_state ss.
Proof.
  cbn zeta. eexists. exists [JInteger 1; JInteger 2; JNull].
  match goal with |- exec_push ?i _ = Ok ?s /\ _ =>
    assert (exec_push i set_example_state = Ok s) as H by (vm_compute; reflexivity);
    destruct (exec_push_spec i set_example_state s eq_refl H) as (ins & Hi & _ & _ & Hf)
  end.
  split; [exact H|]. split; [reflexivity|]. split; [vm_compute; reflexivity|exact Hf].
Defined.
