(* ===== verification/ExecSemantics.v ===== *)
(** The meaning of a meta instruction: a big-step semantics without limits,
    that indexes every run by the number of instructions it executes and the
    branch nesting it needs; the executor implements it, and its budget and
    depth limit only refuse runs.  Then the executor's invariants: what a run
    may change, and well-formedness. *)

From S2P Require Import Prelude ObjectMap Value Error Path Domain Executor.

(** The [type] of an instruction, as the dispatcher reads it. *)
Definition instr_type (instr : JsonValue) : option string :=
  let! v := json_get instr "type" in as_str v.
(** The condition of a [branch] or [enforce] and its outcome. *)
Definition instr_domain (instr state : JsonValue) : Result (JsonValue * DomainOutcome) TcbError :=
  let? params := ok_or (json_get instr "params") (MissingField "params") in
  let? domain := resolve_path_or_literal state (json_get params "domain") in
  let? outcome := evaluate_domain_outcome domain state in
  Ok (domain, outcome).
(** The instructions of the branch an outcome selects. *)
Definition chosen_branch (instr : JsonValue) (outcome : DomainOutcome) : list JsonValue :=
  default [] (let! params := json_get instr "params" in
    let! v := json_get params (if to_bool outcome then "on_true" else "on_false") in
    as_array v).
Definition is_state (r : MetaInstructionResult) : bool :=
  match r with MState _ => true | _ => false end.

(** [exec_sem i s r n h]: the instruction [i] on the state [s] gives [r],
    executing [n] instructions with [h] nested branches. *)
Inductive exec_sem : JsonValue -> JsonValue -> MetaInstructionResult -> nat -> nat -> Prop :=
| sem_set i s s' :
    instr_type i = Some "set" -> exec_set i s = Ok s' -> exec_sem i s (MState s') 1 0
| sem_push i s s' :
    instr_type i = Some "push" -> exec_push i s = Ok s' -> exec_sem i s (MState s') 1 0
| sem_io_request i s r :
    instr_type i = Some "io_request" -> exec_io_request i s = Ok r -> exec_sem i s r 1 0
| sem_enforce i s r attr :
    instr_type i = Some "enforce" -> exec_enforce i s = Ok (r, attr) -> exec_sem i s r 1 0
| sem_branch i s domain outcome r n h :
    instr_type i = Some "branch" -> instr_domain i s = Ok (domain, outcome) ->
    seq_sem (chosen_branch i outcome) s r n h -> exec_sem i s r (S n) (S h)
with seq_sem : list JsonValue -> JsonValue -> MetaInstructionResult -> nat -> nat -> Prop :=
| seq_nil s : seq_sem [] s (MState s) 0 0
| seq_next i l s s1 r n1 h1 n2 h2 :
    exec_sem i s (MState s1) n1 h1 -> seq_sem l s1 r n2 h2 ->
    seq_sem (i :: l) s r (n1 + n2) (Nat.max h1 h2)
| seq_stop i l s r n h :
    exec_sem i s r n h -> is_state r = false -> seq_sem (i :: l) s r n h.

Scheme exec_sem_mut := Minimality for exec_sem Sort Prop
  with seq_sem_mut := Minimality for seq_sem Sort Prop.
Combined Scheme exec_seq_ind from exec_sem_mut, seq_sem_mut.

(** * The executor at a depth, and its equation *)

Lemma branch_loop_ext (run1 run2 : Run) l s o :
  (forall i s o, run1 i s o = run2 i s o) -> branch_loop run1 l s o = branch_loop run2 l s o.
Proof.
  intros H. revert s o. induction l as [|i l IH]; intros s o; cbn; [done|].
  rewrite H. destruct (run2 i s _) as [[[] o']|]; done || apply IH.
Qed.
Lemma execute_dispatch_ext (run1 run2 : Run) i s d o :
  (d < MAX_BRANCH_DEPTH -> forall i s o, run1 i s o = run2 i s o) ->
  execute_dispatch run1 i s d o = execute_dispatch run2 i s d o.
Proof.
  intros H. unfold execute_dispatch. destruct (ok_or _ _) as [t|e]; [|done].
  do 2 (case_match; [done|]). case_match; [|done]. unfold exec_branch.
  destruct (Nat.leb_spec MAX_BRANCH_DEPTH d); [done|].
  destruct (ok_or (json_get i "params") _) as [params|]; [|done].
  destruct (resolve_path_or_literal s _) as [dom|]; [|done].
  destruct (evaluate_domain_outcome dom s) as [outcome|]; [|done].
  destruct (let! v := json_get params (if to_bool outcome then "on_true" else "on_false") in
    as_array v); [|done].
  apply branch_loop_ext. auto.
Qed.

Definition execute_at (d : nat) (i s : JsonValue) (o : Outs) :
    Result (MetaInstructionResult * Outs) TcbError :=
  execute_meta_instruction_budgeted (exec_fuel d) i s d o.

Lemma execute_fuel_irrelevant f1 f2 i s d o :
  exec_fuel d <= f1 -> exec_fuel d <= f2 ->
  execute_meta_instruction_budgeted f1 i s d o = execute_meta_instruction_budgeted f2 i s d o.
Proof.
  unfold exec_fuel. revert f2 i s d o.
  induction f1 as [|f1 IH]; intros [|f2] i s d o H1 H2; try lia.
  cbn [execute_meta_instruction_budgeted]. destruct (budget o); [done|].
  apply execute_dispatch_ext. intros Hd i' s' o'. apply IH; lia.
Qed.

Lemma execute_at_fuel f d i s o :
  exec_fuel d <= f -> execute_meta_instruction_budgeted f i s d o = execute_at d i s o.
Proof. intros Hf. by apply execute_fuel_irrelevant. Qed.

Lemma execute_at_eq d i s o :
  execute_at d i s o =
  match budget o with
  | O => Err (TooManyExecutedInstructions MAX_TOTAL_META_INSTRUCTIONS)
  | S next => execute_dispatch (execute_at (S d)) i s d
      (mk_outs next (hit_out o) (domain_attr_out o))
  end.
Proof.
  unfold execute_at at 1, exec_fuel. cbn [execute_meta_instruction_budgeted].
  destruct (budget o); [done|]. apply execute_dispatch_ext. intros Hd i' s' o'.
  apply execute_fuel_irrelevant; unfold exec_fuel; lia.
Qed.
#[global] Opaque execute_at.

Lemma execute_meta_instruction_at i s d :
  execute_meta_instruction i s d =
  result_map fst (execute_at d i s (mk_outs MAX_TOTAL_META_INSTRUCTIONS false None)).
Proof. reflexivity. Qed.

(** The dispatch by instruction type. *)
Inductive dispatch_case (run : Run) (i s : JsonValue) (d : nat) (o : Outs) :
    Result (MetaInstructionResult * Outs) TcbError -> Prop :=
| case_set : instr_type i = Some "set" -> dispatch_case run i s d o
    (let? s' := exec_set i s in Ok (MState s', mk_outs (budget o) true (domain_attr_out o)))
| case_push : instr_type i = Some "push" -> dispatch_case run i s d o
    (let? s' := exec_push i s in Ok (MState s', mk_outs (budget o) true (domain_attr_out o)))
| case_branch : instr_type i = Some "branch" ->
    dispatch_case run i s d o (exec_branch run i s d o)
| case_io_request : instr_type i = Some "io_request" -> dispatch_case run i s d o
    (let? r := exec_io_request i s in Ok (r, mk_outs (budget o) true (domain_attr_out o)))
| case_enforce : instr_type i = Some "enforce" -> dispatch_case run i s d o
    (let? '(r, attr) := exec_enforce i s in
     Ok (r, mk_outs (budget o) (match r with MHalted _ => true | _ => hit_out o end) (Some attr)))
| case_other e : (forall t, instr_type i = Some t -> t ∉ META_INSTRUCTION_TYPES) ->
    dispatch_case run i s d o (Err e).

Lemma execute_dispatch_case run i s d o :
  dispatch_case run i s d o (execute_dispatch run i s d o).
Proof.
  unfold execute_dispatch. fold (instr_type i).
  destruct (instr_type i) as [t|] eqn:Ht; cbn [ok_or]; [|apply case_other; intros t; by rewrite Ht].
  destruct (String.eqb_spec t "set") as [->|H1]; [by apply case_set|].
  destruct (String.eqb_spec t "push") as [->|H2]; [by apply case_push|].
  destruct (String.eqb_spec t "branch") as [->|H3]; [by apply case_branch|].
  destruct (String.eqb_spec t "io_request") as [->|H4]; [by apply case_io_request|].
  destruct (String.eqb_spec t "enforce") as [->|H5]; [by apply case_enforce|].
  apply case_other. intros t'. rewrite Ht. intros [= <-]. unfold META_INSTRUCTION_TYPES. set_solver.
Qed.

(** A branch evaluates its condition and runs the branch it selects. *)
Lemma exec_branch_eq run i s d o :
  exec_branch run i s d o =
  if (MAX_BRANCH_DEPTH <=? d)%nat then Err (NestingTooDeep MAX_BRANCH_DEPTH)
  else
    let? '(domain, outcome) := instr_domain i s in
    branch_loop run (chosen_branch i outcome) s
      (mk_outs (budget o)
        (match chosen_branch i outcome with [] => hit_out o | _ => true end)
        (Some (attribution domain outcome))).
Proof.
  unfold exec_branch, instr_domain, chosen_branch. case_match; [done|].
  destruct (json_get i "params") as [params|]; cbn [ok_or]; [|done].
  destruct (resolve_path_or_literal s _) as [domain|]; [|done].
  destruct (evaluate_domain_outcome domain s) as [outcome|]; [|done].
  by destruct (let! v := json_get params _ in as_array v) as [l|].
Qed.

(** * The executor implements the semantics *)

(** The limits a run of [n] instructions and [h] nested branches must fit. *)
Definition fits (d b n h : nat) : Prop := n <= b /\ (h = 0 \/ d + h <= MAX_BRANCH_DEPTH).
Definition is_limit_error (e : TcbError) : Prop :=
  e = NestingTooDeep MAX_BRANCH_DEPTH \/
  e = TooManyExecutedInstructions MAX_TOTAL_META_INSTRUCTIONS.
(** The executor's answer for a run the semantics derives. *)
Definition answers (d b : nat) (res : Result (MetaInstructionResult * Outs) TcbError)
    (r : MetaInstructionResult) (n h : nat) : Prop :=
  match res with
  | Ok (r', o') => r' = r /\ fits d b n h /\ budget o' = b - n
  | Err e => is_limit_error e /\ ~ fits d b n h
  end.

Lemma execute_at_complete :
  (forall i s r n h, exec_sem i s r n h ->
    forall d o, answers d (budget o) (execute_at d i s o) r n h) /\
  (forall l s r n h, seq_sem l s r n h ->
    forall d o, answers d (budget o) (branch_loop (execute_at d) l s o) r n h).
Proof.
  assert (forall i s r d o t o1,
    instr_type i = Some t -> budget o1 = pred (budget o) ->
    (budget o <> 0 -> execute_dispatch (execute_at (S d)) i s d
      (mk_outs (pred (budget o)) (hit_out o) (domain_attr_out o)) = Ok (r, o1)) ->
    answers d (budget o) (execute_at d i s o) r 1 0) as Hleaf.
  { intros i s r d o t o1 Ht Hb Hd. rewrite execute_at_eq. unfold answers, fits, is_limit_error.
    destruct (budget o) as [|b]; [split; [by right|lia]|]. cbn in Hd, Hb.
    rewrite Hd by done. split_and!; [done|lia|by left|lia]. }
  apply exec_seq_ind.
  - intros i s s' Ht Hs d o. eapply Hleaf; [done| |]; [|intros _; unfold execute_dispatch;
      fold (instr_type i); rewrite Ht; cbn; by rewrite Hs]. done.
  - intros i s s' Ht Hs d o. eapply Hleaf; [done| |]; [|intros _; unfold execute_dispatch;
      fold (instr_type i); rewrite Ht; cbn; by rewrite Hs]. done.
  - intros i s s' Ht Hs d o. eapply Hleaf; [done| |]; [|intros _; unfold execute_dispatch;
      fold (instr_type i); rewrite Ht; cbn; by rewrite Hs]. done.
  - intros i s s' attr Ht Hs d o. eapply Hleaf; [done| |]; [|intros _; unfold execute_dispatch;
      fold (instr_type i); rewrite Ht; cbn; by rewrite Hs]. done.
  - intros i s domain outcome r n h Ht Hdom _ IH d o. rewrite execute_at_eq.
    unfold answers, fits, is_limit_error in *.
    destruct (budget o) as [|b] eqn:Hb; [split; [by right|lia]|].
    assert (forall run o, execute_dispatch run i s d o = exec_branch run i s d o) as ->.
    { intros run o'. unfold execute_dispatch. fold (instr_type i). by rewrite Ht. }
    rewrite exec_branch_eq, Hdom. destruct (Nat.leb_spec MAX_BRANCH_DEPTH d).
    { split; [by left|lia]. }
    match goal with |- context [branch_loop _ _ _ ?o] => specialize (IH (S d) o) end.
    cbn [budget] in *. destruct (branch_loop _ _ _ _) as [[r' o']|e].
    + destruct IH as (-> & [H1 H2] & H3). split_and!; [done|lia|lia|lia].
    + destruct IH as [H1 H2]. split; [done|]. intros [H3 H4]. apply H2. lia.
  - intros s d o. cbn. unfold fits. split_and!; [done|lia|by left|lia].
  - intros i l s s1 r n1 h1 n2 h2 _ IH1 _ IH2 d o. cbn [branch_loop].
    specialize (IH1 d (mk_outs (budget o) false None)).
    unfold answers, fits in *. cbn [budget] in *.
    destruct (execute_at d i s _) as [[r' o']|e].
    + destruct IH1 as (-> & H1 & H2).
      match goal with |- context [branch_loop _ _ _ ?o] => specialize (IH2 d o) end.
      cbn [budget] in *. destruct (branch_loop _ _ _ _) as [[r' o'']|e];
        destruct_and!; split_and!; try done; lia.
    + destruct IH1 as [H1 H2]. split; [done|]. lia.
  - intros i l s r n h _ IH Hr d o. cbn [branch_loop].
    specialize (IH d (mk_outs (budget o) false None)). unfold answers in *. cbn [budget] in *.
    destruct (execute_at d i s _) as [[r' o']|e]; [|done].
    destruct IH as (-> & ?). by destruct r.
Qed.

Lemma branch_loop_sound d l s o r o' :
  (forall i s o r o', execute_at d i s o = Ok (r, o') -> exists n h, exec_sem i s r n h) ->
  branch_loop (execute_at d) l s o = Ok (r, o') -> exists n h, seq_sem l s r n h.
Proof.
  intros Hrun. revert s o. induction l as [|i l IH]; intros s o; cbn.
  { intros [= <- <-]. eexists _, _. constructor. }
  destruct (execute_at d i s _) as [[r' o'']|e] eqn:E; [|done].
  apply Hrun in E as (n1 & h1 & E).
  destruct r' as [s1|io p|reason].
  - intros (n2 & h2 & H)%IH. eexists _, _. by eapply seq_next.
  - intros [= <- <-]. eexists _, _. by apply seq_stop.
  - intros [= <- <-]. eexists _, _. by apply seq_stop.
Qed.

Lemma execute_at_sound d i s o r o' :
  execute_at d i s o = Ok (r, o') -> exists n h, exec_sem i s r n h.
Proof.
  remember (MAX_BRANCH_DEPTH - d) as k eqn:Hk. revert d i s o r o' Hk.
  induction k as [|k IH]; intros d i s o r o' Hk; rewrite execute_at_eq;
    (destruct (budget o); [done|]);
    destruct (execute_dispatch_case (execute_at (S d)) i s d (mk_outs n (hit_out o) (domain_attr_out o)))
      as [Ht|Ht|Ht|Ht|Ht|e Ht]; try done;
    try (destruct (exec_set i s) as [s'|e] eqn:E; [|done]; intros [= <- <-];
      eexists _, _; by eapply sem_set);
    try (destruct (exec_push i s) as [s'|e] eqn:E; [|done]; intros [= <- <-];
      eexists _, _; by eapply sem_push);
    try (destruct (exec_io_request i s) as [s'|e] eqn:E; [|done]; intros [= <- <-];
      eexists _, _; by eapply sem_io_request);
    try (destruct (exec_enforce i s) as [[r'' attr]|e] eqn:E; [|done]; intros [= <- <-];
      eexists _, _; by eapply sem_enforce);
    rewrite exec_branch_eq; (destruct (Nat.leb_spec MAX_BRANCH_DEPTH d); [done|]).
  - lia.
  - destruct (instr_domain i s) as [[domain outcome]|e] eqn:Ed; [|done].
    intros (m & h & Hs)%branch_loop_sound.
    + eexists _, _. by eapply sem_branch.
    + intros i' s' o1 r' o2. apply IH. lia.
Qed.

(** * Invariants of runs *)

(** Rule induction over runs, for a preorder on states that set and push
    respect and a property of instructions that branches inherit. *)
Section Invariant.
Context (Q : JsonValue -> Prop) (R : JsonValue -> JsonValue -> Prop) `{!PreOrder R}.
Context (Q_branch : forall i outcome, Q i -> Forall Q (chosen_branch i outcome)).
Context (R_set : forall i s s', Q i -> exec_set i s = Ok s' -> R s s').
Context (R_push : forall i s s', Q i -> exec_push i s = Ok s' -> R s s').

Lemma exec_sem_preserves :
    (forall i s r n h, exec_sem i s r n h -> Q i -> forall s', r = MState s' -> R s s') /\
    (forall l s r n h, seq_sem l s r n h -> Forall Q l -> forall s', r = MState s' -> R s s').
  Proof.
    apply exec_seq_ind.
    - intros i s s' _ Hs Hi _ [= <-]. by eapply R_set.
    - intros i s s' _ Hs Hi _ [= <-]. by eapply R_push.
    - intros i s r _ Hr _ s' ->. unfold exec_io_request in Hr.
      destruct (ok_or _ _) as [params|]; [|done]. destruct (ok_or _ _) as [t|]; [|done].
      by destruct (match as_object params with Some _ => _ | None => _ end).
    - intros i s r attr _ Hr _ s' ->. unfold exec_enforce in Hr.
      destruct (ok_or _ _) as [params|]; [|done].
      destruct (resolve_path_or_literal s _) as [domain|]; [|done].
      destruct (evaluate_domain_outcome domain s) as [outcome|]; [|done].
      destruct (negb (to_bool outcome)); [by simplify_eq|].
      by destruct (ok_or _ _).
    - intros i s domain outcome r n h _ _ _ IH Hi s' ->. by apply IH; [apply Q_branch|].
    - intros s _ s' [= <-]. done.
    - intros i l s s1 r n1 h1 n2 h2 _ IH1 _ IH2 [Hi Hl]%Forall_cons s' ->.
      transitivity s1; [by apply IH1|by apply IH2].
    - intros i l s r n h _ _ Hr _ s' ->. done.
  Qed.
End Invariant.

Lemma chosen_branch_wf i outcome :
  wf_json i = true -> Forall (fun i => wf_json i = true) (chosen_branch i outcome).
Proof.
  intros Hi. unfold chosen_branch.
  destruct (json_get i "params") as [params|] eqn:E1; cbn; [|done].
  destruct (json_get params _) as [v|] eqn:E2; cbn; [|done].
  destruct v as [| | | | |l|]; cbn; try done. apply wf_JArray.
  refine (json_get_wf params _ _ _ E2). by apply (json_get_wf i "params").
Qed.

(** What a run may change of a state: the payload, and the queue by new
    instructions in front. *)
Definition queue_extended (s s' : JsonValue) : Prop :=
  match get_steps s QUEUE with
  | Some (JArray q) => exists pushed, get_steps s' QUEUE = Some (JArray (pushed ++ q))
  | other => get_steps s' QUEUE = other
  end.
Record run_frame (s s' : JsonValue) : Prop := {
  frame_wf : wf_json s' = true;
  frame_payload : is_Some (get_steps s PAYLOAD) -> is_Some (get_steps s' PAYLOAD);
  frame_queue : queue_extended s s';
  frame_rest : forall ss, diverge PAYLOAD ss = true -> diverge QUEUE ss = true ->
    get_steps s' ss = get_steps s ss;
}.
Definition frame_rel (s s' : JsonValue) : Prop := wf_json s = true -> run_frame s s'.

#[export] Instance frame_rel_preorder : PreOrder frame_rel.
Proof.
  split.
  - intros s Hs. split; try done. unfold queue_extended.
    destruct (get_steps s QUEUE) as [[]|]; try done. by exists [].
  - intros s1 s2 s3 H12 H23 Hs. destruct (H12 Hs) as [W1 P1 Q1 F1].
    destruct (H23 W1) as [W2 P2 Q2 F2]. split; [done|by auto| |].
    + unfold queue_extended in *.
      destruct (get_steps s1 QUEUE) as [[]|]; try (by rewrite Q1 in Q2).
      destruct Q1 as [p1 Q1]. rewrite Q1 in Q2. destruct Q2 as [p2 Q2].
      exists (p2 ++ p1). by rewrite <- app_assoc.
    + intros ss H1 H2. by rewrite F2, F1.
Qed.

Lemma frame_rel_set i s s' : wf_json i = true -> exec_set i s = Ok s' -> frame_rel s s'.
Proof.
  intros Hi H Hs. pose proof (exec_set_wf _ _ _ Hi Hs H) as Hwf.
  apply exec_set_Ok in H as (attr & op & value & segs & payload & x & _ & Hp & _ & _ & ->).
  split; [done|intros _| |].
  - eexists. by eapply get_put_steps.
  - unfold queue_extended. rewrite get_put_steps_diverge by done.
    destruct (get_steps s QUEUE) as [[]|]; try done. by exists [].
  - intros ss H1 _. by apply get_put_steps_diverge.
Qed.
Lemma frame_rel_push i s s' : wf_json i = true -> exec_push i s = Ok s' -> frame_rel s s'.
Proof.
  intros Hi H Hs. pose proof (exec_push_wf _ _ _ Hi Hs H) as Hwf.
  apply exec_push_Ok in H as (params & ins & _ & _ & [(-> & ->)|(queue & Hq & ->)]); [by apply frame_rel_preorder|].
  split; [done|intros [p Hp]| |].
  - exists p. by rewrite get_put_steps_diverge.
  - unfold queue_extended. rewrite Hq. exists ins. by eapply get_put_steps.
  - intros ss _ H2. by apply get_put_steps_diverge.
Qed.

Lemma exec_sem_frame i s s' n h :
  exec_sem i s (MState s') n h -> wf_json i = true -> wf_json s = true -> run_frame s s'.
Proof.
  intros Hsem Hi Hs.
  destruct (exec_sem_preserves (fun i => wf_json i = true) frame_rel) as [H _];
    eauto using chosen_branch_wf, frame_rel_set, frame_rel_push.
  by eapply H.
Qed.

Lemma seq_sem_frame l s s' n h :
  seq_sem l s (MState s') n h -> Forall (fun i => wf_json i = true) l -> wf_json s = true ->
  run_frame s s'.
Proof.
  intros Hsem Hl Hs.
  destruct (exec_sem_preserves (fun i => wf_json i = true) frame_rel) as [_ H];
    eauto using chosen_branch_wf, frame_rel_set, frame_rel_push.
  by eapply H.
Qed.

(** * Hits and attributions *)

(** The structural hit of an instruction: it took effect, whatever the values. *)
Definition structural_hit (i s : JsonValue) : bool :=
  match instr_type i, instr_domain i s with
  | Some "branch", Ok (_, outcome) =>
      match chosen_branch i outcome with [] => false | _ => true end
  | Some "enforce", Ok (_, outcome) => to_bool outcome
  | _, _ => true
  end.
Definition instr_attribution (i s : JsonValue) : option DomainAttribution :=
  match instr_type i, instr_domain i s with
  | Some "branch", Ok (domain, outcome) => Some (attribution domain outcome)
  | Some "enforce", Ok (domain, outcome) => Some (attribution domain outcome)
  | _, _ => None
  end.

Lemma branch_loop_outs run l s o r o' :
  branch_loop run l s o = Ok (r, o') ->
  hit_out o' = hit_out o /\ domain_attr_out o' = domain_attr_out o.
Proof.
  revert s o. induction l as [|i l IH]; intros s o; cbn; [by intros [= <- <-]|].
  destruct (run i s _) as [[[] o'']|]; [|by intros [= <- <-]..|done].
  by intros ?%IH.
Qed.

Lemma execute_at_outs d i s b r o' :
  execute_at d i s (mk_outs b false None) = Ok (r, o') ->
  hit_out o' = structural_hit i s /\ domain_attr_out o' = instr_attribution i s.
Proof.
  rewrite execute_at_eq. cbn [budget]. destruct b as [|b]; [done|].
  unfold structural_hit, instr_attribution.
  destruct (execute_dispatch_case (execute_at (S d)) i s d
    (mk_outs b (hit_out (mk_outs (S b) false None)) (domain_attr_out (mk_outs (S b) false None))))
    as [Ht|Ht|Ht|Ht|Ht|e Ht]; try done; rewrite Ht.
  - destruct (exec_set i s); [|done]. by intros [= <- <-].
  - destruct (exec_push i s); [|done]. by intros [= <- <-].
  - rewrite exec_branch_eq. case_match; [done|].
    destruct (instr_domain i s) as [[domain outcome]|]; [|done].
    intros [-> ->]%branch_loop_outs. by destruct (chosen_branch i outcome).
  - destruct (exec_io_request i s); [|done]. by intros [= <- <-].
  - unfold exec_enforce, instr_domain. destruct (ok_or _ _) as [params|]; [|done].
    destruct (resolve_path_or_literal s _) as [domain|]; [|done].
    destruct (evaluate_domain_outcome domain s) as [outcome|]; [|done].
    destruct outcome; cbn; try (by intros [= <- <-]).
    destruct (ok_or _ _); [|done]. by intros [= <- <-].
Qed.

(** * Properties *)

(** C9: the executor implements the limit-free semantics.  Every result is a
    run the semantics derives; and for every run it derives, the executor
    gives the run's result exactly when the run executes at most
    [MAX_TOTAL_META_INSTRUCTIONS] instructions and its branches fit under
    [MAX_BRANCH_DEPTH], and otherwise one of the two limit errors: the limits
    never change a result, they only refuse.  In particular runs are
    deterministic. *)
Theorem executor_refines_semantics i s d :
  (forall r, execute_meta_instruction i s d = Ok r -> exists n h, exec_sem i s r n h) /\
  (forall r n h, exec_sem i s r n h ->
    match execute_meta_instruction i s d with
    | Ok r' => r' = r /\ fits d MAX_TOTAL_META_INSTRUCTIONS n h
    | Err e => is_limit_error e /\ ~ fits d MAX_TOTAL_META_INSTRUCTIONS n h
    end).
Proof.
  rewrite execute_meta_instruction_at. split.
  - intros r. destruct (execute_at d i s _) as [[r' o']|e] eqn:E; [|done].
    intros [= <-]. by eapply execute_at_sound.
  - intros r n h Hsem.
    pose proof (proj1 execute_at_complete _ _ _ _ _ Hsem d
      (mk_outs MAX_TOTAL_META_INSTRUCTIONS false None)) as H. unfold answers in H.
    destruct (execute_at d i s _) as [[r' o']|e]; cbn in H |- *; [|done].
    destruct H as (? & ? & ?). done.
Qed.

(** C39: the budget bounds the work.  A successful execution is charged one
    unit for every instruction the run executes, sub-instructions included,
    so it leaves strictly less than it was given. *)
Theorem budget_counts_instructions i s d fuel o r o' :
  exec_fuel d <= fuel ->
  execute_meta_instruction_budgeted fuel i s d o = Ok (r, o') ->
  exists n h, exec_sem i s r n h /\ 0 < n /\ budget o' + n = budget o.
Proof.
  intros Hf. rewrite (execute_at_fuel fuel) by done. intros H.
  destruct (execute_at_sound _ _ _ _ _ _ H) as (n & h & Hsem). exists n, h.
  pose proof (proj1 execute_at_complete _ _ _ _ _ Hsem d o) as Ha.
  unfold answers in Ha. rewrite H in Ha. destruct Ha as (_ & [Hn _] & Hb).
  split; [done|]. assert (0 < n) by (destruct Hsem; lia). lia.
Qed.
Definition branch_example : JsonValue :=
  object_from_pairs [("type", JString "branch"); ("params", object_from_pairs
    [("domain", object_from_pairs [("type", JString "exists"); ("path", JString "payload.items")]);
     ("on_true", JArray [set_example; set_example])])].
Lemma budget_counts_instructions_witness :
  exists r o', execute_meta_instruction_budgeted 65 branch_example set_example_state 0
    (mk_outs 10 false None) = Ok (r, o') /\ budget o' = 7 /\
    exists n h, exec_sem branch_example set_example_state r n h /\ 0 < n /\ budget o' + n = 10.
Proof.
  eexists _, _. match goal with |- ?e = _ /\ _ =>
    let v := eval vm_compute in e in
    match v with Ok (?r, ?o) =>
      assert (e = Ok (r, o)) as H by (vm_compute; reflexivity) end end.
  split; [exact H|]. split; [reflexivity|].
  refine (budget_counts_instructions branch_example set_example_state 0 65
    (mk_outs 10 false None) _ _ _ H). vm_compute. lia.
Defined.

(** What a meta instruction can change.  From a well-formed state, any
    run of a well-formed instruction that ends in a state keeps the state
    well formed, keeps a payload where there was one, only adds instructions
    in front of the queue, and leaves everything outside
    [__exec__.payload] and [__exec__.queue] (the current instruction in
    particular) as it was. *)
Lemma execute_frame i s d s' :
  wf_json i = true -> wf_json s = true ->
  execute_meta_instruction i s d = Ok (MState s') -> run_frame s s'.
Proof.
  intros Hi Hs. rewrite execute_meta_instruction_at.
  destruct (execute_at d i s _) as [[r' o']|e] eqn:E; [|done]. intros [= ->].
  apply execute_at_sound in E as (n & h & E). by eapply exec_sem_frame.
Qed.
Lemma execute_frame_witness :
  exists s', execute_meta_instruction branch_example set_example_state 0 = Ok (MState s') /\
    run_frame set_example_state s'.
Proof.
  eexists. match goal with |- ?e = _ /\ _ =>
    let v := eval vm_compute in e in
    match v with Ok (MState ?s) =>
      assert (e = Ok (MState s)) as H by (vm_compute; reflexivity) end end.
  split; [exact H|].
  apply (execute_frame branch_example set_example_state 0); [vm_compute; reflexivity..|exact H].
Defined.
