(* ===== verification/Transition.v ===== *)
(** The state transition, [evorule-tcb/src/transition.rs]: one instruction
    against a list of rules, the constraints first, then the transforms, with
    the record of which rules took effect. *)

From stdpp Require Import sorting.
From S2P Require Import Prelude ObjectMap Value Error Path Domain Executor ExecSemantics.

Definition MAX_TRANSFORM_RULES : nat := 128.

(** [struct RuleHit] and [enum TransitionResult]. *)
Record RuleHit : Type := mk_hit {
  hit_index : nat;
  hit_instr_type : string;
  hit : bool;
  hit_domain_attr : option DomainAttribution;
}.
Inductive TransitionResult : Type :=
| TState (new_payload : JsonValue) (new_queue : list JsonValue) (rule_hits : list RuleHit)
| TIoRequired (io_type : string) (params : JsonValue)
| THalted (rule_index : nat) (reason : string)
| TIgnored (instruction_type : string) (reason : string) (rule_hits : list RuleHit).

(** [build_exec_state]. *)
Definition build_exec_state (instruction payload : JsonValue) (queue : list JsonValue) :
    JsonValue :=
  let exec := map_new in
  let exec := obj_insert exec "instruction" instruction in
  let exec := obj_insert exec "payload" payload in
  let exec := obj_insert exec "queue" (JArray queue) in
  let root := obj_insert map_new "__exec__" (JObject exec) in
  JObject root.

Definition rule_type (rule : JsonValue) : string :=
  default "unknown" (let! v := json_get rule "type" in as_str v).
Definition is_enforce (rule : JsonValue) : bool := String.eqb (rule_type rule) "enforce".

(** One call of the executor by the transition: depth 0, fresh hit and
    attribution, the shared budget. *)
Definition run_rule (rule state : JsonValue) (b : nat) :
    Result (MetaInstructionResult * Outs) TcbError :=
  execute_meta_instruction_budgeted (exec_fuel 0) rule state 0 (mk_outs b false None).
#[global] Arguments run_rule : simpl never.
Definition rule_hit (index : nat) (rule : JsonValue) (o : Outs) : RuleHit :=
  mk_hit index (rule_type rule) (hit_out o) (domain_attr_out o).

(** The first loop of [execute_transition]: every [enforce] rule on the input
    state.  [inl] is an early return. *)
Fixpoint enforce_gate (exec_state : JsonValue) (index : nat) (rules : list JsonValue)
    (b : nat) (enforce_hits : list RuleHit) :
    Result (TransitionResult + (nat * list RuleHit)) TcbError :=
  match rules with
  | [] => Ok (inr (b, enforce_hits))
  | rule :: rules' =>
      if negb (is_enforce rule) then
        enforce_gate exec_state (S index) rules' b enforce_hits
      else
        let? '(result, o) := run_rule rule exec_state b in
        let enforce_hits := enforce_hits ++ [rule_hit index rule o] in
        match result with
        | MHalted reason => Ok (inl (THalted index reason))
        | _ => enforce_gate exec_state (S index) rules' (budget o) enforce_hits
        end
  end.

(** The second loop: every other rule in order, threading the state. *)
Fixpoint transform_loop (state : JsonValue) (index : nat) (rules : list JsonValue)
    (b : nat) (rule_hits : list RuleHit) :
    Result (TransitionResult + (JsonValue * list RuleHit)) TcbError :=
  match rules with
  | [] => Ok (inr (state, rule_hits))
  | rule :: rules' =>
      if is_enforce rule then transform_loop state (S index) rules' b rule_hits
      else
        let? '(result, o) := run_rule rule state b in
        let rule_hits := rule_hits ++ [rule_hit index rule o] in
        match result with
        | MState new_state => transform_loop new_state (S index) rules' (budget o) rule_hits
        | MIoRequired io_type params => Ok (inl (TIoRequired io_type params))
        | MHalted reason => Ok (inl (THalted index reason))
        end
  end.

(** [sort_by_key]: the standard library's stable sort. *)
Fixpoint insert_hit (h : RuleHit) (l : list RuleHit) : list RuleHit :=
  match l with
  | [] => [h]
  | x :: l' => if (hit_index h <=? hit_index x)%nat then h :: l else x :: insert_hit h l'
  end.
Definition sort_by_index (l : list RuleHit) : list RuleHit := foldr insert_hit [] l.

(** The closure of [has_matching_constitution_rule]. *)
Definition rule_matches (instruction_type : string) (rule : JsonValue) : bool :=
  match (let! p := json_get rule "params" in as_object p) with
  | Some params =>
      match (let! d := map_get params "domain" in as_object d) with
      | Some domain =>
          match (let! t := map_get domain "type" in as_str t) with
          | Some domain_type =>
              if String.eqb domain_type "instruction" then
                match (let! t := map_get domain "instruction_type" in as_str t) with
                | Some expected_type => String.eqb expected_type instruction_type
                | None => false
                end
              else if String.eqb domain_type "all" then false
              else true
          | None => false
          end
      | None => false
      end
  | None =>
      match (let! t := json_get rule "type" in as_str t) with
      | Some rule_type =>
          if String.eqb rule_type "set" || String.eqb rule_type "increment"
             || String.eqb rule_type "decrement" || String.eqb rule_type "branch" then
            String.eqb rule_type instruction_type
          else false
      | None => false
      end
  end.

(** [execute_transition]. *)
Definition execute_transition (core_eval : list JsonValue) (instruction payload : JsonValue)
    (queue : list JsonValue) : Result TransitionResult TcbError :=
  if (MAX_TRANSFORM_RULES <? length core_eval)%nat then
    Err (TooManyTransformRules MAX_TRANSFORM_RULES (length core_eval))
  else
    let exec_state := build_exec_state instruction payload queue in
    let? gate := enforce_gate exec_state 0 core_eval MAX_TOTAL_META_INSTRUCTIONS [] in
    match gate with
    | inl halted => Ok halted
    | inr (b, enforce_hits) =>
        let? done := transform_loop exec_state 0 core_eval b [] in
        match done with
        | inl signal => Ok signal
        | inr (state, rule_hits) =>
            let rule_hits := sort_by_index (rule_hits ++ enforce_hits) in
            let instruction_type :=
              default "unknown" (let! v := json_get instruction "type" in as_str v) in
            let has_matching_constitution_rule :=
              existsb (rule_matches instruction_type) core_eval in
            let? new_payload := ok_or (resolve_path state "__exec__.payload")
              (InvalidState
                "__exec__.payload not found in state after transform execution") in
            let? new_queue := ok_or
              (let! v := resolve_path state "__exec__.queue" in as_array v)
              (InvalidState
                "__exec__.queue not found or not an array after transform execution") in
            let has_side_effect :=
              negb (json_eqb new_payload payload) || negb (forall2b json_eqb new_queue queue) in
            if negb has_matching_constitution_rule && negb has_side_effect then
              Ok (TIgnored instruction_type
                "instruction not matched by any constitution rule" rule_hits)
            else Ok (TState new_payload new_queue rule_hits)
        end
    end.

(** * The initial state *)

Lemma build_exec_state_wf instruction payload queue :
  wf_json instruction = true -> wf_json payload = true ->
  Forall (fun i => wf_json i = true) queue ->
  wf_json (build_exec_state instruction payload queue) = true.
Proof.
  intros Hi Hp Hq. unfold build_exec_state. cbv zeta.
  repeat (match goal with |- wf_json (JObject (obj_insert ?m ?k ?v)) = true =>
    change (wf_json (put_step (JObject m) (Key k) v) = true); apply put_step_wf end);
    try done; by apply wf_JArray.
Qed.
Lemma build_exec_state_payload instruction payload queue :
  get_steps (build_exec_state instruction payload queue) PAYLOAD = Some payload.
Proof. reflexivity. Qed.
Lemma build_exec_state_queue instruction payload queue :
  get_steps (build_exec_state instruction payload queue) QUEUE = Some (JArray queue).
Proof. reflexivity. Qed.
#[global] Opaque build_exec_state.

(** * One rule *)

Lemma run_rule_spec rule state b r o :
  run_rule rule state b = Ok (r, o) ->
  exists n h, exec_sem rule state r n h /\ fits 0 b n h /\ budget o = b - n /\
    hit_out o = structural_hit rule state /\
    domain_attr_out o = instr_attribution rule state.
Proof.
  intros H. change (run_rule rule state b) with (execute_at 0 rule state (mk_outs b false None)) in H.
  destruct (execute_at_sound _ _ _ _ _ _ H) as (n & h & Hsem). exists n, h.
  pose proof (proj1 execute_at_complete _ _ _ _ _ Hsem 0 (mk_outs b false None)) as Ha.
  unfold answers in Ha. rewrite H in Ha. cbn in Ha. destruct Ha as (_ & Hfit & Hb).
  apply execute_at_outs in H as [Hh Ha]. done.
Qed.

Lemma is_enforce_type rule : is_enforce rule = true -> instr_type rule = Some "enforce".
Proof.
  unfold is_enforce, rule_type. fold (instr_type rule).
  destruct (instr_type rule); cbn; intros H; reflect_bool; congruence.
Qed.

(** An [enforce] rule answers by the outcome of its condition alone. *)
Lemma exec_sem_enforce rule state r n h :
  is_enforce rule = true -> exec_sem rule state r n h ->
  exists domain outcome, instr_domain rule state = Ok (domain, outcome) /\
    if to_bool outcome then exists reason, r = MHalted reason else r = MState state.
Proof.
  intros Ht%is_enforce_type Hsem.
  destruct Hsem as [? ? ? Ht'|? ? ? Ht'|? ? ? Ht'|i s r attr Ht' He|? ? ? ? ? ? ? Ht'];
    try (rewrite Ht in Ht'; discriminate).
  unfold exec_enforce in He. unfold instr_domain.
  destruct (ok_or _ _) as [params|]; [|done].
  destruct (resolve_path_or_literal s _) as [domain|]; [|done].
  destruct (evaluate_domain_outcome domain s) as [outcome|]; [|done].
  exists domain, outcome. split; [done|]. destruct (to_bool outcome); cbn in He.
  - destruct (ok_or _ _) as [reason|]; [|done]. exists reason. congruence.
  - congruence.
Qed.

(** * The two loops *)

Definition transforms (rules : list JsonValue) : list JsonValue :=
  List.filter (fun rule => negb (is_enforce rule)) rules.

(** The indices of the rules of one kind, counted from [index]. *)
Fixpoint rule_indices (p : JsonValue -> bool) (index : nat) (rules : list JsonValue) : list nat :=
  match rules with
  | [] => []
  | rule :: rules' =>
      (if p rule then [index] else []) ++ rule_indices p (S index) rules'
  end.
Lemma rule_indices_partition p index rules :
  rule_indices p index rules ++ rule_indices (fun r => negb (p r)) index rules
  ≡ₚ seq index (length rules).
Proof.
  revert index. induction rules as [|r rules IH]; intros index; [done|].
  cbn [rule_indices length seq]. rewrite <- IH. destruct (p r); cbn; [done|].
  symmetry. apply Permutation_middle.
Qed.

(** A hit record describes a rule of the list, with the index it has there. *)
Definition hit_describes (index : nat) (rules : list JsonValue) (x : RuleHit) : Prop :=
  exists k rule, hit_index x = index + k /\ rules !! k = Some rule /\
    hit_instr_type x = rule_type rule.
Lemma hit_describes_tail index rule rules hits :
  Forall (hit_describes (S index) rules) hits ->
  Forall (hit_describes index (rule :: rules)) hits.
Proof.
  intros H. eapply Forall_impl; [exact H|]. intros x (k & r & H1 & H2 & H3). exists (S k), r. split_and!; [lia|done..].
Qed.
Lemma hit_describes_head index rule rules o :
  hit_describes index (rule :: rules) (rule_hit index rule o).
Proof. exists 0, rule. split_and!; cbn; [lia|done..]. Qed.

Lemma enforce_gate_spec state index rules b hits res :
  enforce_gate state index rules b hits = Ok res ->
  match res with
  | inl t => exists k rule reason n h,
      t = THalted (index + k) reason /\ rules !! k = Some rule /\ is_enforce rule = true /\
      exec_sem rule state (MHalted reason) n h
  | inr (b', hits') => b' <= b /\
      (forall rule, In rule rules -> is_enforce rule = true ->
        exists domain outcome, instr_domain rule state = Ok (domain, outcome) /\
          to_bool outcome = false) /\
      exists new_hits, hits' = hits ++ new_hits /\
        map hit_index new_hits = rule_indices is_enforce index rules /\
        Forall (hit_describes index rules) new_hits
  end.
Proof.
  revert index b hits. induction rules as [|rule rules IH]; intros index b hits; cbn.
  { intros [= <-]. split_and!; [done..|]. exists []. by rewrite app_nil_r. }
  destruct (is_enforce rule) eqn:He; cbn [negb].
  2:{ intros H%IH. destruct res as [t|[b' hits']].
      - destruct H as (k & r & reason & n & h & -> & ? & ? & ?). exists (S k), r, reason, n, h.
        split_and!; try done. f_equal. lia.
      - destruct H as (Hb & Hall & nh & -> & Hi & Hd). split_and!; [done| |].
        + intros r [<-|Hr]; [congruence|by apply Hall].
        + exists nh. split_and!; [done..|by apply hit_describes_tail]. }
  destruct (run_rule rule state b) as [[r o]|e] eqn:Er; [|done].
  apply run_rule_spec in Er as (n & h & Hsem & [Hn _] & Hb & _).
  destruct (exec_sem_enforce _ _ _ _ _ He Hsem) as (domain & outcome & Hdom & Hout).
  destruct (to_bool outcome) eqn:Hto.
  - destruct Hout as [reason ->]. intros [= <-].
    exists 0, rule, reason, n, h. split_and!; try done. f_equal. lia.
  - subst r. intros H%IH. destruct res as [t|[b' hits']].
    + destruct H as (k & r & reason & n' & h' & -> & ? & ? & ?). exists (S k), r, reason, n', h'.
      split_and!; try done. f_equal. lia.
    + destruct H as (Hb' & Hall & nh & -> & Hi & Hd). split_and!; [lia| |].
      * intros r [<-|Hr]; [eauto|by apply Hall].
      * exists (rule_hit index rule o :: nh). split_and!.
        -- by rewrite <- app_assoc.
        -- cbn. by rewrite Hi.
        -- constructor; [apply hit_describes_head|by apply hit_describes_tail].
Qed.

Lemma transform_loop_spec state index rules b hits res :
  transform_loop state index rules b hits = Ok res ->
  match res with
  | inl t => exists r n h, seq_sem (transforms rules) state r n h /\ n <= b /\
      match t with
      | TIoRequired io_type params => r = MIoRequired io_type params
      | THalted i reason => r = MHalted reason /\
          exists k rule, i = index + k /\ rules !! k = Some rule /\ is_enforce rule = false
      | _ => False
      end
  | inr (state', hits') =>
      (exists n h, seq_sem (transforms rules) state (MState state') n h /\ n <= b) /\
      exists new_hits, hits' = hits ++ new_hits /\
        map hit_index new_hits = rule_indices (fun r => negb (is_enforce r)) index rules /\
        Forall (hit_describes index rules) new_hits
  end.
Proof.
  revert state index b hits. induction rules as [|rule rules IH]; intros state index b hits; cbn.
  { intros [= <-]. split; [exists 0, 0; split; [constructor|lia]|]. exists [].
    by rewrite app_nil_r. }
  destruct (is_enforce rule) eqn:He; cbn [negb].
  { intros H%IH. destruct res as [t|[state' hits']].
    - destruct H as (r & n & h & Hs & Hn & Ht). exists r, n, h. split_and!; [done..|].
      destruct t; try done. destruct Ht as (-> & k & rl & -> & ? & ?). split; [done|].
      exists (S k), rl. split_and!; [lia|done..].
    - destruct H as (? & nh & -> & Hi & Hd). split; [done|]. exists nh.
      split_and!; [done..|by apply hit_describes_tail]. }
  destruct (run_rule rule state b) as [[r o]|e] eqn:Er; [|done].
  apply run_rule_spec in Er as (n & h & Hsem & [Hn _] & Hb & _).
  destruct r as [s1|io params|reason].
  - intros H%IH. rewrite Hb in H. destruct res as [t|[state' hits']].
    + destruct H as (r & n' & h' & Hs & Hn' & Ht). exists r, (n + n'), (Nat.max h h').
      split_and!; [by eapply seq_next|lia|].
      destruct t; try done. destruct Ht as (-> & k & rl & -> & ? & ?). split; [done|].
      exists (S k), rl. split_and!; [lia|done..].
    + destruct H as ((n' & h' & Hs & Hn') & nh & -> & Hi & Hd). split.
      * exists (n + n'), (Nat.max h h'). split; [by eapply seq_next|lia].
      * exists (rule_hit index rule o :: nh). split_and!.
        -- by rewrite <- app_assoc.
        -- cbn. by rewrite Hi.
        -- constructor; [apply hit_describes_head|by apply hit_describes_tail].
  - intros [= <-]. exists (MIoRequired io params), n, h. split_and!; [by apply seq_stop|done..].
  - intros [= <-]. exists (MHalted reason), n, h. split_and!; [by apply seq_stop|done..|].
    exists 0, rule. split_and!; [lia|done..].
Qed.

(** * The order of the hit records *)

Lemma insert_hit_perm x l : insert_hit x l ≡ₚ x :: l.
Proof.
  induction l as [|y l IH]; cbn; [done|]. case_match; [done|]. rewrite IH. constructor.
Qed.
Lemma sort_by_index_perm l : sort_by_index l ≡ₚ l.
Proof. induction l as [|x l IH]; cbn; [done|]. by rewrite insert_hit_perm, IH. Qed.
Lemma insert_hit_sorted x l :
  StronglySorted le (map hit_index l) -> StronglySorted le (map hit_index (insert_hit x l)).
Proof.
  induction l as [|y l IH]; cbn; [by repeat constructor|].
  intros [Hs Hy]%StronglySorted_inv. destruct (Nat.leb_spec (hit_index x) (hit_index y)); cbn.
  - constructor; [by constructor|]. constructor; [done|].
    eapply Forall_impl; [exact Hy|]. intros z. cbn. lia.
  - constructor; [by apply IH|]. rewrite insert_hit_perm. cbn. constructor; [lia|done].
Qed.
Lemma sort_by_index_sorted l : StronglySorted le (map hit_index (sort_by_index l)).
Proof. induction l as [|x l IH]; cbn; [constructor|]. by apply insert_hit_sorted. Qed.

Lemma sort_by_index_seq l n :
  map hit_index l ≡ₚ seq 0 n -> map hit_index (sort_by_index l) = seq 0 n.
Proof.
  intros Hp. apply (StronglySorted_unique le); [apply sort_by_index_sorted| |].
  - clear. generalize 0. induction n as [|n IH]; intros k; cbn; constructor; [apply IH|].
    apply List.Forall_forall. intros x Hx%in_seq. lia.
  - by rewrite sort_by_index_perm.
Qed.

(** * The phases of a transition *)

Section Transition.
Context (core_eval : list JsonValue) (instruction payload : JsonValue)
    (queue : list JsonValue).
Let exec_state := build_exec_state instruction payload queue.

  (** All top-level constraints were evaluated and none holds. *)
Definition constraints_pass : Prop :=
    forall rule, In rule core_eval -> is_enforce rule = true ->
      exists domain outcome, instr_domain rule exec_state = Ok (domain, outcome) /\
        to_bool outcome = false.
  (** The record of the hits of a finished transition. *)
Definition hits_complete (hits : list RuleHit) : Prop :=
    map hit_index hits = seq 0 (length core_eval) /\
    Forall (hit_describes 0 core_eval) hits.
  (** The transforms ran to the end on the input state. *)
Definition transforms_finish (state : JsonValue) : Prop :=
    exists n h, seq_sem (transforms core_eval) exec_state (MState state) n h /\
      n <= MAX_TOTAL_META_INSTRUCTIONS.

Inductive transition_case : Result TransitionResult TcbError -> Prop :=
  | case_too_many : MAX_TRANSFORM_RULES < length core_eval ->
      transition_case (Err (TooManyTransformRules MAX_TRANSFORM_RULES (length core_eval)))
  | case_error e : transition_case (Err e)
  | case_constraint k rule reason n h :
      core_eval !! k = Some rule -> is_enforce rule = true ->
      exec_sem rule exec_state (MHalted reason) n h ->
      transition_case (Ok (THalted k reason))
  | case_io io_type params n h :
      constraints_pass ->
      seq_sem (transforms core_eval) exec_state (MIoRequired io_type params) n h ->
      transition_case (Ok (TIoRequired io_type params))
  | case_nested_halt k rule reason n h :
      constraints_pass ->
      core_eval !! k = Some rule -> is_enforce rule = false ->
      seq_sem (transforms core_eval) exec_state (MHalted reason) n h ->
      transition_case (Ok (THalted k reason))
  | case_finish state hits res :
      constraints_pass -> transforms_finish state -> hits_complete hits ->
      length core_eval <= MAX_TRANSFORM_RULES ->
      res = (let instruction_type :=
              default "unknown" (let! v := json_get instruction "type" in as_str v) in
            let? new_payload := ok_or (get_steps state PAYLOAD)
              (InvalidState
                "__exec__.payload not found in state after transform execution") in
            let? new_queue := ok_or (let! v := get_steps state QUEUE in as_array v)
              (InvalidState
                "__exec__.queue not found or not an array after transform execution") in
            if negb (existsb (rule_matches instruction_type) core_eval) &&
               negb (negb (json_eqb new_payload payload) ||
                     negb (forall2b json_eqb new_queue queue)) then
              Ok (TIgnored instruction_type
                "instruction not matched by any constitution rule" hits)
            else Ok (TState new_payload new_queue hits)) ->
      transition_case res.

Lemma execute_transition_case :
    transition_case (execute_transition core_eval instruction payload queue).
  Proof.
    unfold execute_transition. destruct (Nat.ltb_spec MAX_TRANSFORM_RULES (length core_eval));
      [by apply case_too_many|].
    cbv zeta. fold exec_state.
    destruct (enforce_gate exec_state 0 core_eval MAX_TOTAL_META_INSTRUCTIONS [])
      as [[t|[b enforce_hits]]|e] eqn:Eg; [..|apply case_error]; apply enforce_gate_spec in Eg.
    { destruct Eg as (k & rule & reason & n & h & -> & ? & ? & ?). by eapply case_constraint. }
    destruct Eg as (Hb & Hpass & nh & -> & Hi & Hd).
    destruct (transform_loop exec_state 0 core_eval b [])
      as [[t|[state hits]]|e] eqn:Et; [..|apply case_error]; apply transform_loop_spec in Et.
    { destruct Et as (r & n & h & Hs & Hn & Ht). destruct t as [|io params|k reason|]; try done.
      - subst r. by eapply case_io.
      - destruct Ht as (-> & k' & rule & -> & ? & ?). by eapply case_nested_halt. }
    destruct Et as ((n & h & Hs & Hn) & nh' & -> & Hi' & Hd').
    apply (case_finish state (sort_by_index (nh' ++ nh))); [done|exists n, h; split; [done|lia]| |lia|].
    - split.
      + apply sort_by_index_seq. rewrite map_app, Hi, Hi', Permutation_app_comm.
        apply rule_indices_partition.
      + rewrite sort_by_index_perm. by apply Forall_app_2.
    - by rewrite !resolve_path_denotes, denotes_payload, denotes_queue.
  Qed.

Context (Hrules : Forall (fun i => wf_json i = true) core_eval).
Context (Hinstr : wf_json instruction = true) (Hpayload : wf_json payload = true).
Context (Hqueue : Forall (fun i => wf_json i = true) queue).

Lemma transforms_finish_frame state :
    transforms_finish state -> run_frame exec_state state.
  Proof.
    intros (n & h & Hs & _). eapply seq_sem_frame; [exact Hs| |by apply build_exec_state_wf].
    apply List.Forall_forall. intros i [Hi _]%filter_In. rewrite List.Forall_forall in Hrules. auto.
  Qed.
Lemma transforms_finish_payload state :
    transforms_finish state -> exists p, get_steps state PAYLOAD = Some p /\ wf_json p = true.
  Proof.
    intros [Hwf Hp _ _]%transforms_finish_frame.
    destruct Hp as [p Hp]; [by eexists; apply build_exec_state_payload|].
    exists p. split; [done|]. by eapply get_steps_wf.
  Qed.
Lemma transforms_finish_queue state :
    transforms_finish state ->
    exists pushed, get_steps state QUEUE = Some (JArray (pushed ++ queue)) /\
      Forall (fun i => wf_json i = true) (pushed ++ queue).
  Proof.
    intros [Hwf _ Hq _]%transforms_finish_frame. unfold queue_extended in Hq.
    assert (get_steps exec_state QUEUE = Some (JArray queue)) as E by apply build_exec_state_queue.
    rewrite E in Hq.
    destruct Hq as [pushed Hq]. exists pushed. split; [done|].
    apply wf_JArray. by eapply get_steps_wf.
  Qed.
End Transition.

(** Two rule lists with the same constraints at the same places. *)
Definition same_constraints (l1 l2 : list JsonValue) : Prop :=
  Forall2 (fun r1 r2 => is_enforce r1 = is_enforce r2 /\ (is_enforce r1 = true -> r1 = r2)) l1 l2.

Lemma enforce_gate_same state index l1 l2 b hits :
  same_constraints l1 l2 ->
  enforce_gate state index l1 b hits = enforce_gate state index l2 b hits.
Proof.
  intros H. revert index b hits.
  induction H as [|r1 r2 l1 l2 [He Hr] H IH]; intros index b hits; cbn; [done|].
  rewrite <- He. destruct (is_enforce r1); cbn; [|apply IH]. rewrite <- Hr by done.
  destruct (run_rule r1 state b) as [[[] o]|]; auto.
Qed.

(** The instructions of the examples. *)
Definition guard_example : JsonValue :=
  object_from_pairs [("type", JString "enforce"); ("params", object_from_pairs
    [("domain", object_from_pairs
      [("type", JString "lt"); ("path", JString "payload.a.b"); ("value", JInteger 0)]);
     ("reason", JString "negative")])].
Definition payload_example : JsonValue :=
  object_from_pairs [("a", object_from_pairs [("b", JInteger (-1))])].
Definition io_example : JsonValue :=
  object_from_pairs [("type", JString "io_request"); ("params", object_from_pairs
    [("io_type", JString "call")])].
Definition instruction_example : JsonValue := object_from_pairs [("type", JString "step")].

(** * Properties *)

(** C3: the transition implements the sequential semantics of the rules.  A
    finished transition ran exactly the transform rules, in order, from the
    built state, within the instruction budget, and reports the payload and
    queue they leave; an I/O request or a nested halt is the signal with which
    that run stopped; a constraint's halt is the constraint's own answer on
    the input state. *)
Theorem transition_refines core_eval instruction payload queue res :
  let exec_state := build_exec_state instruction payload queue in
  let run := seq_sem (transforms core_eval) exec_state in
  execute_transition core_eval instruction payload queue = Ok res ->
  match res with
  | TState new_payload new_queue _ =>
      exists state n h, run (MState state) n h /\ n <= MAX_TOTAL_META_INSTRUCTIONS /\
        get_steps state PAYLOAD = Some new_payload /\
        get_steps state QUEUE = Some (JArray new_queue)
  | TIgnored _ _ _ =>
      exists state n h, run (MState state) n h /\ n <= MAX_TOTAL_META_INSTRUCTIONS /\
        is_Some (get_steps state PAYLOAD)
  | TIoRequired io_type params => exists n h, run (MIoRequired io_type params) n h
  | THalted k reason =>
      exists rule n h, core_eval !! k = Some rule /\
        (if is_enforce rule then exec_sem rule exec_state (MHalted reason) n h
         else run (MHalted reason) n h)
  end.
Proof.
  intros exec_state run H.
  pose proof (execute_transition_case core_eval instruction payload queue) as Hc.
  rewrite H in Hc. inversion Hc as [| |k rule reason n h Hk He Hsem|io ps n h _ Hs
    |k rule reason n h _ Hk He Hs|state hits r _ (n & h & Hs & Hn) _ _ Hr]; subst.
  - exists rule, n, h. by rewrite He.
  - by exists n, h.
  - exists rule, n, h. by rewrite He.
  - cbv zeta in Hr. destruct (get_steps state PAYLOAD) as [p|] eqn:Hp; [|done].
    destruct (get_steps state QUEUE) as [[| | | | |q|]|] eqn:Hq; try done.
    cbn [ok_or as_array] in Hr. destruct (negb _ && negb _); injection Hr as ->;
      exists state, n, h; eauto.
Qed.
Lemma transition_refines_witness :
  execute_transition [guard_example; set_example; io_example] instruction_example empty_object []
    = Ok (TIoRequired "call" empty_object) /\
  exists n h, seq_sem [set_example; io_example]
    (build_exec_state instruction_example empty_object []) (MIoRequired "call" empty_object) n h.
Proof.
  assert (execute_transition [guard_example; set_example; io_example] instruction_example
    empty_object [] = Ok (TIoRequired "call" empty_object)) as H by (vm_compute; reflexivity).
  split; [exact H|].
  exact (transition_refines [guard_example; set_example; io_example] instruction_example
    empty_object [] (TIoRequired "call" empty_object) H).
Defined.

(** C1: no transition gets past a constraint.  If a transition answers
    anything but a halt of a top-level [enforce] rule, every top-level
    [enforce] rule was evaluated on the input state and its condition did not
    hold there; and when one halts, its condition holds on the input state. *)
Theorem constraints_first core_eval instruction payload queue res :
  let exec_state := build_exec_state instruction payload queue in
  execute_transition core_eval instruction payload queue = Ok res ->
  match res with
  | THalted k reason =>
      exists rule, core_eval !! k = Some rule /\
        (is_enforce rule = true -> exists domain, instr_domain rule exec_state = Ok (domain, Sat)) /\
        (is_enforce rule = false -> constraints_pass core_eval instruction payload queue)
  | _ => constraints_pass core_eval instruction payload queue
  end.
Proof.
  intros exec_state H.
  pose proof (execute_transition_case core_eval instruction payload queue) as Hc.
  rewrite H in Hc. inversion Hc as [| |k rule reason n h Hk He Hsem|io ps n h Hp Hs
    |k rule reason n h Hp Hk He Hs|state hits r Hp _ _ _ Hr]; subst.
  - exists rule. split_and!; [done| |congruence]. intros _.
    destruct (exec_sem_enforce _ _ _ _ _ He Hsem) as (domain & outcome & Hd & Ho).
    destruct outcome; [by exists domain|discriminate..].
  - done.
  - exists rule. split_and!; [done|congruence|done].
  - cbv zeta in Hr. destruct (ok_or _ _) as [p|] in Hr; [|done].
    destruct (ok_or _ _) as [q|] in Hr; [|done].
    by destruct (negb _ && negb _); injection Hr as ->.
Qed.
Lemma constraints_first_witness :
  exists rule domain,
    execute_transition [io_example; guard_example] instruction_example payload_example []
      = Ok (THalted 1 "negative") /\
    [io_example; guard_example] !! 1 = Some rule /\
    instr_domain rule (build_exec_state instruction_example payload_example [])
      = Ok (domain, Sat).
Proof.
  assert (execute_transition [io_example; guard_example] instruction_example payload_example []
      = Ok (THalted 1 "negative")) as H by (vm_compute; reflexivity).
  destruct (constraints_first _ _ _ _ _ H) as (rule & Hr & He & _).
  assert (rule = guard_example) as Hg by (injection Hr; congruence).
  destruct He as [domain Hd]; [rewrite Hg; vm_compute; reflexivity|].
  exists rule, domain. split; [exact H|]. split; [exact Hr|exact Hd].
Defined.

(** C2: a constraint cannot be masked.  Whether a top-level constraint halts
    a transition, and which one, depends on the constraints and their places
    alone: replacing every other rule of the list changes nothing. *)
Theorem constraint_unmaskable l1 l2 instruction payload queue k rule reason :
  same_constraints l1 l2 -> l1 !! k = Some rule -> is_enforce rule = true ->
  execute_transition l1 instruction payload queue = Ok (THalted k reason) ->
  execute_transition l2 instruction payload queue = Ok (THalted k reason).
Proof.
  intros Hsame Hk He. pose proof (Forall2_length _ _ _ Hsame) as Hlen.
  unfold execute_transition. rewrite <- Hlen. case_match; [done|]. cbv zeta.
  rewrite <- (enforce_gate_same _ _ _ _ _ _ Hsame).
  destruct (enforce_gate _ _ l1 _ _) as [[t|[b hits]]|e] eqn:Eg; [done| |done].
  destruct (transform_loop _ _ l1 _ _) as [[t|[state hits']]|e] eqn:Et; [..|done].
  - intros [= ->]. apply transform_loop_spec in Et as (r & n & h & _ & _ & _ & k' & rl & -> & Hk' & He').
    cbn in Hk. congruence.
  - destruct (ok_or _ _); [|done]. destruct (ok_or _ _); [|done]. by case_match.
Qed.
Lemma constraint_unmaskable_witness :
  execute_transition [io_example; guard_example] instruction_example payload_example []
    = Ok (THalted 1 "negative") /\
  execute_transition [set_example; guard_example] instruction_example payload_example []
    = Ok (THalted 1 "negative").
Proof.
  split; [vm_compute; reflexivity|].
  apply (constraint_unmaskable [io_example; guard_example] [set_example; guard_example]
    instruction_example payload_example [] 1 guard_example "negative").
  - repeat constructor; discriminate.
  - reflexivity.
  - vm_compute; reflexivity.
  - vm_compute; reflexivity.
Defined.

(** The hit record.  The records of a finished transition are one per
    rule, in the order of the rules, each with its rule's type: the constraints
    evaluated first are merged back at their own indices. *)
Lemma rule_hits_aligned core_eval instruction payload queue res :
  execute_transition core_eval instruction payload queue = Ok res ->
  match res with
  | TState _ _ hits | TIgnored _ _ hits =>
      map hit_index hits = seq 0 (length core_eval) /\
      map hit_instr_type hits = map rule_type core_eval
  | _ => True
  end.
Proof.
  intros H. pose proof (execute_transition_case core_eval instruction payload queue) as Hc.
  rewrite H in Hc. inversion Hc as [| |k rule reason n h Hk He Hsem|io ps n h Hp Hs
    |k rule reason n h Hp Hk He Hs|state hits r Hp _ [Hi Hd] _ Hr]; subst; try done.
  assert (map hit_instr_type hits = map rule_type core_eval) as Ht.
  { apply list_eq. intros i. rewrite !list_lookup_fmap.
    assert (hit_index <$> (hits !! i) = seq 0 (length core_eval) !! i) as Hi'.
    { by rewrite <- Hi, list_lookup_fmap. }
    destruct (hits !! i) as [x|] eqn:Ex; cbn in Hi' |- *.
    - symmetry in Hi'. apply lookup_seq in Hi' as [Hx _].
      apply (Forall_lookup_1 _ _ _ _ Hd) in Ex as (k & rule & Hk & Hr' & Ht).
      cbn in Hk, Hx. assert (k = i) as -> by lia. rewrite Hr'. cbn. by rewrite Ht.
    - symmetry in Hi'. apply lookup_ge_None in Hi'. rewrite length_seq in Hi'.
      destruct (core_eval !! i) eqn:E; [|done]. apply lookup_lt_Some in E. cbn in Hi'. lia. }
  cbv zeta in Hr. destruct (ok_or _ _) as [p|] in Hr; [|done].
  destruct (ok_or _ _) as [q|] in Hr; [|done].
  by destruct (negb _ && negb _); injection Hr as ->.
Qed.
Lemma rule_hits_aligned_witness :
  exists p q hits,
    execute_transition [set_example; guard_example] instruction_example empty_object []
      = Ok (TState p q hits) /\
    map hit_index hits = [0; 1] /\ map hit_instr_type hits = ["set"; "enforce"].
Proof.
  eexists _, _, _. match goal with |- ?e = _ /\ _ =>
    let v := eval vm_compute in e in assert (e = v) as H by (vm_compute; reflexivity) end.
  split; [exact H|]. exact (rule_hits_aligned _ _ _ _ _ H).
Defined.

(** C8: a finished transition is well formed and keeps the queue.  From
    well-formed inputs, when every rule has run the transition answers (the
    two internal errors of the extraction cannot occur); a new state has a
    well-formed payload and its queue is the old queue with the pushed
    instructions in front, an ignored instruction means that the rules left
    payload and queue as they were and that no rule matches it. *)
Theorem transition_finishes core_eval instruction payload queue b hits0 state hits :
  Forall (fun i => wf_json i = true) core_eval -> wf_json instruction = true ->
  wf_json payload = true -> Forall (fun i => wf_json i = true) queue ->
  length core_eval <= MAX_TRANSFORM_RULES ->
  enforce_gate (build_exec_state instruction payload queue) 0 core_eval
    MAX_TOTAL_META_INSTRUCTIONS [] = Ok (inr (b, hits0)) ->
  transform_loop (build_exec_state instruction payload queue) 0 core_eval b []
    = Ok (inr (state, hits)) ->
  exists new_payload pushed all_hits,
    get_steps state PAYLOAD = Some new_payload /\ wf_json new_payload = true /\
    get_steps state QUEUE = Some (JArray (pushed ++ queue)) /\
    Forall (fun i => wf_json i = true) (pushed ++ queue) /\
    if existsb (rule_matches (rule_type instruction)) core_eval ||
       negb (bool_decide (new_payload = payload)) || negb (bool_decide (pushed = []))
    then execute_transition core_eval instruction payload queue
           = Ok (TState new_payload (pushed ++ queue) all_hits)
    else execute_transition core_eval instruction payload queue
           = Ok (TIgnored (rule_type instruction)
               "instruction not matched by any constitution rule" all_hits).
Proof.
  intros Hr Hi Hp Hq Hlen Hg Ht.
  pose proof (enforce_gate_spec _ _ _ _ _ _ Hg) as (Hb & _).
  pose proof (transform_loop_spec _ _ _ _ _ _ Ht) as ((n & h & Hs & Hn) & _).
  assert (transforms_finish core_eval instruction payload queue state) as Hf
    by (exists n, h; split; [done|lia]).
  destruct (transforms_finish_payload _ _ _ _ Hr Hi Hp Hq _ Hf) as (p & Hpay & Hpwf).
  destruct (transforms_finish_queue _ _ _ _ Hr Hi Hp Hq _ Hf) as (pushed & Hque & Hqwf).
  exists p, pushed, (sort_by_index (hits ++ hits0)). split_and!; [done..|].
  unfold execute_transition. destruct (Nat.ltb_spec MAX_TRANSFORM_RULES (length core_eval)); [lia|].
  cbv zeta. rewrite Hg, Ht, !resolve_path_denotes, denotes_payload, denotes_queue, Hpay, Hque.
  cbn [ok_or as_array]. fold (rule_type instruction).
  assert (json_eqb p payload = bool_decide (p = payload)) as ->.
  { apply eq_bool_prop_intro. rewrite !Is_true_true, bool_decide_eq_true.
    by apply json_eqb_eq. }
  assert (forall2b json_eqb (pushed ++ queue) queue = bool_decide (pushed = [])) as ->.
  { apply eq_bool_prop_intro. rewrite !Is_true_true, bool_decide_eq_true.
    rewrite (forall2b_eq _ (fun v => wf_json v = true)); [|apply Forall_true; intros v w;
      apply json_eqb_eq|done..].
    split; [|by intros ->]. intros Heq. apply (f_equal length) in Heq.
    rewrite length_app in Heq. destruct pushed; cbn in Heq; [done|lia]. }
  destruct (existsb _ core_eval), (bool_decide (p = payload)), (bool_decide (pushed = [])); done.
Qed.
Lemma transition_finishes_witness :
  exists new_payload pushed all_hits,
    new_payload = object_from_pairs [("a", object_from_pairs [("b", JInteger 4)])] /\
    execute_transition [set_example] instruction_example payload_example [JNull]
      = Ok (TState new_payload (pushed ++ [JNull]) all_hits).
Proof.
  destruct (enforce_gate (build_exec_state instruction_example payload_example [JNull]) 0
    [set_example] MAX_TOTAL_META_INSTRUCTIONS []) as [[t|[b hits0]]|e] eqn:Hg;
    vm_compute in Hg; try discriminate Hg.
  injection Hg as <- <-.
  destruct (transform_loop (build_exec_state instruction_example payload_example [JNull]) 0
    [set_example] MAX_TOTAL_META_INSTRUCTIONS []) as [[t|[state hits]]|e] eqn:Ht;
    vm_compute in Ht; try discriminate Ht.
  injection Ht as <- <-.
  edestruct (transition_finishes [set_example] instruction_example payload_example [JNull]
    MAX_TOTAL_META_INSTRUCTIONS []) as (p & pushed & all & Hp & _ & _ & _ & Hres);
    [repeat constructor|reflexivity|vm_compute; reflexivity|repeat constructor
    |vm_compute; lia|vm_compute; reflexivity|vm_compute; reflexivity|].
  exists p, pushed, all. vm_compute in Hp. injection Hp as <-.
  split; [vm_compute; reflexivity|exact Hres].
Defined.
