(* ===== verification/Fact.v ===== *)
(** The facts of the audit chain, [evorule-audit-chain/src/fact.rs]: the data
    type, its identifiers, and its export as a JSON value. *)

From S2P Require Import Prelude ObjectMap Value Error Path Domain Executor ExecSemantics Transition.

(** [struct FactId(u64)] and [struct IoType(Arc<str>)]. *)
Definition FactId : Type := Z.
Definition IoType : Type := string.

Definition fact_id_display (id : FactId) : string := "F" +:+ pretty id.

(** [enum ControlFlowType]. *)
Inductive ControlFlowType : Type := CfSequence | CfConditional | CfWhileLoop | CfPush.
Definition control_flow_parse (s : string) : option ControlFlowType :=
  if String.eqb s "sequence" then Some CfSequence
  else if String.eqb s "conditional" then Some CfConditional
  else if String.eqb s "while_loop" then Some CfWhileLoop
  else if String.eqb s "push" then Some CfPush
  else None.
Definition control_flow_as_str (c : ControlFlowType) : string :=
  match c with
  | CfSequence => "sequence"
  | CfConditional => "conditional"
  | CfWhileLoop => "while_loop"
  | CfPush => "push"
  end.

(** [struct FactIdGenerator]; [next += 1] in a release build. *)
Record FactIdGenerator : Type := { gen_next : Z }.
Definition generator_new : FactIdGenerator := {| gen_next := 1 |}.
Definition generator_resume (from : Z) : FactIdGenerator := {| gen_next := from |}.
Definition next_id (g : FactIdGenerator) : FactId * FactIdGenerator :=
  (gen_next g, {| gen_next := u64_wrapping_add (gen_next g) 1 |}).

(** [struct TraceDomainAttribution] and [struct TraceHit]. *)
Record TraceDomainAttribution : Type := mk_trace_attr {
  ta_outcome : string;
  ta_missing_reason : option string;
  ta_on_missing : option string;
}.
Record TraceHit : Type := mk_trace_hit {
  th_index : Z;
  th_instr_type : string;
  th_hit : bool;
  th_domain_attr : option TraceDomainAttribution;
}.
Definition trace_attr_from_tcb (attr : DomainAttribution) : TraceDomainAttribution :=
  {| ta_outcome := outcome_label (attr_outcome attr);
     ta_missing_reason := missing_reason (attr_outcome attr);
     ta_on_missing := attr_on_missing attr |}.
Definition trace_hit_from_rule_hit (h : RuleHit) : TraceHit :=
  {| th_index := Z.of_nat (hit_index h);
     th_instr_type := hit_instr_type h;
     th_hit := hit h;
     th_domain_attr := trace_attr_from_tcb <$> hit_domain_attr h |}.

(** [enum Fact]. *)
Inductive Fact : Type :=
| Command (id : FactId) (instruction : JsonValue)
| PayloadUpdate (id : FactId) (path : string) (value : JsonValue)
| StateTransition (id cause : FactId) (new_payload : JsonValue) (new_queue : list JsonValue)
| IoRequest (id cause : FactId) (io_type : IoType) (params : JsonValue)
| IoResponse (id request_id : FactId) (result : JsonValue) (error : option string)
| Stable (id : FactId) (version : Z)
| FError (id : FactId) (message : string)
| TransitionTrace (id cause : FactId) (rule_hits : list TraceHit)
| Violation (id cause : FactId) (rule_index : Z) (reason : string) (instruction : JsonValue).

#[export] Instance TraceDomainAttribution_eq_dec : EqDecision TraceDomainAttribution.
Proof. solve_decision. Defined.
#[export] Instance TraceHit_eq_dec : EqDecision TraceHit.
Proof. solve_decision. Defined.
#[export] Instance Fact_eq_dec : EqDecision Fact.
Proof. solve_decision. Defined.

Definition type_name (f : Fact) : string :=
  match f with
  | Command _ _ => "Command"
  | PayloadUpdate _ _ _ => "PayloadUpdate"
  | StateTransition _ _ _ _ => "StateTransition"
  | IoRequest _ _ _ _ => "IoRequest"
  | IoResponse _ _ _ _ => "IoResponse"
  | Stable _ _ => "Stable"
  | FError _ _ => "Error"
  | TransitionTrace _ _ _ => "TransitionTrace"
  | Violation _ _ _ _ _ => "Violation"
  end.
Definition fact_id (f : Fact) : FactId :=
  match f with
  | Command id _ | PayloadUpdate id _ _ | StateTransition id _ _ _ | IoRequest id _ _ _
  | IoResponse id _ _ _ | Stable id _ | FError id _ | TransitionTrace id _ _
  | Violation id _ _ _ _ => id
  end.
Definition is_terminal (f : Fact) : bool :=
  match f with Stable _ _ | FError _ _ => true | _ => false end.

(** [Fact::to_json]. *)
Definition trace_attr_pairs (attr : TraceDomainAttribution) : list (string * JsonValue) :=
  [("outcome", JString (ta_outcome attr))]
  ++ match ta_missing_reason attr with
     | Some reason => [("missing_reason", JString reason)] | None => [] end
  ++ match ta_on_missing attr with
     | Some policy => [("on_missing", JString policy)] | None => [] end.
Definition trace_hit_to_json (h : TraceHit) : JsonValue :=
  object_from_pairs
    ([("index", JU64 (th_index h)); ("instr_type", JString (th_instr_type h));
      ("hit", JBool (th_hit h))]
     ++ match th_domain_attr h with
        | Some attr => [("domain_attr", object_from_pairs (trace_attr_pairs attr))]
        | None => [] end).
Definition to_json (f : Fact) : JsonValue :=
  match f with
  | Command id instruction =>
      object_from_pairs [("type", JString "Command"); ("id", JU64 id);
        ("instruction", instruction)]
  | PayloadUpdate id path value =>
      object_from_pairs [("type", JString "PayloadUpdate"); ("id", JU64 id);
        ("path", JString path); ("value", value)]
  | StateTransition id cause new_payload new_queue =>
      object_from_pairs [("type", JString "StateTransition"); ("id", JU64 id);
        ("cause", JU64 cause); ("new_payload", new_payload); ("new_queue", JArray new_queue)]
  | IoRequest id cause io_type params =>
      object_from_pairs [("type", JString "IoRequest"); ("id", JU64 id);
        ("cause", JU64 cause); ("io_type", JString io_type); ("params", params)]
  | IoResponse id request_id result error =>
      object_from_pairs [("type", JString "IoResponse"); ("id", JU64 id);
        ("request_id", JU64 request_id); ("result", result);
        ("error", match error with Some msg => JString msg | None => JNull end)]
  | Stable id version =>
      object_from_pairs [("type", JString "Stable"); ("id", JU64 id); ("version", JU64 version)]
  | FError id message =>
      object_from_pairs [("type", JString "Error"); ("id", JU64 id);
        ("message", JString message)]
  | TransitionTrace id cause rule_hits =>
      object_from_pairs [("type", JString "TransitionTrace"); ("id", JU64 id);
        ("cause", JU64 cause); ("rule_hits", JArray (map trace_hit_to_json rule_hits))]
  | Violation id cause rule_index reason instruction =>
      object_from_pairs [("type", JString "Violation"); ("id", JU64 id);
        ("cause", JU64 cause); ("rule_index", JU64 rule_index);
        ("reason", JString reason); ("instruction", instruction)]
  end.

(** * Well-formed facts: identifiers and embedded values within their width *)

Definition wf_trace_hit (h : TraceHit) : bool := is_u64 (th_index h).
Definition wf_fact (f : Fact) : bool :=
  is_u64 (fact_id f) &&
  match f with
  | Command _ instruction => wf_json instruction
  | PayloadUpdate _ _ value => wf_json value
  | StateTransition _ cause new_payload new_queue =>
      is_u64 cause && wf_json new_payload && forallb wf_json new_queue
  | IoRequest _ cause _ params => is_u64 cause && wf_json params
  | IoResponse _ request_id result _ => is_u64 request_id && wf_json result
  | Stable _ version => is_u64 version
  | FError _ _ => true
  | TransitionTrace _ cause rule_hits => is_u64 cause && forallb wf_trace_hit rule_hits
  | Violation _ cause rule_index _ instruction =>
      is_u64 cause && is_u64 rule_index && wf_json instruction
  end.
