(* ===== verification/Serde.v ===== *)
(** The interface to [serde_json] and [blake3], which the audit chain and the
    write-ahead log call: [serde_json::Value] over an abstract number type,
    its text format, and the hash function, as type classes with the
    documented laws the development relies on. *)

From S2P Require Import Prelude ObjectMap Value.

#[local] Set Warnings "-register-all".
(** [serde_json::Value]; its [Map] is a [BTreeMap]. *)
Inductive SValue (N : Type) : Type :=
| SNull
| SBool (b : bool)
| SNumber (n : N)
| SString (s : string)
| SArray (l : list (SValue N))
| SObject (m : ObjectMap (SValue N)).
Arguments SNull {N}.
Arguments SBool {N} b.
Arguments SNumber {N} n.
Arguments SString {N} s.
Arguments SArray {N} l.
Arguments SObject {N} m.

(** [serde_json::Number]: conversions from and to the integer types, and its
    [Display]. *)
Class SerdeNumber (N : Type) : Type := {
  num_from_i64 : Z -> N;
  num_from_u64 : Z -> N;
  num_as_i64 : N -> option Z;
  num_as_u64 : N -> option Z;
  num_display : N -> string;
}.
(** Documented: [as_i64] and [as_u64] give the integer when it fits the type;
    a non-negative [i64] and the same [u64] make the same number; an integer
    has one representation. *)
Class SerdeNumberLaws (N : Type) `{SerdeNumber N} : Prop := {
  as_i64_from_i64 i : is_i64 i = true -> num_as_i64 (num_from_i64 i) = Some i;
  as_i64_from_u64 u : is_u64 u = true ->
    num_as_i64 (num_from_u64 u) = if is_i64 u then Some u else None;
  as_u64_from_u64 u : is_u64 u = true -> num_as_u64 (num_from_u64 u) = Some u;
  from_i64_from_u64 i : is_i64 i = true -> is_u64 i = true -> num_from_i64 i = num_from_u64 i;
  from_i64_as_i64 n i : num_as_i64 n = Some i -> num_from_i64 i = n;
  as_i64_range n i : num_as_i64 n = Some i -> is_i64 i = true;
}.

(** [serde_json::to_string] and [from_str]; an error is its message. *)
Class SerdeText (N : Type) : Type := {
  serde_to_string : SValue N -> Result string string;
  serde_from_str : string -> Result (SValue N) string;
}.

(** [blake3::hash(bytes).to_hex()]. *)
Class Blake3 : Type := { blake3_hex : string -> string }.
(** Documented: 64 hexadecimal digits. *)
Class Blake3Laws `{Blake3} : Prop := {
  blake3_hex_length s : String.length (blake3_hex s) = 64%nat;
}.

(** * Accessors of [Value] *)

Section Accessors.
Context {N : Type} `{SerdeNumber N}.

Definition s_as_object (v : SValue N) : option (ObjectMap (SValue N)) :=
  match v with SObject m => Some m | _ => None end.
Definition s_as_array (v : SValue N) : option (list (SValue N)) :=
  match v with SArray l => Some l | _ => None end.
Definition s_as_str (v : SValue N) : option string :=
  match v with SString s => Some s | _ => None end.
Definition s_as_bool (v : SValue N) : option bool :=
  match v with SBool b => Some b | _ => None end.
Definition s_as_u64 (v : SValue N) : option Z :=
  match v with SNumber n => num_as_u64 n | _ => None end.
(** [Value::get] with a string index. *)
Definition s_get (v : SValue N) (key : string) : option (SValue N) :=
  match v with SObject m => map_get m key | _ => None end.
(** [Map::insert] in sequence on a fresh map, as the builders of the source
    do. *)
Definition s_object (pairs : list (string * SValue N)) : SValue N :=
  SObject (map_from pairs).
End Accessors.

(** * Laws of the text format *)

(** A value [to_string] can be read back from: objects in key order (a
    [BTreeMap]) and integers only. *)
Section WellFormed.
Context {N : Type} `{SerdeNumber N}.

Definition is_integer_number (n : N) : bool :=
  match num_as_i64 n, num_as_u64 n with None, None => false | _, _ => true end.
Fixpoint s_wf (v : SValue N) : bool :=
  match v with
  | SNumber n => is_integer_number n
  | SArray l => forallb s_wf l
  | SObject m => keys_sortedb m && forallb (fun kv => s_wf (snd kv)) m
  | _ => true
  end.
End WellFormed.

(** How deep a value nests: a scalar is at depth zero. *)
Fixpoint s_depth {N} (v : SValue N) : nat :=
  match v with
  | SArray l => S (fold_right (fun x d => s_depth x `max` d) 0 l)
  | SObject m => S (fold_right (fun kv d => s_depth (snd kv) `max` d) 0 m)
  | _ => 0
  end.
(** [serde_json]'s recursion limit: its parser starts with 128 levels left and
    fails when it enters an array or an object with the last of them, so that
    127 levels are read and 128 are not. The serializer has no limit. *)
Definition recursion_limit : nat := 128.
Definition shallow {N} (v : SValue N) : bool := s_depth v <? recursion_limit.

Definition newline : ascii := ascii_of_nat 10.
Definition is_printable (c : ascii) : bool := (32 <=? nat_of_ascii c)%nat.
Definition is_plain_char (c : ascii) : bool := is_ascii_alphanumeric c || Ascii.eqb c "_".

(** Documented: serialising a [Value] succeeds; the compact text has no control
    character and no surrounding white space, shows a plain key of the object
    literally, determines the value, and parses back to it below the recursion
    limit; from the limit on parsing is an error. *)
Class SerdeTextLaws (N : Type) `{SerdeNumber N, SerdeText N} : Prop := {
  to_string_total (v : SValue N) : exists s, serde_to_string v = Ok s;
  to_string_inj (v w : SValue N) s :
    s_wf v = true -> s_wf w = true -> serde_to_string v = Ok s -> serde_to_string w = Ok s -> v = w;
  from_to_string (v : SValue N) s :
    s_wf v = true -> shallow v = true -> serde_to_string v = Ok s -> serde_from_str s = Ok v;
  from_to_string_deep (v : SValue N) s :
    s_wf v = true -> shallow v = false -> serde_to_string v = Ok s -> exists e, serde_from_str (N := N) s = Err e;
  to_string_no_control (v : SValue N) s :
    serde_to_string v = Ok s -> str_all is_printable s = true;
  to_string_trimmed (v : SValue N) s :
    serde_to_string v = Ok s -> trim s = s /\ str_is_empty s = false;
  to_string_key (m : ObjectMap (SValue N)) s k x :
    serde_to_string (SObject m) = Ok s -> map_get m k = Some x ->
    str_all is_plain_char k = true -> contains k s = true;
}.

Lemma s_object_wf {N} `{SerdeNumber N} (pairs : list (string * SValue N)) :
  forallb (fun kv => s_wf (snd kv)) pairs = true -> s_wf (s_object pairs) = true.
Proof.
  intros Hp. cbn [s_wf s_object]. apply andb_true_iff. split.
  - apply keys_sortedb_spec, map_from_sorted.
  - apply forallb_forall. intros kv Hin.
    rewrite forallb_forall in Hp. apply Hp. by apply map_from_In.
Qed.

Lemma s_depth_array {N} (l : list (SValue N)) k :
  Forall (fun v => s_depth v <= k) l -> s_depth (SArray l) <= S k.
Proof. intros Hl. cbn [s_depth]. apply le_n_S. induction Hl; cbn; lia. Qed.
Lemma s_depth_s_object {N} (pairs : list (string * SValue N)) k :
  Forall (fun kv => s_depth (snd kv) <= k) pairs -> s_depth (s_object pairs) <= S k.
Proof.
  intros Hp. cbn [s_depth s_object]. apply le_n_S.
  assert (Forall (fun kv : string * SValue N => s_depth (snd kv) <= k) (map_from pairs)) as Hm.
  { rewrite !List.Forall_forall in *. intros kv Hin. apply Hp. by apply map_from_In. }
  induction Hm; cbn; lia.
Qed.
Lemma shallow_le {N} (v : SValue N) k : s_depth v <= k -> k < recursion_limit -> shallow v = true.
Proof. intros. apply Nat.ltb_lt. lia. Qed.

(** Induction through arrays and objects. *)
Section SValueInd.
Context {N : Type} (P : SValue N -> Prop).
Context (Hnull : P SNull) (Hbool : forall b, P (SBool b)) (Hnum : forall n, P (SNumber n)).
Context (Hstr : forall s, P (SString s)) (Harr : forall l, Forall P l -> P (SArray l)).
Context (Hobj : forall m, Forall (fun kv => P (snd kv)) m -> P (SObject m)).
Fixpoint svalue_ind (v : SValue N) : P v :=
  match v with
  | SNull => Hnull
  | SBool b => Hbool b
  | SNumber n => Hnum n
  | SString s => Hstr s
  | SArray l =>
      Harr l ((fix go l : Forall P l :=
        match l with
        | [] => List.Forall_nil P
        | x :: l' => List.Forall_cons P x l' (svalue_ind x) (go l')
        end) l)
  | SObject m =>
      Hobj m ((fix go m : Forall (fun kv => P (snd kv)) m :=
        match m with
        | [] => List.Forall_nil _
        | kv :: m' => List.Forall_cons _ kv m' (svalue_ind (snd kv)) (go m')
        end) m)
  end.
End SValueInd.

(** * A concrete instance, for the examples: integers as numbers *)

Module ZNumber.
#[export] Instance number : SerdeNumber Z := {|
  num_from_i64 := fun i => i;
  num_from_u64 := fun u => u;
  num_as_i64 := fun n => if is_i64 n then Some n else None;
  num_as_u64 := fun n => if is_u64 n then Some n else None;
  num_display := fun n => pretty n;
|}.
#[export] Instance number_laws : SerdeNumberLaws Z.
Proof.
  split; cbn; intros; rewrite ?H, ?H0; try done; by destruct (is_i64 n) eqn:E; simplify_eq.
Qed.
End ZNumber.

(** * A concrete text format, for the examples

    A letter or a bracket says what follows; a string is its characters, those
    that are not plain in two letters after a percent sign, up to a quote. *)
Module ZText.
Import ZNumber.

Fixpoint bits (p : positive) : string :=
  match p with
  | xH => ""
  | xO p => String "0" (bits p)
  | xI p => String "1" (bits p)
  end.
Fixpoint unbits (s : string) : positive :=
  match s with
  | String "0" s => xO (unbits s)
  | String "1" s => xI (unbits s)
  | _ => xH
  end.
Lemma unbits_bits p t : unbits (bits p +:+ String "|" t) = p.
Proof. induction p as [p IH|p IH|]; cbn; [by rewrite IH..|done]. Qed.
Lemma bits_chars p f : f "0"%char = true -> f "1"%char = true -> str_all f (bits p) = true.
Proof. intros H0 H1. induction p; cbn; [by rewrite H1|by rewrite H0|done]. Qed.

Definition letter (n : nat) : ascii := ascii_of_nat (97 + n).
Definition of_letter (c : ascii) : nat := nat_of_ascii c - 97.
Definition end_quote : ascii := "'".
Fixpoint print_text (s : string) : string :=
  match s with
  | EmptyString => String end_quote ""
  | String c s =>
      if is_plain_char c then String c (print_text s)
      else String "%" (String (letter (nat_of_ascii c / 16)) (String (letter (nat_of_ascii c mod 16)) (print_text s)))
  end.
Fixpoint read_text (s : string) : option (string * string) :=
  match s with
  | EmptyString => None
  | String c s =>
      if Ascii.eqb c end_quote then Some ("", s)
      else if Ascii.eqb c "%" then
        match s with
        | String a (String b s) =>
            let! '(t, rest) := read_text s in Some (String (ascii_of_nat (of_letter a * 16 + of_letter b)) t, rest)
        | _ => None
        end
      else let! '(t, rest) := read_text s in Some (String c t, rest)
  end.
Definition print_number (z : Z) : string :=
  match z with
  | Z0 => "z"
  | Zpos p => String "p" (bits p +:+ String end_quote "")
  | Zneg p => String "m" (bits p +:+ String end_quote "")
  end.
Fixpoint read_bits (s : string) : option (positive * string) :=
  match s with
  | String c s =>
      if Ascii.eqb c end_quote then Some (xH, s)
      else let! '(p, rest) := read_bits s in Some (if Ascii.eqb c "1" then xI p else xO p, rest)
  | EmptyString => None
  end.

Fixpoint print (v : SValue Z) : string :=
  match v with
  | SNull => "n"
  | SBool b => if b then "t" else "f"
  | SNumber z => print_number z
  | SString s => String "s" (print_text s)
  | SArray l => String "[" (fold_right (fun x out => print x +:+ out) "]" l)
  | SObject m => String "{" (fold_right (fun kv out => print_text (fst kv) +:+ print (snd kv) +:+ out) "}" m)
  end.
(** A value, the rest of an array, or the rest of an object. *)
Inductive Sort : Type := Value | Items | Fields.
Definition Read : Type := (SValue Z + list (SValue Z) + list (string * SValue Z))%type.
Fixpoint read (fuel : nat) (what : Sort) (s : string) : option (Read * string) :=
  match fuel, what, s with
  | S fuel, Value, String c s =>
      if Ascii.eqb c "n" then Some (inl (inl SNull), s)
      else if Ascii.eqb c "t" then Some (inl (inl (SBool true)), s)
      else if Ascii.eqb c "f" then Some (inl (inl (SBool false)), s)
      else if Ascii.eqb c "z" then Some (inl (inl (SNumber 0%Z)), s)
      else if Ascii.eqb c "p" then let! '(p, s) := read_bits s in Some (inl (inl (SNumber (Zpos p))), s)
      else if Ascii.eqb c "m" then let! '(p, s) := read_bits s in Some (inl (inl (SNumber (Zneg p))), s)
      else if Ascii.eqb c "s" then let! '(t, s) := read_text s in Some (inl (inl (SString t)), s)
      else if Ascii.eqb c "[" then
        match read fuel Items s with Some (inl (inr l), s) => Some (inl (inl (SArray l)), s) | _ => None end
      else if Ascii.eqb c "{" then
        match read fuel Fields s with Some (inr m, s) => Some (inl (inl (SObject m)), s) | _ => None end
      else None
  | S fuel, Items, String c s' =>
      if Ascii.eqb c "]" then Some (inl (inr []), s')
      else
        match read fuel Value s with
        | Some (inl (inl v), s) =>
            match read fuel Items s with Some (inl (inr l), s) => Some (inl (inr (v :: l)), s) | _ => None end
        | _ => None
        end
  | S fuel, Fields, String c s' =>
      if Ascii.eqb c "}" then Some (inr [], s')
      else
        let! '(k, s) := read_text s in
        match read fuel Value s with
        | Some (inl (inl v), s) =>
            match read fuel Fields s with Some (inr m, s) => Some (inr ((k, v) :: m), s) | _ => None end
        | _ => None
        end
  | _, _, _ => None
  end.
Definition parse (s : string) : Result (SValue Z) string :=
  match read (2 * String.length s + 2) Value s with
  | Some (inl (inl v), EmptyString) => if shallow v then Ok v else Err "recursion limit exceeded"
  | _ => Err "expected value"
  end.
#[export] Instance text : SerdeText Z := {| serde_to_string := fun v => Ok (print v); serde_from_str := parse |}.

Lemma letters_byte (c : ascii) :
  ascii_of_nat (of_letter (letter (nat_of_ascii c / 16)) * 16 + of_letter (letter (nat_of_ascii c mod 16))) = c.
Proof. by destruct c as [[] [] [] [] [] [] [] []]. Qed.
Lemma read_print_text s rest : read_text (print_text s +:+ rest) = Some (s, rest).
Proof.
  induction s as [|c s IH]; [done|]. cbn [print_text]. destruct (is_plain_char c) eqn:Hc; cbn [String.append read_text].
  - destruct (Ascii.eqb_spec c end_quote) as [->|_]; [done|]. destruct (Ascii.eqb_spec c "%") as [->|_]; [done|]. by rewrite IH.
  - by rewrite IH, letters_byte.
Qed.
Lemma read_print_bits p rest : read_bits (bits p +:+ String end_quote rest) = Some (p, rest).
Proof. induction p as [p IH|p IH|]; cbn; [by rewrite IH..|done]. Qed.
Lemma print_nonempty v : exists c s, print v = String c s /\ c <> "]"%char.
Proof. destruct v as [|[]|[]| | |]; by eexists _, _. Qed.
Lemma print_text_head s rest : exists c t, print_text s +:+ rest = String c t /\ c <> "}"%char.
Proof.
  destruct s as [|c s]; [by eexists _, _|]. cbn [print_text]. destruct (is_plain_char c) eqn:Hc; [|by eexists _, _].
  eexists _, _. split; [done|]. by intros ->.
Qed.
Lemma read_items_cons fuel v s : (exists c t, s = String c t /\ c <> "]"%char) -> forall s', read fuel Value s = Some (inl (inl v), s') ->
  read (S fuel) Items s = match read fuel Items s' with Some (inl (inr l), s) => Some (inl (inr (v :: l)), s) | _ => None end.
Proof. intros (c & t & -> & Hc) s' Hv. cbn [read]. destruct (Ascii.eqb_spec c "]"); [done|]. by rewrite Hv. Qed.
Lemma read_fields_cons fuel k v rest s' : read fuel Value rest = Some (inl (inl v), s') ->
  read (S fuel) Fields (print_text k +:+ rest) = match read fuel Fields s' with Some (inr m, s) => Some (inr ((k, v) :: m), s) | _ => None end.
Proof.
  intros Hv. pose proof (read_print_text k rest) as Hk. destruct (print_text_head k rest) as (c & t & Ht & Hc). rewrite Ht in *.
  cbn [read]. destruct (Ascii.eqb_spec c "}"); [done|]. by rewrite Hk, Hv.
Qed.
Lemma read_print v rest fuel : 2 * String.length (print v +:+ rest) + 1 <= fuel -> read fuel Value (print v +:+ rest) = Some (inl (inl v), rest).
Proof.
  revert rest fuel. induction v as [|b|z|s|l IH|m IH] using svalue_ind; intros rest [|fuel] Hf; cbn [print] in *; try lia.
  - done.
  - by destruct b.
  - destruct z as [|p|p]; cbn [print_number String.append read]; [done|..]; cbn; rewrite <- str_app_assoc; cbn [String.append];
      by rewrite read_print_bits.
  - cbn [String.append]. cbn [read]. cbn. by rewrite read_print_text.
  - cbn [String.append] in *. cbn [read]. cbn [Ascii.eqb Bool.eqb].
    assert (forall fuel, 2 * String.length (fold_right (fun x out => print x +:+ out) "]" l +:+ rest) + 2 <= fuel ->
      read fuel Items (fold_right (fun x out => print x +:+ out) "]" l +:+ rest) = Some (inl (inr l), rest)) as Hl.
    { clear Hf fuel. induction IH as [|v l Hv _ IHl]; intros [|fuel] Hf; cbn [fold_right] in *; try lia; [done|].
      rewrite <- str_app_assoc in *. rewrite (read_items_cons fuel v _) with (s' := fold_right (fun x out => print x +:+ out) "]" l +:+ rest).
      - rewrite IHl; [done|]. destruct (print_nonempty v) as (c & s & Hp & _). rewrite Hp in Hf. cbn [String.append String.length] in Hf.
        rewrite str_app_length in Hf. lia.
      - destruct (print_nonempty v) as (c & s & Hp & Hc). rewrite Hp. by eexists _, _.
      - apply Hv. lia. }
    rewrite Hl; [done|]. cbn [String.length] in Hf. lia.
  - cbn [String.append] in *. cbn [read]. cbn [Ascii.eqb Bool.eqb].
    assert (forall fuel, 2 * String.length (fold_right (fun kv out => print_text (fst kv) +:+ print (snd kv) +:+ out) "}" m +:+ rest) + 2 <= fuel ->
      read fuel Fields (fold_right (fun kv out => print_text (fst kv) +:+ print (snd kv) +:+ out) "}" m +:+ rest) = Some (inr m, rest)) as Hm.
    { clear Hf fuel. induction IH as [|[k v] m Hv _ IHm]; intros [|fuel] Hf; cbn [fold_right fst snd] in *; try lia; [done|].
      rewrite <- !str_app_assoc in *.
      rewrite (read_fields_cons fuel k v) with (s' := fold_right (fun kv out => print_text (fst kv) +:+ print (snd kv) +:+ out) "}" m +:+ rest).
      - rewrite IHm; [done|]. rewrite !str_app_length in *. destruct (print_nonempty v) as (c & s & Hp & _). rewrite Hp in Hf. cbn [String.length] in Hf. lia.
      - apply Hv. rewrite str_app_length in Hf. destruct (print_text_head k "") as (c & s & Hp & _). rewrite str_app_nil_r in Hp.
        rewrite Hp in Hf. cbn [String.length] in Hf. lia. }
    rewrite Hm; [done|]. cbn [String.length] in Hf. lia.
Qed.
Definition read_all (s : string) : option (Read * string) := read (2 * String.length s + 2) Value s.
Lemma read_all_print v : read_all (print v) = Some (inl (inl v), "").
Proof. unfold read_all. pose proof (read_print v "" (2 * String.length (print v) + 2)) as Hr. rewrite str_app_nil_r in Hr. apply Hr. lia. Qed.
Lemma parse_print v : parse (print v) = if shallow v then Ok v else Err "recursion limit exceeded".
Proof. pose proof (read_all_print v) as Hr. unfold read_all in Hr. unfold parse. by rewrite Hr. Qed.
Lemma print_text_solid s : str_all solid (print_text s) = true.
Proof.
  induction s as [|c s IH]; [done|]. cbn [print_text]. destruct (is_plain_char c) eqn:Hc; cbn [str_all]; rewrite IH, ?andb_true_r.
  - by destruct c as [[] [] [] [] [] [] [] []].
  - by destruct c as [[] [] [] [] [] [] [] []].
Qed.
Lemma print_solid v : str_all solid (print v) = true.
Proof.
  induction v as [|[]|[|p|p]|s|l IH|m IH] using svalue_ind; try done; cbn [print print_number str_all].
  1,2: by rewrite str_all_app, bits_chars.
  - by rewrite print_text_solid.
  - induction IH as [|v l Hv _ IHl]; [done|]. cbn [fold_right]. cbn [andb] in *. rewrite str_all_app, Hv. exact IHl.
  - induction IH as [|kv m Hv _ IHm]; [done|]. cbn [fold_right]. cbn [andb] in *. rewrite !str_all_app, print_text_solid, Hv. exact IHm.
Qed.
Lemma print_text_plain k : str_all is_plain_char k = true -> print_text k = k +:+ String end_quote "".
Proof. induction k as [|c k IH]; [done|]. cbn. intros [-> Hk]%andb_true_iff. by rewrite IH. Qed.
#[export] Instance text_laws : SerdeTextLaws Z.
Proof.
  split; cbn [serde_to_string serde_from_str text].
  - intros v. by eexists.
  - intros v w s _ _ [= Hv] [= Hw]. rewrite <- Hw in Hv. apply (f_equal (read_all)) in Hv. rewrite !read_all_print in Hv. by injection Hv.
  - intros v s _ Hd [= <-]. by rewrite parse_print, Hd.
  - intros v s _ Hd [= <-]. rewrite parse_print, Hd. by eexists.
  - intros v s [= <-]. eapply str_all_impl; [|apply print_solid]. intros c Hc. by destruct c as [[] [] [] [] [] [] [] []].
  - intros v s [= <-]. destruct (print_nonempty v) as (c & s & Hp & _). split; [|by rewrite Hp].
    pose proof (print_solid v) as Hs. apply trim_all_solid; [done|]. by rewrite Hp.
  - intros m s k x [= <-] Hm Hk. apply map_get_In in Hm. cbn [print]. apply contains_cons.
    induction m as [|[k' x'] m IH]; [done|]. cbn [fold_right fst snd]. destruct Hm as [[= -> ->]|Hm].
    + rewrite (print_text_plain k Hk), <- !str_app_assoc. apply (contains_app k "").
    + specialize (IH Hm). rewrite !str_app_assoc. by apply contains_suffix.
Qed.
End ZText.


(** A concrete hash, for the examples: the first 64 bytes, padded. *)
Module ZHash.
Fixpoint fit (n : nat) (s : string) : string :=
  match n, s with
  | O, _ => ""
  | S n, "" => String "0" (fit n "")
  | S n, String c s => String c (fit n s)
  end.
#[export] Instance hash : Blake3 := {| blake3_hex := fit 64 |}.
#[export] Instance hash_laws : Blake3Laws.
Proof.
  split. intros s. cbn [blake3_hex hash].
  generalize 64%nat. intros n. revert s. by induction n as [|n IH]; intros [|c s]; cbn; rewrite ?IH.
Qed.
End ZHash.
