(* ===== verification/Hash.v ===== *)
(** The hash chain, [evorule-audit-chain/src/hash.rs]: the stable JSON of a
    fact, its content hash, and the chain of hashes over a history, with the
    extraction of a hash collision from any undetected change. *)

From S2P Require Import Prelude ObjectMap Value Error Path Domain Executor ExecSemantics Transition Fact Serde.

Section Hash.
Context {N : Type} `{SerdeNumber N} `{SerdeText N} `{Blake3}.

(** [tcb_to_serde]. *)
Fixpoint tcb_to_serde (value : JsonValue) : SValue N :=
  match value with
  | JNull => SNull
  | JBool b => SBool b
  | JInteger i => SNumber (num_from_i64 i)
  | JU64 v => SNumber (num_from_u64 v)
  | JString s => SString s
  | JArray arr => SArray (map tcb_to_serde arr)
  | JObject obj => s_object (map (fun kv => (fst kv, tcb_to_serde (snd kv))) obj)
  end.

(** [trace_attr_to_json]. *)
Definition trace_attr_to_json (attr : TraceDomainAttribution) : SValue N :=
  s_object
    ([("outcome", SString (ta_outcome attr))]
     ++ match ta_missing_reason attr with
        | Some reason => [("missing_reason", SString reason)] | None => [] end
     ++ match ta_on_missing attr with
        | Some policy => [("on_missing", SString policy)] | None => [] end).
Definition s_u64 (v : Z) : SValue N := SNumber (num_from_u64 v).
Definition trace_hit_to_stable_json (h : TraceHit) : SValue N :=
  s_object
    ([("index", s_u64 (th_index h)); ("instr_type", SString (th_instr_type h));
      ("hit", SBool (th_hit h))]
     ++ match th_domain_attr h with
        | Some attr => [("domain_attr", trace_attr_to_json attr)] | None => [] end).

(** [fact_to_stable_json]; the [Result] of the source is always [Ok]. *)
Definition fact_to_stable_json (fact : Fact) : Result (SValue N) string :=
  Ok (s_object
    match fact with
    | Command id instruction =>
        [("type", SString "Command"); ("id", s_u64 id);
         ("instruction", tcb_to_serde instruction)]
    | PayloadUpdate id path value =>
        [("type", SString "PayloadUpdate"); ("id", s_u64 id); ("path", SString path);
         ("value", tcb_to_serde value)]
    | StateTransition id cause new_payload new_queue =>
        [("type", SString "StateTransition"); ("id", s_u64 id); ("cause", s_u64 cause);
         ("new_payload", tcb_to_serde new_payload);
         ("new_queue", SArray (map tcb_to_serde new_queue))]
    | IoRequest id cause io_type params =>
        [("type", SString "IoRequest"); ("id", s_u64 id); ("cause", s_u64 cause);
         ("io_type", SString io_type); ("params", tcb_to_serde params)]
    | IoResponse id request_id result error =>
        [("type", SString "IoResponse"); ("id", s_u64 id); ("request_id", s_u64 request_id);
         ("result", tcb_to_serde result);
         ("error", match error with Some e => SString e | None => SNull end)]
    | Stable id version =>
        [("type", SString "Stable"); ("id", s_u64 id); ("version", s_u64 version)]
    | FError id message =>
        [("type", SString "Error"); ("id", s_u64 id); ("message", SString message)]
    | TransitionTrace id cause rule_hits =>
        [("type", SString "TransitionTrace"); ("id", s_u64 id); ("cause", s_u64 cause);
         ("rule_hits", SArray (map trace_hit_to_stable_json rule_hits))]
    | Violation id cause rule_index reason instruction =>
        [("type", SString "Violation"); ("id", s_u64 id); ("cause", s_u64 cause);
         ("rule_index", s_u64 rule_index); ("reason", SString reason);
         ("instruction", tcb_to_serde instruction)]
    end).

(** [struct HashError] is its message; its [Display] puts a prefix before it. *)
Definition hash_error_display (message : string) : string := "哈希计算错误: " +:+ message.

(** [content_hash] and [fact_hash]. *)
Definition content_hash (value : JsonValue) : Result string string :=
  let serde_value := tcb_to_serde value in
  let? serialized :=
    match serde_to_string serde_value with
    | Ok s => Ok s
    | Err e => Err ("内容哈希序列化失败: " +:+ e)
    end in
  Ok (blake3_hex serialized).
Definition fact_text (fact : Fact) : Result string string :=
  let? value := fact_to_stable_json fact in
  match serde_to_string value with
  | Ok s => Ok s
  | Err e => Err ("序列化失败: " +:+ e)
  end.
Definition fact_hash (fact : Fact) : Result string string :=
  let? serialized := fact_text fact in
  Ok (blake3_hex serialized).

(** [chain_step] and [compute_chain_hash]. *)
Definition chain_step (prev_hash content_hash : string) : string :=
  blake3_hex (prev_hash +:+ content_hash).
Fixpoint chain_from (prev_hash : string) (facts : list Fact) : Result string string :=
  match facts with
  | [] => Ok prev_hash
  | fact :: facts' =>
      let? fh := fact_hash fact in
      chain_from (chain_step prev_hash fh) facts'
  end.
Definition compute_chain_hash (facts : list Fact) : Result string string :=
  match facts with
  | [] => Ok "genesis"
  | _ => chain_from "genesis" facts
  end.

Lemma compute_chain_hash_from facts :
  compute_chain_hash facts = chain_from "genesis" facts.
Proof. by destruct facts. Qed.

Lemma chain_from_app p l1 l2 :
  chain_from p (l1 ++ l2) = let? q := chain_from p l1 in chain_from q l2.
Proof.
  revert p. induction l1 as [|f l1 IH]; intros p; cbn; [done|].
  destruct (fact_hash f); [apply IH|done].
Qed.

(** Appending one fact is one chain step. *)
Lemma chain_snoc facts fact prev fh :
  compute_chain_hash facts = Ok prev -> fact_hash fact = Ok fh ->
  compute_chain_hash (facts ++ [fact]) = Ok (chain_step prev fh).
Proof.
  rewrite !compute_chain_hash_from, chain_from_app. intros -> Hf. cbn. by rewrite Hf.
Qed.

(** * Tamper evidence *)

(** The texts of a history, when all can be written. *)
Fixpoint fact_texts (facts : list Fact) : Result (list string) string :=
  match facts with
  | [] => Ok []
  | fact :: facts' =>
      let? t := fact_text fact in
      let? ts := fact_texts facts' in
      Ok (t :: ts)
  end.
(** The chain over texts: what the hash of a history is a function of. *)
Definition text_chain (texts : list string) : string :=
  fold_left (fun prev t => chain_step prev (blake3_hex t)) texts "genesis".

Lemma chain_from_texts p facts :
  chain_from p facts =
  let? ts := fact_texts facts in
  Ok (fold_left (fun prev t => chain_step prev (blake3_hex t)) ts p).
Proof.
  revert p. induction facts as [|f facts IH]; intros p; [done|].
  cbn [chain_from fact_texts]. unfold fact_hash. destruct (fact_text f) as [t|e]; [|done]. rewrite IH.
  by destruct (fact_texts facts).
Qed.
Lemma compute_chain_hash_texts facts :
  compute_chain_hash facts = let? ts := fact_texts facts in Ok (text_chain ts).
Proof. rewrite compute_chain_hash_from. apply chain_from_texts. Qed.

(** Two different hash inputs with the same hash. *)
Definition collision (p : string * string) : Prop :=
  fst p <> snd p /\ blake3_hex (fst p) = blake3_hex (snd p).
(** The search for a collision between two histories given last fact first:
    the first pair of hash inputs, from the end, that differ. *)
Fixpoint find_collision (rev1 rev2 : list string) : option (string * string) :=
  match rev1, rev2 with
  | t1 :: r1, t2 :: r2 =>
      let in1 := text_chain (rev r1) +:+ blake3_hex t1 in
      let in2 := text_chain (rev r2) +:+ blake3_hex t2 in
      if decide (in1 = in2) then
        if decide (t1 = t2) then find_collision r1 r2 else Some (t1, t2)
      else Some (in1, in2)
  | _, _ => None
  end.

Context `{!Blake3Laws}.

Lemma text_chain_snoc ts t : text_chain (ts ++ [t]) = chain_step (text_chain ts) (blake3_hex t).
Proof. unfold text_chain. by rewrite fold_left_app. Qed.
Lemma text_chain_not_genesis t r : text_chain (rev (t :: r)) <> "genesis".
Proof.
  cbn [rev]. rewrite text_chain_snoc. intros Heq. apply (f_equal String.length) in Heq.
  unfold chain_step in Heq. by rewrite blake3_hex_length in Heq.
Qed.

Lemma append_inj_r a b c d :
  String.length c = String.length d -> a +:+ c = b +:+ d -> a = b /\ c = d.
Proof.
  intros Hl. revert b. induction a as [|x a IH]; intros [|y b] Heq; cbn in Heq.
  - done.
  - apply (f_equal String.length) in Heq. cbn in Heq. rewrite str_app_length in Heq. lia.
  - apply (f_equal String.length) in Heq. cbn in Heq. rewrite str_app_length in Heq. lia.
  - injection Heq as -> Heq. apply IH in Heq as [-> ->]. done.
Qed.

Lemma find_collision_spec r1 r2 :
  text_chain (rev r1) = text_chain (rev r2) ->
  r1 = r2 \/ exists p, find_collision r1 r2 = Some p /\ collision p.
Proof.
  revert r2. induction r1 as [|t1 r1 IH]; intros [|t2 r2] Heq; [by left|..].
  - exfalso. apply (text_chain_not_genesis t2 r2). by rewrite <- Heq.
  - exfalso. apply (text_chain_not_genesis t1 r1). by rewrite Heq.
  - cbn [rev] in Heq. rewrite !text_chain_snoc in Heq. cbn [find_collision].
    unfold chain_step in Heq.
    destruct (decide (_ +:+ _ = _ +:+ _)) as [Hin|Hne]; [|right; by eexists].
    apply append_inj_r in Hin as [Hp Ht]; [|by rewrite !blake3_hex_length].
    destruct (decide (t1 = t2)) as [<-|Hne]; [|right; by eexists].
    destruct (IH r2 Hp) as [->|?]; [by left|by right].
Qed.
End Hash.
