(* ===== verification/Wal.v ===== *)
(** The write-ahead log, [evorule-reactor/src/wal.rs]: the JSON of a fact and
    its parser, the record format, the rotating file writer over a file
    system, the readers, and the in-memory store. *)

From S2P Require Import Prelude ObjectMap Value Error Path Domain Executor ExecSemantics Transition Fact Serde Hash.

(** [enum WalError]; I/O and JSON errors carry their message. *)
Inductive WalError : Type :=
| WalIo (e : string)
| WalJson (e : string)
| WalInvalidFact (msg : string).
Definition wal_error_display (e : WalError) : string :=
  match e with
  | WalIo e => "WAL I/O error: " +:+ e
  | WalJson e => "WAL JSON error: " +:+ e
  | WalInvalidFact msg => "WAL invalid fact: " +:+ msg
  end.

Definition quote (s : string) : string := String "034" (s +:+ String "034" "").
Definition WAL_FORMAT_HEADER : string :=
  "{" +:+ quote "format" +:+ ":" +:+ quote "evorule-wal/2" +:+ "}".
Definition is_format_header (line : string) : bool :=
  String.eqb (trim line) WAL_FORMAT_HEADER.

(** [struct WalRecord]. *)
Record WalRecord : Type := mk_record {
  version_before : Z;
  rec_fact : Fact;
  rec_content_hash : option string;
  rec_prev_hash : option string;
  rec_chain_hash : option string;
}.
Definition has_hash (r : WalRecord) : bool :=
  match rec_chain_hash r with Some _ => true | None => false end.

(** [trait FactWalStore]: an implementation's state, appending, and
    rotation, which reports whether it did anything. *)
Class FactWalStore (S : Type) : Type := {
  append_record_with_hash :
    S -> Z -> Fact -> string -> string -> string -> S * Result unit WalError;
  store_rotate : S -> S * Result bool WalError;
}.

(** [MemoryWalStore]; it keeps the trait's default [rotate]. *)
Definition MemoryWalStore : Type := list WalRecord.
Definition memory_new : MemoryWalStore := [].
Definition memory_append (s : MemoryWalStore) (version_before : Z) (fact : Fact)
    (content_hash prev_hash chain_hash : string) : MemoryWalStore * Result unit WalError :=
  (s ++ [mk_record version_before fact (Some content_hash) (Some prev_hash) (Some chain_hash)],
   Ok tt).
#[export] Instance memory_wal_store : FactWalStore MemoryWalStore := {|
  append_record_with_hash := memory_append;
  store_rotate := fun s => (s, Ok false);
|}.

Section Wal.
Context {N : Type} `{SerdeNumber N} `{SerdeText N}.

(** * The JSON of values and facts *)

(** [wal::tcb_to_serde] and [wal::serde_to_tcb]. *)
Fixpoint wal_tcb_to_serde (v : JsonValue) : SValue N :=
  match v with
  | JNull => SNull
  | JBool b => SBool b
  | JInteger i => SNumber (num_from_i64 i)
  | JU64 u => SNumber (num_from_u64 u)
  | JString s => SString s
  | JArray arr => SArray (map wal_tcb_to_serde arr)
  | JObject m => s_object (map (fun kv => (fst kv, wal_tcb_to_serde (snd kv))) m)
  end.
Fixpoint serde_to_tcb (v : SValue N) : JsonValue :=
  match v with
  | SNull => JNull
  | SBool b => JBool b
  | SNumber n =>
      match num_as_i64 n with
      | Some i => JInteger i
      | None =>
          match num_as_u64 n with
          | Some u => JU64 u
          | None => JString (num_display n)
          end
      end
  | SString s => JString s
  | SArray arr => JArray (map serde_to_tcb arr)
  | SObject m => JObject (map_from (map (fun kv => (fst kv, serde_to_tcb (snd kv))) m))
  end.

(** [wal::trace_attr_to_json] and [wal::fact_to_json]. *)
Definition wal_trace_attr_to_json (attr : TraceDomainAttribution) : SValue N :=
  s_object
    ([("outcome", SString (ta_outcome attr))]
     ++ match ta_missing_reason attr with
        | Some reason => [("missing_reason", SString reason)] | None => [] end
     ++ match ta_on_missing attr with
        | Some policy => [("on_missing", SString policy)] | None => [] end).
Definition wal_u64 (v : Z) : SValue N := SNumber (num_from_u64 v).
Definition wal_trace_hit_to_json (h : TraceHit) : SValue N :=
  s_object
    ([("index", wal_u64 (th_index h)); ("instr_type", SString (th_instr_type h));
      ("hit", SBool (th_hit h))]
     ++ match th_domain_attr h with
        | Some attr => [("domain_attr", wal_trace_attr_to_json attr)] | None => [] end).
Definition fact_to_json (fact : Fact) : SValue N :=
  s_object
    match fact with
    | Command id instruction =>
        [("type", SString "Command"); ("id", wal_u64 id);
         ("instruction", wal_tcb_to_serde instruction)]
    | PayloadUpdate id path value =>
        [("type", SString "PayloadUpdate"); ("id", wal_u64 id); ("path", SString path);
         ("value", wal_tcb_to_serde value)]
    | StateTransition id cause new_payload new_queue =>
        [("type", SString "StateTransition"); ("id", wal_u64 id); ("cause", wal_u64 cause);
         ("new_payload", wal_tcb_to_serde new_payload);
         ("new_queue", SArray (map wal_tcb_to_serde new_queue))]
    | IoRequest id cause io_type params =>
        [("type", SString "IoRequest"); ("id", wal_u64 id); ("cause", wal_u64 cause);
         ("io_type", SString io_type); ("params", wal_tcb_to_serde params)]
    | IoResponse id request_id result error =>
        [("type", SString "IoResponse"); ("id", wal_u64 id);
         ("request_id", wal_u64 request_id); ("result", wal_tcb_to_serde result);
         ("error", match error with Some msg => SString msg | None => SNull end)]
    | Stable id version =>
        [("type", SString "Stable"); ("id", wal_u64 id); ("version", wal_u64 version)]
    | FError id message =>
        [("type", SString "Error"); ("id", wal_u64 id); ("message", SString message)]
    | TransitionTrace id cause rule_hits =>
        [("type", SString "TransitionTrace"); ("id", wal_u64 id); ("cause", wal_u64 cause);
         ("rule_hits", SArray (map wal_trace_hit_to_json rule_hits))]
    | Violation id cause rule_index reason instruction =>
        [("type", SString "Violation"); ("id", wal_u64 id); ("cause", wal_u64 cause);
         ("rule_index", wal_u64 rule_index); ("reason", SString reason);
         ("instruction", wal_tcb_to_serde instruction)]
    end.

(** [wal::fact_from_json], with its field accesses. *)
Definition field_u64 (v : SValue N) (key msg : string) : Result Z WalError :=
  ok_or (let! x := s_get v key in s_as_u64 x) (WalInvalidFact msg).
Definition field_str (v : SValue N) (key msg : string) : Result string WalError :=
  ok_or (let! x := s_get v key in s_as_str x) (WalInvalidFact msg).
Definition field_array (v : SValue N) (key msg : string) : Result (list (SValue N)) WalError :=
  ok_or (let! x := s_get v key in s_as_array x) (WalInvalidFact msg).
Definition field_any (v : SValue N) (key msg : string) : Result (SValue N) WalError :=
  ok_or (s_get v key) (WalInvalidFact msg).
Definition optional_str (v : SValue N) (key msg : string) :
    Result (option string) WalError :=
  match s_get v key with
  | None => Ok None
  | Some x => let? s := ok_or (s_as_str x) (WalInvalidFact msg) in Ok (Some s)
  end.

Definition trace_attr_from_json (attr : SValue N) : Result TraceDomainAttribution WalError :=
  let? outcome := field_str attr "outcome" "TransitionTrace domain_attr missing 'outcome'" in
  let? missing_reason := optional_str attr "missing_reason"
    "TransitionTrace domain_attr 'missing_reason' not a string" in
  let? on_missing := optional_str attr "on_missing"
    "TransitionTrace domain_attr 'on_missing' not a string" in
  Ok (mk_trace_attr outcome missing_reason on_missing).
Definition trace_hit_from_json (h : SValue N) : Result TraceHit WalError :=
  let? index := field_u64 h "index" "TransitionTrace hit missing 'index'" in
  let? instr_type := field_str h "instr_type" "TransitionTrace hit missing 'instr_type'" in
  let? hit := ok_or (let! x := s_get h "hit" in s_as_bool x)
    (WalInvalidFact "TransitionTrace hit missing 'hit'") in
  let? domain_attr :=
    match s_get h "domain_attr" with
    | None => Ok None
    | Some attr => let? a := trace_attr_from_json attr in Ok (Some a)
    end in
  Ok (mk_trace_hit index instr_type hit domain_attr).
Fixpoint trace_hits_from_json (hits_raw : list (SValue N)) : Result (list TraceHit) WalError :=
  match hits_raw with
  | [] => Ok []
  | h :: rest =>
      let? hit := trace_hit_from_json h in
      let? hits := trace_hits_from_json rest in
      Ok (hit :: hits)
  end.

Definition fact_from_json (v : SValue N) : Result Fact WalError :=
  let? _ := ok_or (s_as_object v) (WalInvalidFact "fact is not an object") in
  let? type_str := field_str v "type" "missing 'type' field" in
  let? id := field_u64 v "id" "missing/invalid 'id' field" in
  if String.eqb type_str "Command" then
    let? instruction := field_any v "instruction" "Command missing 'instruction'" in
    Ok (Command id (serde_to_tcb instruction))
  else if String.eqb type_str "PayloadUpdate" then
    let? path := field_str v "path" "PayloadUpdate missing 'path'" in
    let? value := field_any v "value" "PayloadUpdate missing 'value'" in
    Ok (PayloadUpdate id path (serde_to_tcb value))
  else if String.eqb type_str "StateTransition" then
    let? cause := field_u64 v "cause" "StateTransition missing 'cause'" in
    let? new_payload := field_any v "new_payload" "StateTransition missing 'new_payload'" in
    let? new_queue := field_array v "new_queue" "StateTransition missing 'new_queue'" in
    Ok (StateTransition id cause (serde_to_tcb new_payload) (map serde_to_tcb new_queue))
  else if String.eqb type_str "IoRequest" then
    let? cause := field_u64 v "cause" "IoRequest missing 'cause'" in
    let? io_type := field_str v "io_type" "IoRequest missing 'io_type'" in
    let? params := field_any v "params" "IoRequest missing 'params'" in
    Ok (IoRequest id cause io_type (serde_to_tcb params))
  else if String.eqb type_str "IoResponse" then
    let? request_id := field_u64 v "request_id" "IoResponse missing 'request_id'" in
    let? result := field_any v "result" "IoResponse missing 'result'" in
    let? error :=
      match s_get v "error" with
      | Some SNull | None => Ok None
      | Some (SString s) => Ok (Some s)
      | Some _ => Err (WalInvalidFact "IoResponse 'error' must be string or null")
      end in
    Ok (IoResponse id request_id (serde_to_tcb result) error)
  else if String.eqb type_str "Stable" then
    let version := default 0%Z (let! x := s_get v "version" in s_as_u64 x) in
    Ok (Stable id version)
  else if String.eqb type_str "Error" then
    let? message := field_str v "message" "Error missing 'message'" in
    Ok (FError id message)
  else if String.eqb type_str "TransitionTrace" then
    let? cause := field_u64 v "cause" "TransitionTrace missing 'cause'" in
    let? hits_raw := field_array v "rule_hits" "TransitionTrace missing 'rule_hits'" in
    let? rule_hits := trace_hits_from_json hits_raw in
    Ok (TransitionTrace id cause rule_hits)
  else if String.eqb type_str "Violation" then
    let? cause := field_u64 v "cause" "Violation missing 'cause'" in
    let? rule_index := field_u64 v "rule_index" "Violation missing 'rule_index'" in
    let? reason := field_str v "reason" "Violation missing 'reason'" in
    let? instruction := field_any v "instruction" "Violation missing 'instruction'" in
    Ok (Violation id cause rule_index reason (serde_to_tcb instruction))
  else Err (WalInvalidFact ("unknown fact type: " +:+ type_str)).
End Wal.

(** * What a fact becomes when it is written and read back

    A serialised integer does not say which of the two integer variants it
    was; the reader prefers [Integer]. *)
Fixpoint norm_json (v : JsonValue) : JsonValue :=
  match v with
  | JU64 u => if is_i64 u then JInteger u else JU64 u
  | JArray arr => JArray (map norm_json arr)
  | JObject m => JObject (map (fun kv => (fst kv, norm_json (snd kv))) m)
  | _ => v
  end.
Definition norm_fact (fact : Fact) : Fact :=
  match fact with
  | Command id instruction => Command id (norm_json instruction)
  | PayloadUpdate id path value => PayloadUpdate id path (norm_json value)
  | StateTransition id cause new_payload new_queue =>
      StateTransition id cause (norm_json new_payload) (map norm_json new_queue)
  | IoRequest id cause io_type params => IoRequest id cause io_type (norm_json params)
  | IoResponse id request_id result error => IoResponse id request_id (norm_json result) error
  | Violation id cause rule_index reason instruction =>
      Violation id cause rule_index reason (norm_json instruction)
  | _ => fact
  end.

Section WalRoundtrip.
Context {N : Type} `{SerdeNumberLaws N} `{SerdeText N}.
Implicit Types (v : JsonValue) (f : Fact).

Lemma map_fst_map_snd {A B} (g : A -> B) (m : list (string * A)) :
  map fst (map (fun kv => (fst kv, g (snd kv))) m) = map fst m.
Proof. induction m; cbn; [done|by f_equal]. Qed.
Lemma keys_sorted_map {A B} (g : A -> B) (m : ObjectMap A) :
  keys_sorted m -> keys_sorted (map (fun kv => (fst kv, g (snd kv))) m).
Proof. unfold keys_sorted. by rewrite map_fst_map_snd. Qed.

Lemma wal_tcb_to_serde_eq v : wal_tcb_to_serde v = tcb_to_serde v :> SValue N.
Proof.
  by induction v using json_ind.
Qed.

Lemma serde_to_tcb_roundtrip v :
  wf_json v = true -> serde_to_tcb (wal_tcb_to_serde v : SValue N) = norm_json v.
Proof.
  induction v as [|b|i|u|s|l IH|m IH] using json_ind; intros Hwf; try done; cbn in *.
  - by rewrite as_i64_from_i64.
  - rewrite as_i64_from_u64, as_u64_from_u64 by done. by destruct (is_i64 u).
  - f_equal. rewrite map_map. apply map_ext_Forall.
    rewrite forallb_forall in Hwf. rewrite List.Forall_forall in IH |- *. auto.
  - apply andb_true_iff in Hwf as [Hs Hwf]. apply keys_sortedb_spec in Hs.
    unfold s_object. rewrite (map_from_id (map (fun kv => (fst kv, wal_tcb_to_serde (snd kv))) m))
      by (by apply (keys_sorted_map wal_tcb_to_serde)).
    rewrite map_map. cbn. f_equal.
    rewrite (map_ext_Forall _ (fun kv => (fst kv, norm_json (snd kv)))).
    + apply map_from_id. by apply (keys_sorted_map norm_json).
    + rewrite forallb_forall in Hwf. rewrite List.Forall_forall in IH |- *.
      intros [k x] Hin. cbn. f_equal. by apply (IH (k, x)), (Hwf (k, x)).
Qed.

Lemma serde_to_tcb_roundtrip_list l :
  forallb wf_json l = true -> map serde_to_tcb (map (wal_tcb_to_serde (N := N)) l) = map norm_json l.
Proof.
  intros Hl. rewrite map_map. apply map_ext_Forall. rewrite List.Forall_forall.
  rewrite forallb_forall in Hl. intros v Hv. by apply serde_to_tcb_roundtrip, Hl.
Qed.

(** A normal form is well-formed. *)
Lemma norm_json_wf v : wf_json v = true -> wf_json (norm_json v) = true.
Proof.
  induction v as [|b|i|u|s|l IH|m IH] using json_ind; intros Hwf; try done; cbn in Hwf |- *.
  - by destruct (is_i64 u) eqn:Hi.
  - rewrite forallb_forall in Hwf |- *. rewrite List.Forall_forall in IH.
    intros x [y [<- Hin]]%in_map_iff. auto.
  - apply andb_true_iff in Hwf as [Hs Hwf]. apply andb_true_iff. split.
    + apply keys_sortedb_spec in Hs. apply keys_sortedb_spec. by apply (keys_sorted_map norm_json).
    + rewrite forallb_forall in Hwf |- *. rewrite List.Forall_forall in IH.
      intros x [[k y] [<- Hin]]%in_map_iff. cbn. by apply (IH (k, y)), (Hwf (k, y)).
Qed.
Lemma norm_fact_wf f : wf_fact f = true -> wf_fact (norm_fact f) = true.
Proof.
  unfold wf_fact. rewrite !andb_true_iff. intros [Hid Hwf]. split; [by destruct f|].
  destruct f; cbn in *; rewrite ?andb_true_iff in *; destruct_and?; split_and?;
    try apply norm_json_wf; try done.
  rewrite forallb_forall in *. intros x [y [<- Hin]]%in_map_iff. apply norm_json_wf. auto.
Qed.

(** The writer does not see the difference: a normal form is written as its
    original. *)
Lemma norm_json_same_text v : wf_json v = true -> tcb_to_serde (norm_json v) = tcb_to_serde v :> SValue N.
Proof.
  induction v as [| |i|u| |l IH|m IH] using json_ind; intros Hwf; try done; cbn in *.
  - destruct (is_i64 u) eqn:?; [|done]. cbn. by rewrite from_i64_from_u64.
  - f_equal. rewrite map_map. apply map_ext_Forall.
    rewrite forallb_forall in Hwf. rewrite List.Forall_forall in IH |- *. auto.
  - apply andb_true_iff in Hwf as [_ Hwf]. rewrite map_map. cbn. f_equal.
    apply map_ext_Forall. rewrite forallb_forall in Hwf. rewrite List.Forall_forall in IH |- *.
    intros [k x] Hin. cbn. f_equal. by apply (IH (k, x)), (Hwf (k, x)).
Qed.
Lemma norm_json_same_text_list l :
  forallb wf_json l = true ->
  map tcb_to_serde (map norm_json l) = map (tcb_to_serde (N := N)) l.
Proof.
  intros Hl. rewrite map_map. apply map_ext_Forall. rewrite List.Forall_forall.
  rewrite forallb_forall in Hl. intros v Hv. by apply norm_json_same_text, Hl.
Qed.

Lemma norm_fact_same_json f :
  wf_fact f = true -> fact_to_stable_json (N := N) (norm_fact f) = fact_to_stable_json f.
Proof.
  intros Hwf. unfold wf_fact in Hwf. apply andb_true_iff in Hwf as [_ Hwf].
  destruct f; cbn in *; reflect_bool; unfold fact_to_stable_json; cbn;
    rewrite ?norm_json_same_text, ?norm_json_same_text_list; done.
Qed.

(** A well-formed value is written as one that can be read back. *)
Lemma num_i64_integer i : is_i64 i = true -> is_integer_number (num_from_i64 (N := N) i) = true.
Proof. intros Hi. unfold is_integer_number. by rewrite as_i64_from_i64. Qed.
Lemma num_u64_integer u : is_u64 u = true -> is_integer_number (num_from_u64 (N := N) u) = true.
Proof.
  intros Hu. unfold is_integer_number. rewrite as_u64_from_u64 by done.
  by destruct (num_as_i64 _).
Qed.
Lemma tcb_to_serde_wf v : wf_json v = true -> s_wf (tcb_to_serde v : SValue N) = true.
Proof.
  induction v as [|b|i|u|s|l IH|m IH] using json_ind; intros Hwf; try done.
  - by apply num_i64_integer.
  - by apply num_u64_integer.
  - cbn in *. rewrite forallb_forall in Hwf |- *. rewrite List.Forall_forall in IH.
    intros x [y [<- Hin]]%in_map_iff. auto.
  - cbn [wf_json] in Hwf. apply andb_true_iff in Hwf as [_ Hwf]. apply s_object_wf.
    rewrite forallb_forall in Hwf |- *. rewrite List.Forall_forall in IH.
    intros x [[k y] [<- Hin]]%in_map_iff. cbn. by apply (IH (k, y)), (Hwf (k, y)).
Qed.
Lemma fact_to_json_wf f : wf_fact f = true -> s_wf (fact_to_json f : SValue N) = true.
Proof.
  intros Hwf. unfold wf_fact in Hwf. apply andb_true_iff in Hwf as [Hid Hwf].
  pose proof num_u64_integer as Hu. pose proof tcb_to_serde_wf as Hv.
  assert (forall hs, forallb wf_trace_hit hs = true ->
    forallb s_wf (map (wal_trace_hit_to_json (N := N)) hs) = true) as Hh.
  { intros hs Hhs. rewrite forallb_forall in Hhs |- *. intros x [h [<- Hin%Hhs]]%in_map_iff.
    apply s_object_wf. unfold wf_trace_hit in Hin.
    destruct h as [ix ty hit [[o [r|] [p|]]|]]; cbn -[s_object] in *; rewrite Hu by done;
      cbn -[s_object]; try done; by rewrite s_object_wf. }
  assert (forall l, forallb wf_json l = true ->
    forallb s_wf (map (wal_tcb_to_serde (N := N)) l) = true) as Hl.
  { intros l. rewrite !forallb_forall. intros Hl x [y [<- Hin]]%in_map_iff. by apply Hv, Hl. }
  apply s_object_wf.
  destruct f; cbn in Hid, Hwf |- *; rewrite ?andb_true_iff in Hwf; destruct_and?;
    rewrite ?Hu by done; rewrite ?wal_tcb_to_serde_eq, ?Hv by done; cbn;
    rewrite ?Hl, ?Hh by done; try done.
  by destruct error.
Qed.

Lemma fact_to_json_stable f : Ok (fact_to_json f) = fact_to_stable_json (N := N) f.
Proof.
  destruct f; cbn; unfold fact_to_stable_json; cbn; rewrite ?wal_tcb_to_serde_eq; try done.
Qed.

(** Reading a field of a freshly built object. *)
Lemma s_get_object (pairs : list (string * SValue N)) key :
  s_get (s_object pairs) key = assoc_last pairs key.
Proof. apply map_get_from. Qed.
Lemma field_u64_object pairs key msg u :
  assoc_last pairs key = Some (wal_u64 (N := N) u) -> is_u64 u = true ->
  field_u64 (s_object pairs) key msg = Ok u.
Proof.
  intros Hk Hu. unfold field_u64. rewrite s_get_object, Hk. cbn. by rewrite as_u64_from_u64.
Qed.

Lemma trace_attr_roundtrip (a : TraceDomainAttribution) :
  trace_attr_from_json (wal_trace_attr_to_json (N := N) a) = Ok a.
Proof.
  destruct a as [o [r|] [p|]]; unfold trace_attr_from_json, wal_trace_attr_to_json, field_str,
    optional_str; rewrite !s_get_object; reflexivity.
Qed.
Lemma trace_hit_roundtrip (h : TraceHit) :
  wf_trace_hit h = true -> trace_hit_from_json (wal_trace_hit_to_json (N := N) h) = Ok h.
Proof.
  destruct h as [ix ty hit attr]. unfold wf_trace_hit. cbn. intros Hix.
  unfold trace_hit_from_json, wal_trace_hit_to_json.
  erewrite field_u64_object by (by destruct attr || done).
  unfold field_str. rewrite !s_get_object.
  destruct attr as [a|]; cbn; [by rewrite trace_attr_roundtrip|done].
Qed.
Lemma trace_hits_roundtrip (hs : list TraceHit) :
  forallb wf_trace_hit hs = true ->
  trace_hits_from_json (map (wal_trace_hit_to_json (N := N)) hs) = Ok hs.
Proof.
  induction hs as [|h hs IH]; cbn; [done|]. intros Hwf. apply andb_true_iff in Hwf as [Hh Hs].
  by rewrite trace_hit_roundtrip, IH.
Qed.

Lemma fact_from_json_to_json f :
  wf_fact f = true -> fact_from_json (fact_to_json (N := N) f) = Ok (norm_fact f).
Proof.
  intros Hwf. unfold wf_fact in Hwf. apply andb_true_iff in Hwf as [Hid Hwf].
  unfold fact_from_json, field_str, field_any, field_array.
  destruct f; cbn in Hid, Hwf; cbv beta iota delta [fact_to_json]; reflect_bool;
    rewrite !s_get_object;
    cbn -[s_object field_u64 wal_u64];
    repeat (erewrite field_u64_object by (done || by apply is_u64_spec));
    cbn -[s_object field_u64 wal_u64].
  all: try done.
  all: rewrite ?serde_to_tcb_roundtrip, ?serde_to_tcb_roundtrip_list, ?trace_hits_roundtrip by done.
  all: try done.
  - by destruct error.
  - cbn. by rewrite as_u64_from_u64 by by apply is_u64_spec.
Qed.
End WalRoundtrip.

(** * Theorems *)

(** A fact written to the write-ahead log and read back is the same fact
    up to the integer variant of its numbers; the writer cannot tell the two
    apart, so the recovered fact has the content hash the log recorded, and
    reading is stable from then on. *)
Lemma wal_fact_roundtrip {N : Type} `{SerdeNumberLaws N, SerdeText N, Blake3} (f : Fact) :
  wf_fact f = true ->
  fact_from_json (fact_to_json (N := N) f) = Ok (norm_fact f) /\
  fact_to_json (N := N) (norm_fact f) = fact_to_json f /\
  fact_hash (N := N) (norm_fact f) = fact_hash f /\
  norm_fact (norm_fact f) = norm_fact f.
Proof.
  intros Hwf. pose proof (norm_fact_same_json (N := N) f Hwf) as Hsame.
  assert (fact_to_json (N := N) (norm_fact f) = fact_to_json f) as Hjson.
  { rewrite <- !fact_to_json_stable in Hsame. by apply Ok_inj in Hsame. }
  pose proof (fact_from_json_to_json (N := N) f Hwf) as Hr.
  split_and!; [done|done| |].
  - unfold fact_hash, fact_text. by rewrite Hsame.
  - pose proof (fact_from_json_to_json (N := N) _ (norm_fact_wf f Hwf)) as Hn.
    rewrite Hjson, Hr in Hn. by apply Ok_inj in Hn.
Qed.
Import ZNumber.
Lemma wal_fact_roundtrip_witness :
  fact_from_json (N := Z) (fact_to_json (PayloadUpdate 7%Z "a.b"
      (JArray [JU64 5; JInteger 5; JU64 (2 ^ 63)]))) =
    Ok (PayloadUpdate 7%Z "a.b" (JArray [JInteger 5; JInteger 5; JU64 (2 ^ 63)])).
Proof.
  refine (proj1 (wal_fact_roundtrip (H1 := ZText.text) (H2 := ZHash.hash)
    (PayloadUpdate 7%Z "a.b" (JArray [JU64 5; JInteger 5; JU64 (2 ^ 63)])) _)).
  reflexivity.
Defined.

(** Histories with the same texts have the same normal forms. *)
Lemma fact_texts_norm {N : Type} `{SerdeNumberLaws N, SerdeText N, !SerdeTextLaws N} fs gs ts :
  forallb wf_fact fs = true -> forallb wf_fact gs = true ->
  fact_texts (N := N) fs = Ok ts -> fact_texts gs = Ok ts -> map norm_fact fs = map norm_fact gs.
Proof.
  revert gs ts. induction fs as [|f fs IH]; intros [|g gs] ts;
    cbn [fact_texts forallb map]; intros Hf Hg.
  - done.
  - intros [= <-]. by repeat case_match.
  - intros Ht [= <-]. revert Ht. by repeat case_match.
  - apply andb_true_iff in Hf as [Hf Hfs]. apply andb_true_iff in Hg as [Hg Hgs].
    unfold fact_text. rewrite <- !(fact_to_json_stable (N := N)).
    destruct (serde_to_string (fact_to_json f)) as [t|] eqn:Hft; [|done].
    destruct (serde_to_string (fact_to_json g)) as [t'|] eqn:Hgt; [|by repeat case_match].
    destruct (fact_texts fs) as [ts1|] eqn:E1; [|done]. intros [= <-].
    destruct (fact_texts gs) as [ts2|] eqn:E2; [|done]. intros [= -> ->].
    pose proof (to_string_inj _ _ _ (fact_to_json_wf f Hf) (fact_to_json_wf g Hg) Hft Hgt) as Heq.
    pose proof (fact_from_json_to_json (N := N) f Hf) as Hrf.
    rewrite Heq, fact_from_json_to_json in Hrf by done. apply Ok_inj in Hrf as ->.
    f_equal. by eapply IH.
Qed.
Lemma fact_texts_total {N : Type} `{SerdeNumber N, SerdeText N, !SerdeTextLaws N} fs :
  exists ts, fact_texts (N := N) fs = Ok ts.
Proof.
  induction fs as [|f fs [ts IH]]; cbn; [by eexists|]. unfold fact_text. cbn.
  match goal with |- context [serde_to_string ?v] => destruct (to_string_total v) as [s ->] end.
  rewrite IH. by eexists.
Qed.

(** Equal chain hashes: the same facts, or the collision the comparison finds. *)
Lemma same_chain_same_facts {N : Type}
    `{SerdeNumberLaws N, SerdeText N, !SerdeTextLaws N, Blake3, !Blake3Laws} (h1 h2 : list Fact) :
  forallb wf_fact h1 = true -> forallb wf_fact h2 = true ->
  compute_chain_hash (N := N) h1 = compute_chain_hash h2 ->
  map norm_fact h1 = map norm_fact h2 \/
  exists ts1 ts2 p,
    fact_texts (N := N) h1 = Ok ts1 /\ fact_texts h2 = Ok ts2 /\
    find_collision (rev ts1) (rev ts2) = Some p /\ collision p.
Proof.
  intros Hw1 Hw2. rewrite !compute_chain_hash_texts.
  destruct (fact_texts_total (N := N) h1) as [ts1 Ht1].
  destruct (fact_texts_total (N := N) h2) as [ts2 Ht2].
  rewrite Ht1, Ht2. intros [= Hc]. rewrite <- (rev_involutive ts1), <- (rev_involutive ts2) in Hc.
  apply find_collision_spec in Hc as [Heq|(p & Hp & Hcol)].
  - left. apply (f_equal (@rev _)) in Heq. rewrite !rev_involutive in Heq. subst.
    by eapply fact_texts_norm.
  - right. by exists ts1, ts2, p.
Qed.

(** C10: the hash chain is tamper evident.  If two well-formed histories have
    the same chain hash, they hold the same facts in the same order (up to
    the integer variant), or comparing the two from the end produces two
    different inputs of the hash function with the same hash. *)
Theorem chain_tamper_evident {N : Type}
    `{SerdeNumberLaws N, SerdeText N, !SerdeTextLaws N, Blake3, !Blake3Laws} (h1 h2 : list Fact) :
  forallb wf_fact h1 = true -> forallb wf_fact h2 = true ->
  compute_chain_hash (N := N) h1 = compute_chain_hash h2 ->
  map norm_fact h1 = map norm_fact h2 \/
  exists ts1 ts2 p,
    fact_texts (N := N) h1 = Ok ts1 /\ fact_texts h2 = Ok ts2 /\
    find_collision (rev ts1) (rev ts2) = Some p /\ collision p.
Proof. apply same_chain_same_facts. Qed.
Lemma chain_tamper_evident_witness :
  map norm_fact [Stable 1%Z (2 ^ 63); Stable 2%Z 3] = map norm_fact [Stable 1%Z (2 ^ 63); Stable 2%Z 3] \/
  exists ts1 ts2 p,
    fact_texts (N := Z) (H0 := ZText.text) [Stable 1%Z (2 ^ 63); Stable 2%Z 3] = Ok ts1 /\
    fact_texts (N := Z) (H0 := ZText.text) [Stable 1%Z (2 ^ 63); Stable 2%Z 3] = Ok ts2 /\
    find_collision (H1 := ZHash.hash) (rev ts1) (rev ts2) = Some p /\ collision (H1 := ZHash.hash) p.
Proof.
  refine (chain_tamper_evident (SerdeTextLaws0 := ZText.text_laws) (H3 := ZHash.hash_laws)
    [Stable 1%Z (2 ^ 63); Stable 2%Z 3] [Stable 1%Z (2 ^ 63); Stable 2%Z 3] _ _ _); reflexivity.
Defined.
