(* ===== verification/WalFile.v ===== *)
(** The file backend of the write-ahead log, [evorule-reactor/src/wal.rs]:
    the rotating writer over a file system, the line parser, and the readers,
    with the round trip from what is appended to what is read. *)

From S2P Require Import Prelude ObjectMap Value Error Path Domain Executor ExecSemantics Transition Fact Serde Hash Wal.

(** * Paths and files

    A path is its directory, with the separator, and its file name; a file is
    its lines.  Opening, writing and reading do not fail here: the errors of
    the operating system are not modelled, only those of the code. *)
Record WalPath : Type := mk_path { parent : string; file_name : string }.
Definition path_string (p : WalPath) : string := parent p +:+ file_name p.

(** [Path::file_stem] and [Path::extension]: the name is split at its last
    dot, unless that is its first byte.  (The name is not [..].) *)
Fixpoint rsplit_dot (s : string) : option (string * string) :=
  match s with
  | EmptyString => None
  | String c s' =>
      match rsplit_dot s' with
      | Some (b, a) => Some (String c b, a)
      | None => if Ascii.eqb c "." then Some (EmptyString, s') else None
      end
  end.
Definition stem_extension (p : WalPath) : string * string :=
  match rsplit_dot (file_name p) with
  | None | Some (EmptyString, _) => (file_name p, "")
  | Some (before, after) => (before, after)
  end.
Definition file_stem (p : WalPath) : string := fst (stem_extension p).
Definition extension (p : WalPath) : string := snd (stem_extension p).
Definition set_file_name (p : WalPath) (name : string) : WalPath := mk_path (parent p) name.

Abbreviation Files := (gmap string (list string)).
Definition path_exists (fs : Files) (p : WalPath) : bool :=
  bool_decide (is_Some (fs !! path_string p)).
Definition read_file (fs : Files) (p : WalPath) : list string := default [] (fs !! path_string p).
(** [writeln!]: the text and a line break; the text may hold line breaks. *)
Definition append_line (fs : Files) (p : WalPath) (line : string) : Files :=
  <[path_string p := read_file fs p ++ split_char newline line]> fs.
(** The length of a file in bytes. *)
Definition file_len (lines : list string) : Z :=
  fold_right (fun line n => Z.of_nat (String.length line) + 1 + n)%Z 0%Z lines.

(** * The writer *)

Definition DEFAULT_MAX_WAL_SIZE_BYTES : Z := (100 * 1024 * 1024)%Z.
(** [struct WalWriter]; [writer] is the path of the file it holds open. *)
Record WalWriter : Type := mk_writer {
  writer : WalPath;
  writer_path : WalPath;
  max_size_bytes : Z;
  current_size_bytes : Z;
  fsync_on_flush : bool;
  file_sequence : nat;
}.

Definition build_rotated_path (path : WalPath) (sequence : nat) : WalPath :=
  match sequence with
  | O => path
  | S _ =>
      let ext := extension path in
      let stem := file_stem path in
      if str_is_empty ext then set_file_name path (stem +:+ "." +:+ pretty (N.of_nat sequence))
      else set_file_name path
             (stem +:+ "." +:+ pretty (N.of_nat sequence) +:+ "." +:+ ext)
  end.
Definition open_file (fs : Files) (path : WalPath) (sequence : nat) (truncate : bool) :
    Files * WalPath :=
  let rotated_path := build_rotated_path path sequence in
  (<[path_string rotated_path := if truncate then [] else read_file fs rotated_path]> fs,
   rotated_path).
Definition write_format_header (fs : Files) (file : WalPath) : Files :=
  append_line fs file WAL_FORMAT_HEADER.
Definition create_with_options (fs : Files) (path : WalPath) (max_wal_size_bytes : Z)
    (fsync : bool) : Files * WalWriter :=
  let '(fs, file) := open_file fs path 0 true in
  let fs := write_format_header fs file in
  (fs, mk_writer file path max_wal_size_bytes 0 fsync 0).
Definition wal_create (fs : Files) (path : WalPath) : Files * WalWriter :=
  create_with_options fs path DEFAULT_MAX_WAL_SIZE_BYTES false.
Definition create_with_fsync (fs : Files) (path : WalPath) (fsync : bool) : Files * WalWriter :=
  create_with_options fs path DEFAULT_MAX_WAL_SIZE_BYTES fsync.

(** The loop of [append_with_options]: the first sequence number without a
    file, from [sequence] on. *)
Fixpoint first_missing (fuel : nat) (fs : Files) (path : WalPath) (sequence : nat) : option nat :=
  match fuel with
  | O => None
  | S fuel =>
      if negb (path_exists fs (build_rotated_path path sequence)) then Some sequence
      else first_missing fuel fs path (S sequence)
  end.
(** As many iterations as there are files, and one. *)
Definition loop_fuel (fs : Files) : nat := S (size fs).
Definition append_with_options (fs : Files) (path : WalPath) (max_size : Z) (fsync : bool) :
    option (Files * WalWriter) :=
  let! first := first_missing (loop_fuel fs) fs path 0 in
  let sequence := Nat.pred first in
  let '(fs', file) := open_file fs path sequence false in
  let current_size :=
    if (Nat.eqb sequence 0 && path_exists fs' path)%bool then file_len (read_file fs' path) else 0%Z in
  Some (fs', mk_writer file path max_size current_size fsync sequence).
Definition wal_append (fs : Files) (path : WalPath) : option (Files * WalWriter) :=
  append_with_options fs path DEFAULT_MAX_WAL_SIZE_BYTES false.
Definition append_with_fsync (fs : Files) (path : WalPath) (fsync : bool) :
    option (Files * WalWriter) :=
  append_with_options fs path DEFAULT_MAX_WAL_SIZE_BYTES fsync.

(** [WalWriter::rotate]. *)
Definition rotate (fs : Files) (w : WalWriter) : Files * WalWriter :=
  let sequence := S (file_sequence w) in
  let '(fs, file) := open_file fs (writer_path w) sequence true in
  (fs, mk_writer file (writer_path w) (max_size_bytes w) 0 (fsync_on_flush w) sequence).

(** The common end of [append_record] and [append_record_with_hash]. *)
Definition write_record_line (fs : Files) (w : WalWriter) (line : string) : Files * WalWriter :=
  let line_bytes := (Z.of_nat (String.length line) + 1)%Z in
  let '(fs, w) :=
    if ((0 <? max_size_bytes w) && (0 <? current_size_bytes w)
        && (max_size_bytes w <? u64_wrapping_add (current_size_bytes w) line_bytes))%Z
    then rotate fs w else (fs, w) in
  let fs := append_line fs (writer w) line in
  (fs, mk_writer (writer w) (writer_path w) (max_size_bytes w)
         (u64_wrapping_add (current_size_bytes w) line_bytes) (fsync_on_flush w)
         (file_sequence w)).

Section WalFile.
Context {N : Type} `{SerdeNumber N, SerdeText N}.

Definition record_json (version_before : Z) (fact : Fact) : SValue N :=
  s_object [("version_before", wal_u64 version_before); ("fact", fact_to_json fact)].
Definition record_with_hash_json (version_before : Z) (fact : Fact)
    (content_hash prev_hash chain_hash : string) : SValue N :=
  s_object
    [("version_before", wal_u64 version_before); ("fact", fact_to_json fact);
     ("content_hash", SString content_hash); ("prev_hash", SString prev_hash);
     ("chain_hash", SString chain_hash)].
Definition append_record (fs : Files) (w : WalWriter) (version_before : Z) (fact : Fact) :
    (Files * WalWriter) * Result unit WalError :=
  match serde_to_string (record_json version_before fact) with
  | Err e => ((fs, w), Err (WalJson e))
  | Ok line => (write_record_line fs w line, Ok tt)
  end.
Definition writer_append_with_hash (fs : Files) (w : WalWriter) (version_before : Z) (fact : Fact)
    (content_hash prev_hash chain_hash : string) :
    (Files * WalWriter) * Result unit WalError :=
  match serde_to_string (record_with_hash_json version_before fact content_hash prev_hash
                           chain_hash) with
  | Err e => ((fs, w), Err (WalJson e))
  | Ok line => (write_record_line fs w line, Ok tt)
  end.
#[export] Instance wal_writer_store : FactWalStore (Files * WalWriter) := {|
  append_record_with_hash := fun '(fs, w) => writer_append_with_hash fs w;
  store_rotate := fun '(fs, w) => (rotate fs w, Ok true);
|}.

(** * The readers *)

(** [format!("line {line_no}: ...")]. *)
Definition at_line (line_no : nat) (msg : string) : WalError :=
  WalInvalidFact ("line " +:+ pretty (N.of_nat line_no) +:+ ": " +:+ msg).
Definition optional_hash (obj : SValue N) (key : string) : option string :=
  let! x := s_get obj key in s_as_str x.
Definition parse_wal_line (line : string) (line_no : nat) : Result WalRecord WalError :=
  let? value :=
    match serde_from_str line with
    | Ok v => Ok v
    | Err e => Err (at_line line_no ("JSON parse error: " +:+ e))
    end in
  let? _ := ok_or (s_as_object value) (at_line line_no "not an object") in
  let? version_before := ok_or (let! x := s_get value "version_before" in s_as_u64 x)
    (at_line line_no "missing version_before") in
  let? fact_value := ok_or (s_get value "fact") (at_line line_no "missing fact") in
  let? fact := fact_from_json fact_value in
  let fact :=
    match fact with
    | Stable id version =>
        match Z.eqb version 0, s_get fact_value "version" with
        | true, None => Stable id version_before
        | _, _ => fact
        end
    | f => f
    end in
  Ok (mk_record version_before fact (optional_hash value "content_hash")
        (optional_hash value "prev_hash") (optional_hash value "chain_hash")).

(** [BufRead::lines]: a carriage return before the line break is dropped. *)
Fixpoint strip_cr (line : string) : string :=
  match line with
  | EmptyString => EmptyString
  | String c EmptyString => if Ascii.eqb c (ascii_of_nat 13) then EmptyString else line
  | String c line' => String c (strip_cr line')
  end.
(** The loop of [parse_wal_records_counted] over the lines from index [idx]. *)
Fixpoint parse_lines (lines : list string) (base_line_no idx : nat) :
    Result (list WalRecord) WalError :=
  match lines with
  | [] => Ok []
  | raw :: rest =>
      let line := strip_cr raw in
      if str_is_empty (trim line) then parse_lines rest base_line_no (S idx)
      else if (Nat.eqb idx 0 && is_format_header line)%bool then
        parse_lines rest base_line_no (S idx)
      else
        let? record := parse_wal_line line (base_line_no + idx) in
        let? records := parse_lines rest base_line_no (S idx) in
        Ok (record :: records)
  end.
Definition parse_wal_records_counted (reader : list string) (base_line_no : nat) :
    Result (list WalRecord * nat) WalError :=
  let? records := parse_lines reader base_line_no 0 in
  Ok (records, length reader).
Definition parse_wal_records (reader : list string) (base_line_no : nat) :
    Result (list WalRecord) WalError :=
  result_map fst (parse_wal_records_counted reader base_line_no).
Definition read_wal_file_with_hash (fs : Files) (path : WalPath) (base_line_no : nat) :
    Result (list WalRecord * nat) WalError :=
  parse_wal_records_counted (read_file fs path) base_line_no.
Definition read_wal_file (fs : Files) (path : WalPath) (base_line_no : nat) :
    Result (list (Z * Fact) * nat) WalError :=
  let? ' (records, lines) := read_wal_file_with_hash fs path base_line_no in
  Ok (map (fun r => (version_before r, rec_fact r)) records, lines).

Fixpoint first_unhashed (lines : list string) : option string :=
  match lines with
  | [] => None
  | raw :: rest =>
      let line := strip_cr raw in
      if str_is_empty (trim line) then first_unhashed rest
      else if negb (contains "chain_hash" line) then Some line
      else first_unhashed rest
  end.
Definition detect_format_downgrade (fs : Files) (path : WalPath) : Result unit WalError :=
  let content := read_file fs path in
  let first_line := default "" (head content) in
  if negb (is_format_header (trim_end first_line)) then Ok tt
  else
    match first_unhashed (tail content) with
    | Some line =>
        Err (WalInvalidFact
          ("WAL format downgrade detected: header present but record lacks hash fields at line: "
           +:+ take_chars 60 line +:+ "..."))
    | None => Ok tt
    end.

(** The loop over the rotated files, with the reader of one file. *)
Section Shards.
Context {A : Type} (read_one : Files -> WalPath -> nat -> Result (list A * nat) WalError).

Fixpoint read_rotated (fuel : nat) (fs : Files) (path : WalPath) (sequence line_no : nat) :
    option (Result (list A) WalError) :=
  match fuel with
  | O => None
  | S fuel =>
      let rotated_path := build_rotated_path path sequence in
      if negb (path_exists fs rotated_path) then Some (Ok [])
      else
        match read_one fs rotated_path line_no with
        | Err e => Some (Err e)
        | Ok (recs, lines) =>
            let! rest := read_rotated fuel fs path (S sequence) (line_no + lines) in
            Some (let? records := rest in Ok (recs ++ records))
        end
  end.
(** The body the two readers share: the main file, when it exists, then the
    rotated ones. *)
Definition read_all (fs : Files) (path : WalPath) (check : Result unit WalError) :
    option (Result (list A) WalError) :=
  if path_exists fs path then
    match check with
    | Err e => Some (Err e)
    | Ok _ =>
        match read_one fs path 0 with
        | Err e => Some (Err e)
        | Ok (recs, lines) =>
            let! rest := read_rotated (loop_fuel fs) fs path 1 lines in
            Some (let? records := rest in Ok (recs ++ records))
        end
    end
  else if path_exists fs (build_rotated_path path 1) then
    read_rotated (loop_fuel fs) fs path 1 0
  else Some (Err (WalIo "WAL file not found")).
End Shards.

Definition read_wal (fs : Files) (path : WalPath) : option (Result (list (Z * Fact)) WalError) :=
  read_all read_wal_file fs path (Ok tt).
Definition read_wal_with_hash (fs : Files) (path : WalPath) :
    option (Result (list WalRecord) WalError) :=
  read_all read_wal_file_with_hash fs path (detect_format_downgrade fs path).
End WalFile.

(** * The rotated files are distinct, so the loops over them end *)

Lemma append_cancel_l a b c : a +:+ b = a +:+ c -> b = c.
Proof. induction a; cbn; [done|]. intros [= Heq]. auto. Qed.
Lemma rsplit_dot_Some s b a : rsplit_dot s = Some (b, a) -> s = b +:+ "." +:+ a.
Proof.
  revert b a. induction s as [|c s IH]; cbn; [done|]. intros b a.
  destruct (rsplit_dot s) as [[b' a']|].
  - intros [= <- <-]. cbn. f_equal. by apply IH.
  - destruct (Ascii.eqb_spec c ".") as [->|]; [|done]. by intros [= <- <-].
Qed.
Lemma file_name_length p :
  String.length (file_name p) <= String.length (file_stem p) + 1 + String.length (extension p).
Proof.
  unfold file_stem, extension, stem_extension.
  destruct (rsplit_dot (file_name p)) as [[[|c b] a]|] eqn:E; cbn [fst snd]; [lia| |lia].
  apply rsplit_dot_Some in E. rewrite E, !str_app_length. cbn. lia.
Qed.
Lemma str_nonempty_length s : str_is_empty s = false -> 0 < String.length s.
Proof. destruct s; cbn; [done|lia]. Qed.

Lemma rotated_longer p i :
  String.length (file_name p) < String.length (file_name (build_rotated_path p (S i))).
Proof.
  pose proof (file_name_length p) as Hl.
  pose proof (str_nonempty_length _ (pretty_N_nonempty (N.of_nat (S i)))) as Hd.
  cbn [build_rotated_path]. destruct (extension p) as [|c ext] eqn:E; cbn [str_is_empty set_file_name file_name];
    rewrite !str_app_length; cbn in *; lia.
Qed.
Lemma rotated_inj p i j :
  path_string (build_rotated_path p i) = path_string (build_rotated_path p j) -> i = j.
Proof.
  assert (forall k, parent (build_rotated_path p k) = parent p) as Hp.
  { intros [|k]; cbn; [done|]. by case_match. }
  unfold path_string. rewrite !Hp. intros Heq%append_cancel_l.
  destruct i as [|i], j as [|j]; [done| | |].
  - pose proof (rotated_longer p j) as Hl. rewrite <- Heq in Hl. cbn in Hl. lia.
  - pose proof (rotated_longer p i) as Hl. rewrite Heq in Hl. cbn in Hl. lia.
  - cbn [build_rotated_path] in Heq.
    destruct (str_is_empty (extension p)); cbn [set_file_name file_name] in Heq.
    + apply append_cancel_l, append_cancel_l, (inj pretty) in Heq. lia.
    + do 2 apply append_cancel_l in Heq.
      apply append_inj_r in Heq as [Heq _]; [|done]. apply (inj pretty) in Heq. lia.
Qed.

Lemma keys_le_size {A} (m : gmap string A) (l : list string) :
  NoDup l -> (forall k, k ∈ l -> is_Some (m !! k)) -> length l <= size m.
Proof.
  intros Hnd Hin. rewrite <- size_dom, <- (size_list_to_set (C := gset string)) by done.
  apply subseteq_size. intros k Hk. apply elem_of_list_to_set in Hk. by apply elem_of_dom, Hin.
Qed.
Lemma shards_le_size (fs : Files) p k n :
  (forall i, k <= i < k + n -> path_exists fs (build_rotated_path p i) = true) -> n <= size fs.
Proof.
  intros Hex. set (name i := path_string (build_rotated_path p i)).
  transitivity (length (name <$> seq k n)); [by rewrite length_fmap, length_seq|].
  apply keys_le_size.
  - apply NoDup_fmap_2_strong; [|apply NoDup_seq]. intros i j _ _. apply rotated_inj.
  - intros q (i & -> & Hi)%list_elem_of_fmap. apply elem_of_seq in Hi.
    specialize (Hex i Hi). by apply bool_decide_eq_true in Hex.
Qed.
Lemma first_missing_spec fuel fs p k :
  match first_missing fuel fs p k with
  | Some n => k <= n /\ path_exists fs (build_rotated_path p n) = false /\
      forall i, k <= i < n -> path_exists fs (build_rotated_path p i) = true
  | None => forall i, k <= i < k + fuel -> path_exists fs (build_rotated_path p i) = true
  end.
Proof.
  revert k. induction fuel as [|fuel IH]; intros k; cbn [first_missing]; [lia|].
  destruct (path_exists fs (build_rotated_path p k)) eqn:E; cbn [negb].
  - specialize (IH (S k)). destruct (first_missing fuel fs p (S k)) as [n|].
    + destruct IH as (Hn & Hm & Hi). split_and!; [lia|done|]. intros i Hk.
      destruct (decide (i = k)) as [->|]; [done|]. apply Hi. lia.
    + intros i Hk. destruct (decide (i = k)) as [->|]; [done|]. apply IH. lia.
  - split_and!; [lia|done|]. lia.
Qed.
Lemma first_missing_total fs p k : exists n, first_missing (loop_fuel fs) fs p k = Some n.
Proof.
  pose proof (first_missing_spec (loop_fuel fs) fs p k) as Hs.
  destruct (first_missing _ _ _ _) as [n|]; [by eexists|].
  apply shards_le_size in Hs. unfold loop_fuel in Hs. lia.
Qed.

(** * Writing and reading back *)

(** An entry given to the store, and a use of the store. *)
Record Entry : Type := mk_entry {
  e_version : Z;
  e_fact : Fact;
  e_content : string;
  e_prev : string;
  e_chain : string;
}.
Inductive WalOp : Type := WAppend (e : Entry) | WRotate.
Definition wf_entry (e : Entry) : bool := is_u64 (e_version e) && wf_fact (e_fact e).
(** The record an entry is read back as. *)
Definition entry_record (e : Entry) : WalRecord :=
  mk_record (e_version e) (norm_fact (e_fact e)) (Some (e_content e)) (Some (e_prev e))
    (Some (e_chain e)).
Fixpoint entries (ops : list WalOp) : list Entry :=
  match ops with
  | [] => []
  | WAppend e :: ops => e :: entries ops
  | WRotate :: ops => entries ops
  end.
(** Any store driven through the interface. *)
Fixpoint run_store {S : Type} `{FactWalStore S} (s : S) (ops : list WalOp) : Result S WalError :=
  match ops with
  | [] => Ok s
  | WAppend e :: ops =>
      let '(s', r) := append_record_with_hash s (e_version e) (e_fact e) (e_content e) (e_prev e)
                        (e_chain e) in
      let? _ := r in run_store s' ops
  | WRotate :: ops =>
      let '(s', r) := store_rotate s in
      let? _ := r in run_store s' ops
  end.

Section Readback.
Context {N : Type} `{SerdeNumberLaws N, SerdeText N, !SerdeTextLaws N}.

Definition entry_json (e : Entry) : SValue N :=
  record_with_hash_json (e_version e) (e_fact e) (e_content e) (e_prev e) (e_chain e).
Definition entry_line (e : Entry) : string := default "" (result_ok (serde_to_string (entry_json e))).
Lemma entry_line_spec e : serde_to_string (entry_json e) = Ok (entry_line e).
Proof. unfold entry_line. by destruct (to_string_total (entry_json e)) as [s ->]. Qed.

Lemma split_char_printable s : str_all is_printable s = true -> split_char newline s = [s].
Proof.
  induction s as [|c s IH]; cbn [str_all split_char]; [done|].
  intros [Hc Hs]%andb_true_iff. rewrite IH by done.
  destruct (Ascii.eqb_spec c newline) as [->|]; done.
Qed.
Lemma strip_cr_printable s : str_all is_printable s = true -> strip_cr s = s.
Proof.
  induction s as [|c s IH]; [done|]. cbn [str_all]. intros [Hc Hs]%andb_true_iff.
  cbn [strip_cr]. rewrite IH by done. destruct s; [|done].
  by destruct (Ascii.eqb_spec c (ascii_of_nat 13)) as [->|].
Qed.

Lemma entry_json_get e key : s_get (entry_json e) key = assoc_last
    [("version_before", wal_u64 (e_version e)); ("fact", fact_to_json (e_fact e));
     ("content_hash", SString (e_content e)); ("prev_hash", SString (e_prev e));
     ("chain_hash", SString (e_chain e))] key.
Proof. apply s_get_object. Qed.
Lemma entry_json_wf e : wf_entry e = true -> s_wf (entry_json e) = true.
Proof.
  unfold wf_entry. rewrite andb_true_iff. intros [Hv Hf]. apply s_object_wf.
  cbn -[fact_to_json]. by rewrite num_u64_integer, fact_to_json_wf.
Qed.

(** A fact whose record nests below the recursion limit: the record wraps it
    one level deep. *)
Definition readable_fact (f : Fact) : bool := S (s_depth (fact_to_json (N := N) f)) <? recursion_limit.
Definition readable_entry (e : Entry) : bool := readable_fact (e_fact e).
Lemma entry_json_shallow e : shallow (entry_json e) = readable_entry e.
Proof.
  unfold shallow, readable_entry, readable_fact, entry_json, record_with_hash_json, s_object.
  replace (s_depth (SObject _)) with (S (s_depth (fact_to_json (N := N) (e_fact e)) `max` 0)); [by rewrite Nat.max_0_r|].
  reflexivity.
Qed.
Lemma readable_norm_fact f : wf_fact f = true -> readable_fact (norm_fact f) = readable_fact f.
Proof.
  intros Hf. unfold readable_fact. pose proof (norm_fact_same_json (N := N) f Hf) as Hsame.
  rewrite <- !fact_to_json_stable in Hsame. by apply Ok_inj in Hsame as ->.
Qed.

(** What a reader sees of a written line. *)
Record written_line (e : Entry) (l : string) : Prop := {
  wl_split : split_char newline l = [l];
  wl_strip : strip_cr l = l;
  wl_blank : str_is_empty (trim l) = false;
  wl_header : is_format_header l = false;
  wl_chain : contains "chain_hash" l = true;
  wl_parse n : readable_entry e = true -> parse_wal_line (N := N) l n = Ok (entry_record e);
  wl_deep n : readable_entry e = false -> exists err, parse_wal_line (N := N) l n = Err err;
}.

Lemma entry_parse e n : wf_entry e = true -> readable_entry e = true ->
  parse_wal_line (N := N) (entry_line e) n = Ok (entry_record e).
Proof.
  intros Hwf Hr. pose proof (entry_json_wf e Hwf) as Hjwf. pose proof (entry_line_spec e) as Hl.
  apply andb_true_iff in Hwf as [Hv Hf]. apply from_to_string in Hl; [|done|by rewrite entry_json_shallow].
  unfold parse_wal_line, optional_hash. rewrite Hl, !entry_json_get.
  cbn [assoc_last String.eqb Ascii.eqb Bool.eqb]. unfold wal_u64 at 1. cbn [s_as_u64].
  rewrite as_u64_from_u64 by done. cbn [ok_or].
  rewrite fact_from_json_to_json by done.
  change (s_as_object (entry_json e)) with
    (Some (map_from [("version_before", wal_u64 (e_version e)); ("fact", fact_to_json (e_fact e));
     ("content_hash", SString (e_content e)); ("prev_hash", SString (e_prev e));
     ("chain_hash", SString (e_chain e))])).
  cbn [ok_or s_as_str]. unfold entry_record. f_equal. f_equal.
  destruct (e_fact e); cbn [norm_fact]; try done.
  unfold fact_to_json. rewrite s_get_object. cbn. by destruct (version =? 0)%Z.
Qed.
Lemma entry_parse_deep e n : wf_entry e = true -> readable_entry e = false ->
  exists err, parse_wal_line (N := N) (entry_line e) n = Err err.
Proof.
  intros Hwf Hr. pose proof (entry_line_spec e) as Hl.
  apply from_to_string_deep in Hl as [err Hl]; [|by apply entry_json_wf|by rewrite entry_json_shallow].
  unfold parse_wal_line. rewrite Hl. by eexists.
Qed.
Lemma entry_written e : wf_entry e = true -> written_line e (entry_line e).
Proof.
  intros Hwf. pose proof (entry_line_spec e) as Hl.
  pose proof (to_string_no_control _ _ Hl) as Hpr.
  pose proof (to_string_trimmed _ _ Hl) as [Htrim Hne].
  assert (contains "chain_hash" (entry_line e) = true) as Hkey.
  { unfold entry_json, record_with_hash_json in Hl. eapply to_string_key; [done| |done]. by rewrite map_get_from. }
  split.
  - by apply split_char_printable.
  - by apply strip_cr_printable.
  - by rewrite Htrim.
  - unfold is_format_header. rewrite Htrim. apply String.eqb_neq. intros Heq.
    rewrite Heq in Hkey. by vm_compute in Hkey.
  - done.
  - intros n. by apply entry_parse.
  - intros n. by apply entry_parse_deep.
Qed.

(** The files after some writes: the shards hold the entries in order, and
    the first file starts with the format header. *)
Definition shard_lines (i : nat) (es : list Entry) : list string :=
  match i with O => [WAL_FORMAT_HEADER] | S _ => [] end ++ map entry_line es.
Record stored (path : WalPath) (st : Files * WalWriter) (shards : list (list Entry)) : Prop := {
  st_path : writer_path (snd st) = path;
  st_open : writer (snd st) = build_rotated_path path (file_sequence (snd st));
  st_length : length shards = S (file_sequence (snd st));
  st_shard i es : shards !! i = Some es ->
    fst st !! path_string (build_rotated_path path i) = Some (shard_lines i es);
  st_fresh i : length shards <= i ->
    fst st !! path_string (build_rotated_path path i) = None;
}.

Lemma lookup_rotated {A} (fs : gmap string A) path i j x :
  <[path_string (build_rotated_path path i) := x]> fs !! path_string (build_rotated_path path j) =
  if decide (i = j) then Some x else fs !! path_string (build_rotated_path path j).
Proof.
  destruct (decide (i = j)) as [->|Hne]; [apply lookup_insert_eq|].
  apply lookup_insert_ne. by intros ?%rotated_inj.
Qed.

Lemma lookup_append_line (fs : Files) path i j line :
  append_line fs (build_rotated_path path i) line !! path_string (build_rotated_path path j) =
  if decide (i = j) then
    Some (read_file fs (build_rotated_path path i) ++ split_char newline line)
  else fs !! path_string (build_rotated_path path j).
Proof. apply lookup_rotated. Qed.
Lemma read_file_rotated (fs : Files) path i x :
  read_file (<[path_string (build_rotated_path path i) := x]> fs) (build_rotated_path path i) = x.
Proof. unfold read_file. by rewrite lookup_insert_eq. Qed.

Lemma stored_create fs path max fsync :
  (forall i, 0 < i -> fs !! path_string (build_rotated_path path i) = None) ->
  stored path (create_with_options fs path max fsync) [[]].
Proof.
  intros Hfresh.
  change (create_with_options fs path max fsync) with
    (append_line (<[path_string (build_rotated_path path 0) := []]> fs)
       (build_rotated_path path 0) WAL_FORMAT_HEADER,
     mk_writer (build_rotated_path path 0) path max 0 fsync 0).
  split; cbn -[build_rotated_path append_line]; try done.
  - intros i es Hi. destruct i; cbn in Hi; [|by destruct i]. injection Hi as <-.
    by rewrite lookup_append_line, read_file_rotated.
  - intros i Hi. rewrite lookup_append_line, lookup_rotated.
    destruct (decide (0 = i)); [lia|]. apply Hfresh. lia.
Qed.
Lemma stored_rotate path fs w shards :
  stored path (fs, w) shards -> stored path (rotate fs w) (shards ++ [[]]).
Proof.
  intros [Hp Ho Hl Hs Hf]. cbn -[build_rotated_path] in *. subst path.
  split; cbn -[build_rotated_path append_line]; try done.
  - rewrite length_app, Hl. cbn. lia.
  - intros i es Hi. rewrite lookup_rotated. destruct (decide _) as [<-|Hne].
    + rewrite lookup_app_r, Hl, Nat.sub_diag in Hi by lia. by injection Hi as <-.
    + apply Hs. apply lookup_app_Some in Hi as [?|[Hle Hi]]; [done|].
      apply lookup_lt_Some in Hi as Hlt. cbn in Hlt. lia.
  - intros i Hi. rewrite length_app in Hi. cbn in Hi. rewrite lookup_rotated.
    destruct (decide _); [lia|]. apply Hf. lia.
Qed.
Lemma stored_append path fs w shards es e :
  wf_entry e = true -> stored path (fs, w) (shards ++ [es]) ->
  stored path (append_line fs (writer w) (entry_line e), w) (shards ++ [es ++ [e]]).
Proof.
  intros Hwf [Hp Ho Hl Hs Hf]. cbn -[build_rotated_path] in *.
  rewrite length_app in Hl, Hf. cbn in Hl, Hf.
  assert (length shards = file_sequence w) as Hlen by lia.
  assert (read_file fs (writer w) = shard_lines (file_sequence w) es) as Hread.
  { unfold read_file. rewrite Ho, (Hs (file_sequence w) es); [done|].
    by rewrite lookup_app_r, Hlen, Nat.sub_diag by lia. }
  split; cbn -[build_rotated_path append_line]; try done.
  - rewrite length_app. cbn. lia.
  - intros i es' Hi. rewrite Ho, lookup_append_line, <- Ho, Hread.
    destruct (decide _) as [<-|Hne].
    + rewrite lookup_app_r, Hlen, Nat.sub_diag in Hi by lia. injection Hi as <-.
      rewrite (wl_split e) by by apply entry_written. unfold shard_lines.
      by rewrite map_app, app_assoc.
    + apply Hs. apply lookup_app_Some in Hi as [Hi|[Hle Hi]]; [by apply lookup_app_l_Some|].
      apply lookup_lt_Some in Hi as Hlt. cbn in Hlt. lia.
  - intros i Hi. rewrite length_app in Hi. cbn in Hi. rewrite Ho, lookup_append_line. destruct (decide _); [lia|]. apply Hf. lia.
Qed.
Lemma stored_write path fs w shards es e :
  wf_entry e = true -> stored path (fs, w) (shards ++ [es]) ->
  exists shards', stored path (write_record_line fs w (entry_line e)) shards' /\
    concat shards' = concat shards ++ es ++ [e].
Proof.
  intros Hwf Hst. unfold write_record_line.
  match goal with |- context [if ?c then _ else _] => destruct c end.
  - apply stored_rotate in Hst. destruct (rotate fs w) as [fs' w'].
    exists ((shards ++ [es]) ++ [[e]]). split.
    + pose proof (stored_append _ _ _ _ [] e Hwf Hst) as H'. by destruct H'; split.
    + rewrite !concat_app. cbn. by rewrite app_nil_r, <- app_assoc.
  - exists (shards ++ [es ++ [e]]). split.
    + pose proof (stored_append _ _ _ _ es e Hwf Hst) as H'. by destruct H'; split.
    + rewrite concat_app. cbn. by rewrite app_nil_r.
Qed.
Lemma stored_snoc path st shards :
  stored path st shards -> exists shards' es, shards = shards' ++ [es].
Proof.
  intros Hst. destruct shards as [|es shards] using rev_ind; [|by eexists _, _].
  by apply st_length in Hst.
Qed.

(** Any run of the writer through the store interface succeeds and keeps the
    entries in order. *)
Lemma run_store_stored path ops fs w shards :
  forallb wf_entry (entries ops) = true -> stored path (fs, w) shards ->
  exists st' shards', run_store (S := Files * WalWriter) (fs, w) ops = Ok st' /\
    stored path st' shards' /\ concat shards' = concat shards ++ entries ops.
Proof.
  revert fs w shards. induction ops as [|[e|] ops IH]; intros fs w shards Hwf Hst.
  - exists (fs, w), shards. by rewrite app_nil_r.
  - cbn in Hwf. apply andb_true_iff in Hwf as [He Hwf].
    cbn [run_store append_record_with_hash wal_writer_store].
    unfold writer_append_with_hash. fold (entry_json e). rewrite entry_line_spec.
    destruct (stored_snoc _ _ _ Hst) as (sh & es & ->).
    destruct (stored_write path fs w sh es e He Hst) as (sh' & Hst' & Hc).
    destruct (write_record_line fs w (entry_line e)) as [fs' w'].
    destruct (IH fs' w' sh' Hwf Hst') as (st' & sh'' & Hrun & Hst'' & Hc').
    exists st', sh''. split_and!; [done..|].
    rewrite Hc', Hc, concat_app. cbn. by rewrite app_nil_r, <- !app_assoc.
  - cbn [run_store store_rotate wal_writer_store].
    pose proof (stored_rotate _ _ _ _ Hst) as Hst'. destruct (rotate fs w) as [fs' w'].
    destruct (IH fs' w' _ Hwf Hst') as (st' & sh'' & Hrun & Hst'' & Hc').
    exists st', sh''. split_and!; [done..|].
    rewrite Hc', concat_app. cbn. by rewrite app_nil_r.
Qed.

(** Reopening finds the last shard and leaves the files as they are. *)
Lemma stored_reopen path fs w shards max fsync :
  stored path (fs, w) shards ->
  exists st', append_with_options fs path max fsync = Some st' /\ stored path st' shards.
Proof.
  intros Hst. pose proof (st_shard _ _ _ Hst) as Hsh. pose proof (st_fresh _ _ _ Hst) as Hfr.
  cbn [fst] in Hsh, Hfr. assert (forall i, path_exists fs (build_rotated_path path i) =
    bool_decide (i < length shards)) as Hex.
  { intros i. unfold path_exists. apply bool_decide_ext. split.
    - intros [x Hx]. destruct (decide (i < length shards)); [done|].
      by rewrite Hfr in Hx by lia.
    - intros Hi. apply lookup_lt_is_Some in Hi as [es Hes].
      rewrite (Hsh i es Hes). by eexists. }
  pose proof (st_length _ _ _ Hst) as Hl. cbn in Hl.
  destruct (first_missing_total fs path 0) as [n Hn].
  pose proof (first_missing_spec (loop_fuel fs) fs path 0) as Hs. rewrite Hn in Hs.
  destruct Hs as (_ & Hm & Hall). rewrite Hex in Hm. apply bool_decide_eq_false in Hm.
  assert (n = length shards) as ->.
  { destruct (decide (n = length shards)) as [|Hne]; [done|].
    specialize (Hall (length shards)). rewrite Hex in Hall.
    assert (bool_decide (length shards < length shards) = true) as Hlt by (apply Hall; lia).
    apply bool_decide_eq_true in Hlt. lia. }
  unfold append_with_options. rewrite Hn, Hl. cbn [Nat.pred open_file]. eexists. split; [done|].
  split; cbn -[build_rotated_path]; try done.
  - intros i es Hi. rewrite lookup_rotated. destruct (decide _) as [<-|]; [|by apply Hsh].
    unfold read_file. by rewrite (Hsh _ es Hi).
  - intros i Hi. rewrite lookup_rotated. destruct (decide _); [lia|]. by apply Hfr.
Qed.

(** Reading written lines: the records, or an error when one is too deep. *)
Definition reads_back {A} (r : Result A WalError) (es : list Entry) (x : A) : Prop :=
  if forallb readable_entry es then r = Ok x else exists err, r = Err err.
Lemma parse_entry_lines es base idx :
  forallb wf_entry es = true ->
  reads_back (parse_lines (N := N) (map entry_line es) base idx) es (map entry_record es).
Proof.
  revert idx. unfold reads_back. induction es as [|e es IH]; intros idx; cbn [map parse_lines forallb]; [done|].
  intros [He Hes]%andb_true_iff. destruct (entry_written e He) as [_ Hcr Hb Hh _ Hp Hd].
  rewrite Hcr, Hb, Hh, andb_false_r. destruct (readable_entry e); cbn [andb].
  - rewrite Hp by done. specialize (IH (S idx) Hes). destruct (forallb readable_entry es); [by rewrite IH|].
    destruct IH as [err ->]. by eexists.
  - destruct (Hd (base + idx) eq_refl) as [err ->]. by eexists.
Qed.
Lemma parse_shard i es base :
  forallb wf_entry es = true ->
  reads_back (parse_wal_records_counted (N := N) (shard_lines i es) base) es
    (map entry_record es, length (shard_lines i es)).
Proof.
  intros Hwf. unfold parse_wal_records_counted, shard_lines.
  assert (forall idx, reads_back (parse_lines (N := N) (map entry_line es) base idx) es (map entry_record es)) as Hp
    by (intros idx; by apply parse_entry_lines).
  unfold reads_back in *. destruct i as [|i]; cbn [app].
  - change (parse_lines (WAL_FORMAT_HEADER :: map entry_line es) base 0)
      with (parse_lines (N := N) (map entry_line es) base 1). specialize (Hp 1).
    destruct (forallb readable_entry es); [by rewrite Hp|]. destruct Hp as [err ->]. by eexists.
  - specialize (Hp 0). destruct (forallb readable_entry es); [by rewrite Hp|]. destruct Hp as [err ->]. by eexists.
Qed.
Lemma first_unhashed_written es :
  forallb wf_entry es = true -> first_unhashed (map entry_line es) = None.
Proof.
  induction es as [|e es IH]; cbn [map first_unhashed]; [done|]. cbn.
  intros [He Hes]%andb_true_iff. destruct (entry_written e He) as [_ Hcr Hb _ Hc _ _].
  rewrite Hcr, Hb, Hc. cbn. auto.
Qed.

Lemma stored_exists path st shards i :
  stored path st shards ->
  path_exists (fst st) (build_rotated_path path i) = bool_decide (i < length shards).
Proof.
  intros Hst. unfold path_exists. apply bool_decide_ext. split.
  - intros [x Hx]. destruct (decide (i < length shards)); [done|].
    rewrite (st_fresh _ _ _ Hst) in Hx by lia. done.
  - intros Hi. apply lookup_lt_is_Some in Hi as [es Hes].
    rewrite (st_shard _ _ _ Hst i es Hes). by eexists.
Qed.
Lemma stored_le_size path st shards : stored path st shards -> length shards <= size (fst st).
Proof.
  intros Hst. apply (shards_le_size _ path 0). intros i Hi.
  rewrite (stored_exists _ _ _ _ Hst). apply bool_decide_eq_true. lia.
Qed.
Lemma stored_read_file path st shards i es :
  stored path st shards -> shards !! i = Some es ->
  read_file (fst st) (build_rotated_path path i) = shard_lines i es.
Proof. intros Hst Hi. unfold read_file. by rewrite (st_shard _ _ _ Hst i es Hi). Qed.

Lemma forallb_concat_lookup {A} (f : A -> bool) (l : list (list A)) i x :
  forallb f (concat l) = true -> l !! i = Some x -> forallb f x = true.
Proof.
  rewrite !forallb_forall. intros Hl Hi y Hy. apply Hl. apply in_concat. exists x.
  split; [|done]. apply list_elem_of_In. by eapply list_elem_of_lookup_2.
Qed.
Lemma read_rotated_stored path st shards fuel k n :
  stored path st shards -> forallb wf_entry (concat shards) = true ->
  k <= length shards < k + fuel ->
  exists r, read_rotated (read_wal_file_with_hash (N := N)) fuel (fst st) path k n = Some r /\
    reads_back r (concat (drop k shards)) (map entry_record (concat (drop k shards))).
Proof.
  intros Hst Hwf. revert k n. induction fuel as [|fuel IH]; intros k n Hk; [lia|].
  cbn [read_rotated]. rewrite (stored_exists _ _ _ _ Hst).
  destruct (bool_decide_reflect (k < length shards)) as [Hlt|Hge]; cbn [negb].
  2: { rewrite drop_ge by lia. by eexists. }
  apply lookup_lt_is_Some in Hlt as [es Hes].
  unfold read_wal_file_with_hash. rewrite (stored_read_file _ _ _ _ _ Hst Hes).
  assert (forallb wf_entry es = true) as Hes_wf by by eapply forallb_concat_lookup.
  pose proof (parse_shard k es n Hes_wf) as Hp. fold (read_wal_file_with_hash (N := N)).
  rewrite (drop_S _ _ _ Hes), concat_cons, map_app. unfold reads_back in *. rewrite forallb_app.
  destruct (forallb readable_entry es); cbn [andb]; [|destruct Hp as [err ->]; by eexists _; eauto].
  rewrite Hp. destruct (IH (S k) (n + length (shard_lines k es))) as (r & -> & Hr);
    [apply lookup_lt_Some in Hes; lia|].
  eexists. split; [done|]. destruct (forallb readable_entry (concat (drop (S k) shards))); [by rewrite Hr|].
  destruct Hr as [err ->]. by eexists.
Qed.
(** Reading the files of a log gives its records when all are shallow enough
    for the parser, and an error when one is not. *)
Lemma read_stored_exact path st shards :
  stored path st shards -> forallb wf_entry (concat shards) = true ->
  exists r, read_wal_with_hash (N := N) (fst st) path = Some r /\
    reads_back r (concat shards) (map entry_record (concat shards)).
Proof.
  intros Hst Hwf. assert (exists es, shards !! 0 = Some es) as [es Hes].
  { apply lookup_lt_is_Some. rewrite (st_length _ _ _ Hst). lia. }
  assert (forallb wf_entry es = true) as Hes_wf by by eapply forallb_concat_lookup.
  pose proof (stored_read_file _ _ _ _ _ Hst Hes) as Hread. cbn [build_rotated_path] in Hread.
  unfold read_wal_with_hash, read_all, detect_format_downgrade.
  pose proof (stored_exists _ _ _ 0 Hst) as Hex. cbn [build_rotated_path] in Hex. rewrite Hex.
  rewrite bool_decide_eq_true_2 by (apply lookup_lt_Some in Hes; lia).
  unfold read_wal_file_with_hash at 1. rewrite Hread.
  pose proof (parse_shard 0 es 0 Hes_wf) as Hp.
  cbn [shard_lines app head tail default] in *.
  rewrite first_unhashed_written by done.
  replace (is_format_header (trim_end (id WAL_FORMAT_HEADER))) with true by reflexivity. cbn [negb].
  destruct shards as [|es' shards]; [done|]. injection Hes as ->. cbn [concat].
  unfold reads_back in *. rewrite forallb_app, map_app.
  destruct (forallb readable_entry es); cbn [andb]; [|destruct Hp as [err ->]; by eexists _; eauto].
  rewrite Hp. edestruct (read_rotated_stored path st (es :: shards) (loop_fuel (fst st)) 1) as (r & -> & Hr); [done..| |].
  { pose proof (stored_le_size _ _ _ Hst). unfold loop_fuel. cbn in *. lia. }
  eexists. split; [done|]. unfold reads_back in Hr. change (drop 1 (es :: shards)) with (drop 0 shards) in Hr. rewrite drop_0 in Hr.
  destruct (forallb readable_entry (concat shards)); [by rewrite Hr|]. destruct Hr as [err ->]. by eexists.
Qed.
Lemma read_stored path st shards :
  stored path st shards -> forallb wf_entry (concat shards) = true ->
  forallb readable_entry (concat shards) = true ->
  read_wal_with_hash (N := N) (fst st) path = Some (Ok (map entry_record (concat shards))).
Proof.
  intros Hst Hwf Hr. destruct (read_stored_exact path st shards Hst Hwf) as (r & -> & Hrs).
  unfold reads_back in Hrs. rewrite Hr in Hrs. by rewrite Hrs.
Qed.
End Readback.

(** What the file backend stores is what the reader returns.  A log
    created at a path without stale shards and driven through the store
    interface by any sequence of appends and forced rotations, with the
    size-triggered rotations of any size limit, accepts every entry; reading
    it back, when every record nests below the parser's recursion limit, gives
    exactly the entries in order, each with its version, its fact up to the
    integer variant and its three hashes. *)
Lemma wal_write_read_roundtrip {N : Type} `{SerdeNumberLaws N, SerdeText N, !SerdeTextLaws N}
    (fs : Files) (path : WalPath) (max : Z) (fsync : bool) (ops : list WalOp) :
  (forall i, 0 < i -> fs !! path_string (build_rotated_path path i) = None) ->
  forallb wf_entry (entries ops) = true -> forallb (readable_entry (N := N)) (entries ops) = true ->
  exists fs' w,
    run_store (create_with_options fs path max fsync) ops = Ok (fs', w) /\
    read_wal_with_hash fs' path = Some (Ok (map entry_record (entries ops))).
Proof.
  intros Hfresh Hwf Hr.
  pose proof (stored_create fs path max fsync Hfresh) as Hst.
  destruct (create_with_options fs path max fsync) as [fs0 w0].
  destruct (run_store_stored path ops fs0 w0 _ Hwf Hst) as ([fs' w] & sh & Hrun & Hst' & Hc).
  exists fs', w. split; [done|]. cbn in Hc. rewrite <- Hc.
  by apply (read_stored _ _ _ Hst'); rewrite Hc.
Qed.
Import ZNumber.
Lemma wal_write_read_roundtrip_witness :
  exists fs' w,
    run_store (H := wal_writer_store (N := Z) (H0 := ZText.text))
      (create_with_options ∅ (mk_path "logs/" "session_1.wal") 200 false)
      [WAppend (mk_entry 0 (Stable 1%Z 0) "c1" "genesis" "h1"); WRotate;
       WAppend (mk_entry 0 (FError 2%Z "e") "c2" "h1" "h2")] = Ok (fs', w) /\
    read_wal_with_hash (N := Z) (H0 := ZText.text) fs' (mk_path "logs/" "session_1.wal") =
      Some (Ok [mk_record 0 (Stable 1%Z 0) (Some "c1") (Some "genesis") (Some "h1");
                mk_record 0 (FError 2%Z "e") (Some "c2") (Some "h1") (Some "h2")]).
Proof.
  refine (wal_write_read_roundtrip (SerdeTextLaws0 := ZText.text_laws) ∅
    (mk_path "logs/" "session_1.wal") 200 false
    [WAppend (mk_entry 0 (Stable 1%Z 0) "c1" "genesis" "h1"); WRotate;
     WAppend (mk_entry 0 (FError 2%Z "e") "c2" "h1" "h2")] _ _ _).
  - intros i _. apply lookup_empty.
  - reflexivity.
  - reflexivity.
Defined.

(** An entry whose record reaches the recursion limit of the parser is
    accepted, and from then on the log cannot be read: no entry of it is. *)
Lemma deep_entry_unreadable {N : Type} `{SerdeNumberLaws N, SerdeText N, !SerdeTextLaws N}
    (fs : Files) (path : WalPath) (max : Z) (fsync : bool) (ops : list WalOp) :
  (forall i, 0 < i -> fs !! path_string (build_rotated_path path i) = None) ->
  forallb wf_entry (entries ops) = true -> forallb (readable_entry (N := N)) (entries ops) = false ->
  exists fs' w err,
    run_store (create_with_options fs path max fsync) ops = Ok (fs', w) /\
    read_wal_with_hash (N := N) fs' path = Some (Err err).
Proof.
  intros Hfresh Hwf Hr.
  pose proof (stored_create fs path max fsync Hfresh) as Hst.
  destruct (create_with_options fs path max fsync) as [fs0 w0].
  destruct (run_store_stored path ops fs0 w0 _ Hwf Hst) as ([fs' w] & sh & Hrun & Hst' & Hc). cbn in Hc.
  destruct (read_stored_exact _ _ _ Hst') as (r & Hread & Hrs); [by rewrite Hc|].
  unfold reads_back in Hrs. rewrite Hc, Hr in Hrs. destruct Hrs as [err ->]. by exists fs', w, err.
Qed.

(** A log can be closed, reopened and continued.  After any first run,
    reopening finds the last rotated file (its search loop ends) whatever
    size limit is now asked for, the second run succeeds, and reading (below
    the recursion limit) gives the entries of both runs in order: nothing is
    overwritten or lost. *)
Lemma wal_reopen_continues {N : Type} `{SerdeNumberLaws N, SerdeText N, !SerdeTextLaws N}
    (fs : Files) (path : WalPath) (max max' : Z) (fsync fsync' : bool) (ops1 ops2 : list WalOp) :
  (forall i, 0 < i -> fs !! path_string (build_rotated_path path i) = None) ->
  forallb wf_entry (entries ops1 ++ entries ops2) = true ->
  forallb (readable_entry (N := N)) (entries ops1 ++ entries ops2) = true ->
  exists fs1 w1 st2 fs3 w3,
    run_store (create_with_options fs path max fsync) ops1 = Ok (fs1, w1) /\
    append_with_options fs1 path max' fsync' = Some st2 /\
    run_store st2 ops2 = Ok (fs3, w3) /\
    read_wal_with_hash fs3 path =
      Some (Ok (map entry_record (entries ops1) ++ map entry_record (entries ops2))).
Proof.
  intros Hfresh Hwf Hr. rewrite forallb_app in Hwf. apply andb_true_iff in Hwf as [Hwf1 Hwf2].
  pose proof (stored_create fs path max fsync Hfresh) as Hst.
  destruct (create_with_options fs path max fsync) as [fs0 w0].
  destruct (run_store_stored path ops1 fs0 w0 _ Hwf1 Hst) as ([fs1 w1] & sh & Hrun & Hst1 & Hc).
  destruct (stored_reopen _ _ _ _ max' fsync' Hst1) as ([fs2 w2] & Hre & Hst2).
  destruct (run_store_stored path ops2 fs2 w2 _ Hwf2 Hst2) as ([fs3 w3] & sh' & Hrun' & Hst3 & Hc').
  exists fs1, w1, (fs2, w2), fs3, w3. split_and!; [done..|].
  rewrite <- map_app. cbn in Hc. rewrite Hc in Hc'. rewrite <- Hc'.
  apply (read_stored _ _ _ Hst3); rewrite Hc'; [|done]. by rewrite forallb_app, Hwf1, Hwf2.
Qed.
Lemma wal_reopen_continues_witness :
  exists fs1 w1 st2 fs3 w3,
    run_store (H := wal_writer_store (N := Z) (H0 := ZText.text))
      (create_with_options ∅ (mk_path "" "wal") 100 false)
      [WAppend (mk_entry 0 (Stable 1%Z 0) "c1" "genesis" "h1"); WRotate] = Ok (fs1, w1) /\
    append_with_options fs1 (mk_path "" "wal") 0 true = Some st2 /\
    run_store (H := wal_writer_store (N := Z) (H0 := ZText.text)) st2
      [WAppend (mk_entry 0 (FError 2%Z "e") "c2" "h1" "h2")] = Ok (fs3, w3) /\
    read_wal_with_hash (N := Z) (H0 := ZText.text) fs3 (mk_path "" "wal") =
      Some (Ok ([mk_record 0 (Stable 1%Z 0) (Some "c1") (Some "genesis") (Some "h1")] ++
                [mk_record 0 (FError 2%Z "e") (Some "c2") (Some "h1") (Some "h2")])).
Proof.
  refine (wal_reopen_continues (SerdeTextLaws0 := ZText.text_laws) ∅
    (mk_path "" "wal") 100 0 false true
    [WAppend (mk_entry 0 (Stable 1%Z 0) "c1" "genesis" "h1"); WRotate]
    [WAppend (mk_entry 0 (FError 2%Z "e") "c2" "h1" "h2")] _ _ _).
  - intros i _. apply lookup_empty.
  - reflexivity.
  - reflexivity.
Defined.

(** The reading loop ends on any files. *)
Lemma read_rotated_total {A} (read_one : Files -> WalPath -> nat -> Result (list A * nat) WalError)
    fuel fs path k n :
  read_rotated read_one fuel fs path k n = None ->
  forall i, k <= i < k + fuel -> path_exists fs (build_rotated_path path i) = true.
Proof.
  revert k n. induction fuel as [|fuel IH]; intros k n; cbn [read_rotated]; [lia|].
  destruct (path_exists fs (build_rotated_path path k)) eqn:E; cbn [negb]; [|done].
  destruct (read_one fs (build_rotated_path path k) n) as [[recs lines]|e]; [|done].
  destruct (read_rotated read_one fuel fs path (S k) (n + lines)) eqn:E'; [done|]. intros _ i Hi.
  destruct (decide (i = k)) as [->|]; [done|]. eapply IH; [done|]. lia.
Qed.

Lemma first_unhashed_None lines line :
  first_unhashed lines = None -> In line lines -> str_is_empty (trim (strip_cr line)) = false ->
  contains "chain_hash" (strip_cr line) = true.
Proof.
  induction lines as [|l lines IH]; cbn [first_unhashed]; [done|]. intros E [->|Hin] Hb.
  - rewrite Hb in E. by destruct (contains "chain_hash" (strip_cr line)).
  - apply IH; [|done..]. by repeat case_match.
Qed.

(** Reading fails closed and always returns.  On any file system the
    reader ends; a missing log is an error; and a log whose first line is the
    format header but where some record line has lost its hash fields, as a
    downgrade to the unhashed format leaves it, is refused, whatever the
    other lines are. *)
Lemma wal_read_fails_closed {N : Type} `{SerdeNumber N, SerdeText N} (fs : Files) (path : WalPath) :
  (exists r, read_wal_with_hash (N := N) fs path = Some r) /\
  (path_exists fs path = false -> path_exists fs (build_rotated_path path 1) = false ->
     read_wal_with_hash (N := N) fs path = Some (Err (WalIo "WAL file not found"))) /\
  (forall lines line,
     fs !! path_string path = Some (WAL_FORMAT_HEADER :: lines) -> In line lines ->
     str_is_empty (trim (strip_cr line)) = false -> contains "chain_hash" (strip_cr line) = false ->
     exists msg, read_wal_with_hash (N := N) fs path = Some (Err (WalInvalidFact msg))).
Proof.
  split_and!.
  - unfold read_wal_with_hash, read_all.
    assert (forall k n, exists r,
      read_rotated (read_wal_file_with_hash (N := N)) (loop_fuel fs) fs path k n = Some r) as Ht.
    { intros k n. destruct (read_rotated _ _ _ _ _ _) as [r|] eqn:E; [by eexists|].
      pose proof (shards_le_size _ _ _ _ (read_rotated_total _ _ _ _ _ _ E)) as Hle.
      unfold loop_fuel in Hle. lia. }
    destruct (path_exists fs path).
    + destruct (detect_format_downgrade fs path); [|by eexists].
      destruct (read_wal_file_with_hash fs path 0) as [[recs n]|]; [|by eexists].
      destruct (Ht 1 n) as [r ->]. by eexists.
    + destruct (path_exists fs (build_rotated_path path 1)); [apply Ht|by eexists].
  - intros H1 H2. unfold read_wal_with_hash, read_all. by rewrite H1, H2.
  - intros lines line Hf Hin Hb Hc. unfold read_wal_with_hash, read_all.
    assert (path_exists fs path = true) as -> by (apply bool_decide_eq_true; rewrite Hf; by eexists).
    unfold detect_format_downgrade.
    replace (read_file fs path) with (WAL_FORMAT_HEADER :: lines) by (unfold read_file; by rewrite Hf).
    cbn [head tail]. change (default "" (Some WAL_FORMAT_HEADER)) with WAL_FORMAT_HEADER.
    replace (is_format_header (trim_end WAL_FORMAT_HEADER)) with true by reflexivity. cbn [negb].
    destruct (first_unhashed lines) as [l|] eqn:E; [eexists; reflexivity|].
    by rewrite (first_unhashed_None lines line E Hin Hb) in Hc.
Qed.
Lemma wal_read_fails_closed_witness :
  exists msg, read_wal_with_hash (N := Z) (H0 := ZText.text)
    {[ "d/w" := [WAL_FORMAT_HEADER; "{}"] ]} (mk_path "d/" "w") = Some (Err (WalInvalidFact msg)).
Proof.
  refine (proj2 (proj2 (wal_read_fails_closed (N := Z) (H0 := ZText.text)
    {[ "d/w" := [WAL_FORMAT_HEADER; "{}"] ]} (mk_path "d/" "w"))) ["{}"] "{}" _ _ _ _);
    [apply lookup_singleton_eq|by left|reflexivity|reflexivity].
Defined.
