(* ===== verification/FactsLog.v ===== *)
(** The append-only facts log, [evorule-reactor/src/facts_log.rs]: the hash
    chained history with its materialised state and indexes, write-ahead
    storage through the store interface, replay, recovery and compaction. *)

From S2P Require Import Prelude ObjectMap Value Error Path Domain Executor ExecSemantics Transition Fact Serde Hash Wal WalFile.

(** [enum FactsLogError]. *)
Inductive FactsLogError : Type :=
| VersionOverflow
| HashErr (msg : string)
| CompactedRead (from_version compacted_version : Z) (compacted_count : nat)
| WalErr (msg : string)
| Internal (msg : string).

Definition facts_log_error_display (e : FactsLogError) : string :=
  match e with
  | VersionOverflow => "facts log version overflow"
  | HashErr msg => "facts log hash error: " +:+ msg
  | CompactedRead from_version compacted_version compacted_count =>
      "facts log read from version " +:+ pretty from_version +:+ " precedes compaction point "
      +:+ pretty compacted_version +:+ " (" +:+ pretty (N.of_nat compacted_count)
      +:+ " facts dropped from memory projection; replay from WAL for the full prefix)"
  | WalErr msg => "facts log WAL error: " +:+ msg
  | Internal msg => "facts log internal error: " +:+ msg
  end.

(** * State *)

(** [struct CompactedSnapshot]. *)
Record CompactedSnapshot : Type := mk_compacted {
  cs_version : Z;
  cs_snapshot : JsonValue;
  cs_queue : list JsonValue;
  cs_last_hash : string;
  compacted_count : nat;
}.

(** The fields of [FactsLogInner] that [apply_fact_to_state] writes. *)
Record LogState : Type := mk_state {
  current_snapshot : JsonValue;
  current_queue : list JsonValue;
  version : Z;
  last_stable_version : Z;
}.
(** The three indexes; [version_index] is a [BTreeMap], kept in key order. *)
Record LogIndex : Type := mk_index {
  version_index : list (Z * nat);
  fact_id_index : gmap Z nat;
  path_index : ObjectMap (list nat);
}.
(** [struct FactsLogInner], over the type of the mounted store. *)
Record FactsLogInner (S : Type) : Type := mk_inner {
  history : list (Z * Fact);
  log_state : LogState;
  last_hash : string;
  wal : option S;
  log_fsync_on_flush : bool;
  log_max_wal_size_bytes : Z;
  log_index : LogIndex;
  compacted_snapshot : option CompactedSnapshot;
  next_anchor_id : Z;
}.
Arguments mk_inner {S}.
Arguments history {S}.
Arguments log_state {S}.
Arguments last_hash {S}.
Arguments wal {S}.
Arguments log_fsync_on_flush {S}.
Arguments log_max_wal_size_bytes {S}.
Arguments log_index {S}.
Arguments compacted_snapshot {S}.
Arguments next_anchor_id {S}.

(** [struct FactsLog]: the consecutive write failures, whether an escalation
    callback is registered, and the messages it has been called with. *)
Record FactsLog (S : Type) : Type := mk_log {
  inner : FactsLogInner S;
  wal_fail_count : Z;
  on_wal_failure_exhausted : bool;
  escalations : list string;
}.
Arguments mk_log {S}.
Arguments inner {S}.
Arguments wal_fail_count {S}.
Arguments on_wal_failure_exhausted {S}.
Arguments escalations {S}.

(** * Applying a fact *)

(** The loop of the fallback over the parts of the path. *)
Fixpoint insert_parts (current : JsonValue) (parts : list string) (value : JsonValue) : JsonValue :=
  match parts with
  | [] => current
  | [part] =>
      match current with
      | JObject map => JObject (obj_insert map part value)
      | _ => current
      end
  | part :: rest =>
      match current with
      | JObject map =>
          let map := if map_contains_key map part then map else obj_insert map part empty_object in
          match map_get_mut map part with
          | Some (next, put) => JObject (put (insert_parts next rest value))
          | None => JObject map
          end
      | _ => current
      end
  end.
(** A path that does not resolve: its parts are created. *)
Definition payload_fallback (snapshot : JsonValue) (path : string) (value : JsonValue) : JsonValue :=
  let parts := split_char "." path in
  if (Nat.eqb (length parts) 1 && negb (contains "[" path))%bool then
    match snapshot with
    | JObject map => JObject (obj_insert map path value)
    | _ => snapshot
    end
  else insert_parts snapshot parts value.
Definition payload_update (snapshot : JsonValue) (path : string) (value : JsonValue) : JsonValue :=
  match resolve_path_mut snapshot path with
  | Some (_, put) => put value
  | None => payload_fallback snapshot path value
  end.

(** [inner.version = inner.version.checked_add(1).ok_or(VersionOverflow)?]. *)
Definition advance (st : LogState) : LogState * Result unit FactsLogError :=
  match u64_checked_add (version st) 1 with
  | Some v => (mk_state (current_snapshot st) (current_queue st) v (last_stable_version st), Ok tt)
  | None => (st, Err VersionOverflow)
  end.
(** [apply_fact_to_state]; the state is the one left when it returns, on the
    error path too. *)
Definition apply_fact_to_state (st : LogState) (fact : Fact) :
    LogState * Result unit FactsLogError :=
  match fact with
  | StateTransition _ _ new_payload new_queue =>
      advance (mk_state new_payload new_queue (version st) (last_stable_version st))
  | IoResponse _ _ _ _ => advance st
  | Stable _ _ =>
      (mk_state (current_snapshot st) (current_queue st) (version st) (version st), Ok tt)
  | PayloadUpdate _ path value =>
      advance (mk_state (payload_update (current_snapshot st) path value) (current_queue st)
                 (version st) (last_stable_version st))
  | Command _ _ | IoRequest _ _ _ _ | FError _ _ | TransitionTrace _ _ _
  | Violation _ _ _ _ _ => (st, Ok tt)
  end.

(** * Indexes *)

(** [BTreeMap<u64, usize>]: [entry(k).or_insert(i)] and
    [range(from..).next()]. *)
Fixpoint version_or_insert (m : list (Z * nat)) (k : Z) (i : nat) : list (Z * nat) :=
  match m with
  | [] => [(k, i)]
  | (k', i') :: m' =>
      if (k <? k')%Z then (k, i) :: m
      else if (k =? k')%Z then m
      else (k', i') :: version_or_insert m' k i
  end.
Fixpoint version_range_first (m : list (Z * nat)) (from : Z) : option nat :=
  match m with
  | [] => None
  | (k, i) :: m' => if (from <=? k)%Z then Some i else version_range_first m' from
  end.
Definition index_empty : LogIndex := mk_index [] ∅ map_new.
Definition index_fact (ix : LogIndex) (idx : nat) (version_before : Z) (fact : Fact) : LogIndex :=
  mk_index (version_or_insert (version_index ix) version_before idx)
    (<[fact_id fact := idx]> (fact_id_index ix))
    match fact with
    | PayloadUpdate _ path _ =>
        obj_insert (path_index ix) path (default [] (map_get (path_index ix) path) ++ [idx])
    | _ => path_index ix
    end.
(** The rebuilding loop of [compact], from index [idx]. *)
Fixpoint index_all (ix : LogIndex) (idx : nat) (history : list (Z * Fact)) : LogIndex :=
  match history with
  | [] => ix
  | (v, f) :: rest => index_all (index_fact ix idx v f) (S idx) rest
  end.

(** Push a fact to the history and index it. *)
Definition push_fact {S} (inner : FactsLogInner S) (version_before : Z) (fact : Fact) :
    FactsLogInner S :=
  let history' := history inner ++ [(version_before, fact)] in
  let idx := Nat.pred (length history') in
  mk_inner history' (log_state inner) (last_hash inner) (wal inner) (log_fsync_on_flush inner)
    (log_max_wal_size_bytes inner) (index_fact (log_index inner) idx version_before fact)
    (compacted_snapshot inner) (next_anchor_id inner).
Definition set_log_state {S} (inner : FactsLogInner S) (st : LogState) : FactsLogInner S :=
  mk_inner (history inner) st (last_hash inner) (wal inner) (log_fsync_on_flush inner)
    (log_max_wal_size_bytes inner) (log_index inner) (compacted_snapshot inner)
    (next_anchor_id inner).
Definition set_last_hash {S} (inner : FactsLogInner S) (h : string) : FactsLogInner S :=
  mk_inner (history inner) (log_state inner) h (wal inner) (log_fsync_on_flush inner)
    (log_max_wal_size_bytes inner) (log_index inner) (compacted_snapshot inner)
    (next_anchor_id inner).
Definition set_wal {S} (inner : FactsLogInner S) (w : option S) : FactsLogInner S :=
  mk_inner (history inner) (log_state inner) (last_hash inner) w (log_fsync_on_flush inner)
    (log_max_wal_size_bytes inner) (log_index inner) (compacted_snapshot inner)
    (next_anchor_id inner).

(** * Constructors *)

Definition WAL_FAIL_TERMINATE_THRESHOLD : Z := 3.
Definition wal_failure_guidance (error_msg : string) : string :=
  "审计日志(WAL)写入已连续 " +:+ pretty WAL_FAIL_TERMINATE_THRESHOLD +:+
  " 次失败，本会话已被终止以保证可回放性不被静默破坏。错误详情: " +:+ error_msg +:+
  "。该故障源于磁盘/权限等部署环境问题，请按以下顺序排查：
1. 检查磁盘空间是否已满（df -h / Windows 资源管理器查看 WAL 所在盘剩余空间），清理后重启服务即可自动恢复；
2. 检查进程对 WAL 目录是否有写权限（目录可能被迁移或 ACL 变更）；
3. 若 WAL 位于网络盘/NAS，检查挂载是否掉线；
4. 排查后重启 evorule-server；recover 会从已有 WAL 完整重建状态，不丢数据。
注意：本会话中断前的事实已在最后成功写入的 WAL 记录内，重启后可通过 /replay 审计。".

Definition with_inner {S} (inner : FactsLogInner S) : FactsLog S := mk_log inner 0 false [].
Definition state_new : LogState := mk_state empty_object [] 0 0.
Definition inner_new {S} (w : option S) (fsync : bool) (max_wal_size_bytes : Z) : FactsLogInner S :=
  mk_inner [] state_new "genesis" w fsync max_wal_size_bytes index_empty None 1000000000.
Definition log_new {S} : FactsLog S := with_inner (inner_new None false DEFAULT_MAX_WAL_SIZE_BYTES).
Definition with_wal_store {S} (store : S) : FactsLog S :=
  with_inner (inner_new (Some store) false DEFAULT_MAX_WAL_SIZE_BYTES).
Definition map_inner {S} (log : FactsLog S) (f : FactsLogInner S -> FactsLogInner S) : FactsLog S :=
  mk_log (f (inner log)) (wal_fail_count log) (on_wal_failure_exhausted log) (escalations log).
Definition with_initial_payload {S} (payload : JsonValue) : FactsLog S :=
  map_inner log_new (fun i => set_log_state i (mk_state payload [] 0 0)).
Definition set_on_wal_failure_exhausted {S} (log : FactsLog S) : FactsLog S :=
  mk_log (inner log) (wal_fail_count log) true (escalations log).
(** The file backend, as the store of a log. *)
Definition with_wal_options (fs : Files) (path : WalPath) (max_size : Z) (fsync : bool) :
    FactsLog (Files * WalWriter) :=
  with_inner (inner_new (Some (create_with_options fs path max_size fsync)) fsync max_size).
Definition with_wal_and_fsync (fs : Files) (path : WalPath) (fsync : bool) :
    FactsLog (Files * WalWriter) :=
  with_wal_options fs path DEFAULT_MAX_WAL_SIZE_BYTES fsync.
Definition with_wal (fs : Files) (path : WalPath) : FactsLog (Files * WalWriter) :=
  with_wal_and_fsync fs path false.

Section FactsLogOps.
Context {N S : Type} `{SerdeNumber N, SerdeText N, Blake3, FactWalStore S}.

(** * Appending *)

(** The write-ahead step of [append]: the store and the failure bookkeeping
    after it, and its verdict. *)
Definition write_ahead (log : FactsLog S) (version_before : Z) (fact : Fact)
    (content_hash prev_hash chain_hash : string) : FactsLog S * Result unit FactsLogError :=
  match wal (inner log) with
  | None => (log, Ok tt)
  | Some store =>
      let '(store', r) :=
        append_record_with_hash store version_before fact content_hash prev_hash chain_hash in
      let inner' := set_wal (inner log) (Some store') in
      match r with
      | Ok _ => (mk_log inner' 0 (on_wal_failure_exhausted log) (escalations log), Ok tt)
      | Err e =>
          let fail_count := u64_wrapping_add (wal_fail_count log) 1 in
          if (WAL_FAIL_TERMINATE_THRESHOLD <=? fail_count)%Z then
            let guidance := wal_failure_guidance (wal_error_display e) in
            (mk_log inner' fail_count (on_wal_failure_exhausted log)
               (escalations log ++ if on_wal_failure_exhausted log then [guidance] else []),
             Err (WalErr guidance))
          else
            (mk_log inner' fail_count (on_wal_failure_exhausted log) (escalations log),
             Err (WalErr ("WAL write failed (consecutive #" +:+ pretty fail_count +:+ "/"
                          +:+ pretty WAL_FAIL_TERMINATE_THRESHOLD +:+ "): "
                          +:+ wal_error_display e)))
      end
  end.
Definition append (log : FactsLog S) (fact : Fact) : FactsLog S * Result Z FactsLogError :=
  let version_before := version (log_state (inner log)) in
  match fact_hash fact with
  | Err e => (log, Err (HashErr ("hash error: " +:+ hash_error_display e)))
  | Ok content_hash =>
      let prev_hash := last_hash (inner log) in
      let chain_hash := chain_step prev_hash content_hash in
      match write_ahead log version_before fact content_hash prev_hash chain_hash with
      | (log, Err e) => (log, Err e)
      | (log, Ok _) =>
          let log := map_inner log (fun i => set_last_hash i chain_hash) in
          match apply_fact_to_state (log_state (inner log)) fact with
          | (st, Err e) => (map_inner log (fun i => set_log_state i st), Err e)
          | (st, Ok _) =>
              (map_inner log (fun i => push_fact (set_log_state i st) version_before fact),
               Ok (version st))
          end
      end
  end.
(** [append_async] runs [append] on another thread and adds no state. *)
Definition append_async (log : FactsLog S) (fact : Fact) : FactsLog S * Result Z FactsLogError :=
  append log fact.

Definition set_initial_state (log : FactsLog S) (payload : JsonValue) (version : Z) : FactsLog S :=
  let digest := match content_hash payload with Ok d => d | Err _ => "" end in
  let anchor_value := object_from_pairs
    [("digest", JString digest); ("version", JInteger (u64_as_i64 version))] in
  let anchor_id := next_anchor_id (inner log) in
  let log := map_inner log (fun i =>
    mk_inner (history i) (log_state i) (last_hash i) (wal i) (log_fsync_on_flush i)
      (log_max_wal_size_bytes i) (log_index i) (compacted_snapshot i)
      (u64_saturating_add anchor_id 1)) in
  let fact := PayloadUpdate anchor_id "__fork__.initial_state" anchor_value in
  let log := fst (append log fact) in
  map_inner log (fun i =>
    set_log_state i (mk_state payload (current_queue (log_state i)) version version)).

(** * Reading *)

Definition snapshot (log : FactsLog S) : JsonValue * list JsonValue * Z :=
  let st := log_state (inner log) in (current_snapshot st, current_queue st, version st).
Definition read_from (log : FactsLog S) (from_version : Z) : Result (list Fact) FactsLogError :=
  let inner := inner log in
  let read :=
    let start := default (length (history inner))
                   (version_range_first (version_index (log_index inner)) from_version) in
    Ok (map snd (drop start (history inner))) in
  match compacted_snapshot inner with
  | Some compacted =>
      if (from_version <? cs_version compacted)%Z then
        Err (CompactedRead from_version (cs_version compacted) (compacted_count compacted))
      else read
  | None => read
  end.
Definition log_version (log : FactsLog S) : Z := version (log_state (inner log)).
Definition log_last_stable_version (log : FactsLog S) : Z :=
  last_stable_version (log_state (inner log)).
Definition log_last_hash (log : FactsLog S) : string := last_hash (inner log).
Definition history_len (log : FactsLog S) : nat := length (history (inner log)).
Definition log_history (log : FactsLog S) : list Fact := map snd (history (inner log)).
(** The facts the callback of [for_each_fact_from] is called with, in order,
    and the count it returns. *)
Definition for_each_fact_from (log : FactsLog S) (start : nat) : list (Z * Fact) * nat :=
  if (start <=? length (history (inner log)))%nat then
    let tail := drop start (history (inner log)) in (tail, length tail)
  else ([], O).
Definition history_with_versions (log : FactsLog S) : list (Z * Fact) := history (inner log).
Definition history_last_with_versions (log : FactsLog S) (n : nat) : list (Z * Fact) :=
  let history := history (inner log) in
  drop (length history - n) history.
(** [path_index.range(prefix..)], up to the first key without the prefix. *)
Fixpoint prefix_indices (m : ObjectMap (list nat)) (prefix : string) : list nat :=
  match m with
  | [] => []
  | (path, indices) :: m' =>
      if String.ltb path prefix then prefix_indices m' prefix
      else if negb (starts_with prefix path) then []
      else indices ++ prefix_indices m' prefix
  end.
Definition facts_by_path_prefix (log : FactsLog S) (prefix : string) : list (Z * Fact) :=
  omap (fun idx => history (inner log) !! idx)
    (prefix_indices (path_index (log_index (inner log))) prefix).

(** * Maintenance *)

Definition reset (log : FactsLog S) : FactsLog S :=
  map_inner log (fun i =>
    mk_inner [] state_new "genesis" None (log_fsync_on_flush i) (log_max_wal_size_bytes i)
      index_empty None (next_anchor_id i)).
Fixpoint position_after (history : list (Z * Fact)) (v : Z) : option nat :=
  match history with
  | [] => None
  | (vb, _) :: rest =>
      if (v <? vb)%Z then Some O else Datatypes.S <$> position_after rest v
  end.
(** [compact]: the returned ratio as the dropped and the total count. *)
Definition compact (log : FactsLog S) : FactsLog S * (nat * nat) :=
  let i := inner log in
  let st := log_state i in
  let split_point := default (length (history i)) (position_after (history i) (last_stable_version st)) in
  if Nat.eqb split_point 0 then (log, (O, 1%nat))
  else
    let total_before := length (history i) in
    let history' := drop split_point (history i) in
    (map_inner log (fun i =>
       mk_inner history' st (last_hash i) (wal i) (log_fsync_on_flush i)
         (log_max_wal_size_bytes i) (index_all index_empty 0 history')
         (Some (mk_compacted (last_stable_version st) (current_snapshot st) (current_queue st)
                  (last_hash i) split_point))
         (next_anchor_id i)),
     (split_point, total_before)).
Definition compacted_info (log : FactsLog S) : option (Z * nat) :=
  (fun c => (cs_version c, compacted_count c)) <$> compacted_snapshot (inner log).
Definition rotate_wal (log : FactsLog S) : FactsLog S * Result bool FactsLogError :=
  match wal (inner log) with
  | None => (log, Ok false)
  | Some store =>
      let '(store', r) := store_rotate store in
      (map_inner log (fun i => set_wal i (Some store')),
       match r with Ok b => Ok b | Err e => Err (WalErr (wal_error_display e)) end)
  end.

(** * Replay and recovery *)

(** The loop of [replay_wal_records]. *)
Fixpoint replay_loop (inner : FactsLogInner S) (records : list WalRecord) :
    Result (FactsLogInner S) FactsLogError :=
  match records with
  | [] => Ok inner
  | r :: rest =>
      let inner := push_fact inner (version_before r) (rec_fact r) in
      match apply_fact_to_state (log_state inner) (rec_fact r) with
      | (_, Err e) => Err e
      | (st, Ok _) => replay_loop (set_log_state inner st) rest
      end
  end.
Definition recomputed_hash (records : list WalRecord) : Result string FactsLogError :=
  match compute_chain_hash (map rec_fact records) with
  | Ok h => Ok h
  | Err e => Err (WalErr ("hash recover error: " +:+ hash_error_display e))
  end.
Definition replay_wal_records (records : list WalRecord) : Result (FactsLog S) FactsLogError :=
  let log := log_new in
  let? i := replay_loop (inner log) records in
  let has_hash_records := existsb (fun r => is_some (rec_chain_hash r)) records in
  let? h :=
    if has_hash_records then
      match last records with
      | Some last_record =>
          match rec_chain_hash last_record with
          | Some chain_hash => Ok chain_hash
          | None => recomputed_hash records
          end
      | None => Ok (last_hash i)
      end
    else recomputed_hash records in
  Ok (map_inner log (fun _ => set_last_hash i h)).
End FactsLogOps.

Section Recover.
Context {N : Type} `{SerdeNumber N, SerdeText N, Blake3}.

(** [recover_with_options]; [None] would be a loop that does not end. *)
Definition recover_with_options (fs : Files) (path : WalPath) (max_size : Z) (fsync : bool) :
    option (Result (FactsLog (Files * WalWriter)) FactsLogError) :=
  let! read := read_wal_with_hash fs path in
  match read with
  | Err e => Some (Err (WalErr (wal_error_display e)))
  | Ok records =>
      match replay_wal_records (S := Files * WalWriter) records with
      | Err e => Some (Err e)
      | Ok log =>
          let! store := append_with_options fs path max_size fsync in
          Some (Ok (map_inner log (fun i =>
            mk_inner (history i) (log_state i) (last_hash i) (Some store) fsync max_size
              (log_index i) (compacted_snapshot i) (next_anchor_id i))))
      end
  end.
Definition recover_with_fsync (fs : Files) (path : WalPath) (fsync : bool) :=
  recover_with_options fs path DEFAULT_MAX_WAL_SIZE_BYTES fsync.
Definition recover (fs : Files) (path : WalPath) := recover_with_fsync fs path false.
End Recover.
