(* ===== verification/FactsLogSpec.v ===== *)
(** Theorems about the facts log: its invariant over all reachable logs,
    what the indexed reads return, compaction, write-ahead atomicity, and
    recovery from any store that keeps its contract. *)

From S2P Require Import Prelude ObjectMap Value Error Path Domain Executor ExecSemantics Transition Fact Serde Hash Wal WalFile FactsLog.

(** * Versions *)

(** The facts that advance the version. *)
Definition bumps (fact : Fact) : bool :=
  match fact with
  | StateTransition _ _ _ _ | IoResponse _ _ _ _ | PayloadUpdate _ _ _ => true
  | _ => false
  end.
Definition version_after (v : Z) (fact : Fact) : Z := if bumps fact then (v + 1)%Z else v.
Definition is_stable (fact : Fact) : bool :=
  match fact with Stable _ _ => true | _ => false end.

(** The state a fact leaves, apart from the overflow check. *)
Definition next_state (st : LogState) (fact : Fact) : LogState :=
  mk_state
    match fact with
    | StateTransition _ _ new_payload _ => new_payload
    | PayloadUpdate _ path value => payload_update (current_snapshot st) path value
    | _ => current_snapshot st
    end
    match fact with StateTransition _ _ _ new_queue => new_queue | _ => current_queue st end
    (version_after (version st) fact)
    (if is_stable fact then version st else last_stable_version st).

Lemma apply_fact_spec st fact :
  if bumps fact && (u64_max <=? version st)%Z then snd (apply_fact_to_state st fact) = Err VersionOverflow
  else apply_fact_to_state st fact = (next_state st fact, Ok tt).
Proof.
  destruct st as [p q v s]. cbn [version].
  destruct fact; cbn; unfold advance, u64_checked_add; cbn;
    (destruct (Z.leb_spec u64_max v); destruct (Z.leb_spec (v + 1) u64_max); try lia; done)
    || done.
Qed.
Lemma apply_fact_Ok st fact st' u :
  apply_fact_to_state st fact = (st', Ok u) ->
  st' = next_state st fact /\ (bumps fact = true -> (version st < u64_max)%Z).
Proof.
  intros Ha. pose proof (apply_fact_spec st fact) as Hs. rewrite Ha in Hs.
  destruct (bumps fact) eqn:Hb; cbn [andb] in Hs.
  - destruct (Z.leb_spec u64_max (version st)); [done|]. by injection Hs as ->.
  - by injection Hs as ->.
Qed.
Lemma next_version st fact :
  version (next_state st fact) = version_after (version st) fact.
Proof. done. Qed.
Lemma version_after_ge v fact : (v <= version_after v fact)%Z.
Proof. unfold version_after. destruct (bumps fact); lia. Qed.

(** * The indexes of a history *)

Lemma index_all_app ix idx h1 h2 :
  index_all ix idx (h1 ++ h2) = index_all (index_all ix idx h1) (idx + length h1) h2.
Proof.
  revert ix idx. induction h1 as [|[v f] h1 IH]; intros ix idx; cbn; [by rewrite Nat.add_0_r|].
  rewrite IH. f_equal. lia.
Qed.
Definition indexes_of (h : list (Z * Fact)) : LogIndex := index_all index_empty 0 h.
Lemma indexes_snoc h v f :
  indexes_of (h ++ [(v, f)]) = index_fact (indexes_of h) (length h) v f.
Proof. unfold indexes_of. by rewrite index_all_app. Qed.

(** [version_index] gives the first position of each version. *)
Fixpoint first_at (h : list (Z * Fact)) (p : Z -> bool) : option nat :=
  match h with
  | [] => None
  | (v, _) :: h' => if p v then Some O else S <$> first_at h' p
  end.
Lemma first_at_snoc h v f p :
  first_at (h ++ [(v, f)]) p =
  match first_at h p with
  | Some i => Some i
  | None => if p v then Some (length h) else None
  end.
Proof.
  induction h as [|[w g] h IH]; cbn; [by destruct (p v)|].
  destruct (p w); [done|]. rewrite IH.
  destruct (first_at h p); cbn; [done|]. by destruct (p v).
Qed.
Lemma first_at_None h p v f : first_at h p = None -> In (v, f) h -> p v = false.
Proof.
  induction h as [|[w g] h IH]; cbn; [done|]. destruct (p w) eqn:E; [done|].
  intros Hn [[= -> ->]|Hin]; [done|]. apply IH; [|done]. by destruct (first_at h p).
Qed.

(** On a history in version order, reading from a version through the index
    is reading every fact at or after that version. *)
Definition versions_sorted (h : list (Z * Fact)) : Prop := StronglySorted Z.le (map fst h).
Lemma version_or_insert_In m v i k j :
  In (k, j) (version_or_insert m v i) -> (k, j) = (v, i) \/ In (k, j) m.
Proof.
  induction m as [|[k' i'] m IH]; cbn; [naive_solver|].
  destruct (v <? k')%Z; [cbn; naive_solver|]. destruct (v =? k')%Z; cbn; naive_solver.
Qed.
Lemma version_index_In h k j :
  In (k, j) (version_index (indexes_of h)) -> exists f, In (k, f) h.
Proof.
  induction h as [|[v f] h IH] using rev_ind; [done|]. rewrite indexes_snoc. cbn.
  intros [[= -> ->]|Hin]%version_or_insert_In.
  - exists f. apply in_or_app. by right; left.
  - destruct (IH Hin) as [g Hg]. exists g. apply in_or_app. by left.
Qed.
Lemma version_range_None m v from :
  (forall k j, In (k, j) m -> (k <= v)%Z) -> (v < from)%Z -> version_range_first m from = None.
Proof.
  intros Hm Hv. induction m as [|[k i] m IH]; cbn; [done|].
  destruct (Z.leb_spec from k) as [Hle|]; [|apply IH; naive_solver].
  specialize (Hm k i (or_introl eq_refl)). lia.
Qed.
Lemma version_range_or_insert m v i from :
  (forall k j, In (k, j) m -> (k <= v)%Z) ->
  version_range_first (version_or_insert m v i) from =
  match version_range_first m from with
  | Some j => Some j
  | None => if (from <=? v)%Z then Some i else None
  end.
Proof.
  induction m as [|[k j] m IH]; intros Hm; cbn; [done|].
  pose proof (Hm k j (or_introl eq_refl)) as Hk.
  assert (forall k j, In (k, j) m -> (k <= v)%Z) as Hm' by (intros; eapply Hm; by right).
  destruct (Z.ltb_spec v k); [lia|]. destruct (Z.eqb_spec v k) as [->|]; cbn.
  - destruct (Z.leb_spec from k); [done|]. by rewrite (version_range_None m k) by (done || lia).
  - destruct (Z.leb_spec from k); [done|]. by apply IH.
Qed.

Lemma versions_sorted_snoc h v f :
  versions_sorted (h ++ [(v, f)]) <->
  versions_sorted h /\ forall w g, In (w, g) h -> (w <= v)%Z.
Proof.
  unfold versions_sorted. rewrite map_app. cbn. split.
  - induction h as [|[w g] h IH]; cbn; [intros _; split; [constructor|done]|].
    intros Hs. inv Hs as [|? ? Hs' Hf]. destruct (IH Hs') as [Hh Hv]. split.
    + constructor; [done|]. by apply Forall_app in Hf as [? _].
    + intros w' g' [[= -> ->]|Hin]; [|by eapply Hv].
      apply Forall_app in Hf as [_ Hf]. by inv Hf.
  - intros [Hs Hv]. induction h as [|[w g] h IH]; cbn; [repeat constructor|].
    inv Hs as [|? ? Hs' Hf]. constructor.
    + apply IH; [done|]. intros. eapply Hv. by right.
    + apply Forall_app. split; [done|]. constructor; [|done]. apply (Hv w g). by left.
Qed.
Lemma version_index_range h from :
  versions_sorted h ->
  version_range_first (version_index (indexes_of h)) from = first_at h (Z.leb from).
Proof.
  induction h as [|[v f] h IH] using rev_ind; [done|].
  intros [Hs Hv]%versions_sorted_snoc. rewrite indexes_snoc, first_at_snoc. cbn.
  rewrite version_range_or_insert, IH by (try done; intros k j [g Hg]%version_index_In; by eapply Hv).
  done.
Qed.
Lemma drop_first_at h from :
  versions_sorted h ->
  drop (default (length h) (first_at h (Z.leb from))) h =
  List.filter (fun vf => (from <=? fst vf)%Z) h.
Proof.
  unfold versions_sorted. induction h as [|[v f] h IH]; cbn; [done|]. intros Hs. inv Hs as [|? ? Hs' Hf].
  destruct (Z.leb_spec from v) as [Hle|Hgt]; cbn.
  - f_equal. symmetry. clear -Hle Hf. induction h as [|[w g] h IH]; cbn in *; [done|].
    inv Hf. destruct (Z.leb_spec from w); [by rewrite IH|lia].
  - rewrite <- IH by done. by destruct (first_at h (Z.leb from)).
Qed.

(** [path_index] gives the positions of the updates of each path. *)
Definition update_path (fact : Fact) : option string :=
  match fact with PayloadUpdate _ path _ => Some path | _ => None end.
Definition path_at (h : list (Z * Fact)) (i : nat) : option string :=
  let! vf := h !! i in update_path (snd vf).
Definition path_index_ok (m : ObjectMap (list nat)) (h : list (Z * Fact)) : Prop :=
  keys_sorted m /\
  (forall k idxs, map_get m k = Some idxs -> NoDup idxs /\ forall i, i ∈ idxs <-> path_at h i = Some k) /\
  (forall i k, path_at h i = Some k -> is_Some (map_get m k)).

Lemma path_at_snoc h v f i :
  path_at (h ++ [(v, f)]) i = if decide (i = length h) then update_path f else path_at h i.
Proof.
  unfold path_at. destruct (decide (i = length h)) as [->|Hne].
  - by rewrite lookup_app_r, Nat.sub_diag by lia.
  - destruct (decide (i < length h)).
    + by rewrite lookup_app_l by done.
    + rewrite !lookup_ge_None_2; [done|lia|rewrite length_app; cbn; lia].
Qed.
Lemma path_at_lt h i k : path_at h i = Some k -> i < length h.
Proof. unfold path_at. destruct (h !! i) eqn:E; [|done]. intros _. by eapply lookup_lt_Some. Qed.

Lemma path_index_correct h : path_index_ok (path_index (indexes_of h)) h.
Proof.
  induction h as [|[v f] h (Hs & Hm & Hp)] using rev_ind.
  { split_and!; [apply keys_sorted_nil|done|]. intros i k. by unfold path_at. }
  rewrite indexes_snoc. cbn [index_fact path_index].
  destruct (update_path f) as [p|] eqn:Hf; [destruct f; try done; injection Hf as ->|].
  - set (m := path_index (indexes_of h)) in *. split_and!; [by apply obj_insert_sorted| |].
    + intros k idxs. destruct (decide (p = k)) as [->|Hne].
      * rewrite map_get_insert_eq. intros [= <-].
        assert (forall i, i ∈ default [] (map_get m k) <-> path_at h i = Some k) as Hold.
        { intros i. destruct (map_get m k) as [idxs|] eqn:E; [by apply (Hm k)|]. cbn. split.
          - by intros ?%not_elem_of_nil.
          - intros Hi. apply Hp in Hi as [? Hi]. fold m in Hi. congruence. }
        split.
        -- apply NoDup_app. split_and!.
           ++ destruct (map_get m k) as [idxs|] eqn:E; [by apply (Hm k)|constructor].
           ++ intros i Hi%Hold%path_at_lt Hi'%list_elem_of_singleton. lia.
           ++ apply NoDup_singleton.
        -- intros i. rewrite elem_of_app, Hold, list_elem_of_singleton, path_at_snoc. cbn.
           destruct (decide (i = length h)) as [->|]; [naive_solver|]. naive_solver.
      * rewrite map_get_insert_ne by done. intros Hk. destruct (Hm k idxs Hk) as [Hnd Hi].
        split; [done|]. intros i. rewrite Hi, path_at_snoc. cbn.
        destruct (decide (i = length h)) as [->|]; [|done]. split; [|congruence].
        intros Hl%path_at_lt. lia.
    + intros i k. rewrite path_at_snoc. cbn. destruct (decide (p = k)) as [->|Hne].
      * intros _. rewrite map_get_insert_eq. by eexists.
      * rewrite map_get_insert_ne by done. destruct (decide (i = length h)); [congruence|]. apply Hp.
  - replace (match f with PayloadUpdate _ path _ => _ | _ => path_index (indexes_of h) end)
      with (path_index (indexes_of h)) by by destruct f.
    assert (forall i, path_at (h ++ [(v, f)]) i = path_at h i) as Heq.
    { intros i. rewrite path_at_snoc, Hf. destruct (decide (i = length h)) as [->|]; [|done].
      unfold path_at. by rewrite lookup_ge_None_2 by done. }
    split_and!; [done| |].
    + intros k idxs Hk. destruct (Hm k idxs Hk) as [Hnd Hi]. split; [done|].
      intros i. by rewrite Heq.
    + intros i k. rewrite Heq. apply Hp.
Qed.

(** * Prefix queries *)

(** In byte order the keys with a prefix follow each other, from the first key
    not below the prefix. *)
Lemma ascii_compare_refl c : Ascii.compare c c = Eq.
Proof. unfold Ascii.compare. by rewrite N.compare_refl. Qed.
Lemma starts_with_not_lt p k : starts_with p k = true -> String.ltb k p = false.
Proof.
  unfold starts_with, String.ltb. revert k. induction p as [|c p IH]; intros [|d k]; cbn; try done.
  destruct (ascii_dec c d) as [->|]; [|done]. intros Hk%IH. by rewrite ascii_compare_refl.
Qed.
Lemma starts_with_contiguous p k1 k2 :
  String.ltb k1 p = false -> str_lt k1 k2 -> starts_with p k2 = true -> starts_with p k1 = true.
Proof.
  unfold starts_with, String.ltb, str_lt. revert k1 k2.
  induction p as [|c p IH]; intros k1 k2; [by destruct k1|].
  destruct k1 as [|d k1]; [done|]. destruct k2 as [|e k2]; [done|]. cbn.
  destruct (ascii_dec c e) as [->|]; [|done]. intros H1 H2 Hp.
  destruct (Ascii.compare d e) eqn:E; try done.
  apply Ascii.compare_eq_iff in E as ->.
  destruct (ascii_dec e e); [|done]. by eapply IH.
Qed.

Lemma prefix_indices_none {V} (m : ObjectMap V) p k0 :
  keys_sorted m -> Forall (fun k => str_lt k0 k) (map fst m) ->
  String.ltb k0 p = false -> starts_with p k0 = false ->
  forall k idxs, map_get m k = Some idxs -> starts_with p k = false.
Proof.
  intros Hs Hb Hk0 Hp k idxs Hk%map_get_In. apply not_true_iff_false. intros Hpk.
  rewrite List.Forall_forall in Hb. specialize (Hb k (in_map fst _ _ Hk)).
  by rewrite (starts_with_contiguous p k0 k) in Hp.
Qed.
(** A prefix query collects the positions listed under the matching keys. *)
Lemma prefix_indices_spec (m : ObjectMap (list nat)) p :
  keys_sorted m ->
  (forall k idxs, map_get m k = Some idxs -> NoDup idxs) ->
  (forall k1 k2 l1 l2 i, map_get m k1 = Some l1 -> map_get m k2 = Some l2 ->
     i ∈ l1 -> i ∈ l2 -> k1 = k2) ->
  NoDup (prefix_indices m p) /\
  forall i, i ∈ prefix_indices m p <->
    exists k idxs, map_get m k = Some idxs /\ starts_with p k = true /\ i ∈ idxs.
Proof.
  induction m as [|[k0 l0] m IH]; intros Hs Hnd Hdis.
  { split; [constructor|]. intros i. split; [by intros ?%not_elem_of_nil|]. by intros (? & ? & ? & _). }
  apply keys_sorted_cons in Hs as [Hs Hb].
  assert (map_get ((k0, l0) :: m) k0 = Some l0) as H0.
  { rewrite map_get_find. cbn. by rewrite String.eqb_refl. }
  assert (forall k l, map_get m k = Some l -> map_get ((k0, l0) :: m) k = Some l) as Htail.
  { intros k l Hk. apply map_get_In_sorted; [by apply keys_sorted_cons|]. right.
    by apply map_get_In. }
  assert (forall k l, map_get ((k0, l0) :: m) k = Some l -> (k, l) = (k0, l0) \/ map_get m k = Some l)
    as Hcons.
  { intros k l [Hin|Hin]%map_get_In; [by left|right]. by apply map_get_In_sorted. }
  destruct IH as [IHnd IHi]; [done|eauto|eauto|].
  cbn [prefix_indices]. destruct (String.ltb k0 p) eqn:Hlt; [|destruct (starts_with p k0) eqn:Hp; cbn [negb]].
  - split; [done|]. intros i. rewrite IHi. split; [naive_solver|].
    intros (k & l & [[= -> ->]|Hk]%Hcons & Hpk & Hi); [|naive_solver].
    by rewrite (starts_with_not_lt _ _ Hpk) in Hlt.
  - split.
    + apply NoDup_app. split_and!; [by eapply Hnd| |done].
      intros i Hi (k & l & Hk & _ & Hi')%IHi.
      assert (k0 = k) as -> by eauto. apply map_get_In in Hk.
      rewrite List.Forall_forall in Hb. by apply (str_lt_irrefl k), Hb, (in_map fst _ (k, l)).
    + intros i. rewrite elem_of_app, IHi. split.
      * intros [Hi|?]; [|naive_solver]. by exists k0, l0.
      * intros (k & l & [[= -> ->]|Hk]%Hcons & Hpk & Hi); naive_solver.
  - split; [constructor|]. intros i. split; [by intros ?%not_elem_of_nil|].
    intros (k & l & [[= -> ->]|Hk]%Hcons & Hpk & Hi); [congruence|].
    by rewrite (prefix_indices_none m p k0 Hs Hb Hlt Hp k l Hk) in Hpk.
Qed.

Definition update_with_prefix (prefix : string) (vf : Z * Fact) : bool :=
  match update_path (snd vf) with Some path => starts_with prefix path | None => false end.
(** Positions, in order, of the entries that satisfy a test. *)
Fixpoint positions {A} (p : A -> bool) (idx : nat) (l : list A) : list nat :=
  match l with
  | [] => []
  | x :: l' => if p x then idx :: positions p (S idx) l' else positions p (S idx) l'
  end.
Lemma positions_spec {A} (p : A -> bool) l idx i :
  i ∈ positions p idx l <-> exists j x, i = idx + j /\ l !! j = Some x /\ p x = true.
Proof.
  revert idx. induction l as [|x l IH]; intros idx; cbn.
  - split; [by intros ?%not_elem_of_nil|]. by intros (? & ? & _ & ? & _).
  - assert (i ∈ positions p (S idx) l <-> exists j y, i = idx + S j /\ (x :: l) !! S j = Some y /\ p y = true)
      as Hl. { rewrite IH. setoid_rewrite Nat.add_succ_comm. done. }
    destruct (p x) eqn:E; rewrite ?elem_of_cons, Hl.
    + split.
      * intros [->|(j & y & ?)]; [exists 0, x; split_and!; [lia|done|done]|by exists (S j), y].
      * intros ([|j] & y & Hi & Hy & Hp); [left; lia|right; by exists j, y].
    + split; [intros (j & y & ?); by exists (S j), y|].
      intros ([|j] & y & Hi & Hy & Hp); [cbn in Hy; congruence|by exists j, y].
Qed.
Lemma positions_NoDup {A} (p : A -> bool) l idx : NoDup (positions p idx l).
Proof.
  revert idx. induction l as [|x l IH]; intros idx; cbn; [constructor|].
  destruct (p x); [|done]. constructor; [|done]. rewrite positions_spec.
  intros (j & y & ? & _). lia.
Qed.
Lemma positions_lookup {A} (p : A -> bool) (l pre : list A) :
  omap (fun i => (pre ++ l) !! i) (positions p (length pre) l) = List.filter p l.
Proof.
  revert pre. induction l as [|x l IH]; intros pre; cbn; [done|].
  specialize (IH (pre ++ [x])). rewrite <- app_assoc, length_app, Nat.add_1_r in IH. cbn in IH.
  destruct (p x); [|done]. cbn. rewrite lookup_app_r, Nat.sub_diag by lia. cbn. by rewrite IH.
Qed.

Lemma prefix_query_spec (h : list (Z * Fact)) prefix :
  omap (fun idx => h !! idx) (prefix_indices (path_index (indexes_of h)) prefix)
  ≡ₚ List.filter (update_with_prefix prefix) h.
Proof.
  destruct (path_index_correct h) as (Hs & Hm & Hp).
  destruct (prefix_indices_spec (path_index (indexes_of h)) prefix Hs) as [Hnd Hi].
  { intros k idxs Hk. by apply (Hm k). }
  { intros k1 k2 l1 l2 i H1 H2 Hi1 Hi2. apply (Hm k1 l1) in Hi1; [|done].
    apply (Hm k2 l2) in Hi2; [|done]. congruence. }
  rewrite <- (positions_lookup (update_with_prefix prefix) h []). cbn [app length].
  apply omap_Permutation, NoDup_Permutation; [done|apply positions_NoDup|].
  intros i. rewrite Hi, positions_spec. unfold update_with_prefix. split.
  - intros (k & idxs & Hk & Hpk & Hin). apply (Hm k idxs Hk) in Hin.
    unfold path_at in Hin. destruct (h !! i) as [vf|] eqn:E; [|done].
    exists i, vf. split_and!; [done|done|]. by rewrite Hin.
  - intros (j & vf & -> & Hvf & Hpk). cbn. destruct (update_path (snd vf)) as [k|] eqn:E; [|done].
    assert (path_at h j = Some k) as Hat by (unfold path_at; by rewrite Hvf).
    destruct (Hp j k Hat) as [idxs Hk]. exists k, idxs. split_and!; [done|done|].
    by apply (Hm k idxs Hk).
Qed.

(** * What a store promises

    [holds s rs]: the store would give back the records [rs].  An accepted
    append adds exactly that record, with the fact as the store reads it
    back; a refused one adds nothing; a rotation changes nothing. *)
Class FactWalStoreLaws (S : Type) `{FactWalStore S} : Type := {
  holds : S -> list WalRecord -> Prop;
  read_back : Fact -> Fact;
  append_holds s rs v f c p h s' r :
    is_u64 v = true -> wf_fact f = true -> holds s rs ->
    append_record_with_hash s v f c p h = (s', r) ->
    holds s' match r with
             | Ok _ => rs ++ [mk_record v (read_back f) (Some c) (Some p) (Some h)]
             | Err _ => rs
             end;
  rotate_holds s rs s' r : holds s rs -> store_rotate s = (s', r) -> holds s' rs;
  read_back_wf f : wf_fact f = true -> wf_fact (read_back f) = true;
  read_back_norm f : norm_fact (read_back f) = norm_fact f;
}.

#[export] Instance memory_store_laws : FactWalStoreLaws MemoryWalStore.
Proof.
  refine {| holds := fun s rs => s = rs; read_back := fun f => f |}.
  - intros s rs v f c p h s' r _ _ -> [= <- <-]. done.
  - by intros s rs s' r -> [= <- <-].
  - done.
  - done.
Defined.

Definition files_hold {N} `{SerdeNumber N, SerdeText N} (path : WalPath) (st : Files * WalWriter)
    (rs : list WalRecord) : Prop :=
  exists shards, stored (N := N) path st shards /\
    forallb wf_entry (concat shards) = true /\ rs = map entry_record (concat shards).
(** Reading the files gives the records when each fact can be read back, and
    an error when one is too deep for the parser. *)
Lemma files_hold_read {N} `{SerdeNumberLaws N, SerdeText N, !SerdeTextLaws N} path st rs fs :
  files_hold (N := N) path st rs -> map rec_fact rs = map norm_fact fs -> forallb wf_fact fs = true ->
  exists r, read_wal_with_hash (N := N) (fst st) path = Some r /\
    if forallb (readable_fact (N := N)) fs then r = Ok rs else exists err, r = Err err.
Proof.
  intros (sh & Hst & Hwf & ->) Hfs Hwfs. destruct (read_stored_exact path st sh Hst Hwf) as (r & -> & Hr).
  exists r. split; [done|]. unfold reads_back in Hr.
  replace (forallb readable_fact fs) with (forallb (readable_entry (N := N)) (concat sh)); [done|].
  clear -Hwf Hfs Hwfs H0. rewrite map_map in Hfs. revert fs Hfs Hwfs.
  induction (concat sh) as [|e es IH]; intros [|f fs]; try done. cbn [map forallb] in *.
  intros [= Hf Hfs] [Hw1 Hw2]%andb_true_iff. apply andb_true_iff in Hwf as [[_ He]%andb_true_iff Hes].
  f_equal; [|by apply IH]. unfold readable_entry.
  by rewrite <- (readable_norm_fact (N := N) (e_fact e) He), Hf, readable_norm_fact.
Qed.
Lemma norm_fact_idemp f : norm_fact (norm_fact f) = norm_fact f.
Proof.
  assert (forall v, norm_json (norm_json v) = norm_json v) as Hv.
  { induction v as [|b|i|u|s|l IH|m IH] using json_ind; try done; cbn.
    - destruct (is_i64 u) eqn:E; cbn; [done|by rewrite E].
    - f_equal. rewrite map_map. by apply map_ext_Forall.
    - f_equal. rewrite map_map. apply map_ext_Forall. eapply Forall_impl; [done|].
      intros [k x]; cbn. by intros ->. }
  destruct f; cbn; rewrite ?Hv; try done. f_equal. rewrite map_map. apply map_ext. done.
Qed.
Lemma file_store_laws {N} `{SerdeNumberLaws N, SerdeText N, !SerdeTextLaws N} (path : WalPath) :
  FactWalStoreLaws (Files * WalWriter).
Proof.
  refine {| holds := files_hold path; read_back := norm_fact |}.
  - intros [fs w] rs v f c p h s' r Hv Hf (sh & Hst & Hwf & ->).
    cbn [append_record_with_hash wal_writer_store]. unfold writer_append_with_hash.
    pose proof (entry_line_spec (N := N) (mk_entry v f c p h)) as Hl. unfold entry_json in Hl.
    cbn [e_version e_fact e_content e_prev e_chain] in Hl. rewrite Hl. intros [= <- <-].
    destruct (stored_snoc _ _ _ Hst) as (sh' & es & ->).
    assert (wf_entry (mk_entry v f c p h) = true) as He by (unfold wf_entry; cbn; by rewrite Hv).
    destruct (stored_write path fs w sh' es (mk_entry v f c p h) He Hst) as (sh2 & Hst2 & Hc).
    assert (concat sh2 = concat (sh' ++ [es]) ++ [mk_entry v f c p h]) as Hc'.
    { rewrite Hc, concat_app. cbn. by rewrite app_nil_r, <- app_assoc. }
    exists sh2. split_and!; [done| |].
    + rewrite Hc', forallb_app, Hwf. cbn. by rewrite He.
    + by rewrite Hc', map_app.
  - intros [fs w] rs s' r (sh & Hst & Hwf & ->) [= <- <-].
    exists (sh ++ [[]]). split_and!; [by apply stored_rotate|..];
      rewrite concat_app; cbn; by rewrite app_nil_r.
  - apply norm_fact_wf.
  - apply norm_fact_idemp.
Defined.

Lemma object_from_pairs_wf pairs :
  forallb (fun kv => wf_json (snd kv)) pairs = true -> wf_json (object_from_pairs pairs) = true.
Proof.
  intros Hp. apply andb_true_iff. split.
  - apply keys_sortedb_spec, map_from_sorted.
  - apply forallb_forall. intros kv Hin%map_from_In. rewrite forallb_forall in Hp. by apply Hp.
Qed.

(** * Reachable logs *)

Section Reachable.
Context {N S : Type} `{SerdeNumber N, SerdeText N, Blake3, FactWalStoreLaws S}.
Implicit Types (log : FactsLog S) (h : list (Z * Fact)).

(** A log as a constructor makes it. *)
Inductive fresh : FactsLog S -> Prop :=
| fresh_new : fresh log_new
| fresh_payload payload : fresh (with_initial_payload payload)
| fresh_store s fsync max : holds s [] -> fresh (with_inner (inner_new (Some s) fsync max)).
(** The operations of a session. *)
Inductive session_step : FactsLog S -> FactsLog S -> Prop :=
| step_append log f log' r :
    wf_fact f = true -> append (N := N) log f = (log', r) -> r <> Err VersionOverflow ->
    session_step log log'
| step_compact log : session_step log (fst (compact log))
| step_rotate log : session_step log (fst (rotate_wal log))
| step_callback log : session_step log (set_on_wal_failure_exhausted log).
(** With those of the pool and of forks: [set_initial_state] at a version not
    below the log's, which a fork calls on a fresh log (version zero) with the
    version it forks at, zero included.  The append of its anchor fact is
    not refused for an overflow of the version. *)
Inductive log_step : FactsLog S -> FactsLog S -> Prop :=
| step_session log log' : session_step log log' -> log_step log log'
| step_reset log : log_step log (reset log)
| step_initial log payload v :
    (log_version log <= v)%Z -> is_u64 v = true -> (log_version log < u64_max)%Z ->
    log_step log (set_initial_state (N := N) log payload v).

(** What the store has recorded of a history, from one chain hash to the
    next. *)
Inductive recorded (p : string) : list (Z * Fact) -> list WalRecord -> string -> Prop :=
| recorded_nil : recorded p [] [] p
| recorded_snoc h rs q v f c :
    recorded p h rs q -> fact_hash (N := N) f = Ok c ->
    recorded p (h ++ [(v, f)])
      (rs ++ [mk_record v (read_back f) (Some c) (Some q) (Some (chain_step q c))])
      (chain_step q c).
Lemma recorded_chain p h rs q : recorded p h rs q -> chain_from (N := N) p (map snd h) = Ok q.
Proof.
  induction 1 as [|h rs q v f c Hr IH Hf]; [done|].
  rewrite map_app, chain_from_app, IH. cbn. by rewrite Hf.
Qed.

Record log_inv (log : FactsLog S) (dropped : list (Z * Fact)) (rs : list WalRecord) : Prop := {
  inv_index : log_index (inner log) = indexes_of (history (inner log));
  inv_sorted : versions_sorted (history (inner log));
  inv_bound v f : In (v, f) (history (inner log)) -> (0 <= v <= log_version log)%Z;
  inv_stable : (0 <= log_last_stable_version log <= log_version log)%Z;
  inv_version : (log_version log <= u64_max)%Z;
  inv_compacted :
    match compacted_snapshot (inner log) with
    | None => dropped = []
    | Some c =>
        (cs_version c <= log_last_stable_version log)%Z /\
        forall v f, In (v, f) (history (inner log)) -> (cs_version c <= v)%Z
    end;
  inv_wf : Forall (fun vf => wf_fact (snd vf) = true) (dropped ++ history (inner log));
  inv_recorded : recorded "genesis" (dropped ++ history (inner log)) rs (log_last_hash log);
  inv_store : match wal (inner log) with Some s => holds s rs | None => True end;
  inv_anchor : is_u64 (next_anchor_id (inner log)) = true;
}.

Lemma fresh_inv log : fresh log -> log_inv log [] [].
Proof.
  intros []; (split; cbn; [done|constructor|done|lia|unfold log_version; cbn; unfold u64_max; lia|
    done|constructor|constructor|done|done]).
Qed.

(** The outcomes of the write-ahead step: only the store and the failure
    bookkeeping change. *)
Lemma write_ahead_cases log v f c q ch log1 u :
  write_ahead log v f c q ch = (log1, u) ->
  inner log1 = set_wal (inner log) (wal (inner log1)) /\
  match wal (inner log) with
  | None => log1 = log /\ u = Ok tt
  | Some s => exists s' r, append_record_with_hash s v f c q ch = (s', r) /\
      wal (inner log1) = Some s' /\
      match r with Ok _ => u = Ok tt | Err _ => exists m, u = Err (WalErr m) end
  end.
Proof.
  unfold write_ahead. destruct (wal (inner log)) as [s|] eqn:Hw.
  - destruct (append_record_with_hash s v f c q ch) as [s' [[]|e]].
    + intros [= <- <-]. split; [done|]. by exists s', (Ok tt).
    + destruct (WAL_FAIL_TERMINATE_THRESHOLD <=? _)%Z; intros [= <- <-];
        (split; [done|]; exists s', (Err e); split_and!; [done|done|by eexists]).
  - intros [= <- <-]. split; [|done]. unfold set_wal. rewrite Hw. rewrite <- Hw. by destruct (inner log).
Qed.

(** The outcomes of [append]. *)
Lemma append_cases log f log' r :
  append (N := N) log f = (log', r) ->
  match fact_hash (N := N) f with
  | Err e => log' = log /\ r = Err (HashErr ("hash error: " +:+ hash_error_display e))
  | Ok c =>
      let q := last_hash (inner log) in
      let '(log1, u) := write_ahead log (log_version log) f c q (chain_step q c) in
      match u with
      | Err e => log' = log1 /\ r = Err e
      | Ok _ =>
          (r = Err VersionOverflow /\ (u64_max <= log_version log)%Z) \/
          (bumps f = true -> (log_version log < u64_max)%Z) /\
          r = Ok (version_after (log_version log) f) /\
          log' = map_inner log1 (fun i => push_fact
            (set_log_state (set_last_hash i (chain_step q c)) (next_state (log_state (inner log)) f))
            (log_version log) f)
      end
  end.
Proof.
  unfold append. destruct (fact_hash f) as [c|e]; [|by intros [= <- <-]].
  cbn zeta. unfold log_version.
  destruct (write_ahead _ _ _ _ _ _) as [log1 [[]|e]] eqn:Hw; [|by intros [= <- <-]].
  apply write_ahead_cases in Hw as [Hin _].
  assert (log_state (inner log1) = log_state (inner log)) as Hst by by rewrite Hin.
  cbn [map_inner inner set_last_hash log_state]. rewrite Hst.
  destruct (apply_fact_to_state (log_state (inner log)) f) as [st [[]|e]] eqn:Ha; intros [= <- <-].
  - right. apply apply_fact_Ok in Ha as [-> Hb]. split_and!; [done|done|done].
  - left. pose proof (apply_fact_spec (log_state (inner log)) f) as Hs. rewrite Ha in Hs.
    destruct (Z.leb_spec u64_max (version (log_state (inner log)))); [|by rewrite andb_false_r in Hs].
    split; [|done]. destruct (bumps f); cbn in Hs; congruence.
Qed.

Lemma write_ahead_version log v f c q ch log1 u :
  write_ahead log v f c q ch = (log1, u) -> log_version log1 = log_version log.
Proof. intros [Hin _]%write_ahead_cases. unfold log_version. by rewrite Hin. Qed.
Lemma append_version log f log' r :
  append (N := N) log f = (log', r) ->
  (r = Err VersionOverflow -> (u64_max <= log_version log)%Z) /\
  (r <> Err VersionOverflow -> (log_version log' <= log_version log + 1)%Z).
Proof.
  intros Ha%append_cases. destruct (fact_hash f) as [c|e]; [|destruct Ha as [-> ->]; split; [done|lia]].
  cbn zeta in Ha. destruct (write_ahead _ _ _ _ _ _) as [log1 u] eqn:Hw.
  apply write_ahead_cases in Hw as Hm. apply write_ahead_version in Hw. destruct u as [[]|e].
  - destruct Ha as [[-> Hv]|(Hb & -> & ->)]; [done|]. split; [done|]. intros _.
    unfold log_version at 1. cbn -[version_after]. unfold version_after, log_version.
    destruct (bumps f); lia.
  - destruct Ha as [-> ->]. split; [|rewrite Hw; lia].
    destruct Hm as [_ Hm]. destruct (wal (inner log)); [|by destruct Hm].
    destruct Hm as (s' & [[]|e'] & _ & _ & Hu); [done|]. by destruct Hu as [m [= ->]].
Qed.

Lemma append_history log f log' r :
  append (N := N) log f = (log', r) -> r <> Err VersionOverflow ->
  next_anchor_id (inner log') = next_anchor_id (inner log) /\
  forall v g, In (v, g) (history (inner log')) -> In (v, g) (history (inner log)) \/ v = log_version log.
Proof.
  intros Ha%append_cases Hr. destruct (fact_hash f) as [c|e]; [|destruct Ha as [-> _]; auto].
  cbn zeta in Ha. destruct (write_ahead _ _ _ _ _ _) as [log1 u] eqn:Hw.
  apply write_ahead_cases in Hw as [Hin _]. destruct u as [[]|e].
  - destruct Ha as [[-> _]|(_ & _ & ->)]; [done|]. cbn. rewrite Hin. cbn. split; [done|].
    intros v g [Hg|[[= <- <-]|[]]]%in_app_or; auto.
  - destruct Ha as [-> _]. rewrite Hin. cbn. auto.
Qed.
Lemma append_compacted log f log' r :
  append (N := N) log f = (log', r) -> r <> Err VersionOverflow ->
  compacted_snapshot (inner log') = compacted_snapshot (inner log).
Proof.
  intros Ha%append_cases Hr. destruct (fact_hash f) as [c|e]; [|by destruct Ha as [-> _]].
  cbn zeta in Ha. destruct (write_ahead _ _ _ _ _ _) as [log1 u] eqn:Hw.
  apply write_ahead_cases in Hw as [Hin _]. destruct u as [[]|e].
  - destruct Ha as [[-> _]|(_ & _ & ->)]; [done|]. cbn. by rewrite Hin.
  - destruct Ha as [-> _]. by rewrite Hin.
Qed.

(** * The invariant is kept *)

Lemma inv_append log dropped rs f log' r :
  log_inv log dropped rs -> wf_fact f = true -> append (N := N) log f = (log', r) ->
  r <> Err VersionOverflow -> exists rs', log_inv log' dropped rs'.
Proof.
  intros [Hix Hso Hbo Hst Hve Hco Hwf Hre Hsto Han] Hf Ha Hr. apply append_cases in Ha.
  destruct (fact_hash f) as [c|e] eqn:Hc; [|destruct Ha as [-> ->]; exists rs; by split].
  cbn zeta in Ha. destruct (write_ahead _ _ _ _ _ _) as [log1 u] eqn:Hw.
  apply write_ahead_cases in Hw as [Hin Hw].
  set (v := log_version log) in *. set (q := last_hash (inner log)) in *.
  assert (is_u64 v = true) as Hv by (apply is_u64_spec; unfold v; lia).
  assert (match wal (inner log1) with
          | Some s => holds s (match u with Ok _ => rs ++ [mk_record v (read_back f) (Some c) (Some q)
                        (Some (chain_step q c))] | Err _ => rs end) | None => True end) as Hh.
  { destruct (wal (inner log)) as [s|] eqn:Hwal.
    - destruct Hw as (s' & r' & Ha' & -> & Hu).
      pose proof (append_holds s rs v f c q (chain_step q c) s' r' Hv Hf Hsto Ha') as Hh.
      destruct r' as [[]|e]; [by subst|]. by destruct Hu as [m ->].
    - destruct Hw as [-> ->]. by rewrite Hwal. }
  clear Hw. destruct log1 as [i1 n1 b1 e1]. cbn [inner] in *.
  remember (wal i1) as w1 eqn:Hw1. clear Hw1. subst i1.
  destruct u as [[]|e].
  - destruct Ha as [[-> _]|(Hb & -> & ->)]; [done|].
    exists (rs ++ [mk_record v (read_back f) (Some c) (Some q) (Some (chain_step q c))]).
    assert (version_after v f <= u64_max)%Z as Hva.
    { unfold version_after. destruct (bumps f); [specialize (Hb eq_refl)|]; lia. }
    pose proof (version_after_ge v f) as Hge.
    split; unfold log_version, log_last_stable_version; cbn -[indexes_of version_after];
      change (version (log_state (inner log))) with v;
      change (last_stable_version (log_state (inner log))) with (log_last_stable_version log).
    + unfold push_fact. cbn. rewrite Hix, length_app, Nat.add_1_r. cbn. by rewrite indexes_snoc.
    + apply versions_sorted_snoc. split; [done|]. intros w g Hg. apply Hbo in Hg. lia.
    + intros w g [Hg|[[= <- <-]|[]]]%in_app_or; [apply Hbo in Hg|]; lia.
    + destruct (is_stable f); lia.
    + done.
    + destruct (compacted_snapshot (inner log)) as [cs|]; [|done]. destruct Hco as [Hc1 Hc2]. split.
      * destruct (is_stable f); lia.
      * intros w g [Hg|[[= <- <-]|[]]]%in_app_or; [by eapply Hc2|]. lia.
    + rewrite app_assoc. apply Forall_app. split; [done|]. by constructor.
    + rewrite app_assoc. by constructor.
    + done.
    + done.
  - destruct Ha as [-> ->]. exists rs. by split.
Qed.

Lemma append_state log f log' r :
  append (N := N) log f = (log', r) -> r <> Err VersionOverflow ->
  (history (inner log') = history (inner log) /\ log_state (inner log') = log_state (inner log)) \/
  (exists v, history (inner log') = history (inner log) ++ [(v, f)] /\
     log_state (inner log') = next_state (log_state (inner log)) f).
Proof.
  intros Ha%append_cases Hr. destruct (fact_hash f) as [c|e]; [|destruct Ha as [-> _]; by left].
  cbn zeta in Ha. destruct (write_ahead _ _ _ _ _ _) as [log1 u] eqn:Hw.
  apply write_ahead_cases in Hw as [Hin _]. destruct u as [[]|e].
  - destruct Ha as [[-> _]|(_ & _ & ->)]; [done|]. right. exists (log_version log).
    cbn. by rewrite Hin.
  - destruct Ha as [-> _]. left. by rewrite Hin.
Qed.

Lemma position_after_first_at h v : position_after h v = first_at h (Z.leb (v + 1)).
Proof.
  induction h as [|[w f] h IH]; cbn; [done|]. rewrite IH.
  destruct (Z.ltb_spec v w), (Z.leb_spec (v + 1) w); (done || lia).
Qed.
Lemma versions_sorted_drop n h : versions_sorted h -> versions_sorted (drop n h).
Proof.
  revert h. induction n as [|n IH]; intros [|[v f] h]; cbn; try done.
  intros Hs. inv Hs. by apply IH.
Qed.
(** Where [compact] splits the history. *)
Definition split_at log : nat :=
  default (length (history (inner log)))
    (position_after (history (inner log)) (log_last_stable_version log)).
Lemma drop_split log :
  versions_sorted (history (inner log)) ->
  drop (split_at log) (history (inner log)) =
  List.filter (fun vf => (log_last_stable_version log <? fst vf)%Z) (history (inner log)).
Proof.
  intros Hs. unfold split_at. rewrite position_after_first_at, drop_first_at by done.
  apply filter_ext. intros [v f]; cbn.
  destruct (Z.leb_spec (log_last_stable_version log + 1) v), (Z.ltb_spec (log_last_stable_version log) v);
    (done || lia).
Qed.
Lemma compact_cases log :
  compact log = if Nat.eqb (split_at log) 0 then (log, (0, 1)) else
    (map_inner log (fun i => mk_inner (drop (split_at log) (history i)) (log_state i) (last_hash i)
       (wal i) (log_fsync_on_flush i) (log_max_wal_size_bytes i)
       (indexes_of (drop (split_at log) (history i)))
       (Some (mk_compacted (log_last_stable_version log) (current_snapshot (log_state i))
          (current_queue (log_state i)) (last_hash i) (split_at log)))
       (next_anchor_id i)), (split_at log, length (history (inner log)))).
Proof. done. Qed.

Lemma inv_compact log dropped rs :
  log_inv log dropped rs -> exists dropped', log_inv (fst (compact log)) dropped' rs /\
    dropped' ++ history (inner (fst (compact log))) = dropped ++ history (inner log).
Proof.
  intros [Hix Hso Hbo Hst Hve Hco Hwf Hre Hsto Han]. rewrite compact_cases.
  destruct (Nat.eqb (split_at log) 0); [by exists dropped|].
  exists (dropped ++ take (split_at log) (history (inner log))). cbn [fst].
  split; [|cbn [map_inner inner history]; by rewrite <- app_assoc, take_drop].
  assert (forall w g, In (w, g) (drop (split_at log) (history (inner log))) ->
    In (w, g) (history (inner log)) /\ (log_last_stable_version log < w)%Z) as Hin.
  { intros w g. rewrite (drop_split log Hso), filter_In. cbn. rewrite Z.ltb_lt. done. }
  split; cbn [map_inner inner history log_index compacted_snapshot wal].
  - done.
  - by apply versions_sorted_drop.
  - intros w g Hw. apply Hin in Hw as [Hw _]. by apply Hbo in Hw.
  - done.
  - done.
  - split; [cbn; unfold log_last_stable_version; cbn; lia|]. cbn.
    intros w g Hw. apply Hin in Hw as [_ Hw]. lia.
  - by rewrite <- app_assoc, take_drop.
  - by rewrite <- app_assoc, take_drop.
  - done.
  - done.
Qed.
Lemma inv_rotate log dropped rs :
  log_inv log dropped rs -> log_inv (fst (rotate_wal log)) dropped rs.
Proof.
  intros Hi. unfold rotate_wal. destruct (wal (inner log)) as [s|] eqn:Hw; [|done].
  destruct (store_rotate s) as [s' r] eqn:Hr. destruct Hi. rewrite Hw in inv_store0.
  split; try done. cbn. by eapply rotate_holds.
Qed.
Lemma inv_reset log dropped rs : log_inv log dropped rs -> log_inv (reset log) [] [].
Proof.
  intros Hi. pose proof (inv_anchor _ _ _ Hi). split; cbn; try done; try lia; try constructor.
Qed.
Lemma inv_initial log dropped rs payload v :
  log_inv log dropped rs -> (log_version log <= v)%Z -> is_u64 v = true ->
  (log_version log < u64_max)%Z ->
  exists rs', log_inv (set_initial_state (N := N) log payload v) dropped rs'.
Proof.
  intros Hi Hle Hv Hmax. apply is_u64_spec in Hv as Hv'. pose proof (inv_anchor _ _ _ Hi) as Ha.
  unfold set_initial_state.
  match goal with |- context [append ?l ?f] => set (log0 := l); set (fact := f) end.
  assert (log_inv log0 dropped rs) as Hi0.
  { destruct Hi. split; try done. cbn. apply is_u64_spec in Ha. unfold u64_saturating_add.
    apply is_u64_spec. lia. }
  assert (wf_fact fact = true) as Hwf.
  { unfold fact, wf_fact. cbn [fact_id]. rewrite Ha. cbn [andb].
    assert (is_i64 (u64_as_i64 v) = true) as Hz.
    { apply is_i64_spec. unfold u64_as_i64, i64_max, i64_min, u64_max in *.
      destruct (Z.leb_spec v (2 ^ 63 - 1)); lia. }
    apply object_from_pairs_wf. cbn. by rewrite Hz. }
  destruct (append log0 fact) as [log1 r] eqn:Happ.
  assert (r <> Err VersionOverflow) as Hne.
  { intros ->. pose proof (append_version _ _ _ _ Happ) as [Hr _]. specialize (Hr eq_refl).
    change (log_version log0) with (log_version log) in Hr. lia. }
  destruct (inv_append _ _ _ _ _ _ Hi0 Hwf Happ Hne) as [rs' Hi1].
  pose proof (append_history _ _ _ _ Happ Hne) as [_ Hh].
  pose proof (inv_bound _ _ _ Hi) as Hb. pose proof (inv_stable _ _ _ Hi) as Hsb.
  assert (forall w g, In (w, g) (history (inner log1)) -> (0 <= w <= v)%Z) as Hbound.
  { intros w g Hw. apply Hh in Hw as [Hw| ->]; [apply Hb in Hw; lia|].
    change (log_version log0) with (log_version log). lia. }
  pose proof (append_compacted _ _ _ _ Happ Hne) as Hc. cbn in Hc.
  exists rs'. destruct Hi1. split; try done; unfold log_version, log_last_stable_version in *; cbn in *; try lia.
  pose proof (inv_compacted _ _ _ Hi) as Hco. rewrite Hc in inv_compacted0 |- *.
  destruct (compacted_snapshot (inner log)) as [c|]; [|done].
  destruct inv_compacted0, Hco. unfold log_last_stable_version in *. split; [lia|done].
Qed.

Definition reachable log : Prop := exists log0, fresh log0 /\ rtc log_step log0 log.
Lemma reachable_inv log : reachable log -> exists dropped rs, log_inv log dropped rs.
Proof.
  intros (log0 & Hf & Hs). assert (exists dropped rs, log_inv log0 dropped rs) as Hi.
  { exists [], []. by apply fresh_inv. }
  clear Hf. induction Hs as [|l1 l2 l3 Hs _ IH]; [done|]. apply IH. clear IH l3.
  destruct Hi as (dropped & rs & Hi). destruct Hs as [l1 l2 Hs|l1|l1 payload v Hlt Hv Ha].
  - destruct Hs as [l1 f l2 r Hwf Happ Hr|l1|l1|l1].
    + destruct (inv_append _ _ _ _ _ _ Hi Hwf Happ Hr) as [rs' ?]. by exists dropped, rs'.
    + destruct (inv_compact _ _ _ Hi) as (dropped' & ? & _). by exists dropped', rs.
    + exists dropped, rs. by apply inv_rotate.
    + exists dropped, rs. by destruct Hi.
  - exists [], []. by eapply inv_reset.
  - destruct (inv_initial _ _ _ payload v Hi Hlt Hv Ha) as [rs' ?]. by exists dropped, rs'.
Qed.

Lemma recorded_facts p h rs q : recorded p h rs q -> map rec_fact rs = map (fun vf => read_back (snd vf)) h.
Proof. induction 1; [done|]. rewrite !map_app. cbn. by f_equal. Qed.
Lemma recorded_last p h rs q r :
  recorded p h rs q -> last rs = Some r -> rec_chain_hash r = Some q.
Proof. intros Hr. destruct Hr; [done|]. rewrite last_snoc. by intros [= <-]. Qed.
End Reachable.

(** A fork sets the state of a fresh log, whose version is zero, so it may be
    made at any version. *)
Lemma fork_reachable {N S} `{SerdeNumber N, SerdeText N, Blake3, FactWalStoreLaws S}
    (log : FactsLog S) (payload : JsonValue) (v : Z) :
  fresh log -> is_u64 v = true -> reachable (N := N) (set_initial_state (N := N) log payload v).
Proof.
  intros Hf Hv. exists log. split; [done|]. apply rtc_once, step_initial; [|done|].
  - apply is_u64_spec in Hv. by destruct Hf; cbn; unfold log_version; cbn; lia.
  - by destruct Hf; vm_compute.
Qed.

(** C40: the invariant of the facts log.  In every log that can be reached
    from a constructor by appends (accepted, refused by the store or by the
    hash), compactions, WAL rotations, resets and forks (at any version not
    below the log's, zero on a fresh log included): the chain hash is the
    chain hash of all the facts ever accepted, of which compaction has dropped
    a prefix; the history is in version order and within the current version;
    and the mounted store holds exactly the accepted facts, in order, the last
    with the current chain hash.  Excluded are an append that overflows the
    version and a [set_initial_state] that lowers it, which the method does
    not refuse: [lowering_breaks_bound] shows what it breaks. *)
Theorem log_invariant {N S} `{SerdeNumber N, SerdeText N, Blake3, FactWalStoreLaws S}
    (log : FactsLog S) :
  reachable (N := N) log ->
  exists dropped : list Fact,
    compute_chain_hash (N := N) (dropped ++ log_history log) = Ok (log_last_hash log) /\
    (compacted_snapshot (inner log) = None -> dropped = []) /\
    StronglySorted Z.le (map fst (history (inner log))) /\
    (forall v f, In (v, f) (history (inner log)) -> (0 <= v <= log_version log)%Z) /\
    (0 <= log_last_stable_version log <= log_version log)%Z /\
    (log_version log <= u64_max)%Z /\
    match wal (inner log) with
    | Some s => exists rs, holds s rs /\
        map rec_fact rs = map read_back (dropped ++ log_history log) /\
        (forall r, last rs = Some r -> rec_chain_hash r = Some (log_last_hash log))
    | None => True
    end.
Proof.
  intros (dropped & rs & Hi)%reachable_inv. destruct Hi. exists (map snd dropped).
  unfold log_history. rewrite <- map_app. split_and!.
  - rewrite compute_chain_hash_from. by eapply recorded_chain.
  - intros Hc. rewrite Hc in inv_compacted0. by subst.
  - done.
  - done.
  - lia.
  - lia.
  - lia.
  - destruct (wal (inner log)) as [s|]; [|done]. exists rs. split_and!; [done| |].
    + rewrite map_map. by eapply recorded_facts.
    + intros r. by eapply recorded_last.
Qed.

(** What [read_from] answers on a reachable log. *)
Lemma reachable_read_from {N S} `{SerdeNumber N, SerdeText N, Blake3, FactWalStoreLaws S}
    (log : FactsLog S) (from : Z) :
  reachable (N := N) log ->
  read_from log from =
  match compacted_snapshot (inner log) with
  | Some c =>
      if (from <? cs_version c)%Z then Err (CompactedRead from (cs_version c) (compacted_count c))
      else Ok (map snd (List.filter (fun vf => (from <=? fst vf)%Z) (history (inner log))))
  | None => Ok (map snd (List.filter (fun vf => (from <=? fst vf)%Z) (history (inner log))))
  end.
Proof.
  intros (dropped & rs & Hi)%reachable_inv. destruct Hi. unfold read_from.
  rewrite inv_index0, version_index_range, drop_first_at by done.
  by destruct (compacted_snapshot (inner log)).
Qed.

(** Reading from a version is exact.  In every reachable log,
    [read_from], which searches the version index, returns precisely the
    facts appended at that version or later, in order; a version before the
    compaction point is refused with the point and the count, never answered
    with a shorter list. *)
Lemma read_from_spec {N S} `{SerdeNumber N, SerdeText N, Blake3, FactWalStoreLaws S}
    (log : FactsLog S) (from : Z) :
  reachable (N := N) log ->
  read_from log from =
  match compacted_snapshot (inner log) with
  | Some c =>
      if (from <? cs_version c)%Z then Err (CompactedRead from (cs_version c) (compacted_count c))
      else Ok (map snd (List.filter (fun vf => (from <=? fst vf)%Z) (history (inner log))))
  | None => Ok (map snd (List.filter (fun vf => (from <=? fst vf)%Z) (history (inner log))))
  end.
Proof. apply reachable_read_from. Qed.

(** What the path index answers on a reachable log. *)
Lemma reachable_prefix_query {N S} `{SerdeNumber N, SerdeText N, Blake3, FactWalStoreLaws S}
    (log : FactsLog S) (prefix : string) :
  reachable (N := N) log ->
  facts_by_path_prefix log prefix ≡ₚ
  List.filter (update_with_prefix prefix) (history (inner log)).
Proof.
  intros (dropped & rs & Hi)%reachable_inv. destruct Hi. unfold facts_by_path_prefix.
  rewrite inv_index0. apply prefix_query_spec.
Qed.

(** Prefix queries are exact.  In every reachable log,
    [facts_by_path_prefix], which walks the path index from the prefix to the
    first key without it, returns every payload update in the history whose
    path starts with the prefix, once each, and nothing else. *)
Lemma facts_by_path_prefix_spec {N S} `{SerdeNumber N, SerdeText N, Blake3, FactWalStoreLaws S}
    (log : FactsLog S) (prefix : string) :
  reachable (N := N) log ->
  facts_by_path_prefix log prefix ≡ₚ
  List.filter (update_with_prefix prefix) (history (inner log)).
Proof. apply reachable_prefix_query. Qed.

(** What compaction keeps.  In every reachable log, [compact] keeps the
    materialised state, the chain hash and the store, keeps exactly the facts
    appended after the last stable version, and leaves the answers of
    [read_from] beyond that version as they were; below it the reads are
    refused.  The counts it reports add up. *)
Lemma compact_spec {N S} `{SerdeNumber N, SerdeText N, Blake3, FactWalStoreLaws S}
    (log log' : FactsLog S) (dropped_count total : nat) (from : Z) :
  reachable (N := N) log -> compact log = (log', (dropped_count, total)) ->
  let stable := log_last_stable_version log in
  log_state (inner log') = log_state (inner log) /\
  log_last_hash log' = log_last_hash log /\
  wal (inner log') = wal (inner log) /\
  history (inner log') =
    List.filter (fun vf => (stable <? fst vf)%Z) (history (inner log)) /\
  dropped_count + history_len log' = history_len log /\
  ((stable < from)%Z -> read_from log' from = read_from log from) /\
  ((from < stable)%Z -> dropped_count <> 0 ->
     read_from log' from = Err (CompactedRead from stable dropped_count)).
Proof.
  intros Hr Hc stable. assert (reachable (N := N) log') as Hr'.
  { destruct Hr as (log0 & Hf & Hs). exists log0. split; [done|].
    eapply rtc_r; [done|]. apply step_session.
    replace log' with (fst (compact log)) by by rewrite Hc. apply step_compact. }
  destruct (reachable_inv _ Hr) as (dropped & rs & Hi). destruct Hi.
  pose proof (drop_split log inv_sorted0) as Hd. fold stable in Hd.
  rewrite compact_cases in Hc. unfold history_len. destruct (Nat.eqb_spec (split_at log) 0) as [Hz|Hne].
  - injection Hc as <- <- <-. rewrite Hz, drop_0 in Hd. by split_and!.
  - injection Hc as <- <- <-. split_and!; [done|done|done|by rewrite <- Hd| | |].
    + cbn. rewrite length_drop. unfold split_at in *.
      destruct (position_after _ _) as [n|] eqn:E; cbn; [|lia].
      assert (n < length (history (inner log))); [|lia]. clear -E.
      revert n E. induction (history (inner log)) as [|[w g] h IH]; intros n; cbn; [done|].
      destruct (_ <? w)%Z; [intros [= <-]; lia|].
      destruct (position_after h _) as [m|]; [|done]. intros [= <-]. specialize (IH m eq_refl). lia.
    + intros Hlt. rewrite (read_from_spec (N := N) _ _ Hr'), (read_from_spec (N := N) _ _ Hr).
      cbn -[List.filter]. fold stable. destruct (Z.ltb_spec from stable); [lia|].
      rewrite Hd. replace (List.filter _ (List.filter _ _)) with
        (List.filter (fun vf : Z * Fact => (from <=? fst vf)%Z) (history (inner log))).
      * destruct (compacted_snapshot (inner log)) as [c|]; [|done].
        destruct inv_compacted0 as [Hle _]. destruct (Z.ltb_spec from (cs_version c)); [|done].
        unfold stable in *. lia.
      * clear -Hlt. induction (history (inner log)) as [|[w g] h IH]; cbn; [done|].
        destruct (Z.leb_spec from w), (Z.ltb_spec stable w); cbn; try lia; try done.
        -- destruct (Z.leb_spec from w); [by rewrite IH|lia].
        -- destruct (Z.leb_spec from w); [lia|done].
    + intros Hlt _. rewrite (read_from_spec (N := N) _ _ Hr'). cbn -[List.filter]. fold stable.
      destruct (Z.ltb_spec from stable); [done|lia].
Qed.

(** Write-ahead atomicity of [append].  A fact that cannot be hashed or
    that the store refuses leaves the history, the state, the indexes, the
    chain hash and the records of the store as they were.  An accepted fact
    is in the store, with its content hash, the previous chain hash and the
    new one, before it is in the history, and advances the state; the
    failure count is cleared.  Only a version overflow leaves the store one
    record ahead of the history. *)
Lemma append_atomic {N S} `{SerdeNumber N, SerdeText N, Blake3, FactWalStoreLaws S}
    (log log' : FactsLog S) (f : Fact) (r : Result Z FactsLogError) (s : S) (rs : list WalRecord) :
  append (N := N) log f = (log', r) -> wf_fact f = true -> is_u64 (log_version log) = true ->
  wal (inner log) = Some s -> holds s rs ->
  let record c := mk_record (log_version log) (read_back f) (Some c) (Some (log_last_hash log))
                    (Some (chain_step (log_last_hash log) c)) in
  exists s', wal (inner log') = Some s' /\
  match r with
  | Ok v => exists c, fact_hash (N := N) f = Ok c /\ holds s' (rs ++ [record c]) /\
      history (inner log') = history (inner log) ++ [(log_version log, f)] /\
      log_state (inner log') = next_state (log_state (inner log)) f /\
      log_last_hash log' = chain_step (log_last_hash log) c /\
      v = version_after (log_version log) f /\ wal_fail_count log' = 0%Z
  | Err VersionOverflow => exists c, fact_hash (N := N) f = Ok c /\ holds s' (rs ++ [record c]) /\
      history (inner log') = history (inner log) /\ log_version log = u64_max /\ bumps f = true
  | Err _ => holds s' rs /\ inner log' = set_wal (inner log) (Some s')
  end.
Proof.
  intros Happ Hf Hv Hw Hh record. unfold append in Happ.
  destruct (fact_hash f) as [c|e] eqn:Hc.
  2:{ injection Happ as <- <-. exists s. split_and!; [done|done|]. rewrite <- Hw. by destruct (inner log). }
  fold (log_version log) in Happ. unfold write_ahead in Happ. rewrite Hw in Happ.
  destruct (append_record_with_hash s _ f c _ _) as [s' u] eqn:Hs.
  pose proof (append_holds s rs _ _ _ _ _ _ _ Hv Hf Hh Hs) as Hh'. fold (record c) in Hh'.
  destruct u as [[]|e].
  - cbn [map_inner inner set_last_hash set_wal log_state] in Happ.
    destruct (apply_fact_to_state (log_state (inner log)) f) as [st [[]|e]] eqn:Ha;
      injection Happ as <- <-; exists s'.
    + apply apply_fact_Ok in Ha as [-> _]. split; [done|]. exists c. by split_and!.
    + pose proof (apply_fact_spec (log_state (inner log)) f) as Hsp. rewrite Ha in Hsp.
      fold (log_version log) in Hsp. apply is_u64_spec in Hv.
      destruct (bumps f) eqn:Hb; [|done]. cbn [andb] in Hsp.
      destruct (Z.leb_spec u64_max (log_version log)) as [Hle|]; [|done].
      injection Hsp as ->. split; [done|]. exists c. split_and!; try done. lia.
  - destruct (WAL_FAIL_TERMINATE_THRESHOLD <=? _)%Z; injection Happ as <- <-; by exists s'.
Qed.

(** A run of appends, whatever their results. *)
Definition append_all {N S} `{SerdeNumber N, SerdeText N, Blake3, FactWalStore S}
    (log : FactsLog S) (fs : list Fact) : FactsLog S :=
  fold_left (fun log f => fst (append (N := N) log f)) fs log.

(** One refused append. *)
Lemma append_refused {N S} `{SerdeNumber N, SerdeText N, Blake3, FactWalStore S}
    (log : FactsLog S) (f : Fact) (e : WalError) (n : nat) :
  (forall s v f c p h, exists s', append_record_with_hash s v f c p h = (s', Err e)) ->
  is_ok (fact_hash (N := N) f) = true -> is_some (wal (inner log)) = true ->
  wal_fail_count log = Z.of_nat n -> (Z.of_nat n + 1 <= u64_max)%Z ->
  let log' := fst (append (N := N) log f) in
  is_some (wal (inner log')) = true /\
  on_wal_failure_exhausted log' = on_wal_failure_exhausted log /\
  wal_fail_count log' = Z.of_nat (n + 1) /\
  history (inner log') = history (inner log) /\ log_state (inner log') = log_state (inner log) /\
  escalations log' = escalations log ++
    if on_wal_failure_exhausted log && (2 <=? n)%nat
    then [wal_failure_guidance (wal_error_display e)] else [].
Proof.
  intros Hfail Hf Hw Hn Hmax. unfold append. destruct (fact_hash f) as [c|]; [|done].
  unfold write_ahead. destruct (wal (inner log)) as [s|]; [|done].
  destruct (Hfail s (version (log_state (inner log))) f c (last_hash (inner log))
    (chain_step (last_hash (inner log)) c)) as [s' ->].
  rewrite Hn. assert (u64_wrapping_add (Z.of_nat n) 1 = Z.of_nat (n + 1)) as ->.
  { unfold u64_wrapping_add, u64_max in *. rewrite Z.mod_small by lia. lia. }
  unfold WAL_FAIL_TERMINATE_THRESHOLD.
  destruct (Z.leb_spec 3 (Z.of_nat (n + 1))), (Nat.leb_spec 2 n); try lia; cbn;
    destruct (on_wal_failure_exhausted log); cbn; by rewrite ?app_nil_r.
Qed.

(** A persistently failing store ends the session.  From a cleared count
    every failing append counts one and changes nothing but the store; the
    first two are reported to the caller only, and from the third on each
    one calls the registered escalation callback with the operator guidance. *)
Lemma wal_escalation {N S} `{SerdeNumber N, SerdeText N, Blake3, FactWalStore S}
    (log : FactsLog S) (fs : list Fact) (e : WalError) :
  (forall s v f c p h, exists s', append_record_with_hash s v f c p h = (s', Err e)) ->
  (forall f, In f fs -> is_ok (fact_hash (N := N) f) = true) ->
  is_some (wal (inner log)) = true -> on_wal_failure_exhausted log = true ->
  wal_fail_count log = 0%Z -> (Z.of_nat (length fs) <= u64_max)%Z ->
  let log' := append_all (N := N) log fs in
  wal_fail_count log' = Z.of_nat (length fs) /\
  history (inner log') = history (inner log) /\ log_state (inner log') = log_state (inner log) /\
  escalations log' =
    escalations log ++ repeat (wal_failure_guidance (wal_error_display e)) (length fs - 2).
Proof.
  intros Hfail Hhash Hw Hcb Hz Hlen. unfold append_all.
  assert (let log' := fold_left (fun log f => fst (append (N := N) log f)) fs log in
    is_some (wal (inner log')) = true /\ on_wal_failure_exhausted log' = true /\
    wal_fail_count log' = Z.of_nat (length fs) /\
    history (inner log') = history (inner log) /\ log_state (inner log') = log_state (inner log) /\
    escalations log' =
      escalations log ++ repeat (wal_failure_guidance (wal_error_display e)) (length fs - 2))
    as Hall; [|by destruct Hall as (_ & _ & Hall)].
  induction fs as [|f fs IH] using rev_ind; [cbn; by rewrite app_nil_r|].
  rewrite length_app in Hlen |- *. cbn in Hlen. cbn [length].
  destruct IH as (Hw1 & Hcb1 & Hn & Hh & Hst & He);
    [intros g Hg; apply Hhash, in_or_app; by left|lia|].
  rewrite fold_left_app. cbn [fold_left].
  set (log1 := fold_left _ fs log) in *.
  destruct (append_refused (N := N) log1 f e (length fs) Hfail) as (-> & -> & -> & -> & -> & ->);
    [apply Hhash, in_or_app; right; by left|done|done|lia|].
  rewrite Hcb1, Hh, Hst, He. split_and!; try done. cbn [andb]. rewrite <- app_assoc. f_equal.
  destruct (Nat.leb_spec 2 (length fs)).
  - replace (length fs + 1 - 2) with ((length fs - 2) + 1) by lia. by rewrite repeat_app.
  - replace (length fs + 1 - 2) with 0 by lia. by replace (length fs - 2) with 0 by lia.
Qed.

(** * Examples *)

(** A run of appends without overflow reaches a log. *)
Fixpoint no_overflow {N S} `{SerdeNumber N, SerdeText N, Blake3, FactWalStore S}
    (log : FactsLog S) (fs : list Fact) : bool :=
  match fs with
  | [] => true
  | f :: fs =>
      let '(log', r) := append (N := N) log f in
      match r with Err VersionOverflow => false | _ => no_overflow (N := N) log' fs end
  end.
Lemma append_all_steps {N S} `{SerdeNumber N, SerdeText N, Blake3, FactWalStore S}
    (log : FactsLog S) (fs : list Fact) :
  forallb wf_fact fs = true -> no_overflow (N := N) log fs = true ->
  rtc (session_step (N := N)) log (append_all (N := N) log fs).
Proof.
  revert log. induction fs as [|f fs IH]; intros log Hwf Hno; [apply rtc_refl|].
  cbn in Hwf, Hno. apply andb_true_iff in Hwf as [Hf Hwf]. cbn [append_all fold_left].
  destruct (append log f) as [log' r] eqn:Ha. cbn [fst].
  assert (r <> Err VersionOverflow /\ no_overflow (N := N) log' fs = true) as [Hr Hno'].
  { destruct r as [|[]]; by split. }
  eapply rtc_l; [by eapply step_append|]. by apply IH.
Qed.
Lemma append_all_reachable {N S} `{SerdeNumber N, SerdeText N, Blake3, FactWalStoreLaws S}
    (log : FactsLog S) (fs : list Fact) :
  fresh log -> forallb wf_fact fs = true -> no_overflow (N := N) log fs = true ->
  reachable (N := N) (append_all (N := N) log fs).
Proof.
  intros Hf Hwf Hno. exists log. split; [done|].
  eapply rtc_subrel; [|by apply append_all_steps]. apply step_session.
Qed.

Module Demo.
Import ZNumber.
#[local] Existing Instance ZText.text.
#[local] Existing Instance ZHash.hash.
Definition log0 : FactsLog MemoryWalStore := with_wal_store [].
Definition facts : list Fact :=
  [PayloadUpdate 1%Z "mem.a" (JInteger 5); Stable 2%Z 1; PayloadUpdate 3%Z "mem.b" JNull;
   Command 4%Z JNull].
Definition log : FactsLog MemoryWalStore := append_all (N := Z) log0 facts.
Lemma log_reachable : reachable (N := Z) log.
Proof. apply append_all_reachable; [by apply fresh_store|reflexivity|reflexivity]. Qed.
(** A store that refuses every record. *)
#[export] Instance refusing_store : FactWalStore unit := {|
  append_record_with_hash := fun s _ _ _ _ _ => (s, Err (WalIo "disk full"));
  store_rotate := fun s => (s, Ok false);
|}.
End Demo.
Import ZNumber.
#[local] Existing Instance ZText.text.
#[local] Existing Instance ZHash.hash.
#[local] Existing Instance Demo.refusing_store.

Lemma log_invariant_witness :
  let forked := set_initial_state (N := Z) (with_wal_store (S := MemoryWalStore) []) (JInteger 3) 0 in
  (exists dropped : list Fact,
    compute_chain_hash (N := Z) (dropped ++ log_history Demo.log) = Ok (log_last_hash Demo.log) /\
    (compacted_snapshot (inner Demo.log) = None -> dropped = [])) /\
  log_version forked = 0%Z /\
  (exists dropped : list Fact,
    compute_chain_hash (N := Z) (dropped ++ log_history forked) = Ok (log_last_hash forked)).
Proof.
  intros forked. split_and!.
  - destruct (log_invariant Demo.log Demo.log_reachable) as (dropped & Hc & Hd & _).
    by exists dropped.
  - reflexivity.
  - destruct (log_invariant (N := Z) forked) as (dropped & Hc & _); [|by exists dropped].
    apply fork_reachable; [by apply fresh_store|reflexivity].
Defined.
(** [set_initial_state] takes any version: with a lower one the facts of the
    history are beyond the version of the log, and the next append puts a
    fact of version zero after them: the history is no longer in version
    order, and [read_from] answers that fact from version 2 on. *)
Lemma lowering_breaks_bound :
  let lowered := set_initial_state (N := Z) Demo.log JNull 0 in
  let next := fst (append (N := Z) lowered (Command 9%Z JNull)) in
  log_version lowered = 0%Z /\
  map fst (history (inner lowered)) = [0; 1; 1; 2; 2]%Z /\
  map fst (history (inner next)) = [0; 1; 1; 2; 2; 0]%Z /\
  option_map last (result_ok (read_from next 2)) = Some (Some (Command 9%Z JNull)).
Proof. vm_compute. split_and!; reflexivity. Qed.
Lemma read_from_spec_witness :
  read_from Demo.log 1 = Ok [Stable 2%Z 1; PayloadUpdate 3%Z "mem.b" JNull; Command 4%Z JNull].
Proof. etransitivity; [exact (read_from_spec Demo.log 1 Demo.log_reachable)|reflexivity]. Defined.
Lemma facts_by_path_prefix_spec_witness :
  facts_by_path_prefix Demo.log "mem." ≡ₚ
  [(0%Z, PayloadUpdate 1%Z "mem.a" (JInteger 5)); (1%Z, PayloadUpdate 3%Z "mem.b" JNull)].
Proof. exact (facts_by_path_prefix_spec Demo.log "mem." Demo.log_reachable). Defined.
Lemma compact_spec_witness :
  read_from (fst (compact Demo.log)) 2 = read_from Demo.log 2 /\
  read_from (fst (compact Demo.log)) 0 = Err (CompactedRead 0 1 3) /\
  history (inner (fst (compact Demo.log))) = [(2%Z, Command 4%Z JNull)].
Proof.
  assert (compact Demo.log = (fst (compact Demo.log), (3, 4))) as Hcompact by (vm_compute; reflexivity).
  assert (log_last_stable_version Demo.log = 1%Z) as Hstable by (vm_compute; reflexivity).
  pose proof (compact_spec Demo.log _ 3 4 2%Z Demo.log_reachable Hcompact) as Hc2.
  pose proof (compact_spec Demo.log _ 3 4 0%Z Demo.log_reachable Hcompact) as Hc0.
  cbv zeta in Hc0, Hc2. rewrite Hstable in Hc0, Hc2.
  destruct Hc2 as (_ & _ & _ & Hh & _ & Hr2 & _). destruct Hc0 as (_ & _ & _ & _ & _ & _ & Hr0).
  split_and!; [by apply Hr2|by apply Hr0|]. rewrite Hh. vm_compute. reflexivity.
Defined.
Lemma append_atomic_witness :
  exists s', wal (inner (fst (append (N := Z) Demo.log (Stable 9%Z 2)))) = Some s' /\
    history (inner (fst (append (N := Z) Demo.log (Stable 9%Z 2)))) =
      history (inner Demo.log) ++ [(2%Z, Stable 9%Z 2)].
Proof.
  assert (append (N := Z) Demo.log (Stable 9%Z 2) =
    (fst (append (N := Z) Demo.log (Stable 9%Z 2)), Ok 2%Z)) as Happ by (vm_compute; reflexivity).
  assert (exists s, wal (inner Demo.log) = Some s) as [s Hs].
  { destruct (wal (inner Demo.log)) eqn:E; [by eexists|vm_compute in E; discriminate]. }
  assert (is_u64 (log_version Demo.log) = true) as Hv by (vm_compute; reflexivity).
  destruct (append_atomic (N := Z) (H3 := memory_store_laws) Demo.log _ (Stable 9%Z 2) (Ok 2%Z) s s Happ eq_refl Hv Hs eq_refl)
    as (s' & Hs' & c & _ & _ & Hh & _).
  exists s'. split; [done|]. rewrite Hh. do 3 f_equal.
Defined.
Lemma wal_escalation_witness :
  escalations (append_all (N := Z) (set_on_wal_failure_exhausted (with_wal_store ())) Demo.facts) =
  [] ++ repeat (wal_failure_guidance (wal_error_display (WalIo "disk full"))) 2.
Proof.
  refine (proj2 (proj2 (proj2 (wal_escalation (N := Z)
    (set_on_wal_failure_exhausted (with_wal_store ())) Demo.facts (WalIo "disk full") _ _ _ _ _ _)))).
  - intros s v f c p h. exists s. reflexivity.
  - intros f Hf. repeat destruct Hf as [<-|Hf]; [reflexivity..|destruct Hf].
  - reflexivity.
  - reflexivity.
  - reflexivity.
  - discriminate.
Defined.
