(* ===== verification/Recovery.v ===== *)
(** Recovery: replaying what a store holds rebuilds the log that wrote it.
    Reading a fact back may change the variant of an integer, so states are
    compared up to [norm_json], with which every update commutes. *)

From S2P Require Import Prelude ObjectMap Value Error Path Domain Executor ExecSemantics Transition Fact Serde Hash Wal WalFile FactsLog FactsLogSpec.

(** * Updates commute with normalisation *)

Section MapObject.
Context {A B : Type} (g : A -> B).
Definition map_values_with (m : ObjectMap A) : ObjectMap B := map (fun kv => (fst kv, g (snd kv))) m.
Lemma map_get_map m k : map_get (map_values_with m) k = g <$> map_get m k.
Proof.
  rewrite !map_get_find. induction m as [|[k' x] m IH]; cbn; [done|].
  destruct (String.eqb k' k); [done|]. by destruct (String.ltb k k').
Qed.
Lemma obj_insert_map m k x :
  map_values_with (obj_insert m k x) = obj_insert (map_values_with m) k (g x).
Proof.
  rewrite !obj_insert_ins. induction m as [|[k' y] m IH]; cbn; [done|].
  destruct (String.eqb k' k); [done|]. destruct (String.ltb k k'); [done|]. cbn. by f_equal.
Qed.
End MapObject.

Lemma vec_get_map {A B} (g : A -> B) l i : vec_get (map g l) i = g <$> vec_get l i.
Proof.
  unfold vec_get, vec_len. rewrite length_map. case_match; [|done]. apply list_lookup_fmap.
Qed.
Lemma vec_set_map {A B} (g : A -> B) l i x : map g (vec_set l i x) = vec_set (map g l) i (g x).
Proof.
  unfold vec_set, vec_len. rewrite length_map. case_match; [|done]. apply list_fmap_insert.
Qed.

Lemma norm_JObject m : norm_json (JObject m) = JObject (map_values_with norm_json m).
Proof. done. Qed.
Lemma get_step_norm v s : get_step (norm_json v) s = norm_json <$> get_step v s.
Proof.
  destruct s as [k|i], v; try done; cbn.
  - by destruct (is_i64 _).
  - apply (map_get_map norm_json).
  - by destruct (is_i64 _).
  - apply vec_get_map.
Qed.
Lemma put_step_norm v s x : norm_json (put_step v s x) = put_step (norm_json v) s (norm_json x).
Proof.
  destruct s as [k|i], v; try done; cbn.
  - by destruct (is_i64 _).
  - f_equal. apply (obj_insert_map norm_json).
  - by destruct (is_i64 _).
  - f_equal. apply vec_set_map.
Qed.
Lemma get_steps_norm v ss : get_steps (norm_json v) ss = norm_json <$> get_steps v ss.
Proof.
  revert v. induction ss as [|s ss IH]; intros v; cbn; [done|].
  rewrite get_step_norm. destruct (get_step v s); cbn; [apply IH|done].
Qed.
Lemma put_steps_norm v ss x : norm_json (put_steps v ss x) = put_steps (norm_json v) ss (norm_json x).
Proof.
  revert v. induction ss as [|s ss IH]; intros v; cbn; [done|].
  rewrite get_step_norm. destruct (get_step v s); cbn; [|done]. by rewrite put_step_norm, IH.
Qed.

Lemma contains_map {A B} (g : A -> B) m k :
  map_contains_key (map_values_with g m) k = map_contains_key m k.
Proof.
  apply eq_true_iff_eq. rewrite !map_contains_key_get, map_get_map. apply fmap_is_Some.
Qed.
Lemma insert_parts_norm v parts x :
  norm_json (insert_parts v parts x) = insert_parts (norm_json v) parts (norm_json x).
Proof.
  revert v. induction parts as [|p parts IH]; intros v; [done|].
  destruct parts as [|p' parts].
  - destruct v; cbn; try done; [by destruct (is_i64 _)|]. f_equal. apply (obj_insert_map norm_json).
  - destruct v as [| | |u| | |m]; try done; [cbn; by destruct (is_i64 _)|].
    set (rest := p' :: parts) in *.
    change (norm_json (JObject m)) with (JObject (map_values_with norm_json m)).
    cbn [insert_parts]. fold rest. rewrite contains_map.
    set (m1 := if map_contains_key m p then m else obj_insert m p empty_object).
    assert ((if map_contains_key m p then map_values_with norm_json m
             else obj_insert (map_values_with norm_json m) p empty_object)
            = map_values_with norm_json m1) as ->.
    { unfold m1. destruct (map_contains_key m p); [done|]. by rewrite obj_insert_map. }
    pose proof (map_get_mut_spec m1 p) as H1.
    pose proof (map_get_mut_spec (map_values_with norm_json m1) p) as H2.
    rewrite map_get_map in H2.
    destruct (map_get_mut m1 p) as [[x1 put1]|], (map_get_mut (map_values_with norm_json m1) p) as [[x2 put2]|].
    + destruct H1 as [H1 Hp1], H2 as [H2 Hp2]. rewrite H1 in H2. cbn in H2. injection H2 as <-.
      rewrite Hp1, Hp2. unfold rest at 1 3. cbv iota. by rewrite norm_JObject, obj_insert_map, IH.
    + destruct H1 as [H1 _]. by rewrite H1 in H2.
    + destruct H2 as [H2 _]. by rewrite H1 in H2.
    + done.
Qed.
Lemma payload_fallback_norm v path x :
  norm_json (payload_fallback v path x) = payload_fallback (norm_json v) path (norm_json x).
Proof.
  unfold payload_fallback. destruct (_ && _)%bool; [|apply insert_parts_norm].
  destruct v; cbn; try done; [by destruct (is_i64 _)|]. f_equal. apply (obj_insert_map norm_json).
Qed.
Lemma payload_update_norm v path x :
  norm_json (payload_update v path x) = payload_update (norm_json v) path (norm_json x).
Proof.
  unfold payload_update, resolve_path_mut.
  destruct (str_is_empty path); [apply payload_fallback_norm|].
  destruct (ends_with_char "." path); [apply payload_fallback_norm|].
  destruct (parse_path_segments path) as [segs|]; [|apply payload_fallback_norm].
  pose proof (resolve_path_mut_inner_steps v segs) as H1.
  pose proof (resolve_path_mut_inner_steps (norm_json v) segs) as H2.
  rewrite get_steps_norm in H2.
  destruct (resolve_path_mut_inner v segs) as [[x1 put1]|],
    (resolve_path_mut_inner (norm_json v) segs) as [[x2 put2]|].
  - destruct H1 as [_ ->], H2 as [_ ->]. apply put_steps_norm.
  - destruct H1 as [H1 _]. by rewrite H1 in H2.
  - destruct H2 as [H2 _]. by rewrite H1 in H2.
  - apply payload_fallback_norm.
Qed.

(** * States *)

Definition norm_state (st : LogState) : LogState :=
  mk_state (norm_json (current_snapshot st)) (map norm_json (current_queue st)) (version st)
    (last_stable_version st).
Lemma next_state_norm st f : norm_state (next_state st f) = next_state (norm_state st) (norm_fact f).
Proof.
  destruct f; try done. unfold norm_state, next_state. cbn. by rewrite payload_update_norm.
Qed.
(** The state after a history. *)
Definition run_state (st : LogState) (fs : list Fact) : LogState := fold_left next_state fs st.
Lemma run_state_cons st f fs : run_state st (f :: fs) = run_state (next_state st f) fs.
Proof. done. Qed.
Lemma run_state_norm st fs :
  norm_state (run_state st fs) = run_state (norm_state st) (map norm_fact fs).
Proof.
  revert st. induction fs as [|f fs IH]; intros st; [done|].
  cbn [map]. by rewrite !run_state_cons, IH, next_state_norm.
Qed.
Lemma run_state_version st fs : (version st <= version (run_state st fs))%Z.
Proof.
  revert st. induction fs as [|f fs IH]; intros st; [cbn; lia|].
  rewrite run_state_cons. specialize (IH (next_state st f)). cbn [version next_state] in IH.
  pose proof (version_after_ge (version st) f). lia.
Qed.

(** * Replay *)

Section Replay.
Context {N S : Type} `{SerdeNumber N, SerdeText N, Blake3}.
Implicit Types (i : FactsLogInner S) (rs : list WalRecord).

Definition replayed (rs : list WalRecord) : list (Z * Fact) :=
  map (fun r => (version_before r, rec_fact r)) rs.
Lemma replay_loop_spec i rs :
  log_index i = indexes_of (history i) ->
  (version (run_state (log_state i) (map rec_fact rs)) <= u64_max)%Z ->
  replay_loop i rs = Ok (mk_inner (history i ++ replayed rs)
    (run_state (log_state i) (map rec_fact rs)) (last_hash i) (wal i) (log_fsync_on_flush i)
    (log_max_wal_size_bytes i) (indexes_of (history i ++ replayed rs)) (compacted_snapshot i)
    (next_anchor_id i)).
Proof.
  revert i. induction rs as [|r rs IH]; intros i Hix Hv; cbn [replay_loop].
  { cbn. rewrite app_nil_r, <- Hix. by destruct i. }
  cbn [map] in Hv |- *. rewrite run_state_cons in Hv |- *.
  pose proof (run_state_version (next_state (log_state i) (rec_fact r)) (map rec_fact rs)) as Hle.
  pose proof (apply_fact_spec (log_state i) (rec_fact r)) as Ha.
  cbn [version next_state] in Hle. unfold version_after in Hle.
  change (log_state (push_fact i (version_before r) (rec_fact r))) with (log_state i).
  assert (apply_fact_to_state (log_state i) (rec_fact r) = (next_state (log_state i) (rec_fact r), Ok tt))
    as ->.
  { destruct (bumps (rec_fact r)); cbn [andb] in Ha; [|done].
    destruct (Z.leb_spec u64_max (version (log_state i))); [lia|done]. }
  rewrite IH; cbn -[indexes_of]; [by rewrite <- app_assoc| |done].
  rewrite Hix, length_app, Nat.add_1_r. cbn. by rewrite indexes_snoc.
Qed.
End Replay.

(** * Recovery *)

Section Recovery.
Context {N S : Type} `{SerdeNumber N, SerdeText N, Blake3, FactWalStoreLaws S}.

Lemma recorded_versions p h rs q :
  recorded (N := N) p h rs q -> map version_before rs = map fst h.
Proof. induction 1; [done|]. rewrite !map_app. cbn. by f_equal. Qed.
Lemma recorded_some p h rs q :
  recorded (N := N) p h rs q -> Forall (fun r => is_some (rec_chain_hash r) = true) rs.
Proof. induction 1; [constructor|]. apply Forall_app. split; [done|]. by repeat constructor. Qed.
Lemma recorded_nil_inv p h q : recorded (N := N) p h [] q -> q = p.
Proof. inversion 1 as [|? rs]; [done|]. by destruct rs. Qed.

(** The records of a session carry its chain hash at the end. *)
Lemma recorded_replay h rs q :
  recorded (N := N) "genesis" h rs q ->
  (version (run_state state_new (map rec_fact rs)) <= u64_max)%Z ->
  exists log2 : FactsLog S, replay_wal_records (N := N) rs = Ok log2 /\
    log_last_hash log2 = q /\ history (inner log2) = replayed rs /\
    log_state (inner log2) = run_state state_new (map rec_fact rs) /\
    log_index (inner log2) = indexes_of (replayed rs).
Proof.
  intros Hr Hv. unfold replay_wal_records.
  rewrite (replay_loop_spec (inner log_new)) by done. cbn -[existsb indexes_of].
  destruct rs as [|r0 rs0] eqn:Ers.
  - apply recorded_nil_inv in Hr as ->. cbn. eexists. by split_and!.
  - rewrite <- Ers in *. assert (existsb (fun r => is_some (rec_chain_hash r)) rs = true) as ->.
    { apply existsb_exists. exists r0. apply recorded_some in Hr. subst rs.
      split; [by left|by inv Hr]. }
    destruct (last rs) as [r|] eqn:El.
    + rewrite (recorded_last _ _ _ _ _ Hr El). eexists. by split_and!.
    + apply last_None in El. congruence.
Qed.

Lemma read_back_state fs :
  norm_state (run_state state_new (map read_back fs)) = norm_state (run_state state_new fs).
Proof.
  rewrite !run_state_norm. f_equal. rewrite map_map. apply map_ext. apply read_back_norm.
Qed.
Lemma norm_state_version st st' : norm_state st = norm_state st' -> version st = version st'.
Proof. by intros [=]. Qed.

(** The invariant of a session that started empty: the state is the one its
    facts give. *)
Definition session_ok (log : FactsLog S) : Prop :=
  exists dropped rs, log_inv (N := N) log dropped rs /\
    is_some (wal (inner log)) = true /\
    log_state (inner log) = run_state state_new (map snd (dropped ++ history (inner log))).
Lemma append_keeps_wal (log log' : FactsLog S) f r :
  append (N := N) log f = (log', r) -> is_some (wal (inner log)) = true ->
  is_some (wal (inner log')) = true.
Proof.
  intros Ha Hw. unfold append in Ha. destruct (fact_hash f) as [c|]; [|by injection Ha as <- <-].
  destruct (write_ahead _ _ _ _ _ _) as [log1 u] eqn:Hwa. apply write_ahead_cases in Hwa as [_ Hwa].
  destruct (wal (inner log)) as [s|]; [|done]. destruct Hwa as (s' & r' & _ & Hs' & _).
  destruct u; [destruct (apply_fact_to_state _ _) as [st []]|]; injection Ha as <- <-; cbn; by rewrite Hs'.
Qed.
Lemma session_step_ok (log log' : FactsLog S) :
  session_step (N := N) log log' -> session_ok log -> session_ok log'.
Proof.
  intros Hs (dropped & rs & Hi & Hw & Hst). destruct Hs as [l f l' r Hwf Ha Hr|l|l|l].
  - destruct (inv_append _ _ _ _ _ _ Hi Hwf Ha Hr) as [rs' Hi']. exists dropped, rs'.
    split_and!; [done|by eapply append_keeps_wal|].
    destruct (append_state _ _ _ _ Ha Hr) as [[-> ->]|(v & -> & ->)]; [done|].
    rewrite app_assoc, map_app. unfold run_state. rewrite fold_left_app. cbn. by rewrite Hst.
  - destruct (inv_compact _ _ _ Hi) as (dropped' & Hi' & Heq). exists dropped', rs.
    split_and!; [done|..]; [|rewrite Heq]; rewrite compact_cases; by destruct (Nat.eqb _ _).
  - exists dropped, rs. split_and!; [by apply inv_rotate|..]; unfold rotate_wal;
      (destruct (wal (inner l)) as [s|]; [|done]); by destruct (store_rotate s).
  - exists dropped, rs. split_and!; [by destruct Hi|done|done].
Qed.
Lemma session_inv s0 fsync max (log : FactsLog S) :
  holds s0 [] ->
  rtc (session_step (N := N)) (with_inner (inner_new (Some s0) fsync max)) log ->
  session_ok log.
Proof.
  intros Hs0 Hsteps.
  assert (session_ok (with_inner (inner_new (Some s0) fsync max))) as Hok.
  { exists [], []. split_and!; [by apply fresh_inv, fresh_store|done|done]. }
  clear Hs0. revert Hok. induction Hsteps as [|l1 l2 l3 Hs _ IH]; [done|].
  intros Hok. by eapply IH, session_step_ok.
Qed.

(** The facts of the records are those the log ever accepted. *)
Lemma log_records (log : FactsLog S) dropped rs :
  log_inv (N := N) log dropped rs ->
  map rec_fact rs = map read_back (map snd dropped ++ log_history log) /\
  forallb wf_fact (map snd dropped ++ log_history log) = true /\
  (compacted_snapshot (inner log) = None -> map snd dropped = []) /\
  compute_chain_hash (N := N) (map snd dropped ++ log_history log) = Ok (log_last_hash log).
Proof.
  intros Hi. unfold log_history. rewrite <- map_app. split_and!.
  - rewrite map_map. by eapply recorded_facts, inv_recorded.
  - pose proof (inv_wf _ _ _ Hi) as Hwf. apply forallb_forall. intros f (vf & <- & Hin)%in_map_iff.
    rewrite List.Forall_forall in Hwf. by apply Hwf.
  - intros Hc. pose proof (inv_compacted _ _ _ Hi) as Hcomp. rewrite Hc in Hcomp. by subst.
  - rewrite compute_chain_hash_from. by eapply recorded_chain, inv_recorded.
Qed.

(** What a recovered log shares with the one that was lost. *)
Record same_log (log2 log : FactsLog S) : Prop := {
  same_hash : log_last_hash log2 = log_last_hash log;
  same_version : log_version log2 = log_version log;
  same_stable : log_last_stable_version log2 = log_last_stable_version log;
  same_state : norm_state (log_state (inner log2)) = norm_state (log_state (inner log));
  same_history : exists dropped,
    map (prod_map id norm_fact) (history (inner log2)) =
    map (prod_map id norm_fact) (dropped ++ history (inner log)) /\
    (compacted_snapshot (inner log) = None -> dropped = []);
}.
Lemma session_replay (log : FactsLog S) :
  session_ok log ->
  exists s rs log2 dropped, wal (inner log) = Some s /\ holds s rs /\
    map rec_fact rs = map read_back (dropped ++ log_history log) /\
    forallb wf_fact (dropped ++ log_history log) = true /\
    (compacted_snapshot (inner log) = None -> dropped = []) /\
    compute_chain_hash (N := N) (dropped ++ log_history log) = Ok (log_last_hash log) /\
    replay_wal_records (N := N) (S := S) rs = Ok log2 /\ same_log log2 log.
Proof.
  intros (dropped & rs & Hi & Hw & Hst).
  pose proof (inv_recorded _ _ _ Hi) as Hrec. pose proof (inv_store _ _ _ Hi) as Hstore.
  pose proof (inv_version _ _ _ Hi) as Hver. pose proof (inv_compacted _ _ _ Hi) as Hcomp.
  destruct (wal (inner log)) as [s|] eqn:Hwal; [|done].
  pose proof (recorded_facts _ _ _ _ Hrec) as Hfacts.
  pose proof (recorded_versions _ _ _ _ Hrec) as Hvers.
  assert (norm_state (run_state state_new (map rec_fact rs)) = norm_state (log_state (inner log)))
    as Hsame.
  { rewrite Hst, Hfacts, <- (map_map snd read_back). apply read_back_state. }
  destruct (recorded_replay _ _ _ Hrec) as (log2 & Hr & Hh & Hhist & Hst2 & _).
  { rewrite (norm_state_version _ _ Hsame). done. }
  destruct (log_records _ _ _ Hi) as (Hlf & Hlw & Hld & Hlc).
  exists s, rs, log2, (map snd dropped). split_and!; [done..|]. rewrite <- Hst2 in Hsame.
  split; [done|by apply norm_state_version|by injection Hsame|done|].
  exists dropped. split; [|intros Hc; by rewrite Hc in Hcomp].
  rewrite Hhist. unfold replayed. rewrite map_map. clear -Hfacts Hvers.
  revert Hfacts Hvers. generalize (dropped ++ history (inner log)). intros h. revert h.
  induction rs as [|r rs IH]; intros [|[v f] h]; cbn; try done.
  intros [= Hf Hfs] [= Hv Hvs]. f_equal; [|by apply IH].
  unfold prod_map. cbn. by rewrite Hv, Hf, read_back_norm.
Qed.
End Recovery.

(** Replay restores the log.  Whatever a session did with a lawful store
    (appends accepted or refused, compactions, rotations), the store holds
    records from which [replay_wal_records] rebuilds a log with the same
    chain hash, version, last stable version and state, and the whole
    history, including what compaction had dropped from memory, up to the
    integer variant in which the store reads numbers back. *)
Lemma replay_restores_log {N S} `{SerdeNumber N, SerdeText N, Blake3, FactWalStoreLaws S}
    (s0 : S) (fsync : bool) (max : Z) (log : FactsLog S) :
  holds s0 [] ->
  rtc (session_step (N := N)) (with_inner (inner_new (Some s0) fsync max)) log ->
  exists s rs log2, wal (inner log) = Some s /\ holds s rs /\
    replay_wal_records (N := N) (S := S) rs = Ok log2 /\ same_log log2 log.
Proof.
  intros Hs0 Hsteps. destruct (session_replay (N := N) log) as (s & rs & log2 & _ & Hw & Hh & _ & _ & _ & _ & Hr & Hs).
  { by eapply session_inv. }
  by exists s, rs, log2.
Qed.

(** C38: recovery from the files restores the log.  A log with the file
    backend, created at a path without stale shards and used by any session,
    holds in its files all the facts it ever accepted, those compaction has
    dropped from memory included (the chain hash of these facts is the log's).
    When each of them nests below the recursion limit of the parser, reading,
    replaying and remounting succeed, with any size limit, and the recovered
    log has the same chain hash, version, last stable version, state and full
    history (up to the integer variant), with the log file mounted for the
    next append.  When one of them is deeper, which the log accepts,
    recovery is an error. *)
Theorem recover_restores_log {N} `{SerdeNumberLaws N, SerdeText N, !SerdeTextLaws N, Blake3}
    (fs : Files) (path : WalPath) (max max' : Z) (fsync fsync' : bool)
    (log : FactsLog (Files * WalWriter)) :
  (forall i, 0 < i -> fs !! path_string (build_rotated_path path i) = None) ->
  rtc (session_step (N := N)) (with_wal_options fs path max fsync) log ->
  exists fs' w' dropped, wal (inner log) = Some (fs', w') /\
    (compacted_snapshot (inner log) = None -> dropped = []) /\
    compute_chain_hash (N := N) (dropped ++ log_history log) = Ok (log_last_hash log) /\
    if forallb (readable_fact (N := N)) (dropped ++ log_history log) then
      exists log2 store2,
        recover_with_options (N := N) fs' path max' fsync' = Some (Ok log2) /\
        wal (inner log2) = Some store2 /\ same_log log2 log
    else exists err, recover_with_options (N := N) fs' path max' fsync' = Some (Err err).
Proof.
  intros Hfresh Hsteps. pose (laws := file_store_laws path).
  assert (holds (FactWalStoreLaws := laws) (create_with_options fs path max fsync) []) as Hs0.
  { exists [[]]. split_and!; [by apply stored_create|done|done]. }
  destruct (session_replay (H3 := laws) log) as ([fs' w'] & rs & log2 & dropped & Hw & Hh & Hf & Hwf & Hd & Hc & Hr & Hs).
  { by eapply session_inv. }
  destruct (files_hold_read _ _ _ _ Hh Hf Hwf) as (r & Hread & Hrs). cbn [fst] in Hread.
  exists fs', w', dropped. split_and!; [done..|]. unfold recover_with_options. rewrite Hread.
  destruct (forallb (readable_fact (N := N)) _); [subst r|by destruct Hrs as [err ->]; eexists].
  destruct Hh as (sh & Hst & _). destruct (stored_reopen _ _ _ _ max' fsync' Hst) as (store2 & Hre & _).
  rewrite Hr, Hre. eexists _, store2. split_and!; [done|done|]. by destruct Hs.
Qed.

Import ZNumber.
#[local] Existing Instance ZText.text.
#[local] Existing Instance ZText.text_laws.
#[local] Existing Instance ZHash.hash.
Lemma replay_restores_log_witness :
  exists s rs log2,
    wal (inner Demo.log) = Some s /\ holds s rs /\
    replay_wal_records (N := Z) (S := MemoryWalStore) rs = Ok log2 /\ same_log log2 Demo.log.
Proof.
  refine (replay_restores_log (N := Z) [] false _ Demo.log eq_refl _).
  apply append_all_steps; reflexivity.
Defined.
Lemma recover_restores_log_witness :
  let log := append_all (N := Z) (with_wal_options ∅ (mk_path "" "s.wal") 300 false) Demo.facts in
  exists fs' w' log2 store2, wal (inner log) = Some (fs', w') /\
    recover_with_options (N := Z) fs' (mk_path "" "s.wal") 0 true = Some (Ok log2) /\
    wal (inner log2) = Some store2 /\ same_log log2 log.
Proof.
  intros log.
  destruct (recover_restores_log (N := Z) ∅ (mk_path "" "s.wal") 300 0 false true log)
    as (fs' & w' & dropped & Hw & Hd & _ & Hr).
  - intros i _. apply lookup_empty.
  - apply append_all_steps; [reflexivity|vm_compute; reflexivity].
  - rewrite Hd in Hr by (vm_compute; reflexivity).
    replace (forallb _ _) with true in Hr by (vm_compute; reflexivity).
    destruct Hr as (log2 & store2 & ?). by exists fs', w', log2, store2.
Defined.
(** A payload update with 126 nested arrays nests 127 deep as a fact and 128
    as a record: the log accepts it (version one), and can no longer be
    recovered, while with one array less it can. *)
Definition nested (n : nat) : JsonValue := Nat.iter n (fun v => JArray [v]) JNull.
Definition nested_log (n : nat) : FactsLog (Files * WalWriter) :=
  append_all (N := Z) (with_wal_options ∅ (mk_path "" "s.wal") 300 false)
    [PayloadUpdate 1%Z "mem.a" (nested n)].
Definition recover_nested (n : nat) : option (Result Z FactsLogError) :=
  let! s := wal (inner (nested_log n)) in
  let! r := recover_with_options (N := Z) (fst s) (mk_path "" "s.wal") 300 false in
  Some (result_map log_version r).
Lemma deep_fact_unrecoverable :
  log_version (nested_log 126) = 1%Z /\ log_version (nested_log 125) = 1%Z /\
  recover_nested 125 = Some (Ok 1%Z) /\
  (exists err, recover_nested 126 = Some (Err err)).
Proof. vm_compute. split_and!; try reflexivity. by eexists. Qed.
