(* ===== verification/Phase.v ===== *)
(** The control phases of the reactor, [evorule-reactor/src/phase.rs], and its
    stability detector, [evorule-reactor/src/stable_detector.rs]. *)

From S2P Require Import Prelude.

(** [enum ReactorPhase]. *)
Inductive ReactorPhase : Type :=
| Idle | Draining | Executing | AwaitingIo | PhStable | PhError.
#[export] Instance ReactorPhase_eq_dec : EqDecision ReactorPhase.
Proof. solve_decision. Defined.
Definition phase_as_str (p : ReactorPhase) : string :=
  match p with
  | Idle => "idle"
  | Draining => "draining"
  | Executing => "executing"
  | AwaitingIo => "awaiting_io"
  | PhStable => "stable"
  | PhError => "error"
  end.

(** [struct PhaseContext]. *)
Record PhaseContext : Type := mk_context {
  queue_empty : bool;
  pending_io : nat;
  ctx_steps : nat;
  drained_any : bool;
}.
Definition post_execution (ctx : PhaseContext) : ReactorPhase :=
  if (0 <? ctx_steps ctx)%nat then PhStable else Idle.
Definition next_after_draining (ctx : PhaseContext) : ReactorPhase :=
  if (0 <? pending_io ctx)%nat then AwaitingIo
  else if negb (queue_empty ctx) then Executing
  else if (0 <? ctx_steps ctx)%nat then PhStable
  else Idle.
Definition next_after_executing (ctx : PhaseContext) : ReactorPhase :=
  if (0 <? pending_io ctx)%nat then AwaitingIo
  else if queue_empty ctx then post_execution ctx
  else Executing.
Definition phase_next (p : ReactorPhase) (ctx : PhaseContext) : ReactorPhase :=
  match p with
  | Idle => Draining
  | Draining => next_after_draining ctx
  | Executing => next_after_executing ctx
  | AwaitingIo | PhStable | PhError => Idle
  end.

(** [struct StableDetector]; the counters are machine words. *)
Record StableDetector : Type := mk_detector { stable_count : Z; threshold : Z }.
Definition detector_new : StableDetector := mk_detector 0 1.
Definition with_threshold (threshold : Z) : StableDetector := mk_detector 0 (Z.max threshold 1).
Definition detector_is_stable (queue_len pending_io_count : nat) : bool :=
  Nat.eqb queue_len 0 && Nat.eqb pending_io_count 0.
Definition observe (d : StableDetector) (queue_len pending_io_count : nat) : StableDetector * bool :=
  let count :=
    if detector_is_stable queue_len pending_io_count then u64_saturating_add (stable_count d) 1
    else 0%Z in
  (mk_detector count (threshold d), (threshold d <=? count)%Z).
Definition detector_reset (d : StableDetector) : StableDetector := mk_detector 0 (threshold d).

(** The phase function and the detector agree on when a drained or executed
    reactor is stable. *)
Lemma phase_next_stable p ctx :
  p = Draining \/ p = Executing ->
  phase_next p ctx = PhStable <->
  detector_is_stable (if queue_empty ctx then 0 else 1) (pending_io ctx) = true /\ 0 < ctx_steps ctx.
Proof.
  destruct ctx as [[] [|io] [|s] d]; intros [-> | ->]; cbn; split; intros Hp;
    (discriminate || (destruct Hp; (discriminate || lia)) || (split; [done|lia]) || done).
Qed.
