(* ===== verification/ReactorState.v ===== *)
(** The state of the reactor, [evorule-reactor/src/state.rs], and its
    structural self-check, [evorule-reactor/src/invariants.rs]. *)

From S2P Require Import Prelude ObjectMap Value Error Path Domain Executor ExecSemantics Transition Fact Phase.

(** [struct ReactorState].  Instants and durations are nanoseconds. *)
Record ReactorState : Type := mk_rstate {
  rs_payload : JsonValue;
  rs_queue : list JsonValue;
  rs_version : Z;
  rs_prev_version : Z;
  pending_io_count : nat;
  pending_requests : gset Z;
  pending_io_instructions : gmap Z (JsonValue * FactId);
  instruction_causes : list FactId;
  pending_io_timestamps : gmap Z Z;
  pending_io_types : gmap Z IoType;
  io_recovery : bool;
  rs_phase : ReactorPhase;
  structural_invariant_violations : Z;
}.
Definition rstate_new : ReactorState :=
  mk_rstate empty_object [] 0 0 0 ∅ ∅ [] ∅ ∅ false Idle 0.

(** Field updates. *)
Definition with_payload (s : ReactorState) (v : JsonValue) : ReactorState :=
  mk_rstate v (rs_queue s) (rs_version s) (rs_prev_version s) (pending_io_count s)
    (pending_requests s) (pending_io_instructions s) (instruction_causes s)
    (pending_io_timestamps s) (pending_io_types s) (io_recovery s) (rs_phase s)
    (structural_invariant_violations s).
Definition with_queue (s : ReactorState) (q : list JsonValue) (c : list FactId) : ReactorState :=
  mk_rstate (rs_payload s) q (rs_version s) (rs_prev_version s) (pending_io_count s)
    (pending_requests s) (pending_io_instructions s) c
    (pending_io_timestamps s) (pending_io_types s) (io_recovery s) (rs_phase s)
    (structural_invariant_violations s).
Definition with_versions (s : ReactorState) (v p : Z) : ReactorState :=
  mk_rstate (rs_payload s) (rs_queue s) v p (pending_io_count s)
    (pending_requests s) (pending_io_instructions s) (instruction_causes s)
    (pending_io_timestamps s) (pending_io_types s) (io_recovery s) (rs_phase s)
    (structural_invariant_violations s).
Definition with_pending (s : ReactorState) (n : nat) (r : gset Z)
    (i : gmap Z (JsonValue * FactId)) (ts : gmap Z Z) (ty : gmap Z IoType) : ReactorState :=
  mk_rstate (rs_payload s) (rs_queue s) (rs_version s) (rs_prev_version s) n r i
    (instruction_causes s) ts ty (io_recovery s) (rs_phase s) (structural_invariant_violations s).
Definition with_recovery (s : ReactorState) (b : bool) : ReactorState :=
  mk_rstate (rs_payload s) (rs_queue s) (rs_version s) (rs_prev_version s) (pending_io_count s)
    (pending_requests s) (pending_io_instructions s) (instruction_causes s)
    (pending_io_timestamps s) (pending_io_types s) b (rs_phase s)
    (structural_invariant_violations s).
Definition with_phase (s : ReactorState) (p : ReactorPhase) : ReactorState :=
  mk_rstate (rs_payload s) (rs_queue s) (rs_version s) (rs_prev_version s) (pending_io_count s)
    (pending_requests s) (pending_io_instructions s) (instruction_causes s)
    (pending_io_timestamps s) (pending_io_types s) (io_recovery s) p
    (structural_invariant_violations s).
Definition with_violations (s : ReactorState) (n : Z) : ReactorState :=
  mk_rstate (rs_payload s) (rs_queue s) (rs_version s) (rs_prev_version s) (pending_io_count s)
    (pending_requests s) (pending_io_instructions s) (instruction_causes s)
    (pending_io_timestamps s) (pending_io_types s) (io_recovery s) (rs_phase s) n.

(** [version += 1] in a release build. *)
Definition bump_version (s : ReactorState) : ReactorState :=
  with_versions s (u64_wrapping_add (rs_version s) 1) (rs_version s).
Definition rs_is_stable (s : ReactorState) : bool :=
  Nat.eqb (length (rs_queue s)) 0 && Nat.eqb (pending_io_count s) 0.
Definition queue_len (s : ReactorState) : nat := length (rs_queue s).

(** * The instruction queue and its causes *)

Definition pop_instruction (s : ReactorState) : option ((JsonValue * FactId) * ReactorState) :=
  match rs_queue s with
  | [] => None
  | instr :: queue =>
      match instruction_causes s with
      | [] => Some ((instr, 0%Z), with_queue s queue [])
      | cause :: causes => Some ((instr, cause), with_queue s queue causes)
      end
  end.
Definition push_front (s : ReactorState) (instruction : JsonValue) (cause : FactId) : ReactorState :=
  with_queue s (instruction :: rs_queue s) (cause :: instruction_causes s).
Definition push_front_all (s : ReactorState) (instructions : list JsonValue) (cause : FactId) :
    ReactorState :=
  fold_left (fun s instr => push_front s instr cause) (rev instructions) s.
Definition push_back (s : ReactorState) (instruction : JsonValue) (cause : FactId) : ReactorState :=
  with_queue s (rs_queue s ++ [instruction]) (instruction_causes s ++ [cause]).
Definition push_back_all (s : ReactorState) (instructions : list JsonValue) (cause : FactId) :
    ReactorState :=
  fold_left (fun s instr => push_back s instr cause) instructions s.
Definition clear_queue (s : ReactorState) : ReactorState := with_queue s [] [].
Definition update_queue_with_causes (s : ReactorState) (new_queue : list JsonValue)
    (current_cause : FactId) : ReactorState :=
  let old_len := length (rs_queue s) in
  let old_causes := instruction_causes s in
  let new_count := (length new_queue - old_len)%nat in
  let cause i :=
    if (i <? new_count)%nat then current_cause
    else default current_cause (old_causes !! (i - new_count)%nat) in
  with_queue s new_queue (map cause (seq 0 (length new_queue))).

(** * Pending I/O *)

Definition register_io_request_at (s : ReactorState) (id : FactId) (io_type : IoType) (now : Z) :
    ReactorState :=
  if decide (id ∈ pending_requests s) then s
  else with_pending s (S (pending_io_count s)) ({[id]} ∪ pending_requests s)
         (pending_io_instructions s) (<[id := now]> (pending_io_timestamps s))
         (<[id := io_type]> (pending_io_types s)).
(** [register_io_request] reads the system clock. *)
Definition register_io_request (s : ReactorState) (id : FactId) (io_type : IoType) (system_now : Z) :
    ReactorState :=
  register_io_request_at s id io_type system_now.
Definition get_io_type (s : ReactorState) (id : FactId) : option IoType := pending_io_types s !! id.
Definition complete_io_request (s : ReactorState) (id : FactId) : ReactorState * bool :=
  if decide (id ∈ pending_requests s) then
    (with_pending s (pending_io_count s - 1)%nat (pending_requests s ∖ {[id]})
       (pending_io_instructions s) (delete id (pending_io_timestamps s))
       (delete id (pending_io_types s)), true)
  else (s, false).
(** [BTreeMap] iteration: keys in increasing order. *)
Fixpoint insert_sorted (k : Z) (l : list Z) : list Z :=
  match l with
  | [] => [k]
  | x :: l' => if (k <=? x)%Z then k :: l else x :: insert_sorted k l'
  end.
Definition sorted_keys {A} (m : gmap Z A) : list Z :=
  fold_right insert_sorted [] (map fst (map_to_list m)).
Definition sorted_entries {A} (m : gmap Z A) : list (Z * A) :=
  omap (fun k => let! x := m !! k in Some (k, x)) (sorted_keys m).
(** [Instant::duration_since] saturates at zero. *)
Definition duration_since (now t : Z) : Z := Z.max 0 (now - t).
Definition scan_io_timeouts_at (s : ReactorState) (now warn_timeout error_timeout : Z) :
    list FactId * list FactId :=
  let elapsed kt := duration_since now (snd kt) in
  let entries := sorted_entries (pending_io_timestamps s) in
  (map fst (List.filter (fun kt =>
     negb (error_timeout <=? elapsed kt)%Z && (warn_timeout <=? elapsed kt)%Z) entries),
   map fst (List.filter (fun kt => (error_timeout <=? elapsed kt)%Z) entries)).
Definition scan_io_timeouts (s : ReactorState) (system_now warn_timeout error_timeout : Z) :
    list FactId * list FactId :=
  scan_io_timeouts_at s system_now warn_timeout error_timeout.
Definition force_remove_io_request (s : ReactorState) (id : FactId) : ReactorState :=
  if decide (id ∈ pending_requests s) then
    with_pending s (pending_io_count s - 1)%nat (pending_requests s ∖ {[id]})
      (delete id (pending_io_instructions s)) (delete id (pending_io_timestamps s))
      (delete id (pending_io_types s))
  else s.
Definition with_instructions (s : ReactorState) (m : gmap Z (JsonValue * FactId)) : ReactorState :=
  with_pending s (pending_io_count s) (pending_requests s) m (pending_io_timestamps s)
    (pending_io_types s).
Definition save_io_instruction (s : ReactorState) (id : FactId) (instruction : JsonValue)
    (cause : FactId) : ReactorState :=
  with_instructions s (<[id := (instruction, cause)]> (pending_io_instructions s)).
Definition take_io_instruction (s : ReactorState) (id : FactId) :
    ReactorState * option (JsonValue * FactId) :=
  (with_instructions s (delete id (pending_io_instructions s)), pending_io_instructions s !! id).
Definition clear_io_result (s : ReactorState) : ReactorState :=
  match rs_payload s with
  | JObject map => with_payload s (JObject (obj_remove map "__io_results__"))
  | _ => s
  end.
Definition clear_io_recovery (s : ReactorState) : ReactorState :=
  with_recovery (clear_io_result s) false.

(** * The structural self-check *)

(** [enum InvariantViolation]. *)
Inductive InvariantViolation : Type :=
| IoCountMismatch (count requests_len timestamps_len : nat)
| IoRecoveryWithoutResult
| VersionDecreased (current previous : Z)
| ResultWithoutIoRecovery
| RecoveryWhileAwaitingIo.
Definition violation_as_str (v : InvariantViolation) : string :=
  match v with
  | IoCountMismatch _ _ _ => "io_count_mismatch"
  | IoRecoveryWithoutResult => "io_recovery_without_result"
  | VersionDecreased _ _ => "version_decreased"
  | ResultWithoutIoRecovery => "result_without_io_recovery"
  | RecoveryWhileAwaitingIo => "recovery_while_awaiting_io"
  end.
Definition violation_display (v : InvariantViolation) : string :=
  match v with
  | IoCountMismatch count requests_len timestamps_len =>
      "IoCountMismatch: count=" +:+ pretty (N.of_nat count) +:+ ", requests_len="
      +:+ pretty (N.of_nat requests_len) +:+ ", timestamps_len=" +:+ pretty (N.of_nat timestamps_len)
  | IoRecoveryWithoutResult =>
      "IoRecoveryWithoutResult: io_recovery=true but __io_results__ has no non-null result"
  | VersionDecreased current previous =>
      "VersionDecreased: current=" +:+ pretty current +:+ " < previous=" +:+ pretty previous
  | ResultWithoutIoRecovery =>
      "ResultWithoutIoRecovery: __io_results__ has non-null result but io_recovery=false"
  | RecoveryWhileAwaitingIo =>
      "RecoveryWhileAwaitingIo: pending_io>0, queue empty, io_recovery=true"
  end.

Definition has_io_result (payload : JsonValue) : bool :=
  match json_get payload "__io_results__" with
  | Some (JObject map) => existsb (fun v => negb (is_null v)) (map_values map)
  | _ => false
  end.
Definition check_io_count_consistency (s : ReactorState) : list InvariantViolation :=
  let req_len := size (pending_requests s) in
  let ts_len := size (pending_io_timestamps s) in
  if (negb (Nat.eqb (pending_io_count s) req_len) || negb (Nat.eqb (pending_io_count s) ts_len))%bool
  then [IoCountMismatch (pending_io_count s) req_len ts_len] else [].
Definition check_io_recovery_consistency (s : ReactorState) : list InvariantViolation :=
  let has_result := has_io_result (rs_payload s) in
  (if io_recovery s && negb has_result then [IoRecoveryWithoutResult] else [])
  ++ (if has_result && negb (io_recovery s) then [ResultWithoutIoRecovery] else []).
Definition check_version_monotonic (s : ReactorState) : list InvariantViolation :=
  if (rs_version s <? rs_prev_version s)%Z
  then [VersionDecreased (rs_version s) (rs_prev_version s)] else [].
Definition check_no_recovery_conflict (s : ReactorState) : list InvariantViolation :=
  if ((0 <? pending_io_count s)%nat && Nat.eqb (length (rs_queue s)) 0 && io_recovery s
      && negb (has_io_result (rs_payload s)))%bool
  then [RecoveryWhileAwaitingIo] else [].
Definition check_invariants (s : ReactorState) (steps : nat) : list InvariantViolation :=
  check_io_count_consistency s ++ check_io_recovery_consistency s
  ++ check_version_monotonic s ++ check_no_recovery_conflict s.
