(* ===== verification/Reactor.v ===== *)
(** The reactor, [evorule-reactor/src/reactor.rs]: its configuration, the
    handling of incoming facts, the execution of queued instructions and the
    main loop; and the pure variant of its operations,
    [evorule-reactor/src/pure.rs].

    The main loop is a function of what one iteration receives from outside:
    the flags its handle has set, the facts it drains from the command
    channel, what the blocking wait gives, and the readings of the clocks. *)

From S2P Require Import Prelude ObjectMap Value Error Path Domain Executor ExecSemantics Transition Fact Serde Hash Wal WalFile FactsLog Phase ReactorState.

(** [enum ReactorError]. *)
Inductive ReactorError : Type :=
| ChannelClosed
| MaxRoundsExceeded (rounds max_rounds : nat)
| RTcbError (message : string)
| RInvalidState (field : string)
| Cancelled
| TaskJoinError (message : string).
Definition reactor_error_display (e : ReactorError) : string :=
  match e with
  | ChannelClosed => "fact channel closed"
  | MaxRoundsExceeded rounds max_rounds =>
      "max rounds exceeded: " +:+ pretty (N.of_nat rounds) +:+ " > " +:+ pretty (N.of_nat max_rounds)
  | RTcbError message => "TCB error: " +:+ message
  | RInvalidState field => "invalid state: missing " +:+ field
  | Cancelled => "reactor cancelled"
  | TaskJoinError message => "task join error: " +:+ message
  end.
Definition reactor_error_from (err : TcbError) : ReactorError := RTcbError (tcb_error_display err).

(** * Configuration *)

Definition DEFAULT_MAX_QUEUE_LEN : nat := 1000.
Definition SNAPSHOT_UPDATE_INTERVAL : nat := 100.
Definition NANOS_PER_SEC : Z := 1000000000.

(** The fields of [struct ReactorBuilder] and [struct Reactor] that the loop
    reads; durations in nanoseconds. *)
Record Reactor : Type := mk_reactor {
  core_eval : list JsonValue;
  max_rounds : nat;
  max_queue_len : nat;
  io_warn_timeout : Z;
  io_error_timeout : Z;
  fact_id_start : option Z;
  known_io_types : option (gset string);
}.
Definition reactor_new (core_eval : list JsonValue) : Reactor :=
  mk_reactor core_eval (N.to_nat 10000) DEFAULT_MAX_QUEUE_LEN
    (30 * NANOS_PER_SEC) (60 * NANOS_PER_SEC) None None.

(** [struct PendingIoEntry], [struct ReactorStateSnapshot] and
    [struct InvariantScanReport]. *)
Record PendingIoEntry : Type := mk_pending { pe_id : FactId; pe_io_type : IoType; pe_started_at : Z }.
Record ReactorStateSnapshot : Type := mk_snapshot {
  ss_phase : ReactorPhase;
  ss_version : Z;
  ss_violations : Z;
  ss_pending_io_count : nat;
  ss_pending_io : list PendingIoEntry;
  ss_steps : nat;
  ss_queue_len : nat;
  ss_finished : bool;
}.
Record InvariantScanReport : Type := mk_report {
  report_steps : nat;
  report_violations : list InvariantViolation;
}.

(** Everything the running reactor owns or shares: its local variables
    [state], [id_gen] and [steps], the facts log, what it has sent on the
    event channel, and the flags, snapshot and report shared with its
    handle. *)
Record World (S : Type) : Type := mk_world {
  w_state : ReactorState;
  w_log : FactsLog S;
  w_events : list Fact;
  w_ids : FactIdGenerator;
  w_steps : nat;
  w_interrupt : bool;
  w_cancel_all : bool;
  w_snapshot : ReactorStateSnapshot;
  w_report : InvariantScanReport;
}.
Arguments mk_world {S}.
Arguments w_state {S}.
Arguments w_log {S}.
Arguments w_events {S}.
Arguments w_ids {S}.
Arguments w_steps {S}.
Arguments w_interrupt {S}.
Arguments w_cancel_all {S}.
Arguments w_snapshot {S}.
Arguments w_report {S}.

Definition set_state {S} (w : World S) (s : ReactorState) : World S :=
  mk_world s (w_log w) (w_events w) (w_ids w) (w_steps w) (w_interrupt w) (w_cancel_all w)
    (w_snapshot w) (w_report w).
Definition set_steps {S} (w : World S) (n : nat) : World S :=
  mk_world (w_state w) (w_log w) (w_events w) (w_ids w) n (w_interrupt w) (w_cancel_all w)
    (w_snapshot w) (w_report w).
Definition set_flags {S} (w : World S) (interrupt cancel_all : bool) : World S :=
  mk_world (w_state w) (w_log w) (w_events w) (w_ids w) (w_steps w) interrupt cancel_all
    (w_snapshot w) (w_report w).
Definition set_phase {S} (w : World S) (p : ReactorPhase) : World S :=
  set_state w (with_phase (w_state w) p).
Definition fresh_id {S} (w : World S) : FactId * World S :=
  let '(id, ids) := next_id (w_ids w) in
  (id, mk_world (w_state w) (w_log w) (w_events w) ids (w_steps w) (w_interrupt w)
         (w_cancel_all w) (w_snapshot w) (w_report w)).

(** [update_snapshot] and [run_invariant_check]. *)
Definition pending_entries (s : ReactorState) : list PendingIoEntry :=
  omap (fun kt => let! ty := pending_io_types s !! fst kt in Some (mk_pending (fst kt) ty (snd kt)))
    (sorted_entries (pending_io_timestamps s)).
Definition update_snapshot {S} (w : World S) (finished : bool) : World S :=
  let s := w_state w in
  mk_world s (w_log w) (w_events w) (w_ids w) (w_steps w) (w_interrupt w) (w_cancel_all w)
    (mk_snapshot (rs_phase s) (rs_version s) (structural_invariant_violations s)
       (pending_io_count s) (if (0 <? pending_io_count s)%nat then pending_entries s else [])
       (w_steps w) (queue_len s) finished)
    (w_report w).
Definition run_invariant_check {S} (w : World S) : World S :=
  let violations := check_invariants (w_state w) (w_steps w) in
  let s := with_violations (w_state w)
    (u64_saturating_add (structural_invariant_violations (w_state w))
       (Z.of_nat (length violations))) in
  mk_world s (w_log w) (w_events w) (w_ids w) (w_steps w) (w_interrupt w) (w_cancel_all w)
    (w_snapshot w) (mk_report (w_steps w) violations).

(** * Facts that arrive *)

(** The walk of [update_payload] over the parts of a path of two or more. *)
Fixpoint update_parts (current : JsonValue) (parts : list string) (value : JsonValue) :
    JsonValue * Result unit ReactorError :=
  match parts with
  | [] => (current, Err (RInvalidState "payload path is empty"))
  | [field] =>
      match current with
      | JObject map => (JObject (obj_insert map field value), Ok tt)
      | _ => (current, Err (RInvalidState "parent path is not an object"))
      end
  | part :: rest =>
      match current with
      | JObject map =>
          let map := if map_contains_key map part then map else obj_insert map part empty_object in
          match map_get_mut map part with
          | Some (next, put) =>
              let '(next, r) := update_parts next rest value in (JObject (put next), r)
          | None => (JObject map, Err (RInvalidState "failed to access nested path"))
          end
      | _ => (current, Err (RInvalidState "intermediate path is not an object"))
      end
  end.
Definition update_payload (payload : JsonValue) (path : string) (value : JsonValue) :
    JsonValue * Result unit ReactorError :=
  match resolve_path_mut payload path with
  | Some (_, put) => (put value, Ok tt)
  | None =>
      match split_char "." path with
      | [field] =>
          match payload with
          | JObject map => (JObject (obj_insert map field value), Ok tt)
          | _ => (payload, Err (RInvalidState "payload is not an object"))
          end
      | parts => update_parts payload parts value
      end
  end.
Definition inject_io_result (payload : JsonValue) (io_type : IoType) (result : JsonValue) :
    JsonValue * Result unit ReactorError :=
  update_payload payload ("__io_results__." +:+ io_type) result.

(** [handle_fact], the part that only touches the state.  [false] asks for the
    Error fact of a response to no pending request. *)
Definition resume_instruction (s : ReactorState) (request_id : FactId) : ReactorState :=
  match take_io_instruction s request_id with
  | (s, Some (orig_instruction, orig_cause)) =>
      with_recovery (push_front s orig_instruction orig_cause) true
  | (s, None) => s
  end.
Definition handle_io_response (s : ReactorState) (request_id : FactId) (result : JsonValue)
    (error : option string) : ReactorState * Result bool ReactorError :=
  let io_type := get_io_type s request_id in
  match complete_io_request s request_id with
  | (s, false) => (s, Ok false)
  | (s, true) =>
      if (is_null result || is_some error)%bool then
        (bump_version (fst (take_io_instruction s request_id)), Ok true)
      else
        let '(payload, r) :=
          match io_type with
          | Some io_type => inject_io_result (rs_payload s) io_type result
          | None => (rs_payload s, Ok tt)
          end in
        let s := with_payload s payload in
        match r with
        | Err e => (s, Err e)
        | Ok _ => (bump_version (resume_instruction s request_id), Ok true)
        end
  end.

Section Run.
Context {N S : Type} `{SerdeNumber N, SerdeText N, Blake3, FactWalStore S}.
(** The derived [Debug] text of a value, which only error messages use. *)
Variable debug_json : JsonValue -> string.
Variable cfg : Reactor.
Implicit Types w : World S.

(** [emit_fact]: append to the log, then send.  The escalation callback that
    [spawn] registers runs inside the append: it stores the interrupt flag
    and sends an Error fact of its own. *)
Definition emit_fact w (fact : Fact) : World S :=
  let '(log, _) := append_async (N := N) (w_log w) fact in
  let guidance := drop (length (escalations (w_log w))) (escalations log) in
  mk_world (w_state w) log
    (w_events w ++ map (fun g => FError u64_max g) guidance ++ [fact])
    (w_ids w) (w_steps w)
    (w_interrupt w || negb (Nat.eqb (length guidance) 0)) (w_cancel_all w)
    (w_snapshot w) (w_report w).
(** [let id = id_gen.next_id(); ... emit_fact(fact).await]. *)
Definition emit_new w (fact : FactId -> Fact) : World S :=
  let '(id, w) := fresh_id w in emit_fact w (fact id).
Definition emit_error w (message : string) : World S := emit_new w (fun id => FError id message).
Definition emit_stable w : World S := emit_new w (fun id => Stable id (rs_version (w_state w))).

Definition stale_response_message (request_id : FactId) : string :=
  "IoResponse for unknown/stale request_id " +:+ fact_id_display request_id
  +:+ " ignored (duplicate, late-after-timeout, or forged)".
Definition handle_fact w (fact : Fact) : World S * Result unit ReactorError :=
  let s := w_state w in
  match fact with
  | Command id instruction => (set_state w (push_back s instruction id), Ok tt)
  | PayloadUpdate _ path value =>
      let '(payload, r) := update_payload (rs_payload s) path value in
      let s := with_payload s payload in
      match r with
      | Err e => (set_state w s, Err e)
      | Ok _ => (set_state w (bump_version s), Ok tt)
      end
  | IoResponse _ request_id result error =>
      match handle_io_response s request_id result error with
      | (s, Err e) => (set_state w s, Err e)
      | (s, Ok true) => (set_state w s, Ok tt)
      | (s, Ok false) => (emit_error (set_state w s) (stale_response_message request_id), Ok tt)
      end
  | IoRequest _ _ _ _ | StateTransition _ _ _ _ | Stable _ _ | FError _ _
  | TransitionTrace _ _ _ | Violation _ _ _ _ _ => (w, Ok tt)
  end.
(** A received fact: emitted, then handled. *)
Definition receive_fact w (fact : Fact) : World S * Result unit ReactorError :=
  handle_fact (emit_fact w fact) fact.
(** The facts the drain loop takes from the channel. *)
Fixpoint drain_facts w (facts : list Fact) : World S * Result unit ReactorError :=
  match facts with
  | [] => (w, Ok tt)
  | fact :: rest =>
      match receive_fact w fact with
      | (w, Ok _) => drain_facts w rest
      | (w, Err e) => (w, Err e)
      end
  end.

(** [check_io_timeouts] and the cancel-all block: one Error fact and one
    forced removal for each request, in key order. *)
Definition drop_request (message : FactId -> string) w (id : FactId) : World S :=
  let w := emit_error w (message id) in
  set_state w (force_remove_io_request (w_state w) id).
Definition timeout_message (id : FactId) : string :=
  "I/O request " +:+ fact_id_display id +:+ " timed out after "
  +:+ pretty (io_error_timeout cfg `div` NANOS_PER_SEC)%Z +:+ "s".
Definition check_io_timeouts w (now : Z) : World S :=
  if Nat.eqb (pending_io_count (w_state w)) 0 then w
  else
    let elapsed kt := duration_since now (snd kt) in
    let error_ids := map fst (List.filter (fun kt => (io_error_timeout cfg <=? elapsed kt)%Z)
                       (sorted_entries (pending_io_timestamps (w_state w)))) in
    fold_left (drop_request timeout_message) error_ids w.
Definition cancel_message (id : FactId) : string :=
  "I/O request " +:+ fact_id_display id +:+ " cancelled by external request".
Definition cancel_all_pending w : World S :=
  fold_left (drop_request cancel_message)
    (sorted_keys (pending_io_timestamps (w_state w))) w.

(** * Executing the queue *)

(** What a turn of the executing loop leads to. *)
Inductive Turn : Type :=
| TurnNext    (** the loop goes on *)
| TurnLeave.  (** [break] or [continue 'main] *)

(** The arm of [TransitionResult::State], after the queue is replaced. *)
Definition commit_transition w (cause : FactId) (rule_hits : list RuleHit) : World S :=
  let s := w_state w in
  let s := if io_recovery s then clear_io_recovery s else s in
  let w := set_state w (bump_version s) in
  let '(id, w) := fresh_id w in
  let w := emit_fact w (StateTransition id cause (rs_payload (w_state w)) (rs_queue (w_state w))) in
  emit_new w (fun trace_id => TransitionTrace trace_id id (map trace_hit_from_rule_hit rule_hits)).
Definition queue_message (queue_len : nat) : string :=
  "Queue length " +:+ pretty (N.of_nat queue_len) +:+ " exceeds max "
  +:+ pretty (N.of_nat (max_queue_len cfg)).
(** Clear the queue after an Error fact, and report stability. *)
Definition recover_with_error w (message : string) : World S :=
  let w := emit_error (set_phase w PhError) message in
  let w := set_state w (clear_queue (w_state w)) in
  let w := emit_stable (set_phase w PhStable) in
  set_phase (set_steps w 0) Idle.

Definition on_state w (cause : FactId) (new_payload : JsonValue) (new_queue : list JsonValue)
    (rule_hits : list RuleHit) : World S * Turn :=
  let s := with_payload (w_state w) new_payload in
  let w := set_state w (update_queue_with_causes s new_queue cause) in
  let queue_len := queue_len (w_state w) in
  if ((max_queue_len cfg <=? queue_len)%nat && (0 <? max_queue_len cfg)%nat)%bool then
    (recover_with_error w (queue_message queue_len), TurnLeave)
  else (commit_transition w cause rule_hits, TurnNext).
Definition on_ignored w (instruction : JsonValue) (instruction_type reason : string)
    (rule_hits : list RuleHit) : World S * Turn :=
  let '(id, w) := fresh_id (set_phase w PhError) in
  let w := emit_fact w (FError id
    ("Instruction ignored by TCB: type=" +:+ instruction_type +:+ ", reason=" +:+ reason
     +:+ ", instruction=" +:+ debug_json instruction)) in
  let w := emit_new w (fun trace_id =>
    TransitionTrace trace_id id (map trace_hit_from_rule_hit rule_hits)) in
  (set_phase w Idle, TurnLeave).
Definition on_halted w (instruction : JsonValue) (cause : FactId) (rule_index : nat)
    (reason : string) : World S * Turn :=
  let w := emit_new (set_phase w PhError)
    (fun id => Violation id cause (Z.of_nat rule_index) reason instruction) in
  (set_phase w Idle, TurnLeave).
Definition is_unknown_io_type (io_type : string) : bool :=
  match known_io_types cfg with Some known => negb (bool_decide (io_type ∈ known)) | None => false end.
Definition unknown_io_message (io_type : string) (instruction : JsonValue) : string :=
  "unknown io_type: " +:+ io_type +:+ " (not in known_io_types, instruction: " +:+ debug_json instruction +:+ ")".
Definition on_io_required w (instruction : JsonValue) (cause : FactId) (io_type : string)
    (params : JsonValue) (system_now : Z) : World S * Turn :=
  let '(id, w) := fresh_id w in
  if is_unknown_io_type io_type then
    let w := emit_fact (set_phase w PhError) (FError id (unknown_io_message io_type instruction)) in
    (set_phase w Idle, TurnLeave)
  else
    let s := register_io_request (w_state w) id io_type system_now in
    let s := save_io_instruction s id instruction cause in
    let w := set_phase (set_state w s) AwaitingIo in
    (emit_fact w (IoRequest id cause io_type params), TurnLeave).
Definition on_tcb_error w (instruction : JsonValue) (err : TcbError) : World S * Turn :=
  let w := emit_error (set_phase w PhError)
    ("TCB error at step " +:+ pretty (N.of_nat (w_steps w)) +:+ ": " +:+ tcb_error_display err
     +:+ " (instruction: " +:+ debug_json instruction +:+ ")") in
  (set_phase w Idle, TurnLeave).

(** One instruction, already taken from the queue and counted. *)
Definition execute_instruction w (instruction : JsonValue) (cause : FactId) (system_now : Z) :
    World S * Turn :=
  let s := w_state w in
  match execute_transition (core_eval cfg) instruction (rs_payload s) (rs_queue s) with
  | Ok (TState new_payload new_queue rule_hits) => on_state w cause new_payload new_queue rule_hits
  | Ok (TIgnored instruction_type reason rule_hits) =>
      on_ignored w instruction instruction_type reason rule_hits
  | Ok (THalted rule_index reason) => on_halted w instruction cause rule_index reason
  | Ok (TIoRequired io_type params) => on_io_required w instruction cause io_type params system_now
  | Err err => on_tcb_error w instruction err
  end.
Definition max_rounds_message w : string :=
  reactor_error_display (MaxRoundsExceeded (w_steps w) (max_rounds cfg)).
(** One turn of [while state.pending_io_count == 0]. *)
Definition execute_turn w (system_now : Z) : World S * Turn :=
  if negb (Nat.eqb (pending_io_count (w_state w)) 0) then (w, TurnLeave)
  else if (max_rounds cfg <=? w_steps w)%nat then
    (recover_with_error w (max_rounds_message w), TurnLeave)
  else
    match pop_instruction (w_state w) with
    | None => (w, TurnLeave)
    | Some ((instruction, cause), s) =>
        let w := set_steps (set_state w s) (Datatypes.S (w_steps w)) in
        let w := if Nat.eqb (w_steps w mod SNAPSHOT_UPDATE_INTERVAL) 0
                 then update_snapshot w false else w in
        execute_instruction w instruction cause system_now
    end.
Fixpoint execute_queue (fuel : nat) w (system_now : Z) : option (World S) :=
  match fuel with
  | O => None
  | Datatypes.S fuel =>
      match execute_turn w system_now with
      | (w, TurnLeave) => Some w
      | (w, TurnNext) => execute_queue fuel w system_now
      end
  end.
(** Every turn that goes on takes a step, and [max_rounds] steps end it. *)
Definition execute_fuel w : nat := Datatypes.S (max_rounds cfg - w_steps w).

(** * The main loop *)

(** What [tokio::time::timeout(.., cmd_rx.recv())] gives. *)
Inductive Waited : Type :=
| WFact (fact : Fact)
| WClosed
| WTimeout.
(** What one iteration meets: the flags stored since the last one, the facts
    in the channel and whether every sender is gone after them, the result of
    the wait, the injected clock and the system clock. *)
Record Input : Type := mk_input {
  in_interrupt : bool;
  in_cancel_all : bool;
  in_drained : list Fact;
  in_closed : bool;
  in_waited : Waited;
  in_now : Z;
  in_system_now : Z;
}.
(** [continue 'main], or [return]. *)
Inductive Iteration : Type :=
| Continue
| Finished (result : Result unit ReactorError).

Definition handle_interrupt w : World S :=
  let w := emit_error (set_phase w PhError) "Execution interrupted by external request" in
  let w := emit_stable (set_phase w PhStable) in
  set_phase (set_steps w 0) Idle.
Definition report_stable w : World S :=
  let w := emit_stable (set_phase w PhStable) in set_phase (set_steps w 0) Idle.
Definition stable_now w : bool :=
  detector_is_stable (length (rs_queue (w_state w))) (pending_io_count (w_state w))
  && (0 <? w_steps w)%nat.
Definition must_wait w (drained_any : bool) : bool :=
  (Nat.eqb (length (rs_queue (w_state w))) 0 || (0 <? pending_io_count (w_state w))%nat)
  && negb drained_any.
Definition finish w : World S * Iteration := (update_snapshot w true, Finished (Ok tt)).

(** Step 4 of an iteration. *)
Definition execute_phase w (system_now : Z) : option (World S * Iteration) :=
  let! w := execute_queue (execute_fuel w) (set_phase w Executing) system_now in
  Some (w, Continue).
(** Steps 2 to 4, once the channel is drained. *)
Definition after_drain w (input : Input) : option (World S * Iteration) :=
  if stable_now w then Some (report_stable w, Continue)
  else if must_wait w (negb (Nat.eqb (length (in_drained input)) 0)) then
    let w := set_phase w AwaitingIo in
    match in_waited input with
    | WClosed => Some (finish w)
    | WTimeout => Some (check_io_timeouts w (in_now input), Continue)
    | WFact fact =>
        match receive_fact w fact with
        | (w, Err e) => Some (w, Finished (Err e))
        | (w, Ok _) => execute_phase w (in_system_now input)
        end
    end
  else execute_phase w (in_system_now input).
(** One iteration of ['main]; [None] would be an executing loop that does not
    end. *)
Definition main_iteration w (input : Input) : option (World S * Iteration) :=
  let w := set_flags w (w_interrupt w || in_interrupt input) (w_cancel_all w || in_cancel_all input) in
  let w := run_invariant_check (update_snapshot w false) in
  if w_interrupt w then
    Some (handle_interrupt (set_flags w false (w_cancel_all w)), Continue)
  else if w_cancel_all w then
    Some (cancel_all_pending (set_flags w (w_interrupt w) false), Continue)
  else
    match drain_facts (set_phase w Draining) (in_drained input) with
    | (w, Err e) => Some (w, Finished (Err e))
    | (w, Ok _) => if in_closed input then Some (finish w) else after_drain w input
    end.
(** The loop over the inputs of its iterations, until it returns. *)
Fixpoint run_loop w (inputs : list Input) : option (World S * Iteration) :=
  match inputs with
  | [] => Some (w, Continue)
  | input :: rest =>
      let! '(w, it) := main_iteration w input in
      match it with Continue => run_loop w rest | Finished r => Some (w, Finished r) end
  end.

(** The state the loop starts from: seeded from a log that already has one. *)
Definition seed_state (log : FactsLog S) : ReactorState :=
  let '(payload, queue, version) := snapshot log in
  if (0 <? version)%Z then
    mk_rstate payload queue version (Z.max 0 (version - 1)) 0 ∅ ∅ [] ∅ ∅ false Idle 0
  else rstate_new.
Definition snapshot_default : ReactorStateSnapshot := mk_snapshot Idle 0 0 0 [] 0 0 false.
(** [spawn]: the callback is registered, then the loop runs. *)
Definition spawn (log : FactsLog S) : World S :=
  mk_world (seed_state log) (set_on_wal_failure_exhausted log) []
    match fact_id_start cfg with Some n => generator_resume n | None => generator_new end
    0 false false snapshot_default (mk_report 0 []).
End Run.

(** * The handle *)

Section Handle.
Context {S : Type}.
Implicit Types w : World S.

Definition handle_current_phase w : option ReactorPhase :=
  if ss_finished (w_snapshot w) then None else Some (ss_phase (w_snapshot w)).
Definition handle_causal_depth w : option Z :=
  if ss_finished (w_snapshot w) then None else Some (ss_version (w_snapshot w)).
Definition handle_pending_io_count w : option nat :=
  if ss_finished (w_snapshot w) then None else Some (ss_pending_io_count (w_snapshot w)).
Definition handle_current_step w : option nat :=
  if ss_finished (w_snapshot w) then None else Some (ss_steps (w_snapshot w)).
Definition handle_violations w : Z := ss_violations (w_snapshot w).
Definition handle_interrupt_request w : World S := set_flags w true (w_cancel_all w).
Definition handle_cancel_all_request w : World S := set_flags w (w_interrupt w) true.
End Handle.

(** * The pure variant *)

(** [enum StepOutcome]. *)
Inductive StepOutcome : Type :=
| StateChanged
| SIgnored (instruction_type reason : string)
| SIoRequired (io_type : string) (params : JsonValue)
| SHalted (rule_index : nat) (reason : string)
| STcbError (message : string).

Definition pure_next_step (core_eval : list JsonValue) (s : ReactorState) (max_queue_len : nat) :
    option (StepOutcome * ReactorState) :=
  let! '((instruction, cause), s) := pop_instruction s in
  match execute_transition core_eval instruction (rs_payload s) (rs_queue s) with
  | Ok (TState new_payload new_queue _) =>
      let s := update_queue_with_causes (with_payload s new_payload) new_queue cause in
      let s := if io_recovery s then with_recovery (clear_io_result s) false else s in
      let s := bump_version s in
      let s := if ((0 <? max_queue_len)%nat && (max_queue_len <=? length (rs_queue s))%nat)%bool
               then clear_queue s else s in
      Some (StateChanged, s)
  | Ok (TIgnored instruction_type reason _) =>
      Some (SIgnored instruction_type reason, bump_version s)
  | Ok (TIoRequired io_type params) => Some (SIoRequired io_type params, push_front s instruction cause)
  | Ok (THalted rule_index reason) => Some (SHalted rule_index reason, s)
  | Err err => Some (STcbError (tcb_error_display err), s)
  end.
Definition apply_command (s : ReactorState) (instruction : JsonValue) (cause : FactId) : ReactorState :=
  push_back s instruction cause.
Definition apply_payload_update (s : ReactorState) (path : string) (value : JsonValue) :
    ReactorState * Result unit ReactorError :=
  match resolve_path_mut (rs_payload s) path with
  | Some (_, put) => (bump_version (with_payload s (put value)), Ok tt)
  | None =>
      let fail := (s, Err (RInvalidState "payload path does not exist")) in
      if (negb (contains "." path) && negb (contains "[" path))%bool then
        match rs_payload s with
        | JObject map => (bump_version (with_payload s (JObject (obj_insert map path value))), Ok tt)
        | _ => fail
        end
      else fail
  end.
Definition pure_inject_io_result (payload : JsonValue) (io_type : IoType) (result : JsonValue) :
    JsonValue * Result unit ReactorError :=
  let fail := Err (RInvalidState "payload is not an object, cannot inject __io_results__") in
  match payload with
  | JObject map =>
      let map := if map_contains_key map "__io_results__" then map
                 else obj_insert map "__io_results__" empty_object in
      match map_get map "__io_results__" with
      | Some (JObject io_map) =>
          (JObject (obj_insert map "__io_results__" (JObject (obj_insert io_map io_type result))), Ok tt)
      | _ => (JObject map, fail)
      end
  | _ => (payload, fail)
  end.
Definition apply_io_response (s : ReactorState) (request_id : FactId) (result : JsonValue) :
    ReactorState * Result bool ReactorError :=
  let io_type := get_io_type s request_id in
  match complete_io_request s request_id with
  | (s, false) => (s, Ok false)
  | (s, true) =>
      if is_null result then (bump_version (fst (take_io_instruction s request_id)), Ok true)
      else
        let '(payload, r) :=
          match io_type with
          | Some io_type => pure_inject_io_result (rs_payload s) io_type result
          | None => (rs_payload s, Ok tt)
          end in
        let s := with_payload s payload in
        match r with
        | Err e => (s, Err e)
        | Ok _ => (bump_version (resume_instruction s request_id), Ok true)
        end
  end.
Definition pure_is_stable (queue_len pending_io_count steps : nat) : bool :=
  Nat.eqb queue_len 0 && Nat.eqb pending_io_count 0 && (0 <? steps)%nat.
Definition register_io_request_pure (s : ReactorState) (id : FactId) (io_type : IoType)
    (instruction : JsonValue) : ReactorState :=
  if decide (id ∈ pending_requests s) then s
  else with_pending s (Datatypes.S (pending_io_count s)) ({[id]} ∪ pending_requests s)
         (<[id := (instruction, 0%Z)]> (pending_io_instructions s)) (pending_io_timestamps s)
         (<[id := io_type]> (pending_io_types s)).
