(* ===== verification/ReactorSpec.v ===== *)
(** Theorems about the reactor: the accounting of pending I/O, the audit
    trail of everything it sends, what a Stable fact means, the fate of an
    I/O request, the agreement of the loop with the pure step function, and
    that a quiet reactor settles. *)

From S2P Require Import Prelude ObjectMap Value Error Path Domain Executor ExecSemantics Transition Fact Serde Hash Wal WalFile FactsLog FactsLogSpec Phase ReactorState Reactor.

(** * Emitting *)

Section Emit.
Context {N S : Type} `{SerdeNumber N, SerdeText N, Blake3, FactWalStore S}.
Implicit Types w : World S.

Definition bump_ids w : World S := snd (fresh_id w).
Lemma fresh_id_eq w : fresh_id w = (gen_next (w_ids w), bump_ids w).
Proof. done. Qed.
Lemma emit_new_eq w f :
  emit_new (N := N) w f = emit_fact (N := N) (bump_ids w) (f (gen_next (w_ids w))).
Proof. done. Qed.

Lemma emit_fact_state w f : w_state (emit_fact (N := N) w f) = w_state w.
Proof. unfold emit_fact. by destruct append_async. Qed.
Lemma emit_fact_steps w f : w_steps (emit_fact (N := N) w f) = w_steps w.
Proof. unfold emit_fact. by destruct append_async. Qed.
Lemma emit_fact_ids w f : w_ids (emit_fact (N := N) w f) = w_ids w.
Proof. unfold emit_fact. by destruct append_async. Qed.
Lemma emit_fact_cancel w f : w_cancel_all (emit_fact (N := N) w f) = w_cancel_all w.
Proof. unfold emit_fact. by destruct append_async. Qed.
Lemma emit_fact_log w f : w_log (emit_fact (N := N) w f) = fst (append (N := N) (w_log w) f).
Proof. unfold emit_fact, append_async. by destruct append. Qed.

(** What sending a list of facts in order puts on the event channel: each
    after the escalation messages its own append has caused. *)
Definition guidance (log : FactsLog S) (f : Fact) : list string :=
  drop (length (escalations log)) (escalations (fst (append (N := N) log f))).
Fixpoint sent (log : FactsLog S) (fs : list Fact) : list Fact :=
  match fs with
  | [] => []
  | f :: fs =>
      map (fun g => FError u64_max g) (guidance log f) ++ [f]
      ++ sent (fst (append (N := N) log f)) fs
  end.
Lemma emit_fact_events w f : w_events (emit_fact (N := N) w f) = w_events w ++ sent (w_log w) [f].
Proof.
  unfold emit_fact, append_async. cbn [sent]. unfold guidance.
  destruct (append (w_log w) f) as [log r]. cbn. done.
Qed.
Lemma append_all_cons (log : FactsLog S) f fs :
  append_all (N := N) log (f :: fs) = append_all (N := N) (fst (append (N := N) log f)) fs.
Proof. done. Qed.
Lemma append_all_app (log : FactsLog S) fs1 fs2 :
  append_all (N := N) log (fs1 ++ fs2) = append_all (N := N) (append_all (N := N) log fs1) fs2.
Proof. apply fold_left_app. Qed.
Lemma sent_app (log : FactsLog S) fs1 fs2 :
  sent log (fs1 ++ fs2) = sent log fs1 ++ sent (append_all (N := N) log fs1) fs2.
Proof.
  revert log. induction fs1 as [|f fs1 IH]; intros log; [done|].
  cbn [sent app]. rewrite IH, append_all_cons, <- !app_assoc. done.
Qed.
(** Only the facts themselves and Errors are sent. *)
Lemma sent_In (log : FactsLog S) fs f :
  f ∈ sent log fs -> f ∈ fs \/ exists g, f = FError u64_max g.
Proof.
  revert log. induction fs as [|g fs IH]; intros log; cbn [sent]; [by left|].
  rewrite !elem_of_app, list_elem_of_singleton. intros [Hg|[->|Hf]].
  - apply list_elem_of_In, in_map_iff in Hg as (m & <- & _). right. by exists m.
  - left. by left.
  - destruct (IH _ Hf); [left; by right|by right].
Qed.
Lemma In_sent (log : FactsLog S) fs f : f ∈ fs -> f ∈ sent log fs.
Proof.
  revert log. induction fs as [|g fs IH]; intros log; cbn [sent]; [done|].
  rewrite !elem_of_app, list_elem_of_singleton, elem_of_cons. naive_solver.
Qed.

(** * Traces

    A trace lists the facts a piece of the loop has emitted, in order, each
    with whether the reactor has produced it ([true]) or received it. *)
Definition Trace : Type := list (bool * Fact).
Definition facts_of (tr : Trace) : list Fact := map snd tr.
Definition produced (tr : Trace) : list Fact := map snd (List.filter fst tr).
Definition received (tr : Trace) : list Fact := map snd (List.filter (fun e => negb (fst e)) tr).
Lemma produced_app t1 t2 : produced (t1 ++ t2) = produced t1 ++ produced t2.
Proof. unfold produced. by rewrite List.filter_app, map_app. Qed.
Lemma received_app t1 t2 : received (t1 ++ t2) = received t1 ++ received t2.
Proof. unfold received. by rewrite List.filter_app, map_app. Qed.
Lemma trace_split tr f : f ∈ facts_of tr -> f ∈ produced tr \/ f ∈ received tr.
Proof.
  unfold facts_of, produced, received. rewrite !list_elem_of_In, !in_map_iff.
  intros ([b g] & <- & Hin). destruct b; [left; exists (true, g)|right; exists (false, g)];
    (split; [done|]); by apply filter_In.
Qed.

(** The log is the old log with the trace appended, the event channel has had
    exactly what appending the trace sends, and the produced facts carry the
    identifiers of the generator, one each, in order. *)
Record traced w w' (tr : Trace) : Prop := {
  tr_log : w_log w' = append_all (N := N) (w_log w) (facts_of tr);
  tr_events : w_events w' = w_events w ++ sent (w_log w) (facts_of tr);
  tr_ids : map fact_id (produced tr) = ids_from (gen_next (w_ids w)) (length (produced tr));
  tr_gen : gen_next (w_ids w') = id_after (gen_next (w_ids w)) (length (produced tr));
}.
(** Changes the trace does not see. *)
Definition same_io w w' : Prop :=
  w_log w' = w_log w /\ w_events w' = w_events w /\ w_ids w' = w_ids w.
Lemma traced_nil w w' : same_io w w' -> traced w w' [].
Proof. intros (Hl & He & Hi). split; cbn; rewrite ?Hl, ?He, ?Hi, ?app_nil_r; done. Qed.
Lemma traced_app w1 w2 w3 t1 t2 : traced w1 w2 t1 -> traced w2 w3 t2 -> traced w1 w3 (t1 ++ t2).
Proof.
  intros [Hl1 He1 Hi1 Hg1] [Hl2 He2 Hi2 Hg2]. unfold facts_of in *.
  split; unfold facts_of; rewrite ?produced_app, ?map_app, ?length_app.
  - by rewrite append_all_app, Hl2, Hl1.
  - rewrite sent_app, He2, He1, Hl1. by rewrite app_assoc.
  - by rewrite ids_from_app, Hi1, Hi2, Hg1.
  - by rewrite id_after_add, Hg2, Hg1.
Qed.
Lemma traced_same w1 w2 w3 tr : traced w1 w2 tr -> same_io w2 w3 -> traced w1 w3 tr.
Proof. intros Ht Hs%traced_nil. rewrite <- (app_nil_r tr). by eapply traced_app. Qed.
Lemma same_traced w1 w2 w3 tr : same_io w1 w2 -> traced w2 w3 tr -> traced w1 w3 tr.
Proof. intros Hs%traced_nil Ht. change tr with ([] ++ tr). by eapply traced_app. Qed.
Lemma traced_receive w w1 f : same_io w w1 -> traced w (emit_fact (N := N) w1 f) [(false, f)].
Proof.
  intros (Hl & He & Hi). split; cbn -[sent]; rewrite ?emit_fact_log, ?emit_fact_events, ?emit_fact_ids;
    congruence || done.
Qed.
(** A produced fact: the identifier is taken, other things may happen, the
    fact is emitted. *)
Lemma traced_produce w w1 f :
  w_log w1 = w_log w -> w_events w1 = w_events w -> w_ids w1 = w_ids (bump_ids w) ->
  fact_id f = gen_next (w_ids w) -> traced w (emit_fact (N := N) w1 f) [(true, f)].
Proof.
  intros Hl He Hi Hf. split; cbn -[sent];
    rewrite ?emit_fact_log, ?emit_fact_events, ?emit_fact_ids, ?Hl, ?He, ?Hi, ?Hf; done.
Qed.
Lemma traced_new w f :
  (forall id, fact_id (f id) = id) ->
  traced w (emit_new (N := N) w f) [(true, f (gen_next (w_ids w)))].
Proof. intros Hf. rewrite emit_new_eq. by apply traced_produce. Qed.
Lemma emit_new_state w f : w_state (emit_new (N := N) w f) = w_state w.
Proof. by rewrite emit_new_eq, emit_fact_state. Qed.
Lemma emit_new_steps w f : w_steps (emit_new (N := N) w f) = w_steps w.
Proof. by rewrite emit_new_eq, emit_fact_steps. Qed.
Lemma emit_new_cancel w f : w_cancel_all (emit_new (N := N) w f) = w_cancel_all w.
Proof. by rewrite emit_new_eq, emit_fact_cancel. Qed.
Lemma emit_error_eq w m : emit_error (N := N) w m = emit_new (N := N) w (fun id => FError id m).
Proof. done. Qed.
Lemma emit_stable_eq w :
  emit_stable (N := N) w = emit_new (N := N) w (fun id => Stable id (rs_version (w_state w))).
Proof. done. Qed.
End Emit.
#[global] Arguments emit_fact : simpl never.
#[global] Arguments emit_new : simpl never.
#[global] Arguments fresh_id : simpl never.
Create Rewrite HintDb reactor.
#[export] Hint Rewrite @emit_fact_state @emit_fact_steps @emit_fact_cancel
  @emit_new_state @emit_new_steps @emit_new_cancel @emit_error_eq @emit_stable_eq : reactor.

(** * The turns of the executing loop *)

Ltac same_io := by split_and!.

Section Turns.
Context {N S : Type} `{SerdeNumber N, SerdeText N, Blake3, FactWalStore S}.
Variable debug_json : JsonValue -> string.
Variable cfg : Reactor.
Implicit Types (w : World S) (tr : Trace).

(** A trace without a produced Stable fact; a trace that reports stability,
    and where that leaves the reactor. *)
Definition silent tr : Prop := Forall (fun f => is_stable f = false) (produced tr).
Definition idle w : Prop := rs_is_stable (w_state w) = true /\ w_steps w = 0.
Definition reports w tr : Prop :=
  (exists id, Stable id (rs_version (w_state w)) ∈ produced tr) /\
  forall id v, Stable id v ∈ produced tr -> v = rs_version (w_state w).
(** Produced only. *)
Definition own tr : Prop := received tr = [].

Lemma silent_app t1 t2 : silent (t1 ++ t2) <-> silent t1 /\ silent t2.
Proof. unfold silent. by rewrite produced_app, Forall_app. Qed.
Lemma own_app t1 t2 : own (t1 ++ t2) <-> own t1 /\ own t2.
Proof. unfold own. rewrite received_app. split; [apply app_eq_nil|]. by intros [-> ->]. Qed.
Lemma reports_app w t1 t2 : silent t1 -> reports w t2 -> reports w (t1 ++ t2).
Proof.
  unfold silent, reports. rewrite !produced_app, List.Forall_forall.
  intros Hs [[id Hid] Hv]. split.
  - exists id. apply elem_of_app. by right.
  - intros id' v [Hin%list_elem_of_In%Hs|?]%elem_of_app; [done|]. by eapply Hv.
Qed.

Lemma trace_error w (m : string) : exists tr,
  traced (N := N) w (emit_error (N := N) w m) tr /\ own tr /\ silent tr.
Proof. eexists. split_and!; [by apply traced_new|done|by repeat constructor]. Qed.
Lemma trace_stable w : exists tr,
  traced (N := N) w (emit_stable (N := N) w) tr /\ own tr /\ reports w tr.
Proof.
  eexists. split_and!; [by apply traced_new|done|split].
  - eexists. by left.
  - intros id v [= -> ->]%list_elem_of_singleton. done.
Qed.
Lemma reports_state w w' tr :
  rs_version (w_state w) = rs_version (w_state w') -> reports w tr -> reports w' tr.
Proof. unfold reports. by intros ->. Qed.

Lemma recover_state w m :
  w_state (recover_with_error (N := N) w m) =
  with_phase (clear_queue (w_state w)) Idle /\
  w_steps (recover_with_error (N := N) w m) = 0.
Proof. unfold recover_with_error. repeat (cbn; autorewrite with reactor). done. Qed.
Lemma trace_recover w m :
  pending_io_count (w_state w) = 0 ->
  exists tr, traced (N := N) w (recover_with_error (N := N) w m) tr /\ own tr /\
    idle (recover_with_error (N := N) w m) /\ reports (recover_with_error (N := N) w m) tr.
Proof.
  intros Hp. destruct (recover_state w m) as [Hs Hn]. unfold idle, recover_with_error in *.
  set (w1 := emit_error (set_phase w PhError) m) in *.
  set (w2 := set_phase (set_state w1 (clear_queue (w_state w1))) PhStable) in *.
  destruct (trace_error (set_phase w PhError) m) as (t1 & Ht1 & Ho1 & Hs1).
  destruct (trace_stable w2) as (t2 & Ht2 & Ho2 & Hr2). fold w1 in Ht1.
  exists (t1 ++ t2). split_and!.
  - eapply traced_app; [eapply same_traced; [|exact Ht1]; same_io|].
    eapply traced_same; [eapply same_traced; [|exact Ht2]|]; same_io.
  - by apply own_app.
  - rewrite Hs. unfold rs_is_stable. cbn. by rewrite Hp.
  - done.
  - apply reports_app; [done|]. eapply reports_state; [|exact Hr2]. rewrite Hs. cbn.
    unfold w1, emit_error. autorewrite with reactor. done.
Qed.

(** What one turn of the loop does. *)
Inductive turn_case w w' tr : Turn -> Prop :=
| case_next :
    w_steps w < max_rounds cfg -> w_steps w' = Datatypes.S (w_steps w) -> silent tr ->
    turn_case w w' tr TurnNext
| case_nothing :
    w' = w -> pending_io_count (w_state w) <> 0 \/ rs_queue (w_state w) = [] -> silent tr ->
    turn_case w w' tr TurnLeave
| case_dropped :
    w_steps w < max_rounds cfg -> w_steps w' = Datatypes.S (w_steps w) -> silent tr ->
    turn_case w w' tr TurnLeave
| case_recovered : idle w' -> reports w' tr -> turn_case w w' tr TurnLeave.

Lemma trace_produce_new w w1 f g :
  w_log w1 = w_log w -> w_events w1 = w_events w -> w_ids w1 = w_ids (bump_ids w) ->
  fact_id f = gen_next (w_ids w) -> (forall id, fact_id (g id) = id) ->
  is_stable f = false -> (forall id, is_stable (g id) = false) -> exists tr,
  traced (N := N) w (emit_new (N := N) (emit_fact (N := N) w1 f) g) tr /\ own tr /\ silent tr.
Proof.
  intros Hl He Hi Hf Hg Hsf Hsg. eexists. split_and!.
  - eapply traced_app; [by apply traced_produce|]. by apply traced_new.
  - done.
  - repeat constructor; [done|apply Hsg].
Qed.
Lemma trace_commit w cause hits : exists tr,
  traced (N := N) w (commit_transition (N := N) w cause hits) tr /\ own tr /\ silent tr.
Proof. unfold commit_transition. rewrite fresh_id_eq. cbn beta iota zeta. by apply trace_produce_new. Qed.
Lemma commit_steps w cause hits : w_steps (commit_transition (N := N) w cause hits) = w_steps w.
Proof. unfold commit_transition. rewrite fresh_id_eq. by autorewrite with reactor. Qed.

(** The arms that emit one fact and go back to the head of the loop. *)
Lemma trace_error_phase w f :
  (forall id, fact_id (f id) = id) -> (forall id, is_stable (f id) = false) ->
  let w' := set_phase (emit_new (N := N) (set_phase w PhError) f) Idle in
  exists tr, traced (N := N) w w' tr /\ own tr /\
    ((w_steps w' = w_steps w /\ silent tr) \/ (idle w' /\ reports w' tr)).
Proof.
  intros Hf Hs w'. exists [(true, f (gen_next (w_ids w)))]. split_and!; [|done|left].
  - apply (traced_same w (emit_new (N := N) (set_phase w PhError) f)); [|same_io].
    apply (same_traced w (set_phase w PhError)); [same_io|]. by apply (traced_new (set_phase w PhError)).
  - unfold w'. cbn. autorewrite with reactor. split; [done|]. constructor; [apply Hs|constructor].
Qed.
Lemma execute_instruction_case w instruction cause t w' turn :
  execute_instruction (N := N) debug_json cfg w instruction cause t = (w', turn) ->
  pending_io_count (w_state w) = 0 ->
  exists tr, traced (N := N) w w' tr /\ own tr /\
    match turn with
    | TurnNext => w_steps w' = w_steps w /\ silent tr
    | TurnLeave => (w_steps w' = w_steps w /\ silent tr) \/ (idle w' /\ reports w' tr)
    end.
Proof.
  intros He Hp. unfold execute_instruction in He.
  destruct execute_transition as [[p q hits|ty ps|k reason|ty reason hits]|err].
  - unfold on_state in He.
    set (w1 := set_state w _) in *.
    assert (pending_io_count (w_state w1) = 0) as Hp1 by done.
    destruct (_ && _); injection He as <- <-.
    + destruct (trace_recover w1 (queue_message cfg (queue_len (w_state w1))) Hp1)
        as (tr & Ht & Ho & Hi & Hr).
      exists tr. split_and!; [apply (same_traced w w1); [same_io|done]|done|by right].
    + destruct (trace_commit w1 cause hits) as (tr & Ht & Ho & Hsi).
      exists tr. split_and!; [apply (same_traced w w1); [same_io|done]|done|by rewrite commit_steps|done].
  - unfold on_io_required in He. rewrite fresh_id_eq in He.
    destruct (is_unknown_io_type cfg ty); injection He as <- <-.
    + match goal with |- context [emit_fact ?w1 ?f] =>
        exists [(true, f)]; split_and!; [eapply traced_same;
          [by apply (traced_produce (N := N) w w1 f)|same_io]|done|left] end.
      split; [cbn; by autorewrite with reactor|by repeat constructor].
    + match goal with |- context [emit_fact ?w1 ?f] =>
        exists [(true, f)]; split_and!; [by apply (traced_produce (N := N) w w1 f)|done|left] end.
      split; [by autorewrite with reactor|by repeat constructor].
  - unfold on_halted in He. injection He as <- <-. by apply trace_error_phase.
  - unfold on_ignored in He. rewrite fresh_id_eq in He. injection He as <- <-. cbn zeta.
    set (w0 := set_phase w PhError).
    match goal with |- context [emit_new (emit_fact ?w1 ?f) ?g] =>
      destruct (trace_produce_new w0 w1 f g) as (tr & Ht & Ho & Hsi); try done end.
    exists tr. split_and!; [|done|left].
    + eapply traced_same; [eapply same_traced; [|exact Ht]|]; same_io.
    + split; [cbn; by autorewrite with reactor|done].
  - unfold on_tcb_error in He. injection He as <- <-. by apply trace_error_phase.
Qed.
Lemma pop_None s : pop_instruction s = None -> rs_queue s = [].
Proof. unfold pop_instruction. destruct (rs_queue s); [done|]. by destruct instruction_causes. Qed.
Lemma pop_pending s x s' : pop_instruction s = Some (x, s') -> pending_io_count s' = pending_io_count s.
Proof.
  unfold pop_instruction. destruct (rs_queue s); [done|].
  destruct instruction_causes; by intros [= <- <-].
Qed.
Lemma execute_turn_case w t w' turn :
  execute_turn (N := N) debug_json cfg w t = (w', turn) ->
  exists tr, traced (N := N) w w' tr /\ own tr /\ turn_case w w' tr turn.
Proof.
  unfold execute_turn. destruct (Nat.eqb_spec (pending_io_count (w_state w)) 0) as [Hp|Hp]; cbn [negb].
  2: { intros [= <- <-]. exists []. split_and!; [by apply traced_nil|done|].
       apply case_nothing; [done|by left|constructor]. }
  destruct (Nat.leb_spec (max_rounds cfg) (w_steps w)).
  { intros [= <- <-]. destruct (trace_recover w (max_rounds_message cfg w) Hp) as (tr & ? & ? & ? & ?).
    exists tr. split_and!; [done|done|by apply case_recovered]. }
  destruct (pop_instruction (w_state w)) as [[[instr cause] s]|] eqn:Hpop.
  2: { intros [= <- <-]. exists []. split_and!; [by apply traced_nil|done|].
       apply case_nothing; [done|right|constructor]. by apply pop_None. }
  apply pop_pending in Hpop as Hs. rewrite Hp in Hs. clear Hpop.
  cbn zeta. set (w0 := set_steps (set_state w s) (Datatypes.S (w_steps w))).
  set (w1 := if Nat.eqb _ 0 then update_snapshot w0 false else w0).
  assert (same_io w w1 /\ w_steps w1 = Datatypes.S (w_steps w) /\ w_state w1 = s) as (Hio & Hst & Hs1).
  { unfold w1. by destruct (Nat.eqb _ 0). }
  rewrite <- Hs1 in Hs. intros (tr & Ht & Ho & Hc)%execute_instruction_case; [|done].
  exists tr. split_and!; [by eapply same_traced|done|]. rewrite Hst in Hc. destruct turn.
  - destruct Hc. by apply case_next.
  - destruct Hc as [[? ?]|[? ?]]; [by apply case_dropped|by apply case_recovered].
Qed.

(** The executing loop: it ends within its fuel; it either reports stability
    and leaves the reactor idle, or is silent and has made progress unless it
    could not start. *)
Lemma execute_queue_case fuel w t :
  max_rounds cfg - w_steps w < fuel ->
  exists w' tr, execute_queue (N := N) debug_json cfg fuel w t = Some w' /\
    traced (N := N) w w' tr /\ own tr /\
    ((idle w' /\ reports w' tr) \/
     (silent tr /\ ((w' = w /\ (pending_io_count (w_state w) <> 0 \/ rs_queue (w_state w) = [])) \/
                   w_steps w < w_steps w' <= max_rounds cfg))).
Proof.
  revert w. induction fuel as [|fuel IH]; intros w Hf; [lia|]. cbn [execute_queue].
  destruct (execute_turn debug_json cfg w t) as [w1 turn] eqn:Hturn.
  apply execute_turn_case in Hturn as (t1 & Ht1 & Ho1 & Hc).
  destruct Hc as [Hlt Hst Hs| -> Hb Hs|Hlt Hst Hs|Hi Hr].
  - destruct (IH w1) as (w' & t2 & He & Ht2 & Ho2 & Hr); [lia|].
    exists w', (t1 ++ t2). split_and!; [done|by eapply traced_app|by apply own_app|].
    destruct Hr as [[Hi Hr]|[Hs2 Hr]]; [left; split; [done|by apply reports_app]|right].
    split; [by apply silent_app|right]. destruct Hr as [[-> _]|?]; lia.
  - exists w, t1. split_and!; [done..|]. right. split; [done|by left].
  - exists w1, t1. split_and!; [done..|]. right. split; [done|right; lia].
  - exists w1, t1. split_and!; [done..|]. by left.
Qed.

(** * Receiving and dropping *)

Lemma trace_receive_fact w f w' r :
  receive_fact (N := N) w f = (w', r) ->
  exists tr, traced (N := N) w w' tr /\ received tr = [f] /\ silent tr /\ w_steps w' = w_steps w.
Proof.
  unfold receive_fact. set (w1 := emit_fact w f). intros Hh.
  assert (traced w w1 [(false, f)]) as Hw1 by (apply traced_receive; same_io).
  assert (w_steps w1 = w_steps w) as Hn by (unfold w1; by autorewrite with reactor).
  assert ((same_io w1 w' /\ w_steps w' = w_steps w1) \/
    exists s m, w' = emit_error (N := N) (set_state w1 s) m) as [[Hs Hn']|(s & m & ->)].
  { unfold handle_fact in Hh.
    destruct f as [| | | |? rid res err| | | |]; try (injection Hh as <- <-; left; split; [same_io|done]).
    - destruct (update_payload _ _ _) as [p [u|e]]; injection Hh as <- <-; left; (split; [same_io|done]).
    - destruct (handle_io_response _ _ _ _) as [s [[]|e]]; injection Hh as <- <-;
        [left; split; [same_io|done]|right; by eexists _, _|left; split; [same_io|done]]. }
  - exists [(false, f)]. split_and!; [by eapply traced_same|done|constructor|congruence].
  - destruct (trace_error (set_state w1 s) m) as (t2 & Ht2 & Ho2 & Hs2).
    exists ([(false, f)] ++ t2). split_and!.
    + eapply traced_app; [done|]. apply (same_traced w1 (set_state w1 s)); [same_io|done].
    + by rewrite received_app, Ho2.
    + apply silent_app. split; [constructor|done].
    + by autorewrite with reactor.
Qed.
Lemma trace_drain w fs w' r :
  drain_facts (N := N) w fs = (w', r) ->
  exists tr, traced (N := N) w w' tr /\ received tr `prefix_of` fs /\
    (r = Ok tt -> received tr = fs) /\ silent tr /\ w_steps w' = w_steps w.
Proof.
  revert w. induction fs as [|f fs IH]; intros w; cbn.
  { intros [= <- <-]. exists []. split_and!; [by apply traced_nil|done|done|constructor|done]. }
  destruct (receive_fact w f) as [w1 r1] eqn:Hr.
  apply trace_receive_fact in Hr as (t1 & Ht1 & Hr1 & Hs1 & Hn1). destruct r1 as [u|e].
  - intros (t2 & Ht2 & Hr2 & Hok & Hs2 & Hn2)%IH. exists (t1 ++ t2).
    rewrite received_app, Hr1. split_and!.
    + by eapply traced_app.
    + by apply prefix_cons.
    + intros Hr. cbn. by rewrite (Hok Hr).
    + by apply silent_app.
    + congruence.
  - intros [= <- <-]. exists t1. rewrite Hr1. split_and!; try done. by exists fs.
Qed.
Lemma trace_drop_requests message ids w :
  let w' := fold_left (drop_request (N := N) message) ids w in
  exists tr, traced (N := N) w w' tr /\ own tr /\ silent tr /\ w_steps w' = w_steps w /\
    rs_queue (w_state w') = rs_queue (w_state w).
Proof.
  revert w. induction ids as [|id ids IH]; intros w; cbn.
  { exists []. split_and!; [by apply traced_nil|done|constructor|done|done]. }
  destruct (IH (drop_request (N := N) message w id)) as (t2 & Ht2 & Ho2 & Hs2 & Hn2 & Hq2).
  destruct (trace_error w (message id)) as (t1 & Ht1 & Ho1 & Hs1). exists (t1 ++ t2). split_and!.
  - eapply traced_app; [exact Ht1|].
    apply (same_traced _ (drop_request (N := N) message w id)); [same_io|done].
  - by apply own_app.
  - by apply silent_app.
  - rewrite Hn2. cbn. by autorewrite with reactor.
  - rewrite Hq2. unfold drop_request, force_remove_io_request. cbn.
    destruct (decide _); by autorewrite with reactor.
Qed.

(** * One iteration *)

(** What an iteration can receive: the drained facts, then the awaited one. *)
Definition offered (input : Input) : list Fact :=
  in_drained input ++ match in_waited input with WFact f => [f] | _ => [] end.
Definition interrupted w (input : Input) : bool := w_interrupt w || in_interrupt input.

Lemma trace_report_stable w :
  detector_is_stable (length (rs_queue (w_state w))) (pending_io_count (w_state w)) = true ->
  exists tr, traced (N := N) w (report_stable (N := N) w) tr /\ own tr /\
    idle (report_stable (N := N) w) /\ reports (report_stable (N := N) w) tr.
Proof.
  intros Hd. destruct (trace_stable (set_phase w PhStable)) as (tr & Ht & Ho & Hr).
  assert (w_state (report_stable (N := N) w) = with_phase (with_phase (w_state w) PhStable) Idle) as Hs.
  { unfold report_stable. cbn. by autorewrite with reactor. }
  exists tr. split_and!; [|done|split|].
  - apply (same_traced _ (set_phase w PhStable)); [same_io|].
    eapply traced_same; [exact Ht|same_io].
  - rewrite Hs. exact Hd.
  - done.
  - eapply reports_state; [|exact Hr]. by rewrite Hs.
Qed.
Lemma trace_interrupt w :
  exists tr, traced (N := N) w (handle_interrupt (N := N) w) tr /\ own tr /\
    w_steps (handle_interrupt (N := N) w) = 0 /\ reports (handle_interrupt (N := N) w) tr.
Proof.
  unfold handle_interrupt. set (w1 := emit_error (set_phase w PhError) _).
  destruct (trace_error (set_phase w PhError) "Execution interrupted by external request")
    as (t1 & Ht1 & Ho1 & Hs1). fold w1 in Ht1.
  destruct (trace_stable (set_phase w1 PhStable)) as (t2 & Ht2 & Ho2 & Hr2).
  exists (t1 ++ t2). split_and!.
  - eapply traced_app; [apply (same_traced _ (set_phase w PhError)); [same_io|exact Ht1]|].
    apply (same_traced _ (set_phase w1 PhStable)); [same_io|].
    eapply traced_same; [exact Ht2|same_io].
  - by apply own_app.
  - done.
  - apply reports_app; [done|]. eapply reports_state; [|exact Hr2]. cbn. by autorewrite with reactor.
Qed.

Lemma execute_phase_case w t :
  exists w' tr, execute_phase (N := N) debug_json cfg w t = Some (w', Continue) /\
    traced (N := N) w w' tr /\ own tr /\
    ((idle w' /\ reports w' tr) \/
     (silent tr /\ (w_steps w' = w_steps w \/ w_steps w < w_steps w' <= max_rounds cfg) /\
      (rs_queue (w_state w) <> [] -> pending_io_count (w_state w) = 0 -> w_steps w < w_steps w'))).
Proof.
  unfold execute_phase. set (w0 := set_phase w Executing).
  destruct (execute_queue_case (execute_fuel cfg w) w0 t) as (w' & tr & -> & Ht & Ho & Hc).
  { unfold execute_fuel. cbn. lia. }
  exists w', tr. split_and!; [done|by apply (same_traced w w0)|done|].
  destruct Hc as [?|[Hs Hc]]; [by left|right]. split; [done|].
  destruct Hc as [[-> Hb]|Hc]; cbn in *.
  - split; [by left|]. intros Hq Hp. by destruct Hb.
  - split; [by right|]. intros _ _. lia.
Qed.
Lemma after_drain_case w input :
  exists w' it tr, after_drain (N := N) debug_json cfg w input = Some (w', it) /\
    traced (N := N) w w' tr /\
    received tr `sublist_of` match in_waited input with WFact f => [f] | _ => [] end /\
    ((idle w' /\ reports w' tr) \/ silent tr).
Proof.
  unfold after_drain. destruct (stable_now w) eqn:Hst.
  { apply andb_true_iff in Hst as [Hst _].
    destruct (trace_report_stable w Hst) as (tr & Ht & Ho & Hi & Hr).
    exists (report_stable (N := N) w), Continue, tr. rewrite Ho.
    split_and!; [done..|apply sublist_nil_l|by left]. }
  destruct (must_wait _ _).
  - set (w0 := set_phase w AwaitingIo). destruct (in_waited input) as [f| |].
    + destruct (receive_fact w0 f) as [w1 r] eqn:Hr.
      apply trace_receive_fact in Hr as (t1 & Ht1 & Hr1 & Hs1 & _). destruct r as [u|e].
      * destruct (execute_phase_case w1 (in_system_now input)) as (w' & t2 & -> & Ht2 & Ho2 & Hc).
        exists w', Continue, (t1 ++ t2). rewrite received_app, Hr1, Ho2. split_and!; [done| |done|].
        -- apply (same_traced w w0); [same_io|]. by eapply traced_app.
        -- destruct Hc as [[Hi Hr]|[Hs _]]; [left; split; [done|by apply reports_app]|right].
           by apply silent_app.
      * exists w1, (Finished (Err e)), t1. rewrite Hr1.
        split_and!; [done|by apply (same_traced w w0)|done|by right].
    + exists (update_snapshot w0 true), (Finished (Ok tt)), [].
      split_and!; [done|by apply traced_nil|done|right; constructor].
    + destruct (trace_drop_requests (timeout_message cfg) (map fst (List.filter
        (fun kt => (io_error_timeout cfg <=? duration_since (in_now input) (snd kt))%Z)
        (sorted_entries (pending_io_timestamps (w_state w0))))) w0) as (tr & Ht & Ho & Hs & _ & _).
      unfold check_io_timeouts. destruct (Nat.eqb _ 0).
      * exists w0, Continue, []. split_and!; [done|by apply traced_nil|done|right; constructor].
      * eexists _, Continue, tr. rewrite Ho.
        split_and!; [done|by apply (same_traced w w0)|done|by right].
  - destruct (execute_phase_case w (in_system_now input)) as (w' & tr & -> & Ht & Ho & Hc).
    exists w', Continue, tr. rewrite Ho. split_and!; [done..|apply sublist_nil_l|].
    destruct Hc as [?|[? _]]; [by left|by right].
Qed.

(** The head of an iteration. *)
Definition at_head w (input : Input) : World S :=
  run_invariant_check (update_snapshot
    (set_flags w (w_interrupt w || in_interrupt input) (w_cancel_all w || in_cancel_all input)) false).
Lemma main_iteration_case w input :
  exists w' it tr, main_iteration (N := N) debug_json cfg w input = Some (w', it) /\
    traced (N := N) w w' tr /\ received tr `sublist_of` offered input /\
    ((interrupted w input = true /\ it = Continue /\ w_steps w' = 0 /\ own tr /\ reports w' tr) \/
     (interrupted w input = false /\ ((idle w' /\ reports w' tr) \/ silent tr))).
Proof.
  unfold main_iteration. fold (at_head w input). set (w0 := at_head w input).
  assert (same_io w w0) as Hio by same_io.
  change (w_interrupt w0) with (interrupted w input). destruct (interrupted w input) eqn:Hint.
  { destruct (trace_interrupt (set_flags w0 false (w_cancel_all w0))) as (tr & Ht & Ho & Hn & Hr).
    eexists _, Continue, tr. split_and!; [done| |rewrite Ho; apply sublist_nil_l|left; by split_and!].
    by apply (same_traced w (set_flags w0 false (w_cancel_all w0))). }
  destruct (w_cancel_all w0).
  { set (w1 := set_flags w0 false false).
    destruct (trace_drop_requests cancel_message (sorted_keys (pending_io_timestamps (w_state w1))) w1)
      as (tr & Ht & Ho & Hs & _ & _).
    eexists _, Continue, tr. split_and!; [done|by apply (same_traced w w1)|rewrite Ho; apply sublist_nil_l|].
    right. split; [done|by right]. }
  set (w1 := set_phase w0 Draining). destruct (drain_facts w1 (in_drained input)) as [w2 r] eqn:Hd.
  apply trace_drain in Hd as (t1 & Ht1 & Hr1 & Hok & Hs1 & _). unfold offered. destruct r as [[]|e].
  - specialize (Hok eq_refl). destruct (in_closed input).
    + exists (update_snapshot w2 true), (Finished (Ok tt)), t1. rewrite Hok.
      split_and!; [done| |by apply sublist_inserts_r|right; split; [done|by right]].
      apply (traced_same w w2); [by apply (same_traced w w1)|same_io].
    + destruct (after_drain_case w2 input) as (w' & it & t2 & -> & Ht2 & Hr2 & Hc).
      exists w', it, (t1 ++ t2). split_and!; [done| | |right; split; [done|]].
      * eapply traced_app; [by apply (same_traced w w1)|done].
      * rewrite received_app, Hok. by apply sublist_app.
      * destruct Hc as [[Hi Hr]|Hs]; [left; split; [done|by apply reports_app]|right].
        by apply silent_app.
  - exists w2, (Finished (Err e)), t1. split_and!; [done|by apply (same_traced w w1)| |].
    + apply sublist_inserts_r. destruct Hr1 as [k Hk]. rewrite Hk. by apply sublist_inserts_r.
    + right. split; [done|by right].
Qed.

(** Any number of iterations. *)
Lemma run_loop_case w inputs :
  exists w' it tr, run_loop (N := N) debug_json cfg w inputs = Some (w', it) /\
    traced (N := N) w w' tr /\ received tr `sublist_of` concat (map offered inputs).
Proof.
  revert w. induction inputs as [|input inputs IH]; intros w; cbn.
  { exists w, Continue, []. split_and!; [done|by apply traced_nil|done]. }
  destruct (main_iteration_case w input) as (w1 & it & t1 & -> & Ht1 & Hr1 & _).
  destruct it as [|r].
  - destruct (IH w1) as (w' & it & t2 & -> & Ht2 & Hr2). exists w', it, (t1 ++ t2).
    rewrite received_app. split_and!; [done|by eapply traced_app|by apply sublist_app].
  - exists w1, (Finished r), t1. split_and!; [done..|by apply sublist_inserts_r].
Qed.
End Turns.

(** * Accounting *)

(** The five records of pending I/O agree, at most one request is pending,
    and every queued instruction has its cause. *)
Record accounted (s : ReactorState) : Prop := {
  acc_count : pending_io_count s = size (pending_requests s);
  acc_timestamps : dom (pending_io_timestamps s) = pending_requests s;
  acc_types : dom (pending_io_types s) = pending_requests s;
  acc_instructions : dom (pending_io_instructions s) = pending_requests s;
  acc_one : pending_io_count s <= 1;
  acc_causes : length (instruction_causes s) = length (rs_queue s);
}.
Ltac acc_frame := intros []; by split.

Lemma acc_new : accounted rstate_new.
Proof. split; cbn; rewrite ?dom_empty_L, ?size_empty; (done || lia). Qed.
Lemma acc_phase s p : accounted s -> accounted (with_phase s p).
Proof. acc_frame. Qed.
Lemma acc_payload s v : accounted s -> accounted (with_payload s v).
Proof. acc_frame. Qed.
Lemma acc_bump s : accounted s -> accounted (bump_version s).
Proof. acc_frame. Qed.
Lemma acc_recovery s b : accounted s -> accounted (with_recovery s b).
Proof. acc_frame. Qed.
Lemma acc_violations s n : accounted s -> accounted (with_violations s n).
Proof. acc_frame. Qed.
Lemma acc_clear_recovery s : accounted s -> accounted (clear_io_recovery s).
Proof. unfold clear_io_recovery, clear_io_result. destruct (rs_payload s); acc_frame. Qed.
Lemma acc_clear_queue s : accounted s -> accounted (clear_queue s).
Proof. acc_frame. Qed.
Lemma acc_push_back s i c : accounted s -> accounted (push_back s i c).
Proof. intros []. split; try done. cbn. rewrite !length_app. cbn. lia. Qed.
Lemma acc_push_front s i c : accounted s -> accounted (push_front s i c).
Proof. intros []. split; try done. cbn. lia. Qed.
Lemma acc_update_queue s q c : accounted s -> accounted (update_queue_with_causes s q c).
Proof. intros []. split; try done. cbn. by rewrite length_map, length_seq. Qed.
Lemma acc_pop s x s' : pop_instruction s = Some (x, s') -> accounted s -> accounted s'.
Proof.
  unfold pop_instruction. intros Hp [? ? ? ? ? Hc].
  destruct (rs_queue s) as [|i q]; [done|]. destruct (instruction_causes s); [done|].
  injection Hp as <- <-. split; try done. cbn in *. lia.
Qed.
Lemma acc_idle_pending s : accounted s -> pending_io_count s = 0 -> pending_requests s = ∅.
Proof. intros [Hc] Hz. apply leibniz_equiv, size_empty_inv. lia. Qed.
Lemma acc_register s id ty now i c :
  accounted s -> pending_io_count s = 0 ->
  accounted (save_io_instruction (register_io_request s id ty now) id i c).
Proof.
  intros Ha Hz. pose proof (acc_idle_pending s Ha Hz) as He.
  destruct Ha as [Hc Ht Hy Hi Ho Hl].
  unfold register_io_request, register_io_request_at. rewrite He. destruct (decide _) as [Hin|_]; [set_solver|].
  split; cbn; rewrite ?dom_insert_L, ?He, ?Ht, ?Hy, ?Hi, ?Hz, ?He, ?union_empty_r_L, ?size_singleton;
    (done || set_solver || lia).
Qed.
(** Removing a request from every record. *)
Lemma acc_remove s id n r i ts ty :
  accounted s -> id ∈ pending_requests s ->
  n = pending_io_count s - 1 -> r = pending_requests s ∖ {[id]} ->
  i = delete id (pending_io_instructions s) -> ts = delete id (pending_io_timestamps s) ->
  ty = delete id (pending_io_types s) -> accounted (with_pending s n r i ts ty).
Proof.
  intros [Hc Ht Hy Hi Ho Hl] Hin -> -> -> -> ->.
  split; cbn; rewrite ?dom_delete_L, ?Ht, ?Hy, ?Hi; try (done || lia).
  rewrite size_difference, size_singleton by set_solver. lia.
Qed.
Lemma acc_force_remove s id : accounted s -> accounted (force_remove_io_request s id).
Proof.
  intros Ha. unfold force_remove_io_request. destruct (decide _); [|done]. by eapply acc_remove.
Qed.
Lemma acc_resume s id : accounted (fst (take_io_instruction s id)) -> accounted (resume_instruction s id).
Proof.
  unfold resume_instruction, take_io_instruction. cbn. intros Ha.
  destruct (pending_io_instructions s !! id) as [[i c]|]; [|done]. by apply acc_recovery, acc_push_front.
Qed.
Lemma acc_io_response s id res err s' b :
  accounted s -> handle_io_response s id res err = (s', Ok b) -> accounted s'.
Proof.
  intros Ha. unfold handle_io_response, complete_io_request. destruct (decide _) as [Hin|]; [|by intros [= <- _]].
  assert (forall v, accounted (with_payload (fst (take_io_instruction (with_pending s (pending_io_count s - 1)
      (pending_requests s ∖ {[id]}) (pending_io_instructions s) (delete id (pending_io_timestamps s))
      (delete id (pending_io_types s))) id)) v)) as Hr.
  { intros v. apply acc_payload. by eapply (acc_remove s id). }
  destruct (is_null res || is_some err).
  - intros [= <- _]. apply acc_bump. specialize (Hr (rs_payload s)). by destruct Hr.
  - destruct (match get_io_type s id with Some ty => _ | None => _ end) as [p [u|e]]; [|done].
    intros [= <- _]. apply acc_bump, acc_resume. specialize (Hr p). by destruct Hr.
Qed.

Section Accounting.
Context {N S : Type} `{SerdeNumber N, SerdeText N, Blake3, FactWalStore S}.
Variable debug_json : JsonValue -> string.
Variable cfg : Reactor.
Implicit Types (w : World S).
Abbreviation acc w := (accounted (w_state w)).

Lemma acc_receive_fact w f w' u : acc w -> receive_fact (N := N) w f = (w', Ok u) -> acc w'.
Proof.
  intros Ha. unfold receive_fact. set (w1 := emit_fact w f).
  assert (w_state w1 = w_state w) as Hs by (unfold w1; by autorewrite with reactor).
  rewrite <- Hs in Ha. unfold handle_fact.
  destruct f as [| | | |? rid res err| | | |]; try (by intros [= <- _]).
  - intros [= <- _]. by apply acc_push_back.
  - destruct (update_payload _ _ _) as [p [v|e]]; intros [= <- _]. by apply acc_bump, acc_payload.
  - destruct (handle_io_response _ _ _ _) as [s [b|e]] eqn:Hh; [|done].
    apply acc_io_response in Hh as Ha'; [|done].
    destruct b; intros [= <- _]; [done|by autorewrite with reactor].
Qed.
Lemma acc_drain w fs w' u : acc w -> drain_facts (N := N) w fs = (w', Ok u) -> acc w'.
Proof.
  revert w. induction fs as [|f fs IH]; intros w Ha; cbn; [by intros [= <- _]|].
  destruct (receive_fact w f) as [w1 [v|e]] eqn:Hr; [|done].
  apply acc_receive_fact in Hr; [|done]. by apply IH.
Qed.
Lemma acc_drop_requests message ids w :
  acc w -> acc (fold_left (drop_request (N := N) message) ids w).
Proof.
  revert w. induction ids as [|id ids IH]; intros w Ha; [done|]. apply IH.
  cbn. autorewrite with reactor. by apply acc_force_remove.
Qed.
Lemma acc_recover w m : acc w -> acc (recover_with_error (N := N) w m).
Proof. intros Ha. destruct (recover_state (N := N) w m) as [-> _]. by apply acc_phase, acc_clear_queue. Qed.
Lemma commit_state w cause hits :
  w_state (commit_transition (N := N) w cause hits) =
  bump_version (if io_recovery (w_state w) then clear_io_recovery (w_state w) else w_state w).
Proof. unfold commit_transition. rewrite fresh_id_eq. cbn beta iota zeta. by autorewrite with reactor. Qed.
Lemma acc_commit w cause hits : acc w -> acc (commit_transition (N := N) w cause hits).
Proof.
  intros Ha. rewrite commit_state. apply acc_bump.
  destruct (io_recovery _); [by apply acc_clear_recovery|done].
Qed.
Lemma acc_execute_instruction w i c t w' turn :
  acc w -> pending_io_count (w_state w) = 0 ->
  execute_instruction (N := N) debug_json cfg w i c t = (w', turn) -> acc w'.
Proof.
  intros Ha Hp. unfold execute_instruction.
  destruct execute_transition as [[p q hits|ty ps|k reason|ty reason hits]|err].
  - unfold on_state. set (w1 := set_state w _).
    assert (acc w1) as Ha1 by by apply acc_update_queue, acc_payload.
    destruct (_ && _); intros [= <- _]; [by apply acc_recover|by apply acc_commit].
  - unfold on_io_required. rewrite fresh_id_eq. cbn beta iota zeta.
    destruct (is_unknown_io_type cfg ty); intros [= <- _]; cbn; autorewrite with reactor; cbn.
    + by apply acc_phase, acc_phase.
    + by apply acc_phase, acc_register.
  - unfold on_halted. intros [= <- _]. cbn. autorewrite with reactor. by apply acc_phase, acc_phase.
  - unfold on_ignored. rewrite fresh_id_eq. cbn beta iota zeta.
    intros [= <- _]. cbn. autorewrite with reactor. by apply acc_phase, acc_phase.
  - unfold on_tcb_error. intros [= <- _]. cbn. autorewrite with reactor. by apply acc_phase, acc_phase.
Qed.
Lemma acc_execute_turn w t w' turn :
  acc w -> execute_turn (N := N) debug_json cfg w t = (w', turn) -> acc w'.
Proof.
  intros Ha. unfold execute_turn.
  destruct (Nat.eqb_spec (pending_io_count (w_state w)) 0) as [Hp|]; [|by intros [= <- _]].
  cbn [negb]. destruct (max_rounds cfg <=? w_steps w); [intros [= <- _]; by apply acc_recover|].
  destruct (pop_instruction (w_state w)) as [[[i c] s]|] eqn:Hpop; [|by intros [= <- _]].
  apply pop_pending in Hpop as Hps. apply acc_pop in Hpop; [|done]. cbn zeta.
  set (w1 := if Nat.eqb _ 0 then _ else _).
  assert (w_state w1 = s) as Hs1 by (unfold w1; by destruct (Nat.eqb _ 0)).
  intros He. eapply acc_execute_instruction; [| |done]; rewrite Hs1; [done|congruence].
Qed.
Lemma acc_execute_queue fuel w t w' :
  acc w -> execute_queue (N := N) debug_json cfg fuel w t = Some w' -> acc w'.
Proof.
  revert w. induction fuel as [|fuel IH]; intros w Ha; cbn; [done|].
  destruct (execute_turn debug_json cfg w t) as [w1 [|]] eqn:Ht.
  - apply IH. by eapply acc_execute_turn.
  - intros [= <-]. by eapply acc_execute_turn.
Qed.
Lemma acc_execute_phase w t w' it :
  acc w -> execute_phase (N := N) debug_json cfg w t = Some (w', it) -> acc w'.
Proof.
  intros Ha. unfold execute_phase. destruct (execute_queue _ _ _ _ _) as [w1|] eqn:He; [|done].
  intros [= <- <-]. eapply acc_execute_queue; [|done]. by apply acc_phase.
Qed.
Definition errored (it : Iteration) : bool :=
  match it with Finished (Err _) => true | _ => false end.
Lemma acc_after_drain w input w' it :
  acc w -> after_drain (N := N) debug_json cfg w input = Some (w', it) -> errored it = false -> acc w'.
Proof.
  intros Ha. unfold after_drain. destruct (stable_now w).
  { intros [= <- _] _. unfold report_stable. cbn. autorewrite with reactor. by apply acc_phase, acc_phase. }
  destruct (must_wait _ _); [|intros He _; by eapply acc_execute_phase].
  set (w0 := set_phase w AwaitingIo). assert (acc w0) as Ha0 by by apply acc_phase.
  destruct (in_waited input) as [f| |].
  - destruct (receive_fact w0 f) as [w1 [u|e]] eqn:Hr; [|by intros [= <- <-]].
    intros He _. eapply acc_execute_phase; [|done]. by eapply acc_receive_fact.
  - by intros [= <- _] _.
  - intros [= <- _] _. unfold check_io_timeouts. destruct (Nat.eqb _ 0); [done|].
    by apply acc_drop_requests.
Qed.
Lemma acc_main_iteration w input w' it :
  acc w -> main_iteration (N := N) debug_json cfg w input = Some (w', it) ->
  errored it = false -> acc w'.
Proof.
  intros Ha. unfold main_iteration. fold (at_head w input). set (w0 := at_head w input).
  assert (acc w0) as Ha0 by by apply acc_violations.
  destruct (w_interrupt w0).
  { intros [= <- _] _. unfold handle_interrupt. repeat (cbn; autorewrite with reactor).
    by repeat apply acc_phase. }
  destruct (w_cancel_all w0); [intros [= <- _] _; by apply acc_drop_requests|].
  destruct (drain_facts _ _) as [w2 [u|e]] eqn:Hd; [|by intros [= <- <-]].
  apply acc_drain in Hd; [|by apply acc_phase].
  destruct (in_closed input); [by intros [= <- _] _|]. by apply acc_after_drain.
Qed.
Lemma acc_run_loop w inputs w' it :
  acc w -> run_loop (N := N) debug_json cfg w inputs = Some (w', it) -> errored it = false -> acc w'.
Proof.
  revert w. induction inputs as [|input inputs IH]; intros w Ha; cbn; [by intros [= <- _]|].
  destruct (main_iteration debug_json cfg w input) as [[w1 it1]|] eqn:Hm; [|done].
  destruct it1 as [|r].
  - intros Hr He. eapply IH; [|done|done]. by eapply acc_main_iteration.
  - intros [= <- <-] He. by eapply acc_main_iteration.
Qed.
Lemma acc_spawn (log : FactsLog S) :
  rs_queue (seed_state log) = [] -> acc (spawn cfg log).
Proof.
  unfold spawn, seed_state. cbn [w_state]. destruct (snapshot log) as [[p q] v].
  destruct (0 <? v)%Z; [|intros _; apply acc_new]. cbn. intros ->.
  split; cbn; rewrite ?dom_empty_L, ?size_empty; (done || lia).
Qed.
End Accounting.
