(* ===== verification/ReactorProps.v ===== *)
(** The properties of the reactor, with their witnesses. *)

From S2P Require Import Prelude ObjectMap Value Error Path Domain Executor ExecSemantics Transition Fact Serde Hash Wal WalFile FactsLog FactsLogSpec Phase ReactorState Reactor ReactorSpec.

(** * Identifiers *)

Lemma ids_from_seq n k :
  is_u64 n = true -> ids_from n k = map (fun i => ((n + Z.of_nat i) mod 2 ^ 64)%Z) (seq 0 k).
Proof.
  revert n. induction k as [|k IH]; intros n Hn; cbn [ids_from seq map]; [done|].
  apply is_u64_spec in Hn. unfold u64_max in Hn. f_equal.
  - rewrite Z.add_0_r, Z.mod_small; lia.
  - rewrite IH.
    + rewrite <- seq_shift, map_map. apply map_ext. intros i. unfold u64_wrapping_add.
      rewrite Zplus_mod_idemp_l. f_equal. lia.
    + apply is_u64_spec. unfold u64_wrapping_add, u64_max.
      pose proof (Z.mod_pos_bound (n + 1) (2 ^ 64)). lia.
Qed.
Lemma ids_from_NoDup n k :
  is_u64 n = true -> (Z.of_nat k <= 2 ^ 64)%Z -> NoDup (ids_from n k).
Proof.
  intros Hn Hk. rewrite ids_from_seq by done.
  apply is_u64_spec in Hn. unfold u64_max in Hn.
  assert (forall i j, i < k -> j < k ->
    ((n + Z.of_nat i) mod 2 ^ 64 = (n + Z.of_nat j) mod 2 ^ 64)%Z -> i = j) as Hinj.
  { intros i j Hi Hj He.
    rewrite !(Z.mod_eq (n + _) (2 ^ 64)) in He by lia.
    set (a := ((n + Z.of_nat i) / 2 ^ 64)%Z) in *. set (b := ((n + Z.of_nat j) / 2 ^ 64)%Z) in *.
    assert (a = b) by nia. subst. lia. }
  apply NoDup_ListNoDup. apply Finite.Injective_map_NoDup_in; [|apply seq_NoDup].
  intros i j Hi%in_seq Hj%in_seq. apply Hinj; lia.
Qed.

(** * Logs without a store *)

Lemma append_no_store {N S} `{SerdeNumber N, SerdeText N, Blake3, FactWalStore S}
    (log : FactsLog S) f :
  wal (inner log) = None ->
  wal (inner (fst (append (N := N) log f))) = None /\
  escalations (fst (append (N := N) log f)) = escalations log.
Proof.
  intros Hw. unfold append, write_ahead. rewrite Hw. destruct (fact_hash f); [|done].
  cbn. destruct (apply_fact_to_state _ _) as [st [u|e]]; done.
Qed.
Lemma sent_no_store {N S} `{SerdeNumber N, SerdeText N, Blake3, FactWalStore S}
    (log : FactsLog S) fs :
  wal (inner log) = None -> sent (N := N) log fs = fs.
Proof.
  revert log. induction fs as [|f fs IH]; intros log Hw; cbn [sent]; [done|].
  destruct (append_no_store (N := N) log f Hw) as [Hw' He].
  unfold guidance. rewrite He, drop_all, IH by done. done.
Qed.

(** * Injecting an I/O result *)

Definition plain_name (s : string) : bool :=
  negb (str_is_empty s) && str_all (fun c => negb (is_special c)) s.
Lemma escape_plain s : str_all (fun c => negb (is_special c)) s = true -> escape_name s = s.
Proof.
  induction s as [|c s IH]; cbn; [done|]. intros [Hc%negb_true_iff Hs]%andb_true_iff.
  by rewrite Hc, IH.
Qed.
Lemma plain_no_dot s :
  str_all (fun c => negb (is_special c)) s = true ->
  str_all (fun b => negb (Ascii.eqb b ".")) s = true.
Proof.
  induction s as [|c s IH]; cbn; [done|]. intros [Hc Hs]%andb_true_iff. rewrite IH, andb_true_r by done.
  unfold is_special in Hc. by destruct (Ascii.eqb c "."); [destruct (Ascii.eqb c "\")|].
Qed.
Lemma ends_with_app c s t : str_is_empty t = false -> ends_with_char c (s +:+ t) = ends_with_char c t.
Proof.
  intros Ht. induction s as [|a s IH]; [done|]. cbn. rewrite IH. by destruct s, t.
Qed.
Lemma ends_with_plain s :
  str_all (fun b => negb (Ascii.eqb b ".")) s = true -> ends_with_char "." s = false.
Proof.
  induction s as [|c s IH]; [done|]. cbn. intros [Hc%negb_true_iff Hs]%andb_true_iff.
  rewrite IH by done. by destruct s.
Qed.
Lemma denotes_io_results ty :
  plain_name ty = true ->
  denotes ("__io_results__." +:+ ty) = Some [Key "__io_results__"; Key ty].
Proof.
  intros [Hne%negb_true_iff Hp]%andb_true_iff. apply escape_plain in Hp as He.
  pose proof (parse_render [Field "__io_results__"; Field ty]) as Hr.
  unfold denotes. change (str_is_empty ("__io_results__." +:+ ty)) with false. cbv iota.
  rewrite (ends_with_app "." "__io_results__." ty Hne), ends_with_plain by by apply plain_no_dot.
  cbn [render_segments render_segment] in Hr. rewrite He in Hr.
  change ("__io_results__." +:+ ty) with ("__io_results__" +:+ String "." ty).
  change (escape_name "__io_results__") with "__io_results__" in Hr. rewrite Hr; [done|done|].
  repeat constructor. cbn. by rewrite Hne.
Qed.
Lemma split_io_results ty :
  plain_name ty = true -> split_char "." ("__io_results__." +:+ ty) = ["__io_results__"; ty].
Proof.
  intros [_ Hp]%andb_true_iff. apply plain_no_dot in Hp.
  destruct (split_char_no_dot "__io_results__" ty eq_refl) as [_ Hs].
  destruct (split_char_no_dot ty "" Hp) as [Ht _]. change ("__io_results__." +:+ ty)
    with ("__io_results__" +:+ String "." ty). by rewrite Hs, Ht.
Qed.

(** A payload that can take results: an object whose result slot, if any, is
    an object. *)
Definition takes_results (payload : JsonValue) : bool :=
  match payload with
  | JObject m =>
      match map_get m "__io_results__" with Some (JObject _) | None => true | _ => false end
  | _ => false
  end.
Definition io_result (payload : JsonValue) (ty : string) : option JsonValue :=
  let! results := json_get payload "__io_results__" in json_get results ty.
Lemma inject_spec payload ty v :
  plain_name ty = true -> takes_results payload = true -> wf_json payload = true ->
  exists payload', inject_io_result payload ty v = (payload', Ok tt) /\
    io_result payload' ty = Some v /\
    forall k, k <> "__io_results__" -> json_get payload' k = json_get payload k.
Proof.
  intros Hty Hp Hwf. destruct payload as [| | | | | |m]; try done. cbn in Hp.
  apply andb_true_iff in Hwf as [Hso%keys_sortedb_spec _].
  unfold inject_io_result, update_payload, io_result.
  pose proof (resolve_path_mut_denotes (JObject m) ("__io_results__." +:+ ty)) as Hr.
  rewrite split_io_results by done.
  destruct (resolve_path_mut (JObject m) ("__io_results__." +:+ ty)) as [[x put]|].
  - destruct Hr as (ss & Hd & Hg & Hput). rewrite denotes_io_results in Hd by done.
    injection Hd as <-. cbn in Hg. rewrite Hput. cbn.
    destruct (map_get m "__io_results__") as [r|] eqn:Hm; [|done].
    destruct r as [| | | | | |io]; try done. cbn in Hg |- *.
    destruct (map_get io ty) as [y|]; [|done].
    eexists. split_and!; [done|cbn; by rewrite map_get_insert_eq; cbn; rewrite map_get_insert_eq|].
    intros k Hk. cbn. by rewrite map_get_insert_ne by (done || by apply not_eq_sym).
  - cbn [update_parts]. clear Hr.
    set (m' := if map_contains_key m "__io_results__" then m else _).
    assert (keys_sorted m') as Hso' by (unfold m'; destruct map_contains_key; by try apply obj_insert_sorted).
    assert (exists io, map_get m' "__io_results__" = Some (JObject io) /\
      forall k, k <> "__io_results__" -> map_get m' k = map_get m k) as (io & Hio & Hk).
    { unfold m'. pose proof (map_contains_key_get m "__io_results__") as Hc.
      destruct (map_contains_key m "__io_results__").
      - destruct Hc as [[r Hr] _]; [done|]. rewrite Hr in *. destruct r as [| | | | | |io]; try done.
        by exists io.
      - exists []. rewrite map_get_insert_eq. split; [done|]. intros k Hk. by rewrite map_get_insert_ne by (done || by apply not_eq_sym). }
    pose proof (map_get_mut_spec m' "__io_results__") as Hg. rewrite Hio in Hg.
    destruct (map_get_mut m' "__io_results__") as [[x put]|]; [|done].
    destruct Hg as [[= <-] Hput]. eexists. split_and!; [done| |].
    + cbn. rewrite Hput, map_get_insert_eq. cbn. by rewrite map_get_insert_eq.
    + intros k Hne. cbn. rewrite Hput, map_get_insert_ne by (done || by apply not_eq_sym). by apply Hk.
Qed.

(** Elsewhere the injection fails and leaves the payload as it is. *)
Lemma inject_refused payload ty v :
  plain_name ty = true -> takes_results payload = false ->
  exists e, inject_io_result payload ty v = (payload, Err e).
Proof.
  intros Hty Hp. unfold inject_io_result, update_payload.
  pose proof (resolve_path_mut_denotes payload ("__io_results__." +:+ ty)) as Hr.
  rewrite split_io_results by done.
  assert (get_steps payload [Key "__io_results__"; Key ty] = None) as Hnone.
  { destruct payload as [| | | | | |m]; try done. cbn in Hp |- *. destruct (map_get m "__io_results__") as [[]|]; done. }
  destruct (resolve_path_mut payload ("__io_results__." +:+ ty)) as [[x put]|].
  { destruct Hr as (ss & Hd & Hg & _). rewrite denotes_io_results in Hd by done. injection Hd as <-. congruence. }
  cbn [update_parts]. destruct payload as [| | | | | |m]; try (by eexists). cbn in Hp.
  destruct (map_get m "__io_results__") as [r|] eqn:Hm; [|done].
  assert (map_contains_key m "__io_results__" = true) as -> by (apply map_contains_key_get; by exists r).
  pose proof (map_get_mut_spec m "__io_results__") as Hg. rewrite Hm in Hg.
  destruct (map_get_mut m "__io_results__") as [[x put]|]; [|done]. destruct Hg as [[= <-] Hput].
  assert (put r = m) as Hid.
  { rewrite Hput. by apply obj_insert_id. }
  destruct r; try done; rewrite Hid; by eexists.
Qed.

(** * Properties of the loop *)

Section Progress.
Context {N S : Type} `{SerdeNumber N, SerdeText N, Blake3, FactWalStore S}.
Variable debug_json : JsonValue -> string.
Variable cfg : Reactor.
Implicit Types (w : World S).

(** An iteration with nothing from outside. *)
Definition quiet (input : Input) : bool :=
  negb (in_interrupt input) && negb (in_cancel_all input)
  && match in_drained input with [] => true | _ => false end
  && negb (in_closed input)
  && match in_waited input with WTimeout => true | _ => false end.
(** Something is queued, or has run since the last Stable fact. *)
Definition active w : Prop := rs_queue (w_state w) <> [] \/ 0 < w_steps w.
(** Where a run that settles ends. *)
Definition settled w w' : Prop :=
  (exists id, Stable id (rs_version (w_state w')) ∈ drop (length (w_events w)) (w_events w')) \/
  pending_io_count (w_state w') <> 0.

Lemma traced_new_events w w' tr :
  traced (N := N) w w' tr ->
  drop (length (w_events w)) (w_events w') = sent (N := N) (w_log w) (facts_of tr).
Proof. intros []. by rewrite tr_events, drop_app_length. Qed.
Lemma reports_settled w w' tr : traced (N := N) w w' tr -> reports w' tr -> settled w w'.
Proof.
  intros Ht [[id Hin] _]. left. exists id. rewrite (traced_new_events _ _ _ Ht).
  apply In_sent. unfold produced in Hin. apply list_elem_of_In, in_map_iff in Hin as (e & He & Hin).
  apply filter_In in Hin as [Hin _]. apply list_elem_of_In, in_map_iff. by exists e.
Qed.
Lemma settled_later w w1 w' tr :
  traced (N := N) w w1 tr -> (exists tr', traced (N := N) w1 w' tr') ->
  settled w1 w' -> settled w w'.
Proof.
  intros Ht [tr' Ht'] [[id Hin]|Hp]; [left|by right]. exists id.
  rewrite (traced_new_events _ _ _ (traced_app _ _ _ _ _ Ht Ht')).
  rewrite (traced_new_events _ _ _ Ht') in Hin. unfold facts_of. rewrite map_app, sent_app.
  apply elem_of_app. right.
  pose proof (tr_log _ _ _ Ht) as Hl. unfold facts_of in Hl. by rewrite <- Hl.
Qed.

Lemma cancel_execute_queue fuel w t w' :
  execute_queue (N := N) debug_json cfg fuel w t = Some w' -> w_cancel_all w' = w_cancel_all w.
Proof.
  revert w. induction fuel as [|fuel IH]; intros w; cbn; [done|].
  destruct (execute_turn debug_json cfg w t) as [w1 turn] eqn:Ht.
  assert (w_cancel_all w1 = w_cancel_all w) as Hw1.
  2: { destruct turn; [intros ->%IH; done|by intros [= <-]]. }
  clear IH. revert Ht. unfold execute_turn.
  destruct (negb _); [by intros [= <- _]|].
  destruct (_ <=? _); [intros [= <- _]; unfold recover_with_error;
    by repeat (cbn; autorewrite with reactor)|].
  destruct (pop_instruction (w_state w)) as [[[i c] s]|]; [|by intros [= <- _]]. cbn zeta.
  set (w2 := if Nat.eqb _ 0 then _ else _).
  assert (w_cancel_all w2 = w_cancel_all w) as <- by (unfold w2; by destruct (Nat.eqb _ 0)).
  unfold execute_instruction.
  destruct execute_transition as [[p q hits|ty ps|k reason|ty reason hits]|err].
  - unfold on_state. destruct (_ && _); intros [= <- _].
    + unfold recover_with_error. by repeat (cbn; autorewrite with reactor).
    + unfold commit_transition. rewrite fresh_id_eq. cbn beta iota zeta. by autorewrite with reactor.
  - unfold on_io_required. rewrite fresh_id_eq. cbn beta iota zeta.
    destruct (is_unknown_io_type cfg ty); intros [= <- _]; cbn; by autorewrite with reactor.
  - unfold on_halted. intros [= <- _]. cbn. by autorewrite with reactor.
  - unfold on_ignored. rewrite fresh_id_eq. cbn beta iota zeta.
    intros [= <- _]. cbn. by autorewrite with reactor.
  - unfold on_tcb_error. intros [= <- _]. cbn. by autorewrite with reactor.
Qed.

(** One quiet iteration of an active reactor that waits for no I/O: it
    reports stability, or it has taken steps. *)
Lemma quiet_iteration w input :
  quiet input = true -> w_cancel_all w = false -> active w ->
  pending_io_count (w_state w) = 0 ->
  exists w' tr, main_iteration (N := N) debug_json cfg w input = Some (w', Continue) /\
    traced (N := N) w w' tr /\
    (reports w' tr \/
     (w_steps w < w_steps w' <= max_rounds cfg /\ w_cancel_all w' = false)).
Proof.
  intros Hq Hc Ha Hp. destruct input as [i c d cl wa now sn]. unfold quiet in Hq.
  cbn [in_interrupt in_cancel_all in_drained in_closed in_waited] in Hq.
  destruct i, c, d, cl; try done. destruct wa; try done. clear Hq.
  set (input := mk_input false false [] false WTimeout now sn).
  unfold main_iteration. fold (at_head w input). set (w0 := at_head w input).
  assert (same_io w w0) as Hio by same_io.
  assert (w_cancel_all w0 = false) as -> by (cbn; by rewrite Hc).
  destruct (w_interrupt w0).
  { destruct (trace_interrupt (N := N) (set_flags w0 false false)) as (tr & Ht & _ & _ & Hr).
    eexists _, tr. split_and!; [done|by apply (same_traced w (set_flags w0 false false))|by left]. }
  cbn [in_drained in_closed drain_facts input]. set (w1 := set_phase w0 Draining).
  assert (same_io w w1) as Hio1 by done. unfold after_drain. destruct (stable_now w1) eqn:Hst.
  { apply andb_true_iff in Hst as [Hst _].
    destruct (trace_report_stable (N := N) w1 Hst) as (tr & Ht & _ & _ & Hr).
    eexists _, tr. split_and!; [done|by apply (same_traced w w1)|by left]. }
  assert (rs_queue (w_state w1) <> []) as Hne.
  { intros He. unfold stable_now, detector_is_stable in Hst. change (w_state w1) with
      (with_phase (w_state w0) Draining) in *. cbn in Hst, He. rewrite He, Hp in Hst. cbn in Hst.
    destruct Ha as [Hn|Hs]; [done|]. destruct (w_steps w); [lia|done]. }
  assert (must_wait w1 (negb (Nat.eqb (length (in_drained input)) 0)) = false) as ->.
  { unfold must_wait. change (pending_io_count (w_state w1)) with (pending_io_count (w_state w)).
    rewrite Hp. by destruct (rs_queue (w_state w1)). }
  destruct (execute_phase_case (N := N) debug_json cfg w1 sn) as (w' & tr & He & Ht & _ & Hcase).
  exists w', tr. split_and!; [done|by apply (same_traced w w1)|].
  destruct Hcase as [[_ Hr]|(_ & Hsteps & Hprog)]; [by left|right].
  specialize (Hprog Hne Hp). split; [change (w_steps w) with (w_steps w1); lia|].
  unfold execute_phase in He. destruct (execute_queue _ _ _ _ _) as [w2|] eqn:Heq; [|done].
  injection He as <-. apply cancel_execute_queue in Heq. rewrite Heq. cbn. by rewrite Hc.
Qed.
Lemma settles_within m w inputs :
  max_rounds cfg - w_steps w <= m -> m + 2 <= length inputs -> forallb quiet inputs = true ->
  w_cancel_all w = false -> active w ->
  exists n w' tr, n <= m + 2 /\
    run_loop (N := N) debug_json cfg w (take n inputs) = Some (w', Continue) /\
    traced (N := N) w w' tr /\ settled w w'.
Proof.
  revert w inputs. induction m as [m IH] using lt_wf_ind; intros w inputs Hm Hlen Hq Hc Ha.
  destruct (Nat.eq_dec (pending_io_count (w_state w)) 0) as [Hp|Hp].
  2: { exists 0, w, []. split_and!; [lia|done|by apply traced_nil|by right]. }
  destruct inputs as [|input inputs]; [cbn in Hlen; lia|].
  cbn in Hq. apply andb_true_iff in Hq as [Hq Hqs].
  destruct (quiet_iteration w input Hq Hc Ha Hp) as (w1 & t1 & Hrun & Ht1 & [Hr|[Hs Hc1]]).
  { exists 1, w1, t1. split_and!; [lia|cbn; by rewrite Hrun|done|by eapply reports_settled]. }
  destruct (IH (m - 1) ltac:(lia) w1 inputs) as (n & w' & t2 & Hn & Hrun2 & Ht2 & Hset);
    [lia|cbn in Hlen; lia|done|done|right; lia|].
  exists (Datatypes.S n), w', (t1 ++ t2). split_and!; [lia|cbn; by rewrite Hrun|by eapply traced_app|].
  by eapply settled_later; [|exists t2|].
Qed.
End Progress.

(** * Properties of a turn *)

Lemma append_keeps_state {N S} `{SerdeNumber N, SerdeText N, Blake3, FactWalStore S}
    (log : FactsLog S) f :
  (forall st, apply_fact_to_state st f = (st, Ok tt)) ->
  snapshot (fst (append (N := N) log f)) = snapshot log.
Proof.
  intros Hf. unfold append, write_ahead. destruct (fact_hash f) as [c|]; [|done].
  destruct (wal (inner log)) as [s|]; [|cbn; by rewrite Hf].
  destruct (append_record_with_hash _ _ _ _ _ _) as [s' [u|e]]; [cbn; by rewrite Hf|].
  by destruct (_ <=? _)%Z.
Qed.
Lemma take_after_pop s x s' : pop_instruction s = Some (x, s') -> accounted s ->
  rs_queue s = fst x :: rs_queue s' /\ instruction_causes s = snd x :: instruction_causes s' /\
  rs_payload s' = rs_payload s /\ rs_version s' = rs_version s.
Proof.
  unfold pop_instruction. intros Hp [? ? ? ? ? Hc].
  destruct (rs_queue s) as [|i q]; [done|]. destruct (instruction_causes s); [done|].
  by injection Hp as <- <-.
Qed.

Section Turn.
Context {N S : Type} `{SerdeNumber N, SerdeText N, Blake3, FactWalStore S}.
Variable debug_json : JsonValue -> string.
Variable cfg : Reactor.
Implicit Types (w : World S).

(** The reactor about to run the instruction at the head of its queue. *)
Definition popped w (s : ReactorState) : World S :=
  let w1 := set_steps (set_state w s) (Datatypes.S (w_steps w)) in
  if Nat.eqb (w_steps w1 mod SNAPSHOT_UPDATE_INTERVAL) 0 then update_snapshot w1 false else w1.
Lemma execute_turn_pop w t :
  pending_io_count (w_state w) = 0 -> w_steps w < max_rounds cfg ->
  execute_turn (N := N) debug_json cfg w t =
  match pop_instruction (w_state w) with
  | None => (w, TurnLeave)
  | Some ((instruction, cause), s) =>
      execute_instruction (N := N) debug_json cfg (popped w s) instruction cause t
  end.
Proof.
  intros Hp Hs. unfold execute_turn. rewrite Hp. cbn [Nat.eqb negb].
  apply Nat.leb_gt in Hs. by rewrite Hs.
Qed.
Lemma popped_io w s : same_io w (popped w s) /\ w_state (popped w s) = s.
Proof. unfold popped. by destruct (Nat.eqb _ 0). Qed.

Definition finish_recovery (s : ReactorState) : ReactorState :=
  if io_recovery s then clear_io_recovery s else s.
Lemma overflow_states s :
  with_phase (clear_queue (bump_version (finish_recovery s))) Idle =
  bump_version (finish_recovery (with_phase (clear_queue s) Idle)).
Proof.
  unfold finish_recovery. cbn. destruct (io_recovery s); [|done].
  unfold clear_io_recovery, clear_io_result. cbn. by destruct (rs_payload s).
Qed.
(** The turn and the pure step from the same popped instruction. *)
Lemma instruction_agrees w instruction cause t :
  let '(w', turn) := execute_instruction (N := N) debug_json cfg w instruction cause t in
  let s := w_state w in
  match execute_transition (core_eval cfg) instruction (rs_payload s) (rs_queue s) with
  | Ok (TState new_payload new_queue _) =>
      let s := update_queue_with_causes (with_payload s new_payload) new_queue cause in
      if ((max_queue_len cfg <=? length new_queue)%nat && (0 <? max_queue_len cfg)%nat)%bool then
        turn = TurnLeave /\ w_state w' = with_phase (clear_queue s) Idle
      else turn = TurnNext /\ w_state w' = bump_version (finish_recovery s)
  | Ok (TIoRequired io_type _) =>
      turn = TurnLeave /\
      let id := gen_next (w_ids w) in
      w_state w' = if is_unknown_io_type cfg io_type then with_phase s Idle
                   else with_phase (save_io_instruction (register_io_request_at s id io_type t)
                          id instruction cause) AwaitingIo
  | Ok (TIgnored _ _ _) | Ok (THalted _ _) | Err _ =>
      turn = TurnLeave /\ w_state w' = with_phase s Idle
  end.
Proof.
  unfold execute_instruction.
  destruct execute_transition as [[p q hits|ty ps|k reason|ty reason hits]|err].
  - unfold on_state. cbn zeta. set (s := update_queue_with_causes _ q cause).
    change (queue_len (w_state (set_state w s))) with (length q).
    destruct (_ && _).
    + split; [done|]. by destruct (recover_state (N := N) (set_state w s)
        (queue_message cfg (length q))) as [-> _].
    + split; [done|]. by rewrite commit_state.
  - unfold on_io_required. rewrite fresh_id_eq. cbn beta iota zeta.
    destruct (is_unknown_io_type cfg ty); (split; [done|]); cbn; by autorewrite with reactor.
  - unfold on_halted. split; [done|]. cbn. by autorewrite with reactor.
  - unfold on_ignored. rewrite fresh_id_eq. cbn beta iota zeta. split; [done|]. cbn. by autorewrite with reactor.
  - unfold on_tcb_error. split; [done|]. cbn. by autorewrite with reactor.
Qed.
End Turn.

(** The loop and the pure step function agree.  Where one turn of the
    executing loop takes an instruction, [pure::next_step] on the same state
    takes the same one, and: a completed transition below the queue limit, a
    halt and an evaluation error leave the same state (up to the phase); at
    the queue limit both drop the queue, but the pure step has counted the
    version and finished the recovery that the loop skips; an ignored
    instruction counts a version in the pure step only; and for an I/O
    request the pure step puts the instruction back where the loop parks it
    under the request. *)
Lemma turn_agrees_with_pure {N S} `{SerdeNumber N, SerdeText N, Blake3, FactWalStore S}
    (debug_json : JsonValue -> string) (cfg : Reactor) (w : World S) (t : Z) :
  pending_io_count (w_state w) = 0 -> w_steps w < max_rounds cfg ->
  let '(w', turn) := execute_turn (N := N) debug_json cfg w t in
  match pure_next_step (core_eval cfg) (w_state w) (max_queue_len cfg) with
  | None => w' = w /\ turn = TurnLeave
  | Some (StateChanged, s) =>
      match turn with
      | TurnNext => w_state w' = s
      | TurnLeave =>
          rs_queue s = [] /\ rs_queue (w_state w') = [] /\
          with_phase s Idle = bump_version (finish_recovery (w_state w'))
      end
  | Some (SIgnored _ _, s) => turn = TurnLeave /\ with_phase s Idle = bump_version (w_state w')
  | Some (SHalted _ _, s) | Some (STcbError _, s) =>
      turn = TurnLeave /\ w_state w' = with_phase s Idle
  | Some (SIoRequired io_type _, s) =>
      turn = TurnLeave /\ exists instruction cause s0, s = push_front s0 instruction cause /\
      let id := gen_next (w_ids w) in
      w_state w' = if is_unknown_io_type cfg io_type then with_phase s0 Idle
                   else with_phase (save_io_instruction (register_io_request_at s0 id io_type t)
                          id instruction cause) AwaitingIo
  end.
Proof.
  intros Hp Hs. rewrite execute_turn_pop by done. unfold pure_next_step.
  destruct (pop_instruction (w_state w)) as [[[i c] s]|]; [|done].
  pose proof (instruction_agrees (N := N) debug_json cfg (popped w s) i c t) as Hi.
  destruct (popped_io w s) as ((_ & _ & Hids) & Hst). rewrite Hst, Hids in Hi.
  destruct (execute_instruction _ _ _ _ _ _) as [w' turn].
  cbv zeta in Hi. revert Hi.
  destruct execute_transition as [[p q hits|ty ps|k reason|ty reason hits]|err]; intros Hi; cbv zeta.
  - set (s1 := update_queue_with_causes _ q c) in *. 
    change (if io_recovery s1 then with_recovery (clear_io_result s1) false else s1)
      with (finish_recovery s1).
    assert (length (rs_queue (bump_version (finish_recovery s1))) = length q) as ->.
    { unfold finish_recovery, clear_io_recovery, clear_io_result.
      destruct (io_recovery s1), (rs_payload s1); done. }
    rewrite andb_comm. revert Hi. destruct (_ && _); intros [-> Hw]; rewrite Hw; [|done].
    split; [done|]. split; [done|apply overflow_states].
  - destruct Hi as [-> Hw]. split; [done|]. by exists i, c, s.
  - done.
  - destruct Hi as [-> ->]. done.
  - done.
Qed.

(** C5: a halted instruction leaves no trace but its violation.  When the
    kernel halts the instruction at the head of the queue, the turn drops
    that instruction and nothing else: payload, version, remaining queue and
    the log's materialised state stay as they were, the loop goes back to its
    head, and exactly one fact is emitted, the violation with the halting
    rule's index and reason, the instruction and its cause. *)
Theorem halt_blocks_instruction {N S} `{SerdeNumber N, SerdeText N, Blake3, FactWalStore S}
    (debug_json : JsonValue -> string) (cfg : Reactor) (w : World S) (t : Z)
    (instruction : JsonValue) (cause : FactId) (s : ReactorState) (k : nat) (reason : string) :
  accounted (w_state w) -> pending_io_count (w_state w) = 0 -> w_steps w < max_rounds cfg ->
  pop_instruction (w_state w) = Some ((instruction, cause), s) ->
  execute_transition (core_eval cfg) instruction (rs_payload s) (rs_queue s) = Ok (THalted k reason) ->
  exists w', execute_turn (N := N) debug_json cfg w t = (w', TurnLeave) /\
    rs_payload (w_state w') = rs_payload (w_state w) /\
    rs_version (w_state w') = rs_version (w_state w) /\
    rs_queue (w_state w) = instruction :: rs_queue (w_state w') /\
    snapshot (w_log w') = snapshot (w_log w) /\
    traced (N := N) w w'
      [(true, Violation (gen_next (w_ids w)) cause (Z.of_nat k) reason instruction)].
Proof.
  intros Ha Hp Hs Hpop Ht. rewrite execute_turn_pop, Hpop by done.
  destruct (popped_io w s) as (Hio & Hst). set (w0 := popped w s) in *.
  unfold execute_instruction. rewrite Hst, Ht. unfold on_halted.
  set (f := fun id => Violation id cause (Z.of_nat k) reason instruction).
  eexists. split; [done|].
  destruct (take_after_pop _ _ _ Hpop Ha) as (Hq & _ & Hpl & Hv). cbn [fst] in Hq.
  assert (traced (N := N) w (set_phase (emit_new (N := N) (set_phase w0 PhError) f) Idle)
    [(true, f (gen_next (w_ids w)))]) as Htr.
  { apply (traced_same _ (emit_new (N := N) (set_phase w0 PhError) f)); [|done].
    apply (same_traced _ (set_phase w0 PhError)); [by destruct Hio as (?&?&?)|].
    destruct Hio as (_ & _ & <-). by apply (traced_new (set_phase w0 PhError)). }
  split_and!; try (cbn; autorewrite with reactor; cbn; by rewrite Hst); [|done].
  rewrite (tr_log _ _ _ Htr). cbn. by apply append_keeps_state.
Qed.

(** The state a request leaves, and the one its response leaves. *)
Definition parked (s : ReactorState) (id : FactId) (instruction : JsonValue) (cause : FactId)
    (ty : string) (t : Z) : ReactorState :=
  with_phase (with_pending s 1 {[id]} (<[id := (instruction, cause)]> (pending_io_instructions s))
    (<[id := t]> (pending_io_timestamps s)) (<[id := ty]> (pending_io_types s))) AwaitingIo.
Definition resumed (s : ReactorState) (id : FactId) (instruction : JsonValue) (cause : FactId)
    (ty : string) (t : Z) (payload : JsonValue) : ReactorState :=
  bump_version (with_recovery (push_front (with_payload (with_phase (with_pending s 0 ∅
    (delete id (<[id := (instruction, cause)]> (pending_io_instructions s)))
    (delete id (<[id := t]> (pending_io_timestamps s)))
    (delete id (<[id := ty]> (pending_io_types s)))) AwaitingIo) payload) instruction cause) true).

Definition unanswered (s : ReactorState) (id : FactId) (instruction : JsonValue) (cause : FactId)
    (ty : string) (t : Z) : ReactorState :=
  with_phase (with_pending s 0 ∅ (<[id := (instruction, cause)]> (pending_io_instructions s))
    (delete id (<[id := t]> (pending_io_timestamps s))) (delete id (<[id := ty]> (pending_io_types s)))) AwaitingIo.
Definition answered (s : ReactorState) (id : FactId) (instruction : JsonValue) (cause : FactId)
    (ty : string) (t : Z) : ReactorState :=
  with_phase (with_pending s 0 ∅ (delete id (<[id := (instruction, cause)]> (pending_io_instructions s)))
    (delete id (<[id := t]> (pending_io_timestamps s))) (delete id (<[id := ty]> (pending_io_types s)))) AwaitingIo.

Section IoRequest.
Context {N S : Type} `{SerdeNumber N, SerdeText N, Blake3, FactWalStore S}.
Variable debug_json : JsonValue -> string.
Variable cfg : Reactor.
Implicit Types (w : World S).

Lemma io_request_turn w t instruction cause s ty params :
  accounted (w_state w) -> pending_io_count (w_state w) = 0 -> w_steps w < max_rounds cfg ->
  pop_instruction (w_state w) = Some ((instruction, cause), s) ->
  execute_transition (core_eval cfg) instruction (rs_payload s) (rs_queue s)
    = Ok (TIoRequired ty params) ->
  is_unknown_io_type cfg ty = false ->
  let id := gen_next (w_ids w) in
  exists w1, execute_turn (N := N) debug_json cfg w t = (w1, TurnLeave) /\
    traced (N := N) w w1 [(true, IoRequest id cause ty params)] /\
    w_state w1 = parked s id instruction cause ty t.
Proof.
  intros Ha Hp Hs Hpop Ht Hk id.
  pose proof (acc_pop _ _ _ Hpop Ha) as Has. pose proof (pop_pending _ _ _ Hpop) as Hps.
  rewrite Hp in Hps. pose proof (acc_idle_pending _ Has Hps) as Hes.
  destruct (popped_io w s) as ((Hl & Hev & Hids) & Hst). set (w0 := popped w s) in *.
  set (s1 := with_phase (save_io_instruction (register_io_request s id ty t) id instruction cause) AwaitingIo).
  exists (emit_fact (N := N) (set_state (bump_ids w0) s1) (IoRequest id cause ty params)). split_and!.
  - rewrite execute_turn_pop, Hpop by done. fold w0. unfold execute_instruction. rewrite Hst, Ht.
    unfold on_io_required. rewrite fresh_id_eq. cbn beta iota zeta. rewrite Hk, Hids. fold id.
    change (w_state (bump_ids w0)) with (w_state w0). by rewrite Hst.
  - apply (traced_produce w (set_state (bump_ids w0) s1)); [done|done| |done].
    change (snd (next_id (w_ids w0)) = snd (next_id (w_ids w))). by rewrite Hids.
  - autorewrite with reactor. cbn. unfold s1, register_io_request, register_io_request_at, parked.
    rewrite Hes, Hps. destruct (decide _); [set_solver|]. cbn. by rewrite union_empty_r_L.
Qed.
Lemma io_unknown_turn w t instruction cause s ty params :
  pending_io_count (w_state w) = 0 -> w_steps w < max_rounds cfg ->
  pop_instruction (w_state w) = Some ((instruction, cause), s) ->
  execute_transition (core_eval cfg) instruction (rs_payload s) (rs_queue s)
    = Ok (TIoRequired ty params) ->
  is_unknown_io_type cfg ty = true ->
  exists w1, execute_turn (N := N) debug_json cfg w t = (w1, TurnLeave) /\
    traced (N := N) w w1 [(true, FError (gen_next (w_ids w)) (unknown_io_message debug_json ty instruction))] /\
    w_state w1 = with_phase s Idle.
Proof.
  intros Hp Hs Hpop Ht Hk. destruct (popped_io w s) as (Hio & Hst). set (w0 := popped w s) in *.
  set (f := fun id => FError id (unknown_io_message debug_json ty instruction)).
  exists (set_phase (emit_new (N := N) (set_phase w0 PhError) f) Idle). split_and!.
  - rewrite execute_turn_pop, Hpop by done. fold w0. unfold execute_instruction. rewrite Hst, Ht.
    unfold on_io_required. rewrite fresh_id_eq. cbn beta iota zeta. rewrite Hk.
    unfold emit_new. by rewrite fresh_id_eq.
  - apply (traced_same _ (emit_new (N := N) (set_phase w0 PhError) f)); [|done].
    apply (same_traced _ (set_phase w0 PhError)); [by destruct Hio as (?&?&?)|].
    destruct Hio as (_ & _ & <-). by apply (traced_new (set_phase w0 PhError)).
  - cbn. autorewrite with reactor. cbn. by rewrite Hst.
Qed.
(** What a response to the parked request does to the state. *)
Lemma io_response_parked w s id instruction cause ty t rid result error :
  w_state w = parked s id instruction cause ty t ->
  exists w', receive_fact (N := N) w (IoResponse rid id result error) =
    (w', if (is_null result || is_some error)%bool then Ok tt else snd (inject_io_result (rs_payload s) ty result)) /\
    traced (N := N) w w' [(false, IoResponse rid id result error)] /\
    w_state w' = (
      if (is_null result || is_some error)%bool then bump_version (answered s id instruction cause ty t)
      else let '(payload, r) := inject_io_result (rs_payload s) ty result in
        match r with
        | Ok _ => resumed s id instruction cause ty t payload
        | Err _ => with_payload (unanswered s id instruction cause ty t) payload
        end).
Proof.
  intros Hw. set (f := IoResponse rid id result error). set (w1 := emit_fact (N := N) w f).
  assert (traced (N := N) w w1 [(false, f)]) as Htr by by apply traced_receive.
  unfold receive_fact. fold w1. unfold handle_fact, f. unfold w1 at 1. rewrite emit_fact_state, Hw.
  unfold handle_io_response, complete_io_request, get_io_type. cbn -[push_front].
  destruct (decide _); [|set_solver]. destruct (is_null result || is_some error)%bool.
  { eexists. split; [done|]. split; [by apply (traced_same _ w1)|]. cbn. by rewrite difference_diag_L. }
  cbn -[push_front]. rewrite lookup_insert_eq. destruct (inject_io_result (rs_payload s) ty result) as [p [[]|err]].
  - unfold resume_instruction, take_io_instruction. cbn -[push_front]. rewrite lookup_insert_eq. eexists. split; [done|].
    split; [by apply (traced_same _ w1)|]. unfold resumed. cbn -[push_front]. by rewrite difference_diag_L.
  - eexists. split; [done|]. split; [by apply (traced_same _ w1)|]. unfold unanswered. cbn. by rewrite difference_diag_L.
Qed.
Lemma io_response_stale w rid id result error :
  id ∉ pending_requests (w_state w) ->
  exists w', receive_fact (N := N) w (IoResponse rid id result error) = (w', Ok tt) /\
    w_state w' = w_state w /\
    traced (N := N) w w'
      [(false, IoResponse rid id result error);
       (true, FError (gen_next (w_ids w)) (stale_response_message id))].
Proof.
  intros Hid. set (f := IoResponse rid id result error). set (w1 := emit_fact (N := N) w f).
  assert (w_state w1 = w_state w) as Hw1 by apply emit_fact_state.
  exists (emit_error (N := N) (set_state w1 (w_state w)) (stale_response_message id)). split_and!.
  - unfold receive_fact. fold w1. unfold handle_fact, f. rewrite Hw1.
    unfold handle_io_response, complete_io_request. by destruct (decide _).
  - by autorewrite with reactor.
  - apply (traced_app w w1 _ [_] [_]); [by apply traced_receive|].
    assert (gen_next (w_ids w) = gen_next (w_ids (set_state w1 (w_state w)))) as ->
      by (unfold w1; cbn; by rewrite emit_fact_ids).
    apply (same_traced w1 (set_state w1 (w_state w))); [done|]. by apply traced_new.
Qed.
End IoRequest.

(** C36: the fate of an I/O request.  When the head instruction asks for I/O,
    the turn takes it off the queue and keeps payload and version.  An I/O
    type that is not among the known ones is refused: one Error fact that
    names it, and nothing is pending.  Any other type, whatever its name,
    leaves exactly one pending request under a fresh identifier, and the
    request is emitted with the instruction's cause.  Every response to that
    request completes it and emits nothing more.  A null result or an error
    drops the instruction and advances the version by one.  Another result is
    stored, and then the same instruction is back at the head with the same
    cause and the version advanced by one; or storing fails, and then the
    instruction does not come back, the version stays and the error is
    returned (which ends the loop).  For a type named without a dot, a bracket
    or a backslash, it fails exactly when the payload is not an object or has
    a result slot that is not one, and changes no field then; otherwise the
    result is in the payload under the type and no other field changes (the
    name with a bracket that [indexed_type_unread] shows is stored where its
    path does not read).  Any further response changes nothing and is answered
    by one Error fact. *)
Theorem io_round_trip {N S} `{SerdeNumber N, SerdeText N, Blake3, FactWalStore S}
    (debug_json : JsonValue -> string) (cfg : Reactor) (w : World S) (t : Z)
    (instruction : JsonValue) (cause : FactId) (s : ReactorState) (ty : string) (params : JsonValue) :
  accounted (w_state w) -> pending_io_count (w_state w) = 0 -> w_steps w < max_rounds cfg ->
  pop_instruction (w_state w) = Some ((instruction, cause), s) ->
  execute_transition (core_eval cfg) instruction (rs_payload s) (rs_queue s)
    = Ok (TIoRequired ty params) ->
  wf_json (rs_payload s) = true ->
  let id := gen_next (w_ids w) in let payload := rs_payload (w_state w) in let version := rs_version (w_state w) in
  exists w1, execute_turn (N := N) debug_json cfg w t = (w1, TurnLeave) /\
  rs_queue (w_state w) = instruction :: rs_queue (w_state w1) /\
  rs_payload (w_state w1) = payload /\ rs_version (w_state w1) = version /\
  if is_unknown_io_type cfg ty then
    traced (N := N) w w1 [(true, FError id (unknown_io_message debug_json ty instruction))] /\
    pending_requests (w_state w1) = ∅ /\ pending_io_count (w_state w1) = 0
  else
    traced (N := N) w w1 [(true, IoRequest id cause ty params)] /\
    pending_requests (w_state w1) = {[id]} /\ pending_io_count (w_state w1) = 1 /\
    forall rid result error, exists w2 r,
      receive_fact (N := N) w1 (IoResponse rid id result error) = (w2, r) /\
      traced (N := N) w1 w2 [(false, IoResponse rid id result error)] /\
      pending_requests (w_state w2) = ∅ /\ pending_io_count (w_state w2) = 0 /\
      (if (is_null result || is_some error)%bool then
         r = Ok tt /\ rs_queue (w_state w2) = rs_queue (w_state w1) /\ rs_payload (w_state w2) = payload /\
         rs_version (w_state w2) = u64_wrapping_add version 1
       else
         match r with
         | Ok _ =>
             rs_queue (w_state w2) = rs_queue (w_state w) /\
             instruction_causes (w_state w2) = instruction_causes (w_state w) /\
             io_recovery (w_state w2) = true /\ rs_version (w_state w2) = u64_wrapping_add version 1
         | Err _ => rs_queue (w_state w2) = rs_queue (w_state w1) /\ rs_version (w_state w2) = version
         end /\
         (plain_name ty = true ->
          if takes_results payload then
            r = Ok tt /\ io_result (rs_payload (w_state w2)) ty = Some result /\
            (forall k, k <> "__io_results__" -> json_get (rs_payload (w_state w2)) k = json_get payload k)
          else is_ok r = false /\ rs_payload (w_state w2) = payload)) /\
      forall rid' result' error', exists w3,
        receive_fact (N := N) w2 (IoResponse rid' id result' error') = (w3, Ok tt) /\
        w_state w3 = w_state w2 /\
        traced (N := N) w2 w3
          [(false, IoResponse rid' id result' error');
           (true, FError (gen_next (w_ids w2)) (stale_response_message id))].
Proof.
  intros Ha Hp Hs Hpop Ht Hwf id payload version.
  destruct (take_after_pop _ _ _ Hpop Ha) as (Hq & Hc & Hpl & Hv). cbn [fst snd] in Hq, Hc.
  fold payload in Hpl. fold version in Hv.
  destruct (is_unknown_io_type cfg ty) eqn:Hk.
  - destruct (io_unknown_turn (N := N) debug_json cfg w t instruction cause s ty params) as (w1 & Hrun & Htr & Hw1); [done..|].
    pose proof (acc_pop _ _ _ Hpop Ha) as Has. pose proof (pop_pending _ _ _ Hpop) as Hps. rewrite Hp in Hps.
    exists w1. rewrite Hw1. split_and!; [done..|by apply (acc_idle_pending s)|done].
  - destruct (io_request_turn (N := N) debug_json cfg w t instruction cause s ty params)
      as (w1 & Hrun & Htr & Hw1); [done..|]. fold id in Htr, Hw1.
    exists w1. rewrite Hw1. split_and!; try done. intros rid result error.
    destruct (io_response_parked (N := N) w1 s id instruction cause ty t rid result error Hw1) as (w2 & Hrsp & Htr2 & Hw2).
    assert (pending_requests (w_state w2) = ∅ /\ pending_io_count (w_state w2) = 0) as [Hpe Hpc].
    { rewrite Hw2. destruct (_ || _)%bool; [done|]. by destruct (inject_io_result _ _ _) as [? []]. }
    eexists w2, _. split_and!; [exact Hrsp|done|done|done| |].
    + rewrite Hw2. destruct (_ || _)%bool; [split_and!; try done; cbn -[u64_wrapping_add]; by rewrite Hv|]. split.
      * destruct (inject_io_result (rs_payload s) ty result) as [p [[]|e]]; cbn -[u64_wrapping_add]; rewrite ?Hv; split_and!; done.
      * intros Hty. rewrite <- Hpl. destruct (takes_results (rs_payload s)) eqn:Htk.
        -- destruct (inject_spec (rs_payload s) ty result Hty Htk Hwf) as (p & -> & Hget & Hoth). by split_and!.
        -- destruct (inject_refused (rs_payload s) ty result Hty Htk) as (e & ->). by split_and!.
    + intros rid' result' error'. apply io_response_stale. rewrite Hpe. set_solver.
Qed.

(** An I/O type with an index in its name: its result is stored under the
    name, where a rule that reads the path does not find it. *)
Lemma indexed_type_unread :
  exists p, inject_io_result empty_object "a[0]" (JInteger 5) = (p, Ok tt) /\
    io_result p "a[0]" = Some (JInteger 5) /\ resolve_path p ("__io_results__." +:+ "a[0]") = None.
Proof. eexists. split_and!; vm_compute; reflexivity. Qed.

(** C35: the accounting of pending I/O.  A reactor spawned with an empty queue
    and run through any sequence of iterations (commands, responses,
    interrupts, cancellations, timeouts) without a failing payload update
    has, after each of them, a request counter equal to the number of pending
    requests, a timestamp, a type and the parked instruction for precisely
    those requests, at most one of them, and one cause for each queued
    instruction; so its self-check never reports an I/O count mismatch. *)
Theorem io_accounting {N S} `{SerdeNumber N, SerdeText N, Blake3, FactWalStore S}
    (debug_json : JsonValue -> string) (cfg : Reactor) (log : FactsLog S) (inputs : list Input)
    (w : World S) (it : Iteration) :
  rs_queue (seed_state log) = [] ->
  run_loop (N := N) debug_json cfg (spawn cfg log) inputs = Some (w, it) -> errored it = false ->
  let s := w_state w in
  pending_io_count s = size (pending_requests s) /\ pending_io_count s <= 1 /\
  (forall id, id ∈ pending_requests s <-> is_Some (pending_io_timestamps s !! id)) /\
  (forall id, id ∈ pending_requests s <-> is_Some (pending_io_types s !! id)) /\
  (forall id, id ∈ pending_requests s <-> is_Some (pending_io_instructions s !! id)) /\
  length (instruction_causes s) = length (rs_queue s) /\
  check_io_count_consistency s = [].
Proof.
  intros Hq Hrun He s.
  destruct (acc_run_loop debug_json cfg _ _ _ _ (acc_spawn cfg log Hq) Hrun He) as [Hc Ht Hy Hi Ho Hl].
  fold s in Hc, Ht, Hy, Hi, Ho, Hl. split_and!; [done|done|..|done|].
  - intros id. by rewrite <- Ht, elem_of_dom.
  - intros id. by rewrite <- Hy, elem_of_dom.
  - intros id. by rewrite <- Hi, elem_of_dom.
  - unfold check_io_count_consistency. rewrite <- (size_dom (pending_io_timestamps s)), Ht, <- Hc.
    by rewrite Nat.eqb_refl.
Qed.

(** C4: the audit trail is complete.  Every run of the main loop ends, and
    there is one list of facts, those it received and those it produced, in
    order, such that the log is the log it was given with these facts
    appended, and the event channel has had exactly these facts, each after
    the escalation messages its own append has caused (with no store there
    are none).  The received facts are facts it was offered, in order; the
    produced ones carry the identifiers of the generator consecutively, so
    that fewer than 2^64 of them are all distinct. *)
Theorem audit_trail {N S} `{SerdeNumber N, SerdeText N, Blake3, FactWalStore S}
    (debug_json : JsonValue -> string) (cfg : Reactor) (log : FactsLog S) (inputs : list Input) :
  exists w it (tr : Trace), run_loop (N := N) debug_json cfg (spawn cfg log) inputs = Some (w, it) /\
    let log0 := set_on_wal_failure_exhausted log in
    let first_id := default 1%Z (fact_id_start cfg) in
    w_log w = append_all (N := N) log0 (facts_of tr) /\
    w_events w = sent (N := N) log0 (facts_of tr) /\
    (wal (inner log) = None -> w_events w = facts_of tr) /\
    received tr `sublist_of` concat (map offered inputs) /\
    map fact_id (produced tr) = ids_from first_id (length (produced tr)) /\
    (is_u64 first_id = true -> (Z.of_nat (length (produced tr)) <= 2 ^ 64)%Z ->
     NoDup (map fact_id (produced tr))).
Proof.
  destruct (run_loop_case (N := N) debug_json cfg (spawn cfg log) inputs)
    as (w & it & tr & Hrun & [Hl He Hi _] & Hr).
  exists w, it, tr. split; [done|]. cbn zeta.
  assert (gen_next (w_ids (spawn cfg log)) = default 1%Z (fact_id_start cfg)) as Hg.
  { unfold spawn. cbn. by destruct (fact_id_start cfg). }
  rewrite Hg in Hi. split_and!; try done.
  - intros Hw. rewrite He. cbn. by rewrite sent_no_store.
  - intros Hf Hn. rewrite Hi. by apply ids_from_NoDup.
Qed.

(** A Stable fact means a stable reactor.  Every iteration ends; and when
    one that is not an interrupt sends a Stable fact (and none was received
    from outside), it leaves the queue empty, no I/O pending, no step
    counted, and the fact carries the current version. *)
Lemma stable_means_idle {N S} `{SerdeNumber N, SerdeText N, Blake3, FactWalStore S}
    (debug_json : JsonValue -> string) (cfg : Reactor) (w : World S) (input : Input) :
  exists w' it, main_iteration (N := N) debug_json cfg w input = Some (w', it) /\
    forall id v, interrupted w input = false -> Stable id v ∉ offered input ->
      Stable id v ∈ drop (length (w_events w)) (w_events w') ->
      rs_queue (w_state w') = [] /\ pending_io_count (w_state w') = 0 /\
      w_steps w' = 0 /\ v = rs_version (w_state w').
Proof.
  destruct (main_iteration_case (N := N) debug_json cfg w input) as (w' & it & tr & Hm & Ht & Hr & Hc).
  exists w', it. split; [done|]. intros id v Hint Hoff Hin.
  rewrite (traced_new_events _ _ _ Ht) in Hin.
  apply sent_In in Hin as [Hin|[g Hg]]; [|done].
  apply trace_split in Hin as [Hin|Hin].
  - destruct Hc as [(Hi & _)|[_ [[[Hid Hs] [_ Hv]]|Hs]]]; [congruence| |].
    + apply andb_true_iff in Hid as [Hq%Nat.eqb_eq Hp%Nat.eqb_eq].
      split_and!; [by apply nil_length_inv|done|done|by eapply Hv].
    + unfold silent in Hs. rewrite List.Forall_forall in Hs. by apply list_elem_of_In, Hs in Hin.
  - exfalso. apply Hoff. by eapply elem_of_sublist.
Qed.

(** A quiet reactor settles.  Left alone with something queued or run (no
    message arrives, no flag is set), the loop reports stability, with the
    current version, or comes to wait for an I/O response, within two
    iterations more than the rounds it has left; it never spins. *)
Lemma quiet_reactor_settles {N S} `{SerdeNumber N, SerdeText N, Blake3, FactWalStore S}
    (debug_json : JsonValue -> string) (cfg : Reactor) (w : World S) (inputs : list Input) :
  active w -> w_cancel_all w = false -> forallb quiet inputs = true ->
  (max_rounds cfg - w_steps w) + 2 <= length inputs ->
  exists n w', n <= (max_rounds cfg - w_steps w) + 2 /\
    run_loop (N := N) debug_json cfg w (take n inputs) = Some (w', Continue) /\
    ((exists id, Stable id (rs_version (w_state w')) ∈ drop (length (w_events w)) (w_events w')) \/
     pending_io_count (w_state w') <> 0).
Proof.
  intros Ha Hc Hq Hlen.
  destruct (settles_within (N := N) debug_json cfg _ w inputs (Nat.le_refl _) Hlen Hq Hc Ha)
    as (n & w' & tr & Hn & Hrun & _ & Hs).
  by exists n, w'.
Qed.

(** * Examples *)

Module Demo.
Import ZNumber.
#[local] Existing Instance ZText.text.
#[local] Existing Instance ZHash.hash.
Definition show (v : JsonValue) : string := "".
(** Two rules: nothing below zero, then ask for I/O. *)
Definition rules : list JsonValue := [guard_example; io_example].
Definition config : Reactor := mk_reactor rules 4 10 30 60 None None.
Definition world0 : World MemoryWalStore := spawn config log_new.
Definition command : JsonValue := object_from_pairs [("type", JString "step")].
(** A world with one command queued, over a given payload. *)
Definition ready (payload : JsonValue) : World MemoryWalStore :=
  set_state world0 (push_back (with_payload (w_state world0) payload) command 7%Z).
Definition wait : Input := mk_input false false [] false WTimeout 0 0.
Definition inputs : list Input :=
  [mk_input false false [Command 7%Z command] false WTimeout 0 0;
   mk_input false false [IoResponse 8%Z 1%Z (JInteger 5) None] false WTimeout 1 1].
Lemma ready_accounted payload : accounted (w_state (ready payload)).
Proof. apply acc_push_back, acc_payload, acc_new. Qed.
End Demo.
Import ZNumber.
#[local] Existing Instance ZText.text.
#[local] Existing Instance ZHash.hash.

Lemma turn_agrees_with_pure_witness :
  exists k reason s,
    pure_next_step Demo.rules (w_state (Demo.ready payload_example)) 10 = Some (SHalted k reason, s) /\
    let '(w', turn) := execute_turn (N := Z) Demo.show Demo.config (Demo.ready payload_example) 3 in
    turn = TurnLeave /\ w_state w' = with_phase s Idle.
Proof.
  assert (exists k reason s, pure_next_step Demo.rules (w_state (Demo.ready payload_example)) 10
    = Some (SHalted k reason, s)) as (k & reason & s & Hp).
  { do 3 eexists. vm_compute. reflexivity. }
  exists k, reason, s. split; [exact Hp|].
  pose proof (turn_agrees_with_pure (N := Z) Demo.show Demo.config (Demo.ready payload_example) 3
    eq_refl ltac:(cbn; lia)) as Ht.
  change (core_eval Demo.config) with Demo.rules in Ht.
  change (max_queue_len Demo.config) with 10 in Ht. rewrite Hp in Ht. exact Ht.
Defined.
Lemma halt_blocks_instruction_witness :
  exists w', execute_turn (N := Z) Demo.show Demo.config (Demo.ready payload_example) 3 = (w', TurnLeave) /\
    rs_payload (w_state w') = payload_example /\ rs_queue (w_state w') = [] /\
    traced (N := Z) (Demo.ready payload_example) w'
      [(true, Violation 1%Z 7%Z 0%Z "negative" Demo.command)].
Proof.
  destruct (halt_blocks_instruction (N := Z) Demo.show Demo.config (Demo.ready payload_example) 3
    Demo.command 7%Z (with_payload rstate_new payload_example) 0 "negative")
    as (w' & Hrun & Hpay & _ & Hq & _ & Htr).
  - apply Demo.ready_accounted.
  - reflexivity.
  - cbn. lia.
  - reflexivity.
  - vm_compute. reflexivity.
  - exists w'. split_and!; [exact Hrun|exact Hpay| |exact Htr].
    cbn in Hq. by injection Hq.
Defined.
Lemma io_round_trip_witness :
  exists w1 w2, execute_turn (N := Z) Demo.show Demo.config (Demo.ready empty_object) 3 = (w1, TurnLeave) /\
    pending_requests (w_state w1) = {[1%Z]} /\
    receive_fact (N := Z) w1 (IoResponse 8%Z 1%Z (JInteger 5) None) = (w2, Ok tt) /\
    io_result (rs_payload (w_state w2)) "call" = Some (JInteger 5).
Proof.
  destruct (io_round_trip (N := Z) Demo.show Demo.config (Demo.ready empty_object) 3 Demo.command 7%Z
    (with_payload rstate_new empty_object) "call" empty_object) as (w1 & Hrun & _ & _ & _ & Hknown).
  - apply Demo.ready_accounted.
  - reflexivity.
  - cbn. lia.
  - reflexivity.
  - vm_compute. reflexivity.
  - reflexivity.
  - destruct Hknown as (_ & Hreq & _ & Hrsp).
    destruct (Hrsp 8%Z (JInteger 5) None) as (w2 & r & Hrec & _ & _ & _ & [_ Hst] & _).
    destruct (Hst eq_refl) as (-> & Hres & _). exists w1, w2. by split_and!.
Defined.
Lemma io_accounting_witness :
  exists w, run_loop (N := Z) Demo.show Demo.config Demo.world0 (take 1 Demo.inputs) = Some (w, Continue) /\
    pending_io_count (w_state w) = 1 /\ size (pending_requests (w_state w)) = 1.
Proof.
  assert (exists w, run_loop (N := Z) Demo.show Demo.config Demo.world0 (take 1 Demo.inputs)
    = Some (w, Continue) /\ pending_io_count (w_state w) = 1) as (w & Hrun & Hp).
  { eexists. split; vm_compute; reflexivity. }
  exists w. split_and!; [exact Hrun|exact Hp|].
  destruct (io_accounting (N := Z) Demo.show Demo.config log_new (take 1 Demo.inputs) w Continue)
    as [Hc _]; [reflexivity|exact Hrun|reflexivity|]. by rewrite <- Hc.
Defined.
Lemma quiet_reactor_settles_witness :
  exists n w', n <= 6 /\
    run_loop (N := Z) Demo.show Demo.config (Demo.ready payload_example) (take n (repeat Demo.wait 6))
      = Some (w', Continue) /\
    ((exists id, Stable id (rs_version (w_state w')) ∈ w_events w') \/
     pending_io_count (w_state w') <> 0).
Proof.
  destruct (quiet_reactor_settles (N := Z) Demo.show Demo.config (Demo.ready payload_example)
    (repeat Demo.wait 6)) as (n & w' & Hn & Hrun & Hs).
  - left. discriminate.
  - reflexivity.
  - reflexivity.
  - cbn. lia.
  - exists n, w'. split_and!; [exact Hn|exact Hrun|exact Hs].
Defined.
