(* ===== verification/CircuitBreaker.v ===== *)
(** The session circuit breaker, [evorule-governance/src/circuit_breaker.rs]:
    a sliding window over the times of static denials, and its refinement of a
    breaker that remembers every denial and counts the recent ones. *)

From S2P Require Import Prelude ObjectMap Value.

Definition CIRCUIT_BREAKER_ATTR : string := "meta_security.circuit_breaker".

(** An [Instant] and a [Duration] are in nanoseconds.  The range of [Instant]
    depends on the platform: [checked_sub] is [None] below it, and [+] panics
    above it, which is [None] here. *)
Class InstantRange : Type := { instant_min : Z; instant_max : Z }.
Definition instant_checked_sub `{InstantRange} (t d : Z) : option Z :=
  if (instant_min <=? t - d)%Z then Some (t - d)%Z else None.
Definition instant_add `{InstantRange} (t d : Z) : option Z :=
  if (t + d <=? instant_max)%Z then Some (t + d)%Z else None.
Definition as_secs (d : Z) : Z := (d / 10 ^ 9)%Z.

(** [struct CircuitConfig] and [struct CircuitState]. *)
Record CircuitConfig : Type := mk_circuit_config { threshold : Z; window : Z }.
Record CircuitState : Type := mk_circuit {
  circuit_config : CircuitConfig;
  deny_times : list Z;
  tripped_until : option Z;
}.
Definition circuit_new (config : CircuitConfig) : CircuitState := mk_circuit config [] None.

Definition is_tripped (st : CircuitState) (now : Z) : CircuitState * bool :=
  match tripped_until st with
  | Some until =>
      if (now <? until)%Z then (st, true) else (mk_circuit (circuit_config st) [] None, false)
  | None => (st, false)
  end.

Definition signal_value (threshold window_secs count : Z) : JsonValue :=
  object_from_pairs
    [("family", JString "off_allowlist_anchors"); ("threshold", JInteger (u64_as_i64 threshold));
     ("window_secs", JInteger (u64_as_i64 window_secs)); ("count", JInteger (u64_as_i64 count))].

(** The loop of [record_deny] over the front of the queue. *)
Fixpoint drop_before (cutoff : Z) (times : list Z) : list Z :=
  match times with
  | [] => []
  | t :: rest => if (t <? cutoff)%Z then drop_before cutoff rest else times
  end.
(** [usize as u32]. *)
Definition usize_as_u32 (n : nat) : Z := (Z.of_nat n mod 2 ^ 32)%Z.

(** [record_deny]; [None] is the panic of [now + window]. *)
Definition record_deny `{InstantRange} (st : CircuitState) (now : Z) :
    option (CircuitState * option JsonValue) :=
  let config := circuit_config st in
  if (threshold config =? 0)%Z then Some (st, None)
  else
    let times :=
      match instant_checked_sub now (window config) with
      | Some cutoff => drop_before cutoff (deny_times st)
      | None => deny_times st
      end in
    let times := times ++ [now] in
    if (usize_as_u32 (length times) <? threshold config)%Z then
      Some (mk_circuit config times (tripped_until st), None)
    else
      let count := Z.of_nat (length times) in
      let! until := instant_add now (window config) in
      Some (mk_circuit config [] (Some until),
            Some (signal_value (threshold config) (as_secs (window config)) count)).

(** * What the breaker promises

    The reference breaker keeps the time of every denial since it was last
    reset and never drops one: it trips when the denials of the last [window]
    reach the threshold, and holds for one [window]. *)
Record Reference : Type := mk_ref { denials : list Z; held_until : option Z }.
Definition ref_new : Reference := mk_ref [] None.
Definition in_window (now w t : Z) : bool := (now - w <=? t)%Z.
Definition ref_tripped (r : Reference) (now : Z) : Reference * bool :=
  match held_until r with
  | Some until => if (now <? until)%Z then (r, true) else (ref_new, false)
  | None => (r, false)
  end.
Definition ref_deny (config : CircuitConfig) (r : Reference) (now : Z) :
    Reference * option JsonValue :=
  if (threshold config =? 0)%Z then (r, None)
  else
    let denials := denials r ++ [now] in
    let count := Z.of_nat (length (List.filter (in_window now (window config)) denials)) in
    if (count <? threshold config)%Z then (mk_ref denials (held_until r), None)
    else (mk_ref [] (Some (now + window config)%Z),
          Some (signal_value (threshold config) (as_secs (window config)) count)).

(** The calls a subscriber makes, and the answers: whether the gate is
    closed, and the signal of a denial. *)
Inductive CircuitCall : Type := AskTripped (now : Z) | RecordDeny (now : Z).
Definition call_time (c : CircuitCall) : Z :=
  match c with AskTripped now | RecordDeny now => now end.
Definition Answer : Type := bool + option JsonValue.

Fixpoint run_breaker `{InstantRange} (st : CircuitState) (calls : list CircuitCall) :
    option (list Answer) :=
  match calls with
  | [] => Some []
  | AskTripped now :: calls =>
      let '(st, b) := is_tripped st now in
      let! answers := run_breaker st calls in Some (inl b :: answers)
  | RecordDeny now :: calls =>
      let! '(st, signal) := record_deny st now in
      let! answers := run_breaker st calls in Some (inr signal :: answers)
  end.
Fixpoint run_reference (config : CircuitConfig) (r : Reference) (calls : list CircuitCall) :
    list Answer :=
  match calls with
  | [] => []
  | AskTripped now :: calls =>
      let '(r, b) := ref_tripped r now in inl b :: run_reference config r calls
  | RecordDeny now :: calls =>
      let '(r, signal) := ref_deny config r now in inr signal :: run_reference config r calls
  end.

(** ** The queue against the full record *)

Lemma drop_before_filter c cutoff l :
  StronglySorted Z.le l -> (c <= cutoff)%Z ->
  drop_before cutoff (List.filter (fun t => (c <=? t)%Z) l) =
  List.filter (fun t => (cutoff <=? t)%Z) l.
Proof.
  intros Hl Hc. induction Hl as [|t l _ IH Ht]; cbn; [done|].
  destruct (Z.leb_spec c t); cbn; [|destruct (Z.leb_spec cutoff t); [lia|done]].
  destruct (Z.ltb_spec t cutoff); destruct (Z.leb_spec cutoff t); try lia; [done|].
  f_equal. apply List.filter_ext_in. intros u Hu.
  rewrite Forall_forall in Ht. specialize (Ht u ltac:(by apply list_elem_of_In)).
  by destruct (Z.leb_spec c u), (Z.leb_spec cutoff u); try lia.
Qed.
Lemma filter_all_ge c l :
  Forall (fun t => (c <= t)%Z) l -> List.filter (fun t => (c <=? t)%Z) l = l.
Proof.
  induction 1 as [|t l Ht _ IH]; cbn; [done|]. by rewrite (proj2 (Z.leb_le c t) Ht), IH.
Qed.

Section Refinement.
Context `{InstantRange} (cfg : CircuitConfig).
Context (threshold_u32 : (0 <= threshold cfg < 2 ^ 32)%Z) (window_pos : (0 <= window cfg)%Z).

(** The simulation relation, at the time of the last call: the queue holds
    the denials after some cutoff no later than the window of that call. *)
Record simulates (last : Z) (st : CircuitState) (r : Reference) : Prop := {
  sim_config : circuit_config st = cfg;
  sim_until : tripped_until st = held_until r;
  sim_queue : exists c, (c <= last - window cfg)%Z /\
    deny_times st = List.filter (fun t => (c <=? t)%Z) (denials r);
  sim_sorted : StronglySorted Z.le (denials r);
  sim_range : Forall (fun t => (instant_min <= t <= last)%Z) (denials r);
  sim_length : (Z.of_nat (length (deny_times st)) < Z.max 1 (threshold cfg))%Z;
}.

Lemma simulates_new last : simulates last (circuit_new cfg) ref_new.
Proof.
  split; cbn; try done; [|constructor|lia].
  exists (last - window cfg)%Z. split; [lia|done].
Qed.
Lemma simulates_later last now st r : (last <= now)%Z -> simulates last st r -> simulates now st r.
Proof.
  intros Hle [? ? (c & Hc & Hq) ? Hr ?]. split; try done.
  - exists c. split; [lia|done].
  - eapply Forall_impl; [exact Hr|]. cbn. lia.
Qed.
Lemma reset_simulates now until :
  simulates now (mk_circuit cfg [] until) (mk_ref [] until).
Proof.
  split; cbn; try done; [|constructor|lia].
  exists (now - window cfg)%Z. split; [lia|done].
Qed.

Lemma sorted_snoc_Z l x :
  StronglySorted Z.le l -> Forall (fun t => (t <= x)%Z) l -> StronglySorted Z.le (l ++ [x]).
Proof.
  induction 1 as [|t l _ IH Ht]; cbn; intros Hx; [repeat constructor|].
  inv Hx. constructor; [by apply IH|]. apply Forall_app; split; [done|by constructor].
Qed.

(** The queue [record_deny] works on is the reference's window. *)
Lemma deny_queue_window last st r now :
  (last <= now)%Z -> (instant_min <= now)%Z -> simulates last st r ->
  match instant_checked_sub now (window cfg) with
  | Some cutoff => drop_before cutoff (deny_times st)
  | None => deny_times st
  end ++ [now] = List.filter (in_window now (window cfg)) (denials r ++ [now]) /\
  (length (match instant_checked_sub now (window cfg) with
  | Some cutoff => drop_before cutoff (deny_times st)
  | None => deny_times st
  end) <= length (deny_times st))%nat.
Proof.
  intros Hle Hmin [_ _ (c & Hc & Hq) Hs Hr _]. rewrite List.filter_app. cbn.
  replace (in_window now (window cfg) now) with true by (symmetry; apply Z.leb_le; lia).
  unfold instant_checked_sub. destruct (Z.leb_spec instant_min (now - window cfg)) as [Hm|Hm].
  - rewrite Hq, (drop_before_filter c) by (done || lia). split; [done|].
    assert (forall l, length (List.filter (fun t => (now - window cfg <=? t)%Z) l)
      <= length (List.filter (fun t => (c <=? t)%Z) l))%nat as Hlen; [|apply Hlen].
    induction l as [|t l IHl]; cbn; [done|].
    destruct (Z.leb_spec (now - window cfg) t), (Z.leb_spec c t); cbn; lia.
  - split; [|done]. rewrite Hq. unfold in_window.
    assert (forall c, (c <= instant_min)%Z ->
      List.filter (fun t => (c <=? t)%Z) (denials r) = denials r) as Hall.
    { intros c' Hc'. apply filter_all_ge. eapply Forall_impl; [exact Hr|]. cbn. lia. }
    by rewrite !Hall by lia.
Qed.

Lemma record_deny_simulates last st r now :
  (last <= now)%Z -> (instant_min <= now)%Z -> (now + window cfg <= instant_max)%Z ->
  simulates last st r ->
  exists st', record_deny st now = Some (st', snd (ref_deny cfg r now)) /\
    simulates now st' (fst (ref_deny cfg r now)).
Proof.
  intros Hle Hmin Hmax Hsim. pose proof (deny_queue_window last st r now Hle Hmin Hsim) as [Hq Hl].
  pose proof (sim_length _ _ _ Hsim) as Hlen. pose proof (sim_config _ _ _ Hsim) as Hcfg.
  unfold record_deny, ref_deny. rewrite Hcfg.
  destruct (Z.eqb_spec (threshold cfg) 0) as [Hz|Hz]; cbn [fst snd].
  { exists st. split; [done|]. exact (simulates_later last now st r Hle Hsim). }
  cbv zeta. rewrite Hq. unfold usize_as_u32.
  assert (Z.of_nat (length (List.filter (in_window now (window cfg)) (denials r ++ [now])))
    <= threshold cfg)%Z as Hle'.
  { rewrite <- Hq, length_app. cbn [length]. lia. }
  rewrite Z.mod_small by lia.
  destruct (Z.ltb_spec (Z.of_nat (length (List.filter (in_window now (window cfg)) (denials r ++ [now]))))
    (threshold cfg)) as [Hlt|Hge]; cbn [fst snd].
  - eexists. split; [done|]. pose proof (sim_range _ _ _ Hsim) as Hr.
    split; cbn; [done|apply Hsim| | | |].
    + exists (now - window cfg)%Z. split; [lia|done].
    + apply sorted_snoc_Z; [apply Hsim|]. eapply Forall_impl; [exact Hr|]. cbn. lia.
    + apply Forall_app. split; [|constructor; [lia|done]].
      eapply Forall_impl; [exact Hr|]. cbn. lia.
    + rewrite List.filter_app in *. cbn in *. lia.
  - unfold instant_add. rewrite (proj2 (Z.leb_le _ _) Hmax). eexists. split; [done|].
    apply reset_simulates.
Qed.
Lemma is_tripped_simulates last st r now :
  (last <= now)%Z -> simulates last st r ->
  snd (is_tripped st now) = snd (ref_tripped r now) /\
  simulates now (fst (is_tripped st now)) (fst (ref_tripped r now)).
Proof.
  intros Hle Hsim. unfold is_tripped, ref_tripped. rewrite (sim_until _ _ _ Hsim).
  destruct (held_until r) as [until|]; [destruct (now <? until)%Z|]; cbn; split; try done;
    try exact (simulates_later last now st r Hle Hsim).
  rewrite (sim_config _ _ _ Hsim). apply reset_simulates.
Qed.

Lemma run_simulates calls last st r :
  StronglySorted Z.le (last :: map call_time calls) ->
  Forall (fun c => (instant_min <= call_time c /\ call_time c + window cfg <= instant_max)%Z) calls ->
  simulates last st r -> run_breaker st calls = Some (run_reference cfg r calls).
Proof.
  revert last st r. induction calls as [|call calls IH]; intros last st r Hs Hr Hsim; [done|].
  inv Hs as [|? ? Hs' Hle]. inv Hr as [|? ? [Hmin Hmax] Hr']. inv Hle as [|? ? Hle' _].
  destruct call as [now|now]; cbn in *.
  - destruct (is_tripped_simulates last st r now Hle' Hsim) as [Hb Hsim'].
    destruct (is_tripped st now) as [st' b], (ref_tripped r now) as [r' b']. cbn in *. subst b'.
    by rewrite (IH now st' r').
  - destruct (record_deny_simulates last st r now Hle' Hmin Hmax Hsim) as (st' & -> & Hsim').
    destruct (ref_deny cfg r now) as [r' signal]. cbn in *. by rewrite (IH now st' r').
Qed.
End Refinement.

(** The circuit breaker is a sliding-window counter.  On any run of
    [is_tripped] and [record_deny] with a clock that does not go back, the
    answers of [CircuitState], which keeps a pruned queue, counts with a
    32-bit cast and resets itself, are those of the reference that remembers
    every denial since the last reset: a denial trips the breaker exactly when
    the denials of the last [window] reach the threshold, every question in
    the next [window] is answered with closed, and the first one after it
    starts over; a threshold of 0 never trips.  The run does not panic while
    [now + window] is an [Instant]. *)
Lemma breaker_refines_window `{InstantRange} (cfg : CircuitConfig) (calls : list CircuitCall) :
  (0 <= threshold cfg < 2 ^ 32)%Z -> (0 <= window cfg)%Z ->
  StronglySorted Z.le (map call_time calls) ->
  Forall (fun c => (instant_min <= call_time c /\ call_time c + window cfg <= instant_max)%Z) calls ->
  run_breaker (circuit_new cfg) calls = Some (run_reference cfg ref_new calls).
Proof.
  intros Ht Hw Hs Hr. destruct calls as [|call calls]; [done|].
  apply (run_simulates cfg Ht Hw _ (call_time call)); [|done|by apply simulates_new].
  constructor; [done|]. constructor; [lia|]. by inv Hs.
Qed.

(** Three denials within ten seconds trip it, for ten seconds. *)
Module BreakerDemo.
Definition secs (n : Z) : Z := (n * 10 ^ 9)%Z.
Definition range : InstantRange := {| instant_min := 0; instant_max := 2 ^ 63 |}.
Definition cfg : CircuitConfig := mk_circuit_config 3 (secs 10).
Definition calls : list CircuitCall :=
  [RecordDeny (secs 1); RecordDeny (secs 9); RecordDeny (secs 12); AskTripped (secs 12);
   RecordDeny (secs 18); AskTripped (secs 19); AskTripped (secs 27); AskTripped (secs 28);
   RecordDeny (secs 29)].
End BreakerDemo.
Lemma breaker_refines_window_witness :
  @run_breaker BreakerDemo.range (circuit_new BreakerDemo.cfg) BreakerDemo.calls =
  Some [inr None; inr None; inr None; inl false; inr (Some (signal_value 3 10 3));
        inl true; inl true; inl false; inr None].
Proof.
  etransitivity.
  - apply (@breaker_refines_window BreakerDemo.range BreakerDemo.cfg BreakerDemo.calls);
      [cbn; lia|done| |].
    + unfold BreakerDemo.calls. cbn [map call_time].
      repeat (apply SSorted_cons; [|repeat apply List.Forall_cons; try apply List.Forall_nil;
        unfold BreakerDemo.secs; lia]). apply SSorted_nil.
    + unfold BreakerDemo.calls. repeat apply List.Forall_cons; try apply List.Forall_nil; vm_compute; split; discriminate.
  - vm_compute. reflexivity.
Defined.
