(* ===== verification/Signing.v ===== *)
(** Anchor signing, [evorule-governance/src/signing.rs]: the hexadecimal
    codec and the signer over an interface to [ed25519_dalek]. *)

From S2P Require Import Prelude ObjectMap Value Serde.

(** [enum SignError]. *)
Inductive SignError : Type :=
| Invalid (msg : string)
| Randomness (src : string).
Definition sign_error_display (e : SignError) : string :=
  match e with
  | Invalid msg => "审计签名: 非法输入: " +:+ msg
  | Randomness src => "审计签名: 随机种子失败: " +:+ src
  end.

(** * Hexadecimal *)

Definition hex_digit (n : nat) : ascii :=
  ascii_of_nat (if (n <? 10)%nat then n + 48 else n + 87).
Fixpoint hex_encode (bytes : string) : string :=
  match bytes with
  | EmptyString => ""
  | String b bytes =>
      String (hex_digit (nat_of_ascii b / 16))
        (String (hex_digit (nat_of_ascii b mod 16)) (hex_encode bytes))
  end.
(** [char::to_digit(16)]. *)
Definition to_digit_16 (c : ascii) : option nat :=
  let n := nat_of_ascii c in
  if ((48 <=? n) && (n <=? 57))%nat then Some (n - 48)%nat
  else if ((97 <=? n) && (n <=? 102))%nat then Some (n - 87)%nat
  else if ((65 <=? n) && (n <=? 70))%nat then Some (n - 55)%nat
  else None.
(** The loop of [hex_decode]; its input has an even length. *)
Fixpoint hex_decode_loop (hex : string) : Result string SignError :=
  match hex with
  | String a (String b hex) =>
      match to_digit_16 a, to_digit_16 b with
      | Some h, Some l =>
          let? out := hex_decode_loop hex in Ok (String (ascii_of_nat (h * 16 + l)) out)
      | _, _ => Err (Invalid "hex 含非十六进制字符")
      end
  | _ => Ok ""
  end.
Definition hex_decode (hex : string) : Result string SignError :=
  if negb (Nat.even (String.length hex)) then
    Err (Invalid ("hex 长度为奇数: " +:+ pretty (N.of_nat (String.length hex))))
  else hex_decode_loop hex.

Lemma hex_digits_byte (b : ascii) :
  to_digit_16 (hex_digit (nat_of_ascii b / 16)) = Some (nat_of_ascii b / 16) /\
  to_digit_16 (hex_digit (nat_of_ascii b mod 16)) = Some (nat_of_ascii b mod 16) /\
  ascii_of_nat (nat_of_ascii b / 16 * 16 + nat_of_ascii b mod 16) = b.
Proof.
  split_and!.
  1,2: by destruct b as [[] [] [] [] [] [] [] []].
  rewrite Nat.mul_comm, <- Nat.div_mod by done. apply ascii_nat_embedding.
Qed.
Lemma hex_encode_length bytes : String.length (hex_encode bytes) = 2 * String.length bytes.
Proof. induction bytes as [|b bytes IH]; cbn in *; [done|]. lia. Qed.
Lemma hex_roundtrip bytes : hex_decode (hex_encode bytes) = Ok bytes.
Proof.
  unfold hex_decode. rewrite hex_encode_length, Nat.even_mul. cbn [Nat.even orb negb].
  induction bytes as [|b bytes IH]; [done|]. cbn [hex_encode hex_decode_loop].
  destruct (hex_digits_byte b) as (-> & -> & Hb). by rewrite IH, Hb.
Qed.

(** * The signer *)

(** [ed25519_dalek]: keys and signatures as their bytes. *)
Class Ed25519 : Type := {
  SigningKey : Type;
  signing_key_from_bytes : string -> SigningKey;
  verifying_key_bytes : SigningKey -> string;
  ed_sign : SigningKey -> string -> string;
  verifying_key_check : string -> Result unit string;
  ed_verify : string -> string -> string -> bool;
}.
(** Documented: a public key has 32 bytes and a signature 64, the public key
    of a signing key is a valid key, and what a key signs verifies under its
    public key. *)
Class Ed25519Laws `{Ed25519} : Prop := {
  verifying_key_length k : String.length (verifying_key_bytes k) = 32%nat;
  signature_length k m : String.length (ed_sign k m) = 64%nat;
  verifying_key_valid k : verifying_key_check (verifying_key_bytes k) = Ok tt;
  sign_verifies k m : ed_verify (verifying_key_bytes k) m (ed_sign k m) = true;
}.

Section Signer.
Context `{Ed25519}.

(** [struct AuditSigner]. *)
Record AuditSigner : Type := mk_signer { signing : SigningKey; verifying : string }.
Definition signer_from_bytes (seed : string) : AuditSigner :=
  let signing := signing_key_from_bytes seed in
  mk_signer signing (verifying_key_bytes signing).
Definition verifying_bytes (s : AuditSigner) : string := verifying s.
Definition verifying_hex (s : AuditSigner) : string := hex_encode (verifying s).
Definition signature_bytes (s : AuditSigner) (payload : string) : string := ed_sign (signing s) payload.
(** [entropy] is what [getrandom] fills the seed with. *)
Definition generate_keys (entropy : option string) : Result (string * string) SignError :=
  let? seed := ok_or entropy (Randomness "OS 熵源不可用") in
  let signer := signer_from_bytes seed in
  Ok (hex_encode seed, hex_encode (verifying_bytes signer)).
Definition signer_from_hex (seed_hex : string) : Result AuditSigner SignError :=
  let? bytes := hex_decode seed_hex in
  if negb (Nat.eqb (String.length bytes) 32) then
    Err (Invalid ("私钥种子长度 != 32: " +:+ pretty (N.of_nat (String.length bytes))))
  else Ok (signer_from_bytes bytes).
Definition verify_signature (verifying_bytes payload sig_bytes : string) : Result bool SignError :=
  match verifying_key_check verifying_bytes with
  | Err e => Err (Invalid ("公钥非法: " +:+ e))
  | Ok _ => Ok (ed_verify verifying_bytes payload sig_bytes)
  end.

(** Signers have the public key of their signing key. *)
Definition signer_ok (s : AuditSigner) : Prop := verifying s = verifying_key_bytes (signing s).
Lemma signer_from_bytes_ok seed : signer_ok (signer_from_bytes seed).
Proof. done. Qed.
Lemma verify_own `{!Ed25519Laws} (s : AuditSigner) payload :
  signer_ok s -> verify_signature (verifying s) payload (signature_bytes s payload) = Ok true.
Proof.
  intros Hs. unfold verify_signature, signature_bytes.
  by rewrite Hs, verifying_key_valid, sign_verifies.
Qed.
End Signer.

(** A concrete scheme, for the examples: the key is its seed, and a signature
    repeats the key and the message. *)
Module ZSign.
#[export] Instance ed : Ed25519 := {|
  SigningKey := string;
  signing_key_from_bytes := fun seed => seed;
  verifying_key_bytes := fun k => ZHash.fit 32 k;
  ed_sign := fun k m => ZHash.fit 64 (ZHash.fit 32 k +:+ m);
  verifying_key_check := fun _ => Ok tt;
  ed_verify := fun pk m sig => String.eqb (ZHash.fit 64 (pk +:+ m)) sig;
|}.
Lemma fit_length n s : String.length (ZHash.fit n s) = n.
Proof. revert s. by induction n as [|n IH]; intros [|c s]; cbn; rewrite ?IH. Qed.
#[export] Instance ed_laws : Ed25519Laws.
Proof.
  split; [intros k; apply fit_length|intros k m; apply fit_length|done|].
  intros k m. apply String.eqb_refl.
Qed.
End ZSign.
