(* ===== verification/Anchor.v ===== *)
(** The anchor chain, [evorule-governance/src/anchor.rs]: signed checkpoints
    of the audit chain that form a hash chain of their own, what the builder
    seals always verifies, and the extraction of a hash collision from two
    different chains, or two different histories, that both verify. *)

From S2P Require Import Prelude ObjectMap Value Error Path Domain Executor ExecSemantics Transition Fact Serde Hash Wal Signing.

(** [enum AnchorError]. *)
Inductive AnchorError : Type :=
| AHash (msg : string)
| ASign (e : SignError)
| ChainBroken (index : Z) (reason : string)
| SignatureInvalid (index : Z).
Definition anchor_error_display (e : AnchorError) : string :=
  match e with
  | AHash msg => "审计锚点: 载荷哈希失败: " +:+ msg
  | ASign e => "审计锚点: " +:+ sign_error_display e
  | ChainBroken index reason => "审计锚点: 锚点链断裂于[" +:+ pretty index +:+ "]: " +:+ reason
  | SignatureInvalid index => "审计锚点: 签名验证失败于[" +:+ pretty index +:+ "]"
  end.

Definition ANCHOR_GENESIS : string := "anchor-genesis".
Definition ANCHOR_FORMAT : string := "evorule-anchor/2".

(** [struct FactRange], [struct AnchorProto] and [struct AuditAnchor]. *)
Record FactRange : Type := mk_range { lo : nat; hi : nat }.
Record AnchorProto : Type := mk_proto {
  p_seq : Z;
  p_session_id : string;
  p_fact_range : FactRange;
  p_chain_head : string;
  p_key_id : string;
  p_engine_id : string;
  p_logical_time : Z;
}.
Record AuditAnchor : Type := mk_anchor {
  a_seq : Z;
  a_session_id : string;
  a_fact_range : FactRange;
  a_chain_head : string;
  a_key_id : string;
  a_engine_id : string;
  a_logical_time : Z;
  a_anchor_hash : string;
  a_signature : string;
}.
(** The prototype [verify_one] rebuilds. *)
Definition anchor_proto (a : AuditAnchor) : AnchorProto :=
  mk_proto (a_seq a) (a_session_id a) (a_fact_range a) (a_chain_head a) (a_key_id a)
    (a_engine_id a) (a_logical_time a).

(** [format!] with a ["|"] between the fields. *)
Definition bar (a b : string) : string := a +:+ String "|" b.
Definition proto_fields (first : string) (proto : AnchorProto) : string :=
  bar (bar (bar (bar (bar (bar (bar (bar first (p_session_id proto)) (pretty (p_seq proto)))
    (pretty (N.of_nat (lo (p_fact_range proto))))) (pretty (N.of_nat (hi (p_fact_range proto)))))
    (p_chain_head proto)) (p_key_id proto)) (p_engine_id proto)) (pretty (p_logical_time proto)).
Definition signature_payload_v2 (proto : AnchorProto) : string := proto_fields ANCHOR_FORMAT proto.

Section Anchor.
Context {N : Type} `{SerdeNumber N, SerdeText N, Blake3, Ed25519}.

Definition compute_anchor_hash (prev_anchor_hash : string) (proto : AnchorProto) :
    Result string AnchorError :=
  Ok (blake3_hex (proto_fields prev_anchor_hash proto)).

Definition verify_one (a : AuditAnchor) (prev_anchor_hash verifying_key_hex : string) :
    Result unit AnchorError :=
  let proto := anchor_proto a in
  let? expect := compute_anchor_hash prev_anchor_hash proto in
  if negb (String.eqb expect (a_anchor_hash a)) then
    Err (ChainBroken (a_seq a)
           ("载荷哈希不匹配: 期望 " +:+ take_chars 16 expect +:+ "… 实际 "
            +:+ take_chars 16 (a_anchor_hash a) +:+ "…（字段被篡改或 prev 链接错误）"))
  else
    match hex_decode verifying_key_hex with
    | Err e => Err (ASign e)
    | Ok vk =>
        if negb (Nat.eqb (String.length vk) 32) then
          Err (ASign (Invalid ("公钥长度 != 32: " +:+ pretty (N.of_nat (String.length vk)))))
        else
          match hex_decode (a_signature a) with
          | Err e => Err (ASign e)
          | Ok sig_bytes =>
              if negb (Nat.eqb (String.length sig_bytes) 64) then
                Err (ASign (Invalid ("签名长度 != 64: " +:+ pretty (N.of_nat (String.length sig_bytes)))))
              else
                match verify_signature vk (signature_payload_v2 proto) sig_bytes with
                | Err e => Err (ASign e)
                | Ok false => Err (SignatureInvalid (a_seq a))
                | Ok true => Ok tt
                end
          end
    end.

(** * The builder *)

Record AnchorChainBuilder : Type := mk_builder {
  b_signer : AuditSigner;
  b_key_id : string;
  b_engine_id : string;
  b_session_id : string;
  b_prev_anchor_hash : string;
  b_last_seq : Z;
  b_last_fact_hi : nat;
}.
Definition new_with_prev (signer : AuditSigner) (key_id engine_id session_id prev_anchor_hash : string)
    (next_seq : Z) (next_fact_lo : nat) : AnchorChainBuilder :=
  mk_builder signer key_id engine_id session_id prev_anchor_hash next_seq next_fact_lo.
Definition builder_new (signer : AuditSigner) (key_id engine_id session_id : string) :
    AnchorChainBuilder :=
  mk_builder signer key_id engine_id session_id ANCHOR_GENESIS 0 0.
Definition next_fact_lo (b : AnchorChainBuilder) : nat := b_last_fact_hi b.
Definition identity (b : AnchorChainBuilder) : AuditSigner * string * string * string :=
  (b_signer b, b_key_id b, b_engine_id b, b_session_id b).

Definition seal (b : AnchorChainBuilder) (fact_hi : nat) (chain_head : string) :
    AnchorChainBuilder * Result AuditAnchor AnchorError :=
  let proto := mk_proto (b_last_seq b) (b_session_id b) (mk_range (b_last_fact_hi b) fact_hi)
                 chain_head (b_key_id b) (b_engine_id b) 0 in
  match compute_anchor_hash (b_prev_anchor_hash b) proto with
  | Err e => (b, Err e)
  | Ok anchor_hash =>
      let sig := signature_bytes (b_signer b) (signature_payload_v2 proto) in
      let anchor :=
        mk_anchor (p_seq proto) (p_session_id proto) (p_fact_range proto) (p_chain_head proto)
          (p_key_id proto) (p_engine_id proto) (p_logical_time proto) anchor_hash (hex_encode sig) in
      (mk_builder (b_signer b) (b_key_id b) (b_engine_id b) (b_session_id b) (a_anchor_hash anchor)
         (u64_wrapping_add (b_last_seq b) 1) fact_hi,
       Ok anchor)
  end.

(** * Verification *)

(** The loop of [verify_anchor_chain], at index [i]. *)
Fixpoint verify_anchors (keys : gmap string string) (i : Z) (prev_hash : string) (expect_lo : nat)
    (anchors : list AuditAnchor) : Result unit AnchorError :=
  match anchors with
  | [] => Ok tt
  | a :: rest =>
      if negb (a_seq a =? i)%Z then
        Err (ChainBroken i ("序号不连续: 期望 " +:+ pretty i +:+ " 实际 " +:+ pretty (a_seq a)))
      else if negb (Nat.eqb (lo (a_fact_range a)) expect_lo) then
        Err (ChainBroken i
               ("事实区间不无缝: 期望 lo=" +:+ pretty (N.of_nat expect_lo) +:+ " 实际 lo="
                +:+ pretty (N.of_nat (lo (a_fact_range a))) +:+ "（前缀截断或区间丢失）"))
      else
        match keys !! a_key_id a with
        | None => Err (ChainBroken i ("未知 key_id: " +:+ a_key_id a +:+ "（公钥表缺失）"))
        | Some key =>
            let? _u := verify_one a prev_hash key in
            verify_anchors keys (i + 1) (a_anchor_hash a) (hi (a_fact_range a)) rest
        end
  end.
Definition verify_anchor_chain (anchors : list AuditAnchor) (keys : gmap string string) :
    Result unit AnchorError :=
  verify_anchors keys 0 ANCHOR_GENESIS 0 anchors.

(** The loop of [verify_binding]; [slice::get(0..hi)] is [None] past the end. *)
Fixpoint verify_bindings (facts : list Fact) (covered : nat) (anchors : list AuditAnchor) :
    Result nat AnchorError :=
  match anchors with
  | [] => Ok covered
  | a :: rest =>
      let hi := hi (a_fact_range a) in
      if (length facts <? hi)%nat then
        Err (ChainBroken (a_seq a)
               ("事实数不足: 锚点声称 hi=" +:+ pretty (N.of_nat hi) +:+ " 但事实总数="
                +:+ pretty (N.of_nat (length facts))))
      else
        match compute_chain_hash (take hi facts) with
        | Err e => Err (AHash (hash_error_display e))
        | Ok head =>
            if negb (String.eqb head (a_chain_head a)) then
              Err (ChainBroken (a_seq a)
                     ("链头绑定失败: 锚点[" +:+ pretty (a_seq a) +:+ "]声称 "
                      +:+ take_chars 16 (a_chain_head a) +:+ "… 实际重算 " +:+ take_chars 16 head
                      +:+ "…（事实链被篡改/替换，或锚点属另一条链）"))
            else verify_bindings facts hi rest
        end
  end.
Definition verify_binding (facts : list Fact) (anchors : list AuditAnchor) :
    Result nat AnchorError := verify_bindings facts 0 anchors.
End Anchor.

(** * What the builder seals verifies *)

Section Sealing.
Context {N : Type} `{SerdeNumber N, SerdeText N, Blake3, Ed25519Laws}.

(** What the verification loop has reached after a chain. *)
Definition end_hash (anchors : list AuditAnchor) : string :=
  fold_left (fun _ a => a_anchor_hash a) anchors ANCHOR_GENESIS.
Definition end_hi (anchors : list AuditAnchor) : nat :=
  fold_left (fun _ a => hi (a_fact_range a)) anchors O.
(** A builder that goes on where a chain ends: a new one, one restarted with
    [new_with_prev], and one that has just sealed. *)
Definition continues (b : AnchorChainBuilder) (anchors : list AuditAnchor) : Prop :=
  b_prev_anchor_hash b = end_hash anchors /\ b_last_seq b = Z.of_nat (length anchors) /\
  b_last_fact_hi b = end_hi anchors.
(** A run of [seal] over the numbers of facts covered and the chain heads. *)
Fixpoint seal_all (b : AnchorChainBuilder) (points : list (nat * string)) :
    AnchorChainBuilder * list AuditAnchor :=
  match points with
  | [] => (b, [])
  | (fact_hi, chain_head) :: points =>
      let '(b, r) := seal b fact_hi chain_head in
      let '(b, anchors) := seal_all b points in
      (b, match r with Ok a => a :: anchors | Err _ => anchors end)
  end.

Lemma verify_anchors_app keys i prev lo l1 l2 :
  verify_anchors keys i prev lo (l1 ++ l2) =
  let? _u := verify_anchors keys i prev lo l1 in
  verify_anchors keys (i + Z.of_nat (length l1)) (fold_left (fun _ a => a_anchor_hash a) l1 prev)
    (fold_left (fun _ a => hi (a_fact_range a)) l1 lo) l2.
Proof.
  revert i prev lo. induction l1 as [|a l1 IH]; intros i prev lo0; cbn [app verify_anchors].
  - cbn. by rewrite Z.add_0_r.
  - destruct (negb _); [done|]. destruct (negb _); [done|]. destruct (keys !! _); [|done].
    destruct (verify_one _ _ _); [|done]. rewrite IH. cbn [fold_left length].
    by replace (i + 1 + Z.of_nat (length l1))%Z with (i + Z.of_nat (S (length l1)))%Z by lia.
Qed.
Lemma verify_bindings_app facts covered l1 l2 :
  verify_bindings facts covered (l1 ++ l2) =
  let? n := verify_bindings facts covered l1 in verify_bindings facts n l2.
Proof.
  revert covered. induction l1 as [|a l1 IH]; intros covered; cbn [app verify_bindings]; [done|].
  destruct (length facts <? hi (a_fact_range a))%nat; [done|]. destruct (compute_chain_hash _); [|done]. by destruct (negb _).
Qed.

(** One seal: the anchor verifies under the public key of the signer. *)
Lemma seal_verify_one b fact_hi chain_head :
  signer_ok (b_signer b) ->
  exists b' a, seal b fact_hi chain_head = (b', Ok a) /\
    verify_one a (b_prev_anchor_hash b) (verifying_hex (b_signer b)) = Ok tt /\
    a_seq a = b_last_seq b /\ a_fact_range a = mk_range (b_last_fact_hi b) fact_hi /\
    a_key_id a = b_key_id b /\ a_chain_head a = chain_head /\
    b' = mk_builder (b_signer b) (b_key_id b) (b_engine_id b) (b_session_id b) (a_anchor_hash a)
           (u64_wrapping_add (b_last_seq b) 1) fact_hi.
Proof.
  intros Hs. do 2 eexists. split; [reflexivity|].
  split_and!; [|done..]. unfold verify_one, verifying_hex. cbn [compute_anchor_hash a_anchor_hash].
  unfold anchor_proto. cbn. rewrite String.eqb_refl. cbn [negb].
  rewrite !hex_roundtrip. pose proof (verify_own (b_signer b)) as Hv.
  rewrite (Hv _ Hs). unfold signature_bytes. rewrite signature_length.
  by rewrite Hs, verifying_key_length.
Qed.
Lemma seal_extends keys anchors b fact_hi chain_head :
  signer_ok (b_signer b) -> keys !! b_key_id b = Some (verifying_hex (b_signer b)) ->
  verify_anchor_chain anchors keys = Ok tt -> continues b anchors ->
  (Z.of_nat (S (length anchors)) < 2 ^ 64)%Z ->
  exists b' a, seal b fact_hi chain_head = (b', Ok a) /\ a_chain_head a = chain_head /\
    hi (a_fact_range a) = fact_hi /\ b_signer b' = b_signer b /\ b_key_id b' = b_key_id b /\
    verify_anchor_chain (anchors ++ [a]) keys = Ok tt /\ continues b' (anchors ++ [a]).
Proof.
  intros Hs Hk Hv (Hprev & Hseq & Hlo) Hlen.
  destruct (seal_verify_one b fact_hi chain_head Hs) as (b' & a & Hseal & Hone & Hsq & Hrg & Hkey & Hhead & ->).
  do 2 eexists. split; [exact Hseal|]. split_and!; [done|by rewrite Hrg|done|done| |].
  - unfold verify_anchor_chain. rewrite verify_anchors_app.
    unfold verify_anchor_chain in Hv. rewrite Hv. cbn [verify_anchors].
    change (fold_left _ anchors ANCHOR_GENESIS) with (end_hash anchors).
    change (fold_left _ anchors 0) with (end_hi anchors).
    rewrite Hsq, Hseq, Z.eqb_refl, Hrg. cbn [lo negb]. rewrite Hlo, Nat.eqb_refl, Hkey, Hk. cbn [negb].
    by rewrite <- Hprev, Hone.
  - unfold continues, end_hash, end_hi. rewrite !fold_left_app, length_app. cbn.
    rewrite Hrg, Hseq. split_and!; [done| |done]. unfold u64_wrapping_add.
    rewrite Z.mod_small by lia. lia.
Qed.

(** The points of a history: how much of it each anchor covers, with the chain
    hash of that prefix. *)
Definition point_of (facts : list Fact) (p : nat * string) : Prop :=
  (fst p <= length facts)%nat /\ compute_chain_hash (N := N) (take (fst p) facts) = Ok (snd p).

Lemma sealed_all facts keys points anchors b :
  signer_ok (b_signer b) -> keys !! b_key_id b = Some (verifying_hex (b_signer b)) ->
  (Z.of_nat (length anchors + length points) < 2 ^ 64)%Z ->
  Forall (point_of facts) points ->
  verify_anchor_chain anchors keys = Ok tt -> verify_binding (N := N) facts anchors = Ok (end_hi anchors) ->
  continues b anchors ->
  let '(b', sealed) := seal_all b points in
  length sealed = length points /\ verify_anchor_chain (anchors ++ sealed) keys = Ok tt /\
  verify_binding (N := N) facts (anchors ++ sealed) = Ok (end_hi (anchors ++ sealed)) /\
  continues b' (anchors ++ sealed).
Proof.
  revert anchors b. induction points as [|[fact_hi head] points IH]; intros anchors b Hs Hk Hlen Hp Hv Hb Hc.
  { cbn. by rewrite app_nil_r. }
  inv Hp as [|? ? [Hle Hhead] Hp']. cbn [fst snd length] in *.
  destruct (seal_extends keys anchors b fact_hi head Hs Hk Hv Hc ltac:(lia))
    as (b' & a & Hseal & Ha & Hhi & Hs' & Hk' & Hv' & Hc').
  cbn [seal_all]. rewrite Hseal. specialize (IH (anchors ++ [a]) b').
  destruct (seal_all b' points) as [b'' sealed]. rewrite length_app, <- app_assoc in IH. cbn in IH.
  assert (verify_binding (N := N) facts (anchors ++ [a]) = Ok (end_hi (anchors ++ [a]))) as Hb'.
  { unfold verify_binding in *. rewrite verify_bindings_app, Hb. cbn [verify_bindings].
    rewrite Hhi, Ha. destruct (Nat.ltb_spec (length facts) fact_hi); [lia|].
    rewrite Hhead, String.eqb_refl. cbn. unfold end_hi. by rewrite fold_left_app, <- Hhi. }
  destruct IH as (Hl & IH); try done; [by rewrite Hs'|by rewrite Hk', Hs'|lia|].
  cbn. split; [by rewrite Hl|done].
Qed.
End Sealing.

(** * Two verified chains *)

(** Fields without the separator. *)
Definition no_bar (s : string) : bool := str_all (fun c => negb (Ascii.eqb c "|")) s.
Definition plain_anchor (a : AuditAnchor) : bool :=
  no_bar (a_session_id a) && no_bar (a_chain_head a) && no_bar (a_key_id a) && no_bar (a_engine_id a).

Lemma bar_inj a b x y : no_bar x = true -> no_bar y = true -> bar a x = bar b y -> a = b /\ x = y.
Proof.
  intros Hx Hy. unfold bar. revert b. induction a as [|c a IH]; intros [|d b] Heq; cbn in Heq.
  - by injection Heq as ->.
  - injection Heq as <- ->. exfalso. unfold no_bar in Hx. rewrite str_all_app in Hx. cbn in Hx.
    by rewrite andb_false_r in Hx.
  - injection Heq as -> <-. exfalso. unfold no_bar in Hy. rewrite str_all_app in Hy. cbn in Hy.
    by rewrite andb_false_r in Hy.
  - injection Heq as -> Heq. apply IH in Heq as [-> ->]. done.
Qed.
Lemma no_bar_N (n : N) : no_bar (pretty n) = true.
Proof.
  unfold no_bar. pose proof (pretty_N_digits n) as Hd. revert Hd. generalize (pretty n). intros s.
  induction s as [|c s IH]; cbn; [done|]. rewrite !andb_true_iff. intros [Hc Hs]. split; [|by apply IH].
  by destruct (Ascii.eqb_spec c "|") as [->|].
Qed.
Lemma no_bar_Z (z : Z) : no_bar (pretty z) = true.
Proof.
  destruct z as [|p|p]; [done|exact (no_bar_N (Npos p))|].
  unfold pretty, pretty_Z. cbn. exact (no_bar_N (Npos p)).
Qed.

Lemma proto_fields_inj p1 p2 a1 a2 :
  plain_anchor a1 = true -> plain_anchor a2 = true ->
  proto_fields p1 (anchor_proto a1) = proto_fields p2 (anchor_proto a2) ->
  p1 = p2 /\ anchor_proto a1 = anchor_proto a2.
Proof.
  unfold plain_anchor. rewrite !andb_true_iff. intros [[[Hs1 Hh1] Hk1] He1] [[[Hs2 Hh2] Hk2] He2].
  unfold proto_fields, anchor_proto. cbn.
  intros [Heq Ht]%bar_inj; [|apply no_bar_Z..].
  apply bar_inj in Heq as [Heq He]; [|done..]. apply bar_inj in Heq as [Heq Hk]; [|done..].
  apply bar_inj in Heq as [Heq Hh]; [|done..]. apply bar_inj in Heq as [Heq Hhi]; [|apply no_bar_N..].
  apply bar_inj in Heq as [Heq Hlo]; [|apply no_bar_N..]. apply bar_inj in Heq as [Heq Hsq]; [|apply no_bar_Z..].
  apply bar_inj in Heq as [Heq Hse]; [|done..]. apply pretty_Z_inj in Ht, Hsq. apply pretty_N_inj in Hhi, Hlo.
  apply Nat2N.inj in Hhi, Hlo. split; [done|].
  destruct (a_fact_range a1), (a_fact_range a2). cbn in *. congruence.
Qed.

(** The search for a collision between two chains given last anchor first. *)
Definition prev_hash_of (rest : list AuditAnchor) : string :=
  match rest with [] => ANCHOR_GENESIS | a :: _ => a_anchor_hash a end.
Fixpoint find_anchor_collision (rev1 rev2 : list AuditAnchor) : option (string * string) :=
  match rev1, rev2 with
  | a1 :: r1, a2 :: r2 =>
      let in1 := proto_fields (prev_hash_of r1) (anchor_proto a1) in
      let in2 := proto_fields (prev_hash_of r2) (anchor_proto a2) in
      if decide (in1 = in2) then find_anchor_collision r1 r2 else Some (in1, in2)
  | _, _ => None
  end.

Section Verified.
Context {N : Type} `{SerdeNumber N, SerdeText N, Blake3, Ed25519}.

Lemma verify_one_hash a prev key :
  verify_one a prev key = Ok tt -> blake3_hex (proto_fields prev (anchor_proto a)) = a_anchor_hash a.
Proof.
  unfold verify_one. cbn [compute_anchor_hash].
  destruct (String.eqb_spec (blake3_hex (proto_fields prev (anchor_proto a))) (a_anchor_hash a)) as [|Hne];
    [done|]. by cbn.
Qed.
Lemma end_hash_rev l : end_hash (rev l) = prev_hash_of l.
Proof. destruct l as [|a l]; [done|]. unfold end_hash. cbn [rev]. by rewrite fold_left_app. Qed.
Lemma verified_snoc keys a rest :
  verify_anchor_chain (rev (a :: rest)) keys = Ok tt ->
  verify_anchor_chain (rev rest) keys = Ok tt /\ a_seq a = Z.of_nat (length rest) /\
  blake3_hex (proto_fields (prev_hash_of rest) (anchor_proto a)) = a_anchor_hash a.
Proof.
  cbn [rev]. unfold verify_anchor_chain. rewrite verify_anchors_app. intros Hv.
  destruct (verify_anchors keys 0 ANCHOR_GENESIS 0 (rev rest)) as [[]|e]; [|done]. split; [done|].
  change (fold_left _ (rev rest) ANCHOR_GENESIS) with (end_hash (rev rest)) in Hv.
  rewrite end_hash_rev, length_rev in Hv. cbn [verify_anchors] in Hv.
  destruct (Z.eqb_spec (a_seq a) (0 + Z.of_nat (length rest))) as [Hs|]; [|done]. cbn [negb] in Hv.
  split; [lia|]. revert Hv. destruct (negb _); [done|]. destruct (keys !! _) as [key|]; [|done].
  destruct (verify_one a (prev_hash_of rest) key) as [[]|] eqn:Hone; [|done]. intros _.
  by eapply verify_one_hash.
Qed.

Lemma find_anchor_collision_spec keys1 keys2 r1 r2 :
  verify_anchor_chain (rev r1) keys1 = Ok tt -> verify_anchor_chain (rev r2) keys2 = Ok tt ->
  forallb plain_anchor r1 = true -> forallb plain_anchor r2 = true ->
  r1 <> [] -> r2 <> [] -> prev_hash_of r1 = prev_hash_of r2 ->
  map anchor_proto r1 = map anchor_proto r2 \/
  exists p, find_anchor_collision r1 r2 = Some p /\ collision p.
Proof.
  intros Hv1 Hv2 Hp1 Hp2 Hn1 Hn2 Hend.
  assert (length r1 = length r2 \/ (exists p, find_anchor_collision r1 r2 = Some p /\ collision p))
    as [Hlen|?]; [|clear Hn1 Hn2|by right].
  - destruct r1 as [|a1 r1], r2 as [|a2 r2]; try done. cbn [forallb prev_hash_of] in *.
    apply andb_true_iff in Hp1 as [Hp1 _], Hp2 as [Hp2 _].
    apply verified_snoc in Hv1 as (_ & Hs1 & Hh1), Hv2 as (_ & Hs2 & Hh2). cbn [find_anchor_collision].
    destruct (decide (_ = _)) as [Heq|Hne].
    + left. apply proto_fields_inj in Heq as [_ Heq]; [|done..]. injection Heq as Hseq.
      cbn. lia.
    + right. eexists. split; [done|]. split; [done|]. cbn [fst snd]. congruence.
  - revert r2 Hv2 Hp2 Hend Hlen. induction r1 as [|a1 r1 IH]; intros [|a2 r2] Hv2 Hp2 Hend Hlen;
      try done; [by left|]. cbn [forallb prev_hash_of] in *.
    apply andb_true_iff in Hp1 as [Hp1 Hr1], Hp2 as [Hp2 Hr2].
    apply verified_snoc in Hv1 as (Hv1 & _ & Hh1), Hv2 as (Hv2 & _ & Hh2). cbn [find_anchor_collision].
    destruct (decide (_ = _)) as [Heq|Hne].
    + apply proto_fields_inj in Heq as [Hprev Heq]; [|done..]. injection Hlen as Hlen.
      destruct (IH Hv1 Hr1 r2 Hv2 Hr2 Hprev Hlen) as [Hrest|?]; [|by right].
      left. cbn. by rewrite Heq, Hrest.
    + right. eexists. split; [done|]. split; [done|]. cbn [fst snd]. congruence.
Qed.

(** A binding covers a prefix with the last chain head. *)
Lemma verify_binding_last facts anchors a n :
  verify_binding (N := N) facts (anchors ++ [a]) = Ok n ->
  n = hi (a_fact_range a) /\ (n <= length facts)%nat /\
  compute_chain_hash (N := N) (take n facts) = Ok (a_chain_head a).
Proof.
  unfold verify_binding. rewrite verify_bindings_app. destruct (verify_bindings facts 0 anchors); [|done].
  cbn [verify_bindings]. destruct (Nat.ltb_spec (length facts) (hi (a_fact_range a))); [done|].
  destruct (compute_chain_hash (take (hi (a_fact_range a)) facts)) as [head|] eqn:Hh; [|done].
  destruct (String.eqb_spec head (a_chain_head a)) as [<-|]; [|done]. intros [= <-]. done.
Qed.
End Verified.

(** Anchors written by the builder verify, over rotations and restarts.
    Given a verified chain bound to a history, a builder that continues it (a
    new one for an empty chain, one rebuilt with [new_with_prev] from the last
    anchor, also with another key, or the one that sealed it) and points of the
    history with its chain hashes, every call of [seal] succeeds, and the
    extended chain passes [verify_anchor_chain] under the registered public
    keys and [verify_binding] against the history, up to the last point. *)
Lemma sealed_chain_verifies {N : Type} `{SerdeNumber N, SerdeText N, Blake3, Ed25519Laws}
    (facts : list Fact) (keys : gmap string string) (anchors : list AuditAnchor)
    (b : AnchorChainBuilder) (points : list (nat * string)) :
  signer_ok (b_signer b) -> keys !! b_key_id b = Some (verifying_hex (b_signer b)) ->
  (Z.of_nat (length anchors + length points) < 2 ^ 64)%Z ->
  Forall (point_of (N := N) facts) points ->
  verify_anchor_chain anchors keys = Ok tt ->
  verify_binding (N := N) facts anchors = Ok (end_hi anchors) -> continues b anchors ->
  let '(b', sealed) := seal_all b points in
  length sealed = length points /\
  verify_anchor_chain (anchors ++ sealed) keys = Ok tt /\
  verify_binding (N := N) facts (anchors ++ sealed) = Ok (end_hi (anchors ++ sealed)) /\
  continues b' (anchors ++ sealed).
Proof. apply sealed_all. Qed.

(** C34: an anchored history is tamper evident.  Two chains of anchors that both
    verify, whatever the key tables, and end in the same anchor hash hold the
    same prototypes (sequence numbers, ranges, chain heads, identities), so no
    anchor was replaced, dropped from the front or taken from another chain;
    and two well-formed histories bound to them agree, up to the integer
    variant, on everything the anchors cover.  Otherwise comparing the chains,
    or the histories, from the end produces two different inputs of the hash
    function with the same hash.  The string fields must not hold the
    separator. *)
Theorem anchored_history_tamper_evident {N : Type}
    `{SerdeNumberLaws N, SerdeText N, !SerdeTextLaws N, Blake3, !Blake3Laws, Ed25519}
    (keys1 keys2 : gmap string string) (c1 c2 : list AuditAnchor) (last1 last2 : AuditAnchor)
    (h1 h2 : list Fact) (n1 n2 : nat) :
  verify_anchor_chain (c1 ++ [last1]) keys1 = Ok tt ->
  verify_anchor_chain (c2 ++ [last2]) keys2 = Ok tt ->
  forallb plain_anchor (c1 ++ [last1]) = true -> forallb plain_anchor (c2 ++ [last2]) = true ->
  a_anchor_hash last1 = a_anchor_hash last2 ->
  verify_binding (N := N) h1 (c1 ++ [last1]) = Ok n1 ->
  verify_binding (N := N) h2 (c2 ++ [last2]) = Ok n2 ->
  forallb wf_fact h1 = true -> forallb wf_fact h2 = true ->
  (map anchor_proto (c1 ++ [last1]) = map anchor_proto (c2 ++ [last2]) /\ n1 = n2 /\
   map norm_fact (take n1 h1) = map norm_fact (take n2 h2)) \/
  (exists p, find_anchor_collision (rev (c1 ++ [last1])) (rev (c2 ++ [last2])) = Some p /\ collision p) \/
  exists ts1 ts2 p,
    fact_texts (N := N) (take n1 h1) = Ok ts1 /\ fact_texts (N := N) (take n2 h2) = Ok ts2 /\
    find_collision (rev ts1) (rev ts2) = Some p /\ collision p.
Proof.
  intros Hv1 Hv2 Hp1 Hp2 Hend Hb1 Hb2 Hw1 Hw2.
  destruct (find_anchor_collision_spec keys1 keys2 (rev (c1 ++ [last1])) (rev (c2 ++ [last2])))
    as [Heq|?]; try (by rewrite rev_involutive); try (by rewrite rev_app_distr);
    [by rewrite forallb_rev..|by rewrite !rev_app_distr| |by right; left].
  rewrite !map_rev in Heq. apply (f_equal (@rev _)) in Heq. rewrite !rev_involutive in Heq.
  apply verify_binding_last in Hb1 as (Hn1 & Hl1 & Hh1), Hb2 as (Hn2 & Hl2 & Hh2).
  pose proof Heq as Heq'. rewrite !map_app in Heq'. cbn in Heq'.
  apply app_inj_tail in Heq' as [_ Hlast]. injection Hlast as _ _ Hrange Hhead _ _ _.
  assert (n1 = n2) as Hn by congruence.
  destruct (same_chain_same_facts (N := N) (take n1 h1) (take n2 h2)) as [Hfacts|?];
    [by apply forallb_take|by apply forallb_take|congruence|by left|by right; right].
Qed.

(** Two anchors over three facts, the second after a restart with another
    key. *)
Module AnchorDemo.
Import ZNumber ZText ZHash ZSign.
Definition facts : list Fact := [Stable 1%Z 0; PayloadUpdate 2%Z "shared.a" (JInteger 5); Stable 3%Z 1].
Definition point (n : nat) : nat * string :=
  (n, default "" (result_ok (compute_chain_hash (N := Z) (take n facts)))).
Definition signer1 : AuditSigner := signer_from_bytes "seed-1".
Definition signer2 : AuditSigner := signer_from_bytes "seed-2".
Definition keys : gmap string string :=
  <["k1" := verifying_hex signer1]> (<["k2" := verifying_hex signer2]> ∅).
Definition first : list AuditAnchor := snd (seal_all (builder_new signer1 "k1" "engine" "s1") [point 1]).
Definition restarted : AnchorChainBuilder :=
  new_with_prev signer2 "k2" "engine" "s1" (end_hash first) 1 (end_hi first).
Definition chain : list AuditAnchor := first ++ snd (seal_all restarted [point 3]).
Definition last_anchor : AuditAnchor :=
  mk_anchor 1 "s1" (mk_range 1 3) (snd (point 3)) "k2" "engine" 0
    (a_anchor_hash (default (mk_anchor 0 "" (mk_range 0 0) "" "" "" 0 "" "") (last chain)))
    (a_signature (default (mk_anchor 0 "" (mk_range 0 0) "" "" "" 0 "" "") (last chain))).
End AnchorDemo.
Import ZNumber ZText ZHash ZSign.
Lemma sealed_chain_verifies_witness :
  verify_anchor_chain AnchorDemo.chain AnchorDemo.keys = Ok tt /\
  verify_binding (N := Z)
    AnchorDemo.facts AnchorDemo.chain = Ok 3.
Proof.
  pose proof (sealed_chain_verifies (N := Z)
    AnchorDemo.facts AnchorDemo.keys AnchorDemo.first AnchorDemo.restarted [AnchorDemo.point 3]) as Hseal.
  destruct Hseal as (_ & Hchain & Hbind & _);
    [reflexivity|vm_compute; reflexivity|vm_compute; reflexivity| |vm_compute; reflexivity..|
     split_and!; vm_compute; reflexivity|].
  - constructor; [|constructor]. split; [cbn; lia|vm_compute; reflexivity].
  - split; [exact Hchain|exact Hbind].
Defined.
Lemma anchored_history_tamper_evident_witness :
  map anchor_proto AnchorDemo.chain = map anchor_proto (AnchorDemo.first ++ [AnchorDemo.last_anchor]) /\
  3 = 3 /\ map norm_fact (take 3 AnchorDemo.facts) = map norm_fact (take 3 (AnchorDemo.facts ++ [Stable 9%Z 9])).
Proof.
  destruct (anchored_history_tamper_evident (N := Z) AnchorDemo.keys AnchorDemo.keys
    AnchorDemo.first AnchorDemo.first AnchorDemo.last_anchor AnchorDemo.last_anchor AnchorDemo.facts
    (AnchorDemo.facts ++ [Stable 9%Z 9]) 3 3)
    as [Hsame|[(p & Hp & _)|(ts1 & ts2 & p & Ht1 & Ht2 & Hp & _)]]; try (vm_compute; reflexivity).
  - exact Hsame.
  - vm_compute in Hp. discriminate Hp.
  - vm_compute in Ht1, Ht2. injection Ht1 as <-. injection Ht2 as <-. vm_compute in Hp. discriminate Hp.
Defined.
