(* ===== verification/SharedLog.v ===== *)
(** The shared facts log, [evorule-governance/src/shared_facts_log.rs]: a facts
    log of payload updates with, beside it, the session each fact came from,
    the roll-up marks, the uses at session start and a chain of signed anchors,
    persisted as metadata on a best effort. *)

From stdpp Require Import sorting.
From S2P Require Import Prelude ObjectMap Value Error Path Domain Executor ExecSemantics Transition Fact Serde Hash Wal WalFile FactsLog Signing.

(** * Data *)

(** [struct SharedFact]. *)
Record SharedFact : Type := mk_shared_fact {
  sf_fact_id : Z;
  sf_path : string;
  sf_value : JsonValue;
  sf_source_session_id : Z;
  sf_version : Z;
  sf_origin_fact_id : option Z;
}.
(** [struct SharedLedgerAnchor]. *)
Record SharedLedgerAnchor : Type := mk_shared_anchor {
  sa_seq : Z;
  sa_records : Z;
  sa_chain_head : string;
  sa_metadata_digest : string;
  sa_anchor_hash : string;
  sa_key_id : string;
  sa_engine_id : string;
  sa_signature : string;
}.
Definition shared_signature_payload (a : SharedLedgerAnchor) : string :=
  "evorule-shared-anchor/1|" +:+ pretty (sa_seq a) +:+ "|" +:+ pretty (sa_records a) +:+ "|"
  +:+ sa_chain_head a +:+ "|" +:+ sa_metadata_digest a +:+ "|" +:+ sa_key_id a +:+ "|"
  +:+ sa_engine_id a.
Definition shared_compute_hash `{Blake3} (prev_anchor_hash : string) (a : SharedLedgerAnchor) : string :=
  blake3_hex
    (prev_anchor_hash +:+ "|" +:+ pretty (sa_seq a) +:+ "|" +:+ pretty (sa_records a) +:+ "|"
     +:+ sa_chain_head a +:+ "|" +:+ sa_key_id a +:+ "|" +:+ sa_engine_id a +:+ "|"
     +:+ sa_metadata_digest a).
Definition SHARED_LEDGER_ANCHOR_GENESIS : string := "shared-anchor-genesis".

(** [struct SharedFactsMetadata]; the same six fields of [SharedFactsLogInner]
    are kept as one record here. *)
Record SharedFactsMetadata : Type := mk_metadata {
  next_fact_id : Z;
  fact_sources : gmap Z Z;
  fact_origins : gmap Z Z;
  used_at_startup : gmap Z (list Z);
  rolled_up : gset Z;
  anchors : list SharedLedgerAnchor;
}.
Definition metadata_default : SharedFactsMetadata := mk_metadata 0 ∅ ∅ ∅ ∅ [].
Definition metadata_new : SharedFactsMetadata := mk_metadata 1 ∅ ∅ ∅ ∅ [].

(** The derived [serde] codec of the metadata through [serde_json]. *)
Class MetadataCodec : Type := {
  metadata_to_string : SharedFactsMetadata -> Result string string;
  metadata_from_str : string -> Result SharedFactsMetadata string;
}.
(** Documented: serialising succeeds, and reading back gives the same data. *)
Class MetadataCodecLaws `{MetadataCodec} : Prop := {
  metadata_to_string_total m : exists s, metadata_to_string m = Ok s;
  metadata_from_to_string m s : metadata_to_string m = Ok s -> metadata_from_str s = Ok m;
}.

(** The metadata file, as the file system calls the source makes on its path
    and on the path of the temporary file next to it. *)
Inductive ReadResult : Type := Content (s : string) | NotFound | ReadError (e : string).
Class MetadataFile (M : Type) : Type := {
  write_tmp : M -> string -> M * Result unit string;
  rename_tmp : M -> M * Result unit string;
  remove_tmp : M -> M;
  read_metadata : M -> ReadResult;
}.

(** The anchor fields, and [struct SharedFactsLogInner]. *)
Record AnchorConfig `{Ed25519} : Type := mk_anchor_config {
  anchor_signer : option AuditSigner;
  anchor_key_id : string;
  anchor_engine_id : string;
  anchor_interval : Z;
}.
Arguments mk_anchor_config {_}.
Arguments anchor_signer {_}.
Arguments anchor_key_id {_}.
Arguments anchor_engine_id {_}.
Arguments anchor_interval {_}.
Definition anchor_off `{Ed25519} : AnchorConfig := mk_anchor_config None "" "" 0.
Record SharedFactsLog (S M : Type) `{Ed25519} : Type := mk_shared {
  facts_log : FactsLog S;
  meta : SharedFactsMetadata;
  anchor_config : AnchorConfig;
  records_since_anchor : Z;
  metadata_path : option M;
}.
Arguments mk_shared {S M _}.
Arguments facts_log {S M _}.
Arguments meta {S M _}.
Arguments anchor_config {S M _}.
Arguments records_since_anchor {S M _}.
Arguments metadata_path {S M _}.

(** [struct RollupOutcome] and [struct SharedAnchorReport]. *)
Record RollupOutcome : Type := mk_rollup { marked : nat; unknown : list Z }.
Record SharedAnchorReport : Type := mk_report {
  anchor_count : nat;
  binding_chain_head_match : bool;
  binding_metadata_match : bool;
}.

(** The keys of a [BTreeMap] or [BTreeSet] in order. *)
Definition sorted_elements (s : gset Z) : list Z := merge_sort Z.le (elements s).

(** [detect_orphan_facts]. *)
Definition update_id (fact : Fact) : option Z :=
  match fact with PayloadUpdate id _ _ => Some id | _ => None end.
Definition detect_orphan_facts {S} (log : FactsLog S) (sources : gmap Z Z) :
    Result (list Z) FactsLogError :=
  let? facts := read_from log 0 in
  let wal_fact_ids : gset Z := list_to_set (omap update_id facts) in
  Ok (List.filter (fun id => bool_decide (sources !! id = None)) (sorted_elements wal_fact_ids)).

Section SharedLog.
Context {N S M : Type}.
Context `{SerdeNumber N, SerdeText N, Blake3, FactWalStore S, MetadataCodec, MetadataFile M, Ed25519}.
Implicit Types log : SharedFactsLog S M.

(** * Metadata *)

Definition write_metadata_atomic (path : M) (m : SharedFactsMetadata) :
    M * Result unit FactsLogError :=
  match metadata_to_string m with
  | Err e => (path, Err (WalErr ("metadata serialize error: " +:+ e)))
  | Ok json =>
      match write_tmp path json with
      | (path, Err e) => (path, Err (WalErr ("metadata write error: " +:+ e)))
      | (path, Ok _) =>
          match rename_tmp path with
          | (path, Err e) => (path, Err (WalErr ("metadata rename error: " +:+ e)))
          | (path, Ok _) => (path, Ok tt)
          end
      end
  end.
(** [persist_metadata_locked]: a failure is only logged. *)
Definition persist_metadata log : SharedFactsLog S M :=
  match metadata_path log with
  | Some path =>
      mk_shared (facts_log log) (meta log) (anchor_config log) (records_since_anchor log)
        (Some (fst (write_metadata_atomic path (meta log))))
  | None => log
  end.
Definition set_meta log (m : SharedFactsMetadata) : SharedFactsLog S M :=
  mk_shared (facts_log log) m (anchor_config log) (records_since_anchor log) (metadata_path log).
Definition set_facts_log log (fl : FactsLog S) : SharedFactsLog S M :=
  mk_shared fl (meta log) (anchor_config log) (records_since_anchor log) (metadata_path log).
Definition set_records log (n : Z) : SharedFactsLog S M :=
  mk_shared (facts_log log) (meta log) (anchor_config log) n (metadata_path log).

(** * Constructors *)

Definition shared_new : SharedFactsLog S M := mk_shared log_new metadata_new anchor_off 0 None.
Definition shared_with_store (fl : FactsLog S) : SharedFactsLog S M :=
  mk_shared fl metadata_new anchor_off 0 None.
Definition with_anchor log (signer : AuditSigner) (key_id engine_id : string) (interval : Z) :
    SharedFactsLog S M :=
  mk_shared (facts_log log) (meta log) (mk_anchor_config (Some signer) key_id engine_id interval)
    (records_since_anchor log) (metadata_path log).

(** * Anchors *)

(** [metadata_digest_locked]: the metadata without the anchors. *)
Definition metadata_digest log : string :=
  let m := meta log in
  let normalized :=
    match metadata_to_string
            (mk_metadata (next_fact_id m) (fact_sources m) (fact_origins m) (used_at_startup m)
               (rolled_up m) []) with
    | Ok s => s | Err _ => "" end in
  blake3_hex normalized.
Definition set_anchor_hash (a : SharedLedgerAnchor) (h : string) : SharedLedgerAnchor :=
  mk_shared_anchor (sa_seq a) (sa_records a) (sa_chain_head a) (sa_metadata_digest a) h
    (sa_key_id a) (sa_engine_id a) (sa_signature a).
Definition set_signature (a : SharedLedgerAnchor) (s : string) : SharedLedgerAnchor :=
  mk_shared_anchor (sa_seq a) (sa_records a) (sa_chain_head a) (sa_metadata_digest a)
    (sa_anchor_hash a) (sa_key_id a) (sa_engine_id a) s.
Definition push_anchor (m : SharedFactsMetadata) (a : SharedLedgerAnchor) : SharedFactsMetadata :=
  mk_metadata (next_fact_id m) (fact_sources m) (fact_origins m) (used_at_startup m)
    (rolled_up m) (anchors m ++ [a]).
Definition seal_anchor_now log : SharedFactsLog S M * Result SharedLedgerAnchor FactsLogError :=
  match anchor_signer (anchor_config log) with
  | None => (log, Err (WalErr "anchor not configured"))
  | Some signer =>
      let prev :=
        match last (anchors (meta log)) with
        | Some a => sa_anchor_hash a
        | None => SHARED_LEDGER_ANCHOR_GENESIS
        end in
      let seq := Z.of_nat (length (anchors (meta log))) in
      let records := Z.of_nat (history_len (facts_log log)) in
      let anchor :=
        mk_shared_anchor seq records (log_last_hash (facts_log log)) (metadata_digest log) ""
          (anchor_key_id (anchor_config log)) (anchor_engine_id (anchor_config log)) "" in
      let anchor := set_anchor_hash anchor (shared_compute_hash prev anchor) in
      let anchor :=
        set_signature anchor (hex_encode (signature_bytes signer (shared_signature_payload anchor))) in
      let log := set_meta log (push_anchor (meta log) anchor) in
      let log := set_records log 0 in
      (persist_metadata log, Ok anchor)
  end.

(** The loop of [verify_shared_anchors], at index [i]. *)
Fixpoint verify_shared_loop (keys : gmap string string) (i : Z) (prev : string)
    (anchors : list SharedLedgerAnchor) : Result unit FactsLogError :=
  match anchors with
  | [] => Ok tt
  | a :: rest =>
      if negb (sa_seq a =? i)%Z then
        Err (WalErr ("shared anchor seq broken at [" +:+ pretty i +:+ "]"))
      else if negb (String.eqb (shared_compute_hash prev a) (sa_anchor_hash a)) then
        Err (WalErr ("shared anchor chain broken at [" +:+ pretty i +:+ "]"))
      else
        match keys !! sa_key_id a with
        | None => Err (WalErr ("unknown anchor key " +:+ sa_key_id a))
        | Some key =>
            match hex_decode key with
            | Err e => Err (WalErr ("bad pubkey: " +:+ sign_error_display e))
            | Ok pk =>
                if negb (Nat.eqb (String.length pk) 32) then Err (WalErr "bad pubkey length")
                else
                  match hex_decode (sa_signature a) with
                  | Err e => Err (WalErr ("bad signature: " +:+ sign_error_display e))
                  | Ok sig =>
                      if negb (Nat.eqb (String.length sig) 64) then Err (WalErr "bad signature length")
                      else
                        match verify_signature pk (shared_signature_payload a) sig with
                        | Err e => Err (WalErr (sign_error_display e))
                        | Ok false =>
                            Err (WalErr ("shared anchor signature invalid at [" +:+ pretty i +:+ "]"))
                        | Ok true => verify_shared_loop keys (i + 1) (sa_anchor_hash a) rest
                        end
                  end
            end
        end
  end.
Definition verify_shared_anchors log (keys : gmap string string) (verify_binding : bool) :
    Result SharedAnchorReport FactsLogError :=
  let anchors := anchors (meta log) in
  let? _u := verify_shared_loop keys 0 SHARED_LEDGER_ANCHOR_GENESIS anchors in
  let report := mk_report (length anchors) false false in
  Ok (if verify_binding then
        match last anchors with
        | Some last =>
            mk_report (length anchors)
              (String.eqb (sa_chain_head last) (log_last_hash (facts_log log)))
              (String.eqb (sa_metadata_digest last) (metadata_digest log))
        | None => report
        end
      else report).

(** * Appending *)

Definition set_next_fact_id (m : SharedFactsMetadata) (n : Z) : SharedFactsMetadata :=
  mk_metadata n (fact_sources m) (fact_origins m) (used_at_startup m) (rolled_up m) (anchors m).
Definition record_source (m : SharedFactsMetadata) (id source_session_id : Z) (origin : option Z) :
    SharedFactsMetadata :=
  mk_metadata (next_fact_id m) (<[id := source_session_id]> (fact_sources m))
    (match origin with Some o => <[id := o]> (fact_origins m) | None => fact_origins m end)
    (used_at_startup m) (rolled_up m) (anchors m).
(** The anchor policy at the end of [append_inner]; a failing seal is only
    logged. *)
Definition seal_if_due log : SharedFactsLog S M :=
  let interval := anchor_interval (anchor_config log) in
  let should_seal := ((0 <? interval) && (interval <=? records_since_anchor log))%Z in
  if should_seal then fst (seal_anchor_now log) else log.
Definition append_inner log (path : string) (value : JsonValue) (source_session_id : Z)
    (origin_fact_id : option Z) : SharedFactsLog S M * Result Z FactsLogError :=
  let fact_id := next_fact_id (meta log) in
  match u64_checked_add (next_fact_id (meta log)) 1 with
  | None => (log, Err VersionOverflow)
  | Some next =>
      let log := set_meta log (set_next_fact_id (meta log) next) in
      let fact := PayloadUpdate fact_id path value in
      match append (N := N) (facts_log log) fact with
      | (fl, Err e) => (set_facts_log log fl, Err e)
      | (fl, Ok version) =>
          let log := set_facts_log log fl in
          let log := set_meta log (record_source (meta log) fact_id source_session_id origin_fact_id) in
          let log := persist_metadata log in
          let log := set_records log (u64_wrapping_add (records_since_anchor log) 1) in
          (seal_if_due log, Ok version)
      end
  end.
Definition shared_append log (path : string) (value : JsonValue) (source_session_id : Z) :
    SharedFactsLog S M * Result Z FactsLogError :=
  append_inner log path value source_session_id None.
Definition append_with_origin log (path : string) (value : JsonValue) (source_session_id : Z)
    (origin_fact_id : option Z) : SharedFactsLog S M * Result Z FactsLogError :=
  append_inner log path value source_session_id origin_fact_id.
Definition shared_rotate_wal log : SharedFactsLog S M * Result bool FactsLogError :=
  let '(fl, r) := rotate_wal (facts_log log) in (set_facts_log log fl, r).

(** * Reading *)

Definition origin_fact_id log (fact_id : Z) : option Z := fact_origins (meta log) !! fact_id.
Definition source_session_id log (fact_id : Z) : option Z := fact_sources (meta log) !! fact_id.
(** The closure of [facts_by_path_prefix]. *)
Definition to_shared_fact (m : SharedFactsMetadata) (vf : Z * Fact) : option SharedFact :=
  match snd vf with
  | PayloadUpdate id path value =>
      if bool_decide (id ∈ rolled_up m) then None
      else Some (mk_shared_fact id path value (default 0%Z (fact_sources m !! id)) (fst vf)
                   (fact_origins m !! id))
  | _ => None
  end.
Definition shared_facts_by_path_prefix log (prefix : string) : list SharedFact :=
  omap (to_shared_fact (meta log)) (facts_by_path_prefix (facts_log log) prefix).
Fixpoint find_fact (history : list (Z * Fact)) (fact_id : Z) : option (Z * string * JsonValue) :=
  match history with
  | [] => None
  | (version, PayloadUpdate id path value) :: rest =>
      if (id =? fact_id)%Z then Some (version, path, value) else find_fact rest fact_id
  | _ :: rest => find_fact rest fact_id
  end.
Definition fact_by_id log (fact_id : Z) : option SharedFact :=
  let! source := fact_sources (meta log) !! fact_id in
  let! '(version, path, value) := find_fact (history_with_versions (facts_log log)) fact_id in
  Some (mk_shared_fact fact_id path value source version (fact_origins (meta log) !! fact_id)).
Definition shared_version log : Z := log_version (facts_log log).
Definition shared_history_len log : nat := history_len (facts_log log).
Definition verify_causal_consistency log : Result (list Z) FactsLogError :=
  detect_orphan_facts (facts_log log) (fact_sources (meta log)).

(** * Uses, roll-ups and reset *)

Definition record_used_at_startup log (session_id : Z) (fact_ids : list Z) : SharedFactsLog S M :=
  let m := meta log in
  persist_metadata (set_meta log
    (mk_metadata (next_fact_id m) (fact_sources m) (fact_origins m)
       (<[session_id := fact_ids]> (used_at_startup m)) (rolled_up m) (anchors m))).
Definition get_used_at_startup log (session_id : Z) : option (list Z) :=
  used_at_startup (meta log) !! session_id.
Definition get_sessions_using_fact log (fact_id : Z) : list Z :=
  sorted_elements (dom (filter (fun kv => fact_id ∈ snd kv) (used_at_startup (meta log)))).
(** The loop of [mark_as_rollup]. *)
Fixpoint mark_loop (sources : gmap Z Z) (rolled : gset Z) (fact_ids : list Z) :
    gset Z * RollupOutcome :=
  match fact_ids with
  | [] => (rolled, mk_rollup 0 [])
  | id :: rest =>
      if bool_decide (is_Some (sources !! id)) then
        let '(rolled, out) := mark_loop sources ({[id]} ∪ rolled) rest in
        (rolled, mk_rollup (Datatypes.S (marked out)) (unknown out))
      else
        let '(rolled, out) := mark_loop sources rolled rest in
        (rolled, mk_rollup (marked out) (id :: unknown out))
  end.
Definition mark_as_rollup log (fact_ids : list Z) : SharedFactsLog S M * RollupOutcome :=
  let m := meta log in
  let '(rolled, out) := mark_loop (fact_sources m) (rolled_up m) fact_ids in
  (persist_metadata (set_meta log
     (mk_metadata (next_fact_id m) (fact_sources m) (fact_origins m) (used_at_startup m) rolled
        (anchors m))), out).
Definition is_rolled_up log (fact_id : Z) : bool := bool_decide (fact_id ∈ rolled_up (meta log)).
(** [reset]: the origins, the anchors and their counter are kept. *)
Definition shared_reset log : SharedFactsLog S M :=
  mk_shared (reset (facts_log log))
    (mk_metadata 1 ∅ (fact_origins (meta log)) ∅ ∅ (anchors (meta log)))
    (anchor_config log) (records_since_anchor log) (metadata_path log).
End SharedLog.

(** * Recovery *)

Section SharedRecover.
Context {N M : Type}.
Context `{SerdeNumber N, SerdeText N, Blake3, MetadataCodec, MetadataFile M, Ed25519}.

(** The loop of [verify_wal_chain], at index [idx]. *)
Definition mismatch (stored : option string) (computed : string) : bool :=
  match stored with Some s => negb (String.eqb s computed) | None => false end.
Fixpoint verify_wal_loop (prev_hash : string) (idx : nat) (records : list WalRecord) :
    Result unit FactsLogError :=
  match records with
  | [] => Ok tt
  | rec :: rest =>
      let id := pretty (fact_id (rec_fact rec)) in
      match fact_hash (rec_fact rec) with
      | Err e => Err (HashErr ("fact[" +:+ id +:+ "]: " +:+ hash_error_display e))
      | Ok content =>
          if mismatch (rec_content_hash rec) content then
            Err (WalErr ("shared facts WAL content_hash mismatch at fact " +:+ id))
          else if mismatch (rec_prev_hash rec) prev_hash then
            Err (WalErr ("shared facts WAL chain broken at index " +:+ pretty (N.of_nat idx)
                         +:+ " (fact " +:+ id +:+ ")"))
          else
            let chain := chain_step prev_hash content in
            if mismatch (rec_chain_hash rec) chain then
              Err (WalErr ("shared facts WAL chain_hash mismatch at fact " +:+ id))
            else verify_wal_loop chain (Datatypes.S idx) rest
      end
  end.
(** [None] would be a reading loop that does not end. *)
Definition verify_wal_chain (fs : Files) (wal_path : WalPath) : option (Result unit FactsLogError) :=
  let! read := read_wal_with_hash (N := N) fs wal_path in
  Some match read with
       | Err e => Err (WalErr (wal_error_display e))
       | Ok records => verify_wal_loop "genesis" 0 records
       end.
(** The metadata part of [SharedFactsLog::recover]. *)
Definition load_metadata (file : M) : Result SharedFactsMetadata FactsLogError :=
  match read_metadata file with
  | Content content =>
      match metadata_from_str content with
      | Ok m => Ok m
      | Err e => Err (WalErr ("metadata parse error: " +:+ e))
      end
  | NotFound => Ok metadata_default
  | ReadError e => Err (WalErr ("metadata read error: " +:+ e))
  end.
Definition shared_recover (fs : Files) (wal_path : WalPath) (metadata_file : M) :
    option (Result (SharedFactsLog (Files * WalWriter) M) FactsLogError) :=
  let! facts_log :=
    if path_exists fs wal_path then
      let! verified := verify_wal_chain fs wal_path in
      match verified with
      | Err e => Some (Err e)
      | Ok _ => recover (N := N) fs wal_path
      end
    else Some (Ok (with_wal fs wal_path)) in
  Some (
    let? fl := facts_log in
    let metadata_file := remove_tmp metadata_file in
    let? metadata := load_metadata metadata_file in
    Ok (mk_shared fl (set_next_fact_id metadata (Z.max (next_fact_id metadata) 1)) anchor_off 0
          (Some metadata_file))).
End SharedRecover.

(** * A concrete codec and file, for the examples *)

Module ZMetadata.
Definition AnchorTuple : Type := Z * Z * string * string * string * string * string * string.
Definition anchor_tuple (a : SharedLedgerAnchor) : AnchorTuple :=
  (sa_seq a, sa_records a, sa_chain_head a, sa_metadata_digest a, sa_anchor_hash a, sa_key_id a,
   sa_engine_id a, sa_signature a).
Definition of_anchor_tuple (t : AnchorTuple) : SharedLedgerAnchor :=
  let '(a, b, c, d, e, f, g, h) := t in mk_shared_anchor a b c d e f g h.
Definition Tuple : Type :=
  Z * gmap Z Z * gmap Z Z * gmap Z (list Z) * gset Z * list AnchorTuple.
Definition to_tuple (m : SharedFactsMetadata) : Tuple :=
  (next_fact_id m, fact_sources m, fact_origins m, used_at_startup m, rolled_up m,
   map anchor_tuple (anchors m)).
Definition of_tuple (t : Tuple) : SharedFactsMetadata :=
  let '(n, s, o, u, r, a) := t in mk_metadata n s o u r (map of_anchor_tuple a).
Lemma of_to_tuple m : of_tuple (to_tuple m) = m.
Proof.
  destruct m as [n s o u r a]. unfold to_tuple, of_tuple. cbn. f_equal. rewrite map_map.
  rewrite <- (map_id a) at 2. apply map_ext. by intros [].
Qed.
#[export] Instance codec : MetadataCodec := {|
  metadata_to_string := fun m => Ok (ZText.bits (encode (to_tuple m)) +:+ "|");
  metadata_from_str := fun s =>
    match decode (ZText.unbits s) with Some t => Ok (of_tuple t) | None => Err "invalid" end;
|}.
#[export] Instance codec_laws : MetadataCodecLaws.
Proof.
  split.
  - intros m. by eexists.
  - intros m s [= <-]. cbn [metadata_from_str codec]. rewrite (ZText.unbits_bits _ "").
    by rewrite decode_encode, of_to_tuple.
Qed.
(** The temporary file and the file. *)
#[export] Instance file : MetadataFile (option string * option string) := {|
  write_tmp := fun m s => ((Some s, snd m), Ok tt);
  rename_tmp := fun m => ((None, fst m), Ok tt);
  remove_tmp := fun m => (None, snd m);
  read_metadata := fun m => match snd m with Some s => Content s | None => NotFound end;
|}.
End ZMetadata.
