(* ===== verification/SharedLogSpec.v ===== *)
(** Theorems about the shared facts log: it refines a plain list of the facts
    accepted, its anchors verify, and a bound anchor fixes facts and metadata. *)

From stdpp Require Import sorting.
From S2P Require Import Prelude ObjectMap Value Error Path Domain Executor ExecSemantics Transition Fact Serde Hash Wal WalFile FactsLog FactsLogSpec Signing SharedLog.

(** What an append to a facts log does, by its result. *)
Lemma append_result {N S} `{SerdeNumber N, SerdeText N, Blake3, FactWalStoreLaws S}
    (log log' : FactsLog S) f r :
  append (N := N) log f = (log', r) -> r <> Err VersionOverflow ->
  compacted_snapshot (inner log') = compacted_snapshot (inner log) /\
  match r with
  | Ok v =>
      v = version_after (log_version log) f /\
      history (inner log') = history (inner log) ++ [(log_version log, f)] /\
      log_version log' = version_after (log_version log) f
  | Err _ => history (inner log') = history (inner log) /\ log_version log' = log_version log
  end.
Proof.
  intros Ha%append_cases Hr. destruct (fact_hash f) as [c|e]; [|by destruct Ha as [-> ->]].
  cbn zeta in Ha. destruct (write_ahead _ _ _ _ _ _) as [log1 u] eqn:Hw.
  apply write_ahead_cases in Hw as [Hin _]. unfold log_version in *. destruct u as [[]|e].
  - destruct Ha as [[-> _]|(_ & -> & ->)]; [done|]. cbn -[version_after].
    by rewrite Hin.
  - destruct Ha as [-> ->]. by rewrite Hin.
Qed.

(** * The specification *)

(** The shared log stands for the list of the facts it accepted, in order. *)
Definition shared_entry (f : SharedFact) : Z * Fact :=
  (sf_version f, PayloadUpdate (sf_fact_id f) (sf_path f) (sf_value f)).
Definition sources_of (facts : list SharedFact) : gmap Z Z :=
  foldr (fun f m => <[sf_fact_id f := sf_source_session_id f]> m) ∅ (reverse facts).
Definition origins_of (facts : list SharedFact) : gmap Z Z :=
  foldr (fun f m => match sf_origin_fact_id f with Some o => <[sf_fact_id f := o]> m | None => m end)
    ∅ (reverse facts).

Section Spec.
Context {N S M : Type}.
Context `{SerdeNumber N, SerdeText N, Blake3, FactWalStoreLaws S, MetadataCodec, MetadataFile M, Ed25519}.
Implicit Types log : SharedFactsLog S M.

(** The operations of the governance layer, with the facts they add.  The
    keys table holds the public key of every signer configured. *)
Inductive shared_step (keys : gmap string string) : SharedFactsLog S M -> list SharedFact -> SharedFactsLog S M -> Prop :=
| shared_step_append log path value source origin log' r :
    wf_json value = true -> append_inner (N := N) log path value source origin = (log', r) ->
    r <> Err VersionOverflow ->
    shared_step keys log
      (match r with
       | Ok _ => [mk_shared_fact (next_fact_id (meta log)) path value source (shared_version log) origin]
       | Err _ => [] end) log'
| shared_step_rotate log : shared_step keys log [] (fst (shared_rotate_wal log))
| shared_step_seal log : shared_step keys log [] (fst (seal_anchor_now log))
| shared_step_use log session ids : shared_step keys log [] (record_used_at_startup log session ids)
| shared_step_rollup log ids : shared_step keys log [] (fst (mark_as_rollup log ids))
| shared_step_anchor log signer key_id engine_id interval :
    signer_ok signer -> keys !! key_id = Some (verifying_hex signer) ->
    shared_step keys log [] (with_anchor log signer key_id engine_id interval).
Inductive shared_run (keys : gmap string string) : SharedFactsLog S M -> list SharedFact -> Prop :=
| shared_run_new : shared_run keys shared_new []
| shared_run_store s fsync max :
    holds s [] -> shared_run keys (shared_with_store (with_inner (inner_new (Some s) fsync max))) []
| shared_run_step log facts more log' :
    shared_run keys log facts -> shared_step keys log more log' -> shared_run keys log' (facts ++ more).

(** The refinement relation. *)
Record shared_inv log (facts : list SharedFact) : Prop := {
  si_reachable : reachable (N := N) (facts_log log);
  si_compacted : compacted_snapshot (inner (facts_log log)) = None;
  si_history : history (inner (facts_log log)) = map shared_entry facts;
  si_versions i f : facts !! i = Some f -> sf_version f = Z.of_nat i;
  si_version : log_version (facts_log log) = Z.of_nat (length facts);
  si_sorted : StronglySorted Z.lt (map sf_fact_id facts);
  si_ids : Forall (fun f => (1 <= sf_fact_id f < next_fact_id (meta log))%Z) facts;
  si_next : (1 <= next_fact_id (meta log) <= u64_max)%Z;
  si_sources : fact_sources (meta log) = sources_of facts;
  si_origins : fact_origins (meta log) = origins_of facts;
  si_rolled id : id ∈ rolled_up (meta log) -> is_Some (fact_sources (meta log) !! id);
}.

Lemma sources_snoc facts f :
  sources_of (facts ++ [f]) = <[sf_fact_id f := sf_source_session_id f]> (sources_of facts).
Proof. unfold sources_of. by rewrite reverse_app. Qed.
Lemma origins_snoc facts f :
  origins_of (facts ++ [f]) =
  match sf_origin_fact_id f with
  | Some o => <[sf_fact_id f := o]> (origins_of facts) | None => origins_of facts end.
Proof. unfold origins_of. by rewrite reverse_app. Qed.

(** [persist_metadata] only writes the file. *)
Lemma persist_facts_log log : facts_log (persist_metadata log) = facts_log log.
Proof. unfold persist_metadata. by destruct (metadata_path log). Qed.
Lemma persist_meta log : meta (persist_metadata log) = meta log.
Proof. unfold persist_metadata. by destruct (metadata_path log). Qed.
Lemma persist_config log : anchor_config (persist_metadata log) = anchor_config log.
Proof. unfold persist_metadata. by destruct (metadata_path log). Qed.
(** What sealing leaves as it was. *)
Lemma seal_keeps log :
  let log' := fst (seal_anchor_now log) in
  facts_log log' = facts_log log /\ anchor_config log' = anchor_config log /\
  next_fact_id (meta log') = next_fact_id (meta log) /\
  fact_sources (meta log') = fact_sources (meta log) /\
  fact_origins (meta log') = fact_origins (meta log) /\ rolled_up (meta log') = rolled_up (meta log).
Proof.
  unfold seal_anchor_now. destruct (anchor_signer (anchor_config log)); [|done]. cbn [fst].
  by rewrite persist_facts_log, persist_meta, persist_config.
Qed.
Lemma seal_if_due_keeps log :
  let log' := seal_if_due log in
  facts_log log' = facts_log log /\ anchor_config log' = anchor_config log /\
  next_fact_id (meta log') = next_fact_id (meta log) /\
  fact_sources (meta log') = fact_sources (meta log) /\
  fact_origins (meta log') = fact_origins (meta log) /\ rolled_up (meta log') = rolled_up (meta log).
Proof. unfold seal_if_due. cbv zeta. destruct (_ && _); [apply seal_keeps|done]. Qed.
(** The two outcomes of [append_inner]. *)
Lemma append_inner_cases log path value source origin log' r :
  append_inner (N := N) log path value source origin = (log', r) -> r <> Err VersionOverflow ->
  let id := next_fact_id (meta log) in
  (id + 1 <= u64_max)%Z /\
  exists fl, append (N := N) (facts_log log) (PayloadUpdate id path value) = (fl, r) /\
    facts_log log' = fl /\ anchor_config log' = anchor_config log /\
    rolled_up (meta log') = rolled_up (meta log) /\ next_fact_id (meta log') = (id + 1)%Z /\
    match r with
    | Ok _ =>
        fact_sources (meta log') = <[id := source]> (fact_sources (meta log)) /\
        fact_origins (meta log') =
          match origin with Some o => <[id := o]> (fact_origins (meta log)) | None => fact_origins (meta log) end
    | Err _ =>
        fact_sources (meta log') = fact_sources (meta log) /\
        fact_origins (meta log') = fact_origins (meta log)
    end.
Proof.
  unfold append_inner, u64_checked_add.
  destruct (Z.leb_spec (next_fact_id (meta log) + 1) u64_max) as [Hle|]; [|by intros [= <- <-]].
  cbn [set_meta facts_log]. destruct (append (facts_log log) _) as [fl [v|e]] eqn:Ha;
    [|intros [= <- <-] _; split; [done|]; exists fl; split_and!; done].
  match goal with |- context [seal_if_due ?l] => set (l0 := l) end.
  assert (facts_log l0 = fl /\ anchor_config l0 = anchor_config log /\
    meta l0 = record_source (set_next_fact_id (meta log) (next_fact_id (meta log) + 1))
      (next_fact_id (meta log)) source origin) as (Hl1 & Hl2 & Hl3).
  { unfold l0, set_records. cbn [facts_log anchor_config meta].
    by rewrite persist_facts_log, persist_config, persist_meta. }
  clearbody l0. intros [= <- <-] _. split; [done|]. exists fl. split; [done|].
  pose proof (seal_if_due_keeps l0) as (-> & -> & -> & -> & -> & ->).
  rewrite Hl1, Hl2, Hl3. by split_and!.
Qed.

Lemma sorted_lt_snoc l x :
  StronglySorted Z.lt l -> Forall (fun y => (y < x)%Z) l -> StronglySorted Z.lt (l ++ [x]).
Proof.
  induction 1 as [|y l _ IH Hy]; cbn; intros Hx; [repeat constructor|].
  inv Hx. constructor; [by apply IH|]. apply Forall_app. split; [done|]. by constructor.
Qed.

Lemma inv_new log : (log = shared_new \/ exists s fsync max, holds s [] /\
    log = shared_with_store (with_inner (inner_new (Some s) fsync max))) -> shared_inv log [].
Proof.
  intros [->|(s & fsync & max & Hs & ->)]; (split; cbn; try done; try constructor; try (unfold u64_max; lia)).
  - eexists. split; [apply fresh_new|constructor].
  - eexists. split; [by apply fresh_store|constructor].
Qed.
Lemma inv_append_inner log facts path value source origin log' r :
  wf_json value = true -> append_inner (N := N) log path value source origin = (log', r) ->
  r <> Err VersionOverflow -> shared_inv log facts ->
  shared_inv log' (facts ++
    match r with
    | Ok _ => [mk_shared_fact (next_fact_id (meta log)) path value source (shared_version log) origin]
    | Err _ => [] end).
Proof.
  intros Hv Ha Hr [Hre Hco Hhi Hvs Hve Hso Hid Hne Hsr Hor Hro].
  apply append_inner_cases in Ha as (Hmax & fl & Ha & Hfl & Hcf & Hrl & Hnx & Hm); [|done].
  set (id := next_fact_id (meta log)) in *.
  assert (reachable (N := N) fl) as Hre'.
  { destruct Hre as (l0 & Hf & Hs). exists l0. split; [done|]. eapply rtc_r; [done|]. constructor.
    eapply step_append; [|exact Ha|done]. unfold wf_fact. cbn [fact_id]. rewrite Hv, andb_true_r.
    apply is_u64_spec. lia. }
  pose proof (append_result _ _ _ _ Ha Hr) as [Hc Hres]. subst fl.
  destruct r as [v|e].
  - destruct Hres as (Hv' & Hh & Hver). destruct Hm as [Hms Hmo].
    split; try done; rewrite ?Hc, ?Hh, ?Hver, ?Hrl, ?Hnx, ?Hms, ?Hmo; try done.
    + by rewrite Hhi, map_app.
    + intros i f [Hl|[Hge Hl]]%lookup_app_Some; [by apply Hvs|].
      destruct (i - length facts) as [|k] eqn:Hk; [|by destruct k]. injection Hl as <-. cbn.
      unfold shared_version. rewrite Hve. lia.
    + unfold version_after. cbn [bumps]. rewrite Hve, length_app. cbn. lia.
    + rewrite map_app. apply sorted_lt_snoc; [done|]. apply Forall_map.
      eapply Forall_impl; [exact Hid|]. cbn. lia.
    + apply Forall_app. split; [|repeat constructor; cbn; lia].
      eapply Forall_impl; [exact Hid|]. cbn. lia.
    + lia.
    + by rewrite sources_snoc, Hsr.
    + by rewrite origins_snoc, Hor.
    + intros i Hi. apply Hro in Hi. destruct (decide (i = id)) as [->|];
        [by rewrite lookup_insert_eq|by rewrite lookup_insert_ne].
  - destruct Hres as [Hh Hver]. destruct Hm as [Hms Hmo]. rewrite app_nil_r.
    split; rewrite ?Hc, ?Hh, ?Hver, ?Hrl, ?Hnx, ?Hms, ?Hmo; try done; [|lia].
    eapply Forall_impl; [exact Hid|]. cbn. lia.
Qed.
Lemma mark_loop_known sources rolled ids id :
  id ∈ fst (mark_loop sources rolled ids) -> id ∈ rolled \/ is_Some (sources !! id).
Proof.
  revert rolled. induction ids as [|i ids IH]; intros rolled; cbn; [by left|].
  case_bool_decide as Hi.
  - specialize (IH ({[i]} ∪ rolled)). destruct (mark_loop _ _ ids) as [rl out]. cbn in *.
    intros [[Hid%elem_of_singleton|Hid]%elem_of_union|Hid]%IH; [right; by subst|by left|by right].
  - specialize (IH rolled). destruct (mark_loop _ _ ids) as [rl out]. cbn in *. apply IH.
Qed.
Lemma shared_step_inv keys log facts more log' :
  shared_step keys log more log' -> shared_inv log facts -> shared_inv log' (facts ++ more).
Proof.
  intros [log0 path value source origin log1 r Hv Ha Hr|log0|log0|log0 session ids|log0 ids|
    log0 signer key_id engine_id interval Hs Hk] Hi; rewrite ?app_nil_r.
  - by eapply inv_append_inner.
  - destruct Hi as [Hre Hco Hhi Hvs Hve Hso Hid Hne Hsr Hor Hro].
    unfold shared_rotate_wal. destruct (rotate_wal (facts_log log0)) as [fl r] eqn:Hrot. cbn [fst].
    assert (reachable (N := N) fl /\ inner fl = set_wal (inner (facts_log log0)) (wal (inner fl))) as [Hre' Hin].
    { split.
      - destruct Hre as (l0 & Hf & Hst). exists l0. split; [done|]. eapply rtc_r; [done|]. constructor.
        replace fl with (fst (rotate_wal (facts_log log0))) by by rewrite Hrot. constructor.
      - revert Hrot. unfold rotate_wal. destruct (wal (inner (facts_log log0))) eqn:Hw.
        + destruct (store_rotate s). by intros [= <- <-].
        + intros [= <- <-]. rewrite Hw. unfold set_wal. rewrite <- Hw. by destruct (inner (facts_log log0)). }
    split; cbn [facts_log meta set_facts_log]; try done; unfold log_version in *; by rewrite Hin.
  - pose proof (seal_keeps log0) as (Hs1 & Hs2 & Hs3 & Hs4 & Hs5 & Hs6). destruct Hi.
    split; rewrite ?Hs1, ?Hs3, ?Hs4, ?Hs5, ?Hs6; done.
  - destruct Hi. unfold record_used_at_startup. by split; rewrite ?persist_facts_log, ?persist_meta.
  - destruct Hi as [Hre Hco Hhi Hvs Hve Hso Hid Hne Hsr Hor Hro]. unfold mark_as_rollup.
    pose proof (mark_loop_known (fact_sources (meta log0)) (rolled_up (meta log0)) ids) as Hm.
    destruct (mark_loop _ _ ids) as [rl out]. cbn [fst] in *.
    split; rewrite ?persist_facts_log, ?persist_meta; try done. cbn.
    intros i [Hi|Hi]%Hm; [by apply Hro|done].
  - destruct Hi. by split.
Qed.
Lemma shared_run_inv keys log facts : shared_run keys log facts -> shared_inv log facts.
Proof.
  induction 1 as [|s fsync max Hs|log facts more log' _ IH Hst].
  - apply inv_new. by left.
  - apply inv_new. right. by exists s, fsync, max.
  - by eapply shared_step_inv.
Qed.

(** ** Lookups by identifier *)

Definition by_id (facts : list SharedFact) (id : Z) : option SharedFact :=
  List.find (fun f => (sf_fact_id f =? id)%Z) facts.
Lemma by_id_snoc facts f id :
  by_id (facts ++ [f]) id =
  match by_id facts id with
  | Some g => Some g
  | None => if (sf_fact_id f =? id)%Z then Some f else None
  end.
Proof.
  unfold by_id. induction facts as [|g facts IH]; cbn; [done|]. by destruct (sf_fact_id g =? id)%Z.
Qed.
Lemma sorted_snoc_inv facts f :
  StronglySorted Z.lt (map sf_fact_id (facts ++ [f])) ->
  StronglySorted Z.lt (map sf_fact_id facts) /\ by_id facts (sf_fact_id f) = None.
Proof.
  induction facts as [|g facts IH]; cbn; [intros _; split; [constructor|done]|].
  intros Hs. inv Hs as [|? ? Hs' Hf]. destruct (IH Hs') as [Hss Hb]. split.
  - constructor; [done|]. rewrite map_app in Hf. by apply Forall_app in Hf as [? _].
  - rewrite map_app in Hf. apply Forall_app in Hf as [_ Hf]. inv Hf as [|? ? Hlt _].
    unfold by_id in *. cbn. by rewrite (proj2 (Z.eqb_neq _ _)) by lia.
Qed.
Lemma sources_lookup facts id :
  StronglySorted Z.lt (map sf_fact_id facts) ->
  sources_of facts !! id = sf_source_session_id <$> by_id facts id.
Proof.
  induction facts as [|f facts IH] using rev_ind; [done|]. intros [Hs Hb]%sorted_snoc_inv.
  rewrite sources_snoc, by_id_snoc. destruct (Z.eqb_spec (sf_fact_id f) id) as [<-|Hne].
  - by rewrite lookup_insert_eq, Hb.
  - rewrite lookup_insert_ne, IH by done. by destruct (by_id facts id).
Qed.
Lemma origins_lookup facts id :
  StronglySorted Z.lt (map sf_fact_id facts) ->
  origins_of facts !! id = by_id facts id ≫= sf_origin_fact_id.
Proof.
  induction facts as [|f facts IH] using rev_ind; [done|]. intros [Hs Hb]%sorted_snoc_inv.
  rewrite origins_snoc, by_id_snoc. specialize (IH Hs).
  destruct (Z.eqb_spec (sf_fact_id f) id) as [<-|Hne].
  - rewrite Hb in *. cbn in *. destruct (sf_origin_fact_id f); [by rewrite lookup_insert_eq|done].
  - destruct (sf_origin_fact_id f); [rewrite lookup_insert_ne by done|];
      rewrite IH; by destruct (by_id facts id).
Qed.
Lemma by_id_In facts f :
  StronglySorted Z.lt (map sf_fact_id facts) -> In f facts -> by_id facts (sf_fact_id f) = Some f.
Proof.
  induction facts as [|g facts IH] using rev_ind; [done|]. intros [Hs Hb]%sorted_snoc_inv.
  rewrite by_id_snoc. intros [Hin|[->|[]]]%in_app_or.
  - by rewrite IH.
  - by rewrite Hb, Z.eqb_refl.
Qed.
Lemma find_fact_map facts id :
  find_fact (map shared_entry facts) id =
  (fun f => (sf_version f, sf_path f, sf_value f)) <$> by_id facts id.
Proof.
  unfold by_id. induction facts as [|f facts IH]; cbn; [done|].
  by destruct (Z.eqb_spec (sf_fact_id f) id).
Qed.

Lemma inv_fact_by_id log facts id : shared_inv log facts -> fact_by_id log id = by_id facts id.
Proof.
  intros []. unfold fact_by_id, history_with_versions.
  rewrite si_sources0, si_origins0, si_history0, sources_lookup, origins_lookup, find_fact_map by done.
  destruct (by_id facts id) as [f|] eqn:Hf; [|done]. cbn.
  apply List.find_some in Hf as [_ Hid%Z.eqb_eq]. subst id. by destruct f.
Qed.
Definition visible log (prefix : string) (f : SharedFact) : bool :=
  starts_with prefix (sf_path f) && negb (is_rolled_up log (sf_fact_id f)).
Lemma inv_prefix log facts prefix :
  shared_inv log facts ->
  shared_facts_by_path_prefix log prefix ≡ₚ List.filter (visible log prefix) facts.
Proof.
  intros []. unfold shared_facts_by_path_prefix. rewrite (reachable_prefix_query _ _ si_reachable0), si_history0.
  assert (forall f, In f facts -> to_shared_fact (meta log) (shared_entry f) =
    if is_rolled_up log (sf_fact_id f) then None else Some f) as Hto.
  { intros f Hf. unfold to_shared_fact, is_rolled_up. cbn.
    rewrite si_sources0, si_origins0, sources_lookup, origins_lookup by done.
    rewrite (by_id_In _ _ si_sorted0 Hf). cbn. destruct (bool_decide _); [done|]. by destruct f. }
  clear -Hto. induction facts as [|f facts IH]; cbn; [done|].
  unfold visible at 1. unfold update_with_prefix at 1. cbn.
  assert (omap (to_shared_fact (meta log)) (List.filter (update_with_prefix prefix) (map shared_entry facts))
    ≡ₚ List.filter (visible log prefix) facts) as IH' by (apply IH; intros g Hg; apply Hto; by right).
  destruct (starts_with prefix (sf_path f)); cbn [andb omap list_omap]; [|done].
  rewrite Hto by by left. destruct (is_rolled_up log (sf_fact_id f)); cbn; [done|].
  by apply Permutation_cons.
Qed.
Lemma filter_none {A} (p : A -> bool) l : (forall x, In x l -> p x = false) -> List.filter p l = [].
Proof.
  induction l as [|x l IH]; cbn; intros Hp; [done|]. rewrite Hp by by left. apply IH. naive_solver.
Qed.
Lemma inv_causal log facts : shared_inv log facts -> verify_causal_consistency log = Ok [].
Proof.
  intros []. unfold verify_causal_consistency, detect_orphan_facts.
  rewrite (reachable_read_from _ _ si_reachable0), si_compacted0, si_history0.
  f_equal. apply filter_none. intros id Hid%list_elem_of_In.
  unfold sorted_elements in Hid. rewrite merge_sort_Permutation in Hid.
  apply elem_of_elements, elem_of_list_to_set, list_elem_of_omap in Hid as (g & Hg & Hgid).
  apply list_elem_of_In, in_map_iff in Hg as ([v g'] & <- & Hg). apply filter_In in Hg as [Hg _].
  apply in_map_iff in Hg as (f & [= <- <-] & Hf). injection Hgid as <-.
  rewrite si_sources0, sources_lookup, (by_id_In _ _ si_sorted0 Hf) by done. done.
Qed.
End Spec.

(** The shared log is the list of the facts it accepted.  Over any run of
    appends (accepted or refused by the store), anchor seals, startup records,
    roll-ups, rotations and anchor configurations, [fact_by_id] finds exactly
    the accepted fact with that identifier, with the session and the origin it
    was appended with, rolled up or not; [facts_by_path_prefix] returns exactly
    the accepted facts under the prefix that are not rolled up; the version
    and the length count the accepted facts, each at its own version; and no
    fact is an orphan. *)
Lemma shared_log_refines_list {N S M}
    `{SerdeNumber N, SerdeText N, Blake3, FactWalStoreLaws S, MetadataCodec, MetadataFile M, Ed25519}
    (keys : gmap string string) (log : SharedFactsLog S M) (facts : list SharedFact) :
  shared_run (N := N) keys log facts ->
  (forall id, fact_by_id log id = by_id facts id) /\
  (forall prefix, shared_facts_by_path_prefix log prefix ≡ₚ List.filter (visible log prefix) facts) /\
  (forall i f, facts !! i = Some f -> sf_version f = Z.of_nat i) /\
  shared_version log = Z.of_nat (length facts) /\ shared_history_len log = length facts /\
  verify_causal_consistency log = Ok [].
Proof.
  intros Hr%shared_run_inv. split_and!.
  - intros id. by apply inv_fact_by_id.
  - intros prefix. by apply inv_prefix.
  - apply Hr.
  - apply Hr.
  - unfold shared_history_len, history_len. rewrite (si_history _ _ Hr). apply length_map.
  - by eapply inv_causal.
Qed.

(** * Anchors *)

Section Anchors.
Context {N S M : Type}.
Context `{SerdeNumber N, SerdeText N, Blake3, FactWalStoreLaws S, MetadataCodec, MetadataFile M, Ed25519Laws}.
Implicit Types log : SharedFactsLog S M.

Definition end_anchor_hash (prev : string) (l : list SharedLedgerAnchor) : string :=
  match last l with Some a => sa_anchor_hash a | None => prev end.
Lemma verify_shared_app keys i prev l1 l2 :
  verify_shared_loop keys i prev (l1 ++ l2) =
  let? _u := verify_shared_loop keys i prev l1 in
  verify_shared_loop keys (i + Z.of_nat (length l1)) (end_anchor_hash prev l1) l2.
Proof.
  revert i prev. induction l1 as [|a l1 IH]; intros i prev; cbn [app verify_shared_loop].
  { cbn. by rewrite Z.add_0_r. }
  destruct (negb _); [done|]. destruct (negb _); [done|]. destruct (keys !! _); [|done].
  destruct (hex_decode _); [|done]. destruct (negb _); [done|].
  destruct (hex_decode _); [|done]. destruct (negb _); [done|].
  destruct (verify_signature _ _ _) as [[|]|]; [|done..]. rewrite IH. cbn [length].
  replace (i + 1 + Z.of_nat (length l1))%Z with (i + Z.of_nat (Datatypes.S (length l1)))%Z by lia.
  replace (end_anchor_hash prev (a :: l1)) with (end_anchor_hash (sa_anchor_hash a) l1); [done|].
  unfold end_anchor_hash. rewrite last_cons. by destruct (last l1).
Qed.

(** The configured signer is the one its key identifier is registered for, and
    the anchors so far verify. *)
Definition config_ok (keys : gmap string string) log : Prop :=
  match anchor_signer (anchor_config log) with
  | Some s => signer_ok s /\ keys !! anchor_key_id (anchor_config log) = Some (verifying_hex s)
  | None => True
  end.
Definition anchors_ok (keys : gmap string string) log : Prop :=
  config_ok keys log /\ verify_shared_loop keys 0 SHARED_LEDGER_ANCHOR_GENESIS (anchors (meta log)) = Ok tt.
Lemma anchors_ok_same keys log log' :
  anchor_config log' = anchor_config log -> anchors (meta log') = anchors (meta log) ->
  anchors_ok keys log -> anchors_ok keys log'.
Proof. intros Hc Ha. unfold anchors_ok, config_ok. by rewrite Hc, Ha. Qed.

Lemma seal_spec keys log log' r :
  anchors_ok keys log -> seal_anchor_now log = (log', r) ->
  anchors_ok keys log' /\
  forall a, r = Ok a -> anchors (meta log') = anchors (meta log) ++ [a] /\
    sa_chain_head a = log_last_hash (facts_log log') /\ sa_metadata_digest a = metadata_digest log'.
Proof.
  intros [Hc Hv]. unfold seal_anchor_now. unfold config_ok in Hc.
  destruct (anchor_signer (anchor_config log)) as [signer|] eqn:Hs.
  2:{ intros [= <- <-]. split; [|done]. split; [|done]. unfold config_ok. by rewrite Hs. }
  destruct Hc as [Hok Hk]. intros Heq.
  pose proof (f_equal fst Heq) as Hlog. pose proof (f_equal snd Heq) as Hr. cbn [fst snd] in Hlog, Hr.
  clear Heq. split.
  - split.
    + unfold config_ok. rewrite <- Hlog, persist_config. cbn [anchor_config set_records set_meta].
      by rewrite Hs.
    + rewrite <- Hlog, persist_meta. cbn [meta set_records set_meta push_anchor anchors].
      rewrite verify_shared_app, Hv. cbn [verify_shared_loop sa_seq set_signature set_anchor_hash].
      rewrite Z.add_0_l, Z.eqb_refl. cbn [negb]. unfold end_anchor_hash.
      match goal with |- context [String.eqb ?a ?b] => replace (String.eqb a b) with true end.
      2:{ symmetry. apply String.eqb_eq. by destruct (last (anchors (meta log))). }
      cbn [negb sa_key_id sa_signature set_signature set_anchor_hash]. rewrite Hk. unfold verifying_hex. rewrite !hex_roundtrip.
      rewrite (verify_own signer _ Hok). unfold signature_bytes. rewrite signature_length.
      by rewrite Hok, verifying_key_length.
  - intros a Hra. rewrite <- Hr in Hra. injection Hra as <-.
    rewrite <- Hlog, persist_meta, persist_facts_log. split_and!; [done|done|].
    unfold metadata_digest. by rewrite persist_meta.
Qed.
Lemma append_keeps_anchors keys log path value source origin :
  anchors_ok keys log -> anchors_ok keys (fst (append_inner (N := N) log path value source origin)).
Proof.
  intros Ha. unfold append_inner. destruct (u64_checked_add _ _); [|done]. cbn [set_meta facts_log].
  destruct (append (facts_log log) _) as [fl [v|e]]; cbn [fst]; [|by eapply anchors_ok_same; [..|exact Ha]].
  unfold seal_if_due. cbv zeta.
  match goal with |- context [fst (seal_anchor_now ?l)] => assert (anchors_ok keys l) as Hl end.
  { eapply anchors_ok_same; [..|exact Ha]; cbn [set_records anchor_config meta];
      by rewrite ?persist_config, ?persist_meta. }
  destruct (_ && _); [|done].
  match goal with |- context [fst (seal_anchor_now ?l)] => destruct (seal_anchor_now l) as [log' r] eqn:Hs end.
  by destruct (seal_spec keys _ _ _ Hl Hs).
Qed.
Lemma run_anchors keys log facts : shared_run (N := N) keys log facts -> anchors_ok keys log.
Proof.
  induction 1 as [|s fsync max Hs|log facts more log' _ IH Hst]; [done..|].
  destruct Hst as [log0 path value source origin log1 r Hv Ha Hr|log0|log0|log0 session ids|log0 ids|
    log0 signer key_id engine_id interval Hs Hk].
  - pose proof (append_keeps_anchors keys log0 path value source origin IH) as Hk. by rewrite Ha in Hk.
  - unfold shared_rotate_wal. destruct (rotate_wal (facts_log log0)). by eapply anchors_ok_same; [..|exact IH].
  - destruct (seal_anchor_now log0) as [log1 r] eqn:Hs. by destruct (seal_spec keys _ _ _ IH Hs).
  - unfold record_used_at_startup. eapply anchors_ok_same; [..|exact IH]; by rewrite ?persist_config, ?persist_meta.
  - unfold mark_as_rollup. destruct (mark_loop _ _ ids). cbn [fst].
    eapply anchors_ok_same; [..|exact IH]; by rewrite ?persist_config, ?persist_meta.
  - split; [|apply IH]. by split.
Qed.

(** The history of a run, and its chain hash. *)
Lemma run_chain keys log facts :
  shared_run (N := N) keys log facts ->
  compute_chain_hash (N := N) (map snd (map shared_entry facts)) = Ok (log_last_hash (facts_log log)) /\
  forallb wf_fact (map snd (map shared_entry facts)) = true.
Proof.
  intros Hi%shared_run_inv. destruct (reachable_inv _ (si_reachable _ _ Hi)) as (dropped & rs & Hl).
  pose proof (inv_compacted _ _ _ Hl) as Hc. rewrite (si_compacted _ _ Hi) in Hc. subst dropped.
  rewrite <- (si_history _ _ Hi). split.
  - rewrite compute_chain_hash_from. eapply recorded_chain, (inv_recorded _ _ _ Hl).
  - apply forallb_forall. intros f Hf. pose proof (inv_wf _ _ _ Hl) as Hw. cbn in Hw.
    apply in_map_iff in Hf as (vf & <- & Hvf). rewrite Forall_forall in Hw.
    apply Hw. by apply list_elem_of_In.
Qed.
(** What a report of two matches means. *)
Lemma report_matches log keys n :
  verify_shared_anchors log keys true = Ok (mk_report n true true) ->
  exists a, last (anchors (meta log)) = Some a /\ sa_chain_head a = log_last_hash (facts_log log) /\
    sa_metadata_digest a = metadata_digest log.
Proof.
  unfold verify_shared_anchors. destruct (verify_shared_loop _ _ _ _) as [u|e]; [|done]. cbv zeta.
  destruct (last (anchors (meta log))) as [a|]; [|done]. intros [= _ Hc%String.eqb_eq Hd%String.eqb_eq].
  by exists a.
Qed.
End Anchors.

(** The metadata an anchor covers. *)
Definition without_anchors (m : SharedFactsMetadata) : SharedFactsMetadata :=
  mk_metadata (next_fact_id m) (fact_sources m) (fact_origins m) (used_at_startup m) (rolled_up m) [].

(** The anchors of the shared log verify.  After any run, with the public
    keys of the signers configured along it, [verify_shared_anchors] accepts
    the whole chain, sealed by hand or by the interval policy; and right after
    a seal the binding of the last anchor to the facts and to the metadata
    holds. *)
Lemma shared_anchors_verify {N S M}
    `{SerdeNumber N, SerdeText N, Blake3, FactWalStoreLaws S, MetadataCodec, MetadataFile M, Ed25519Laws}
    (keys : gmap string string) (log : SharedFactsLog S M) (facts : list SharedFact) :
  shared_run (N := N) keys log facts ->
  verify_shared_anchors log keys false = Ok (mk_report (length (anchors (meta log))) false false) /\
  forall log' a, seal_anchor_now log = (log', Ok a) ->
    verify_shared_anchors log' keys true =
    Ok (mk_report (Datatypes.S (length (anchors (meta log)))) true true).
Proof.
  intros Ha%run_anchors. split.
  - unfold verify_shared_anchors. by rewrite (proj2 Ha).
  - intros log' a Hs. destruct (seal_spec keys _ _ _ Ha Hs) as [[_ Hv] Hl].
    destruct (Hl a eq_refl) as (Hanc & Hh & Hd). unfold verify_shared_anchors. rewrite Hv, Hanc. cbv zeta.
    rewrite last_snoc, Hh, Hd, !String.eqb_refl, length_app. cbn. by rewrite Nat.add_1_r.
Qed.

(** A bound anchor fixes the shared log.  If two logs both report that
    their last anchor matches the chain head and the metadata, and these last
    anchors agree on the two digests, then the logs hold the same facts (up to
    the integer variant) and the same metadata: sources, origins, startup uses,
    roll-ups and the identifier counter.  Otherwise the two metadata texts, or
    the comparison of the histories, give two different inputs of the hash
    function with the same hash. *)
Lemma shared_binding_tamper_evident {N S M}
    `{SerdeNumberLaws N, SerdeText N, !SerdeTextLaws N, Blake3, !Blake3Laws, FactWalStoreLaws S,
      MetadataCodecLaws, MetadataFile M, Ed25519Laws}
    (keys1 keys2 k1 k2 : gmap string string) (log1 log2 : SharedFactsLog S M)
    (facts1 facts2 : list SharedFact) (n1 n2 : nat) (a1 a2 : SharedLedgerAnchor) :
  shared_run (N := N) keys1 log1 facts1 -> shared_run (N := N) keys2 log2 facts2 ->
  verify_shared_anchors log1 k1 true = Ok (mk_report n1 true true) ->
  verify_shared_anchors log2 k2 true = Ok (mk_report n2 true true) ->
  last (anchors (meta log1)) = Some a1 -> last (anchors (meta log2)) = Some a2 ->
  sa_chain_head a1 = sa_chain_head a2 -> sa_metadata_digest a1 = sa_metadata_digest a2 ->
  let history l := map snd (map shared_entry l) in
  let text l := default "" (result_ok (metadata_to_string (without_anchors (meta l)))) in
  (map norm_fact (history facts1) = map norm_fact (history facts2) /\
   without_anchors (meta log1) = without_anchors (meta log2)) \/
  collision (text log1, text log2) \/
  exists ts1 ts2 p,
    fact_texts (N := N) (history facts1) = Ok ts1 /\ fact_texts (N := N) (history facts2) = Ok ts2 /\
    find_collision (rev ts1) (rev ts2) = Some p /\ collision p.
Proof.
  intros Hr1 Hr2 Hb1 Hb2 Hl1 Hl2 Hhead Hdig history text.
  apply report_matches in Hb1 as (b1 & Hl1' & Hh1 & Hd1), Hb2 as (b2 & Hl2' & Hh2 & Hd2).
  rewrite Hl1 in Hl1'. injection Hl1' as <-. rewrite Hl2 in Hl2'. injection Hl2' as <-.
  apply run_chain in Hr1 as [Hc1 Hw1], Hr2 as [Hc2 Hw2].
  destruct (same_chain_same_facts (N := N) (history facts1) (history facts2)) as [Hf|?];
    [done|done|unfold history; congruence| |by right; right].
  destruct (metadata_to_string_total (without_anchors (meta log1))) as [s1 Hs1].
  destruct (metadata_to_string_total (without_anchors (meta log2))) as [s2 Hs2].
  assert (blake3_hex s1 = blake3_hex s2) as Heq.
  { rewrite Hd1, Hd2 in Hdig. unfold metadata_digest in Hdig.
    change (mk_metadata (next_fact_id (meta log1)) _ _ _ _ []) with (without_anchors (meta log1)) in Hdig.
    change (mk_metadata (next_fact_id (meta log2)) _ _ _ _ []) with (without_anchors (meta log2)) in Hdig.
    by rewrite Hs1, Hs2 in Hdig. }
  destruct (decide (s1 = s2)) as [<-|Hne].
  - left. split; [done|]. apply metadata_from_to_string in Hs1, Hs2. congruence.
  - right. left. unfold text. rewrite Hs1, Hs2. by split.
Qed.

(** * An example *)

(** Three facts from two sessions, the second rolled up, with an anchor every
    two records. *)
Module SharedDemo.
Import ZNumber ZText ZHash ZSign ZMetadata.
Definition Log : Type := SharedFactsLog MemoryWalStore (option string * option string).
Definition signer : AuditSigner := signer_from_bytes "seed".
Definition keys : gmap string string := {["k" := verifying_hex signer]}.
Definition log0 : Log := with_anchor shared_new signer "k" "engine" 2.
Definition add (log : Log) (path : string) (n session : Z) (origin : option Z) : Log :=
  fst (append_inner (N := Z) log path (JInteger n) session origin).
Definition log1 : Log := add log0 "shared.a" 1 7 (Some 70%Z).
Definition log2 : Log := add log1 "shared.b" 2 7 None.
Definition log3 : Log := fst (mark_as_rollup log2 [2%Z; 9%Z]).
Definition log : Log := add log3 "shared.a" 3 8 None.
Definition facts : list SharedFact :=
  [mk_shared_fact 1 "shared.a" (JInteger 1) 7 0 (Some 70%Z);
   mk_shared_fact 2 "shared.b" (JInteger 2) 7 1 None;
   mk_shared_fact 3 "shared.a" (JInteger 3) 8 2 None].
Lemma add_run l fs path n session origin v :
  shared_run (N := Z) keys l fs -> wf_json (JInteger n) = true ->
  snd (append_inner (N := Z) l path (JInteger n) session origin) = Ok v ->
  shared_run (N := Z) keys (add l path n session origin)
    (fs ++ [mk_shared_fact (next_fact_id (meta l)) path (JInteger n) session (shared_version l) origin]).
Proof.
  intros Hr Hw Hv. unfold add. destruct (append_inner l path (JInteger n) session origin) as [l' r] eqn:E.
  cbn in Hv. subst r. eapply shared_run_step; [exact Hr|].
  by apply (shared_step_append keys l path (JInteger n) session origin l' (Ok v)).
Qed.
Lemma log2_run : shared_run (N := Z) keys log2 (take 2 facts).
Proof.
  assert (shared_run (N := Z) keys log0 []) as Hr0.
  { eapply (shared_run_step keys _ [] []); [apply shared_run_new|]. by constructor. }
  pose proof (add_run _ _ "shared.a" 1 7 (Some 70%Z) 1 Hr0 eq_refl ltac:(vm_compute; reflexivity)) as Hr1.
  exact (add_run _ _ "shared.b" 2 7 None 2 Hr1 eq_refl ltac:(vm_compute; reflexivity)).
Qed.
Lemma log_run : shared_run (N := Z) keys log facts.
Proof.
  assert (shared_run (N := Z) keys log3 (take 2 facts)) as Hr3.
  { rewrite <- (app_nil_r (take 2 facts)).
    eapply (shared_run_step keys log2 (take 2 facts) []); [exact log2_run|]. apply shared_step_rollup. }
  exact (add_run _ _ "shared.a" 3 8 None 3 Hr3 eq_refl ltac:(vm_compute; reflexivity)).
Qed.
End SharedDemo.
Import ZNumber ZText ZHash ZSign ZMetadata.

Lemma shared_log_refines_list_witness :
  fact_by_id SharedDemo.log 2 = Some (mk_shared_fact 2 "shared.b" (JInteger 2) 7 1 None) /\
  shared_facts_by_path_prefix SharedDemo.log "shared." ≡ₚ
    [mk_shared_fact 1 "shared.a" (JInteger 1) 7 0 (Some 70%Z); mk_shared_fact 3 "shared.a" (JInteger 3) 8 2 None] /\
  verify_causal_consistency SharedDemo.log = Ok [].
Proof.
  destruct (shared_log_refines_list (N := Z) SharedDemo.keys SharedDemo.log SharedDemo.facts SharedDemo.log_run)
    as (Hid & Hpre & _ & _ & _ & Hc).
  split_and!; [exact (Hid 2%Z)| |exact Hc]. etransitivity; [exact (Hpre "shared.")|].
  vm_compute. reflexivity.
Defined.
Lemma shared_anchors_verify_witness :
  verify_shared_anchors SharedDemo.log SharedDemo.keys false = Ok (mk_report 1 false false) /\
  verify_shared_anchors (fst (seal_anchor_now SharedDemo.log)) SharedDemo.keys true = Ok (mk_report 2 true true).
Proof.
  destruct (shared_anchors_verify (N := Z) SharedDemo.keys SharedDemo.log SharedDemo.facts SharedDemo.log_run)
    as [Hv Hs].
  destruct (seal_anchor_now SharedDemo.log) as [log' [a|e]] eqn:E; [|vm_compute in E; discriminate].
  split; [exact Hv|exact (Hs _ a eq_refl)].
Defined.
Lemma shared_binding_tamper_evident_witness :
  let history := map snd (map shared_entry (take 2 SharedDemo.facts)) in
  map norm_fact history = map norm_fact history /\
  without_anchors (meta SharedDemo.log2) = without_anchors (meta SharedDemo.log2).
Proof.
  destruct (last (anchors (meta SharedDemo.log2))) as [a|] eqn:Ha; [|vm_compute in Ha; discriminate Ha].
  destruct (shared_binding_tamper_evident (N := Z) SharedDemo.keys SharedDemo.keys SharedDemo.keys
    SharedDemo.keys SharedDemo.log2 SharedDemo.log2 (take 2 SharedDemo.facts) (take 2 SharedDemo.facts)
    1 1 a a SharedDemo.log2_run SharedDemo.log2_run) as [Hsame|[[Hne _]|(ts1 & ts2 & p & Ht1 & Ht2 & Hp & _)]];
    [vm_compute; reflexivity|vm_compute; reflexivity|exact Ha|exact Ha|reflexivity|reflexivity|..].
  - exact Hsame.
  - cbn [fst snd] in Hne. exact (False_ind _ (Hne eq_refl)).
  - vm_compute in Ht1, Ht2. injection Ht1 as <-. injection Ht2 as <-. vm_compute in Hp. discriminate Hp.
Defined.

(** [reset] keeps the origins: the first fact of a reset log, appended without
    one, shows the origin of the first fact before it. *)
Lemma reset_keeps_origins :
  option_map sf_origin_fact_id
    (fact_by_id (SharedDemo.add (shared_reset SharedDemo.log) "shared.new" 5 9 None) 1) = Some (Some 70%Z).
Proof. vm_compute. reflexivity. Qed.
