(* ===== verification/Permission.v ===== *)
(** Permissions, [evorule-governance/src/permission/] and
    [evorule-reactor/src/io_context.rs]: the call context, the entries and their
    life cycle, the conditions, and the versioned table rebuilt from the shared
    facts log. *)

From S2P Require Import Prelude ObjectMap Value Error Path Domain Executor ExecSemantics Transition Fact Serde Hash Wal WalFile FactsLog Signing SharedLog.

(** * The call context, [io_context.rs] *)

Inductive CallerRole : Type := Human | Llm | Unknown.
#[export] Instance CallerRole_eq_dec : EqDecision CallerRole.
Proof. solve_decision. Defined.
Definition role_as_str (r : CallerRole) : string :=
  match r with Human => "human" | Llm => "llm" | Unknown => "unknown" end.
Definition role_from_str_opt (s : string) : CallerRole :=
  if String.eqb s "human" then Human else if String.eqb s "llm" then Llm else Unknown.
Record IoCallContext : Type := mk_context {
  ctx_cause : FactId;
  v_trigger : Z;
  caller_role : CallerRole;
  cause_chain : list FactId;
  tenant_id : option string;
}.
Definition context_new (cause : FactId) (v_trigger : Z) (tenant_id : option string) : IoCallContext :=
  mk_context cause v_trigger Unknown [] tenant_id.

(** * Entries, [permission/entry.rs] *)

Inductive PermissionState : Type := Draft | Candidate | Active | Rejected.
Inductive Effect : Type := Allow | Deny.
Inductive SubjectType : Type := SUser | SRole | SRule | SLlmAgent | SAny.
Inductive ResourceType : Type := RFact | RIoAction | RApi | RShared.
#[export] Instance PermissionState_eq_dec : EqDecision PermissionState.
Proof. solve_decision. Defined.
#[export] Instance Effect_eq_dec : EqDecision Effect.
Proof. solve_decision. Defined.
Definition is_active (s : PermissionState) : bool := match s with Active => true | _ => false end.
Definition is_candidate (s : PermissionState) : bool := match s with Candidate => true | _ => false end.
Record Subject : Type := mk_subject { subject_type : SubjectType; subject_id : string }.
Definition subject_any : Subject := mk_subject SAny "".
Definition subject_human (name : string) : Subject := mk_subject SUser name.
Record Resource : Type := mk_resource { resource_type : ResourceType; resource_path : string }.
Record PermissionEntry (N : Type) : Type := mk_entry {
  e_id : string;
  e_version : Z;
  e_state : PermissionState;
  e_subject : Subject;
  e_resource : Resource;
  e_action : string;
  e_effect : Effect;
  e_conditions : option (SValue N);
  e_scope : option string;
  e_cause : option string;
  e_updated_by : string;
}.
Arguments mk_entry {N}.
Arguments e_id {N}.
Arguments e_version {N}.
Arguments e_state {N}.
Arguments e_subject {N}.
Arguments e_resource {N}.
Arguments e_action {N}.
Arguments e_effect {N}.
Arguments e_conditions {N}.
Arguments e_scope {N}.
Arguments e_cause {N}.
Arguments e_updated_by {N}.
Inductive PermissionError : Type :=
| PNotFound (id : string)
| PInvalidState (msg : string)
| PCondition (msg : string)
| PJson (e : string)
| PStore (msg : string).
(** The derived [Debug] of the states. *)
Definition state_debug (s : PermissionState) : string :=
  match s with
  | Draft => "Draft" | Candidate => "Candidate" | Active => "Active" | Rejected => "Rejected" end.

Section Entry.
Context {N : Type}.
Implicit Types e : PermissionEntry N.

Definition entry_new (id : string) (subject : Subject) (resource : Resource) (effect : Effect) :
    PermissionEntry N :=
  mk_entry id 1 Draft subject resource "*" effect None None None "unknown".
Definition with_state e (s : PermissionState) : PermissionEntry N :=
  mk_entry (e_id e) (e_version e) s (e_subject e) (e_resource e) (e_action e) (e_effect e)
    (e_conditions e) (e_scope e) (e_cause e) (e_updated_by e).
Definition with_id_version e (id : string) (v : Z) : PermissionEntry N :=
  mk_entry id v (e_state e) (e_subject e) (e_resource e) (e_action e) (e_effect e)
    (e_conditions e) (e_scope e) (e_cause e) (e_updated_by e).
Definition submit e : PermissionEntry N * Result unit PermissionError :=
  match e_state e with
  | Draft => (with_state e Candidate, Ok tt)
  | other =>
      (e, Err (PInvalidState ("only Draft can be submitted, current = " +:+ state_debug other)))
  end.
Definition review e (approve : bool) : PermissionEntry N * Result unit PermissionError :=
  match e_state e with
  | Candidate => (with_state e (if approve then Active else Rejected), Ok tt)
  | other =>
      (e, Err (PInvalidState ("only Candidate can be reviewed, current = " +:+ state_debug other)))
  end.
End Entry.

(** * The bridge to serde, [permission/mod.rs] *)

Section Bridge.
Context {N : Type} `{SerdeNumber N}.

Fixpoint permission_tcb_to_serde (v : JsonValue) : SValue N :=
  match v with
  | JNull => SNull
  | JBool b => SBool b
  | JInteger i => SNumber (num_from_i64 i)
  | JU64 v => SNumber (num_from_u64 v)
  | JString s => SString s
  | JArray a => SArray (map permission_tcb_to_serde a)
  | JObject m => s_object (map (fun kv => (fst kv, permission_tcb_to_serde (snd kv))) m)
  end.
(** A number that is no [i64] becomes null. *)
Fixpoint permission_serde_to_tcb (v : SValue N) : JsonValue :=
  match v with
  | SNull => JNull
  | SBool b => JBool b
  | SNumber n => match num_as_i64 n with Some i => JInteger i | None => JNull end
  | SString s => JString s
  | SArray a => JArray (map permission_serde_to_tcb a)
  | SObject o => JObject (map_from (map (fun kv => (fst kv, permission_serde_to_tcb (snd kv))) o))
  end.
End Bridge.

(** * Conditions, [permission/condition.rs] *)

Definition build_conditions_exec_state (ctx : IoCallContext) (payload : JsonValue) : JsonValue :=
  let c := map_new in
  let c := obj_insert c "cause" (JInteger (u64_as_i64 (ctx_cause ctx))) in
  let c := obj_insert c "v_trigger" (JInteger (u64_as_i64 (v_trigger ctx))) in
  let c := obj_insert c "caller_role" (JString (role_as_str (caller_role ctx))) in
  let c := match tenant_id ctx with
           | Some tenant => obj_insert c "tenant_id" (JString tenant) | None => c end in
  let inner := obj_insert map_new "ctx" (JObject c) in
  let inner := obj_insert inner "payload" payload in
  JObject (obj_insert map_new "__exec__" (JObject inner)).
(** [ConditionEvaluator::evaluate]. *)
Definition condition_evaluate {N} `{SerdeNumber N} (conditions : SValue N) (ctx : IoCallContext)
    (payload : JsonValue) : Result bool PermissionError :=
  match conditions with
  | SNull | SObject [] => Ok true
  | _ =>
      let domain := permission_serde_to_tcb conditions in
      let exec_state := build_conditions_exec_state ctx payload in
      match evaluate_domain domain exec_state with
      | Ok b => Ok b
      | Err e => Err (PCondition (tcb_error_display e))
      end
  end.

(** * The table, [permission/table.rs] *)

Definition ENTRY_PREFIX : string := "shared.__permission__.entry.".
Definition DEFAULT_POLICY_PATH : string := "shared.__permission__.default_policy".
Definition TOMBSTONE_KEY : string := "__deleted".
Record DefaultPolicy : Type := mk_policy { p_human : Effect; p_llm : Effect; p_unknown : Effect }.
Definition policy_default : DefaultPolicy := mk_policy Deny Deny Deny.
Inductive Verdict : Type := VAllow | VDeny | VCandidate.
#[export] Instance Verdict_eq_dec : EqDecision Verdict.
Proof. solve_decision. Defined.
Record PermissionTable (N : Type) : Type := mk_table {
  t_entries : list (PermissionEntry N);
  t_default_policy : DefaultPolicy;
  t_version : Z;
}.
Arguments mk_table {N}.
Arguments t_entries {N}.
Arguments t_default_policy {N}.
Arguments t_version {N}.
Definition table_empty {N} : PermissionTable N := mk_table [] policy_default 0.
Definition table_get {N} (t : PermissionTable N) (id : string) : option (PermissionEntry N) :=
  List.find (fun e => String.eqb (e_id e) id) (t_entries t).

(** The derived [serde] codecs of the entries and of the default policy. *)
Class PermissionCodec (N : Type) : Type := {
  entry_to_value : PermissionEntry N -> Result (SValue N) string;
  entry_from_value : SValue N -> Result (PermissionEntry N) string;
  policy_to_value : DefaultPolicy -> Result (SValue N) string;
  policy_from_value : SValue N -> Result DefaultPolicy string;
}.
(** A value the bridge keeps: integers in the range of [i64], objects in key
    order. *)
Fixpoint bridge_clean {N} `{SerdeNumber N} (v : SValue N) : bool :=
  match v with
  | SNumber n => match num_as_i64 n with Some _ => true | None => false end
  | SArray a => forallb bridge_clean a
  | SObject m => keys_sortedb m && forallb (fun kv => bridge_clean (snd kv)) m
  | _ => true
  end.
Definition clean_conditions {N} `{SerdeNumber N} (c : option (SValue N)) : bool :=
  match c with None => true | Some SNull => false | Some c => bridge_clean c end.
(** Documented: an entry is written as the object of its fields, and reading it
    back gives the entry; [null] for an optional field is read as [None]. *)
Class PermissionCodecLaws (N : Type) `{SerdeNumber N, !PermissionCodec N} : Prop := {
  entry_not_tombstone e v : entry_to_value e = Ok v -> s_get v TOMBSTONE_KEY = None;
  entry_value_clean e v :
    entry_to_value e = Ok v -> is_i64 (e_version e) = true -> clean_conditions (e_conditions e) = true ->
    bridge_clean v = true;
  entry_from_to e v :
    clean_conditions (e_conditions e) = true -> entry_to_value e = Ok v -> entry_from_value v = Ok e;
}.

Definition subject_matches (subject : Subject) (role_key : string) : bool :=
  (match subject_type subject with SAny => true | _ => false end)
  || String.eqb (subject_id subject) role_key.
Definition action_matches (rule_action action : string) : bool :=
  String.eqb rule_action "*" || String.eqb rule_action action.
Definition resource_matches (resource : Resource) (target : string) : bool :=
  let pattern := resource_path resource in
  if str_is_empty pattern then false
  else
    match strip_suffix_char "*" pattern with
    | Some prefix => starts_with prefix target
    | None => String.eqb target pattern
    end.

Section Table.
Context {N S M : Type}.
Context `{SerdeNumber N, SerdeText N, Blake3, FactWalStore S, MetadataCodec, MetadataFile M, Ed25519}.
Context `{!PermissionCodec N}.

(** The first loop of [snapshot_at]: the latest version of each entry. *)
Definition entry_key (path : string) : string :=
  strip_all (String.length path) [ENTRY_PREFIX] path.
Fixpoint latest_entries (v_shared : Z) (latest : ObjectMap (Z * JsonValue)) (facts : list SharedFact) :
    ObjectMap (Z * JsonValue) :=
  match facts with
  | [] => latest
  | fact :: rest =>
      if (v_shared <=? sf_version fact)%Z then latest_entries v_shared latest rest
      else
        let id := entry_key (sf_path fact) in
        let latest :=
          match map_get latest id with
          | Some (prev_v, _) =>
              if (sf_version fact <=? prev_v)%Z then latest
              else obj_insert latest id (sf_version fact, sf_value fact)
          | None => obj_insert latest id (sf_version fact, sf_value fact)
          end in
        latest_entries v_shared latest rest
  end.
Definition is_tombstone (v : SValue N) : bool :=
  match s_get v TOMBSTONE_KEY with
  | Some b => match s_as_bool b with Some true => true | _ => false end
  | None => false
  end.
(** The second loop. *)
Fixpoint build_entries (latest : ObjectMap (Z * JsonValue)) :
    Result (list (PermissionEntry N)) PermissionError :=
  match latest with
  | [] => Ok []
  | (id, (fact_version, value)) :: rest =>
      let serde_value := permission_tcb_to_serde value in
      if is_tombstone serde_value then build_entries rest
      else
        match entry_from_value serde_value with
        | Err e => Err (PJson e)
        | Ok entry =>
            let? entries := build_entries rest in
            Ok (with_id_version entry id fact_version :: entries)
        end
  end.
(** [Iterator::max_by_key]: the last of the maximal elements. *)
Definition max_by_version (facts : list SharedFact) : option SharedFact :=
  fold_left (fun best f =>
    match best with
    | Some b => if (sf_version b <=? sf_version f)%Z then Some f else best
    | None => Some f
    end) facts None.
Definition load_default_policy (log : SharedFactsLog S M) (v_shared : Z) : DefaultPolicy :=
  let latest :=
    max_by_version
      (List.filter
         (fun f => (sf_version f <=? v_shared)%Z && String.eqb (sf_path f) DEFAULT_POLICY_PATH)
         (shared_facts_by_path_prefix log DEFAULT_POLICY_PATH)) in
  match latest with
  | Some f =>
      match policy_from_value (permission_tcb_to_serde (sf_value f)) with
      | Ok p => p
      | Err _ => policy_default
      end
  | None => policy_default
  end.
Definition snapshot_at (log : SharedFactsLog S M) (v_shared : Z) :
    Result (PermissionTable N) PermissionError :=
  let latest := latest_entries v_shared map_new (shared_facts_by_path_prefix log ENTRY_PREFIX) in
  let? entries := build_entries latest in
  Ok (mk_table entries (load_default_policy log v_shared) v_shared).

Definition entry_matches (e : PermissionEntry N) (role_key resource action : string) : bool :=
  subject_matches (e_subject e) role_key && action_matches (e_action e) action
  && resource_matches (e_resource e) resource.
(** The loop of [evaluate]: [inl] is a return from inside it, [inr] the flags
    [allowed] and [candidate] it leaves. *)
Fixpoint evaluate_entries (ctx : IoCallContext) (resource action : string) (payload : JsonValue)
    (entries : list (PermissionEntry N)) (allowed candidate : bool) : Verdict + bool * bool :=
  match entries with
  | [] => inr (allowed, candidate)
  | e :: rest =>
      let role_key := role_as_str (caller_role ctx) in
      if is_candidate (e_state e) then
        evaluate_entries ctx resource action payload rest allowed
          (if entry_matches e role_key resource action then true else candidate)
      else if negb (is_active (e_state e)) then
        evaluate_entries ctx resource action payload rest allowed candidate
      else if negb (entry_matches e role_key resource action) then
        evaluate_entries ctx resource action payload rest allowed candidate
      else
        match (match e_conditions e with
               | None => Ok true
               | Some c => condition_evaluate c ctx payload
               end) with
        | Err _ => inl VDeny
        | Ok false => evaluate_entries ctx resource action payload rest allowed candidate
        | Ok true =>
            match e_effect e with
            | Deny => inl VDeny
            | Allow => evaluate_entries ctx resource action payload rest true candidate
            end
        end
  end.
Definition default_effect (p : DefaultPolicy) (role : CallerRole) : Effect :=
  match role with Human => p_human p | Llm => p_llm p | Unknown => p_unknown p end.
Definition table_evaluate (t : PermissionTable N) (ctx : IoCallContext) (resource action : string)
    (payload : option JsonValue) : Verdict :=
  let payload := default JNull payload in
  match evaluate_entries ctx resource action payload (t_entries t) false false with
  | inl v => v
  | inr (allowed, candidate) =>
      if allowed then VAllow
      else if candidate then VCandidate
      else match default_effect (t_default_policy t) (caller_role ctx) with
           | Allow => VAllow | Deny => VDeny end
  end.

(** Writing: every change is an append to the shared log. *)
Definition path_for (prefix id : string) : string := prefix +:+ id.
Definition store_result (r : SharedFactsLog S M * Result Z FactsLogError) :
    SharedFactsLog S M * Result Z PermissionError :=
  (fst r, match snd r with Ok v => Ok v | Err e => Err (PStore (facts_log_error_display e)) end).
Definition store_entry (log : SharedFactsLog S M) (entry : PermissionEntry N) (session_id : Z) :
    SharedFactsLog S M * Result Z PermissionError :=
  match entry_to_value entry with
  | Err e => (log, Err (PJson e))
  | Ok v =>
      store_result (shared_append (N := N) log (path_for ENTRY_PREFIX (e_id entry))
                      (permission_serde_to_tcb v) session_id)
  end.
Definition remove_entry (log : SharedFactsLog S M) (id : string) (session_id : Z) :
    SharedFactsLog S M * Result unit PermissionError :=
  let value : JsonValue := permission_serde_to_tcb (N := N) (s_object [(TOMBSTONE_KEY, SBool true)]) in
  let '(log, r) := store_result (shared_append (N := N) log (path_for ENTRY_PREFIX id) value session_id) in
  (log, result_map (fun _ => tt) r).
Definition set_default_policy (log : SharedFactsLog S M) (policy : DefaultPolicy) (session_id : Z) :
    SharedFactsLog S M * Result Z PermissionError :=
  match policy_to_value policy with
  | Err e => (log, Err (PJson e))
  | Ok v =>
      store_result (shared_append (N := N) log DEFAULT_POLICY_PATH (permission_serde_to_tcb v) session_id)
  end.
End Table.

(** * A concrete codec, for the examples *)

Module ZPermission.
Import ZNumber ZText.
Definition of_state (s : PermissionState) : nat :=
  match s with Draft => 0 | Candidate => 1 | Active => 2 | Rejected => 3 end.
Definition to_state (n : nat) : PermissionState :=
  match n with 0 => Draft | 1 => Candidate | 2 => Active | _ => Rejected end%nat.
Definition of_effect (e : Effect) : bool := match e with Allow => true | Deny => false end.
Definition to_effect (b : bool) : Effect := if b then Allow else Deny.
Definition of_subject (s : SubjectType) : nat :=
  match s with SUser => 0 | SRole => 1 | SRule => 2 | SLlmAgent => 3 | SAny => 4 end.
Definition to_subject (n : nat) : SubjectType :=
  match n with 0 => SUser | 1 => SRole | 2 => SRule | 3 => SLlmAgent | _ => SAny end%nat.
Definition of_resource (r : ResourceType) : nat :=
  match r with RFact => 0 | RIoAction => 1 | RApi => 2 | RShared => 3 end.
Definition to_resource (n : nat) : ResourceType :=
  match n with 0 => RFact | 1 => RIoAction | 2 => RApi | _ => RShared end%nat.
Definition of_option (o : option string) : SValue Z :=
  match o with Some s => SString s | None => SNull end.
Definition to_option (v : SValue Z) : option string := s_as_str v.
Definition of_conditions (c : option (SValue Z)) : SValue Z := default SNull c.
Definition to_conditions (v : SValue Z) : option (SValue Z) :=
  match v with SNull => None | _ => Some v end.
Definition s_nat (n : nat) : SValue Z := SNumber (Z.of_nat n).
Definition of_entry (e : PermissionEntry Z) : SValue Z :=
  SArray
    [SString (e_id e); SNumber (e_version e); s_nat (of_state (e_state e));
     s_nat (of_subject (subject_type (e_subject e))); SString (subject_id (e_subject e));
     s_nat (of_resource (resource_type (e_resource e))); SString (resource_path (e_resource e));
     SString (e_action e); SBool (of_effect (e_effect e)); of_conditions (e_conditions e);
     of_option (e_scope e); of_option (e_cause e); SString (e_updated_by e)].
Definition to_entry (v : SValue Z) : Result (PermissionEntry Z) string :=
  match v with
  | SArray [SString i; SNumber v; SNumber s; SNumber st; SString si; SNumber rt; SString rp; SString a;
            SBool ef; c; sc; ca; SString u] =>
      Ok (mk_entry i v (to_state (Z.to_nat s)) (mk_subject (to_subject (Z.to_nat st)) si)
            (mk_resource (to_resource (Z.to_nat rt)) rp) a (to_effect ef) (to_conditions c)
            (to_option sc) (to_option ca) u)
  | _ => Err "invalid"
  end.
Definition of_policy (p : DefaultPolicy) : SValue Z :=
  SArray [SBool (of_effect (p_human p)); SBool (of_effect (p_llm p)); SBool (of_effect (p_unknown p))].
Definition to_policy (v : SValue Z) : Result DefaultPolicy string :=
  match v with
  | SArray [SBool h; SBool l; SBool u] => Ok (mk_policy (to_effect h) (to_effect l) (to_effect u))
  | _ => Err "invalid"
  end.
#[export] Instance codec : PermissionCodec Z := {|
  entry_to_value := fun e => Ok (of_entry e);
  entry_from_value := to_entry;
  policy_to_value := fun p => Ok (of_policy p);
  policy_from_value := to_policy;
|}.
#[export] Instance codec_laws : PermissionCodecLaws Z.
Proof.
  split.
  - by intros e v [= <-].
  - intros e v [= <-] Hv Hc. unfold of_entry. cbn [bridge_clean forallb]. cbn [num_as_i64 ZNumber.number].
    rewrite Hv. destruct e as [i v s [st si] [rt rp] a ef c sc ca u]. cbn in *.
    destruct c as [c|]; [destruct c|]; cbn in *; rewrite ?Hc; by destruct s, st, rt, sc, ca.
  - intros e v Hc [= <-]. destruct e as [i v s [st si] [rt rp] a ef c sc ca u]. cbn in *.
    destruct c as [c|]; [destruct c|]; cbn in *; by destruct s, st, rt, ef, sc, ca.
Qed.
End ZPermission.
