(* ===== verification/Gate.v ===== *)
(** The permission gate, [evorule-governance/src/permission/gate.rs] and
    [route_policy.rs]: the static routing layer that can only tighten, then the
    permission table at the frozen version of the shared log. *)

From S2P Require Import Prelude ObjectMap Value Error Path Domain Executor ExecSemantics Transition Fact Serde Hash Wal WalFile FactsLog Signing SharedLog Permission.

(** * The static routing policy, [route_policy.rs] *)

Inductive RouteDecision : Type := RtAllow | RtDeny | RtAsk.
#[export] Instance RouteDecision_eq_dec : EqDecision RouteDecision.
Proof. solve_decision. Defined.
Definition decision_debug (d : RouteDecision) : string :=
  match d with RtAllow => "Allow" | RtDeny => "Deny" | RtAsk => "Ask" end.
Record PerRoleDefault : Type := mk_per_role {
  d_human : RouteDecision; d_llm : RouteDecision; d_unknown : RouteDecision }.
Definition per_role_default : PerRoleDefault := mk_per_role RtAllow RtAllow RtAllow.
Record RouteRule : Type := mk_rule {
  r_caller_role : string; r_io_type : string; r_target : string; r_decision : RouteDecision }.
(** [AskFallback] is its one field, [unattended]. *)
Record RoutePolicy : Type := mk_route_policy {
  rp_version : Z;
  rp_default : PerRoleDefault;
  rp_unattended : RouteDecision;
  rp_rules : list RouteRule;
}.
(** [RoutePolicyError]. *)
Inductive RoutePolicyError : Type :=
| RpJson (e : string)
| RpInvalid (msg : string).

Fixpoint validate_rules (i : nat) (rules : list RouteRule) : Result unit RoutePolicyError :=
  match rules with
  | [] => Ok tt
  | r :: rest =>
      if str_is_empty (r_caller_role r) || str_is_empty (r_io_type r) || str_is_empty (r_target r) then
        Err (RpInvalid ("rule[" +:+ pretty (N.of_nat i)
               +:+ "] has empty field (caller_role/io_type/target must be non-empty)"))
      else validate_rules (S i) rest
  end.
Definition validate (p : RoutePolicy) : Result unit RoutePolicyError :=
  if negb (rp_version p =? 1)%Z then
    Err (RpInvalid ("unsupported schema version: " +:+ pretty (rp_version p)))
  else if negb (bool_decide (rp_unattended p = RtDeny)) then
    Err (RpInvalid ("ask_fallback.unattended only allows 'deny', got "
                    +:+ decision_debug (rp_unattended p)))
  else validate_rules 0 (rp_rules p).
(** [serde_json::from_str::<RoutePolicy>], the derived reader. *)
Class RoutePolicyText : Type := { route_policy_from_str : string -> Result RoutePolicy string }.
Definition from_json_str `{RoutePolicyText} (text : string) : Result RoutePolicy RoutePolicyError :=
  match route_policy_from_str text with
  | Err e => Err (RpJson e)
  | Ok policy => let? _u := validate policy in Ok policy
  end.

Definition role_matches (pattern role : string) : bool :=
  String.eqb pattern "*" || String.eqb pattern role.
Definition pattern_matches (pattern value : string) : bool :=
  if String.eqb pattern "*" then true
  else
    match strip_suffix_char "*" pattern with
    | Some prefix => starts_with prefix value
    | None => String.eqb pattern value
    end.
Definition rule_matches (r : RouteRule) (caller_role io_type target : string) : bool :=
  role_matches (r_caller_role r) caller_role && pattern_matches (r_io_type r) io_type
  && pattern_matches (r_target r) target.
Definition decide_default (d : PerRoleDefault) (caller_role : string) : RouteDecision :=
  if String.eqb caller_role "human" then d_human d
  else if String.eqb caller_role "llm" then d_llm d
  else d_unknown d.
Definition route_decide (p : RoutePolicy) (caller_role io_type target : string) : RouteDecision :=
  match List.find (fun r => rule_matches r caller_role io_type target) (rp_rules p) with
  | Some r => r_decision r
  | None => decide_default (rp_default p) caller_role
  end.

(** * The gate, [gate.rs] *)

(** [struct PermissionGate]; the shared log it holds behind an [Arc] is an
    argument of its methods. *)
Record PermissionGate : Type := mk_gate {
  resource_prefix : string;
  caller_role_resolver : option (IoCallContext -> CallerRole);
  route_policy : option RoutePolicy;
}.
Definition gate_new : PermissionGate := mk_gate "io:" None None.
Definition with_caller_role_resolver (g : PermissionGate) (resolver : IoCallContext -> CallerRole) :
    PermissionGate := mk_gate (resource_prefix g) (Some resolver) (route_policy g).
Definition with_route_policy (g : PermissionGate) (policy : RoutePolicy) : PermissionGate :=
  mk_gate (resource_prefix g) (caller_role_resolver g) (Some policy).
Definition with_resource_prefix (g : PermissionGate) (prefix : string) : PermissionGate :=
  mk_gate prefix (caller_role_resolver g) (route_policy g).

Section Gate.
Context {N S M : Type}.
Context `{SerdeNumber N, SerdeText N, Blake3, FactWalStore S, MetadataCodec, MetadataFile M, Ed25519}.
Context `{!PermissionCodec N}.

(** The assignments to the context. *)
Definition set_role (ctx : IoCallContext) (role : CallerRole) : IoCallContext :=
  mk_context (ctx_cause ctx) (v_trigger ctx) role (cause_chain ctx) (tenant_id ctx).
Definition set_v_trigger (ctx : IoCallContext) (v : Z) : IoCallContext :=
  mk_context (ctx_cause ctx) v (caller_role ctx) (cause_chain ctx) (tenant_id ctx).
Definition frozen_context (g : PermissionGate) (log : SharedFactsLog S M) (ctx : IoCallContext) :
    IoCallContext :=
  let ctx := match caller_role_resolver g with
             | Some resolver => set_role ctx (resolver ctx) | None => ctx end in
  set_v_trigger ctx (shared_version log).

(** The static layer: a final denial with its route, or nothing. *)
Definition route_gate (g : PermissionGate) (ctx : IoCallContext) (io_type : string)
    (payload : option JsonValue) : option string :=
  match route_policy g with
  | None => None
  | Some policy =>
      let target :=
        default "" (let! p := payload in let! t := json_get p "target" in as_str t) in
      match route_decide policy (role_as_str (caller_role ctx)) io_type target with
      | RtDeny => Some "deny"
      | RtAsk => match caller_role ctx with Human => None | _ => Some "ask-fallback" end
      | RtAllow => None
      end
  end.
(** [check_routed]: the context it leaves, the verdict and the route. *)
Definition check_routed (g : PermissionGate) (log : SharedFactsLog S M) (ctx : IoCallContext)
    (io_type : string) (payload : option JsonValue) : IoCallContext * (Verdict * option string) :=
  let ctx := frozen_context g log ctx in
  (ctx,
   match route_gate g ctx io_type payload with
   | Some route => (VDeny, Some route)
   | None =>
       match snapshot_at (N := N) log (v_trigger ctx) with
       | Err _ => (VDeny, None)
       | Ok table =>
           let resource := resource_prefix g +:+ io_type in
           (table_evaluate table ctx resource "io" payload, None)
       end
   end).
Definition check (g : PermissionGate) (log : SharedFactsLog S M) (ctx : IoCallContext)
    (io_type : string) (payload : option JsonValue) : IoCallContext * Verdict :=
  let '(ctx, (verdict, _)) := check_routed g log ctx io_type payload in (ctx, verdict).
Definition gate_version (g : PermissionGate) (log : SharedFactsLog S M) : Z := shared_version log.
End Gate.
