(* ===== verification/PermissionSpec.v ===== *)
(** Theorems about permissions: deny-overrides whatever the order of the
    entries, the snapshot as the last writes before a version and its
    stability, and the soundness of the gate. *)

From stdpp Require Import sorting.
From S2P Require Import Prelude ObjectMap Value Error Path Domain Executor ExecSemantics Transition Fact Serde Hash Wal WalFile FactsLog FactsLogSpec Signing SharedLog SharedLogSpec Permission Gate.

(** * Deny overrides *)

Section Decision.
Context {N : Type} `{SerdeNumber N}.
Context (ctx : IoCallContext) (resource action : string) (payload : JsonValue).
Implicit Types (e : PermissionEntry N) (es : list (PermissionEntry N)).

Definition matches e : bool := entry_matches e (role_as_str (caller_role ctx)) resource action.
Definition condition_of e : Result bool PermissionError :=
  match e_conditions e with None => Ok true | Some c => condition_evaluate c ctx payload end.
(** An active matching entry denies when its condition cannot be evaluated, or
    holds and its effect is to deny; it grants when its condition holds and
    its effect is to allow. *)
Definition denies e : bool :=
  is_active (e_state e) && matches e &&
  match condition_of e with Err _ => true | Ok b => b && bool_decide (e_effect e = Deny) end.
Definition grants e : bool :=
  is_active (e_state e) && matches e &&
  match condition_of e with Err _ => false | Ok b => b && bool_decide (e_effect e = Allow) end.
Definition pending e : bool := is_candidate (e_state e) && matches e.

Definition decision es (fallback : Effect) : Verdict :=
  if existsb denies es then VDeny
  else if existsb grants es then VAllow
  else if existsb pending es then VCandidate
  else match fallback with Allow => VAllow | Deny => VDeny end.

Lemma evaluate_entries_spec es allowed candidate :
  evaluate_entries ctx resource action payload es allowed candidate =
  if existsb denies es then inl VDeny
  else inr (allowed || existsb grants es, candidate || existsb pending es).
Proof.
  revert allowed candidate. induction es as [|e es IH]; intros allowed candidate; cbn.
  { by rewrite !orb_false_r. }
  unfold denies at 1, grants at 1, pending at 1. fold (matches e).
  destruct (e_state e) eqn:Est; cbn [is_active is_candidate negb andb orb]; try apply IH.
  - rewrite IH. destruct (existsb denies es); [done|]. by destruct (matches e), candidate.
  - destruct (matches e); cbn [negb andb orb]; [|apply IH].
    unfold condition_of. destruct (match e_conditions e with None => _ | Some c => _ end) as [[|]|err];
      cbn; [|apply IH|done].
    destruct (e_effect e); cbn; [|done]. rewrite IH. destruct (existsb denies es); [done|].
    by rewrite orb_true_r.
Qed.
Lemma existsb_Permutation {A} (p : A -> bool) l k : l ≡ₚ k -> existsb p l = existsb p k.
Proof.
  induction 1 as [|x l k _ IH|x y l|l k j _ IH1 _ IH2]; cbn; [done|by rewrite IH| |congruence].
  by destruct (p x), (p y).
Qed.
Lemma decision_Permutation es1 es2 fallback :
  es1 ≡ₚ es2 -> decision es1 fallback = decision es2 fallback.
Proof. intros Hp. unfold decision. by rewrite !(existsb_Permutation _ _ _ Hp). Qed.
End Decision.

Lemma table_evaluate_decision {N} `{SerdeNumber N} (t : PermissionTable N) ctx resource action payload :
  table_evaluate t ctx resource action payload =
  decision ctx resource action (default JNull payload) (t_entries t)
    (default_effect (t_default_policy t) (caller_role ctx)).
Proof.
  unfold table_evaluate, decision. rewrite evaluate_entries_spec. cbn [orb].
  by destruct (existsb _ _).
Qed.

(** Deny overrides, in any order.  The verdict of [PermissionTable::evaluate]
    is a denial when some active matching entry denies, or has a condition
    that cannot be evaluated; otherwise permission when some active matching
    entry whose condition holds allows; otherwise pending when some candidate
    entry matches; otherwise the default of the caller's role.  It does not
    depend on the order of the entries, and a draft or rejected entry has no
    influence. *)
Lemma table_deny_overrides {N} `{SerdeNumber N} (t1 t2 : PermissionTable N)
    (ctx : IoCallContext) (resource action : string) (payload : option JsonValue) :
  let live e := is_active (e_state e) || is_candidate (e_state e) in
  List.filter live (t_entries t1) ≡ₚ List.filter live (t_entries t2) ->
  t_default_policy t1 = t_default_policy t2 ->
  table_evaluate t1 ctx resource action payload =
    decision ctx resource action (default JNull payload) (t_entries t1)
      (default_effect (t_default_policy t1) (caller_role ctx)) /\
  table_evaluate t1 ctx resource action payload = table_evaluate t2 ctx resource action payload.
Proof.
  intros live Hp Hd. split; [apply table_evaluate_decision|].
  rewrite !table_evaluate_decision, <- Hd.
  assert (forall es, decision ctx resource action (default JNull payload) (List.filter live es)
      (default_effect (t_default_policy t1) (caller_role ctx)) =
    decision ctx resource action (default JNull payload) es
      (default_effect (t_default_policy t1) (caller_role ctx))) as Hlive.
  { intros es. assert (forall p : PermissionEntry N -> bool, (forall e, live e = false -> p e = false) ->
      existsb p (List.filter live es) = existsb p es) as Hex.
    { intros p Hlp. induction es as [|e es IH]; cbn; [done|].
      destruct (live e) eqn:E; cbn; rewrite IH; [done|]. by rewrite (Hlp e E). }
    unfold decision. rewrite !Hex; [done|..]; unfold live, denies, grants, pending; intros e;
      by destruct (e_state e). }
  rewrite <- (Hlive (t_entries t1)), <- (Hlive (t_entries t2)). by apply decision_Permutation.
Qed.

(** * The snapshot is the last writes *)

(** The writes a snapshot at [v] sees: permission facts before [v] that are
    not rolled up, in the order of the log. *)
Definition seen (rolled : gset Z) (prefix : string) (f : SharedFact) : bool :=
  starts_with prefix (sf_path f) && negb (bool_decide (sf_fact_id f ∈ rolled)).
Definition last_writes (rolled : gset Z) (v : Z) (facts : list SharedFact) : ObjectMap (Z * JsonValue) :=
  fold_left (fun m f => obj_insert m (entry_key (sf_path f)) (sf_version f, sf_value f))
    (List.filter (fun f => seen rolled ENTRY_PREFIX f && (sf_version f <? v)%Z) facts) map_new.
Definition last_policy (rolled : gset Z) (v : Z) (facts : list SharedFact) : option SharedFact :=
  last (List.filter (fun f => seen rolled DEFAULT_POLICY_PATH f && (sf_version f <=? v)%Z
                              && String.eqb (sf_path f) DEFAULT_POLICY_PATH) facts).
Definition policy_of {N} `{SerdeNumber N, !PermissionCodec N} (f : option SharedFact) : DefaultPolicy :=
  match f with
  | Some f => match policy_from_value (permission_tcb_to_serde (sf_value f)) with
              | Ok p => p | Err _ => policy_default end
  | None => policy_default
  end.
Definition snapshot_of {N} `{SerdeNumber N, !PermissionCodec N} (rolled : gset Z) (v : Z)
    (facts : list SharedFact) : Result (PermissionTable N) PermissionError :=
  let? entries := build_entries (last_writes rolled v facts) in
  Ok (mk_table entries (policy_of (last_policy rolled v facts)) v).

(** One write of [latest_entries], and the whole loop as a fold. *)
Definition keep_newer (m : ObjectMap (Z * JsonValue)) (f : SharedFact) : ObjectMap (Z * JsonValue) :=
  match map_get m (entry_key (sf_path f)) with
  | Some (prev_v, _) =>
      if (sf_version f <=? prev_v)%Z then m
      else obj_insert m (entry_key (sf_path f)) (sf_version f, sf_value f)
  | None => obj_insert m (entry_key (sf_path f)) (sf_version f, sf_value f)
  end.
Lemma latest_entries_fold v m l :
  latest_entries v m l = fold_left keep_newer (List.filter (fun f => (sf_version f <? v)%Z) l) m.
Proof.
  revert m. induction l as [|f l IH]; intros m; cbn; [done|].
  destruct (Z.leb_spec v (sf_version f)), (Z.ltb_spec (sf_version f) v); try lia; cbn; [apply IH|].
  rewrite IH. unfold keep_newer at 3. by destruct (map_get m _) as [[]|].
Qed.

Lemma keep_newer_sorted m f : keys_sorted m -> keys_sorted (keep_newer m f).
Proof.
  intros Hm. unfold keep_newer. destruct (map_get m _) as [[pv x]|]; [|by apply obj_insert_sorted].
  destruct (_ <=? _)%Z; [done|by apply obj_insert_sorted].
Qed.
(** What the loop keeps under a key: the value with the greatest version. *)
Definition newest (m : ObjectMap (Z * JsonValue)) (l : list SharedFact) (k : string) (o : option (Z * JsonValue)) : Prop :=
  match o with
  | None => map_get m k = None /\ forall f, In f l -> entry_key (sf_path f) <> k
  | Some (v, x) =>
      (map_get m k = Some (v, x) \/ exists f, In f l /\ entry_key (sf_path f) = k /\ sf_version f = v /\ sf_value f = x) /\
      (forall w y, map_get m k = Some (w, y) -> (w <= v)%Z) /\
      forall f, In f l -> entry_key (sf_path f) = k -> (sf_version f <= v)%Z
  end.
Lemma fold_newest l m k :
  keys_sorted m -> newest m l k (map_get (fold_left keep_newer l m) k).
Proof.
  revert m. induction l as [|f l IH]; intros m Hm; cbn [fold_left].
  { unfold newest. destruct (map_get m k) as [[v x]|] eqn:E; [|done].
    split_and!; [by left|by intros w y [= <- <-]|done]. }
  specialize (IH (keep_newer m f) (keep_newer_sorted m f Hm)).
  assert (map_get (keep_newer m f) k =
    if decide (entry_key (sf_path f) = k) then
      match map_get m k with
      | Some (pv, x) => if (sf_version f <=? pv)%Z then Some (pv, x) else Some (sf_version f, sf_value f)
      | None => Some (sf_version f, sf_value f)
      end
    else map_get m k) as Hget.
  { unfold keep_newer. destruct (decide (entry_key (sf_path f) = k)) as [->|Hne].
    - destruct (map_get m k) as [[pv x]|] eqn:E; [|by rewrite map_get_insert_eq].
      destruct (_ <=? _)%Z; [done|by rewrite map_get_insert_eq].
    - destruct (map_get m (entry_key (sf_path f))) as [[pv x]|]; [destruct (_ <=? _)%Z; [done|]|];
        by rewrite map_get_insert_ne. }
  unfold newest in *. rewrite Hget in IH. clear Hget.
  destruct (map_get (fold_left keep_newer l (keep_newer m f)) k) as [[v x]|].
  - destruct IH as (Hin & Hle & Hl). destruct (decide (entry_key (sf_path f) = k)) as [Hk|Hk].
    + destruct (map_get m k) as [[pv px]|] eqn:E.
      * destruct (Z.leb_spec (sf_version f) pv) as [Hlt|Hlt].
        -- specialize (Hle pv px eq_refl) as Hpv. split_and!.
           ++ destruct Hin as [Hin|(g & Hg & Hin)]; [by left|right; exists g; split; [by right|done]].
           ++ intros w y [= <- <-]. done.
           ++ intros g [<-|Hg] Hgk; [lia|by apply Hl].
        -- specialize (Hle _ _ eq_refl) as Hpv. split_and!.
           ++ right. destruct Hin as [[= <- <-]|(g & Hg & Hin)];
                [exists f; split_and!; [by left|done..]|exists g; split; [by right|done]].
           ++ intros w y [= <- <-]. lia.
           ++ intros g [<-|Hg] Hgk; [lia|by apply Hl].
      * specialize (Hle _ _ eq_refl) as Hpv. split_and!.
        -- right. destruct Hin as [[= <- <-]|(g & Hg & Hin)];
             [exists f; split_and!; [by left|done..]|exists g; split; [by right|done]].
        -- done.
        -- intros g [<-|Hg] Hgk; [lia|by apply Hl].
    + split_and!; [|done|].
      * destruct Hin as [Hin|(g & Hg & Hin)]; [by left|right; exists g; split; [by right|done]].
      * intros g [<-|Hg] Hgk; [done|by apply Hl].
  - destruct IH as [Hn Hl]. destruct (decide (entry_key (sf_path f) = k)) as [Hk|Hk].
    + destruct (map_get m k) as [[pv px]|]; [destruct (_ <=? _)%Z|]; done.
    + split; [done|]. intros g [<-|Hg]; [done|by apply Hl].
Qed.

(** Versions identify facts. *)
Definition versions_inj (l : list SharedFact) : Prop :=
  forall f g, In f l -> In g l -> sf_version f = sf_version g -> f = g.
Definition versions_increase (l : list SharedFact) : Prop := StronglySorted Z.lt (map sf_version l).
Lemma fold_newer_sorted l m : keys_sorted m -> keys_sorted (fold_left keep_newer l m).
Proof. revert m. induction l as [|f l IH]; cbn; intros m Hm; [done|]. by apply IH, keep_newer_sorted. Qed.
Lemma sorted_get_ext {A} (m1 m2 : ObjectMap A) :
  keys_sorted m1 -> keys_sorted m2 -> (forall k, map_get m1 k = map_get m2 k) -> m1 = m2.
Proof.
  intros Hs1 Hs2 Hg. apply keys_sorted_ext; [done..|]. apply map_eq. intros k.
  by rewrite <- !map_get_to_gmap.
Qed.
Lemma fold_newer_Permutation l1 l2 :
  l1 ≡ₚ l2 -> versions_inj l1 -> fold_left keep_newer l1 map_new = fold_left keep_newer l2 map_new.
Proof.
  intros Hp Hinj. apply sorted_get_ext; [apply fold_newer_sorted, keys_sorted_nil..|]. intros k.
  pose proof (fold_newest l1 map_new k keys_sorted_nil) as H1'.
  pose proof (fold_newest l2 map_new k keys_sorted_nil) as H2'.
  assert (forall f, In f l1 <-> In f l2) as Hin.
  { intros f. split; apply Permutation_in; [done|by symmetry]. }
  unfold newest in *.
  destruct (map_get (fold_left keep_newer l1 map_new) k) as [[v x]|], (map_get (fold_left keep_newer l2 map_new) k) as [[w y]|].
  - destruct H1' as ([?|(f & Hf & Hfk & <- & <-)] & _ & Hm1); [done|].
    destruct H2' as ([?|(g & Hg & Hgk & <- & <-)] & _ & Hm2); [done|].
    pose proof (Hm1 g (proj2 (Hin g) Hg) Hgk). pose proof (Hm2 f (proj1 (Hin f) Hf) Hfk).
    by rewrite (Hinj f g Hf (proj2 (Hin g) Hg) ltac:(lia)).
  - destruct H1' as ([?|(f & Hf & Hfk & _)] & _); [done|]. destruct H2' as [_ Hn].
    by apply Hin, Hn in Hf.
  - destruct H2' as ([?|(f & Hf & Hfk & _)] & _); [done|]. destruct H1' as [_ Hn].
    by apply Hin, Hn in Hf.
  - done.
Qed.
Lemma fold_newer_inserts l m :
  versions_increase l -> keys_sorted m ->
  (forall k w y f, map_get m k = Some (w, y) -> In f l -> (w < sf_version f)%Z) ->
  fold_left keep_newer l m =
  fold_left (fun m f => obj_insert m (entry_key (sf_path f)) (sf_version f, sf_value f)) l m.
Proof.
  revert m. induction l as [|f l IH]; intros m Hs Hsm Hm; cbn [fold_left]; [done|].
  assert (keep_newer m f = obj_insert m (entry_key (sf_path f)) (sf_version f, sf_value f)) as ->.
  { unfold keep_newer. destruct (map_get m (entry_key (sf_path f))) as [[w y]|] eqn:E; [|done].
    specialize (Hm _ w y f E (or_introl eq_refl)). by rewrite (proj2 (Z.leb_gt _ _)). }
  inv Hs as [|? ? Hs' Hf]. apply IH; [done|by apply obj_insert_sorted|]. intros k w y g Hget Hg.
  rewrite Forall_forall in Hf.
  assert (sf_version f < sf_version g)%Z as Hlt.
  { apply Hf. apply list_elem_of_In. by apply in_map. }
  destruct (decide (k = entry_key (sf_path f))) as [->|Hne].
  - rewrite map_get_insert_eq in Hget. by injection Hget as <- <-.
  - rewrite map_get_insert_ne in Hget by done. eapply Hm; [exact Hget|by right].
Qed.

(** [max_by_key] on distinct versions is the last of the list in order. *)
Definition is_max (l : list SharedFact) (o : option SharedFact) : Prop :=
  match o with
  | None => l = []
  | Some b => In b l /\ forall f, In f l -> (sf_version f <= sf_version b)%Z
  end.
Lemma is_max_unique l1 l2 o1 o2 :
  l1 ≡ₚ l2 -> versions_inj l1 -> is_max l1 o1 -> is_max l2 o2 -> o1 = o2.
Proof.
  intros Hp Hinj. assert (forall f, In f l2 -> In f l1) as Hin by (intros f; apply Permutation_in; by symmetry).
  destruct o1 as [b1|], o2 as [b2|]; cbn; [|..|done].
  - intros [Hb1 Hm1] [Hb2 Hm2]. f_equal. apply Hinj; [done|by apply Hin|].
    pose proof (Hm1 b2 (Hin b2 Hb2)). pose proof (Hm2 b1 ltac:(by eapply Permutation_in)). lia.
  - intros [Hb1 _] ->. apply Permutation_sym, Permutation_nil_l in Hp. by subst.
  - intros -> [Hb2 _]. by apply Hin in Hb2.
Qed.
Lemma max_by_version_max l : is_max l (max_by_version l).
Proof.
  unfold max_by_version.
  assert (forall acc pre, is_max pre acc -> is_max (pre ++ l) (fold_left (fun best f =>
    match best with
    | Some b => if (sf_version b <=? sf_version f)%Z then Some f else best
    | None => Some f end) l acc)) as Hgen; [|by apply (Hgen None [])].
  induction l as [|f l IH]; intros acc pre Hacc; cbn; [by rewrite app_nil_r|].
  replace (pre ++ f :: l) with ((pre ++ [f]) ++ l) by by rewrite <- app_assoc.
  apply IH. destruct acc as [b|]; cbn in *.
  - destruct Hacc as [Hb Hm]. destruct (Z.leb_spec (sf_version b) (sf_version f)); cbn; split.
    + apply in_or_app. right. by left.
    + intros g [Hg%Hm|[<-|[]]]%in_app_or; lia.
    + apply in_or_app. by left.
    + intros g [Hg%Hm|[<-|[]]]%in_app_or; lia.
  - subst pre. cbn. split; [by left|]. intros g [<-|[]]. lia.
Qed.
Lemma increase_snoc l f :
  versions_increase (l ++ [f]) -> versions_increase l /\ forall g, In g l -> (sf_version g < sf_version f)%Z.
Proof.
  unfold versions_increase. induction l as [|h l IH]; cbn; [intros _; split; [constructor|done]|].
  intros Hs. inv Hs as [|? ? Hs' Hf]. destruct (IH Hs') as [Hss Hb].
  rewrite map_app in Hf. apply Forall_app in Hf as [Hl Hf]. inv Hf. split; [by constructor|].
  intros g [<-|Hg]; [done|by apply Hb].
Qed.
Lemma last_is_max l : versions_increase l -> is_max l (last l).
Proof.
  induction l as [|f l _] using rev_ind; [done|]. intros [_ Hb]%increase_snoc. rewrite last_snoc.
  split; [apply in_or_app; right; by left|]. intros g [Hg%Hb|[<-|[]]]%in_app_or; lia.
Qed.
Lemma increase_filter p l : versions_increase l -> versions_increase (List.filter p l).
Proof.
  unfold versions_increase. induction l as [|f l IH]; cbn; [done|]. intros Hs. inv Hs as [|? ? Hs' Hf].
  destruct (p f); [|by apply IH]. cbn. constructor; [by apply IH|].
  apply Forall_forall. intros v Hv%list_elem_of_In%in_map_iff. destruct Hv as (g & <- & Hg).
  apply filter_In in Hg as [Hg _]. rewrite Forall_forall in Hf. apply Hf, list_elem_of_In. by apply in_map.
Qed.
Lemma increase_inj l : versions_increase l -> versions_inj l.
Proof.
  intros Hl f g. induction l as [|h l IH]; [done|]. inv Hl as [|? ? Hs' Hf]. rewrite Forall_forall in Hf.
  assert (forall x, In x l -> (sf_version h < sf_version x)%Z) as Hh
    by (intros x Hx; apply Hf, list_elem_of_In; by apply in_map).
  intros [<-|Hfl] [<-|Hgl] Heq; [done| | |by apply IH].
  - specialize (Hh g Hgl). lia.
  - specialize (Hh f Hfl). lia.
Qed.

Section Snapshot.
Context {N S M : Type}.
Context `{SerdeNumber N, SerdeText N, Blake3, FactWalStoreLaws S, MetadataCodec, MetadataFile M, Ed25519}.
Context `{!PermissionCodec N}.
Implicit Types log : SharedFactsLog S M.

Lemma numbered_increase facts n :
  (forall i f, facts !! i = Some f -> sf_version f = Z.of_nat (n + i)) -> versions_increase facts.
Proof.
  revert n. unfold versions_increase. induction facts as [|f facts IH]; intros n Hn; cbn; [constructor|].
  constructor.
  - apply (IH (Datatypes.S n)). intros i g Hg. rewrite (Hn (Datatypes.S i) g Hg). lia.
  - pose proof (Hn 0 f eq_refl) as Hf. apply Forall_forall. intros v Hv.
    apply list_elem_of_In, in_map_iff in Hv as (g & <- & Hg). apply list_elem_of_In in Hg.
    apply list_elem_of_lookup in Hg as [i Hi]. rewrite (Hn (Datatypes.S i) g Hi). lia.
Qed.
Lemma inv_increase log facts : shared_inv (N := N) log facts -> versions_increase facts.
Proof. intros Hi. apply (numbered_increase _ 0). apply Hi. Qed.

Lemma filter_filter_seen log prefix (p : SharedFact -> bool) facts :
  List.filter p (List.filter (visible log prefix) facts) =
  List.filter (fun f => seen (rolled_up (meta log)) prefix f && p f) facts.
Proof.
  induction facts as [|f facts IH]; cbn; [done|]. change (visible log prefix f) with (seen (rolled_up (meta log)) prefix f).
  destruct (seen _ prefix f); cbn; [|done]. destruct (p f); cbn; by rewrite IH.
Qed.
Lemma filter_Permutation {A} (p : A -> bool) l k : l ≡ₚ k -> List.filter p l ≡ₚ List.filter p k.
Proof.
  induction 1 as [|x l k _ IH|x y l|l k j _ IH1 _ IH2]; cbn; [done|..].
  - destruct (p x); [by apply Permutation_cons|done].
  - destruct (p x), (p y); try done. apply Permutation_swap.
  - by etransitivity.
Qed.

Lemma snapshot_at_of log facts v :
  shared_inv (N := N) log facts -> snapshot_at log v = snapshot_of (rolled_up (meta log)) v facts.
Proof.
  intros Hi. pose proof (inv_increase _ _ Hi) as Hinc. unfold snapshot_at, snapshot_of.
  assert (latest_entries v map_new (shared_facts_by_path_prefix log ENTRY_PREFIX) =
    last_writes (rolled_up (meta log)) v facts) as ->.
  { rewrite latest_entries_fold. unfold last_writes.
    pose proof (filter_Permutation (fun f => (sf_version f <? v)%Z) _ _ (inv_prefix _ _ ENTRY_PREFIX Hi)) as Hp.
    rewrite filter_filter_seen in Hp. symmetry in Hp.
    pose proof (increase_filter (fun f => seen (rolled_up (meta log)) ENTRY_PREFIX f && (sf_version f <? v)%Z) _ Hinc) as Hs.
    rewrite <- (fold_newer_Permutation _ _ Hp (increase_inj _ Hs)).
    apply fold_newer_inserts; [done|apply keys_sorted_nil|done]. }
  destruct (build_entries _) as [entries|e]; [|done]. do 2 f_equal. unfold load_default_policy, last_policy.
  pose proof (filter_Permutation (fun f => (sf_version f <=? v)%Z && String.eqb (sf_path f) DEFAULT_POLICY_PATH)
    _ _ (inv_prefix _ _ DEFAULT_POLICY_PATH Hi)) as Hp.
  rewrite filter_filter_seen in Hp. symmetry in Hp.
  assert (forall l, List.filter (fun f => seen (rolled_up (meta log)) DEFAULT_POLICY_PATH f &&
      ((sf_version f <=? v)%Z && String.eqb (sf_path f) DEFAULT_POLICY_PATH)) l =
    List.filter (fun f => seen (rolled_up (meta log)) DEFAULT_POLICY_PATH f && (sf_version f <=? v)%Z
                 && String.eqb (sf_path f) DEFAULT_POLICY_PATH) l) as Hass.
  { intros l. apply List.filter_ext. intros f. by rewrite andb_assoc. }
  rewrite Hass in Hp.
  by rewrite <- (is_max_unique _ _ _ _ Hp (increase_inj _ (increase_filter _ _ Hinc))
    (last_is_max _ (increase_filter _ _ Hinc)) (max_by_version_max _)).
Qed.
End Snapshot.

(** * Writing and reading back *)

Lemma bridge_roundtrip {N} `{SerdeNumberLaws N} (v : SValue N) :
  bridge_clean v = true -> permission_tcb_to_serde (permission_serde_to_tcb v) = v.
Proof.
  induction v as [|b|n|s|l IH|m IH] using svalue_ind; cbn; try done.
  - destruct (num_as_i64 n) as [i|] eqn:E; [|done]. intros _. cbn. f_equal. by apply from_i64_as_i64.
  - intros Hl. f_equal. rewrite map_map. rewrite <- (map_id l) at 2. apply map_ext_in. intros x Hx.
    rewrite List.Forall_forall in IH. rewrite forallb_forall in Hl. auto.
  - rewrite andb_true_iff. intros [Hs%keys_sortedb_spec Hm].
    assert (map (fun kv => (fst kv, permission_tcb_to_serde (snd kv)))
      (map (fun kv => (fst kv, permission_serde_to_tcb (snd kv))) m) = m) as Hmap.
    { rewrite map_map. rewrite <- (map_id m) at 2. apply map_ext_in. intros [k x] Hx. cbn. f_equal.
      rewrite List.Forall_forall in IH. rewrite forallb_forall in Hm. by apply (IH _ Hx), (Hm _ Hx). }
    rewrite (map_from_id (map _ m)) by (by apply keys_sorted_map). unfold s_object. by rewrite Hmap, map_from_id.
Qed.

Lemma bridge_wf {N} `{SerdeNumberLaws N} (v : SValue N) : wf_json (permission_serde_to_tcb v) = true.
Proof.
  induction v as [|b|n|s|l IH|m IH] using svalue_ind; cbn; try done.
  - destruct (num_as_i64 n) as [i|] eqn:E; [|done]. by apply as_i64_range in E.
  - apply forallb_forall. intros x Hx. apply in_map_iff in Hx as (y & <- & Hy).
    rewrite List.Forall_forall in IH. by apply IH.
  - apply andb_true_iff. split; [apply keys_sortedb_spec, map_from_sorted|].
    apply forallb_forall. intros kv Hkv%map_from_In. apply in_map_iff in Hkv as (y & <- & Hy). cbn.
    rewrite List.Forall_forall in IH. by apply (IH y).
Qed.

Section ReadBack.
Context {N : Type} `{SerdeNumber N, !PermissionCodec N}.

(** What the table holds under an identifier. *)
Definition find_entry (es : list (PermissionEntry N)) (id : string) : option (PermissionEntry N) :=
  List.find (fun e => String.eqb (e_id e) id) es.
Lemma build_entries_In m es e :
  build_entries m = Ok es -> In e es ->
  exists v x e0, In (e_id e, (v, x)) m /\ is_tombstone (N := N) (permission_tcb_to_serde x) = false /\
    entry_from_value (permission_tcb_to_serde x) = Ok e0 /\ e = with_id_version e0 (e_id e) v.
Proof.
  revert es. induction m as [|[k [v x]] m IH]; intros es; cbn [build_entries]; [by intros [= <-]|].
  destruct (is_tombstone (permission_tcb_to_serde x)) eqn:Ht.
  - intros Hb Hin. destruct (IH es Hb Hin) as (w & y & e0 & Hm & Hrest). exists w, y, e0. split; [by right|done].
  - destruct (entry_from_value (permission_tcb_to_serde x)) as [e0|err] eqn:Hv; [|done].
    destruct (build_entries m) as [rest|err]; [|done]. intros [= <-] [<-|Hin].
    + exists v, x, e0. split; [by left|done].
    + destruct (IH rest eq_refl Hin) as (w & y & e1 & Hm & Hrest). exists w, y, e1. split; [by right|done].
Qed.
Lemma build_entries_find m es id :
  keys_sorted m -> build_entries m = Ok es ->
  match map_get m id with
  | None => find_entry es id = None
  | Some (v, x) =>
      if is_tombstone (N := N) (permission_tcb_to_serde x) then find_entry es id = None
      else exists e0, entry_from_value (permission_tcb_to_serde x) = Ok e0 /\
        find_entry es id = Some (with_id_version e0 id v)
  end.
Proof.
  intros Hm Hb.
  assert (forall e, In e es -> exists v x, map_get m (e_id e) = Some (v, x) /\
    is_tombstone (N := N) (permission_tcb_to_serde x) = false /\ exists e0,
    entry_from_value (permission_tcb_to_serde x) = Ok e0 /\ e = with_id_version e0 (e_id e) v) as Hin.
  { intros e He. destruct (build_entries_In m es e Hb He) as (v & x & e0 & Hk & Ht & Hv & Heq).
    exists v, x. split; [by apply map_get_In_sorted|]. split; [done|]. by exists e0. }
  destruct (find_entry es id) as [e|] eqn:Hf.
  - apply List.find_some in Hf as [He Hid%String.eqb_eq]. subst id.
    destruct (Hin e He) as (v & x & -> & -> & e0 & Hv & Heq). exists e0. by rewrite <- Heq.
  - assert (forall v x, In (id, (v, x)) m -> is_tombstone (N := N) (permission_tcb_to_serde x) = true) as Hall.
    { clear Hm Hin. revert es Hb Hf. induction m as [|[k [w y]] m IH]; intros es; [done|].
      cbn [build_entries]. destruct (is_tombstone (permission_tcb_to_serde y)) eqn:Ht.
      - intros Hb Hf v x [[= -> -> ->]|Hx]; [done|by eapply IH].
      - destruct (entry_from_value (permission_tcb_to_serde y)) as [e0|err]; [|done].
        destruct (build_entries m) as [rest|err]; [|done]. intros [= <-]. unfold find_entry. cbn.
        destruct (String.eqb_spec k id) as [->|Hne]; [done|]. intros Hf v x [[= -> -> ->]|Hx]; [done|].
        by eapply (IH rest). }
    destruct (map_get m id) as [[v x]|] eqn:Hg; [|done]. apply map_get_In in Hg.
    by rewrite (Hall v x Hg).
Qed.
End ReadBack.

Section Writes.
Context {N S M : Type}.
Context `{SerdeNumberLaws N, SerdeText N, Blake3, FactWalStoreLaws S, MetadataCodec, MetadataFile M, Ed25519}.
Context `{!PermissionCodec N, !PermissionCodecLaws N}.
Implicit Types log : SharedFactsLog S M.

Definition readable (x : JsonValue) : Prop :=
  is_tombstone (N := N) (permission_tcb_to_serde x) = true \/
  exists e0, entry_from_value (N := N) (permission_tcb_to_serde x) = Ok e0.
Lemma build_entries_Ok m :
  (exists es, build_entries (N := N) m = Ok es) <-> forall k v x, In (k, (v, x)) m -> readable x.
Proof.
  induction m as [|[k [v x]] m IH]; cbn [build_entries].
  { split; [done|]. by eexists. }
  unfold readable in *. destruct (is_tombstone (permission_tcb_to_serde x)) eqn:Ht.
  - rewrite IH. split; [|naive_solver]. intros Hm k' v' x' [[= -> -> ->]|Hx]; [by left|by eapply Hm].
  - destruct (entry_from_value (permission_tcb_to_serde x)) as [e0|err] eqn:Hv.
    + split.
      * intros [es Hes] k' v' x' [[= -> -> ->]|Hx]; [right; by eexists|].
        destruct (build_entries m) as [rest|err]; [|done]. by eapply (proj1 IH); [by eexists|].
      * intros Hm. destruct (proj2 IH) as [es ->]; [|by eexists]. intros k' v' x' Hx.
        eapply Hm. by right.
    + split; [by intros []|]. intros Hm. destruct (Hm k v x (or_introl eq_refl)) as [|[e0 ?]]; congruence.
Qed.

(** The rolled-up marks do not reach a new fact. *)
Lemma fresh_not_rolled log facts :
  shared_inv (N := N) log facts -> next_fact_id (meta log) ∉ rolled_up (meta log).
Proof.
  intros Hi Hin. apply (si_rolled _ _ Hi) in Hin as [s Hs].
  rewrite (si_sources _ _ Hi), sources_lookup in Hs by apply Hi.
  destruct (by_id facts (next_fact_id (meta log))) as [f|] eqn:Hf; [|done].
  apply List.find_some in Hf as [Hf Hid%Z.eqb_eq]. pose proof (si_ids _ _ Hi) as Hids.
  rewrite Forall_forall in Hids. apply list_elem_of_In, Hids in Hf. lia.
Qed.
Lemma facts_below log facts f :
  shared_inv (N := N) log facts -> In f facts -> (sf_version f < shared_version log)%Z.
Proof.
  intros Hi Hf. apply list_elem_of_In, list_elem_of_lookup in Hf as [i Hl].
  rewrite (si_versions _ _ Hi i f Hl). unfold shared_version. rewrite (si_version _ _ Hi).
  apply lookup_lt_Some in Hl. lia.
Qed.
Lemma filter_ext_in_both {A} (p q : A -> bool) l :
  (forall x, In x l -> p x = q x) -> List.filter p l = List.filter q l.
Proof. intros Hpq. by apply List.filter_ext_in. Qed.

(** An accepted write is the last write under its key. *)
Lemma append_last_writes log facts path value session log' v :
  shared_inv (N := N) log facts -> wf_json value = true ->
  shared_append (N := N) log path value session = (log', Ok v) ->
  v = (shared_version log + 1)%Z /\ shared_version log' = v /\
  exists facts', shared_inv (N := N) log' facts' /\
    last_writes (rolled_up (meta log')) v facts' =
      if starts_with ENTRY_PREFIX path then
        obj_insert (last_writes (rolled_up (meta log)) (v - 1) facts) (entry_key path) ((v - 1)%Z, value)
      else last_writes (rolled_up (meta log)) (v - 1) facts.
Proof.
  intros Hi Hv Ha. unfold shared_append in Ha.
  pose proof (inv_append_inner _ _ _ _ _ _ _ _ Hv Ha ltac:(done) Hi) as Hi'.
  apply append_inner_cases in Ha as (_ & fl & Ha & Hfl & _ & Hrl & _); [|done].
  apply append_result in Ha as [_ (Hver & _ & Hver')]; [|done].
  assert (v = shared_version log + 1)%Z as Hv1 by (rewrite Hver; reflexivity).
  split; [done|]. split; [unfold shared_version; rewrite Hfl, Hver', Hver; done|].
  eexists. split; [exact Hi'|]. unfold last_writes. rewrite Hrl, List.filter_app, fold_left_app. cbn [List.filter].
  match goal with |- context [seen ?r ENTRY_PREFIX (mk_shared_fact ?a path value session ?b None)] =>
    assert (seen r ENTRY_PREFIX (mk_shared_fact a path value session b None) = starts_with ENTRY_PREFIX path)
      as -> end.
  { unfold seen. cbn [sf_path sf_fact_id].
    by rewrite (bool_decide_eq_false_2 _ (fresh_not_rolled _ _ Hi)), andb_true_r. }
  cbn [sf_version].
  replace (shared_version log <? v)%Z with true by (symmetry; apply Z.ltb_lt; lia). rewrite andb_true_r.
  rewrite (filter_ext_in_both _ (fun f => seen (rolled_up (meta log)) ENTRY_PREFIX f && (sf_version f <? v - 1)%Z)).
  2:{ intros f Hf. pose proof (facts_below _ _ _ Hi Hf). f_equal.
      destruct (Z.ltb_spec (sf_version f) v), (Z.ltb_spec (sf_version f) (v - 1)); (done || lia). }
  destruct (starts_with ENTRY_PREFIX path); [|done]. cbn [fold_left sf_path sf_version sf_value].
  by replace (shared_version log) with (v - 1)%Z by lia.
Qed.
Lemma last_writes_sorted rolled v facts : keys_sorted (last_writes rolled v facts).
Proof.
  unfold last_writes. generalize (@keys_sorted_nil (Z * JsonValue)).
  change (@nil (string * (Z * JsonValue))) with (@map_new (Z * JsonValue)).
  generalize (@map_new (Z * JsonValue)).
  induction (List.filter _ facts) as [|f l IH]; intros m Hm; cbn; [done|]. by apply IH, obj_insert_sorted.
Qed.

(** A write of [value] under the key of [id], seen through the table. *)
Lemma write_seen log facts id value session log' v t0 :
  shared_inv (N := N) log facts -> wf_json value = true -> readable value ->
  entry_key (path_for ENTRY_PREFIX id) = id ->
  shared_append (N := N) log (path_for ENTRY_PREFIX id) value session = (log', Ok v) ->
  snapshot_at (N := N) log (shared_version log) = Ok t0 ->
  v = (shared_version log + 1)%Z /\ shared_version log' = v /\
  exists t, snapshot_at (N := N) log' v = Ok t /\
    (if is_tombstone (N := N) (permission_tcb_to_serde value) then table_get t id = None
     else exists e0, entry_from_value (permission_tcb_to_serde value) = Ok e0 /\
       table_get t id = Some (with_id_version e0 id (v - 1))) /\
    forall other, other <> id -> table_get t other = table_get t0 other.
Proof.
  intros Hi Hv Hread Hkey Ha Hs. rewrite (snapshot_at_of _ _ _ Hi) in Hs.
  destruct (append_last_writes _ _ _ _ _ _ _ Hi Hv Ha) as (Hv1 & Hver' & facts' & Hi' & Hlw).
  split; [done|]. split; [done|]. replace (v - 1)%Z with (shared_version log) in * by lia.
  unfold path_for in Hkey, Hlw. unfold starts_with in Hlw. rewrite prefix_app, Hkey in Hlw.
  unfold snapshot_of in Hs. destruct (build_entries (last_writes _ _ facts)) as [es0|err] eqn:Hes0; [|done].
  injection Hs as <-. pose proof (last_writes_sorted (rolled_up (meta log)) (shared_version log) facts) as Hsrt.
  assert (exists es, build_entries (N := N) (last_writes (rolled_up (meta log')) v facts') = Ok es) as [es Hes].
  { apply build_entries_Ok. rewrite Hlw. intros k w x [[= -> -> ->]|Hin]%obj_insert_In; [done|].
    by apply (proj1 (build_entries_Ok _) (ex_intro _ es0 Hes0) k w x). }
  rewrite (snapshot_at_of _ _ _ Hi'). unfold snapshot_of. rewrite Hes. eexists. split; [done|].
  pose proof (fun k => build_entries_find _ _ k (last_writes_sorted _ _ _) Hes) as Hfind.
  pose proof (fun k => build_entries_find _ _ k Hsrt Hes0) as Hfind0. rewrite Hlw in Hfind.
  unfold table_get. cbn [t_entries]. split.
  - specialize (Hfind id). rewrite map_get_insert_eq in Hfind. by destruct (is_tombstone _).
  - intros other Hne. specialize (Hfind other). specialize (Hfind0 other).
    rewrite map_get_insert_ne in Hfind by done. unfold find_entry in *.
    destruct (map_get (last_writes _ _ facts) other) as [[w x]|]; [|congruence].
    destruct (is_tombstone _); [congruence|].
    destruct Hfind as (e1 & He1 & ->), Hfind0 as (e2 & He2 & ->). congruence.
Qed.
End Writes.

(** The permission table is the last writes before a version.  After any
    run of the shared log, [snapshot_at] (which walks the path index, keeps
    the newest version of each identifier and then drops tombstones) is the
    table built from the last accepted, not rolled-up, write of each entry
    below the version, in the order of the ledger, and from the last such
    write of the default policy up to and including the version. *)
Lemma permission_snapshot_spec {N S M}
    `{SerdeNumber N, SerdeText N, Blake3, FactWalStoreLaws S, MetadataCodec, MetadataFile M, Ed25519}
    `{!PermissionCodec N} (keys : gmap string string) (log : SharedFactsLog S M)
    (facts : list SharedFact) (v : Z) :
  shared_run (N := N) keys log facts ->
  snapshot_at (N := N) log v = snapshot_of (rolled_up (meta log)) v facts.
Proof. intros Hr%shared_run_inv. by apply snapshot_at_of. Qed.

(** A decision is frozen at its version.  Facts accepted later, permission
    changes included, do not change the entries of the snapshot at a version
    the log has reached, as long as no fact is rolled up in between; and they
    do not change its default policy at an earlier version.  (At the version
    itself they can: see [default_policy_leaks].) *)
Lemma permission_snapshot_frozen {N S M}
    `{SerdeNumber N, SerdeText N, Blake3, FactWalStoreLaws S, MetadataCodec, MetadataFile M, Ed25519}
    `{!PermissionCodec N} (keys keys' : gmap string string) (log log' : SharedFactsLog S M)
    (facts more : list SharedFact) (v : Z) :
  shared_run (N := N) keys log facts -> shared_run (N := N) keys' log' (facts ++ more) ->
  rolled_up (meta log') = rolled_up (meta log) -> (v <= shared_version log)%Z ->
  result_map t_entries (snapshot_at (N := N) log' v) = result_map t_entries (snapshot_at (N := N) log v) /\
  ((v < shared_version log)%Z -> snapshot_at (N := N) log' v = snapshot_at (N := N) log v).
Proof.
  intros Hr%shared_run_inv Hr'%shared_run_inv Hroll Hv.
  rewrite (snapshot_at_of _ _ _ Hr), (snapshot_at_of _ _ _ Hr'), Hroll.
  assert (forall f, In f more -> (shared_version log <= sf_version f)%Z) as Hmore.
  { intros f Hf. apply list_elem_of_In, list_elem_of_lookup in Hf as [i Hi].
    rewrite (si_versions _ _ Hr' (length facts + i) f) by (rewrite lookup_app_r by lia;
      by replace (length facts + i - length facts) with i by lia).
    unfold shared_version. rewrite (si_version _ _ Hr). lia. }
  unfold snapshot_of. assert (last_writes (rolled_up (meta log)) v (facts ++ more) =
    last_writes (rolled_up (meta log)) v facts) as ->.
  { unfold last_writes. rewrite List.filter_app, (filter_none _ more), app_nil_r; [done|].
    intros f Hf%Hmore. rewrite (proj2 (Z.ltb_ge _ _)) by lia. apply andb_false_r. }
  split; [by destruct (build_entries _)|]. intros Hlt.
  assert (last_policy (rolled_up (meta log)) v (facts ++ more) = last_policy (rolled_up (meta log)) v facts)
    as ->; [|done].
  unfold last_policy. rewrite List.filter_app, (filter_none _ more), app_nil_r; [done|].
  intros f Hf%Hmore. rewrite (proj2 (Z.leb_gt _ _)) by lia. by rewrite andb_false_r.
Qed.

(** Permission changes go through the ledger and are read back.  When
    [store_entry] succeeds, the snapshot at the version it returns holds the
    entry under its identifier, stamped with the version of its fact, and
    every other entry as before; after [remove] the entry is gone and the
    others are as before.  (The identifier must not start with the storage
    prefix, of which [snapshot_at] trims every repetition.) *)
Lemma permission_write_read {N S M}
    `{SerdeNumberLaws N, SerdeText N, Blake3, FactWalStoreLaws S, MetadataCodec, MetadataFile M, Ed25519}
    `{!PermissionCodec N, !PermissionCodecLaws N} (keys : gmap string string)
    (log log1 log2 : SharedFactsLog S M) (facts : list SharedFact) (e : PermissionEntry N)
    (id : string) (session v : Z) (t0 : PermissionTable N) :
  shared_run (N := N) keys log facts -> snapshot_at log (shared_version log) = Ok t0 ->
  (store_entry log e session = (log1, Ok v) ->
   is_i64 (e_version e) = true -> clean_conditions (e_conditions e) = true ->
   entry_key (path_for ENTRY_PREFIX (e_id e)) = e_id e ->
   exists t, snapshot_at log1 v = Ok t /\
     table_get t (e_id e) = Some (with_id_version e (e_id e) (shared_version log)) /\
     forall other, other <> e_id e -> table_get t other = table_get t0 other) /\
  (remove_entry (N := N) log id session = (log2, Ok tt) -> entry_key (path_for ENTRY_PREFIX id) = id ->
   exists t, snapshot_at log2 (shared_version log2) = Ok t /\ table_get t id = None /\
     forall other, other <> id -> table_get t other = table_get t0 other).
Proof.
  intros Hi%shared_run_inv Hs. split.
  - intros Hst Hver Hclean Hkey. unfold store_entry in Hst.
    destruct (entry_to_value e) as [w|err] eqn:Hw; [|done].
    pose proof (bridge_roundtrip w (entry_value_clean e w Hw Hver Hclean)) as Hbr.
    unfold store_result in Hst.
    destruct (shared_append log (path_for ENTRY_PREFIX (e_id e)) (permission_serde_to_tcb w) session)
      as [l r] eqn:Ha. cbn [fst snd] in Hst. destruct r as [v'|err]; [|done]. injection Hst as -> ->.
    destruct (write_seen log facts (e_id e) (permission_serde_to_tcb w) session log1 v t0 Hi (bridge_wf w))
      as (Hv & _ & t & Ht & Hget & Hother); [|done..|].
    { right. exists e. rewrite Hbr. by apply entry_from_to. }
    exists t. split; [done|]. split; [|done]. rewrite Hbr in Hget.
    unfold is_tombstone in Hget. rewrite (entry_not_tombstone e w Hw) in Hget.
    destruct Hget as (e0 & He0 & ->). rewrite (entry_from_to e w Hclean Hw) in He0. injection He0 as <-.
    by replace (v - 1)%Z with (shared_version log) by lia.
  - intros Hrm Hkey. unfold remove_entry, store_result in Hrm.
    set (tomb := permission_serde_to_tcb (s_object [(TOMBSTONE_KEY, SBool true)])) in *.
    destruct (shared_append log (path_for ENTRY_PREFIX id) tomb session) as [l r] eqn:Ha.
    cbn [fst snd] in Hrm. destruct r as [v'|err]; [|done]. injection Hrm as ->.
    destruct (write_seen log facts id tomb session log2 v' t0 Hi eq_refl ltac:(by left) Hkey Ha Hs)
      as (Hv & -> & t & Ht & Hget & Hother).
    exists t. split; [done|]. split; [exact Hget|done].
Qed.

(** * The gate *)

Lemma last_writes_In rolled v facts k w x :
  In (k, (w, x)) (last_writes rolled v facts) ->
  exists f, In f facts /\ seen rolled ENTRY_PREFIX f = true /\ entry_key (sf_path f) = k /\
    sf_version f = w /\ sf_value f = x.
Proof.
  unfold last_writes.
  assert (forall l m, In (k, (w, x)) (fold_left (fun m f =>
      obj_insert m (entry_key (sf_path f)) (sf_version f, sf_value f)) l m) ->
    In (k, (w, x)) m \/ exists f, In f l /\ entry_key (sf_path f) = k /\ sf_version f = w /\ sf_value f = x)
    as Hgen.
  { induction l as [|f l IH]; intros m Hin; cbn in *; [by left|].
    apply IH in Hin as [Hin|(g & Hg & Hrest)]; [|right; exists g; split; [by right|done]].
    apply obj_insert_In in Hin as [[= -> -> ->]|Hin]; [|by left]. right. exists f. split; [by left|done]. }
  intros [[]|(f & Hf & Hrest)]%Hgen. apply filter_In in Hf as [Hf Hp%andb_true_iff].
  destruct Hp as [Hp _]. by exists f.
Qed.
Lemma decision_allow {N} `{SerdeNumber N} ctx resource action payload (es : list (PermissionEntry N)) fallback :
  decision ctx resource action payload es fallback = VAllow ->
  existsb (denies ctx resource action payload) es = false /\
  ((exists e, In e es /\ grants ctx resource action payload e = true) \/ fallback = Allow).
Proof.
  unfold decision. destruct (existsb (denies _ _ _ _) es); [done|].
  destruct (existsb (grants _ _ _ _) es) eqn:Hg.
  - intros _. split; [done|]. left. by apply existsb_exists in Hg.
  - destruct (existsb (pending _ _ _) es); [done|]. destruct fallback; [|done]. intros _. split; [done|by right].
Qed.

(** C7: the gate fails closed.  When [check_routed] allows a call, the static
    routing layer has not denied it, the version it decided at is the current
    version of the ledger, the snapshot at that version can be rebuilt, no
    active matching entry denies or has a condition that cannot be evaluated,
    and the permission comes from the ledger: from an active matching entry
    whose condition holds, stored by a fact that is not rolled up, or from a
    stored default policy that allows the caller's role.  In particular the
    static layer never grants anything. *)
Theorem gate_allow_is_granted {N S M}
    `{SerdeNumber N, SerdeText N, Blake3, FactWalStoreLaws S, MetadataCodec, MetadataFile M, Ed25519}
    `{!PermissionCodec N} (keys : gmap string string) (log : SharedFactsLog S M)
    (facts : list SharedFact) (g : PermissionGate) (ctx ctx' : IoCallContext) (io_type : string)
    (payload : option JsonValue) (route : option string) :
  shared_run (N := N) keys log facts ->
  check_routed (N := N) g log ctx io_type payload = (ctx', (VAllow, route)) ->
  route = None /\ route_gate g ctx' io_type payload = None /\
  ctx' = frozen_context g log ctx /\ v_trigger ctx' = shared_version log /\
  exists t : PermissionTable N,
    snapshot_of (rolled_up (meta log)) (shared_version log) facts = Ok t /\
    existsb (denies ctx' (resource_prefix g +:+ io_type) "io" (default JNull payload)) (t_entries t) = false /\
    ((exists e f e0, In e (t_entries t) /\
        grants ctx' (resource_prefix g +:+ io_type) "io" (default JNull payload) e = true /\
        In f facts /\ seen (rolled_up (meta log)) ENTRY_PREFIX f = true /\
        entry_key (sf_path f) = e_id e /\ sf_version f = e_version e /\
        entry_from_value (permission_tcb_to_serde (sf_value f)) = Ok e0 /\
        e = with_id_version e0 (e_id e) (sf_version f)) \/
     (exists f p, In f facts /\ seen (rolled_up (meta log)) DEFAULT_POLICY_PATH f = true /\
        sf_path f = DEFAULT_POLICY_PATH /\
        policy_from_value (N := N) (permission_tcb_to_serde (sf_value f)) = Ok p /\
        default_effect p (caller_role ctx') = Allow)).
Proof.
  intros Hi%shared_run_inv. unfold check_routed. intros Hc.
  pose proof (f_equal fst Hc) as Hctx. pose proof (f_equal snd Hc) as Hr. cbn [fst snd] in Hctx, Hr. clear Hc.
  destruct (route_gate g (frozen_context g log ctx) io_type payload) as [rt|] eqn:Hroute; [done|].
  rewrite <- Hctx. change (v_trigger (frozen_context g log ctx)) with (shared_version log) in *.
  rewrite (snapshot_at_of _ _ _ Hi) in Hr.
  destruct (snapshot_of (rolled_up (meta log)) (shared_version log) facts) as [t|err] eqn:Ht; [|done].
  injection Hr as Hev Hrt. split; [done|]. split; [done|]. split; [done|]. split; [done|].
  exists t. split; [done|]. rewrite table_evaluate_decision in Hev. apply decision_allow in Hev as [Hd Hg].
  split; [done|]. unfold snapshot_of in Ht.
  destruct (build_entries (last_writes _ _ facts)) as [es|err] eqn:Hes; [|done]. injection Ht as <-.
  cbn [t_entries t_default_policy] in *. destruct Hg as [(e & He & Hg)|Hpol].
  - left. destruct (build_entries_In _ _ _ Hes He) as (w & x & e0 & Hin & _ & He0 & Heq).
    apply last_writes_In in Hin as (f & Hf & Hseen & Hk & <- & <-). exists e, f, e0.
    split_and!; try done. by rewrite Heq.
  - right. unfold policy_of, last_policy in Hpol.
    destruct (last (List.filter _ facts)) as [f|] eqn:Hl; [|by destruct (caller_role _)].
    assert (In f (List.filter (fun f => seen (rolled_up (meta log)) DEFAULT_POLICY_PATH f &&
      (sf_version f <=? shared_version log)%Z && String.eqb (sf_path f) DEFAULT_POLICY_PATH) facts)) as Hf.
    { apply last_Some in Hl as [pre Hl]. rewrite Hl. apply in_or_app. right. by left. }
    apply filter_In in Hf as [Hf Hp]. rewrite !andb_true_iff in Hp. destruct Hp as [[Hs _] Hpath%String.eqb_eq].
    destruct (policy_from_value _) as [p|err] eqn:Hp; [|by destruct (caller_role _)].
    by exists f, p.
Qed.

(** * An example *)

(** An entry that lets the human role call [http_get] but only for session
    payloads marked safe, and a default policy written later. *)
Module PermissionDemo.
Import ZNumber ZText ZHash ZSign ZMetadata ZPermission.
Definition Log : Type := SharedFactsLog MemoryWalStore (option string * option string).
Definition condition : SValue Z :=
  SObject [("path", SString "__exec__.payload.safe"); ("type", SString "eq"); ("value", SBool true)].
Definition entry : PermissionEntry Z :=
  mk_entry "http" 1 Active (mk_subject SUser "human") (mk_resource RIoAction "io:http_*") "io" Allow
    (Some condition) None None "admin".
Definition log0 : Log := shared_new.
Definition log1 : Log := fst (store_entry (N := Z) log0 entry 7).
Definition log2 : Log := fst (remove_entry (N := Z) log1 "http" 7).
Definition policy : DefaultPolicy := mk_policy Allow Deny Deny.
Definition log3 : Log := fst (set_default_policy (N := Z) log1 policy 7).
Definition fact_of (id : Z) (path : string) (value : JsonValue) (v : Z) : SharedFact :=
  mk_shared_fact id path value 7 v None.
Definition entry_value : JsonValue :=
  match entry_to_value entry with Ok v => permission_serde_to_tcb v | Err _ => JNull end.
Definition policy_value : JsonValue :=
  match policy_to_value (N := Z) policy with Ok v => permission_serde_to_tcb v | Err _ => JNull end.
Definition facts1 : list SharedFact := [fact_of 1 (path_for ENTRY_PREFIX "http") entry_value 0].
Definition facts3 : list SharedFact := facts1 ++ [fact_of 2 DEFAULT_POLICY_PATH policy_value 1].
Lemma log0_run : shared_run (N := Z) ∅ log0 [].
Proof. apply shared_run_new. Qed.
Lemma append_run l fs path value session v :
  shared_run (N := Z) ∅ l fs -> wf_json value = true ->
  snd (shared_append (N := Z) l path value session) = Ok v ->
  shared_run (N := Z) ∅ (fst (shared_append (N := Z) l path value session))
    (fs ++ [mk_shared_fact (next_fact_id (meta l)) path value session (shared_version l) None]).
Proof.
  intros Hr Hw Hv. destruct (shared_append l path value session) as [l' r] eqn:E. cbn in Hv. subst r.
  eapply shared_run_step; [exact Hr|]. by apply (shared_step_append ∅ l path value session None l' (Ok v)).
Qed.
Lemma log1_run : shared_run (N := Z) ∅ log1 facts1.
Proof.
  exact (append_run log0 [] (path_for ENTRY_PREFIX "http") entry_value 7 1 log0_run
    ltac:(vm_compute; reflexivity) ltac:(vm_compute; reflexivity)).
Qed.
Lemma log3_run : shared_run (N := Z) ∅ log3 facts3.
Proof.
  exact (append_run log1 facts1 DEFAULT_POLICY_PATH policy_value 7 2 log1_run
    ltac:(vm_compute; reflexivity) ltac:(vm_compute; reflexivity)).
Qed.
Definition gate : PermissionGate := with_caller_role_resolver gate_new (fun _ => Human).
Definition safe : JsonValue := object_from_pairs [("safe", JBool true)].
Definition ctx : IoCallContext := context_new 5%Z 0 None.
End PermissionDemo.
Import ZNumber ZText ZHash ZSign ZMetadata ZPermission.

Lemma table_deny_overrides_witness :
  let refuse := mk_entry "no" 1 Active subject_any (mk_resource RIoAction "io:*") "*" Deny None None None "admin" in
  let t1 := mk_table [PermissionDemo.entry; refuse] policy_default 1 in
  let t2 := mk_table [refuse; PermissionDemo.entry] policy_default 1 in
  table_evaluate t1 PermissionDemo.ctx "io:http_get" "io" None = VDeny /\
  table_evaluate t1 PermissionDemo.ctx "io:http_get" "io" None =
  table_evaluate t2 PermissionDemo.ctx "io:http_get" "io" None.
Proof.
  intros refuse t1 t2.
  destruct (table_deny_overrides t1 t2 PermissionDemo.ctx "io:http_get" "io" None) as [Hd Heq].
  - apply Permutation_swap.
  - reflexivity.
  - split; [|exact Heq]. etransitivity; [exact Hd|]. vm_compute. reflexivity.
Defined.
Lemma permission_snapshot_spec_witness :
  snapshot_at (N := Z) PermissionDemo.log1 1 =
  Ok (mk_table [with_id_version PermissionDemo.entry "http" 0] policy_default 1).
Proof.
  etransitivity; [exact (permission_snapshot_spec (N := Z) ∅ PermissionDemo.log1 PermissionDemo.facts1 1
    PermissionDemo.log1_run)|]. vm_compute. reflexivity.
Defined.
Lemma permission_snapshot_frozen_witness :
  result_map t_entries (snapshot_at (N := Z) PermissionDemo.log3 1) =
    result_map t_entries (snapshot_at (N := Z) PermissionDemo.log1 1) /\
  snapshot_at (N := Z) PermissionDemo.log3 0 = snapshot_at (N := Z) PermissionDemo.log1 0.
Proof.
  pose proof (fun v => permission_snapshot_frozen (N := Z) ∅ ∅ PermissionDemo.log1 PermissionDemo.log3
    PermissionDemo.facts1 [PermissionDemo.fact_of 2 DEFAULT_POLICY_PATH PermissionDemo.policy_value 1] v
    PermissionDemo.log1_run PermissionDemo.log3_run ltac:(vm_compute; reflexivity)) as Hfrozen.
  split; [apply (Hfrozen 1%Z)|apply (Hfrozen 0%Z)]; vm_compute; (reflexivity || discriminate).
Defined.
(** The default policy of the same snapshot is another one. *)
Lemma default_policy_leaks :
  option_map t_default_policy (result_ok (snapshot_at (N := Z) PermissionDemo.log1 1)) = Some policy_default /\
  option_map t_default_policy (result_ok (snapshot_at (N := Z) PermissionDemo.log3 1)) =
    Some PermissionDemo.policy.
Proof. split; vm_compute; reflexivity. Qed.
Lemma permission_write_read_witness :
  (exists t, snapshot_at (N := Z) PermissionDemo.log1 1 = Ok t /\
    table_get t "http" = Some (with_id_version PermissionDemo.entry "http" 0)) /\
  exists t, snapshot_at (N := Z) PermissionDemo.log2 2 = Ok t /\ table_get t "http" = None.
Proof.
  assert (exists t0, snapshot_at (N := Z) PermissionDemo.log1 1 = Ok t0) as [t0 Ht0]
    by (eexists; vm_compute; reflexivity).
  destruct (permission_write_read (N := Z) ∅ PermissionDemo.log0 PermissionDemo.log1 PermissionDemo.log0
    [] PermissionDemo.entry "http" 7 1 (mk_table [] policy_default 0) PermissionDemo.log0_run) as [Hst _];
    [vm_compute; reflexivity|].
  destruct (permission_write_read (N := Z) ∅ PermissionDemo.log1 PermissionDemo.log1 PermissionDemo.log2
    PermissionDemo.facts1 PermissionDemo.entry "http" 7 1 t0 PermissionDemo.log1_run Ht0) as [_ Hrm].
  split.
  - destruct Hst as (t & Ht & Hget & _); try (vm_compute; reflexivity).
    exact (ex_intro _ t (conj Ht Hget)).
  - destruct Hrm as (t & Ht & Hget & _); try (vm_compute; reflexivity).
    exact (ex_intro _ t (conj Ht Hget)).
Defined.
Lemma gate_allow_is_granted_witness :
  snd (check_routed (N := Z) PermissionDemo.gate PermissionDemo.log1 PermissionDemo.ctx "http_get"
         (Some PermissionDemo.safe)) = (VAllow, None) /\
  (exists f, In f PermissionDemo.facts1) /\
  snd (check_routed (N := Z) PermissionDemo.gate PermissionDemo.log1 PermissionDemo.ctx "http_get" None)
    = (VDeny, None).
Proof.
  destruct (check_routed (N := Z) PermissionDemo.gate PermissionDemo.log1 PermissionDemo.ctx "http_get"
    (Some PermissionDemo.safe)) as [ctx' [v route]] eqn:Hc.
  assert (v = VAllow) as -> by (apply (f_equal (fun r => fst (snd r))) in Hc; vm_compute in Hc; by rewrite <- Hc).
  destruct (gate_allow_is_granted (N := Z) ∅ PermissionDemo.log1 PermissionDemo.facts1 PermissionDemo.gate
    PermissionDemo.ctx ctx' "http_get" (Some PermissionDemo.safe) route PermissionDemo.log1_run Hc)
    as (-> & _ & _ & _ & t & _ & _ & Hg).
  split; [reflexivity|]. split; [|vm_compute; reflexivity].
  destruct Hg as [(e & f & _ & _ & _ & Hf & _)|(f & p & Hf & _)]; by exists f.
Defined.
