(* ===== verification/Subscriber.v ===== *)
(** The I/O subscriber, [evorule-governance/src/io_subscriber.rs], and the
    dispatcher it calls, [evorule-reactor/src/io_dispatcher.rs]: every request
    passes the circuit breaker and the permission gate, is executed with
    retries, and is answered. *)

From S2P Require Import Prelude ObjectMap Value Error Path Domain Executor ExecSemantics Transition Fact Serde Hash Wal WalFile FactsLog Signing SharedLog Permission Gate CircuitBreaker.

(** * The dispatcher *)

(** A handler is the application's: from the outside world and the parameters
    to the result. *)
Definition IoHandler (W : Type) : Type := W -> JsonValue -> W * Result JsonValue string.
Definition IoDispatcher (W : Type) : Type := gmap IoType (IoHandler W).
Definition dispatcher_new {W} : IoDispatcher W := ∅.
Definition register {W} (d : IoDispatcher W) (io_type : IoType) (handler : IoHandler W) :
    IoDispatcher W := <[io_type := handler]> d.
Definition dispatch {W} (d : IoDispatcher W) (w : W) (io_type : IoType) (params : JsonValue) :
    W * Result JsonValue string :=
  match d !! io_type with
  | Some handler => handler w params
  | None => (w, Err ("no handler registered for IoType: " +:+ io_type))
  end.
Definition dispatcher_contains {W} (d : IoDispatcher W) (io_type : IoType) : bool :=
  bool_decide (is_Some (d !! io_type)).
Definition known_types {W} (d : IoDispatcher W) : gset IoType := dom d.

(** * Constants and the retry test *)

Definition ID_OFFSET : Z := 10000.
Definition MAX_RETRIES : nat := 3.
(** In nanoseconds. *)
Definition INITIAL_BACKOFF : Z := (200 * 10 ^ 6)%Z.
Definition DURATION_MAX : Z := (u64_max * 10 ^ 9 + 999999999)%Z.
(** [str::to_lowercase], on ASCII.  Two other characters have an ASCII letter
    in their lower case, U+212A (k) and U+0130 (i and a combining dot); no
    pattern searched for has a k or ends in i, so neither can complete one. *)
Definition lower_char (c : ascii) : ascii :=
  let n := nat_of_ascii c in
  if ((65 <=? n) && (n <=? 90))%nat then ascii_of_nat (n + 32) else c.
Fixpoint to_lowercase (s : string) : string :=
  match s with
  | EmptyString => EmptyString
  | String c s => String (lower_char c) (to_lowercase s)
  end.
Definition is_retryable_error (err : string) : bool :=
  let lower := to_lowercase err in
  if contains "timeout" lower || contains "timed out" lower then true
  else if contains "connection" lower then true
  else if contains "temporarily" lower || contains "temporary" lower then true
  else existsb (fun code => contains code lower) ["500"; "502"; "503"; "504"].
Definition backoff (attempt : nat) : Z :=
  Z.min (INITIAL_BACKOFF * Z.min (2 ^ (Z.of_nat attempt - 1)) (2 ^ 32 - 1)) DURATION_MAX.

(** * State *)

(** What the subscriber does to the world outside, in order: calls of the
    dispatcher, sleeps, and facts sent on the command channel. *)
Inductive Action : Type :=
| ADispatch (io_type : IoType) (params : JsonValue) (result : Result JsonValue string)
| ASleep (duration : Z)
| ASend (fact : Fact).
Inductive IoSubscriberError : Type := ChannelClosed | CommandClosed (msg : string).
(** The end of a call; a panic ends the task. *)
Inductive Outcome : Type := Returned (r : Result unit IoSubscriberError) | Panicked.

(** [struct IoSubscriber]; the metrics and the clock handle are not kept. *)
Record IoSubscriber (W : Type) : Type := mk_subscriber {
  sub_dispatcher : IoDispatcher W;
  sub_next_id : Z;
  sub_skip : option (IoType -> JsonValue -> bool);
  sub_gate : option PermissionGate;
  sub_circuit : option CircuitState;
}.
Arguments mk_subscriber {W}.
Arguments sub_dispatcher {W}.
Arguments sub_next_id {W}.
Arguments sub_skip {W}.
Arguments sub_gate {W}.
Arguments sub_circuit {W}.
Definition subscriber_new {W} (d : IoDispatcher W) : IoSubscriber W := mk_subscriber d ID_OFFSET None None None.
Definition with_permission_gate {W} (s : IoSubscriber W) (g : PermissionGate) : IoSubscriber W :=
  mk_subscriber (sub_dispatcher s) (sub_next_id s) (sub_skip s) (Some g) (sub_circuit s).
Definition permission_gate_enabled {W} (s : IoSubscriber W) : bool :=
  match sub_gate s with Some _ => true | None => false end.
Definition with_circuit_breaker {W} (s : IoSubscriber W) (c : CircuitState) : IoSubscriber W :=
  mk_subscriber (sub_dispatcher s) (sub_next_id s) (sub_skip s) (sub_gate s) (Some c).
Definition with_skip {W} (s : IoSubscriber W) (p : IoType -> JsonValue -> bool) : IoSubscriber W :=
  mk_subscriber (sub_dispatcher s) (sub_next_id s) (Some p) (sub_gate s) (sub_circuit s).
Definition set_circuit {W} (s : IoSubscriber W) (c : CircuitState) : IoSubscriber W :=
  mk_subscriber (sub_dispatcher s) (sub_next_id s) (sub_skip s) (sub_gate s) (Some c).
(** [next_fact_id]: the identifier and the advanced counter. *)
Definition next_fact_id {W} (s : IoSubscriber W) : IoSubscriber W * FactId :=
  (mk_subscriber (sub_dispatcher s) (u64_wrapping_add (sub_next_id s) 1) (sub_skip s) (sub_gate s)
     (sub_circuit s), sub_next_id s).

(** What the subscriber reads of the world: the clock, whether the command
    channel is open, the shared log behind the gate; and what passes in it
    during a sleep and before each event. *)
Class SubscriberEnv (S M W : Type) `{Ed25519} : Type := {
  env_now : W -> Z;
  env_open : W -> bool;
  env_log : W -> SharedFactsLog S M;
  env_sleep : Z -> W -> W;
  env_wait : W -> W;
}.

Section Subscriber.
Context {N S M W : Type}.
Context `{SerdeNumber N, SerdeText N, Blake3, FactWalStore S, MetadataCodec, MetadataFile M, Ed25519}.
Context `{!PermissionCodec N, !InstantRange, !SubscriberEnv S M W}.
Implicit Types s : IoSubscriber W.

(** [command_tx.send(response).map_err(..)]. *)
Definition send_response (w : W) (request_id : FactId) (response : Fact) : list Action * Outcome :=
  if env_open w then ([ASend response], Returned (Ok tt))
  else ([], Returned (Err (CommandClosed ("request_id=" +:+ fact_id_display request_id)))).
Definition respond_error s (w : W) (request_id : FactId) (error : string) :
    IoSubscriber W * W * list Action * Outcome :=
  let '(s, id) := next_fact_id s in
  let '(actions, outcome) := send_response w request_id (IoResponse id request_id JNull (Some error)) in
  (s, w, actions, outcome).

Definition tripped_error (io_type : IoType) : string :=
  "circuit breaker tripped (circuit=tripped): io_type=" +:+ io_type
  +:+ " egress denied until window expiry".
Definition denied_error (io_type : IoType) (verdict : Verdict) (route : option string) : string :=
  let reason := match verdict with
                | VCandidate => "pending permission approval (fail-closed)"
                | _ => "denied by permission gate" end in
  let route_seg := match route with Some r => " (route=" +:+ r +:+ ")" | None => "" end in
  "permission denied" +:+ route_seg +:+ ": io_type=" +:+ io_type +:+ " " +:+ reason
  +:+ ", resource=io:" +:+ io_type.
Definition gate_absent_error : string :=
  "permission gate not assembled (fail-closed): this subscriber requires with_permission_gate(..) before it dispatches I/O".
Definition signal_instruction (signal : JsonValue) : JsonValue :=
  object_from_pairs
    [("type", JString "set");
     ("params", object_from_pairs
        [("attr", JString CIRCUIT_BREAKER_ATTR); ("operation", JString "set"); ("value", signal)])].

(** The count of a static denial, with the signal it may send; [None] is the
    panic of the breaker. *)
Definition count_denial s (w : W) (route : option string) : option (IoSubscriber W * list Action) :=
  match route, sub_circuit s with
  | Some _, Some circuit =>
      let! '(circuit, signal) := record_deny circuit (env_now w) in
      let s := set_circuit s circuit in
      match signal with
      | Some signal =>
          let '(s, id) := next_fact_id s in
          Some (s, if env_open w then [ASend (Command id (signal_instruction signal))] else [])
      | None => Some (s, [])
      end
  | _, _ => Some (s, [])
  end.
Definition deny_request s (w : W) (request_id : FactId) (io_type : IoType) (verdict : Verdict)
    (route : option string) : IoSubscriber W * W * list Action * Outcome :=
  match count_denial s w route with
  | None => (s, w, [], Panicked)
  | Some (s, signal) =>
      let '(s, w, actions, outcome) :=
        respond_error s w request_id (denied_error io_type verdict route) in
      (s, w, signal ++ actions, outcome)
  end.

(** The retry loop; [retries] is [MAX_RETRIES + 1 - attempt], so that another
    attempt is left exactly when [attempt <= MAX_RETRIES]. *)
Fixpoint dispatch_loop (d : IoDispatcher W) (retries attempt : nat) (w : W) (io_type : IoType)
    (params : JsonValue) : W * list Action * Result JsonValue string :=
  let '(w, result) := dispatch d w io_type params in
  let call := ADispatch io_type params result in
  match result with
  | Ok v => (w, [call], Ok v)
  | Err err =>
      match retries with
      | Datatypes.S retries =>
          if is_retryable_error err then
            let w := env_sleep (backoff attempt) w in
            let '(w, actions, r) := dispatch_loop d retries (Datatypes.S attempt) w io_type params in
            (w, call :: ASleep (backoff attempt) :: actions, r)
          else (w, [call], Err err)
      | O => (w, [call], Err err)
      end
  end.
Definition execute_request s (w : W) (request_id : FactId) (io_type : IoType) (params : JsonValue) :
    IoSubscriber W * W * list Action * Outcome :=
  let '(w, actions, result) := dispatch_loop (sub_dispatcher s) MAX_RETRIES 1 w io_type params in
  let '(s, id) := next_fact_id s in
  let response :=
    match result with
    | Ok v => IoResponse id request_id v None
    | Err err => IoResponse id request_id JNull (Some err)
    end in
  let '(sent, outcome) := send_response w request_id response in
  (s, w, actions ++ sent, outcome).

(** The breaker's question at the head of [dispatch_and_respond]. *)
Definition ask_circuit s (w : W) : IoSubscriber W * bool :=
  match sub_circuit s with
  | Some circuit => let '(circuit, b) := is_tripped circuit (env_now w) in (set_circuit s circuit, b)
  | None => (s, false)
  end.
Definition request_verdict (g : PermissionGate) (w : W) (cause : FactId) (io_type : IoType)
    (params : JsonValue) : Verdict * option string :=
  snd (check_routed (N := N) g (env_log w) (context_new cause 0 None) io_type (Some params)).
Definition dispatch_and_respond s (w : W) (request_id cause : FactId) (io_type : IoType)
    (params : JsonValue) : IoSubscriber W * W * list Action * Outcome :=
  let '(s, tripped) := ask_circuit s w in
  if tripped then respond_error s w request_id (tripped_error io_type)
  else
    match sub_gate s with
    | Some gate =>
        let '(verdict, route) := request_verdict gate w cause io_type params in
        if bool_decide (verdict = VAllow) then execute_request s w request_id io_type params
        else deny_request s w request_id io_type verdict route
    | None => respond_error s w request_id gate_absent_error
    end.

Definition subscriber_handle_fact s (w : W) (fact : Fact) :
    IoSubscriber W * W * list Action * Outcome :=
  match fact with
  | IoRequest id cause io_type params =>
      let skipped := match sub_skip s with Some skip => skip io_type params | None => false end in
      if skipped then (s, w, [], Returned (Ok tt))
      else dispatch_and_respond s w id cause io_type params
  | _ => (s, w, [], Returned (Ok tt))
  end.

(** [run], over what [event_rx.recv()] gives. *)
Inductive Received : Type := Event (fact : Fact) | Lagged (skipped : Z) | Closed.
Fixpoint subscriber_run s (w : W) (received : list Received) :
    IoSubscriber W * W * list Action * option Outcome :=
  match received with
  | [] => (s, w, [], None)
  | r :: rest =>
      let w := env_wait w in
      match r with
      | Event fact =>
          let '(s, w, actions, outcome) := subscriber_handle_fact s w fact in
          match outcome with
          | Returned (Ok _) =>
              let '(s, w, more, end_) := subscriber_run s w rest in (s, w, actions ++ more, end_)
          | _ => (s, w, actions, Some outcome)
          end
      | Lagged _ => subscriber_run s w rest
      | Closed => (s, w, [], Some (Returned (Ok tt)))
      end
  end.
End Subscriber.
