(* ===== verification/SubscriberSpec.v ===== *)
(** Theorems about the I/O subscriber: nothing is dispatched without the
    gate's permission, retries are bounded, and every request is answered
    exactly once, in order, under fresh identifiers. *)

From S2P Require Import Prelude ObjectMap Value Error Path Domain Executor ExecSemantics Transition Fact Serde Hash Wal WalFile FactsLog Signing SharedLog SharedLogSpec Permission Gate PermissionSpec CircuitBreaker Subscriber.

(** * Views of the actions *)

Definition attempt_of (a : Action) : option (IoType * JsonValue * Result JsonValue string) :=
  match a with ADispatch io_type params r => Some (io_type, params, r) | _ => None end.
Definition sent_of (a : Action) : option Fact := match a with ASend fact => Some fact | _ => None end.
Definition answer_of (f : Fact) : option FactId :=
  match f with IoResponse _ request_id _ _ => Some request_id | _ => None end.
Definition attempts (l : list Action) := omap attempt_of l.
Definition sent_facts (l : list Action) : list Fact := omap sent_of l.
Definition answers (l : list Action) : list FactId := omap answer_of (sent_facts l).
Lemma attempts_app l k : attempts (l ++ k) = attempts l ++ attempts k.
Proof. apply omap_app. Qed.
Lemma sent_facts_app l k : sent_facts (l ++ k) = sent_facts l ++ sent_facts k.
Proof. apply omap_app. Qed.
Lemma answers_app l k : answers (l ++ k) = answers l ++ answers k.
Proof. unfold answers. by rewrite sent_facts_app, omap_app. Qed.

Section Spec.
Context {N S M W : Type}.
Context `{SerdeNumber N, SerdeText N, Blake3, FactWalStore S, MetadataCodec, MetadataFile M, Ed25519}.
Context `{!PermissionCodec N, !InstantRange, !SubscriberEnv S M W}.
Implicit Types s : IoSubscriber W.

(** ** The retry loop *)

(** A run of attempts: every one but the last failed with a retryable error,
    and the last is the result. *)
Inductive retried (io_type : IoType) (params : JsonValue) (r : Result JsonValue string) :
    list (IoType * JsonValue * Result JsonValue string) -> Prop :=
| retried_last : retried io_type params r [(io_type, params, r)]
| retried_again err l :
    is_retryable_error err = true -> retried io_type params r l ->
    retried io_type params r ((io_type, params, Err err) :: l).
Lemma dispatch_loop_spec d retries attempt w io_type params w' actions r :
  dispatch_loop (S := S) (M := M) d retries attempt w io_type params = (w', actions, r) ->
  retried io_type params r (attempts actions) /\ (length (attempts actions) <= retries + 1)%nat /\
  sent_facts actions = [] /\
  (forall err, r = Err err -> is_retryable_error err = true -> length (attempts actions) = (retries + 1)%nat).
Proof.
  revert attempt w w' actions r. induction retries as [|retries IH]; intros attempt w w' actions r;
    cbn [dispatch_loop]; destruct (dispatch d w io_type params) as [w1 [v|err]].
  - intros [= <- <- <-]. split_and!; [constructor|cbn; lia|done|done].
  - intros [= <- <- <-]. split_and!; [constructor|cbn; lia|done|done].
  - intros [= <- <- <-]. split_and!; [constructor|cbn; lia|done|done].
  - destruct (is_retryable_error err) eqn:Hre.
    + destruct (dispatch_loop d retries _ _ io_type params) as [[w2 more] r2] eqn:Hl.
      intros [= <- <- <-]. destruct (IH _ _ _ _ _ Hl) as (Hr & Hlen & Hs & Hex). cbn.
      change (omap attempt_of more) with (attempts more). change (omap sent_of more) with (sent_facts more).
      split_and!; [by constructor|lia|done|]. intros err' He Hr'. by rewrite (Hex err' He Hr').
    + intros [= <- <- <-]. split_and!; [constructor|cbn; lia|done|]. intros err' [= <-]. congruence.
Qed.

(** ** What one fact leads to *)

(** How a call ended: with the answer, refused by the closed channel, or by
    the panic of the breaker. *)
Definition answered (request_id : FactId) (actions : list Action) (outcome : Outcome) : Prop :=
  match outcome with
  | Returned (Ok _) => answers actions = [request_id]
  | Returned (Err e) =>
      answers actions = [] /\ e = CommandClosed ("request_id=" +:+ fact_id_display request_id)
  | Panicked => answers actions = []
  end.
(** The identifiers given out are consecutive; some may not be sent, when the
    channel is closed. *)
Definition numbered s s' (actions : list Action) (outcome : Outcome) : Prop :=
  exists k, sub_next_id s' = id_after (sub_next_id s) k /\
    (outcome = Returned (Ok tt) -> (forall w : W, env_open (S := S) (M := M) w = true) ->
     map fact_id (sent_facts actions) = ids_from (sub_next_id s) k).
(** The parts of the subscriber that a call does not change. *)
Definition same_config s s' : Prop :=
  sub_dispatcher s' = sub_dispatcher s /\ sub_skip s' = sub_skip s /\ sub_gate s' = sub_gate s.

Lemma respond_error_spec s w request_id error s' w' actions outcome :
  respond_error (S := S) (M := M) s w request_id error = (s', w', actions, outcome) ->
  answered request_id actions outcome /\ attempts actions = [] /\ numbered s s' actions outcome /\
  same_config s s' /\ sub_circuit s' = sub_circuit s /\ outcome <> Panicked.
Proof.
  unfold respond_error, send_response. cbn. destruct (env_open w) eqn:Ho; intros [= <- <- <- <-].
  - split_and!; try done. by exists 1%nat.
  - split_and!; try done. exists 1%nat. by split.
Qed.
Lemma count_denial_spec s w route s' actions :
  count_denial (S := S) (M := M) s w route = Some (s', actions) ->
  answers actions = [] /\ attempts actions = [] /\ same_config s s' /\
  exists k, sub_next_id s' = id_after (sub_next_id s) k /\
    ((forall w : W, env_open (S := S) (M := M) w = true) ->
     map fact_id (sent_facts actions) = ids_from (sub_next_id s) k).
Proof.
  unfold count_denial. destruct route as [route|], (sub_circuit s) as [circuit|];
    try (intros [= <- <-]; split_and!; try done; by exists O).
  destruct (record_deny circuit (env_now w)) as [[c [signal|]]|]; [| |done]; cbn.
  - destruct (env_open w) eqn:Ho; intros [= <- <-]; split_and!; try done; exists 1%nat; (split; [done|]).
    + done.
    + intros Hopen. by rewrite Hopen in Ho.
  - intros [= <- <-]. split_and!; try done. by exists O.
Qed.
Lemma deny_request_spec s w request_id io_type verdict route s' w' actions outcome :
  deny_request (S := S) (M := M) s w request_id io_type verdict route = (s', w', actions, outcome) ->
  answered request_id actions outcome /\ attempts actions = [] /\ numbered s s' actions outcome /\
  same_config s s'.
Proof.
  unfold deny_request. destruct (count_denial s w route) as [[s1 signal]|] eqn:Hc.
  2:{ intros [= <- <- <- <-]. split_and!; try done. exists O. by split. }
  destruct (respond_error s1 w request_id _) as [[[s2 w2] more] out] eqn:Hr. intros [= <- <- <- <-].
  apply count_denial_spec in Hc as (Ha1 & Ht1 & (Hd1 & Hk1 & Hg1) & k1 & Hn1 & Hi1).
  apply respond_error_spec in Hr as (Ha2 & Ht2 & (k2 & Hn2 & Hi2) & (Hd2 & Hk2 & Hg2) & _).
  split_and!.
  - unfold answered in *. destruct out as [[?|e]|]; rewrite answers_app, Ha1; [done| |done].
    destruct Ha2 as [-> ->]. done.
  - by rewrite attempts_app, Ht1, Ht2.
  - exists (k1 + k2)%nat. rewrite id_after_add, <- Hn1. split; [done|]. intros Hout Hopen.
    rewrite sent_facts_app, map_app, ids_from_app, Hi1, Hi2, Hn1 by done. done.
  - unfold same_config. by rewrite Hd2, Hk2, Hg2.
Qed.
Lemma execute_request_spec s w request_id io_type params s' w' actions outcome :
  execute_request (S := S) (M := M) s w request_id io_type params = (s', w', actions, outcome) ->
  answered request_id actions outcome /\ numbered s s' actions outcome /\ same_config s s' /\
  (length (attempts actions) <= 4)%nat /\
  exists r, retried io_type params r (attempts actions) /\
    (forall err, r = Err err -> is_retryable_error err = true -> length (attempts actions) = 4%nat) /\
    forall id rid value error, In (IoResponse id rid value error) (sent_facts actions) ->
      match r with Ok v => value = v /\ error = None | Err e => value = JNull /\ error = Some e end.
Proof.
  unfold execute_request. destruct (dispatch_loop _ _ _ _ _ _) as [[w1 acts] r] eqn:Hl.
  apply dispatch_loop_spec in Hl as (Hr & Hlen & Hs & Hex). unfold MAX_RETRIES in *.
  unfold send_response. cbn [next_fact_id]. destruct (env_open w1) eqn:Ho; intros [= <- <- <- <-].
  - rewrite attempts_app, app_nil_r. split_and!; try done.
    + cbn. rewrite answers_app. unfold answers. rewrite Hs. by destruct r.
    + exists 1%nat. split; [done|]. intros _ _. rewrite sent_facts_app, Hs. by destruct r.
    + exists r. split_and!; [done|done|]. intros id rid value error. rewrite sent_facts_app, Hs.
      destruct r; intros [[= <- <- <- <-]|[]]; done.
  - rewrite app_nil_r. split_and!; try done.
    + cbn. split; [|done]. unfold answers. by rewrite Hs.
    + exists 1%nat. by split.
    + exists r. split_and!; [done|done|]. by rewrite Hs.
Qed.

Lemma ask_circuit_same s w s' b :
  ask_circuit (S := S) (M := M) s w = (s', b) ->
  same_config s s' /\ sub_next_id s' = sub_next_id s.
Proof.
  unfold ask_circuit. destruct (sub_circuit s) as [c|]; [|by intros [= <- <-]].
  destruct (is_tripped c (env_now w)). by intros [= <- <-].
Qed.
Lemma numbered_same s0 s s' actions outcome :
  sub_next_id s = sub_next_id s0 -> numbered s s' actions outcome -> numbered s0 s' actions outcome.
Proof. intros Heq. unfold numbered. by rewrite Heq. Qed.
Lemma same_config_trans s1 s2 s3 : same_config s1 s2 -> same_config s2 s3 -> same_config s1 s3.
Proof. unfold same_config. intros (-> & -> & ->) (-> & -> & ->). done. Qed.

Definition skips s (io_type : IoType) (params : JsonValue) : bool :=
  match sub_skip s with Some skip => skip io_type params | None => false end.
Lemma dispatch_and_respond_spec s w id cause io_type params s' w' actions outcome :
  dispatch_and_respond (N := N) (S := S) (M := M) s w id cause io_type params = (s', w', actions, outcome) ->
  answered id actions outcome /\ numbered s s' actions outcome /\ same_config s s' /\
  (attempts actions = [] \/
   exists gate, sub_gate s = Some gate /\ snd (ask_circuit (S := S) (M := M) s w) = false /\
     fst (request_verdict (N := N) gate w cause io_type params) = VAllow /\
     (length (attempts actions) <= 4)%nat /\
     exists r, retried io_type params r (attempts actions) /\
       (forall err, r = Err err -> is_retryable_error err = true -> length (attempts actions) = 4%nat)).
Proof.
  unfold dispatch_and_respond. destruct (ask_circuit s w) as [s1 tripped] eqn:Ha.
  apply ask_circuit_same in Ha as [Hc1 Hn1]. destruct tripped.
  { intros (Han & Hat & Hnu & Hco & _)%respond_error_spec. split_and!; [done|by eapply numbered_same| |by left].
    by eapply same_config_trans. }
  destruct (sub_gate s1) as [gate|] eqn:Hg.
  2:{ intros (Han & Hat & Hnu & Hco & _)%respond_error_spec. split_and!; [done|by eapply numbered_same| |by left].
      by eapply same_config_trans. }
  destruct (request_verdict gate w cause io_type params) as [verdict route] eqn:Hv.
  case_bool_decide as Hallow.
  - intros (Han & Hnu & Hco & Hlen & r & Hr & Hex & _)%execute_request_spec.
    split_and!; [done|by eapply numbered_same|by eapply same_config_trans|]. right. exists gate.
    split_and!; [by rewrite <- Hg, (proj2 (proj2 Hc1))|done|by rewrite Hv|done|]. by exists r.
  - intros (Han & Hat & Hnu & Hco)%deny_request_spec.
    split_and!; [done|by eapply numbered_same|by eapply same_config_trans|by left].
Qed.

(** ** The breaker does not panic while the windows fit *)

Definition window_fits s : Prop :=
  forall c, sub_circuit s = Some c ->
    forall w : W, (env_now (S := S) (M := M) w + window (circuit_config c) <= instant_max)%Z.
Lemma record_deny_config c now c' signal :
  record_deny c now = Some (c', signal) -> circuit_config c' = circuit_config c.
Proof.
  unfold record_deny. destruct (_ =? _)%Z; [by intros [= <- <-]|]. cbv zeta.
  destruct (_ <? _)%Z; [by intros [= <- <-]|]. destruct (instant_add _ _); [|done]. by intros [= <- <-].
Qed.
Lemma record_deny_total c now :
  (now + window (circuit_config c) <= instant_max)%Z -> exists c' signal, record_deny c now = Some (c', signal).
Proof.
  intros Hw. unfold record_deny. destruct (_ =? _)%Z; [by eexists _, _|]. cbv zeta.
  destruct (_ <? _)%Z; [by eexists _, _|]. unfold instant_add. rewrite (proj2 (Z.leb_le _ _) Hw). by eexists _, _.
Qed.
Lemma is_tripped_config c now : circuit_config (fst (is_tripped c now)) = circuit_config c.
Proof.
  unfold is_tripped. destruct (tripped_until c) as [u|]; [|done]. by destruct (now <? u)%Z.
Qed.
Lemma window_fits_config s s' :
  (forall c', sub_circuit s' = Some c' ->
     exists c, sub_circuit s = Some c /\ circuit_config c' = circuit_config c) ->
  window_fits s -> window_fits s'.
Proof. intros Hs Hw c' Hc w. destruct (Hs c' Hc) as (c & Hc0 & ->). by apply Hw. Qed.
Lemma fits_no_panic s w id cause io_type params s' w' actions outcome :
  window_fits s ->
  dispatch_and_respond (N := N) (S := S) (M := M) s w id cause io_type params = (s', w', actions, outcome) ->
  outcome <> Panicked /\ window_fits s'.
Proof.
  intros Hw. unfold dispatch_and_respond. destruct (ask_circuit s w) as [s1 tripped] eqn:Ha.
  assert (window_fits s1) as Hw1.
  { eapply window_fits_config; [|exact Hw]. intros c' Hc'. unfold ask_circuit in Ha.
    destruct (sub_circuit s) as [c|] eqn:Hc; [|injection Ha as <- <-; congruence].
    pose proof (is_tripped_config c (env_now w)) as Ht. destruct (is_tripped c (env_now w)) as [c1 b].
    injection Ha as <- <-. injection Hc' as <-. by exists c. }
  assert (forall s s' w w' error actions outcome,
    respond_error (S := S) (M := M) s w id error = (s', w', actions, outcome) ->
    window_fits s -> outcome <> Panicked /\ window_fits s') as Hresp.
  { intros ? ? ? ? ? ? ? (_ & _ & _ & _ & Hc & Hp)%respond_error_spec Hf. split; [done|].
    unfold window_fits. by rewrite Hc. }
  destruct tripped; [intros Hr; by eapply Hresp|].
  destruct (sub_gate s1) as [gate|]; [|intros Hr; by eapply Hresp].
  destruct (request_verdict gate w cause io_type params) as [verdict route]. case_bool_decide.
  - unfold execute_request. destruct (dispatch_loop _ _ _ _ _ _) as [[w1 acts] r]. cbn [next_fact_id].
    unfold send_response. destruct (env_open w1); by intros [= <- <- <- <-].
  - unfold deny_request. destruct (count_denial s1 w route) as [[s2 signal]|] eqn:Hc.
    + destruct (respond_error s2 w id _) as [[[s3 w3] more] out] eqn:Hr. intros [= <- <- <- <-].
      eapply Hresp; [exact Hr|]. eapply window_fits_config; [|exact Hw1]. intros c' Hc'.
      unfold count_denial in Hc. destruct route as [route|], (sub_circuit s1) as [c|] eqn:Hsc;
        try (injection Hc as <- <-; rewrite Hsc in Hc'; congruence || (injection Hc' as <-; by exists c)).
      destruct (record_deny c (env_now w)) as [[c1 sg]|] eqn:Hrd; [|done]. apply record_deny_config in Hrd.
      destruct sg as [sg|]; cbn in Hc; [destruct (env_open w)|]; injection Hc as <- <-; injection Hc' as <-;
        by exists c.
    + unfold count_denial in Hc. destruct route as [route|], (sub_circuit s1) as [c|] eqn:Hsc; try done.
      destruct (record_deny_total c (env_now w) (Hw1 c Hsc w)) as (c' & signal & Hrd). rewrite Hrd in Hc.
      by destruct signal.
Qed.
End Spec.

(** C6: nothing is executed without permission, and retries are bounded.  If
    handling a fact calls the dispatcher at all, the fact is a request that is
    not left to an external executor, the breaker is not tripped, a gate is
    assembled and its verdict for this very request is permission; the calls
    are for this request, at most four, every one but the last having failed
    with an error [is_retryable_error] accepts, and retrying stops early only
    at a success or at an error that is not retryable. *)
Theorem subscriber_dispatch_authorised {N S M W}
    `{SerdeNumber N, SerdeText N, Blake3, FactWalStore S, MetadataCodec, MetadataFile M, Ed25519}
    `{!PermissionCodec N, !InstantRange, !SubscriberEnv S M W}
    (s s' : IoSubscriber W) (w w' : W) (fact : Fact) (actions : list Action) (outcome : Outcome) :
  subscriber_handle_fact (N := N) (S := S) (M := M) s w fact = (s', w', actions, outcome) ->
  attempts actions <> [] ->
  exists id cause io_type params gate,
    fact = IoRequest id cause io_type params /\ skips s io_type params = false /\
    snd (ask_circuit (S := S) (M := M) s w) = false /\ sub_gate s = Some gate /\
    fst (request_verdict (N := N) gate w cause io_type params) = VAllow /\
    (length (attempts actions) <= 4)%nat /\
    exists r, retried io_type params r (attempts actions) /\
      (forall err, r = Err err -> is_retryable_error err = true -> length (attempts actions) = 4%nat).
Proof.
  destruct fact as [| | |id cause io_type params| | | | |]; cbn [subscriber_handle_fact];
    try (by intros [= <- <- <- <-]).
  destruct (match sub_skip s with Some skip => skip io_type params | None => false end) eqn:Hskip;
    [by intros [= <- <- <- <-]|].
  intros (_ & _ & _ & [Hnil|(gate & Hg & Hc & Hv & Hlen & Hr)])%dispatch_and_respond_spec Hne; [done|].
  by exists id, cause, io_type, params, gate.
Qed.

(** The requests a run has to answer: those before the end of the channel that
    are not left to an external executor. *)
Fixpoint requests {W} (s : IoSubscriber W) (received : list Received) : list FactId :=
  match received with
  | [] => []
  | Event (IoRequest id _ io_type params) :: rest =>
      (if skips s io_type params then [] else [id]) ++ requests s rest
  | Closed :: _ => []
  | _ :: rest => requests s rest
  end.
Definition closes (received : list Received) : bool :=
  existsb (fun r => match r with Closed => true | _ => false end) received.

Section Run.
Context {N S M W : Type}.
Context `{SerdeNumber N, SerdeText N, Blake3, FactWalStore S, MetadataCodec, MetadataFile M, Ed25519}.
Context `{!PermissionCodec N, !InstantRange, !SubscriberEnv S M W}.
Context (channel_open : forall w : W, env_open (S := S) (M := M) w = true).

(** One event, with the channel open: its request is answered. *)
Lemma handle_fact_open (s : IoSubscriber W) w fact s' w' actions outcome :
  window_fits (S := S) (M := M) s ->
  subscriber_handle_fact (N := N) (S := S) (M := M) s w fact = (s', w', actions, outcome) ->
  outcome = Returned (Ok tt) /\ same_config s s' /\ window_fits (S := S) (M := M) s' /\
  answers actions = requests s [Event fact] /\
  exists k, sub_next_id s' = id_after (sub_next_id s) k /\ map fact_id (sent_facts actions) = ids_from (sub_next_id s) k.
Proof.
  intros Hw. destruct fact as [| | |id cause io_type params| | | | |]; cbn [subscriber_handle_fact];
    try (intros [= <- <- <- <-]; split_and!; try done; by exists O).
  cbn [requests]. unfold skips.
  destruct (match sub_skip s with Some skip => skip io_type params | None => false end) eqn:Hskip.
  { intros [= <- <- <- <-]. split_and!; try done. by exists O. }
  intros Hd. destruct (fits_no_panic _ _ _ _ _ _ _ _ _ _ Hw Hd) as [Hnp Hw'].
  destruct (dispatch_and_respond_spec _ _ _ _ _ _ _ _ _ _ Hd) as (Ha & (k & Hk & Hids) & Hc & _).
  assert (outcome = Returned (Ok tt)) as ->.
  { destruct outcome as [[[]|e]|]; [done| |done]. destruct Ha as [Hnil ->]. exfalso.
    clear -Hd channel_open. revert Hd. unfold dispatch_and_respond.
    destruct (ask_circuit s w) as [s1 []].
    { unfold respond_error, send_response. cbn. by rewrite channel_open. }
    destruct (sub_gate s1) as [gate|].
    2:{ unfold respond_error, send_response. cbn. by rewrite channel_open. }
    destruct (request_verdict gate w cause io_type params) as [verdict route]. case_bool_decide.
    - unfold execute_request. destruct (dispatch_loop _ _ _ _ _ _) as [[w1 acts] r]. cbn [next_fact_id].
      unfold send_response. by rewrite channel_open.
    - unfold deny_request. destruct (count_denial s1 w route) as [[s2 signal]|]; [|done].
      unfold respond_error, send_response. cbn. by rewrite channel_open. }
  split_and!; [done|done|done|by rewrite app_nil_r|]. exists k. split; [done|]. by apply Hids.
Qed.
Lemma requests_config (s s' : IoSubscriber W) received : sub_skip s' = sub_skip s -> requests s' received = requests s received.
Proof.
  intros Hs. induction received as [|[fact|n|] rest IH]; cbn; [done| |done..].
  destruct fact; try done. unfold skips. by rewrite Hs, IH.
Qed.
Lemma run_open (received : list Received) (s : IoSubscriber W) w s' w' actions end_ :
  window_fits (S := S) (M := M) s ->
  subscriber_run (N := N) (S := S) (M := M) s w received = (s', w', actions, end_) ->
  end_ = (if closes received then Some (Returned (Ok tt)) else None) /\
  answers actions = requests s received /\
  exists k, sub_next_id s' = id_after (sub_next_id s) k /\ map fact_id (sent_facts actions) = ids_from (sub_next_id s) k.
Proof.
  revert s w s' w' actions end_. induction received as [|[fact|n|] rest IH]; intros s w s' w' actions end_ Hw;
    cbn [subscriber_run].
  - intros [= <- <- <- <-]. split_and!; try done. by exists O.
  - destruct (subscriber_handle_fact s (env_wait w) fact) as [[[s1 w1] acts] out] eqn:Hf.
    destruct (handle_fact_open _ _ _ _ _ _ _ Hw Hf) as (-> & (_ & Hsk & _) & Hw1 & Ha & k & Hk & Hids).
    destruct (subscriber_run s1 w1 rest) as [[[s2 w2] more] e2] eqn:Hr. intros [= <- <- <- <-].
    destruct (IH _ _ _ _ _ _ Hw1 Hr) as (-> & Ha2 & k2 & Hk2 & Hids2). split_and!; [done| |].
    + rewrite answers_app, Ha, Ha2, (requests_config s s1 rest Hsk). cbn. destruct fact; try done.
      by rewrite app_nil_r.
    + exists (k + k2)%nat. rewrite id_after_add, <- Hk, sent_facts_app, map_app, ids_from_app, Hids, <- Hk, Hids2.
      done.
  - intros Hr. by apply (IH _ _ _ _ _ _ Hw Hr).
  - intros [= <- <- <- <-]. split_and!; try done. by exists O.
Qed.
End Run.

(** C37: every request is answered, once, in order.  Over any run of the
    subscriber with the command channel open and windows within the clock's
    range, the loop neither fails nor panics, ends exactly when the event
    channel closes, and the requests answered on the command channel are
    exactly the requests received that are not left to an external executor,
    in the order received: executed, refused by the gate or the breaker, or
    refused for want of a gate, none is left hanging and none is answered
    twice.  All facts sent, the breaker's signals included, carry consecutive
    identifiers from the subscriber's own counter. *)
Theorem subscriber_answers_all {N S M W}
    `{SerdeNumber N, SerdeText N, Blake3, FactWalStore S, MetadataCodec, MetadataFile M, Ed25519}
    `{!PermissionCodec N, !InstantRange, !SubscriberEnv S M W}
    (s s' : IoSubscriber W) (w w' : W) (received : list Received) (actions : list Action)
    (end_ : option Outcome) :
  (forall w : W, env_open (S := S) (M := M) w = true) -> window_fits (S := S) (M := M) s ->
  subscriber_run (N := N) (S := S) (M := M) s w received = (s', w', actions, end_) ->
  end_ = (if closes received then Some (Returned (Ok tt)) else None) /\
  answers actions = requests s received /\
  exists k, sub_next_id s' = id_after (sub_next_id s) k /\
    map fact_id (sent_facts actions) = ids_from (sub_next_id s) k.
Proof. intros Ho Hw Hr. by eapply run_open. Qed.

(** How one request can end.  Handling a request that is not skipped
    either sends exactly one response to it and returns, or returns
    [CommandClosed] naming it with no response sent, or (when the breaker's
    window leaves the range of the clock) panics with no response sent; any
    other fact, and a skipped request, leads to no action at all. *)
Lemma subscriber_outcomes {N S M W}
    `{SerdeNumber N, SerdeText N, Blake3, FactWalStore S, MetadataCodec, MetadataFile M, Ed25519}
    `{!PermissionCodec N, !InstantRange, !SubscriberEnv S M W}
    (s s' : IoSubscriber W) (w w' : W) (fact : Fact) (actions : list Action) (outcome : Outcome) :
  subscriber_handle_fact (N := N) (S := S) (M := M) s w fact = (s', w', actions, outcome) ->
  same_config s s' /\
  match requests s [Event fact] with
  | [request_id] => answered request_id actions outcome /\ numbered (S := S) (M := M) s s' actions outcome
  | _ => actions = [] /\ outcome = Returned (Ok tt) /\ s' = s /\ w' = w
  end.
Proof.
  destruct fact as [| | |id cause io_type params| | | | |]; cbn [subscriber_handle_fact requests];
    try (by intros [= <- <- <- <-]).
  unfold skips. destruct (match sub_skip s with Some skip => skip io_type params | None => false end);
    [by intros [= <- <- <- <-]|].
  intros (Ha & Hn & Hc & _)%dispatch_and_respond_spec. by split.
Qed.

(** * An example *)

(** The world is a step counter.  The handler times out until step 3; the
    entry of [PermissionDemo] allows payloads marked safe only. *)
Module SubscriberDemo.
Import ZNumber ZText ZHash ZSign ZMetadata ZPermission.
#[export] Instance range : InstantRange := {| instant_min := 0; instant_max := 2 ^ 63 |}.
#[export] Instance env : SubscriberEnv MemoryWalStore (option string * option string) nat := {|
  env_now w := Z.min (Z.of_nat w) 1000;
  env_open _ := true;
  env_log _ := PermissionDemo.log1;
  env_sleep _ w := Datatypes.S w;
  env_wait w := w;
|}.
Definition handler : IoHandler nat := fun w _ =>
  if (w <? 3)%nat then (Datatypes.S w, Err "Request Timeout") else (Datatypes.S w, Ok (JInteger 7)).
Definition subscriber : IoSubscriber nat :=
  with_circuit_breaker
    (with_permission_gate (subscriber_new (register dispatcher_new "http_get" handler)) PermissionDemo.gate)
    (circuit_new BreakerDemo.cfg).
Definition request (id : Z) (payload : JsonValue) : Fact := IoRequest id 4%Z "http_get" payload.
Definition received : list Received :=
  [Event (request 5%Z PermissionDemo.safe); Lagged 2; Event (request 6%Z JNull); Closed].
Definition handled (fact : Fact) : IoSubscriber nat * nat * list Action * Outcome :=
  subscriber_handle_fact (N := Z) (S := MemoryWalStore) (M := option string * option string)
    subscriber 0%nat fact.
End SubscriberDemo.
Import ZNumber ZText ZHash ZSign ZMetadata ZPermission SubscriberDemo.

Lemma subscriber_dispatch_authorised_witness :
  exists s' w' actions outcome r,
    SubscriberDemo.handled (SubscriberDemo.request 5%Z PermissionDemo.safe) = (s', w', actions, outcome) /\
    length (attempts actions) = 3%nat /\
    retried "http_get" PermissionDemo.safe r (attempts actions).
Proof.
  destruct (SubscriberDemo.handled (SubscriberDemo.request 5%Z PermissionDemo.safe)) as [[[s' w'] actions] outcome] eqn:Hh.
  assert (length (attempts actions) = 3%nat) as Hlen.
  { change actions with (snd (fst (s', w', actions, outcome))). rewrite <- Hh. vm_compute. reflexivity. }
  destruct (subscriber_dispatch_authorised _ _ _ _ _ _ _ Hh)
    as (id & cause & io_type & params & gate & [= <- <- <- <-] & _ & _ & _ & _ & _ & r & Hr & _).
  { intros Hnil. by rewrite Hnil in Hlen. }
  by exists s', w', actions, outcome, r.
Defined.
Lemma subscriber_answers_all_witness :
  let '(_, _, actions, end_) :=
    subscriber_run (N := Z) (S := MemoryWalStore) (M := option string * option string)
      SubscriberDemo.subscriber 0%nat SubscriberDemo.received in
  end_ = Some (Returned (Ok tt)) /\ answers actions = [5%Z; 6%Z].
Proof.
  destruct (subscriber_run _ _ _) as [[[s' w'] actions] end_] eqn:Hr.
  edestruct (subscriber_answers_all (N := Z) (S := MemoryWalStore) (M := option string * option string))
    as (-> & Ha & _); [| |exact Hr|].
  - intros w. reflexivity.
  - intros c [= <-] w. change (Z.min (Z.of_nat w) 1000 + 10 * 10 ^ 9 <= 2 ^ 63)%Z. lia.
  - split; [reflexivity|exact Ha].
Defined.
Lemma subscriber_outcomes_witness :
  exists s' w' actions,
    SubscriberDemo.handled (SubscriberDemo.request 6%Z JNull) = (s', w', actions, Returned (Ok tt)) /\
    answers actions = [6%Z] /\ attempts actions = [].
Proof.
  destruct (SubscriberDemo.handled (SubscriberDemo.request 6%Z JNull)) as [[[s' w'] actions] outcome] eqn:Hh.
  assert (outcome = Returned (Ok tt) /\ attempts actions = []) as [-> Hatt].
  { split; [change outcome with (snd (s', w', actions, outcome))
      |change actions with (snd (fst (s', w', actions, outcome)))]; rewrite <- Hh; vm_compute; reflexivity. }
  destruct (subscriber_outcomes _ _ _ _ _ _ _ Hh) as [_ [Ha _]].
  by exists s', w', actions.
Defined.
