(* ===== verification/Auditor.v ===== *)
(** The auditor, [evorule-governance/src/auditor.rs], with the logical clock
    of [clock.rs]: it follows a facts log with a hash chain of its own, verifies
    it, seals anchors over it, is rebuilt from a write-ahead log, and is
    exported and imported as JSON. *)

From S2P Require Import Prelude ObjectMap Value Error Path Domain Executor ExecSemantics Transition Fact Serde Hash Wal WalFile FactsLog Signing Anchor.

(** * The logical clock, [clock.rs]

    The counter is atomic and shared by clones; an operation is one step of
    it, its compare-and-swap loop retrying until it is. *)

Definition clock_new : Z := 0%Z.
Definition tick (counter : Z) : Z * Z :=
  (u64_wrapping_add counter 1, u64_wrapping_add counter 1).
Definition current (counter : Z) : Z := counter.
Definition advance_to (counter target : Z) : Z := if (target <=? counter)%Z then counter else target.
Definition merge (counter other : Z) : Z := u64_wrapping_add (Z.max counter other) 1.
(** [while clock.current() < target { clock.tick(); }]. *)
Fixpoint tick_while (fuel : nat) (counter target : Z) : Z :=
  match fuel with
  | O => counter
  | Datatypes.S fuel =>
      if (current counter <? target)%Z then tick_while fuel (fst (tick counter)) target else counter
  end.
Definition tick_until (counter target : Z) : Z := tick_while (Z.to_nat (target - counter)) counter target.

(** * Data *)

(** [struct AuditEntry]. *)
Record AuditEntry : Type := mk_audit_entry {
  ae_fact_id : FactId;
  ae_fact_type : string;
  ae_logical_time : Z;
  ae_content_hash : string;
  ae_prev_hash : string;
  ae_cause : option FactId;
}.
(** [enum LoadError]. *)
Inductive LoadError : Type :=
| LoadIo (msg : string)
| LoadHash (msg : string)
| LoadContentMismatch (index : Z) (fact_id : FactId) (stored recomputed : string)
| LoadChainBroken (index : Z) (fact_id : FactId) (stored_prev expected_prev : string)
| LoadChainMismatch (index : Z) (fact_id : FactId) (stored recomputed : string).
Definition load_error_display (e : LoadError) : string :=
  match e with
  | LoadIo msg => "WAL 读取失败: " +:+ msg
  | LoadHash msg => "哈希计算失败: " +:+ msg
  | LoadContentMismatch index id stored recomputed =>
      "Fact[" +:+ pretty index +:+ "] (id=" +:+ pretty id +:+ ") 内容哈希不匹配: stored=" +:+ stored
      +:+ ", recomputed=" +:+ recomputed
  | LoadChainBroken index id stored_prev expected_prev =>
      "Fact[" +:+ pretty index +:+ "] (id=" +:+ pretty id +:+ ") 哈希链断裂: stored_prev="
      +:+ stored_prev +:+ ", expected_prev=" +:+ expected_prev
  | LoadChainMismatch index id stored recomputed =>
      "Fact[" +:+ pretty index +:+ "] (id=" +:+ pretty id +:+ ") 链哈希不匹配: stored=" +:+ stored
      +:+ ", recomputed=" +:+ recomputed
  end.

(** [struct Auditor], its fields in three groups.  The facts log is a handle
    shared with the session: an operation that reads it takes the log it sees
    as an argument. *)
Record AuditChain : Type := mk_chain {
  ch_clock : Z;
  last_audited_version : Z;
  ch_entries : list AuditEntry;
  ch_last_hash : string;
  ch_index : gmap FactId nat;
}.
Record AutoVerify : Type := mk_auto {
  auto_verify : bool;
  auto_verify_threshold : nat;
  auto_verify_interval : nat;
  audit_new_count : Z;
  auto_verify_failure_count : Z;
  auto_verify_skip_count : Z;
}.
Record AnchorState (A : Type) `{Ed25519} : Type := mk_anchoring {
  anchor_builder : option AnchorChainBuilder;
  sealing_interval : nat;
  sealed : list AuditAnchor;
  anchor_log : option A;
}.
Arguments mk_anchoring {A _}.
Arguments anchor_builder {A _}.
Arguments sealing_interval {A _}.
Arguments sealed {A _}.
Arguments anchor_log {A _}.
Record Auditor (A : Type) `{Ed25519} : Type := mk_auditor {
  chain : AuditChain;
  auto : AutoVerify;
  anchoring : AnchorState A;
  audit_wal_path : option WalPath;
}.
Arguments mk_auditor {A _}.
Arguments chain {A _}.
Arguments auto {A _}.
Arguments anchoring {A _}.
Arguments audit_wal_path {A _}.

Definition FACT_TYPE_STATIC_TABLE : list string :=
  ["Command"; "PayloadUpdate"; "StateTransition"; "IoRequest"; "IoResponse"; "Stable"; "Error";
   "Unknown"].
Definition static_type (name : string) : string :=
  default "Unknown" (List.find (fun t => String.eqb t name) FACT_TYPE_STATIC_TABLE).
Definition extract_cause (fact : Fact) : option FactId :=
  match fact with
  | StateTransition _ cause _ _ => Some cause
  | IoRequest _ cause _ _ => Some cause
  | IoResponse _ request_id _ _ => Some request_id
  | _ => None
  end.

(** The derived [serde] codec of an anchor, one line of the anchor log; the
    file of the log, appended to and read as a whole; the pretty text of
    [serde_json]; and [flate2]. *)
Class AnchorCodec : Type := {
  anchor_to_string : AuditAnchor -> Result string string;
  anchor_from_str : string -> Result AuditAnchor string;
}.
Class AnchorFile (A : Type) : Type := {
  append_anchor_line : A -> string -> A * Result unit string;
  read_anchor_file : A -> Result string string;
}.
Class SerdePretty (N : Type) : Type := {
  serde_to_string_pretty : SValue N -> Result string string;
}.
(** [gz_read limit bytes]: what [take(limit)] of the decoder gives. *)
Class Gzip : Type := {
  gz_encode : string -> Result string string;
  gz_read : Z -> string -> Result string string;
}.

(** Documented: serialising succeeds and reads back; the line of an anchor is
    an object, without control characters; the file grows by what is appended;
    the pretty text of a value parses to it below the recursion limit; decompression undoes compression
    within the limit. *)
Class AnchorCodecLaws `{AnchorCodec} : Prop := {
  anchor_to_string_total an : exists s, anchor_to_string an = Ok s;
  anchor_from_to_string an s : anchor_to_string an = Ok s -> anchor_from_str s = Ok an;
  anchor_to_string_line an s :
    anchor_to_string an = Ok s ->
    str_all is_printable s = true /\ trim s = s /\ str_is_empty s = false;
}.
Class AnchorFileLaws (A : Type) `{AnchorFile A} : Prop := {
  append_anchor_reads f line f' content :
    append_anchor_line f line = (f', Ok tt) -> read_anchor_file f = Ok content ->
    read_anchor_file f' = Ok (content +:+ line);
}.
Class SerdePrettyLaws (N : Type) `{SerdeNumber N, SerdeText N, !SerdePretty N} : Prop := {
  to_string_pretty_total (v : SValue N) : exists s, serde_to_string_pretty v = Ok s;
  from_to_string_pretty (v : SValue N) s :
    s_wf v = true -> shallow v = true -> serde_to_string_pretty v = Ok s -> serde_from_str s = Ok v;
}.
Class GzipLaws `{Gzip} : Prop := {
  gz_encode_total text : exists bytes, gz_encode text = Ok bytes;
  gz_read_encode text bytes limit :
    gz_encode text = Ok bytes -> (Z.of_nat (String.length text) <= limit)%Z ->
    gz_read limit bytes = Ok text;
}.

(** [str::lines]. *)
Fixpoint complete_lines (segments : list string) : list string :=
  match segments with
  | [] => []
  | [s] => if str_is_empty s then [] else [s]
  | s :: rest => strip_cr s :: complete_lines rest
  end.
Definition str_lines (content : string) : list string := complete_lines (split_char newline content).
(** [&s[..n.min(s.len())]], which panics inside a character. *)
Definition byte_prefix (n : nat) (s : string) : option string :=
  match String.get n s with
  | Some c => if (128 <=? nat_of_ascii c)%nat && (nat_of_ascii c <? 192)%nat then None
              else Some (String.substring 0 n s)
  | None => Some s
  end.

(** * Creation and configuration *)

Section Auditor.
Context {N S A : Type}.
Context `{SerdeNumber N, SerdeText N, Blake3, FactWalStore S, Ed25519, AnchorCodec, AnchorFile A}.
Implicit Types a : Auditor A.
Implicit Types log : FactsLog S.

Definition chain_new : AuditChain := mk_chain clock_new 0 [] "genesis" ∅.
Definition anchoring_off : AnchorState A := mk_anchoring None 0 [] None.
Definition at_least_one (interval : nat) : nat := if Nat.eqb interval 0 then 1 else interval.
Definition auditor_new : Auditor A :=
  mk_auditor chain_new (mk_auto false 1000 1 0 0 0) anchoring_off None.
Definition new_with_auto_verify (on : bool) (threshold interval : nat) : Auditor A :=
  mk_auditor chain_new (mk_auto on threshold (at_least_one interval) 0 0 0) anchoring_off None.

Definition with_chain a (c : AuditChain) : Auditor A := mk_auditor c (auto a) (anchoring a) (audit_wal_path a).
Definition with_auto a (v : AutoVerify) : Auditor A := mk_auditor (chain a) v (anchoring a) (audit_wal_path a).
Definition with_anchoring a (s : AnchorState A) : Auditor A := mk_auditor (chain a) (auto a) s (audit_wal_path a).
Definition with_wal_path a (path : WalPath) : Auditor A :=
  mk_auditor (chain a) (auto a) (anchoring a) (Some path).
Definition set_auto_verify a (on : bool) (threshold interval : nat) : Auditor A :=
  let v := auto a in
  with_auto a (mk_auto on threshold (at_least_one interval) (audit_new_count v)
                 (auto_verify_failure_count v) (auto_verify_skip_count v)).
Definition is_auto_verify_enabled a : bool := auto_verify (auto a).

(** * Verification *)

(** The loop of [verify]. *)
Fixpoint verify_links (prev_hash : string) (entries : list AuditEntry) : bool :=
  match entries with
  | [] => true
  | entry :: rest =>
      if negb (String.eqb (ae_prev_hash entry) prev_hash) then false
      else verify_links (chain_step (ae_prev_hash entry) (ae_content_hash entry)) rest
  end.
Definition verify a : bool := verify_links "genesis" (ch_entries (chain a)).
(** The loop of [verify_deep], over the zipped entries and facts. *)
Fixpoint verify_contents (idx : Z) (pairs : list (AuditEntry * Fact)) : Result unit LoadError :=
  match pairs with
  | [] => Ok tt
  | (entry, fact) :: rest =>
      match fact_hash fact with
      | Err e => Err (LoadHash ("entry[" +:+ pretty idx +:+ "]: " +:+ hash_error_display e))
      | Ok recomputed =>
          if negb (String.eqb recomputed (ae_content_hash entry)) then
            Err (LoadContentMismatch idx (ae_fact_id entry) (ae_content_hash entry) recomputed)
          else verify_contents (idx + 1) rest
      end
  end.
Definition verify_deep a (facts : list Fact) : Result unit LoadError :=
  let entries := ch_entries (chain a) in
  if negb (Nat.eqb (length facts) (length entries)) then
    Err (LoadChainBroken u64_max 0%Z ""
           ("facts.len()=" +:+ pretty (N.of_nat (length facts)) +:+ " != entries.len()="
            +:+ pretty (N.of_nat (length entries))))
  else if negb (verify a) then Err (LoadChainBroken 0%Z 0%Z "" "verify() failed")
  else verify_contents 0 (zip entries facts).

(** [should_auto_verify]: with the count of skips it leaves. *)
Definition add_skip (v : AutoVerify) : AutoVerify :=
  mk_auto (auto_verify v) (auto_verify_threshold v) (auto_verify_interval v) (audit_new_count v)
    (auto_verify_failure_count v) (u64_wrapping_add (auto_verify_skip_count v) 1).
Definition add_failure (v : AutoVerify) : AutoVerify :=
  mk_auto (auto_verify v) (auto_verify_threshold v) (auto_verify_interval v) (audit_new_count v)
    (u64_wrapping_add (auto_verify_failure_count v) 1) (auto_verify_skip_count v).
Definition should_auto_verify a : Auditor A * bool :=
  let v := auto a in
  let len := length (ch_entries (chain a)) in
  if negb (auto_verify v) || Nat.eqb len 0 then (a, false)
  else if Nat.ltb 0 (auto_verify_threshold v) && Nat.ltb (auto_verify_threshold v) len then
    (with_auto a (add_skip v), false)
  else if Nat.ltb 1 (auto_verify_interval v)
          && negb (audit_new_count v mod Z.of_nat (auto_verify_interval v) =? 0)%Z then
    (with_auto a (add_skip v), false)
  else (a, true).

(** * Anchors *)

(** [persist_anchor]: a failure is only logged. *)
Definition persist_anchor (s : AnchorState A) (anchor : AuditAnchor) : AnchorState A :=
  match anchor_log s with
  | Some path =>
      match anchor_to_string anchor with
      | Err _ => s
      | Ok json =>
          mk_anchoring (anchor_builder s) (sealing_interval s) (sealed s)
            (Some (fst (append_anchor_line path (json +:+ String newline EmptyString))))
      end
  | None => s
  end.
Definition push_sealed (s : AnchorState A) (anchor : AuditAnchor) : AnchorState A :=
  mk_anchoring (anchor_builder s) (sealing_interval s) (sealed s ++ [anchor]) (anchor_log s).
(** [builder.seal], then the log and the sequence; a failing seal changes
    nothing but the builder. *)
Definition seal_with (s : AnchorState A) (builder : AnchorChainBuilder) (fact_hi : nat) (head : string) :
    AnchorState A * Result AuditAnchor AnchorError :=
  let '(builder, r) := seal builder fact_hi head in
  let s := mk_anchoring (Some builder) (sealing_interval s) (sealed s) (anchor_log s) in
  match r with
  | Ok anchor => (push_sealed (persist_anchor s anchor) anchor, Ok anchor)
  | Err e => (s, Err e)
  end.
Definition auditor_seal_now a : Auditor A * Result AuditAnchor AnchorError :=
  match anchor_builder (anchoring a) with
  | None => (a, Err (AHash "锚点链未配置（先调用 with_anchor）"))
  | Some builder =>
      let '(s, r) :=
        seal_with (anchoring a) builder (length (ch_entries (chain a))) (ch_last_hash (chain a)) in
      (with_anchoring a s, r)
  end.

(** The loop of [load_anchor_log]: a line that cannot be read is skipped. *)
Fixpoint read_anchors (lines : list string) : list AuditAnchor :=
  match lines with
  | [] => []
  | line :: rest =>
      if str_is_empty (trim line) then read_anchors rest
      else match anchor_from_str line with
           | Ok anchor => anchor :: read_anchors rest
           | Err _ => read_anchors rest
           end
  end.
Definition load_anchor_log (path : A) : Result (list AuditAnchor) string :=
  match read_anchor_file path with
  | Err e => Err ("read: " +:+ e)
  | Ok content => Ok (read_anchors (str_lines content))
  end.
Definition resume_builder (builder : AnchorChainBuilder) (anchors : list AuditAnchor) : AnchorChainBuilder :=
  match last anchors with
  | Some anchor =>
      let '(signer, key_id, engine_id, session_id) := identity builder in
      new_with_prev signer key_id engine_id session_id (a_anchor_hash anchor)
        (u64_wrapping_add (a_seq anchor) 1) (hi (a_fact_range anchor))
  | None => builder
  end.
Definition with_anchor_impl a (signer : AuditSigner) (key_id engine_id session_id : string)
    (interval : nat) (path : option A) : Auditor A :=
  let builder := builder_new signer key_id engine_id session_id in
  match path with
  | Some file =>
      match load_anchor_log file with
      | Ok restored =>
          with_anchoring a (mk_anchoring (Some (resume_builder builder restored)) interval restored path)
      | Err _ => with_anchoring a (mk_anchoring (Some builder) interval (sealed (anchoring a)) path)
      end
  | None => with_anchoring a (mk_anchoring (Some builder) interval (sealed (anchoring a)) path)
  end.
Definition auditor_with_anchor a (signer : AuditSigner) (key_id engine_id session_id : string)
    (interval : nat) : Auditor A :=
  with_anchor_impl a signer key_id engine_id session_id interval None.
Definition with_anchor_persisted a (signer : AuditSigner) (key_id engine_id session_id : string)
    (interval : nat) (path : A) : Auditor A :=
  with_anchor_impl a signer key_id engine_id session_id interval (Some path).

(** [verify_anchors]: the chain of anchors, then each anchor against the head
    recomputed from the entries; [None] is the panic of a byte slice inside a
    character. *)
Fixpoint entry_heads (entries : list AuditEntry) : list string :=
  match entries with
  | [] => []
  | entry :: rest => chain_step (ae_prev_hash entry) (ae_content_hash entry) :: entry_heads rest
  end.
Fixpoint verify_heads (heads : list string) (entry_count : nat) (anchors : list AuditAnchor) :
    option (Result unit string) :=
  match anchors with
  | [] => Some (Ok tt)
  | a :: rest =>
      match heads !! hi (a_fact_range a) with
      | None =>
          Some (Err ("锚点[" +:+ pretty (a_seq a) +:+ "] fact_hi=" +:+ pretty (N.of_nat (hi (a_fact_range a)))
                     +:+ " 超出已审计条目数 " +:+ pretty (N.of_nat entry_count)
                     +:+ "（锚点与审计进度不符）"))
      | Some expect =>
          if negb (String.eqb expect (a_chain_head a)) then
            let! claimed := byte_prefix 16 (a_chain_head a) in
            let! recomputed := byte_prefix 16 expect in
            Some (Err ("锚点[" +:+ pretty (a_seq a) +:+ "] 链头绑定失败: 锚点声称 " +:+ claimed +:+ "… 重算 "
                       +:+ recomputed +:+ "…（事实链被篡改/替换）"))
          else verify_heads heads entry_count rest
      end
  end.
Definition auditor_verify_anchors a (keys : gmap string string) : option (Result unit string) :=
  match verify_anchor_chain (sealed (anchoring a)) keys with
  | Err e => Some (Err (anchor_error_display e))
  | Ok _ =>
      let entries := ch_entries (chain a) in
      verify_heads ("genesis" :: entry_heads entries) (length entries) (sealed (anchoring a))
  end.

(** * Auditing new facts *)

(** The callback of [audit_new], for the fact at a position of the history. *)
Definition push_entry (c : AuditChain) (clock : Z) (entry : AuditEntry) (entry_index : nat) (head : string) :
    AuditChain :=
  mk_chain clock (last_audited_version c) (ch_entries c ++ [entry]) head
    (<[ae_fact_id entry := entry_index]> (ch_index c)).
Definition audit_fact (c : AuditChain) (entry_index : nat) (fact : Fact) : AuditChain :=
  let '(clock, logical_time) := tick (ch_clock c) in
  let prev := ch_last_hash c in
  let content :=
    match fact_hash fact with
    | Ok h => h
    | Err _ => "corrupted-entry"
    end in
  push_entry c clock
    (mk_audit_entry (fact_id fact) (type_name fact) logical_time content prev (extract_cause fact))
    entry_index (chain_step prev content).
Fixpoint audit_facts (c : AuditChain) (entry_index : nat) (tail : list (Z * Fact)) : AuditChain :=
  match tail with
  | [] => c
  | (_, fact) :: tail => audit_facts (audit_fact c entry_index fact) (Datatypes.S entry_index) tail
  end.
Definition set_audited_version (c : AuditChain) (v : Z) : AuditChain :=
  mk_chain (ch_clock c) v (ch_entries c) (ch_last_hash c) (ch_index c).
Definition count_audit (v : AutoVerify) : AutoVerify :=
  mk_auto (auto_verify v) (auto_verify_threshold v) (auto_verify_interval v)
    (u64_wrapping_add (audit_new_count v) 1) (auto_verify_failure_count v) (auto_verify_skip_count v).
(** The anchor policy of [audit_new]. *)
Definition seal_when_due a : Auditor A :=
  match anchor_builder (anchoring a) with
  | Some builder =>
      let len := length (ch_entries (chain a)) in
      let fresh := (len - next_fact_lo builder)%nat in
      let interval := sealing_interval (anchoring a) in
      if Nat.ltb 0 interval && Nat.leb interval fresh then
        with_anchoring a (fst (seal_with (anchoring a) builder len (ch_last_hash (chain a))))
      else a
  | None => a
  end.
Definition verify_when_due a : Auditor A :=
  let '(a, due) := should_auto_verify a in
  if due && negb (verify a) then with_auto a (add_failure (auto a)) else a.
(** [audit_new].  It reads the shared log three times, for its length, for the
    facts and for the version; others may append in between. *)
Definition audit_new a (log_len log_facts log_version_at : FactsLog S) : Auditor A * nat :=
  let a := with_auto a (count_audit (auto a)) in
  let start := length (ch_entries (chain a)) in
  if Nat.leb (history_len log_len) start then
    (with_chain a (set_audited_version (chain a) (log_version log_version_at)), O)
  else
    let count := (history_len log_len - start)%nat in
    let c := audit_facts (chain a) start (fst (for_each_fact_from log_facts start)) in
    let a := with_chain a (set_audited_version c (log_version log_version_at)) in
    let a := seal_when_due a in
    (verify_when_due a, count).

(** * Queries *)

Definition audit_last_hash a : string := ch_last_hash (chain a).
(** [causal_chain]; [entries[i]] panics out of range, and the loop need not
    end. *)
Inductive CausalChain : Type := CausalDone (chain : list AuditEntry) | CausalPanic | CausalRuns.
Definition causal_cons (entry : AuditEntry) (r : CausalChain) : CausalChain :=
  match r with CausalDone l => CausalDone (entry :: l) | r => r end.
Fixpoint causal_loop (fuel : nat) (c : AuditChain) (cursor : option FactId) : CausalChain :=
  match cursor with
  | None => CausalDone []
  | Some cur_id =>
      match fuel with
      | O => CausalRuns
      | Datatypes.S fuel =>
          match ch_index c !! cur_id with
          | Some i =>
              match ch_entries c !! i with
              | Some entry => causal_cons entry (causal_loop fuel c (ae_cause entry))
              | None => CausalPanic
              end
          | None => CausalDone []
          end
      end
  end.
Definition causal_chain (fuel : nat) a (fact_id : FactId) : CausalChain :=
  causal_loop fuel (chain a) (Some fact_id).

(** * Export and import *)

Context `{!SerdePretty N, Gzip}.

Definition entry_json (e : AuditEntry) : SValue N :=
  s_object
    [("fact_id", s_u64 (ae_fact_id e)); ("fact_type", SString (ae_fact_type e));
     ("logical_time", s_u64 (ae_logical_time e)); ("content_hash", SString (ae_content_hash e));
     ("prev_hash", SString (ae_prev_hash e));
     ("cause", match ae_cause e with Some c => s_u64 c | None => SNull end)].
Definition report_json a : SValue N :=
  let c := chain a in
  s_object
    [("last_audited_version", s_u64 (last_audited_version c));
     ("entry_count", s_u64 (Z.of_nat (length (ch_entries c))));
     ("last_hash", SString (ch_last_hash c));
     ("entries", SArray (map entry_json (ch_entries c)))].
Definition report a : Result string string := serde_to_string_pretty (report_json a).
Definition export_json a : SValue N :=
  let c := chain a in
  s_object
    [("version", SString "1.0"); ("last_hash", SString (ch_last_hash c));
     ("last_audited_version", s_u64 (last_audited_version c));
     ("entry_count", s_u64 (Z.of_nat (length (ch_entries c))));
     ("entries", SArray (map entry_json (ch_entries c)))].
Definition export a : Result string string := serde_to_string_pretty (export_json a).

Definition get_u64 (v : SValue N) (key : string) : option Z := let! x := s_get v key in s_as_u64 x.
Definition get_str (v : SValue N) (key : string) : option string := let! x := s_get v key in s_as_str x.
(** The optional fields of an entry, read alike by [import] and by the reader
    of the former log. *)
Definition read_entry (v : SValue N) (id : Z) (fact_type : string) : AuditEntry :=
  mk_audit_entry id (static_type fact_type) (default 0%Z (get_u64 v "logical_time"))
    (default "" (get_str v "content_hash")) (default "" (get_str v "prev_hash")) (get_u64 v "cause").
Definition import_entry (idx : nat) (v : SValue N) : Result AuditEntry string :=
  let? id := ok_or (get_u64 v "fact_id") ("Entry " +:+ pretty (N.of_nat idx) +:+ " missing 'fact_id'") in
  let? fact_type :=
    ok_or (get_str v "fact_type") ("Entry " +:+ pretty (N.of_nat idx) +:+ " missing 'fact_type'") in
  Ok (read_entry v id fact_type).
(** The entries read before an error stay. *)
Definition add_entry (c : AuditChain) (entry : AuditEntry) (idx : nat) : AuditChain :=
  push_entry c (ch_clock c) entry idx (ch_last_hash c).
Fixpoint import_entries (c : AuditChain) (idx : nat) (values : list (SValue N)) :
    AuditChain * Result unit string :=
  match values with
  | [] => (c, Ok tt)
  | v :: rest =>
      match import_entry idx v with
      | Err e => (c, Err e)
      | Ok entry => import_entries (add_entry c entry idx) (Datatypes.S idx) rest
      end
  end.
Definition cleared_chain (c : AuditChain) : AuditChain := mk_chain (ch_clock c) 0 [] "genesis" ∅.
Definition reset_count (v : AutoVerify) : AutoVerify :=
  mk_auto (auto_verify v) (auto_verify_threshold v) (auto_verify_interval v) 0
    (auto_verify_failure_count v) (auto_verify_skip_count v).
Definition max_time (entries : list AuditEntry) : Z :=
  fold_left (fun m e => Z.max m (ae_logical_time e)) entries 0%Z.
Definition import a (json_str : string) : Auditor A * Result unit string :=
  match serde_from_str json_str with
  | Err e => (a, Err ("JSON parse error: " +:+ e))
  | Ok parsed =>
      match get_str parsed "version" with
      | None => (a, Err "Missing 'version' field")
      | Some version =>
          if negb (String.eqb version "1.0") then
            (a, Err ("Unsupported version: " +:+ version +:+ " (expected 1.0)"))
          else
            match (let! entries := s_get parsed "entries" in s_as_array entries) with
            | None => (a, Err "Missing 'entries' array")
            | Some values =>
                let a := with_auto (with_chain a (cleared_chain (chain a))) (reset_count (auto a)) in
                match import_entries (chain a) 0 values with
                | (c, Err e) => (with_chain a c, Err e)
                | (c, Ok _) =>
                    let c :=
                      mk_chain (tick_until (ch_clock c) (max_time (ch_entries c)))
                        (default 0%Z (get_u64 parsed "last_audited_version")) (ch_entries c)
                        (default "genesis" (get_str parsed "last_hash")) (ch_index c) in
                    (with_chain a c, Ok tt)
                end
            end
      end
  end.
(** An [import], whatever it is, followed by [verify]. *)
Definition then_verify (r : Auditor A * Result unit string) : Auditor A * Result bool string :=
  let '(a, r) := r in (a, let? _u := r in Ok (verify a)).
Definition import_and_verify a (json_str : string) : Auditor A * Result bool string :=
  then_verify (import a json_str).
Definition export_compressed a : Result string string :=
  let? text := export a in gz_encode text.
Definition MAX_DECOMPRESSED_BYTES : Z := (256 * 1024 * 1024)%Z.
Definition import_compressed a (compressed : string) : Auditor A * Result unit string :=
  match gz_read (MAX_DECOMPRESSED_BYTES + 1) compressed with
  | Err e => (a, Err ("Decompression error: " +:+ e))
  | Ok decompressed =>
      if (MAX_DECOMPRESSED_BYTES <? Z.of_nat (String.length decompressed))%Z then
        (a, Err ("Decompressed audit export exceeds " +:+ pretty MAX_DECOMPRESSED_BYTES
                 +:+ " bytes limit (possible compressed bomb)"))
      else import a decompressed
  end.
Definition import_compressed_and_verify a (compressed : string) : Auditor A * Result bool string :=
  then_verify (import_compressed a compressed).

(** * Loading the write-ahead log *)

(** The loop of [load_from_tier1_wal]: the chain so far, the recomputed hash
    and whether a record had its chain hash. *)
Definition load_content (rec : WalRecord) (idx : nat) : Result string LoadError :=
  match rec_content_hash rec with
  | Some stored =>
      match fact_hash (rec_fact rec) with
      | Err e => Err (LoadHash ("fact[" +:+ pretty (N.of_nat idx) +:+ "]: " +:+ hash_error_display e))
      | Ok recomputed =>
          if negb (String.eqb stored recomputed) then
            Err (LoadContentMismatch (Z.of_nat idx) (fact_id (rec_fact rec)) stored recomputed)
          else Ok stored
      end
  | None => Ok (default "" (result_ok (fact_hash (rec_fact rec))))
  end.
Definition load_record (prev_hash : string) (idx : nat) (rec : WalRecord) :
    Result (AuditEntry * string) LoadError :=
  let fact := rec_fact rec in
  let? content := load_content rec idx in
  let? _u :=
    match rec_prev_hash rec with
    | Some stored_prev =>
        if negb (String.eqb stored_prev prev_hash) then
          Err (LoadChainBroken (Z.of_nat idx) (fact_id fact) stored_prev prev_hash)
        else Ok tt
    | None => Ok tt
    end in
  let recomputed := chain_step prev_hash content in
  let? _u :=
    match rec_chain_hash rec with
    | Some stored =>
        if negb (String.eqb stored recomputed) then
          Err (LoadChainMismatch (Z.of_nat idx) (fact_id fact) stored recomputed)
        else Ok tt
    | None => Ok tt
    end in
  Ok (mk_audit_entry (fact_id fact) (static_type (type_name fact)) (Z.of_nat idx + 1) content
        (default "genesis" (rec_prev_hash rec)) (extract_cause fact), recomputed).
Fixpoint load_records (c : AuditChain) (prev_hash : string) (idx : nat) (records : list WalRecord) :
    AuditChain * Result string LoadError :=
  match records with
  | [] => (c, Ok prev_hash)
  | rec :: rest =>
      match load_record prev_hash idx rec with
      | Err e => (c, Err e)
      | Ok (entry, recomputed) =>
          load_records (add_entry c entry idx) recomputed (Datatypes.S idx) rest
      end
  end.
(** [load_from_tier1_wal], given what the reader returned. *)
Definition load_tier1 a (read : Result (list WalRecord) WalError) : Auditor A * Result unit LoadError :=
  match read with
  | Err e => (a, Err (LoadIo (wal_error_display e)))
  | Ok records =>
      let a := with_auto (with_chain a (cleared_chain (chain a))) (reset_count (auto a)) in
      match load_records (chain a) "genesis" 0 records with
      | (c, Err e) => (with_chain a c, Err e)
      | (c, Ok prev_hash) =>
          let has_hash_fields := existsb (fun r => is_some (rec_chain_hash r)) records in
          let head :=
            if has_hash_fields then
              default prev_hash (let! r := last records in rec_chain_hash r)
            else prev_hash in
          let max_logical_time := Z.of_nat (length records) in
          (with_chain a
             (mk_chain (tick_until (ch_clock c) max_logical_time) (Z.of_nat (length records))
                (ch_entries c) head (ch_index c)), Ok tt)
      end
  end.
Definition load_from_tier1_wal a (fs : Files) (path : WalPath) :
    option (Auditor A * Result unit LoadError) :=
  let! read := read_wal_with_hash (N := N) fs path in Some (load_tier1 a read).

(** [load_from_wal], the reader of the auditor's former log. *)
Definition corrupt_message (path : WalPath) (line : nat) (what reason kept : string) : string :=
  "[EVO-AUDIT-WAL-CORRUPT] audit WAL " +:+ what
  +:+ "; refusing to load (audit integrity policy: no silent skip)." +:+ String newline ("File: "
  +:+ path_string path +:+ "; Line: " +:+ pretty (N.of_nat line) +:+ "; Reason: " +:+ reason
  +:+ "." +:+ String newline kept).
Definition remediation : string :=
  "Remediation:" +:+ String newline
  ("  1. Do NOT delete or edit the WAL file - it is evidence for forensic audit." +:+ String newline
  ("  2. Back up the entire data directory before any further action." +:+ String newline
  ("  3. Restore from a verified backup/snapshot if one exists." +:+ String newline
   "  4. If no backup exists, keep this file and re-initialize the session; the corrupt file can be submitted for later analysis."))).
Definition read_former_line (path : WalPath) (line : nat) (text : string) : Result AuditEntry string :=
  let? parsed :=
    match serde_from_str text with
    | Ok v => Ok v
    | Err e => Err (corrupt_message path line "is corrupted" ("invalid JSON: " +:+ e) remediation)
    end in
  let missing field :=
    corrupt_message path line "entry rejected" ("missing '" +:+ field +:+ "' field") remediation in
  let? id := ok_or (get_u64 parsed "fact_id") (missing "fact_id") in
  let? fact_type := ok_or (get_str parsed "fact_type") (missing "fact_type") in
  Ok (read_entry parsed id fact_type).
Fixpoint read_former (path : WalPath) (c : AuditChain) (line : nat) (lines : list string) :
    AuditChain * Result unit string :=
  match lines with
  | [] => (c, Ok tt)
  | raw :: rest =>
      let text := strip_cr raw in
      if str_is_empty (trim text) then read_former path c (Datatypes.S line) rest
      else
        match read_former_line path line text with
        | Err e => (c, Err e)
        | Ok entry =>
            let c :=
              push_entry c (advance_to (ch_clock c) (ae_logical_time entry)) entry
                (length (ch_entries c)) (chain_step (ae_prev_hash entry) (ae_content_hash entry)) in
            read_former path c (Datatypes.S line) rest
        end
  end.
Definition load_from_wal a (fs : Files) (path : WalPath) : Auditor A * Result unit string :=
  if negb (path_exists fs path) then (a, Ok tt)
  else
    match read_former path (chain a) 1 (read_file fs path) with
    | (c, Err e) => (with_chain a c, Err e)
    | (c, Ok _) => (with_wal_path (with_chain a c) path, Ok tt)
    end.
End Auditor.

(** * Concrete codecs and files, for the examples *)

Module ZAnchor.
Import ZNumber ZText.
Definition Tuple : Type := Z * string * nat * nat * string * string * string * Z * string * string.
Definition to_tuple (a : AuditAnchor) : Tuple :=
  (a_seq a, a_session_id a, lo (a_fact_range a), hi (a_fact_range a), a_chain_head a, a_key_id a,
   a_engine_id a, a_logical_time a, a_anchor_hash a, a_signature a).
Definition of_tuple (t : Tuple) : AuditAnchor :=
  let '(q, s, l, h, c, k, e, lt, ah, sg) := t in mk_anchor q s (mk_range l h) c k e lt ah sg.
Lemma of_to_anchor_tuple a : of_tuple (to_tuple a) = a.
Proof. by destruct a as [q s [l h] c k e t ah sg]. Qed.
#[export] Instance codec : AnchorCodec := {|
  anchor_to_string := fun a => Ok (String "{" ((bits (encode (to_tuple a)) +:+ "|") +:+ "}"));
  anchor_from_str := fun s =>
    match s with
    | String _ s => match decode (unbits s) with Some t => Ok (of_tuple t) | None => Err "invalid" end
    | EmptyString => Err "invalid"
    end;
|}.
#[export] Instance codec_laws : AnchorCodecLaws.
Proof.
  split.
  - intros a. by eexists.
  - intros a s [= <-]. cbn [anchor_from_str codec]. rewrite <- str_app_assoc, (unbits_bits _ "}").
    by rewrite decode_encode, of_to_anchor_tuple.
  - intros a s [= <-]. split; [|by rewrite trim_braces].
    cbn [str_all]. rewrite !str_all_app, bits_chars; done.
Qed.
(** A file is its content; every write succeeds. *)
#[export] Instance file : AnchorFile string := {|
  append_anchor_line := fun content line => (content +:+ line, Ok tt);
  read_anchor_file := fun content => Ok content;
|}.
#[export] Instance file_laws : AnchorFileLaws string.
Proof. split. by intros f line f' content [= <-] [= <-]. Qed.
#[export] Instance pretty_text : SerdePretty Z := {| serde_to_string_pretty := serde_to_string |}.
#[export] Instance pretty_laws : SerdePrettyLaws Z.
Proof. split; [apply to_string_total|apply from_to_string]. Qed.
#[export] Instance gzip : Gzip := {|
  gz_encode := fun text => Ok text;
  gz_read := fun limit bytes =>
    if (Z.of_nat (String.length bytes) <=? limit)%Z then Ok bytes
    else Ok (String.substring 0 (Z.to_nat limit) bytes);
|}.
#[export] Instance gzip_laws : GzipLaws.
Proof.
  split; [by eexists|]. intros text bytes limit [= <-] Hle. cbn. by rewrite (proj2 (Z.leb_le _ _)).
Qed.
End ZAnchor.
