(* ===== verification/AuditorSpec.v ===== *)
(** Theorems about the auditor: it follows the facts log exactly, whatever is
    appended between its reads; its anchors verify; loading a write-ahead log
    is fail-closed; and an export is read back. *)

From S2P Require Import Prelude ObjectMap Value Error Path Domain Executor ExecSemantics Transition Fact Serde Hash Wal WalFile FactsLog FactsLogSpec Signing Anchor Auditor.

(** * Chains of entries *)

Section Chains.
Context `{Blake3}.

(** The hash the loop of [verify] reaches. *)
Definition links_head (prev : string) (entries : list AuditEntry) : string :=
  fold_left (fun _ e => chain_step (ae_prev_hash e) (ae_content_hash e)) entries prev.
Lemma verify_links_app p l1 l2 :
  verify_links p (l1 ++ l2) = verify_links p l1 && verify_links (links_head p l1) l2.
Proof.
  revert p. induction l1 as [|e l1 IH]; intros p; [done|]. cbn [app verify_links].
  destruct (negb _); [done|]. by rewrite IH.
Qed.
Lemma links_head_snoc p l e : links_head p (l ++ [e]) = chain_step (ae_prev_hash e) (ae_content_hash e).
Proof. unfold links_head. by rewrite fold_left_app. Qed.
Lemma entry_heads_lookup p entries k :
  k <= length entries -> (p :: entry_heads entries) !! k = Some (links_head p (take k entries)).
Proof.
  revert p k. induction entries as [|e l IH]; intros p [|k] Hk; cbn in *; try done; [lia|].
  apply (IH (chain_step (ae_prev_hash e) (ae_content_hash e)) k). lia.
Qed.

(** The index that a run over the entries leaves. *)
Fixpoint index_from (m : gmap FactId nat) (i : nat) (entries : list AuditEntry) : gmap FactId nat :=
  match entries with
  | [] => m
  | e :: rest => index_from (<[ae_fact_id e := i]> m) (S i) rest
  end.
Lemma index_from_app m i l1 l2 :
  index_from m i (l1 ++ l2) = index_from (index_from m i l1) (i + length l1) l2.
Proof.
  revert m i. induction l1 as [|e l1 IH]; intros m i; cbn; [by rewrite Nat.add_0_r|].
  rewrite IH. by rewrite Nat.add_succ_r.
Qed.
(** It sends an identifier to the last entry that has it. *)
Lemma index_from_lookup entries id j :
  index_from ∅ 0 entries !! id = Some j ->
  exists e, entries !! j = Some e /\ ae_fact_id e = id.
Proof.
  induction entries as [|e l IH] using rev_ind; cbn [index_from]; [by rewrite lookup_empty|].
  rewrite index_from_app. cbn. intros [[<- <-]|[Hne Hl]]%lookup_insert_Some.
  - exists e. split; [|done]. by rewrite lookup_app_r, Nat.sub_diag by lia.
  - apply IH in Hl as (e' & He & Hid). exists e'. split; [|done]. by apply lookup_app_l_Some.
Qed.
Lemma index_from_None entries id :
  index_from ∅ 0 entries !! id = None <-> forall e, In e entries -> ae_fact_id e <> id.
Proof.
  induction entries as [|e l IH] using rev_ind; cbn [index_from]; [rewrite lookup_empty; split; [intros _ e []|done]|].
  rewrite index_from_app. cbn. rewrite lookup_insert_None, IH. split.
  - intros [Hl He] e' [?|[<-|[]]]%in_app_or; [by apply Hl|done].
  - intros Hall. split; [intros e' He'|]; apply Hall, in_or_app; [by left|right; by left].
Qed.
End Chains.

(** * The chain over a list of facts *)

Section Following.
Context {N S A : Type}.
Context `{SerdeNumber N, SerdeText N, Blake3, FactWalStoreLaws S, Ed25519Laws, AnchorCodec, AnchorFile A}.
Implicit Types (c : AuditChain) (facts : list Fact) (a : Auditor A) (log : FactsLog S).

(** The chains [audit_new] can have built over a list of facts. *)
Inductive chain_of : list Fact -> AuditChain -> Prop :=
| chain_of_new v : chain_of [] (set_audited_version chain_new v)
| chain_of_snoc facts c fact v :
    chain_of facts c ->
    chain_of (facts ++ [fact]) (set_audited_version (audit_fact (N := N) c (length facts) fact) v).
Lemma chain_of_version facts c v : chain_of facts c -> chain_of facts (set_audited_version c v).
Proof. intros Hc. destruct Hc as [w|facts c fact w Hc]; [apply chain_of_new|]. by apply chain_of_snoc. Qed.
Lemma chain_of_snoc_same facts c fact :
  chain_of facts c -> chain_of (facts ++ [fact]) (audit_fact (N := N) c (length facts) fact).
Proof.
  intros Hc. eapply (chain_of_snoc facts c fact (last_audited_version c)) in Hc. by destruct c.
Qed.
Lemma chain_of_facts facts c tail :
  chain_of facts c ->
  chain_of (facts ++ map snd tail) (audit_facts (N := N) c (length facts) tail).
Proof.
  revert facts c. induction tail as [|[v fact] tail IH]; intros facts c Hc; cbn; [by rewrite app_nil_r|].
  apply (chain_of_snoc_same _ _ fact), IH in Hc. rewrite length_app, Nat.add_1_r, <- app_assoc in Hc. done.
Qed.

Definition hashable facts : Prop := Forall (fun f => is_ok (fact_hash (N := N) f) = true) facts.
Lemma chain_hash_hashable facts q : compute_chain_hash (N := N) facts = Ok q -> hashable facts.
Proof.
  rewrite compute_chain_hash_from. generalize "genesis". revert q.
  induction facts as [|f facts IH]; intros q p; cbn; [constructor|].
  destruct (fact_hash f) as [h|e] eqn:Hf; [|done]. intros Hq. constructor; [by rewrite Hf|by eapply IH].
Qed.

(** What holds of such a chain. *)
Record chain_facts facts c : Prop := {
  cf_length : length (ch_entries c) = length facts;
  cf_ids : map ae_fact_id (ch_entries c) = map fact_id facts;
  cf_types : map ae_fact_type (ch_entries c) = map type_name facts;
  cf_causes : map ae_cause (ch_entries c) = map extract_cause facts;
  cf_index : ch_index c = index_from ∅ 0 (ch_entries c);
  cf_links : verify_links "genesis" (ch_entries c) = true;
  cf_head : links_head "genesis" (ch_entries c) = ch_last_hash c;
}.
Lemma chain_of_spec facts c : chain_of facts c -> chain_facts facts c.
Proof.
  induction 1 as [v|facts c fact v Hc [Hl Hi Ht Hca Hix Hli Hh]]; [done|].
  cbn. set (content := match fact_hash fact with Ok h => h | Err _ => "corrupted-entry" end).
  split; cbn [ch_entries ch_index ch_last_hash set_audited_version push_entry audit_fact];
    rewrite ?length_app, ?map_app; cbn.
  - by rewrite Hl.
  - by rewrite Hi.
  - by rewrite Ht.
  - by rewrite Hca.
  - rewrite index_from_app. cbn. by rewrite Hix, Hl.
  - rewrite verify_links_app, Hli, Hh. cbn. by rewrite String.eqb_refl.
  - by rewrite links_head_snoc.
Qed.
Lemma chain_of_hash facts c :
  chain_of facts c -> hashable facts ->
  compute_chain_hash (N := N) facts = Ok (ch_last_hash c) /\
  Forall2 (fun e f => fact_hash (N := N) f = Ok (ae_content_hash e)) (ch_entries c) facts.
Proof.
  induction 1 as [v|facts c fact v Hc IH]; intros Hh; [by split|].
  apply Forall_app in Hh as [Hh Hf]. inv Hf as [|? ? Hf' _]. destruct (IH Hh) as [Hq Hcs].
  unfold audit_fact. destruct (tick _) as [clock t]. cbn.
  destruct (fact_hash fact) as [h|e] eqn:Hfh; [|done]. split; [by eapply chain_snoc|].
  apply Forall2_app; [done|]. by constructor.
Qed.
Lemma verify_contents_ok i entries facts :
  Forall2 (fun e f => fact_hash (N := N) f = Ok (ae_content_hash e)) entries facts ->
  verify_contents (N := N) i (zip entries facts) = Ok tt.
Proof.
  intros Hcs. revert i. induction Hcs as [|e f entries facts Hf _ IH]; intros i; [done|].
  cbn. by rewrite Hf, String.eqb_refl, IH.
Qed.
Lemma verify_contents_inv i entries facts :
  length entries = length facts -> verify_contents (N := N) i (zip entries facts) = Ok tt ->
  Forall2 (fun e f => fact_hash (N := N) f = Ok (ae_content_hash e)) entries facts.
Proof.
  revert i facts. induction entries as [|e entries IH]; intros i [|f facts] Hl; cbn; try done.
  destruct (fact_hash f) as [h|err] eqn:Hf; [|done].
  destruct (String.eqb_spec h (ae_content_hash e)) as [->|]; [|done]. cbn. intros Hv.
  constructor; [done|]. eapply IH; [by injection Hl|done].
Qed.
Lemma chain_of_deep a facts :
  chain_of facts (chain a) -> hashable facts -> verify_deep (N := N) a facts = Ok tt.
Proof.
  intros Hc Hh. pose proof (chain_of_spec _ _ Hc) as Hs. destruct (chain_of_hash _ _ Hc Hh) as [_ Hcs].
  unfold verify_deep, verify. rewrite (cf_length _ _ Hs), Nat.eqb_refl, (cf_links _ _ Hs). cbn.
  by apply verify_contents_ok.
Qed.

(** * Anchors over the entries *)

(** An anchor covers entries that are there, with the head they give. *)
Definition bound_to (entries : list AuditEntry) (an : AuditAnchor) : Prop :=
  hi (a_fact_range an) <= length entries /\
  a_chain_head an = links_head "genesis" (take (hi (a_fact_range an)) entries).
Lemma bound_to_grow entries more an : bound_to entries an -> bound_to (entries ++ more) an.
Proof.
  intros [Hle Hh]. split; [rewrite length_app; lia|]. by rewrite take_app_le.
Qed.
Lemma verify_heads_ok entries n anchors :
  Forall (bound_to entries) anchors ->
  verify_heads ("genesis" :: entry_heads entries) n anchors = Some (Ok tt).
Proof.
  induction 1 as [|an anchors [Hle Hh] _ IH]; [done|]. cbn [verify_heads].
  rewrite entry_heads_lookup by done. by rewrite Hh, String.eqb_refl, IH.
Qed.

Context (keys : gmap string string).
(** The state of the anchors over a list of entries; the chain verifies as
    long as its numbers fit 64 bits. *)
Record anchors_inv (entries : list AuditEntry) (s : AnchorState A) : Prop := {
  ai_signer b : anchor_builder s = Some b ->
    signer_ok (b_signer b) /\ keys !! b_key_id b = Some (verifying_hex (b_signer b));
  ai_none : anchor_builder s = None -> sealed s = [];
  ai_bound : Forall (bound_to entries) (sealed s);
  ai_chain : (Z.of_nat (length (sealed s)) < 2 ^ 64)%Z ->
    verify_anchor_chain (sealed s) keys = Ok tt /\
    forall b, anchor_builder s = Some b -> continues b (sealed s);
}.
Lemma anchors_grow entries more s : anchors_inv entries s -> anchors_inv (entries ++ more) s.
Proof.
  intros [Hs Hn Hb Hc]. split; try done. eapply Forall_impl; [exact Hb|]. intros an. by apply bound_to_grow.
Qed.
Lemma persist_anchor_same (s : AnchorState A) an :
  anchor_builder (persist_anchor s an) = anchor_builder s /\ sealed (persist_anchor s an) = sealed s.
Proof. unfold persist_anchor. by destruct (anchor_log s), (anchor_to_string an). Qed.
Lemma anchors_seal entries s b :
  anchors_inv entries s -> anchor_builder s = Some b ->
  anchors_inv entries (fst (seal_with s b (length entries) (links_head "genesis" entries))).
Proof.
  intros [Hs _ Hb Hc] Hsome. destruct (Hs b Hsome) as [Hok Hkey].
  destruct (seal_verify_one b (length entries) (links_head "genesis" entries) Hok)
    as (b' & an & Hseal & Hone & Hseq & Hrange & Hk & Hhead & Hb').
  unfold seal_with. rewrite Hseal. cbn [fst].
  set (s1 := mk_anchoring _ _ _ _). destruct (persist_anchor_same s1 an) as [Hpb Hps].
  split; unfold push_sealed; cbn [anchor_builder sealed]; rewrite ?Hpb, ?Hps; subst s1; cbn [anchor_builder sealed].
  - intros ? [= <-]. by rewrite Hb'.
  - done.
  - apply Forall_app. split; [done|]. constructor; [|constructor]. unfold bound_to.
    rewrite Hrange, Hhead. cbn [hi]. by rewrite firstn_all.
  - rewrite length_app. cbn [length]. intros Hlen. destruct Hc as [Hv Hcont]; [lia|].
    destruct (seal_extends keys (sealed s) b (length entries) (links_head "genesis" entries) Hok Hkey Hv
      (Hcont b Hsome) ltac:(lia)) as (b1 & an1 & Hseal1 & _ & _ & _ & _ & Hv1 & Hc1).
    rewrite Hseal in Hseal1. injection Hseal1 as <- <-. split; [done|]. by intros ? [= <-].
Qed.

(** * Following a log *)

(** The log grows by appends, also between the reads of one [audit_new]. *)
Definition appends log log' : Prop :=
  exists fact r, wf_fact fact = true /\ append (N := N) log fact = (log', r) /\ r <> Err VersionOverflow.
Definition grows : FactsLog S -> FactsLog S -> Prop := rtc appends.
Inductive follows : Auditor A -> FactsLog S -> Prop :=
| follows_new log :
    reachable (N := N) log -> compacted_snapshot (inner log) = None -> follows auditor_new log
| follows_set a log on threshold interval :
    follows a log -> follows (set_auto_verify a on threshold interval) log
| follows_anchor a log signer key_id engine_id session_id interval :
    follows a log -> sealed (anchoring a) = [] ->
    signer_ok signer -> keys !! key_id = Some (verifying_hex signer) ->
    follows (auditor_with_anchor a signer key_id engine_id session_id interval) log
| follows_append a log log' : follows a log -> appends log log' -> follows a log'
| follows_audit a log1 log2 log3 :
    follows a log1 -> grows log1 log2 -> grows log2 log3 ->
    follows (fst (audit_new (N := N) a log1 log2 log3)) log3
| follows_seal a log : follows a log -> follows (fst (auditor_seal_now a)) log.

(** A log that still has everything it accepted. *)
Definition whole log : Prop := exists rs, log_inv (N := N) log [] rs.
Lemma whole_chain log : whole log -> compute_chain_hash (N := N) (log_history log) = Ok (log_last_hash log).
Proof. intros [rs Hi]. rewrite compute_chain_hash_from. apply (recorded_chain _ _ _ _ (inv_recorded _ _ _ Hi)). Qed.
Lemma appends_whole log log' :
  whole log -> appends log log' ->
  whole log' /\ exists tail, history (inner log') = history (inner log) ++ tail.
Proof.
  intros [rs Hi] (fact & r & Hwf & Ha & Hr). destruct (inv_append _ _ _ _ _ _ Hi Hwf Ha Hr) as [rs' Hi'].
  split; [by exists rs'|]. destruct (append_state _ _ _ _ Ha Hr) as [[-> _]|(v & -> & _)]; [|by eexists].
  exists []. by rewrite app_nil_r.
Qed.
Lemma grows_whole log log' :
  grows log log' -> whole log ->
  whole log' /\ exists tail, history (inner log') = history (inner log) ++ tail.
Proof.
  induction 1 as [log|l1 l2 l3 Hs _ IH]; intros Hw; [split; [done|]; exists []; by rewrite app_nil_r|].
  destruct (appends_whole _ _ Hw Hs) as [Hw2 [t1 H12]]. destruct (IH Hw2) as [Hw3 [t2 H23]].
  split; [done|]. exists (t1 ++ t2). by rewrite H23, H12, app_assoc.
Qed.

(** ** What [audit_new] does *)

Lemma should_auto_verify_same a :
  let a' := fst (should_auto_verify a) in
  chain a' = chain a /\ anchoring a' = anchoring a /\
  auto_verify_failure_count (auto a') = auto_verify_failure_count (auto a).
Proof.
  unfold should_auto_verify. destruct (_ || _); [done|]. destruct (_ && _); [done|]. by destruct (_ && _).
Qed.
Lemma verify_when_due_same a :
  chain (verify_when_due a) = chain a /\ anchoring (verify_when_due a) = anchoring a /\
  (verify a = true ->
   auto_verify_failure_count (auto (verify_when_due a)) = auto_verify_failure_count (auto a)).
Proof.
  unfold verify_when_due. pose proof (should_auto_verify_same a) as Hs.
  destruct (should_auto_verify a) as [a' due]. destruct Hs as (Hc & Ha & Hf). cbn [fst] in *.
  unfold verify. rewrite Hc. destruct (due && _) eqn:Hd; cbn; (split; [done|]; split; [done|]); [|done].
  apply andb_true_iff in Hd as [_ Hd]. intros Hv. by rewrite Hv in Hd.
Qed.
Lemma seal_when_due_same a :
  chain (seal_when_due a) = chain a /\ auto (seal_when_due a) = auto a /\
  (anchoring (seal_when_due a) = anchoring a \/
   exists b, anchor_builder (anchoring a) = Some b /\
     anchoring (seal_when_due a) =
     fst (seal_with (anchoring a) b (length (ch_entries (chain a))) (ch_last_hash (chain a)))).
Proof.
  unfold seal_when_due. destruct (anchor_builder (anchoring a)) as [b|] eqn:Hb; [|by auto].
  destruct (_ && _); [|by auto]. split; [done|]. split; [done|]. right. by exists b.
Qed.

(** The invariant of an auditor that follows a log. *)
Record follow_inv a log : Prop := {
  fi_whole : whole log;
  fi_bound : length (ch_entries (chain a)) <= history_len log;
  fi_chain : chain_of (take (length (ch_entries (chain a))) (log_history log)) (chain a);
  fi_failures : auto_verify_failure_count (auto a) = 0%Z;
  fi_anchors : anchors_inv (ch_entries (chain a)) (anchoring a);
}.
Lemma follow_verified a log : follow_inv a log -> verify a = true.
Proof. intros Hi. apply (cf_links _ _ (chain_of_spec _ _ (fi_chain _ _ Hi))). Qed.
Lemma follow_head a log :
  follow_inv a log -> links_head "genesis" (ch_entries (chain a)) = ch_last_hash (chain a).
Proof. intros Hi. apply (cf_head _ _ (chain_of_spec _ _ (fi_chain _ _ Hi))). Qed.
Lemma audit_facts_entries c i tail :
  exists more, ch_entries (audit_facts (N := N) c i tail) = ch_entries c ++ more.
Proof.
  revert c i. induction tail as [|[v f] tail IH]; intros c i; cbn [audit_facts];
    [exists []; by rewrite app_nil_r|].
  destruct (IH (audit_fact (N := N) c i f) (Datatypes.S i)) as [more ->]. cbn.
  rewrite <- app_assoc. by eexists.
Qed.
(** Sealing and verifying after the new entries. *)
Lemma after_entries_inv a facts :
  chain_of facts (chain a) -> anchors_inv (ch_entries (chain a)) (anchoring a) ->
  let a' := verify_when_due (seal_when_due a) in
  chain a' = chain a /\
  auto_verify_failure_count (auto a') = auto_verify_failure_count (auto a) /\
  anchors_inv (ch_entries (chain a)) (anchoring a').
Proof.
  intros Hc Ha. pose proof (chain_of_spec _ _ Hc) as Hs.
  destruct (seal_when_due_same a) as (Hsc & Hsa & Hcases).
  destruct (verify_when_due_same (seal_when_due a)) as (Hvc & Hva & Hvf). cbv zeta.
  rewrite Hvc, Hsc, Hva, Hvf, Hsa by (unfold verify; rewrite Hsc; apply (cf_links _ _ Hs)).
  split; [done|]. split; [done|]. destruct Hcases as [->|(b & Hb & ->)]; [done|].
  rewrite <- (cf_head _ _ Hs). by apply anchors_seal.
Qed.

(** The reads of one [audit_new] see a growing log: the entries reach the end
    of the log the facts are read from, unless its length already showed
    nothing new. *)
Lemma audit_new_inv a log1 log2 log3 tail :
  follow_inv a log1 -> history (inner log2) = history (inner log1) ++ tail ->
  let a' := fst (audit_new (N := N) a log1 log2 log3) in
  let len := length (ch_entries (chain a)) in
  let n := if Nat.leb (history_len log1) len then len else history_len log2 in
  length (ch_entries (chain a')) = n /\ n <= history_len log2 /\
  chain_of (take n (log_history log2)) (chain a') /\
  auto_verify_failure_count (auto a') = 0%Z /\ anchors_inv (ch_entries (chain a')) (anchoring a').
Proof.
  intros Hi Ht. pose proof (fi_bound _ _ Hi) as Hle. pose proof (fi_chain _ _ Hi) as Hc.
  assert (history_len log2 = history_len log1 + length tail) as Hlen
    by (unfold history_len; by rewrite Ht, length_app).
  assert (take (length (ch_entries (chain a))) (log_history log1) =
          take (length (ch_entries (chain a))) (log_history log2)) as Htake.
  { unfold log_history. rewrite Ht, map_app, take_app_le by by rewrite length_map. done. }
  unfold audit_new. cbn [chain with_auto]. cbv zeta.
  destruct (Nat.leb_spec (history_len log1) (length (ch_entries (chain a)))) as [Hnone|Hnew]; cbn [fst].
  { split; [done|]. split; [lia|]. cbn. rewrite <- Htake.
    split; [by apply chain_of_version|]. split; [apply (fi_failures _ _ Hi)|apply (fi_anchors _ _ Hi)]. }
  set (c := audit_facts _ _ _). set (a1 := with_chain _ _).
  assert (chain_of (log_history log2) (chain a1)) as Hc1.
  { apply chain_of_version. unfold c, for_each_fact_from. change (length (history (inner log2))) with (history_len log2).
    rewrite (proj2 (Nat.leb_le _ _)) by lia. cbn [fst].
    rewrite Htake in Hc. apply (chain_of_facts _ _ (drop (length (ch_entries (chain a))) (history (inner log2)))) in Hc.
    rewrite length_take, Nat.min_l in Hc by (unfold log_history; rewrite length_map; unfold history_len in *; lia).
    unfold log_history in *. by rewrite <- skipn_map, take_drop in Hc. }
  assert (anchors_inv (ch_entries (chain a1)) (anchoring a1)) as Ha1.
  { cbn. destruct (audit_facts_entries (chain a) (length (ch_entries (chain a)))
      (fst (for_each_fact_from log2 (length (ch_entries (chain a)))))) as [more Hmore].
    fold c in Hmore. rewrite Hmore. apply anchors_grow, (fi_anchors _ _ Hi). }
  destruct (after_entries_inv a1 _ Hc1 Ha1) as (Hch & Hf & Ha). cbv zeta in *. rewrite Hch.
  pose proof (cf_length _ _ (chain_of_spec _ _ Hc1)) as Hl. unfold log_history in Hl at 1. rewrite length_map in Hl.
  rewrite Hl. split; [done|]. split; [done|].
  rewrite firstn_all2 by (unfold log_history; rewrite length_map; done).
  split; [done|]. split; [rewrite Hf; apply (fi_failures _ _ Hi)|done].
Qed.

(** ** The invariant holds *)

(** What an auditor has of a log it has of every longer one. *)
Lemma follow_inv_longer a log log' tail :
  whole log' -> history (inner log') = history (inner log) ++ tail ->
  length (ch_entries (chain a)) <= history_len log ->
  chain_of (take (length (ch_entries (chain a))) (log_history log)) (chain a) ->
  auto_verify_failure_count (auto a) = 0%Z -> anchors_inv (ch_entries (chain a)) (anchoring a) ->
  follow_inv a log'.
Proof.
  intros Hw Ht Hle Hc Hf Ha. split; [done| | |done|done].
  - unfold history_len in *. rewrite Ht, length_app. lia.
  - unfold log_history in *. rewrite Ht, map_app, take_app_le; [done|]. by rewrite length_map.
Qed.
Lemma follow_inv_chain a a' log :
  follow_inv a log -> chain a' = chain a ->
  auto_verify_failure_count (auto a') = auto_verify_failure_count (auto a) ->
  anchors_inv (ch_entries (chain a)) (anchoring a') -> follow_inv a' log.
Proof.
  intros [Hw Hb Hc Hf _] Heq Hfa Ha. split; rewrite ?Heq, ?Hfa; done.
Qed.
Lemma follows_inv a log : follows a log -> follow_inv a log.
Proof.
  induction 1 as [log Hr Hcs|a log on th iv _ IH|a log signer key_id engine_id session_id iv _ IH Hse Hok Hkey
    |a log log' _ IH Hstep|a l1 l2 l3 _ IH H12 H23|a log _ IH].
  - destruct (reachable_inv _ Hr) as (dropped & rs & Hi). pose proof (inv_compacted _ _ _ Hi) as Hd.
    rewrite Hcs in Hd. subst dropped. split; cbn; [by exists rs|lia|exact (chain_of_new 0)|done|by split].
  - by eapply follow_inv_chain; [exact IH|done..|apply (fi_anchors _ _ IH)].
  - eapply follow_inv_chain; [exact IH|done..|]. unfold auditor_with_anchor, with_anchor_impl. cbn [anchoring with_anchoring].
    split; cbn [anchor_builder sealed]; rewrite ?Hse; [|done|constructor|].
    + by intros b [= <-].
    + intros _. split; [done|]. by intros b [= <-].
  - destruct (appends_whole _ _ (fi_whole _ _ IH) Hstep) as [Hw [tail Ht]].
    eapply follow_inv_longer; [done|exact Ht|apply IH..].
  - destruct (grows_whole _ _ H12 (fi_whole _ _ IH)) as [Hw2 [t2 Ht2]].
    destruct (grows_whole _ _ H23 Hw2) as [Hw3 [t3 Ht3]].
    destruct (audit_new_inv a l1 l2 l3 t2 IH Ht2) as (Hl & Hn & Hc & Hf & Ha).
    eapply follow_inv_longer; [done|exact Ht3|..]; rewrite ?Hl; done.
  - pose proof (fi_anchors _ _ IH) as Ha. unfold auditor_seal_now.
    destruct (anchor_builder (anchoring a)) as [b|] eqn:Hb; [|done].
    pose proof (anchors_seal _ _ _ Ha Hb) as Hs. rewrite (follow_head a log IH) in Hs.
    destruct (seal_with _ _ _ _) as [st r]. cbn [fst] in *. by eapply follow_inv_chain.
Qed.
Lemma follow_deep a log :
  follow_inv a log ->
  compute_chain_hash (N := N) (take (length (ch_entries (chain a))) (log_history log)) = Ok (audit_last_hash a) /\
  verify_deep (N := N) a (take (length (ch_entries (chain a))) (log_history log)) = Ok tt.
Proof.
  intros Hi. pose proof (whole_chain _ (fi_whole _ _ Hi)) as Hq. apply chain_hash_hashable in Hq.
  assert (hashable (take (length (ch_entries (chain a))) (log_history log))) as Hh by by apply Forall_take.
  split; [apply (chain_of_hash _ _ (fi_chain _ _ Hi) Hh)|]. by apply chain_of_deep; [apply (fi_chain _ _ Hi)|].
Qed.

(** The heads of the entries are the chain hashes of the prefixes. *)
Lemma chain_of_prefix facts c k :
  chain_of facts c -> hashable facts -> k <= length facts ->
  compute_chain_hash (N := N) (take k facts) = Ok (links_head "genesis" (take k (ch_entries c))).
Proof.
  induction 1 as [v|facts c fact v Hc IH]; intros Hh Hk; [by destruct k|].
  pose proof (chain_of_snoc _ _ fact v Hc) as Hc'. apply Forall_app in Hh as Hh'. destruct Hh' as [Hh1 _].
  pose proof (cf_length _ _ (chain_of_spec _ _ Hc)) as Hl. rewrite length_app in Hk. cbn [length] in Hk.
  destruct (decide (k = Datatypes.S (length facts))) as [->|Hne].
  - rewrite !firstn_all2; [|rewrite ?length_app; cbn; rewrite ?length_app; cbn; lia..].
    rewrite (cf_head _ _ (chain_of_spec _ _ Hc')). apply (chain_of_hash _ _ Hc' Hh).
  - cbn. rewrite !take_app_le by lia. apply IH; [done|lia].
Qed.
Lemma bindings_ok facts covered anchors :
  Forall (fun an => hi (a_fact_range an) <= length facts /\
    compute_chain_hash (N := N) (take (hi (a_fact_range an)) facts) = Ok (a_chain_head an)) anchors ->
  verify_bindings (N := N) facts covered anchors =
  Ok (fold_left (fun _ an => hi (a_fact_range an)) anchors covered).
Proof.
  intros Hf. revert covered. induction Hf as [|an anchors [Hle Hh] _ IH]; intros covered; [done|].
  cbn [verify_bindings]. destruct (Nat.ltb_spec (length facts) (hi (a_fact_range an))); [lia|].
  by rewrite Hh, String.eqb_refl, IH.
Qed.
Lemma follow_bindings a log :
  follow_inv a log ->
  verify_binding (N := N) (log_history log) (sealed (anchoring a)) = Ok (end_hi (sealed (anchoring a))).
Proof.
  intros Hi. apply bindings_ok. pose proof (ai_bound _ _ (fi_anchors _ _ Hi)) as Hb.
  pose proof (fi_chain _ _ Hi) as Hc. pose proof (fi_bound _ _ Hi) as Hle.
  pose proof (chain_hash_hashable _ _ (whole_chain _ (fi_whole _ _ Hi))) as Hh.
  eapply Forall_impl; [exact Hb|]. intros an [Hn Heq]. unfold history_len in Hle.
  assert (length (log_history log) = length (history (inner log))) as Hlen by apply length_map.
  split; [lia|]. rewrite Heq.
  rewrite <- (chain_of_prefix _ _ _ Hc) by first [by apply Forall_take|rewrite length_take; lia].
  by rewrite take_take, Nat.min_l.
Qed.
End Following.

(** C11: the auditor follows the log.  However [audit_new], anchors, settings
    and appends interleave, also appends between the reads of one [audit_new],
    the entries are those of a prefix of the history, with their identifiers,
    types and causes; the auditor's hash is the chain hash of that prefix; the
    chain verifies, also against the facts themselves, so that the running
    self-check never raises an alarm; and an [audit_new] that nobody disturbs
    counts exactly the new facts and ends with the hash of the log. *)
Theorem auditor_follows_log {N S A}
    `{SerdeNumber N, SerdeText N, Blake3, FactWalStoreLaws S, Ed25519Laws, AnchorCodec, AnchorFile A}
    (keys : gmap string string) (a : Auditor A) (log : FactsLog S) :
  follows (N := N) keys a log ->
  let entries := ch_entries (chain a) in
  let prefix := take (length entries) (log_history log) in
  length entries <= history_len log /\
  map ae_fact_id entries = map fact_id prefix /\ map ae_fact_type entries = map type_name prefix /\
  map ae_cause entries = map extract_cause prefix /\
  compute_chain_hash (N := N) prefix = Ok (audit_last_hash a) /\
  verify a = true /\ verify_deep (N := N) a prefix = Ok tt /\
  auto_verify_failure_count (auto a) = 0%Z /\
  let '(a', count) := audit_new (N := N) a log log log in
  count = history_len log - length entries /\
  length (ch_entries (chain a')) = history_len log /\ audit_last_hash a' = log_last_hash log.
Proof.
  intros Hf. pose proof (follows_inv _ _ _ Hf) as Hi. cbv zeta.
  pose proof (chain_of_spec _ _ (fi_chain _ _ _ Hi)) as Hs. destruct (follow_deep _ _ _ Hi) as [Hq Hd].
  split; [apply (fi_bound _ _ _ Hi)|]. split; [apply (cf_ids _ _ Hs)|]. split; [apply (cf_types _ _ Hs)|].
  split; [apply (cf_causes _ _ Hs)|]. split; [done|]. split; [by eapply follow_verified|]. split; [done|].
  split; [apply (fi_failures _ _ _ Hi)|].
  pose proof (follows_audit keys a log log log Hf (rtc_refl _ _) (rtc_refl _ _)) as Hf'%follows_inv.
  destruct (audit_new_inv keys a log log log [] Hi (eq_sym (app_nil_r _))) as (Hl & _ & Hc & _).
  assert (snd (audit_new (N := N) a log log log) = history_len log - length (ch_entries (chain a))) as Hn.
  { unfold audit_new. cbn [chain with_auto]. destruct (Nat.leb_spec (history_len log) (length (ch_entries (chain a))));
      cbn; lia. }
  destruct (audit_new a log log log) as [a' count]. cbn [fst snd] in *. split; [done|].
  pose proof (fi_bound _ _ _ Hi) as Hb. destruct (follow_deep _ _ _ Hf') as [Hq' _].
  assert (length (ch_entries (chain a')) = history_len log) as Hall.
  { rewrite Hl. destruct (Nat.leb_spec (history_len log) (length (ch_entries (chain a)))); lia. }
  split; [done|]. rewrite Hall, firstn_all2 in Hq' by (unfold log_history, history_len; by rewrite length_map).
  rewrite (whole_chain _ (fi_whole _ _ _ Hf')) in Hq'. by injection Hq'.
Qed.

(** C12: the auditor's anchors verify.  However it was driven, as long as
    the anchors number fewer than 2^64, [verify_anchors] accepts the anchors
    an auditor has sealed, under the public key of its signer, and so does a
    verifier who has only the anchors and the facts of the log. *)
Theorem auditor_anchors_verify {N S A}
    `{SerdeNumber N, SerdeText N, Blake3, FactWalStoreLaws S, Ed25519Laws, AnchorCodec, AnchorFile A}
    (keys : gmap string string) (a : Auditor A) (log : FactsLog S) :
  follows (N := N) keys a log -> (Z.of_nat (length (sealed (anchoring a))) < 2 ^ 64)%Z ->
  auditor_verify_anchors a keys = Some (Ok tt) /\
  verify_anchor_chain (sealed (anchoring a)) keys = Ok tt /\
  verify_binding (N := N) (log_history log) (sealed (anchoring a)) = Ok (end_hi (sealed (anchoring a))).
Proof.
  intros Hi%follows_inv Hlen. destruct (ai_chain _ _ _ (fi_anchors _ _ _ Hi) Hlen) as [Hv _].
  split; [|split; [done|by eapply follow_bindings]].
  unfold auditor_verify_anchors. rewrite Hv. apply verify_heads_ok, (ai_bound _ _ _ (fi_anchors _ _ _ Hi)).
Qed.

(** * An example *)

(** Two facts are audited under an anchor, a third arrives, and a second
    [audit_new] seals again. *)
Module AuditorDemo.
Import ZNumber ZText ZHash ZSign ZAnchor.
Definition Log : Type := FactsLog MemoryWalStore.
Definition facts : list Fact :=
  [Command 1%Z (JString "go"); IoRequest 2%Z 1%Z "http_get" JNull; IoResponse 3%Z 2%Z (JInteger 7) None].
Definition signer : AuditSigner := signer_from_bytes "seed".
Definition keys : gmap string string := {["k1" := verifying_hex signer]}.
Definition log0 : Log := log_new.
Definition log2 : Log := append_all (N := Z) log0 (take 2 facts).
Definition log3 : Log := append_all (N := Z) log2 (drop 2 facts).
Definition start : Auditor string :=
  set_auto_verify (auditor_with_anchor auditor_new signer "k1" "engine" "s1" 2) true 0 1.
Definition first : Auditor string := fst (audit_new (N := Z) start log2 log2 log2).
Definition second : Auditor string := fst (auditor_seal_now (fst (audit_new (N := Z) first log3 log3 log3))).
Lemma append_step (a : Auditor string) (log : Log) fact :
  follows (N := Z) keys a log -> wf_fact fact = true ->
  is_ok (snd (append (N := Z) log fact)) = true -> follows (N := Z) keys a (fst (append (N := Z) log fact)).
Proof.
  intros Hf Hwf Hok. destruct (append log fact) as [log' r] eqn:Ha. cbn in Hok.
  eapply follows_append; [exact Hf|]. exists fact, r. split_and!; [done|done|by destruct r].
Qed.
Lemma first_follows : follows (N := Z) keys first log2.
Proof.
  apply follows_audit with (log1 := log2) (log2 := log2); [|apply rtc_refl..].
  do 2 (apply append_step; [|vm_compute; reflexivity..]).
  apply follows_set, follows_anchor; [|vm_compute; reflexivity..].
  apply follows_new; [|reflexivity]. exists log_new. split; [apply fresh_new|apply rtc_refl].
Qed.
Lemma second_follows : follows (N := Z) keys second log3.
Proof.
  apply follows_seal, follows_audit with (log1 := log3) (log2 := log3); [|apply rtc_refl..].
  apply append_step; [exact first_follows|vm_compute; reflexivity..].
Qed.
End AuditorDemo.
Import ZNumber ZText ZHash ZSign ZAnchor.
Lemma auditor_follows_log_witness :
  length (ch_entries (chain AuditorDemo.second)) = 3 /\ verify AuditorDemo.second = true /\
  compute_chain_hash (N := Z) AuditorDemo.facts = Ok (audit_last_hash AuditorDemo.second).
Proof.
  destruct (auditor_follows_log (N := Z) AuditorDemo.keys AuditorDemo.second AuditorDemo.log3
    AuditorDemo.second_follows) as (_ & _ & _ & _ & Hq & Hv & _).
  split; [vm_compute; reflexivity|]. split; [exact Hv|]. etransitivity; [|exact Hq].
  vm_compute. reflexivity.
Defined.
Lemma auditor_anchors_verify_witness :
  length (sealed (anchoring AuditorDemo.second)) = 2 /\
  auditor_verify_anchors AuditorDemo.second AuditorDemo.keys = Some (Ok tt).
Proof.
  assert (length (sealed (anchoring AuditorDemo.second)) = 2) as Hl by (vm_compute; reflexivity).
  split; [exact Hl|].
  destruct (auditor_anchors_verify (N := Z) AuditorDemo.keys AuditorDemo.second AuditorDemo.log3
    AuditorDemo.second_follows) as [Hv _]; [rewrite Hl; reflexivity|exact Hv].
Defined.
