(* ===== verification/AuditorStore.v ===== *)
(** Theorems about what the auditor stores and reads: the write-ahead log it
    is rebuilt from, the JSON export, the anchor log, and the walk along the
    causes. *)

From S2P Require Import Prelude ObjectMap Value Error Path Domain Executor ExecSemantics Transition Fact Serde Hash Wal WalFile FactsLog FactsLogSpec Recovery Signing Anchor Auditor AuditorSpec.

(** * Loading a write-ahead log *)

Section Loading.
Context {N A : Type} `{SerdeNumber N, SerdeText N, Blake3, Ed25519}.
Implicit Types (c : AuditChain) (a : Auditor A).

(** The records whose hashes are there and are those of the facts. *)
Definition record_chained (prev : string) (r : WalRecord) (content : string) : Prop :=
  fact_hash (N := N) (rec_fact r) = Ok content /\ rec_content_hash r = Some content /\
  rec_prev_hash r = Some prev /\ rec_chain_hash r = Some (chain_step prev content).
Fixpoint chained (prev : string) (records : list WalRecord) : Prop :=
  match records with
  | [] => True
  | r :: rest => exists content, record_chained prev r content /\ chained (chain_step prev content) rest
  end.
Definition hashed (r : WalRecord) : bool :=
  is_some (rec_content_hash r) && is_some (rec_prev_hash r) && is_some (rec_chain_hash r).
Lemma chained_snoc prev rs r q content :
  chained prev rs -> chain_from (N := N) prev (map rec_fact rs) = Ok q -> record_chained q r content ->
  chained prev (rs ++ [r]).
Proof.
  revert prev. induction rs as [|r0 rs IH]; intros prev; cbn.
  - intros _ [= ->] Hr. by exists content.
  - intros (c0 & Hr0 & Hc). pose proof Hr0 as (-> & _). intros Hq Hr. exists c0. split; [done|]. by apply IH.
Qed.
Lemma chained_hashed prev rs : chained prev rs -> forallb hashed rs = true.
Proof.
  revert prev. induction rs as [|r rs IH]; intros prev; [done|]. cbn [forallb].
  intros (c & (_ & Hc & Hp & Hh) & Hrest). unfold hashed at 1. rewrite Hc, Hp, Hh. by eapply IH.
Qed.

(** What an entry has of its record. *)
Definition entry_of (e : AuditEntry) (r : WalRecord) : Prop :=
  fact_hash (N := N) (rec_fact r) = Ok (ae_content_hash e) /\ ae_fact_id e = fact_id (rec_fact r) /\
  ae_fact_type e = static_type (type_name (rec_fact r)) /\ ae_cause e = extract_cause (rec_fact r).
Lemma load_record_hashed prev idx r :
  hashed r = true ->
  match load_record (N := N) prev idx r with
  | Ok (e, q) =>
      q = chain_step prev (ae_content_hash e) /\ ae_prev_hash e = prev /\ entry_of e r /\
      ae_logical_time e = (Z.of_nat idx + 1)%Z /\ record_chained prev r (ae_content_hash e)
  | Err _ => ~ exists content, record_chained prev r content
  end.
Proof.
  unfold hashed, load_record, load_content, record_chained, entry_of.
  destruct (rec_content_hash r) as [sc|]; [|done]. destruct (rec_prev_hash r) as [sp|]; [|done].
  destruct (rec_chain_hash r) as [sh|]; [|done]. intros _.
  destruct (fact_hash (rec_fact r)) as [h|e] eqn:Hh; [|by intros (? & ? & _)].
  destruct (String.eqb_spec sc h) as [->|Hne]; cbn [negb]; [|by intros (? & [= <-] & [= <-] & _)].
  destruct (String.eqb_spec sp prev) as [->|Hne]; cbn [negb]; [|by intros (? & _ & _ & [= <-] & _)].
  destruct (String.eqb_spec sh (chain_step prev h)) as [->|Hne]; cbn [negb].
  - by split_and!.
  - intros (? & [= <-] & _ & _ & [= Heq]). done.
Qed.
Lemma load_records_spec prev idx c rs :
  forallb hashed rs = true ->
  match load_records (N := N) c prev idx rs with
  | (c', Ok q) =>
      chained prev rs /\ chain_from (N := N) prev (map rec_fact rs) = Ok q /\
      ch_clock c' = ch_clock c /\
      exists more, ch_entries c' = ch_entries c ++ more /\ ch_index c' = index_from (ch_index c) idx more /\
        verify_links prev more = true /\ Forall2 entry_of more rs
  | (_, Err _) => ~ chained prev rs
  end.
Proof.
  revert prev idx c. induction rs as [|r rs IH]; intros prev idx c; cbn [forallb load_records].
  { intros _. split_and!; [done..|]. exists []. by rewrite app_nil_r. }
  intros [Hr Hrs]%andb_true_iff. pose proof (load_record_hashed prev idx r Hr) as Hl.
  destruct (load_record prev idx r) as [[e q]|err].
  2:{ intros (content & Hc & _). by apply Hl; exists content. }
  destruct Hl as (-> & Hp & He & _ & Hc).
  specialize (IH (chain_step prev (ae_content_hash e)) (S idx) (add_entry c e idx) Hrs).
  destruct (load_records _ _ _ rs) as [c' [q|err]].
  - destruct IH as (Hch & Hq & Hclock & more & Hent & Hix & Hli & Hfa). split_and!.
    + by exists (ae_content_hash e).
    + cbn [map chain_from]. destruct Hc as (-> & _). done.
    + done.
    + exists (e :: more). cbn in *. rewrite <- app_assoc in Hent. split_and!; [done|done| |by constructor].
      rewrite Hp, String.eqb_refl. done.
  - intros (content & (Hh & _) & Hrest). destruct Hc as (Hh' & _). rewrite Hh in Hh'. injection Hh' as ->. done.
Qed.

Lemma load_tier1_spec a records :
  forallb hashed records = true ->
  match load_tier1 (N := N) a (Ok records) with
  | (a', Ok _) =>
      chained "genesis" records /\
      compute_chain_hash (N := N) (map rec_fact records) = Ok (audit_last_hash a') /\
      verify a' = true /\ Forall2 entry_of (ch_entries (chain a')) records /\
      ch_index (chain a') = index_from ∅ 0 (ch_entries (chain a')) /\ anchoring a' = anchoring a
  | (_, Err _) => ~ chained "genesis" records
  end.
Proof.
  intros Hh. unfold load_tier1. cbn [chain with_chain with_auto].
  pose proof (load_records_spec "genesis" 0 (cleared_chain (chain a)) records Hh) as Hs.
  destruct (load_records _ _ _ records) as [c' [q|err]]; [|done].
  destruct Hs as (Hch & Hq & _ & more & Hent & Hix & Hli & Hfa). cbn in Hent, Hix.
  split; [done|]. cbn. rewrite Hent. split; [|done]. rewrite compute_chain_hash_from, Hq. f_equal.
  destruct (existsb _ records); [|done]. clear -Hch Hq.
  destruct records as [|r records _] using rev_ind; [done|]. rewrite last_snoc.
  revert Hch Hq. generalize "genesis". induction records as [|r0 rs IH]; intros prev; cbn.
  - intros (content & (-> & _ & _ & ->) & _) [= <-]. done.
  - intros (content & (-> & _) & Hrest). by apply IH.
Qed.
Lemma entry_of_contents entries records :
  Forall2 entry_of entries records ->
  Forall2 (fun e f => fact_hash (N := N) f = Ok (ae_content_hash e)) entries (map rec_fact records).
Proof. induction 1 as [|e r entries records (Hh & _) _ IH]; constructor; done. Qed.
Lemma loaded_deep a records :
  verify a = true -> Forall2 entry_of (ch_entries (chain a)) records ->
  verify_deep (N := N) a (map rec_fact records) = Ok tt.
Proof.
  intros Hv Hf%entry_of_contents. unfold verify_deep. rewrite Hv, <- (Forall2_length _ _ _ Hf), Nat.eqb_refl.
  by apply verify_contents_ok.
Qed.
End Loading.

(** Loading is exact.  On records that carry their hashes,
    [load_from_tier1_wal] succeeds precisely when every content hash is that
    of the fact, every previous hash is the chain hash before it and every
    chain hash is the step; the auditor it leaves has the chain hash of the
    facts as its last hash, an entry for each fact, and passes its own
    verification, also against the facts. *)
Lemma load_tier1_exact {N A} `{SerdeNumber N, SerdeText N, Blake3, Ed25519}
    (a : Auditor A) (records : list WalRecord) :
  forallb hashed records = true ->
  let '(a', r) := load_tier1 (N := N) a (Ok records) in
  (r = Ok tt <-> chained (N := N) "genesis" records) /\
  (r = Ok tt ->
   compute_chain_hash (N := N) (map rec_fact records) = Ok (audit_last_hash a') /\
   Forall2 (entry_of (N := N)) (ch_entries (chain a')) records /\
   verify a' = true /\ verify_deep (N := N) a' (map rec_fact records) = Ok tt).
Proof.
  intros Hh. pose proof (load_tier1_spec a records Hh) as Hs.
  destruct (load_tier1 a (Ok records)) as [a' [[]|err]].
  - destruct Hs as (Hc & Hq & Hv & Hf & _). split; [done|]. intros _. split_and!; [done..|by apply loaded_deep].
  - by split.
Qed.

(** * The log on disk *)

Section Stored.
Context {N S : Type} `{SerdeNumberLaws N, SerdeText N, Blake3, FactWalStoreLaws S}.
Lemma read_back_hash f : wf_fact f = true -> fact_hash (N := N) (read_back f) = fact_hash f.
Proof.
  intros Hf. unfold fact_hash, fact_text.
  rewrite <- (norm_fact_same_json f Hf), <- (norm_fact_same_json (read_back f) (read_back_wf f Hf)).
  by rewrite read_back_norm.
Qed.
Lemma recorded_chained p h rs q :
  recorded (N := N) (S := S) p h rs q -> Forall (fun vf => wf_fact (snd vf) = true) h ->
  chained (N := N) p rs /\ chain_from (N := N) p (map rec_fact rs) = Ok q.
Proof.
  induction 1 as [|h rs q v f c Hr IH Hf]; intros Hwf; [done|].
  apply Forall_app in Hwf as [Hwf Hwf1]. inv Hwf1 as [|? ? Hwf1' _]. cbn in Hwf1'. destruct (IH Hwf) as [Hc Hq].
  rewrite <- (read_back_hash f Hwf1') in Hf. split.
  - eapply chained_snoc; [done|done|]. by split_and!.
  - rewrite map_app, chain_from_app, Hq. cbn. by rewrite Hf.
Qed.
End Stored.

(** C13: the audit survives a restart.  A log with the file backend, created
    at a path without stale shards and used by any session, holds in its files
    all the facts it ever accepted, those compaction has dropped from memory
    included (the chain hash of these facts is the log's).  When each of them
    nests below the recursion limit of the parser, [load_from_tier1_wal] loads
    the log whatever the auditor held before: the last hash is that of the
    log, the entries are those of all these facts, and the chain verifies
    against them (up to the integer variant).  When one is deeper, which the
    log accepts, the load is an error. *)
Theorem load_restores_audit {N A} `{SerdeNumberLaws N, SerdeText N, !SerdeTextLaws N, Blake3, Ed25519}
    (fs : Files) (path : WalPath) (max : Z) (fsync : bool) (log : FactsLog (Files * WalWriter))
    (a : Auditor A) :
  (forall i, 0 < i -> fs !! path_string (build_rotated_path path i) = None) ->
  rtc (session_step (N := N)) (with_wal_options fs path max fsync) log ->
  exists fs' w' a' r dropped, wal (inner log) = Some (fs', w') /\
    load_from_tier1_wal (N := N) a fs' path = Some (a', r) /\
    (compacted_snapshot (inner log) = None -> dropped = []) /\
    compute_chain_hash (N := N) (dropped ++ log_history log) = Ok (log_last_hash log) /\
    if forallb (readable_fact (N := N)) (dropped ++ log_history log) then
      r = Ok tt /\
      audit_last_hash a' = log_last_hash log /\
      map ae_fact_id (ch_entries (chain a')) = map fact_id (dropped ++ log_history log) /\
      verify a' = true /\
      verify_deep (N := N) a' (map norm_fact (dropped ++ log_history log)) = Ok tt
    else exists err, r = Err err.
Proof.
  intros Hfresh Hsteps. pose (laws := file_store_laws path).
  assert (holds (FactWalStoreLaws := laws) (create_with_options fs path max fsync) []) as Hs0.
  { exists [[]]. split_and!; [by apply stored_create|done|done]. }
  destruct (session_inv (H3 := laws) _ _ _ _ Hs0 Hsteps) as (dropped & rs & Hi & Hw & _).
  destruct (log_records (H3 := laws) _ _ _ Hi) as (Hfacts & Hwf & Hd & Hc).
  pose proof (inv_store _ _ _ Hi) as Hst. destruct (wal (inner log)) as [[fs' w']|]; [|done].
  destruct (files_hold_read _ _ _ _ Hst Hfacts Hwf) as (r & Hread & Hr). cbn [fst] in Hread.
  unfold load_from_tier1_wal. destruct (forallb (readable_fact (N := N)) _) eqn:Hall.
  2: { destruct Hr as [err ->]. exists fs', w'. rewrite Hread. eexists _, _, (map snd dropped). split_and!; [done..|].
    rewrite Hall. by eexists. }
  subst r. destruct (recorded_chained (H4 := laws) _ _ _ _ (inv_recorded _ _ _ Hi) (inv_wf _ _ _ Hi)) as [Hch Hq].
  pose proof (load_tier1_spec a rs (chained_hashed _ _ Hch)) as Hl.
  destruct (load_tier1 a (Ok rs)) as [a' [[]|err]] eqn:Hload; [|done].
  destruct Hl as (_ & Hhash & Hv & Hf & _).
  exists fs', w', a', (Ok tt), (map snd dropped). rewrite Hread, Hall. split_and!; [done|by f_equal|done..| | |done|].
  - rewrite compute_chain_hash_from, Hq in Hhash. by injection Hhash.
  - transitivity (map fact_id (map rec_fact rs)); [|rewrite Hfacts, map_map; apply map_ext; by intros []].
    clear -Hf. induction Hf as [|e r entries records (_ & Hid & _) _ IH]; [done|]. cbn. by rewrite Hid, IH.
  - change (map norm_fact) with (map (read_back (FactWalStoreLaws := laws))). rewrite <- Hfacts. by apply loaded_deep.
Qed.

(** Records without hashes are accepted, but their entries are all linked to
    the genesis: the verification of the chain fails from the second on. *)
Lemma unhashed_load_unverifiable {N A} `{SerdeNumber N, SerdeText N, Blake3, !Blake3Laws, Ed25519}
    (a a' : Auditor A) (r1 r2 : WalRecord) (rest : list WalRecord) :
  rec_prev_hash r2 = None ->
  load_tier1 (N := N) a (Ok (r1 :: r2 :: rest)) = (a', Ok tt) -> verify a' = false.
Proof.
  intros Hp. unfold load_tier1. cbn [chain with_chain with_auto load_records].
  destruct (load_record "genesis" 0 r1) as [[e1 q1]|]; [|done].
  destruct (load_record q1 1 r2) as [[e2 q2]|] eqn:Hr2; [|done].
  assert (ae_prev_hash e2 = "genesis") as Hg.
  { unfold load_record in Hr2. rewrite Hp in Hr2. destruct (load_content r2 1) as [content|]; [|done].
    destruct (rec_chain_hash r2); [destruct (negb _); [done|]|]; by injection Hr2 as <- _. }
  assert (forall c i q rs c' r, load_records (N := N) c q i rs = (c', r) ->
    exists more, ch_entries c' = ch_entries c ++ more) as Hgrow.
  { intros c i q rs. revert c i q. induction rs as [|r rs IH]; intros c i q c' res; cbn.
    - intros [= <- _]. exists []. by rewrite app_nil_r.
    - destruct (load_record q i r) as [[e q']|]; [|intros [= <- _]; exists []; by rewrite app_nil_r].
      intros (more & ->)%IH. cbn. rewrite <- app_assoc. by eexists. }
  destruct (load_records _ q2 2 rest) as [c' [q|err]] eqn:Hl; [|done]. intros [= <-].
  apply Hgrow in Hl as [more Hent]. unfold verify. cbn. rewrite Hent. cbn.
  destruct (String.eqb_spec (ae_prev_hash e1) "genesis"); [|done]. cbn. rewrite Hg.
  destruct (String.eqb_spec "genesis" (chain_step (ae_prev_hash e1) (ae_content_hash e1))) as [Heq|]; [|done].
  apply (f_equal String.length) in Heq. unfold chain_step in Heq. by rewrite blake3_hex_length in Heq.
Qed.

(** * Export and import *)

Lemma tick_while_max fuel c t :
  (0 <= c)%Z -> (t <= u64_max)%Z -> (t - c <= Z.of_nat fuel)%Z -> tick_while fuel c t = Z.max c t.
Proof.
  revert c. induction fuel as [|fuel IH]; intros c Hc Ht Hf; cbn [tick_while]; [lia|].
  unfold current. destruct (Z.ltb_spec c t) as [Hlt|Hge]; [|lia]. cbn [fst tick].
  unfold u64_wrapping_add. unfold u64_max in Ht. rewrite Z.mod_small by lia.
  rewrite IH; unfold u64_max; lia.
Qed.
(** The loop of ticks ends, at the target. *)
Lemma tick_until_max c t : (0 <= c)%Z -> (t <= u64_max)%Z -> tick_until c t = Z.max c t.
Proof. intros Hc Ht. apply tick_while_max; lia. Qed.

Section Exporting.
Context {N A : Type} `{SerdeNumberLaws N, SerdeText N, Blake3, Ed25519}.
Context `{!SerdePretty N, !SerdePrettyLaws N}.
Implicit Types (c : AuditChain) (a b : Auditor A).

Definition entry_u64 (e : AuditEntry) : bool :=
  is_u64 (ae_fact_id e) && is_u64 (ae_logical_time e) &&
  match ae_cause e with Some cause => is_u64 cause | None => true end.
(** The type names outside the table are lost. *)
Definition static_entry (e : AuditEntry) : AuditEntry :=
  mk_audit_entry (ae_fact_id e) (static_type (ae_fact_type e)) (ae_logical_time e)
    (ae_content_hash e) (ae_prev_hash e) (ae_cause e).
Lemma u64_roundtrip u : is_u64 u = true -> s_as_u64 (s_u64 (N := N) u) = Some u.
Proof. intros Hu. cbn. by apply as_u64_from_u64. Qed.
Lemma import_entry_json e idx :
  entry_u64 e = true -> import_entry (N := N) idx (entry_json e) = Ok (static_entry e).
Proof.
  unfold entry_u64. rewrite !andb_true_iff. intros [[Hid Ht] Hc].
  unfold import_entry, read_entry, get_u64, get_str, entry_json.
  rewrite !s_get_object. cbn [assoc_last String.eqb Ascii.eqb Bool.eqb].
  rewrite !u64_roundtrip by done. cbn [ok_or s_as_str default option_bind].
  unfold static_entry. destruct (ae_cause e) as [cause|]; [|done]. by rewrite u64_roundtrip.
Qed.
Lemma entry_json_integers e : entry_u64 e = true -> s_wf (entry_json (N := N) e) = true.
Proof.
  unfold entry_u64. rewrite !andb_true_iff. intros [[Hid Ht] Hc]. apply s_object_wf. cbn [forallb snd s_wf s_u64].
  rewrite !num_u64_integer by done. destruct (ae_cause e) as [cause|]; [|done]. cbn. by rewrite num_u64_integer.
Qed.
Lemma import_entries_json c idx entries :
  forallb entry_u64 entries = true ->
  import_entries (N := N) c idx (map entry_json entries) =
  (mk_chain (ch_clock c) (last_audited_version c) (ch_entries c ++ map static_entry entries)
     (ch_last_hash c) (index_from (ch_index c) idx (map static_entry entries)), Ok tt).
Proof.
  revert c idx. induction entries as [|e entries IH]; intros c idx; cbn [forallb map import_entries].
  { intros _. rewrite app_nil_r. by destruct c. }
  intros [He Hes]%andb_true_iff. rewrite import_entry_json, IH by done. cbn. by rewrite <- app_assoc.
Qed.
Lemma verify_links_static p entries : verify_links p (map static_entry entries) = verify_links p entries.
Proof.
  revert p. induction entries as [|e entries IH]; intros p; [done|]. cbn. by rewrite IH.
Qed.
Lemma max_time_spec entries m :
  forallb entry_u64 entries = true -> (0 <= m <= u64_max)%Z ->
  (m <= fold_left (fun m e => Z.max m (ae_logical_time e)) (map static_entry entries) m <= u64_max)%Z.
Proof.
  revert m. induction entries as [|e entries IH]; intros m; cbn; [lia|].
  intros [He Hes]%andb_true_iff Hm. unfold entry_u64 in He. rewrite !andb_true_iff in He.
  destruct He as [[_ Ht%is_u64_spec] _]. specialize (IH (Z.max m (ae_logical_time e)) Hes). lia.
Qed.
Lemma export_read a text :
  forallb entry_u64 (ch_entries (chain a)) = true -> is_u64 (last_audited_version (chain a)) = true ->
  is_u64 (Z.of_nat (length (ch_entries (chain a)))) = true ->
  export (N := N) a = Ok text -> serde_from_str text = Ok (export_json a).
Proof.
  intros He Hv Hn Hx. apply from_to_string_pretty in Hx; [done| |].
  2: { apply (shallow_le _ 3); [|unfold recursion_limit; lia]. apply s_depth_s_object. repeat apply List.Forall_cons; cbn [snd]; try (cbn; lia); [|constructor].
    apply s_depth_array. apply List.Forall_forall. intros v (e & <- & _)%in_map_iff.
    apply s_depth_s_object. repeat apply List.Forall_cons; try (cbn; lia); [|constructor]. by destruct (ae_cause e); cbn; lia. }
  apply s_object_wf.
  cbn [forallb snd s_wf s_u64]. rewrite !num_u64_integer by done. cbn.
  rewrite andb_true_r. apply forallb_forall. intros v (e & <- & Hin)%in_map_iff.
  apply entry_json_integers. rewrite forallb_forall in He. by apply He.
Qed.
End Exporting.

(** An export is read back.  Importing what [export] wrote, into any
    auditor whose clock is in range, restores the entries with their order,
    times, hashes and causes (a type outside the static table becomes
    Unknown), the index, the last hash and the audited version, moves the
    clock to the latest time, keeps the anchors, and verifies exactly when the
    exported chain does; compressed, it is the same import. *)
Lemma export_import_roundtrip {N A}
    `{SerdeNumberLaws N, SerdeText N, Blake3, Ed25519, !SerdePretty N, !SerdePrettyLaws N, GzipLaws}
    (a b : Auditor A) (text bytes : string) :
  forallb entry_u64 (ch_entries (chain a)) = true -> is_u64 (last_audited_version (chain a)) = true ->
  is_u64 (Z.of_nat (length (ch_entries (chain a)))) = true -> (0 <= ch_clock (chain b))%Z ->
  export (N := N) a = Ok text ->
  let '(b', r) := import (N := N) b text in
  r = Ok tt /\
  ch_entries (chain b') = map static_entry (ch_entries (chain a)) /\
  ch_index (chain b') = index_from ∅ 0 (map static_entry (ch_entries (chain a))) /\
  audit_last_hash b' = audit_last_hash a /\
  last_audited_version (chain b') = last_audited_version (chain a) /\
  ch_clock (chain b') = Z.max (ch_clock (chain b)) (max_time (map static_entry (ch_entries (chain a)))) /\
  anchoring b' = anchoring b /\ verify b' = verify a /\
  (export_compressed (N := N) a = Ok bytes -> (Z.of_nat (String.length text) <= MAX_DECOMPRESSED_BYTES)%Z ->
   import_compressed (N := N) b bytes = (b', r)).
Proof.
  intros He Hv Hn Hclock Hx. pose proof (export_read a text He Hv Hn Hx) as Hread.
  destruct (import b text) as [b' r] eqn:Him. pose proof Him as Him'. unfold import in Him.
  rewrite Hread in Him. unfold get_str, export_json in Him. rewrite !s_get_object in Him.
  cbn [assoc_last String.eqb Ascii.eqb Bool.eqb s_as_str s_as_array negb] in Him.
  cbn [chain with_chain with_auto] in Him. rewrite import_entries_json in Him by done.
  unfold get_u64 in Him. rewrite !s_get_object in Him.
  cbn [assoc_last String.eqb Ascii.eqb Bool.eqb s_as_str] in Him.
  rewrite u64_roundtrip in Him by done. injection Him as <- <-. split_and!; try done.
  - cbn. apply tick_until_max; [done|]. apply (max_time_spec _ 0%Z He). unfold u64_max. lia.
  - unfold verify. cbn. by rewrite verify_links_static.
  - unfold export_compressed. rewrite Hx. intros Hz Hle. unfold import_compressed.
    rewrite (gz_read_encode text bytes _ Hz) by lia.
    destruct (Z.ltb_spec MAX_DECOMPRESSED_BYTES (Z.of_nat (String.length text))); [lia|]. done.
Qed.

(** * The causal chain *)

Section Causes.
Context {A : Type} `{Blake3, Ed25519}.
Implicit Types c : AuditChain.

(** The path from an identifier along the causes: each step takes the last
    entry with the identifier; the path ends at a root or at an identifier
    without an entry. *)
Definition last_entry c (id : FactId) (e : AuditEntry) : Prop :=
  exists i, ch_index c !! id = Some i /\ ch_entries c !! i = Some e.
Inductive causal_path c : FactId -> list AuditEntry -> Prop :=
| path_lost id : ch_index c !! id = None -> causal_path c id []
| path_root id e : last_entry c id e -> ae_cause e = None -> causal_path c id [e]
| path_step id e cause l :
    last_entry c id e -> ae_cause e = Some cause -> causal_path c cause l -> causal_path c id (e :: l).
(** Causes point backwards. *)
Definition causes_backward c : Prop :=
  forall i e cause j, ch_entries c !! i = Some e -> ae_cause e = Some cause ->
    ch_index c !! cause = Some j -> j < i.
Lemma causal_loop_path c fuel id :
  ch_index c = index_from ∅ 0 (ch_entries c) -> causes_backward c ->
  (forall j, ch_index c !! id = Some j -> S j < fuel) -> 0 < fuel ->
  exists l, causal_loop fuel c (Some id) = CausalDone l /\ causal_path c id l.
Proof.
  intros Hix Hback. revert id. induction fuel as [|fuel IH]; intros id Hj Hf; [lia|].
  cbn [causal_loop]. destruct (ch_index c !! id) as [i|] eqn:Hi.
  2:{ exists []. split; [done|by apply path_lost]. }
  rewrite Hix in Hi. destruct (index_from_lookup _ _ _ Hi) as (e & He & _). rewrite <- Hix in Hi. rewrite He.
  assert (last_entry c id e) as Hlast by by exists i. destruct (ae_cause e) as [cause|] eqn:Hc.
  - specialize (Hj i eq_refl). destruct (IH cause) as (l & -> & Hp).
    + intros j Hcj. pose proof (Hback i e cause j He Hc Hcj). lia.
    + lia.
    + exists (e :: l). split; [done|]. by eapply path_step.
  - exists [e]. destruct fuel; split; try done; by apply path_root.
Qed.
End Causes.

(** The causal walk ends.  For an auditor that follows a log in which
    every cause names, if anything, facts written before, [causal_chain] ends
    within one step per entry and one more, and returns the path from the last
    entry with the identifier along the causes, to a root or to an identifier
    that has no entry. *)
Lemma causal_chain_terminates {N S A}
    `{SerdeNumber N, SerdeText N, Blake3, FactWalStoreLaws S, Ed25519Laws, AnchorCodec, AnchorFile A}
    (keys : gmap string string) (a : Auditor A) (log : FactsLog S) (id : FactId) (fuel : nat) :
  follows (N := N) keys a log ->
  (forall i j f g cause, log_history log !! i = Some f -> extract_cause f = Some cause ->
     log_history log !! j = Some g -> fact_id g = cause -> j < i) ->
  Datatypes.S (length (ch_entries (chain a))) < fuel ->
  exists l, causal_chain fuel a id = CausalDone l /\ causal_path (chain a) id l.
Proof.
  intros Hi%follows_inv Hback Hf. pose proof (chain_of_spec _ _ (fi_chain _ _ _ Hi)) as Hs.
  apply causal_loop_path; [apply (cf_index _ _ Hs)| | |lia].
  - intros i e cause j He Hc Hj. rewrite (cf_index _ _ Hs) in Hj.
    destruct (index_from_lookup _ _ _ Hj) as (e' & He' & Hid).
    assert (forall k (x : AuditEntry), ch_entries (chain a) !! k = Some x ->
      exists f, log_history log !! k = Some f /\ ae_fact_id x = fact_id f /\ ae_cause x = extract_cause f) as Hfact.
    { intros k x Hx. pose proof (f_equal (lookup k) (cf_ids _ _ Hs)) as Hids.
      pose proof (f_equal (lookup k) (cf_causes _ _ Hs)) as Hcs.
      setoid_rewrite list_lookup_fmap in Hids. setoid_rewrite list_lookup_fmap in Hcs.
      rewrite Hx in Hids, Hcs. cbn in Hids, Hcs.
      destruct (take _ (log_history log) !! k) as [f|] eqn:Hk; [|done]. cbn in Hids, Hcs.
      apply lookup_take_Some in Hk as [Hk _]. exists f. by split; [|injection Hids; injection Hcs]. }
    destruct (Hfact _ _ He) as (f & Hlf & _ & Hfc). destruct (Hfact _ _ He') as (g & Hlg & Hgi & _).
    apply (Hback i j f g cause); [done|by rewrite <- Hfc|done|by rewrite <- Hgi].
  - intros j Hj. rewrite (cf_index _ _ Hs) in Hj. destruct (index_from_lookup _ _ _ Hj) as (e & He & _).
    apply lookup_lt_Some in He. lia.
Qed.
(** An entry that is its own cause keeps the walk going for ever. *)
Lemma causal_chain_self_cause {A} `{Ed25519} (a : Auditor A) (id : FactId) (i : nat) (e : AuditEntry) (fuel : nat) :
  ch_index (chain a) !! id = Some i -> ch_entries (chain a) !! i = Some e -> ae_cause e = Some id ->
  causal_chain fuel a id = CausalRuns.
Proof.
  intros Hi He Hc. unfold causal_chain. induction fuel as [|fuel IH]; cbn; [done|]. by rewrite Hi, He, Hc, IH.
Qed.

(** * The anchor log *)

Section AnchorLog.
Context {N S A : Type}.
Context `{SerdeNumber N, SerdeText N, Blake3, FactWalStore S, Ed25519, AnchorCodecLaws, AnchorFileLaws A}.
Implicit Types (a : Auditor A) (s : AnchorState A).

Definition anchor_line (an : AuditAnchor) : string := default "" (result_ok (anchor_to_string an)).
Lemma anchor_line_spec an :
  anchor_to_string an = Ok (anchor_line an) /\ str_all is_printable (anchor_line an) = true /\
  trim (anchor_line an) = anchor_line an /\ str_is_empty (anchor_line an) = false /\
  anchor_from_str (anchor_line an) = Ok an.
Proof.
  unfold anchor_line. destruct (anchor_to_string_total an) as [line Hs]. rewrite Hs. cbn.
  destruct (anchor_to_string_line an line Hs) as (Hp & Ht & He). split_and!; try done. by apply anchor_from_to_string.
Qed.
(** The content of the log after some anchors. *)
Fixpoint anchor_text (anchors : list AuditAnchor) : string :=
  match anchors with
  | [] => ""
  | an :: rest => anchor_line an +:+ String newline (anchor_text rest)
  end.
Lemma anchor_text_snoc anchors an :
  anchor_text (anchors ++ [an]) = anchor_text anchors +:+ (anchor_line an +:+ String newline "").
Proof.
  induction anchors as [|x anchors IH]; [done|]. cbn. rewrite IH.
  rewrite <- str_app_assoc. done.
Qed.
Lemma split_char_line l rest :
  str_all is_printable l = true ->
  split_char newline (l +:+ String newline rest) = l :: split_char newline rest.
Proof.
  induction l as [|c l IH]; cbn [str_all].
  - intros _. cbn. by destruct (split_char newline rest).
  - intros [Hc Hl]%andb_true_iff. change (String c l +:+ String newline rest) with (String c (l +:+ String newline rest)).
    cbn [split_char]. rewrite IH by done. by destruct (Ascii.eqb_spec c newline) as [->|].
Qed.
Lemma complete_lines_cons l l2 rest : complete_lines (l :: l2 :: rest) = strip_cr l :: complete_lines (l2 :: rest).
Proof. done. Qed.
Lemma split_char_cons text : exists l rest, split_char newline text = l :: rest.
Proof.
  destruct text as [|c text]; [by do 2 eexists|]. cbn [split_char].
  destruct (Ascii.eqb c newline); [by do 2 eexists|]. destruct (split_char newline text); by do 2 eexists.
Qed.
Lemma read_anchor_text anchors : read_anchors (str_lines (anchor_text anchors)) = anchors.
Proof.
  unfold str_lines. induction anchors as [|an anchors IH]; [done|]. cbn [anchor_text].
  destruct (anchor_line_spec an) as (_ & Hp & Ht & He & Hr). rewrite split_char_line by done.
  destruct (split_char_cons (anchor_text anchors)) as (l & rest & Hsplit). rewrite Hsplit in *.
  rewrite complete_lines_cons, strip_cr_printable by done. cbn [read_anchors]. rewrite Ht, He, Hr. by rewrite IH.
Qed.

(** The state of anchors that are all in the log. *)
Context (signer : AuditSigner) (key_id engine_id session_id : string) (interval : nat).
Context (writes_succeed : forall (f : A) (line : string), snd (append_anchor_line f line) = Ok tt).
Record logged s : Prop := {
  lg_builder : anchor_builder s =
    Some (resume_builder (builder_new signer key_id engine_id session_id) (sealed s));
  lg_interval : sealing_interval s = interval;
  lg_file : exists f, anchor_log s = Some f /\ read_anchor_file f = Ok (anchor_text (sealed s));
}.
Lemma resume_seal anchors hi head :
  exists an, seal (resume_builder (builder_new signer key_id engine_id session_id) anchors) hi head =
    (resume_builder (builder_new signer key_id engine_id session_id) (anchors ++ [an]), Ok an).
Proof.
  unfold resume_builder. setoid_rewrite last_snoc.
  destruct (last anchors) as [x|]; unfold seal; cbn;
    match goal with |- exists _, (_, Ok ?an) = _ => by exists an end.
Qed.
Lemma seal_logged s b hi head :
  logged s -> anchor_builder s = Some b -> logged (fst (seal_with s b hi head)).
Proof.
  intros [Hb Hi (f & Hf & Hr)] Hsome. rewrite Hb in Hsome. injection Hsome as <-.
  destruct (resume_seal (sealed s) hi head) as [an Hseal]. unfold seal_with. rewrite Hseal. cbn [fst].
  destruct (anchor_line_spec an) as (Hline & _). unfold persist_anchor. cbn [anchor_log]. rewrite Hf, Hline.
  pose proof (writes_succeed f (anchor_line an +:+ String newline "")) as Hw.
  destruct (append_anchor_line f (anchor_line an +:+ String newline "")) as [f' r] eqn:Ha. cbn in Hw. subst r.
  split; cbn [anchor_builder sealed sealing_interval anchor_log push_sealed fst]; [done|done|].
  exists f'. split; [done|]. rewrite anchor_text_snoc. by eapply append_anchor_reads.
Qed.
Inductive persisted : Auditor A -> Prop :=
| persisted_start f :
    read_anchor_file f = Ok "" ->
    persisted (with_anchor_persisted auditor_new signer key_id engine_id session_id interval f)
| persisted_audit a log1 log2 log3 :
    persisted a -> persisted (fst (audit_new (N := N) (S := S) a log1 log2 log3))
| persisted_seal a : persisted a -> persisted (fst (auditor_seal_now a)).
Lemma persisted_logged a : persisted a -> logged (anchoring a).
Proof.
  induction 1 as [f Hr|a l1 l2 l3 _ IH|a _ IH].
  - unfold with_anchor_persisted, with_anchor_impl, load_anchor_log. rewrite Hr. cbn.
    split; [done|done|]. by exists f.
  - unfold audit_new. destruct (Nat.leb _ _); cbn [fst]; [done|]. set (a1 := with_chain _ _).
    destruct (verify_when_due_same (seal_when_due a1)) as (_ & -> & _).
    destruct (seal_when_due_same a1) as (_ & _ & [->|(b & Hb & ->)]); [done|]. by apply seal_logged.
  - unfold auditor_seal_now. destruct (anchor_builder (anchoring a)) as [b|] eqn:Hb; [|done].
    pose proof (seal_logged _ b (length (ch_entries (chain a))) (ch_last_hash (chain a)) IH Hb) as Hl.
    by destruct (seal_with _ _ _ _).
Qed.
End AnchorLog.

(** The anchors survive a restart.  However an auditor with a persisted
    anchor log was driven since it started on an empty log, a new auditor
    configured with the same identity on the file it left has exactly its
    anchors and its builder: the chain of anchors goes on where it stopped. *)
Lemma anchor_log_restart {N S A}
    `{SerdeNumber N, SerdeText N, Blake3, FactWalStore S, Ed25519, AnchorCodecLaws, AnchorFileLaws A}
    (signer : AuditSigner) (key_id engine_id session_id : string) (interval : nat) (a : Auditor A) :
  (forall (f : A) (line : string), snd (append_anchor_line f line) = Ok tt) ->
  persisted (N := N) (S := S) signer key_id engine_id session_id interval a ->
  exists f, anchor_log (anchoring a) = Some f /\
    anchoring (with_anchor_persisted auditor_new signer key_id engine_id session_id interval f) = anchoring a.
Proof.
  intros Hw [Hb Hi (f & Hf & Hr)]%persisted_logged; [|done]. exists f. split; [done|].
  unfold with_anchor_persisted, with_anchor_impl, load_anchor_log. rewrite Hr, read_anchor_text. cbn.
  destruct (anchoring a) as [b i sl l]. cbn in *. by subst.
Qed.

(** * Examples *)

Import ZNumber ZText ZHash ZSign ZAnchor.
Lemma load_tier1_exact_witness :
  let records := default [] (wal (inner Demo.log)) in
  forallb hashed records = true /\ chained (N := Z) "genesis" records /\
  verify (fst (load_tier1 (N := Z) (auditor_new : Auditor string) (Ok records))) = true.
Proof.
  intros records. assert (forallb hashed records = true) as Hh by (vm_compute; reflexivity).
  pose proof (load_tier1_exact (N := Z) (auditor_new : Auditor string) records Hh) as Hl.
  assert (snd (load_tier1 (N := Z) (auditor_new : Auditor string) (Ok records)) = Ok tt) as Hr
    by (vm_compute; reflexivity).
  destruct (load_tier1 auditor_new (Ok records)) as [a' r]. cbn [snd] in Hr. destruct Hl as [Hiff Hok].
  split; [exact Hh|]. split; [by apply Hiff|]. by apply Hok.
Defined.
Lemma load_restores_audit_witness :
  let log := append_all (N := Z) (with_wal_options ∅ (mk_path "" "s.wal") 300 false) Demo.facts in
  exists fs' w' a', wal (inner log) = Some (fs', w') /\
    load_from_tier1_wal (N := Z) AuditorDemo.second fs' (mk_path "" "s.wal") = Some (a', Ok tt) /\
    audit_last_hash a' = log_last_hash log /\
    map ae_fact_id (ch_entries (chain a')) = map fact_id (log_history log) /\
    verify a' = true /\
    verify_deep (N := Z) a' (map norm_fact (log_history log)) = Ok tt.
Proof.
  intros log.
  destruct (load_restores_audit (N := Z) ∅ (mk_path "" "s.wal") 300 false log AuditorDemo.second)
    as (fs' & w' & a' & r & dropped & Hw & Hl & Hd & _ & Hr).
  - intros i _. apply lookup_empty.
  - apply append_all_steps; [reflexivity|vm_compute; reflexivity].
  - rewrite Hd, !app_nil_l in Hr by (vm_compute; reflexivity).
    replace (forallb _ _) with true in Hr by (vm_compute; reflexivity).
    destruct Hr as (-> & Hr). exists fs', w', a'. exact (conj Hw (conj Hl Hr)).
Defined.
Lemma export_import_roundtrip_witness :
  exists text, export (N := Z) AuditorDemo.second = Ok text /\
    let '(b', r) := import (N := Z) (auditor_new : Auditor string) text in
    r = Ok tt /\ audit_last_hash b' = audit_last_hash AuditorDemo.second /\ verify b' = true.
Proof.
  destruct (to_string_pretty_total (export_json (N := Z) AuditorDemo.second)) as [text Hx]. exists text.
  split; [exact Hx|].
  pose proof (export_import_roundtrip (N := Z) AuditorDemo.second (auditor_new : Auditor string) text ""
    ltac:(vm_compute; reflexivity) ltac:(vm_compute; reflexivity) ltac:(vm_compute; reflexivity)
    ltac:(vm_compute; discriminate) Hx) as Hr.
  destruct (import auditor_new text) as [b' r].
  destruct Hr as (Hok & _ & _ & Hh & _ & _ & _ & Hv & _). split; [exact Hok|]. split; [exact Hh|].
  etransitivity; [exact Hv|]. vm_compute. reflexivity.
Defined.
Lemma causal_chain_terminates_witness :
  exists l, causal_chain 5 AuditorDemo.second 3%Z = CausalDone l /\ map ae_fact_id l = [3%Z; 2%Z; 1%Z].
Proof.
  destruct (causal_chain_terminates (N := Z) AuditorDemo.keys AuditorDemo.second AuditorDemo.log3 3%Z 5
    AuditorDemo.second_follows) as (l & Hl & _).
  - change (log_history AuditorDemo.log3) with AuditorDemo.facts. intros [|[|[|i]]] [|[|[|j]]]; cbn; try (intros; lia).
    all: intros f g cause [= <-] [= <-] [= <-] Heq; discriminate Heq.
  - vm_compute. reflexivity.
  - exists l. split; [exact Hl|]. vm_compute in Hl. injection Hl as <-. reflexivity.
Defined.
Lemma anchor_log_restart_witness :
  let a := fst (auditor_seal_now (fst (auditor_seal_now
    (with_anchor_persisted auditor_new AuditorDemo.signer "k1" "engine" "s1" 0 "")))) in
  exists f, anchor_log (anchoring a) = Some f /\
    anchoring (with_anchor_persisted auditor_new AuditorDemo.signer "k1" "engine" "s1" 0 f) = anchoring a /\
    length (sealed (anchoring a)) = 2.
Proof.
  intros a.
  destruct (anchor_log_restart (N := Z) (S := MemoryWalStore) AuditorDemo.signer "k1" "engine" "s1" 0 a)
    as (f & Hf & Ha).
  - reflexivity.
  - do 2 apply persisted_seal. apply persisted_start. reflexivity.
  - exists f. split; [exact Hf|]. split; [exact Ha|]. vm_compute. reflexivity.
Defined.

(** A request whose identifier is the first the subscriber gives out is
    answered under its own number, and the walk from it does not end. *)
Lemma causal_chain_can_run :
  let facts := [IoRequest 10000%Z 5%Z "http_get" JNull; IoResponse 10000%Z 10000%Z JNull None] in
  let log : AuditorDemo.Log := append_all (N := Z) log_new facts in
  let a : Auditor string := fst (audit_new (N := Z) auditor_new log log log) in
  forall fuel, causal_chain fuel a 10000%Z = CausalRuns.
Proof.
  intros facts log a fuel. eapply (causal_chain_self_cause a _ 1); vm_compute; reflexivity.
Qed.
(** After a compaction new facts are not audited: the history is shorter than
    what was audited. *)
Lemma compaction_hides_facts :
  let log : AuditorDemo.Log := append_all (N := Z) log_new [Command 1%Z JNull; Stable 2%Z 0] in
  let a : Auditor string := fst (audit_new (N := Z) auditor_new log log log) in
  let log := fst (append (N := Z) (fst (compact log)) (Command 3%Z JNull)) in
  history_len log = 1 /\ snd (audit_new (N := Z) a log log log) = 0 /\
  length (ch_entries (chain (fst (audit_new (N := Z) a log log log)))) = 2.
Proof. vm_compute. split_and!; reflexivity. Qed.
(** [verify] does not compare the last entry with the last hash: the content
    hash of the last entry can be changed. *)
Lemma verify_ignores_last_content :
  let a := AuditorDemo.second in
  let c := chain a in
  let last := mk_audit_entry 3%Z "IoResponse" 3 "forged" (default "" (ae_prev_hash <$> last (ch_entries c))) (Some 2%Z) in
  let forged := with_chain a (mk_chain (ch_clock c) (last_audited_version c) (take 2 (ch_entries c) ++ [last])
    (ch_last_hash c) (ch_index c)) in
  ch_entries (chain forged) <> ch_entries (chain a) /\ verify forged = true.
Proof. vm_compute. split; [discriminate|reflexivity]. Qed.
