(* ===== verification/EvidParse.v ===== *)
(** The independent verifier's readers, [evid-verify-core/src/parse.rs] and
    [record.rs]: from a [serde_json] value to a fact, an export document or a
    line of the write-ahead log, rejecting whatever is not of the form. *)

From S2P Require Import Prelude ObjectMap Value Error Path Domain Executor ExecSemantics Transition Fact Serde Hash Wal.

(** [struct ParseError]. *)
Record ParseError : Type := parse_error_new { reason : string }.
Definition parse_error_at (e : ParseError) (ctx : string) : ParseError :=
  parse_error_new (ctx +:+ ": " +:+ reason e).
Definition parse_error_display (e : ParseError) : string := "解析失败: " +:+ reason e.
Definition map_err {A E F} (f : E -> F) (r : Result A E) : Result A F :=
  match r with Ok a => Ok a | Err e => Err (f e) end.

(** A loop, or [map] and [collect], that stops at the first error. *)
Section TryMap.
Context {A B E : Type} (f : A -> Result B E).
Fixpoint try_map (l : list A) : Result (list B) E :=
  match l with
  | [] => Ok []
  | x :: rest =>
      let? y := f x in
      let? ys := try_map rest in
      Ok (y :: ys)
  end.
Lemma try_map_Forall2 l ys : try_map l = Ok ys <-> Forall2 (fun x y => f x = Ok y) l ys.
Proof.
  revert ys. induction l as [|x l IH]; intros ys; cbn [try_map].
  - split; [by intros [= <-]|by intros H; inv H].
  - split.
    + destruct (f x) as [y|] eqn:Hx; [|done]. destruct (try_map l) as [zs|]; [|done].
      intros [= <-]. constructor; [done|]. by apply IH.
    + intros H; inv H as [|? y ? zs Hx Hzs]. rewrite Hx. by rewrite (proj2 (IH zs) Hzs).
Qed.
End TryMap.

Section EvidParse.
Context {N : Type} `{SerdeNumber N}.

(** [parse::serde_to_tcb]: no floating-point number. *)
Fixpoint serde_to_tcb (v : SValue N) : Result JsonValue ParseError :=
  match v with
  | SNull => Ok JNull
  | SBool b => Ok (JBool b)
  | SNumber n =>
      match num_as_i64 n with
      | Some i => Ok (JInteger i)
      | None =>
          match num_as_u64 n with
          | Some u => Ok (JU64 u)
          | None => Err (parse_error_new "浮点数字段（审计链事实不承载浮点）")
          end
      end
  | SString s => Ok (JString s)
  | SArray arr => let? out := try_map serde_to_tcb arr in Ok (JArray out)
  | SObject m =>
      let? out := try_map (fun kv => let? x := serde_to_tcb (snd kv) in Ok (fst kv, x)) m in
      Ok (JObject (map_from out))
  end.

(** * Fields *)

Definition obj_of (v : SValue N) (what : string) : Result (ObjectMap (SValue N)) ParseError :=
  ok_or (s_as_object v) (parse_error_new (what +:+ " 应为对象")).
Definition req (obj : ObjectMap (SValue N)) (key ctx : string) : Result (SValue N) ParseError :=
  ok_or (map_get obj key) (parse_error_new (ctx +:+ " 缺字段 " +:+ quote key)).
Definition req_u64 (obj : ObjectMap (SValue N)) (key ctx : string) : Result Z ParseError :=
  let? v := req obj key ctx in
  ok_or (s_as_u64 v) (parse_error_new (ctx +:+ "." +:+ key +:+ " 应为非负整数（u64 全域）")).
Definition req_str (obj : ObjectMap (SValue N)) (key ctx : string) : Result string ParseError :=
  let? v := req obj key ctx in
  ok_or (s_as_str v) (parse_error_new (ctx +:+ "." +:+ key +:+ " 应为字符串")).
Definition req_json (obj : ObjectMap (SValue N)) (key ctx : string) : Result JsonValue ParseError :=
  let? v := req obj key ctx in serde_to_tcb v.
Definition req_array (obj : ObjectMap (SValue N)) (key ctx : string) :
    Result (list (SValue N)) ParseError :=
  let? v := req obj key ctx in
  ok_or (s_as_array v) (parse_error_new (ctx +:+ "." +:+ key +:+ " 应为数组")).
Definition opt_str_or_null (obj : ObjectMap (SValue N)) (key ctx : string) :
    Result (option string) ParseError :=
  let? v := req obj key ctx in
  match v with
  | SNull => Ok None
  | SString s => Ok (Some s)
  | _ => Err (parse_error_new (ctx +:+ "." +:+ key +:+ " 应为字符串或 null"))
  end.
Definition opt_attr_str (obj : ObjectMap (SValue N)) (key ctx : string) :
    Result (option string) ParseError :=
  match map_get obj key with
  | None => Ok None
  | Some (SString s) => Ok (Some s)
  | Some _ => Err (parse_error_new (ctx +:+ "." +:+ key +:+ " 应为字符串或缺省"))
  end.

(** * Facts *)

Definition trace_hit_from_json (v : SValue N) : Result TraceHit ParseError :=
  let? obj := obj_of v "rule_hits 条目" in
  let CTX := "TraceHit" in
  let? domain_attr :=
    match map_get obj "domain_attr" with
    | None => Ok None
    | Some attr =>
        let? a := obj_of attr "domain_attr" in
        let ACTX := "TraceDomainAttribution" in
        let? outcome := req_str a "outcome" ACTX in
        let? missing_reason := opt_attr_str a "missing_reason" ACTX in
        let? on_missing := opt_attr_str a "on_missing" ACTX in
        Ok (Some (mk_trace_attr outcome missing_reason on_missing))
    end in
  let? index := req_u64 obj "index" CTX in
  let? instr_type := req_str obj "instr_type" CTX in
  let? h := req obj "hit" CTX in
  let? hit := ok_or (s_as_bool h) (parse_error_new (CTX +:+ ".hit 应为布尔")) in
  Ok (mk_trace_hit index instr_type hit domain_attr).

Definition fact_from_json (v : SValue N) : Result Fact ParseError :=
  let? obj := obj_of v "fact" in
  let? ty := req_str obj "type" "fact" in
  let ctx := "Fact[" +:+ ty +:+ "]" in
  if String.eqb ty "Command" then
    let? id := req_u64 obj "id" ctx in
    let? instruction := req_json obj "instruction" ctx in
    Ok (Command id instruction)
  else if String.eqb ty "PayloadUpdate" then
    let? id := req_u64 obj "id" ctx in
    let? path := req_str obj "path" ctx in
    let? value := req_json obj "value" ctx in
    Ok (PayloadUpdate id path value)
  else if String.eqb ty "StateTransition" then
    let? id := req_u64 obj "id" ctx in
    let? cause := req_u64 obj "cause" ctx in
    let? new_payload := req_json obj "new_payload" ctx in
    let? raw := req_array obj "new_queue" ctx in
    let? new_queue := try_map serde_to_tcb raw in
    Ok (StateTransition id cause new_payload new_queue)
  else if String.eqb ty "IoRequest" then
    let? id := req_u64 obj "id" ctx in
    let? cause := req_u64 obj "cause" ctx in
    let? io_type := req_str obj "io_type" ctx in
    let? params := req_json obj "params" ctx in
    Ok (IoRequest id cause io_type params)
  else if String.eqb ty "IoResponse" then
    let? id := req_u64 obj "id" ctx in
    let? request_id := req_u64 obj "request_id" ctx in
    let? result := req_json obj "result" ctx in
    let? error := opt_str_or_null obj "error" ctx in
    Ok (IoResponse id request_id result error)
  else if String.eqb ty "Stable" then
    let? id := req_u64 obj "id" ctx in
    let? version := req_u64 obj "version" ctx in
    Ok (Stable id version)
  else if String.eqb ty "Error" then
    let? id := req_u64 obj "id" ctx in
    let? message := req_str obj "message" ctx in
    Ok (FError id message)
  else if String.eqb ty "TransitionTrace" then
    let? id := req_u64 obj "id" ctx in
    let? cause := req_u64 obj "cause" ctx in
    let? raw := req_array obj "rule_hits" ctx in
    let? rule_hits := try_map trace_hit_from_json raw in
    Ok (TransitionTrace id cause rule_hits)
  else if String.eqb ty "Violation" then
    let? id := req_u64 obj "id" ctx in
    let? cause := req_u64 obj "cause" ctx in
    let? rule_index := req_u64 obj "rule_index" ctx in
    let? why := req_str obj "reason" ctx in
    let? instruction := req_json obj "instruction" ctx in
    Ok (Violation id cause rule_index why instruction)
  else Err (parse_error_new ("未知 Fact 变体 " +:+ quote ty +:+ "（fail-closed）")).

(** * Documents and lines *)

Definition EXPORT_VERSION : string := "1.0".
Record ExportEntry : Type := mk_export_entry {
  ee_content_hash : string;
  ee_fact : Fact;
  ee_fact_id : Z;
  ee_fact_type : string;
  ee_fact_json_stable : string;
  ee_prev_hash : string;
}.
Record ExportDoc : Type := mk_export_doc {
  ed_version : string;
  ed_entry_count : Z;
  ed_last_hash : string;
  ed_entries : list ExportEntry;
}.
Record WalLine : Type := mk_wal_line {
  wl_content_hash : string;
  wl_chain_hash : string;
  wl_prev_hash : string;
  wl_fact : Fact;
}.

(** [record.rs] has its own [req_u64], with another message. *)
Definition record_u64 (obj : ObjectMap (SValue N)) (key ctx : string) : Result Z ParseError :=
  let? v := req obj key ctx in
  ok_or (s_as_u64 v) (parse_error_new (ctx +:+ "." +:+ key +:+ " 应为非负整数")).
Definition parse_export_entry (i : nat) (e : SValue N) : Result ExportEntry ParseError :=
  let ctx := "entries[" +:+ pretty (N.of_nat i) +:+ "]" in
  let? eo := obj_of e ctx in
  let? raw := req eo "fact" ctx in
  let? fact := map_err (fun err => parse_error_at err ctx) (fact_from_json raw) in
  let? content_hash := req_str eo "content_hash" ctx in
  let? fact_id := record_u64 eo "fact_id" ctx in
  let? fact_type := req_str eo "fact_type" ctx in
  let? fact_json_stable := req_str eo "fact_json_stable" ctx in
  let? prev_hash := req_str eo "prev_hash" ctx in
  Ok (mk_export_entry content_hash fact fact_id fact_type fact_json_stable prev_hash).
Fixpoint parse_export_entries (i : nat) (arr : list (SValue N)) :
    Result (list ExportEntry) ParseError :=
  match arr with
  | [] => Ok []
  | e :: rest =>
      let? entry := parse_export_entry i e in
      let? entries := parse_export_entries (S i) rest in
      Ok (entry :: entries)
  end.
Definition parse_export_doc (v : SValue N) : Result ExportDoc ParseError :=
  let? outer := obj_of v "导出文档" in
  let? obj := match map_get outer "export" with Some inner => obj_of inner "export" | None => Ok outer end in
  let CTX := "export" in
  let? version := req_str obj "version" CTX in
  if negb (String.eqb version EXPORT_VERSION) then
    Err (parse_error_new ("不支持的导出版本 " +:+ quote version +:+ "（支持 " +:+ EXPORT_VERSION
                          +:+ "，fail-closed）"))
  else
    let? entry_count := record_u64 obj "entry_count" CTX in
    let? last_hash := req_str obj "last_hash" CTX in
    let? raw := req obj "entries" CTX in
    let? arr := ok_or (s_as_array raw) (parse_error_new "export.entries 应为数组") in
    let? entries := parse_export_entries 0 arr in
    if negb (vec_len entries =? entry_count)%Z then
      Err (parse_error_new ("entry_count(" +:+ pretty entry_count +:+ ") 与 entries 长度("
                            +:+ pretty (vec_len entries) +:+ ") 不符"))
    else Ok (mk_export_doc version entry_count last_hash entries).
Definition parse_wal_line (v : SValue N) : Result WalLine ParseError :=
  let? obj := obj_of v "WAL 行" in
  let CTX := "wal" in
  let? raw := req obj "fact" CTX in
  let? fact := map_err (fun err => parse_error_at err CTX) (fact_from_json raw) in
  let? content_hash := req_str obj "content_hash" CTX in
  let? chain_hash := req_str obj "chain_hash" CTX in
  let? prev_hash := req_str obj "prev_hash" CTX in
  Ok (mk_wal_line content_hash chain_hash prev_hash fact).
Definition export_doc_display (d : ExportDoc) : string :=
  "导出文档 v" +:+ ed_version d +:+ ": " +:+ pretty (ed_entry_count d) +:+ " 条".
End EvidParse.

(** * The two readers of facts *)

Section Readers.
Context {N : Type} `{SerdeNumberLaws N, SerdeText N}.
Implicit Types (v : SValue N) (m : ObjectMap (SValue N)).

Lemma try_map_total {A B E} (f : A -> Result B E) l :
  Forall (fun x => exists y, f x = Ok y) l -> exists ys, try_map f l = Ok ys.
Proof.
  induction 1 as [|x l [y Hy] _ [ys IH]]; cbn [try_map]; [by eexists|]. rewrite Hy, IH. by eexists.
Qed.
Lemma try_map_map {A B E} (f : A -> Result B E) (g : A -> B) l ys :
  Forall (fun x => forall y, f x = Ok y -> g x = y) l -> try_map f l = Ok ys -> map g l = ys.
Proof.
  intros Hfg Hl%try_map_Forall2. induction Hl as [|x y l ys Hx _ IH]; [done|].
  inv Hfg as [|? ? Hg Hfg']. cbn. by rewrite (Hg y), IH.
Qed.
(** Where this conversion succeeds, it is that of the log. *)
Lemma serde_to_tcb_wal v x : serde_to_tcb v = Ok x -> Wal.serde_to_tcb v = x.
Proof.
  revert x. induction v as [| |n| |l IH|m IH] using svalue_ind; intros x; cbn [serde_to_tcb Wal.serde_to_tcb].
  1,2,4: by intros [= <-].
  - destruct (num_as_i64 n); [by intros [= <-]|]. destruct (num_as_u64 n); [by intros [= <-]|done].
  - destruct (try_map serde_to_tcb l) as [out|] eqn:Hl; [|done]. intros [= <-].
    f_equal. by eapply try_map_map.
  - destruct (try_map _ m) as [out|] eqn:Hm; [|done]. intros [= <-]. do 2 f_equal.
    eapply try_map_map; [|exact Hm]. eapply List.Forall_impl; [|exact IH].
    intros [k y] Hy. cbn in *. intros z. destruct (serde_to_tcb y) as [w|] eqn:Hw; [|done].
    intros [= <-]. by rewrite (Hy w).
Qed.
(** It succeeds on what has no floating-point number. *)
Lemma serde_to_tcb_total v : s_wf v = true -> exists x, serde_to_tcb v = Ok x.
Proof.
  induction v as [| |n| |l IH|m IH] using svalue_ind; intros Hwf; cbn [serde_to_tcb s_wf] in *; try by eexists.
  - unfold is_integer_number in Hwf. destruct (num_as_i64 n); [by eexists|].
    destruct (num_as_u64 n); [by eexists|done].
  - destruct (try_map_total serde_to_tcb l) as [out ->]; [|by eexists].
    rewrite forallb_forall in Hwf. rewrite List.Forall_forall in *. auto.
  - apply andb_true_iff in Hwf as [_ Hwf].
    edestruct (try_map_total (fun kv => let? x := serde_to_tcb (snd kv) in Ok (fst kv, x)) m) as [out ->];
      [|by eexists].
    rewrite forallb_forall in Hwf. rewrite List.Forall_forall in *. intros [k y] Hin.
    destruct (IH _ Hin (Hwf _ Hin)) as [x Hx]. cbn in *. rewrite Hx. by eexists.
Qed.
Lemma serde_to_tcb_stable (j : JsonValue) :
  wf_json j = true -> serde_to_tcb (tcb_to_serde j : SValue N) = Ok (norm_json j).
Proof.
  intros Hj. destruct (serde_to_tcb_total (tcb_to_serde j)) as [x Hx]; [by apply tcb_to_serde_wf|].
  rewrite Hx. f_equal. apply serde_to_tcb_wal in Hx as <-.
  rewrite <- (wal_tcb_to_serde_eq (N := N)). by apply serde_to_tcb_roundtrip.
Qed.

Lemma ok_or_map_err {A E F} (o : option A) (e : E) (f : F) a : ok_or o e = Ok a -> ok_or o f = Ok a.
Proof. destruct o; [by intros [= <-]|done]. Qed.
Lemma req_Ok m key ctx v : req m key ctx = Ok v -> map_get m key = Some v.
Proof. apply ok_or_Ok. Qed.
Lemma req_u64_wal m key ctx msg u : req_u64 m key ctx = Ok u -> field_u64 (SObject m) key msg = Ok u.
Proof.
  unfold req_u64, field_u64. destruct (req m key ctx) as [v|] eqn:Hr; [|done]. apply req_Ok in Hr.
  cbn [s_get]. rewrite Hr. apply ok_or_map_err.
Qed.
Lemma req_str_wal m key ctx msg s : req_str m key ctx = Ok s -> field_str (SObject m) key msg = Ok s.
Proof.
  unfold req_str, field_str. destruct (req m key ctx) as [v|] eqn:Hr; [|done]. apply req_Ok in Hr.
  cbn [s_get]. rewrite Hr. apply ok_or_map_err.
Qed.
Lemma req_array_wal m key ctx msg l : req_array m key ctx = Ok l -> field_array (SObject m) key msg = Ok l.
Proof.
  unfold req_array, field_array. destruct (req m key ctx) as [v|] eqn:Hr; [|done]. apply req_Ok in Hr.
  cbn [s_get]. rewrite Hr. apply ok_or_map_err.
Qed.
Lemma req_json_wal m key ctx msg x :
  req_json m key ctx = Ok x -> (let? v := field_any (SObject m) key msg in Ok (Wal.serde_to_tcb v)) = Ok x.
Proof.
  unfold req_json, field_any. destruct (req m key ctx) as [v|] eqn:Hr; [|done]. apply req_Ok in Hr.
  cbn [s_get]. rewrite Hr. cbn. by intros ->%serde_to_tcb_wal.
Qed.
Lemma opt_attr_str_wal m key ctx msg o :
  opt_attr_str m key ctx = Ok o -> optional_str (SObject m) key msg = Ok o.
Proof.
  unfold opt_attr_str, optional_str. cbn [s_get]. destruct (map_get m key) as [[]|]; by intros [= <-].
Qed.

(** One step of reading in both readers. *)
Ltac reader_step :=
  match goal with
  | |- context [match req_u64 ?m ?k ?c with Ok _ => _ | Err _ => _ end] =>
      let Hr := fresh "Hr" in
      destruct (req_u64 m k c) eqn:Hr; [|done];
      match goal with |- context [field_u64 (SObject m) k ?msg] =>
        rewrite (req_u64_wal _ _ _ msg _ Hr) end
  | |- context [match req_str ?m ?k ?c with Ok _ => _ | Err _ => _ end] =>
      let Hr := fresh "Hr" in
      destruct (req_str m k c) eqn:Hr; [|done];
      match goal with |- context [field_str (SObject m) k ?msg] =>
        rewrite (req_str_wal _ _ _ msg _ Hr) end
  | |- context [match req_array ?m ?k ?c with Ok _ => _ | Err _ => _ end] =>
      let Hr := fresh "Hr" in
      destruct (req_array m k c) eqn:Hr; [|done];
      match goal with |- context [field_array (SObject m) k ?msg] =>
        rewrite (req_array_wal _ _ _ msg _ Hr) end
  | |- context [match opt_attr_str ?m ?k ?c with Ok _ => _ | Err _ => _ end] =>
      let Hr := fresh "Hr" in
      destruct (opt_attr_str m k c) eqn:Hr; [|done];
      match goal with |- context [optional_str (SObject m) k ?msg] =>
        rewrite (opt_attr_str_wal _ _ _ msg _ Hr) end
  | |- context [match req_json ?m ?k ?c with Ok _ => _ | Err _ => _ end] =>
      let Hr := fresh "Hr" in
      destruct (req_json m k c) eqn:Hr; [|done];
      match goal with |- context [field_any (SObject m) k ?msg] =>
        let Hw := fresh "Hw" in
        pose proof (req_json_wal _ _ _ msg _ Hr) as Hw;
        destruct (field_any (SObject m) k msg); [|done]; apply Ok_inj in Hw as ->
      end
  end.

Lemma trace_hit_wal v h : trace_hit_from_json v = Ok h -> Wal.trace_hit_from_json v = Ok h.
Proof.
  unfold trace_hit_from_json, Wal.trace_hit_from_json. destruct v as [| | | | |m]; try done.
  cbn [obj_of s_as_object ok_or s_get].
  set (attr := match map_get m "domain_attr" with Some _ => _ | None => _ end).
  set (attr' := match map_get m "domain_attr" with Some _ => _ | None => _ end).
  assert (forall a, attr = Ok a -> attr' = Ok a) as Ha.
  { intros a. subst attr attr'. destruct (map_get m "domain_attr") as [x|]; [|by intros [= <-]].
    unfold trace_attr_from_json. destruct x as [| | | | |ma]; try done. cbn [obj_of s_as_object ok_or].
    repeat reader_step. by intros [= <-]. }
  destruct attr as [a|]; [|done]. repeat reader_step. rewrite (Ha a) by done.
  destruct (req m "hit" _) as [x|] eqn:Hx; [|done]. apply req_Ok in Hx. rewrite Hx.
  destruct (s_as_bool x); [|done]. by intros [= <-].
Qed.
Lemma trace_hits_wal l hs : try_map trace_hit_from_json l = Ok hs -> trace_hits_from_json l = Ok hs.
Proof.
  intros Hl%try_map_Forall2. induction Hl as [|v h l hs Hv _ IH]; [done|]. cbn.
  by rewrite (trace_hit_wal v h), IH.
Qed.

Lemma fact_from_json_wal v f : fact_from_json v = Ok f -> Wal.fact_from_json v = Ok f.
Proof.
  unfold fact_from_json, Wal.fact_from_json. destruct v as [| | | | |m]; try done.
  cbn [obj_of s_as_object ok_or].
  reader_step. cbn [ok_or]. 
  repeat (destruct (String.eqb _ _); [repeat reader_step; try by intros [= <-]|]).
  - destruct (try_map serde_to_tcb _) as [q|] eqn:Hq; [|done]. intros [= <-]. do 2 f_equal.
    eapply try_map_map; [|exact Hq]. apply List.Forall_forall. intros x _. apply serde_to_tcb_wal.
  - unfold opt_str_or_null. destruct (req m "error" _) as [x|] eqn:Hx; [|done]. apply req_Ok in Hx.
    cbn [s_get]. rewrite Hx. by destruct x; intros [= <-].
  - destruct (req_u64 m "version" _) as [u|] eqn:Hu; [|done]. apply (req_u64_wal _ _ _ "") in Hu.
    unfold field_u64 in Hu. apply ok_or_Ok in Hu. rewrite Hu. by intros [= <-].
  - destruct (try_map trace_hit_from_json _) as [hs|] eqn:Hhs; [|done].
    rewrite (trace_hits_wal _ hs) by done. by intros [= <-].
  - done.
Qed.

(** Reading the fields of a freshly built object. *)
Lemma req_from (pairs : list (string * SValue N)) key ctx v :
  assoc_last pairs key = Some v -> req (map_from pairs) key ctx = Ok v.
Proof. intros Hk. unfold req. by rewrite map_get_from, Hk. Qed.
Lemma req_u64_from pairs key ctx u :
  assoc_last pairs key = Some (wal_u64 (N := N) u) -> is_u64 u = true ->
  req_u64 (map_from pairs) key ctx = Ok u.
Proof.
  intros Hk Hu. unfold req_u64. rewrite (req_from _ _ _ _ Hk). cbn. by rewrite as_u64_from_u64.
Qed.
Lemma req_json_from pairs key ctx j :
  assoc_last pairs key = Some (wal_tcb_to_serde (N := N) j) -> wf_json j = true ->
  req_json (map_from pairs) key ctx = Ok (norm_json j).
Proof.
  intros Hk Hj. unfold req_json. rewrite (req_from _ _ _ _ Hk), wal_tcb_to_serde_eq.
  by apply serde_to_tcb_stable.
Qed.
Lemma req_str_from pairs key ctx s :
  assoc_last pairs key = Some (SString (N := N) s) -> req_str (map_from pairs) key ctx = Ok s.
Proof. intros Hk. unfold req_str. by rewrite (req_from _ _ _ _ Hk). Qed.
Lemma req_array_from pairs key ctx l :
  assoc_last pairs key = Some (SArray (N := N) l) -> req_array (map_from pairs) key ctx = Ok l.
Proof. intros Hk. unfold req_array. by rewrite (req_from _ _ _ _ Hk). Qed.
Lemma trace_hit_stable h :
  wf_trace_hit h = true -> trace_hit_from_json (wal_trace_hit_to_json (N := N) h) = Ok h.
Proof.
  destruct h as [ix ty hit attr]. unfold wf_trace_hit. cbn [th_index]. intros Hix.
  unfold trace_hit_from_json, wal_trace_hit_to_json. cbn [obj_of s_as_object s_object ok_or].
  rewrite map_get_from. erewrite req_u64_from by (by destruct attr || done).
  erewrite req_str_from by (by destruct attr || done).
  erewrite req_from by (by destruct attr || done).
  destruct attr as [[o r p]|]; [|by destruct hit].
  cbn [assoc_last app String.eqb Ascii.eqb Bool.eqb th_domain_attr obj_of s_as_object ok_or wal_trace_attr_to_json s_object].
  erewrite req_str_from by by destruct r, p.
  unfold opt_attr_str. rewrite !map_get_from. by destruct r, p.
Qed.
Lemma trace_hits_stable hs :
  forallb wf_trace_hit hs = true ->
  try_map trace_hit_from_json (map (wal_trace_hit_to_json (N := N)) hs) = Ok hs.
Proof.
  induction hs as [|h hs IH]; [done|]. cbn [forallb map try_map]. intros [Hh Hs]%andb_true_iff.
  by rewrite trace_hit_stable, IH.
Qed.
Lemma values_stable l :
  forallb wf_json l = true -> try_map serde_to_tcb (map (wal_tcb_to_serde (N := N)) l) = Ok (map norm_json l).
Proof.
  induction l as [|x l IH]; [done|]. cbn [forallb map try_map]. intros [Hx Hl]%andb_true_iff.
  by rewrite wal_tcb_to_serde_eq, serde_to_tcb_stable, IH.
Qed.
Lemma fact_from_json_stable f :
  wf_fact f = true -> fact_from_json (fact_to_json (N := N) f) = Ok (norm_fact f).
Proof.
  unfold wf_fact. intros [Hid Hwf]%andb_true_iff.
  destruct f; cbn in Hid, Hwf; reflect_bool; unfold fact_from_json, fact_to_json;
    cbn [obj_of s_as_object s_object ok_or]; erewrite req_str_from by reflexivity;
    cbn [String.eqb Ascii.eqb Bool.eqb];
    repeat (erewrite req_u64_from by (done || by apply is_u64_spec));
    repeat (erewrite req_str_from by reflexivity);
    repeat (erewrite req_json_from by done);
    repeat (erewrite req_array_from by reflexivity).
  all: try done.
  all: rewrite ?values_stable, ?trace_hits_stable by done.
  all: try done.
  unfold opt_str_or_null. erewrite req_from by reflexivity. by destruct error.
Qed.
End Readers.
