(* ===== verification/EvidVerify.v ===== *)
(** The independent verifier's verdicts, [evid-verify-core/src/verify.rs] and
    [seal.rs]: the export of a history, the lines of a write-ahead log and the
    chain of anchor seals, recomputed from the formulas. *)

From S2P Require Import Prelude ObjectMap Value Error Path Domain Executor ExecSemantics Transition Fact Serde Hash Wal Signing EvidParse.

(** [PartialEq] of [serde_json::Number]. *)
Class SerdeNumberEq (N : Type) : Type := { num_eqb : N -> N -> bool }.
(** Documented: integers are equal when they are the same number; [as_u64]
    gives the integer the number is. *)
Class SerdeNumberEqLaws (N : Type) `{SerdeNumber N, SerdeNumberEq N} : Prop := {
  num_eqb_integer a b : is_integer_number a = true -> num_eqb a b = true <-> a = b;
  as_u64_range n u : num_as_u64 n = Some u -> is_u64 u = true;
  from_u64_as_u64 n u : num_as_u64 n = Some u -> num_from_u64 u = n;
}.

Definition is_ascii_char (c : ascii) : bool := match c with Ascii _ _ _ _ _ _ _ b => negb b end.
(** Documented: hexadecimal digits. *)
Class Blake3Hex `{Blake3} : Prop := {
  blake3_hex_ascii s : str_all is_ascii_char (blake3_hex s) = true;
}.

(** * Slices of strings *)

(** [&h[..n]], which panics past the end and inside a character. *)
Definition is_continuation_byte (c : ascii) : bool :=
  (128 <=? nat_of_ascii c)%nat && (nat_of_ascii c <? 192)%nat.
Definition slice_to (n : nat) (h : string) : option string :=
  match String.get n h with
  | Some c => if is_continuation_byte c then None else Some (String.substring 0 n h)
  | None => if Nat.eqb (String.length h) n then Some h else None
  end.
(** [short]. *)
Definition short (h : string) : option string :=
  if (String.length h <=? 16)%nat then Some h
  else let! p := slice_to 16 h in Some (p +:+ "…").

(** * Reports *)

Inductive ExportStep : Type := Link | Content | StableStep | Tail.
Record EntryReject : Type := mk_entry_reject { er_step : ExportStep; er_reason : string }.
Record EntryVerdict : Type := mk_entry_verdict {
  ev_index : nat;
  ev_ok : bool;
  ev_reject : option EntryReject;
}.
Record ExportReport : Type := mk_export_report {
  xr_verdicts : list EntryVerdict;
  xr_stopped_at : option nat;
  xr_tail_hash : string;
  xr_last_hash_matches : bool;
}.
Definition export_all_ok (r : ExportReport) : bool :=
  negb (is_some (xr_stopped_at r)) && xr_last_hash_matches r.

Record WalReject : Type := mk_wal_reject { wr_step : Z; wr_reason : string }.
Record WalLineVerdict : Type := mk_wal_verdict {
  wv_index : nat;
  wv_ok : bool;
  wv_reject : option WalReject;
}.
Record WalReport : Type := mk_wal_report {
  wp_verdicts : list WalLineVerdict;
  wp_stopped_at : option nat;
  wp_tail_hash : string;
}.
Definition wal_all_ok (r : WalReport) : bool := negb (is_some (wp_stopped_at r)).

Section EvidVerify.
Context {N : Type} `{SerdeNumber N, SerdeText N, Blake3, SerdeNumberEq N}.

(** [PartialEq] of [serde_json::Value]. *)
Fixpoint s_eqb (a b : SValue N) : bool :=
  match a, b with
  | SNull, SNull => true
  | SBool x, SBool y => Bool.eqb x y
  | SNumber x, SNumber y => num_eqb x y
  | SString x, SString y => String.eqb x y
  | SArray l, SArray k => forall2b s_eqb l k
  | SObject m, SObject n =>
      forall2b (fun x y => String.eqb (fst x) (fst y) && s_eqb (snd x) (snd y)) m n
  | _, _ => false
  end.

(** * The export *)

Definition GENESIS : string := "genesis".
Definition stable_ok (e : ExportEntry) : bool :=
  match fact_to_stable_json (ee_fact e) with
  | Err _ => false
  | Ok stable =>
      match serde_from_str (ee_fact_json_stable e) with
      | Err _ => false
      | Ok original => s_eqb stable original
      end
  end.
(** The checks of one entry; [None] is a panic in [short]. *)
Definition check_entry (prev : string) (e : ExportEntry) : option (Result unit EntryReject) :=
  if negb (String.eqb (ee_prev_hash e) prev) then
    let! a := short (ee_prev_hash e) in
    let! b := short prev in
    Some (Err (mk_entry_reject Link ("prev_hash=" +:+ a +:+ " 与折叠链头=" +:+ b +:+ " 不符（链接断裂）")))
  else
    match fact_hash (ee_fact e) with
    | Err err =>
        Some (Err (mk_entry_reject Content ("fact_hash 重算失败: " +:+ hash_error_display err)))
    | Ok recomputed =>
        if negb (String.eqb recomputed (ee_content_hash e)) then
          let! a := short (ee_content_hash e) in
          let! b := short recomputed in
          Some (Err (mk_entry_reject Content ("content_hash 失配: 声明=" +:+ a +:+ " 重算=" +:+ b)))
        else if negb (stable_ok e) then
          Some (Err (mk_entry_reject StableStep
            "fact_json_stable 原文与 fact 字段重算结果不一致（或原文非法 JSON）"))
        else if negb (fact_id (ee_fact e) =? ee_fact_id e)%Z
                || negb (String.eqb (type_name (ee_fact e)) (ee_fact_type e)) then
          Some (Err (mk_entry_reject StableStep
            ("条目投影不符: fact_id(" +:+ pretty (ee_fact_id e) +:+ ")/fact_type(" +:+ ee_fact_type e
             +:+ ") 与 fact 字段不一致")))
        else Some (Ok tt)
    end.
Definition finish (verdicts : list EntryVerdict) (stopped_at : option nat) (tail : string)
    (doc : ExportDoc) : ExportReport :=
  mk_export_report verdicts stopped_at tail (String.eqb tail (ed_last_hash doc)).
Fixpoint verify_entries (doc : ExportDoc) (index : nat) (prev : string) (verdicts : list EntryVerdict)
    (entries : list ExportEntry) : option ExportReport :=
  match entries with
  | [] => Some (finish verdicts None prev doc)
  | e :: rest =>
      match check_entry prev e with
      | None => None
      | Some (Err r) =>
          Some (finish (verdicts ++ [mk_entry_verdict index false (Some r)]) (Some index) prev doc)
      | Some (Ok _) =>
          verify_entries doc (S index) (chain_step prev (ee_content_hash e))
            (verdicts ++ [mk_entry_verdict index true None]) rest
      end
  end.
Definition verify_export (doc : ExportDoc) : option ExportReport :=
  verify_entries doc 0 GENESIS [] (ed_entries doc).

(** * The write-ahead log *)

Definition check_line (prev : string) (line : WalLine) : option (Result unit WalReject) :=
  if negb (String.eqb (wl_prev_hash line) prev) then
    let! a := short (wl_prev_hash line) in
    let! b := short prev in
    Some (Err (mk_wal_reject 1 ("prev_hash=" +:+ a +:+ " 与链尾=" +:+ b +:+ " 不符（链接断裂）")))
  else
    match fact_hash (wl_fact line) with
    | Err err => Some (Err (mk_wal_reject 2 ("fact_hash 重算失败: " +:+ hash_error_display err)))
    | Ok h =>
        if negb (String.eqb h (wl_content_hash line)) then
          let! a := short (wl_content_hash line) in
          let! b := short h in
          Some (Err (mk_wal_reject 2 ("content_hash 失配: 声明=" +:+ a +:+ " 重算=" +:+ b)))
        else
          let folded := chain_step (wl_prev_hash line) (wl_content_hash line) in
          if negb (String.eqb folded (wl_chain_hash line)) then
            let! a := short (wl_chain_hash line) in
            let! b := short folded in
            Some (Err (mk_wal_reject 3 ("chain_hash 失配: 声明=" +:+ a +:+ " 重算=" +:+ b)))
          else Some (Ok tt)
    end.
Fixpoint verify_lines (index : nat) (prev : string) (verdicts : list WalLineVerdict)
    (lines : list WalLine) : option WalReport :=
  match lines with
  | [] => Some (mk_wal_report verdicts None prev)
  | line :: rest =>
      match check_line prev line with
      | None => None
      | Some (Err r) =>
          Some (mk_wal_report (verdicts ++ [mk_wal_verdict index false (Some r)]) (Some index) prev)
      | Some (Ok _) =>
          verify_lines (S index) (wl_chain_hash line)
            (verdicts ++ [mk_wal_verdict index true None]) rest
      end
  end.
Definition verify_wal_lines (lines : list WalLine) : option WalReport := verify_lines 0 GENESIS [] lines.
End EvidVerify.

(** * Anchor seals *)

Module Seal.
Definition ANCHOR_FORMAT : string := "evorule-anchor/2".
Definition ANCHOR_GENESIS : string := "anchor-genesis".
Record FactRange : Type := mk_seal_range { r_lo : Z; r_hi : Z }.
Record AnchorSeal : Type := mk_seal {
  s_seq : Z;
  s_session_id : string;
  s_fact_range : FactRange;
  s_chain_head : string;
  s_key_id : string;
  s_engine_id : string;
  s_logical_time : Z;
  s_anchor_hash : string;
  s_signature : string;
}.
Definition field (s : string) : string := "|" +:+ s.
Definition seal_fields (first : string) (seal : AnchorSeal) : string :=
  first +:+ (field (s_session_id seal) +:+ (field (pretty (s_seq seal))
  +:+ (field (pretty (r_lo (s_fact_range seal))) +:+ (field (pretty (r_hi (s_fact_range seal)))
  +:+ (field (s_chain_head seal) +:+ (field (s_key_id seal) +:+ (field (s_engine_id seal)
  +:+ field (pretty (s_logical_time seal))))))))).
Definition signature_payload_v2 (seal : AnchorSeal) : string := seal_fields ANCHOR_FORMAT seal.

(** [enum SealError]. *)
Inductive SealError : Type :=
| PayloadHashMismatch (seq : Z)
| SealSignatureInvalid (seq : Z)
| SealChainBroken (seq : Z) (why : string)
| KeyMissing (key_id : string)
| HexInvalid (seq : Z) (why : string).
Definition seal_error_display (e : SealError) : string :=
  match e with
  | PayloadHashMismatch seq =>
      "锚点[" +:+ pretty seq +:+ "] 载荷哈希不匹配（字段被篡改或 prev 链接错误）"
  | SealSignatureInvalid seq => "锚点[" +:+ pretty seq +:+ "] 签名验证失败"
  | SealChainBroken seq why => "锚点链断裂于[" +:+ pretty seq +:+ "]: " +:+ why
  | KeyMissing key_id => "密钥标识 " +:+ quote key_id +:+ " 无对应公钥"
  | HexInvalid seq why => "锚点[" +:+ pretty seq +:+ "] hex 非法: " +:+ why
  end.

(** [hex_decode] and [hex_encode]; [HEX] is indexed below its length. *)
Fixpoint decode_pairs (hex : string) : option string :=
  match hex with
  | String a (String b hex) =>
      let! hi := to_digit_16 a in
      let! lo := to_digit_16 b in
      let! out := decode_pairs hex in
      Some (String (ascii_of_nat (hi * 16 + lo)) out)
  | _ => Some ""
  end.
Definition hex_decode (hex : string) : option string :=
  if negb (Nat.eqb (String.length hex mod 2) 0) then None else decode_pairs hex.
Definition HEX : string := "0123456789abcdef".
Definition hex_char (n : nat) : ascii := default "0"%char (String.get n HEX).
Fixpoint hex_encode (bytes : string) : string :=
  match bytes with
  | EmptyString => ""
  | String b bytes =>
      String (hex_char (nat_of_ascii b / 16))
        (String (hex_char (nat_of_ascii b mod 16)) (hex_encode bytes))
  end.

Section Verify.
Context `{Blake3, Ed25519}.

Definition compute_anchor_hash (prev_anchor_hash : string) (seal : AnchorSeal) : string :=
  blake3_hex (seal_fields prev_anchor_hash seal).
Definition verify_seal (seal : AnchorSeal) (prev_anchor_hash verifying_key_hex : string) :
    Result unit SealError :=
  let expect := compute_anchor_hash prev_anchor_hash seal in
  if negb (String.eqb expect (s_anchor_hash seal)) then Err (PayloadHashMismatch (s_seq seal))
  else
    let? vk_bytes := ok_or (hex_decode verifying_key_hex) (HexInvalid (s_seq seal) "公钥 hex 非法") in
    if negb (Nat.eqb (String.length vk_bytes) 32) then
      Err (HexInvalid (s_seq seal) ("公钥长度 != 32: " +:+ pretty (N.of_nat (String.length vk_bytes))))
    else
      let? sig_bytes := ok_or (hex_decode (s_signature seal)) (HexInvalid (s_seq seal) "签名 hex 非法") in
      if negb (Nat.eqb (String.length sig_bytes) 64) then
        Err (HexInvalid (s_seq seal) ("签名长度 != 64: " +:+ pretty (N.of_nat (String.length sig_bytes))))
      else
        match verifying_key_check vk_bytes with
        | Err e => Err (HexInvalid (s_seq seal) ("公钥非法: " +:+ e))
        | Ok _ =>
            if ed_verify vk_bytes (signature_payload_v2 seal) sig_bytes then Ok tt
            else Err (SealSignatureInvalid (s_seq seal))
        end.
(** The loop of [verify_seal_chain]; its [expected_lo] is always [Some]. *)
Fixpoint verify_seals (keys : gmap string string) (expected_seq : Z) (prev_hash : string)
    (expected_lo : Z) (seals : list AnchorSeal) : Result unit SealError :=
  match seals with
  | [] => Ok tt
  | seal :: rest =>
      if negb (s_seq seal =? expected_seq)%Z then
        Err (SealChainBroken (s_seq seal) ("seq 应为 " +:+ pretty expected_seq +:+ "（0 起严格 +1）"))
      else if negb (r_lo (s_fact_range seal) =? expected_lo)%Z then
        Err (SealChainBroken (s_seq seal)
               ("区间无缝断裂: lo=" +:+ pretty (r_lo (s_fact_range seal)) +:+ " 期望 " +:+ pretty expected_lo))
      else if (r_hi (s_fact_range seal) <? r_lo (s_fact_range seal))%Z then
        Err (SealChainBroken (s_seq seal) "区间倒挂（lo > hi）")
      else
        let? key_hex := ok_or (keys !! s_key_id seal) (KeyMissing (s_key_id seal)) in
        let? _u := verify_seal seal prev_hash key_hex in
        verify_seals keys (expected_seq + 1) (s_anchor_hash seal) (r_hi (s_fact_range seal)) rest
  end.
Definition verify_seal_chain (seals : list AnchorSeal) (keys : gmap string string) :
    Result unit SealError := verify_seals keys 0 ANCHOR_GENESIS 0 seals.
End Verify.
End Seal.
