(* ===== verification/EvidSpec.v ===== *)
(** Theorems about the independent verifier: what its reader accepts, what an
    accepted export or log is, and its agreement with the auditor and with the
    anchors of the server. *)

From S2P Require Import Prelude ObjectMap Value Error Path Domain Executor ExecSemantics Transition Fact Serde Hash Wal WalFile FactsLog FactsLogSpec Recovery Signing Anchor Auditor AuditorSpec AuditorStore EvidParse EvidVerify.

(** * What is read is well formed and in normal form *)

Section Parsed.
Context {N : Type} `{SerdeNumberLaws N, SerdeNumberEq N, !SerdeNumberEqLaws N}.
Implicit Types (v : SValue N) (m : ObjectMap (SValue N)).

Lemma read_value v x : EvidParse.serde_to_tcb v = Ok x -> wf_json x = true /\ norm_json x = x.
Proof.
  revert x. induction v as [|b|n|s|l IH|m IH] using svalue_ind; intros x; cbn [EvidParse.serde_to_tcb].
  1,2,4: by intros [= <-].
  - destruct (num_as_i64 n) as [i|] eqn:Hi; [intros [= <-]; cbn; by rewrite (as_i64_range n)|].
    destruct (num_as_u64 n) as [u|] eqn:Hu; [|done]. intros [= <-]. cbn.
    apply as_u64_range in Hu as Hr. split; [done|].
    apply from_u64_as_u64 in Hu as <-. rewrite as_i64_from_u64 in Hi by done. by destruct (is_i64 u).
  - destruct (try_map _ l) as [out|] eqn:Hl; [|done]. intros [= <-]. apply try_map_Forall2 in Hl.
    assert (Forall (fun x => wf_json x = true /\ norm_json x = x) out) as Ho.
    { induction Hl as [|y z l out Hy _ IHl]; inv IH; constructor; auto. }
    cbn. rewrite forallb_forall. rewrite List.Forall_forall in Ho. split; [intros y Hy; by apply Ho|].
    f_equal. rewrite (map_ext_in _ id); [apply map_id|]. intros y Hy. by apply Ho.
  - destruct (try_map _ m) as [out|] eqn:Hm; [|done]. intros [= <-]. apply try_map_Forall2 in Hm.
    assert (Forall (fun kx => wf_json (snd kx) = true /\ norm_json (snd kx) = snd kx) out) as Ho.
    { induction Hm as [|[k y] z m out Hy _ IHm]; inv IH as [|? ? Hv Hrest]; constructor; auto.
      cbn in Hy, Hv. destruct (EvidParse.serde_to_tcb y) as [w|]; [|done]. injection Hy as <-. by apply Hv. }
    rewrite List.Forall_forall in Ho. cbn. rewrite andb_true_iff, forallb_forall. split.
    + split; [apply keys_sortedb_spec, map_from_sorted|]. intros y Hy%map_from_In. by apply Ho.
    + f_equal. rewrite (map_ext_in _ id); [apply map_id|]. intros [k y] Hy%map_from_In.
      unfold id. f_equal. by apply Ho in Hy as [_ Hn].
Qed.
Lemma read_values l xs :
  try_map EvidParse.serde_to_tcb l = Ok xs -> forallb wf_json xs = true /\ map norm_json xs = xs.
Proof.
  intros Hl%try_map_Forall2. induction Hl as [|y z l out Hy _ IH]; [done|]. cbn.
  apply read_value in Hy as [Hw Hn]. destruct IH as [-> ->]. by rewrite Hw, Hn.
Qed.
Lemma read_u64 m key ctx u : req_u64 m key ctx = Ok u -> is_u64 u = true.
Proof.
  unfold req_u64. destruct (req m key ctx) as [v|]; [|done]. intros Hu%ok_or_Ok.
  destruct v as [| |n| | |]; try done. by eapply as_u64_range.
Qed.
Lemma read_json m key ctx x : req_json m key ctx = Ok x -> wf_json x = true /\ norm_json x = x.
Proof. unfold req_json. destruct (req m key ctx); [apply read_value|done]. Qed.
Lemma read_hits l hs : try_map EvidParse.trace_hit_from_json l = Ok hs -> forallb wf_trace_hit hs = true.
Proof.
  intros Hl%try_map_Forall2. induction Hl as [|y h l out Hy _ IH]; [done|]. cbn. rewrite IH, andb_true_r.
  unfold EvidParse.trace_hit_from_json in Hy. destruct (obj_of y _) as [m|]; [|done].
  case_match; [|done]. destruct (req_u64 m "index" _) as [u|] eqn:Hu; [|done].
  repeat (case_match; [|done]). injection Hy as <-. by apply read_u64 in Hu.
Qed.
Lemma read_fact v f : EvidParse.fact_from_json v = Ok f -> wf_fact f = true /\ norm_fact f = f.
Proof.
  unfold EvidParse.fact_from_json. destruct (obj_of v _) as [m|]; [|done].
  destruct (req_str m "type" _) as [ty|]; [|done].
  repeat match goal with |- context [if String.eqb ty ?s then _ else _] => destruct (String.eqb ty s) end;
    repeat match goal with
    | |- context [req_u64 ?m ?k ?c] =>
        let Hr := fresh "Hr" in destruct (req_u64 m k c) eqn:Hr; [apply read_u64 in Hr|done]
    | |- context [req_json ?m ?k ?c] =>
        let Hr := fresh "Hr" in destruct (req_json m k c) eqn:Hr; [apply read_json in Hr as [? ?]|done]
    | |- context [try_map EvidParse.serde_to_tcb ?l] =>
        let Hr := fresh "Hr" in
        destruct (try_map EvidParse.serde_to_tcb l) eqn:Hr; [apply read_values in Hr as [? ?]|done]
    | |- context [try_map EvidParse.trace_hit_from_json ?l] =>
        let Hr := fresh "Hr" in
        destruct (try_map EvidParse.trace_hit_from_json l) eqn:Hr; [apply read_hits in Hr|done]
    | |- context [match ?r with Ok _ => _ | Err _ => _ end] => destruct r; [|done]
    end;
    intros [= <-]; unfold wf_fact; cbn [fact_id norm_fact]; split_and?; rewrite ?andb_true_iff; try done;
    congruence.
Qed.
End Parsed.

(** * Equality of JSON values *)

Section Equal.
Context {N : Type} `{SerdeNumberLaws N, SerdeNumberEq N, !SerdeNumberEqLaws N}.

Lemma forall2b_eq_all {A} (f : A -> A -> bool) l k :
  Forall (fun x => forall y, f x y = true <-> x = y) l -> forall2b f l k = true <-> l = k.
Proof.
  intros Hf. apply (forall2b_eq f (fun _ => True)); [|by apply Forall_true..].
  eapply Forall_impl; [exact Hf|]. cbn. auto.
Qed.
Lemma s_eqb_eq (a b : SValue N) : s_wf a = true -> s_eqb a b = true <-> a = b.
Proof.
  revert b. induction a as [|x|n|s|l IH|m IH] using svalue_ind; intros [|y|n'|s'|k|m'] Hwf;
    cbn [s_eqb s_wf] in *; try (by split).
  - rewrite eqb_true_iff. naive_solver.
  - rewrite num_eqb_integer by done. naive_solver.
  - rewrite String.eqb_eq. naive_solver.
  - rewrite forall2b_eq_all; [naive_solver|]. rewrite forallb_forall in Hwf.
    rewrite List.Forall_forall in *. intros x Hx y. by apply IH; auto.
  - rewrite forall2b_eq_all; [naive_solver|]. apply andb_true_iff in Hwf as [_ Hwf].
    rewrite forallb_forall in Hwf. rewrite List.Forall_forall in *. intros [q x] Hx [q' y].
    rewrite andb_true_iff, String.eqb_eq. cbn [fst snd]. rewrite (IH _ Hx y (Hwf _ Hx)). naive_solver.
Qed.
End Equal.

(** * Verdicts *)

(** A chain of items, each good after the hash before it, and the verdict of a
    checker that stops at the first item that is not. *)
Section Chains.
Context {A : Type} (good : string -> A -> Prop) (next : string -> A -> string).
Fixpoint good_chain (prev : string) (items : list A) (tail : string) : Prop :=
  match items with
  | [] => tail = prev
  | x :: rest => good prev x /\ good_chain (next prev x) rest tail
  end.
Definition verdict (prev : string) (items : list A) (stopped : option nat) (tail : string) : Prop :=
  match stopped with
  | None => good_chain prev items tail
  | Some k => exists x, items !! k = Some x /\ good_chain prev (take k items) tail /\ ~ good tail x
  end.
Lemma verdict_cons prev x items k tail :
  good prev x -> verdict (next prev x) items k tail -> verdict prev (x :: items) (S <$> k) tail.
Proof.
  intros Hx. destruct k as [k|]; [|by split]. intros (y & Hy & Hc & Hb). exists y. by split_and!.
Qed.
Lemma verdict_stop prev x items : ~ good prev x -> verdict prev (x :: items) (Some O) prev.
Proof. intros Hx. by exists x. Qed.
End Chains.

Section Verdicts.
Context {N : Type} `{SerdeNumberLaws N, SerdeText N, Blake3, SerdeNumberEq N, !SerdeNumberEqLaws N}.

Lemma get_all_chars f s n c : str_all f s = true -> String.get n s = Some c -> f c = true.
Proof.
  revert n. induction s as [|x s IH]; intros [|n]; cbn [str_all String.get]; try done;
    intros [Hx Hs]%andb_true_iff; [by intros [= <-]|by apply IH].
Qed.
Lemma get_past s n : String.get n s = None -> (String.length s <= n)%nat.
Proof.
  revert n. induction s as [|x s IH]; intros [|n]; cbn [String.length String.get]; try done; [lia..|].
  intros Hg%IH. lia.
Qed.
(** [short] does not panic on ASCII text. *)
Lemma short_ascii h : str_all is_ascii_char h = true -> exists s, short h = Some s.
Proof.
  intros Ha. unfold short, slice_to. destruct (Nat.leb_spec (String.length h) 16) as [|Hlen]; [by eexists|].
  destruct (String.get 16 h) as [c|] eqn:Hc; [|apply get_past in Hc; lia].
  pose proof (get_all_chars _ _ _ _ Ha Hc) as Hf.
  by destruct c as [[] [] [] [] [] [] [] []]; try done; eexists.
Qed.

(** What an entry, and a line, must be after a chain hash. *)
Definition entry_good (prev : string) (e : ExportEntry) : Prop :=
  ee_prev_hash e = prev /\ fact_hash (N := N) (ee_fact e) = Ok (ee_content_hash e) /\
  serde_from_str (ee_fact_json_stable e) = Ok (fact_to_json (N := N) (ee_fact e)) /\
  fact_id (ee_fact e) = ee_fact_id e /\ type_name (ee_fact e) = ee_fact_type e.
Definition entry_next (prev : string) (e : ExportEntry) : string := chain_step prev (ee_content_hash e).
Definition line_good (prev : string) (l : WalLine) : Prop :=
  wl_prev_hash l = prev /\ fact_hash (N := N) (wl_fact l) = Ok (wl_content_hash l) /\
  wl_chain_hash l = chain_step prev (wl_content_hash l).
Definition line_next (prev : string) (l : WalLine) : string := wl_chain_hash l.

Lemma stable_ok_spec e :
  wf_fact (ee_fact e) = true ->
  stable_ok (N := N) e = true <-> serde_from_str (ee_fact_json_stable e) = Ok (fact_to_json (N := N) (ee_fact e)).
Proof.
  intros Hwf. unfold stable_ok. rewrite <- (fact_to_json_stable (N := N)).
  destruct (serde_from_str (ee_fact_json_stable e)) as [o|err]; [|done].
  rewrite s_eqb_eq by by apply fact_to_json_wf. naive_solver.
Qed.
Lemma check_entry_ok prev e :
  wf_fact (ee_fact e) = true -> check_entry (N := N) prev e = Some (Ok tt) <-> entry_good prev e.
Proof.
  intros Hwf. unfold check_entry, entry_good. rewrite <- stable_ok_spec by done.
  destruct (String.eqb_spec (ee_prev_hash e) prev) as [->|Hne]; cbn [negb].
  2:{ split; [|by intros (? & _)]. repeat case_match; done. }
  destruct (fact_hash (ee_fact e)) as [h|err]; [|split; [done|by intros (_ & ? & _)]].
  destruct (String.eqb_spec h (ee_content_hash e)) as [->|Hne]; cbn [negb].
  2:{ split; [|intros (_ & [= ?] & _); done]. repeat case_match; done. }
  destruct (stable_ok e); cbn [negb]; [|split; [done|by intros (_ & _ & ? & _)]].
  destruct (Z.eqb_spec (fact_id (ee_fact e)) (ee_fact_id e)); cbn [negb orb];
    [|split; [done|by intros (_ & _ & _ & ? & _)]].
  destruct (String.eqb_spec (type_name (ee_fact e)) (ee_fact_type e)); cbn [negb]; [|split; [done|]].
  - done.
  - by intros (_ & _ & _ & _ & ?).
Qed.
Lemma check_line_ok prev l : check_line (N := N) prev l = Some (Ok tt) <-> line_good prev l.
Proof.
  unfold check_line, line_good. destruct (String.eqb_spec (wl_prev_hash l) prev) as [->|Hne]; cbn [negb].
  2:{ split; [|by intros (? & _)]. repeat case_match; done. }
  destruct (fact_hash (wl_fact l)) as [h|err]; [|split; [done|by intros (_ & ? & _)]].
  destruct (String.eqb_spec h (wl_content_hash l)) as [->|Hne]; cbn [negb].
  2:{ split; [|intros (_ & [= ?] & _); done]. repeat case_match; done. }
  destruct (String.eqb_spec (chain_step prev (wl_content_hash l)) (wl_chain_hash l)) as [->|Hne]; cbn [negb].
  - done.
  - split; [repeat case_match; done|]. intros (_ & _ & Heq). by rewrite Heq in Hne.
Qed.

Lemma verify_entries_spec doc index prev vs entries r :
  forallb (fun e => wf_fact (ee_fact e)) entries = true ->
  verify_entries (N := N) doc index prev vs entries = Some r ->
  xr_last_hash_matches r = String.eqb (xr_tail_hash r) (ed_last_hash doc) /\
  exists k, xr_stopped_at r = Nat.add index <$> k /\
    verdict entry_good entry_next prev entries k (xr_tail_hash r).
Proof.
  revert index prev vs. induction entries as [|e entries IH]; intros index prev vs; cbn [verify_entries forallb].
  { intros _ [= <-]. split; [done|]. by exists None. }
  intros [He Hes]%andb_true_iff. pose proof (check_entry_ok prev e He) as Hc.
  destruct (check_entry prev e) as [[[]|rej]|]; [| |done].
  - intros Hr. destruct (IH _ _ _ Hes Hr) as (Hm & k & Hk & Hv). split; [done|].
    exists (S <$> k). split; [|by apply verdict_cons; [apply Hc|]].
    rewrite Hk. destruct k; cbn; [f_equal; lia|done].
  - intros [= <-]. split; [done|]. exists (Some O). cbn [fmap option_fmap option_map].
    split; [cbn; f_equal; lia|]. apply verdict_stop. by rewrite <- Hc.
Qed.
Lemma verify_entries_good doc index prev vs entries tail :
  forallb (fun e => wf_fact (ee_fact e)) entries = true ->
  good_chain entry_good entry_next prev entries tail ->
  exists r, verify_entries (N := N) doc index prev vs entries = Some r /\
    xr_stopped_at r = None /\ xr_tail_hash r = tail.
Proof.
  revert index prev vs. induction entries as [|e entries IH]; intros index prev vs;
    cbn [verify_entries forallb good_chain].
  { intros _ ->. by eexists. }
  intros [He Hes]%andb_true_iff [Hg Hx]. rewrite (proj2 (check_entry_ok prev e He) Hg). by apply IH.
Qed.
Lemma verify_lines_spec index prev vs lines r :
  verify_lines (N := N) index prev vs lines = Some r ->
  exists k, wp_stopped_at r = Nat.add index <$> k /\
    verdict line_good line_next prev lines k (wp_tail_hash r).
Proof.
  revert index prev vs. induction lines as [|l lines IH]; intros index prev vs; cbn [verify_lines].
  { intros [= <-]. by exists None. }
  pose proof (check_line_ok prev l) as Hc. destruct (check_line prev l) as [[[]|rej]|]; [| |done].
  - intros Hr. destruct (IH _ _ _ Hr) as (k & Hk & Hv).
    exists (S <$> k). split; [|by apply verdict_cons; [apply Hc|]].
    rewrite Hk. destruct k; cbn; [f_equal; lia|done].
  - intros [= <-]. exists (Some O). cbn [fmap option_fmap option_map].
    split; [cbn; f_equal; lia|]. apply verdict_stop. by rewrite <- Hc.
Qed.
Lemma verify_lines_good index prev vs lines tail :
  good_chain line_good line_next prev lines tail ->
  exists r, verify_lines (N := N) index prev vs lines = Some r /\
    wp_stopped_at r = None /\ wp_tail_hash r = tail.
Proof.
  revert index prev vs. induction lines as [|l lines IH]; intros index prev vs;
    cbn [verify_lines good_chain].
  { intros ->. by eexists. }
  intros [Hg Hx]. rewrite (proj2 (check_line_ok prev l) Hg). by apply IH.
Qed.
Lemma good_entries_chain prev entries tail :
  good_chain entry_good entry_next prev entries tail ->
  chain_from (N := N) prev (map ee_fact entries) = Ok tail.
Proof.
  revert prev. induction entries as [|e entries IH]; intros prev; cbn; [by intros ->|].
  intros [(_ & Hh & _) Hx]. rewrite Hh. by apply IH.
Qed.

(** A panic needs a hash field that is not ASCII. *)
Definition plain_entry (e : ExportEntry) : bool :=
  str_all is_ascii_char (ee_prev_hash e) && str_all is_ascii_char (ee_content_hash e).
Lemma check_entry_total `{!Blake3Hex} prev e :
  str_all is_ascii_char prev = true -> plain_entry e = true -> check_entry (N := N) prev e <> None.
Proof.
  unfold plain_entry, check_entry. intros Hp [Ha Hc]%andb_true_iff.
  destruct (short_ascii prev Hp) as [? ->], (short_ascii _ Ha) as [? ->], (short_ascii _ Hc) as [? ->].
  case_match; [done|]. destruct (fact_hash (ee_fact e)) as [h|] eqn:Hh; [|done].
  assert (str_all is_ascii_char h = true) as Hx.
  { unfold fact_hash in Hh. destruct (fact_text (ee_fact e)); [|done]. injection Hh as <-. apply blake3_hex_ascii. }
  destruct (short_ascii h Hx) as [? ->]. by repeat case_match.
Qed.
Lemma verify_entries_total `{!Blake3Hex} doc index prev vs entries :
  str_all is_ascii_char prev = true -> forallb plain_entry entries = true ->
  verify_entries (N := N) doc index prev vs entries <> None.
Proof.
  revert index prev vs. induction entries as [|e entries IH]; intros index prev vs Hp; cbn [verify_entries forallb];
    [done|]. intros [He Hes]%andb_true_iff. pose proof (check_entry_total prev e Hp He) as Hc.
  destruct (check_entry prev e) as [[[]|]|]; [|done..]. apply IH; [apply blake3_hex_ascii|done].
Qed.

Lemma parsed_entries i arr entries :
  parse_export_entries (N := N) i arr = Ok entries ->
  Forall (fun e => wf_fact (ee_fact e) = true /\ norm_fact (ee_fact e) = ee_fact e) entries.
Proof.
  revert i entries. induction arr as [|x arr IH]; intros i entries; cbn [parse_export_entries]; [by intros [= <-]|].
  destruct (parse_export_entry i x) as [e|] eqn:He; [|done].
  destruct (parse_export_entries (S i) arr) as [es|] eqn:Hes; [|done]. intros [= <-].
  constructor; [|by eapply IH]. unfold parse_export_entry in He. destruct (obj_of x _); [|done].
  destruct (req _ "fact" _) as [raw|]; [|done]. unfold map_err in He.
  destruct (EvidParse.fact_from_json raw) as [f|] eqn:Hf; [|done]. apply read_fact in Hf. cbv beta iota in He.
  repeat (match type of He with context [match ?r with Ok _ => _ | Err _ => _ end] => destruct r; [|done] end).
  by injection He as <-.
Qed.
Lemma parsed_doc v doc :
  parse_export_doc (N := N) v = Ok doc ->
  Forall (fun e => wf_fact (ee_fact e) = true /\ norm_fact (ee_fact e) = ee_fact e) (ed_entries doc) /\
  ed_entry_count doc = vec_len (ed_entries doc) /\ ed_version doc = EXPORT_VERSION.
Proof.
  unfold parse_export_doc. destruct (obj_of v _) as [outer|]; [|done].
  destruct (match map_get outer "export" with Some _ => _ | None => _ end) as [obj|]; [|done].
  destruct (req_str obj "version" _) as [ver|]; [|done].
  destruct (String.eqb_spec ver EXPORT_VERSION) as [->|]; [|done]. cbn [negb].
  destruct (record_u64 obj _ _) as [count|]; [|done]. destruct (req_str obj "last_hash" _) as [lh|]; [|done].
  destruct (req obj "entries" _) as [raw|]; [|done]. destruct (ok_or _ _) as [arr|]; [|done].
  destruct (parse_export_entries 0 arr) as [entries|] eqn:He; [|done].
  destruct (Z.eqb_spec (vec_len entries) count) as [<-|]; [|done]. intros [= <-].
  split_and!; [by eapply parsed_entries|done..].
Qed.
Lemma Forall_wf entries :
  Forall (fun e => wf_fact (ee_fact e) = true /\ norm_fact (ee_fact e) = ee_fact e) entries ->
  forallb (fun e => wf_fact (ee_fact e)) entries = true.
Proof. induction 1 as [|e l [He _] _ IH]; [done|]. cbn. by rewrite He, IH. Qed.
Lemma export_all_ok_spec doc r :
  forallb (fun e => wf_fact (ee_fact e)) (ed_entries doc) = true -> verify_export (N := N) doc = Some r ->
  verdict entry_good entry_next GENESIS (ed_entries doc) (xr_stopped_at r) (xr_tail_hash r) /\
  (export_all_ok r = true <-> xr_stopped_at r = None /\ xr_tail_hash r = ed_last_hash doc).
Proof.
  intros Hwf Hr. destruct (verify_entries_spec _ _ _ _ _ _ Hwf Hr) as (Hm & k & Hk & Hv).
  assert (xr_stopped_at r = k) as Hs by (rewrite Hk; by destruct k).
  rewrite Hs. split; [done|]. unfold export_all_ok. rewrite Hm, Hs, andb_true_iff, String.eqb_eq.
  by destruct k; cbn; naive_solver.
Qed.
Lemma export_accepts doc :
  forallb (fun e => wf_fact (ee_fact e)) (ed_entries doc) = true ->
  (exists r, verify_export (N := N) doc = Some r /\ export_all_ok r = true) <->
  good_chain entry_good entry_next GENESIS (ed_entries doc) (ed_last_hash doc).
Proof.
  intros Hwf. split.
  - intros (r & Hr & Hok). destruct (export_all_ok_spec doc r Hwf Hr) as [Hv Ha].
    apply Ha in Hok as [Hs Ht]. by rewrite Hs, Ht in Hv.
  - intros Hg. destruct (verify_entries_good doc 0 GENESIS [] _ _ Hwf Hg) as (r & Hr & Hs & Ht).
    exists r. split; [done|]. by apply (export_all_ok_spec doc r Hwf Hr).
Qed.
End Verdicts.

(** C14: the verdict on an export is exact.  For a document that was read,
    [verify_export] accepts precisely when every entry names the chain hash
    before it, carries the content hash, the identifier and the type of its
    fact and the stable text that reads back as its JSON, and the chain ends
    in [last_hash], which is then the chain hash of the exported facts.  A
    report that stops does so at the first entry that is not so, with the
    chain hash of the entries before it; and there is a report unless a hash
    field holds multi-byte characters. *)
Theorem evid_export_exact {N : Type}
    `{SerdeNumberLaws N, SerdeText N, Blake3, SerdeNumberEq N, !SerdeNumberEqLaws N, !Blake3Hex}
    (v : SValue N) (doc : ExportDoc) :
  parse_export_doc v = Ok doc ->
  ((exists r, verify_export (N := N) doc = Some r /\ export_all_ok r = true) <->
   good_chain (entry_good (N := N)) entry_next GENESIS (ed_entries doc) (ed_last_hash doc)) /\
  (good_chain (entry_good (N := N)) entry_next GENESIS (ed_entries doc) (ed_last_hash doc) ->
   compute_chain_hash (N := N) (map ee_fact (ed_entries doc)) = Ok (ed_last_hash doc)) /\
  (forall r, verify_export (N := N) doc = Some r ->
   verdict (entry_good (N := N)) entry_next GENESIS (ed_entries doc) (xr_stopped_at r) (xr_tail_hash r)) /\
  (forallb plain_entry (ed_entries doc) = true -> verify_export (N := N) doc <> None).
Proof.
  intros (Hwf%Forall_wf & _)%parsed_doc. split_and!.
  - by apply export_accepts.
  - rewrite compute_chain_hash_from. apply good_entries_chain.
  - intros r Hr. by apply (export_all_ok_spec doc r).
  - by apply verify_entries_total.
Qed.

(** C15: an accepted export is tamper evident, from the JSON values on: two
    documents that are read and accepted with the same [last_hash] hold the
    same facts in the same order, or comparing the two histories from the end
    produces two different inputs of the hash function with the same hash. *)
Theorem evid_export_tamper_evident {N : Type}
    `{SerdeNumberLaws N, SerdeText N, !SerdeTextLaws N, Blake3, !Blake3Laws, SerdeNumberEq N, !SerdeNumberEqLaws N}
    (v1 v2 : SValue N) (doc1 doc2 : ExportDoc) (r1 r2 : ExportReport) :
  parse_export_doc v1 = Ok doc1 -> parse_export_doc v2 = Ok doc2 ->
  verify_export (N := N) doc1 = Some r1 -> verify_export (N := N) doc2 = Some r2 ->
  export_all_ok r1 = true -> export_all_ok r2 = true -> ed_last_hash doc1 = ed_last_hash doc2 ->
  map ee_fact (ed_entries doc1) = map ee_fact (ed_entries doc2) \/
  exists ts1 ts2 p,
    fact_texts (N := N) (map ee_fact (ed_entries doc1)) = Ok ts1 /\
    fact_texts (N := N) (map ee_fact (ed_entries doc2)) = Ok ts2 /\
    find_collision (rev ts1) (rev ts2) = Some p /\ collision p.
Proof.
  intros (Hf1 & _)%parsed_doc (Hf2 & _)%parsed_doc Hr1 Hr2 Ha1 Ha2 Heq.
  assert (forall doc r, Forall (fun e => wf_fact (ee_fact e) = true /\ norm_fact (ee_fact e) = ee_fact e)
      (ed_entries doc) -> verify_export (N := N) doc = Some r -> export_all_ok r = true ->
    forallb wf_fact (map ee_fact (ed_entries doc)) = true /\
    map norm_fact (map ee_fact (ed_entries doc)) = map ee_fact (ed_entries doc) /\
    compute_chain_hash (N := N) (map ee_fact (ed_entries doc)) = Ok (ed_last_hash doc)) as Hdoc.
  { intros doc r Hf Hr Ha. split_and!.
    - clear Hr. induction Hf as [|e l [He _] _ IH]; [done|]. cbn. by rewrite He, IH.
    - clear Hr. induction Hf as [|e l [_ He] _ IH]; [done|]. cbn. by rewrite He, IH.
    - rewrite compute_chain_hash_from. apply good_entries_chain, export_accepts; [by apply Forall_wf|]. by exists r. }
  destruct (Hdoc doc1 r1) as (Hw1 & Hn1 & Hc1), (Hdoc doc2 r2) as (Hw2 & Hn2 & Hc2); [done..|].
  destruct (same_chain_same_facts (N := N) _ _ Hw1 Hw2) as [Hsame|?]; [congruence| |by right].
  left. by rewrite Hn1, Hn2 in Hsame.
Qed.

(** * Agreement with the auditor *)

Section Agreement.
Context {N A : Type}.
Context `{SerdeNumberLaws N, SerdeText N, Blake3, SerdeNumberEq N, !SerdeNumberEqLaws N, Ed25519}.
Implicit Types (a : Auditor A).

(** The line of a record that has its hashes. *)
Definition line_of_record (r : WalRecord) : WalLine :=
  mk_wal_line (default "" (rec_content_hash r)) (default "" (rec_chain_hash r))
    (default "" (rec_prev_hash r)) (rec_fact r).
Lemma line_good_record prev r :
  hashed r = true ->
  line_good (N := N) prev (line_of_record r) <->
  record_chained (N := N) prev r (wl_content_hash (line_of_record r)).
Proof.
  unfold hashed, line_good, record_chained, line_of_record. destruct (rec_content_hash r), (rec_prev_hash r), (rec_chain_hash r);
    try done. intros _. cbn. naive_solver.
Qed.
Lemma good_lines_chained prev records tail :
  forallb hashed records = true ->
  good_chain (line_good (N := N)) line_next prev (map line_of_record records) tail <->
  chained (N := N) prev records /\ chain_from (N := N) prev (map rec_fact records) = Ok tail.
Proof.
  revert prev. induction records as [|r rs IH]; intros prev; cbn [map forallb good_chain chained chain_from].
  { intros _. split; [by intros ->|]. by intros [_ [= ->]]. }
  intros [Hr Hrs]%andb_true_iff. rewrite line_good_record by done. split.
  - intros [Hg Hc]. pose proof Hg as (Hh & _ & _ & Hchain). rewrite Hh.
    unfold line_next in Hc. cbn [wl_chain_hash line_of_record] in Hc. rewrite Hchain in Hc. cbn [default] in Hc.
    apply IH in Hc as [Hc Hf]; [|done]. split; [by eexists|done].
  - intros [(content & Hg & Hc) Hf]. pose proof Hg as (Hh & Hco & _ & Hchain). rewrite Hh in Hf.
    unfold line_next. cbn [wl_content_hash wl_chain_hash line_of_record]. rewrite Hco, Hchain. cbn [default].
    split; [done|]. by apply IH.
Qed.
Lemma wal_lines_accepts lines tail :
  (exists r, verify_wal_lines (N := N) lines = Some r /\ wal_all_ok r = true /\ wp_tail_hash r = tail) <->
  good_chain (line_good (N := N)) line_next GENESIS lines tail.
Proof.
  split.
  - intros (r & Hr & Hok & <-). apply verify_lines_spec in Hr as (k & Hk & Hv).
    unfold wal_all_ok in Hok. destruct k; [|done]. by rewrite Hk in Hok.
  - intros (r & Hr & Hs & Ht)%(verify_lines_good 0 GENESIS []). exists r. unfold wal_all_ok. by rewrite Hs.
Qed.
End Agreement.

(** C16: the verifier and the auditor agree on a write-ahead log.  On records
    that carry their hashes, [verify_wal_lines] accepts the lines precisely
    when [load_from_tier1_wal] loads the records, and then the chain hash it
    ends with is the last hash of the auditor. *)
Theorem evid_wal_agrees_with_auditor {N A : Type}
    `{SerdeNumberLaws N, SerdeText N, Blake3, SerdeNumberEq N, !SerdeNumberEqLaws N, Ed25519}
    (a : Auditor A) (records : list WalRecord) :
  forallb hashed records = true ->
  let '(a', result) := load_tier1 (N := N) a (Ok records) in
  result = Ok tt <->
  exists r, verify_wal_lines (N := N) (map line_of_record records) = Some r /\ wal_all_ok r = true /\
    wp_tail_hash r = audit_last_hash a'.
Proof.
  intros Hh. pose proof (load_tier1_spec a records Hh) as Hs.
  destruct (load_tier1 a (Ok records)) as [a' [[]|err]].
  - destruct Hs as (Hc & Hq & _). rewrite compute_chain_hash_from in Hq. split; [intros _|done].
    by apply wal_lines_accepts, good_lines_chained.
  - rewrite wal_lines_accepts, good_lines_chained by done. naive_solver.
Qed.

(** * Agreement on the anchors *)

Definition seal_of_anchor (a : AuditAnchor) : Seal.AnchorSeal :=
  Seal.mk_seal (a_seq a) (a_session_id a)
    (Seal.mk_seal_range (Z.of_nat (lo (a_fact_range a))) (Z.of_nat (hi (a_fact_range a))))
    (a_chain_head a) (a_key_id a) (a_engine_id a) (a_logical_time a) (a_anchor_hash a) (a_signature a).
Lemma seal_fields_anchor first a :
  Seal.seal_fields first (seal_of_anchor a) = proto_fields first (anchor_proto a).
Proof.
  unfold Seal.seal_fields, proto_fields, seal_of_anchor, anchor_proto, bar, Seal.field. cbn -[pretty append].
  rewrite !pretty_of_nat, <- !str_app_assoc. done.
Qed.
Lemma decode_pairs_loop h : Seal.decode_pairs h = result_ok (hex_decode_loop h).
Proof.
  assert (forall n h, (String.length h <= n)%nat -> Seal.decode_pairs h = result_ok (hex_decode_loop h)) as Hn.
  { clear h. induction n as [|n IH]; intros [|a [|b h]]; cbn; try done; try lia. intros Hl.
    destruct (to_digit_16 a), (to_digit_16 b); try done. rewrite IH by lia. by destruct (hex_decode_loop h). }
  by apply (Hn (String.length h)).
Qed.
Lemma even_mod n : Nat.eqb (n mod 2) 0 = Nat.even n.
Proof.
  destruct (Nat.Even_or_Odd n) as [He|Ho].
  - rewrite (proj2 (Nat.even_spec n) He). destruct He as [k ->]. by rewrite Nat.mul_comm, Nat.Div0.mod_mul.
  - pose proof (proj2 (Nat.odd_spec n) Ho) as Hb. rewrite <- Nat.negb_even in Hb. destruct Ho as [k ->].
    apply negb_true_iff in Hb. rewrite Hb. rewrite Nat.add_comm, Nat.mul_comm, Nat.Div0.mod_add. done.
Qed.
Lemma hex_decode_same h : Seal.hex_decode h = result_ok (hex_decode h).
Proof.
  unfold Seal.hex_decode, hex_decode. rewrite even_mod. destruct (Nat.even _); [|done]. apply decode_pairs_loop.
Qed.

Section Seals.
Context `{Blake3, Ed25519}.
Lemma verify_seal_same a prev key :
  Seal.verify_seal (seal_of_anchor a) prev key = Ok tt <-> verify_one a prev key = Ok tt.
Proof.
  unfold Seal.verify_seal, verify_one, Seal.compute_anchor_hash. cbn [compute_anchor_hash].
  rewrite seal_fields_anchor. cbn [Seal.s_anchor_hash seal_of_anchor].
  destruct (negb _); [done|]. rewrite hex_decode_same. destruct (hex_decode key) as [vk|]; [|done]. cbn [result_ok ok_or].
  destruct (negb _); [done|]. cbn [Seal.s_signature seal_of_anchor]. rewrite hex_decode_same.
  destruct (hex_decode (a_signature a)) as [sg|]; [|done]. cbn [result_ok ok_or].
  destruct (negb _); [done|]. unfold verify_signature. destruct (verifying_key_check vk); [|done].
  unfold Seal.signature_payload_v2, signature_payload_v2.
  rewrite seal_fields_anchor. change Seal.ANCHOR_FORMAT with ANCHOR_FORMAT. by destruct (ed_verify _ _ _).
Qed.
Lemma verify_seals_same keys i prev lo0 anchors :
  Seal.verify_seals keys i prev (Z.of_nat lo0) (map seal_of_anchor anchors) = Ok tt <->
  verify_anchors keys i prev lo0 anchors = Ok tt /\
  Forall (fun a => lo (a_fact_range a) <= hi (a_fact_range a))%nat anchors.
Proof.
  revert i prev lo0. induction anchors as [|a anchors IH]; intros i prev lo0; cbn [map Seal.verify_seals verify_anchors].
  { naive_solver. }
  rewrite Forall_cons. cbn [Seal.s_seq Seal.s_fact_range Seal.r_lo Seal.r_hi Seal.s_key_id Seal.s_anchor_hash seal_of_anchor].
  destruct (a_seq a =? i)%Z; cbn [negb]; [|naive_solver].
  destruct (Z.eqb_spec (Z.of_nat (lo (a_fact_range a))) (Z.of_nat lo0)) as [Heq|Hne];
    destruct (Nat.eqb_spec (lo (a_fact_range a)) lo0); try lia; cbn [negb]; [|naive_solver].
  destruct (Z.ltb_spec (Z.of_nat (hi (a_fact_range a))) (Z.of_nat (lo (a_fact_range a)))) as [Hlt|Hle].
  { split; [done|]. intros (_ & ? & _). lia. }
  destruct (keys !! a_key_id a) as [key|]; cbn [ok_or]; [|naive_solver].
  pose proof (verify_seal_same a prev key) as Hs.
  destruct (Seal.verify_seal _ _ _) as [[]|]; destruct (verify_one a prev key) as [[]|]; try naive_solver.
  rewrite IH. split; [intros (? & ?); split_and!; [done|lia|done]|naive_solver].
Qed.
End Seals.

(** The verifier and the server agree on the anchors: [verify_seal_chain]
    accepts the seals of a chain of anchors precisely when
    [verify_anchor_chain] accepts the chain and no anchor covers a range that
    runs backwards, which only the verifier checks. *)
Lemma evid_seals_agree_with_server `{Blake3, Ed25519} (anchors : list AuditAnchor) (keys : gmap string string) :
  Seal.verify_seal_chain (map seal_of_anchor anchors) keys = Ok tt <->
  verify_anchor_chain anchors keys = Ok tt /\
  Forall (fun a => lo (a_fact_range a) <= hi (a_fact_range a))%nat anchors.
Proof. apply (verify_seals_same keys 0 ANCHOR_GENESIS 0). Qed.

(** The verifier reads no more than the log does.  What its reader accepts
    the reader of the log accepts as the same fact, which is well formed and
    in normal form; and it reads back the stable JSON of every well-formed
    fact, up to the integer variant of its numbers. *)
Lemma evid_reader_refines_wal {N : Type}
    `{SerdeNumberLaws N, SerdeText N, SerdeNumberEq N, !SerdeNumberEqLaws N} :
  (forall (v : SValue N) (f : Fact), EvidParse.fact_from_json v = Ok f ->
    Wal.fact_from_json v = Ok f /\ wf_fact f = true /\ norm_fact f = f) /\
  (forall f : Fact, wf_fact f = true ->
    EvidParse.fact_from_json (N := N) (fact_to_json f) = Ok (norm_fact f)).
Proof.
  split.
  - intros v f Hf. split; [by apply fact_from_json_wal|by eapply read_fact].
  - intros f Hf. by apply fact_from_json_stable.
Qed.

(** * Examples *)

Module EvidDemo.
Import ZNumber ZText.
#[export] Instance number_eq : SerdeNumberEq Z := {| num_eqb := Z.eqb |}.
#[export] Instance number_eq_laws : SerdeNumberEqLaws Z.
Proof.
  split; cbn.
  - intros a b _. apply Z.eqb_eq.
  - intros n u. destruct (is_u64 n) eqn:Hn; [|done]. by intros [= <-].
  - intros n u. destruct (is_u64 n); [|done]. by intros [= <-].
Qed.
(** A hash in ASCII: the first 64 characters, padded. *)
Fixpoint mask (s : string) : string :=
  match s with
  | EmptyString => ""
  | String c s => String (if is_ascii_char c then c else "0") (mask s)
  end.
#[export] Instance hash : Blake3 := {| blake3_hex := fun s => mask (ZHash.fit 64 s) |}.
Lemma mask_length s : String.length (mask s) = String.length s.
Proof. induction s as [|c s IH]; [done|]. cbn. by rewrite IH. Qed.
#[export] Instance hash_laws : Blake3Laws.
Proof. split. intros s. unfold blake3_hex, hash. rewrite mask_length. apply ZSign.fit_length. Qed.
#[export] Instance hash_ascii : Blake3Hex.
Proof.
  split. intros s. unfold blake3_hex, hash. generalize (ZHash.fit 64 s). clear s. intros s.
  induction s as [|c s IH]; [done|]. cbn [mask str_all]. rewrite IH, andb_true_r.
  by destruct (is_ascii_char c) eqn:Hc.
Qed.
(** The export of a history. *)
Fixpoint export_entries (prev : string) (facts : list Fact) : list (SValue Z) * string :=
  match facts with
  | [] => ([], prev)
  | f :: rest =>
      let json := fact_to_json f in
      let content := default "" (result_ok (fact_hash (N := Z) f)) in
      let '(entries, tail) := export_entries (chain_step prev content) rest in
      (s_object [("fact", json); ("content_hash", SString content); ("fact_id", SNumber (fact_id f));
                 ("fact_type", SString (type_name f));
                 ("fact_json_stable", SString (default "" (result_ok (serde_to_string json))));
                 ("prev_hash", SString prev)] :: entries, tail)
  end.
Definition export_of (facts : list Fact) : SValue Z :=
  let '(entries, tail) := export_entries GENESIS facts in
  s_object [("export", s_object [("version", SString "1.0"); ("entry_count", SNumber (vec_len entries));
                                 ("last_hash", SString tail); ("entries", SArray entries)])].
Definition facts : list Fact :=
  [PayloadUpdate 1%Z "a" (JU64 5); Stable 2%Z 1; TransitionTrace 3%Z 1%Z [mk_trace_hit 0%Z "set" true None]].
Definition empty_doc : ExportDoc := mk_export_doc "" 0%Z "" [].
Definition doc : ExportDoc := default empty_doc (result_ok (parse_export_doc (export_of facts))).
Definition report : ExportReport :=
  default (mk_export_report [] None "" false) (verify_export (N := Z) doc).
(** A claimed hash with two-byte characters, cut at byte 16. *)
Definition odd_entry : ExportEntry :=
  mk_export_entry "" (Stable 1%Z 0) 1%Z "Stable" "" "abcdefghijklmnoéé".
End EvidDemo.
Import ZNumber ZText EvidDemo.
Lemma evid_export_exact_witness :
  parse_export_doc (export_of EvidDemo.facts) = Ok EvidDemo.doc /\
  length (ed_entries EvidDemo.doc) = 3 /\ export_all_ok EvidDemo.report = true /\
  compute_chain_hash (N := Z) (map ee_fact (ed_entries EvidDemo.doc)) = Ok (ed_last_hash EvidDemo.doc) /\
  verify_export (N := Z) EvidDemo.doc <> None.
Proof.
  assert (parse_export_doc (export_of EvidDemo.facts) = Ok EvidDemo.doc) as Hp by (vm_compute; reflexivity).
  destruct (evid_export_exact (N := Z) (export_of EvidDemo.facts) EvidDemo.doc Hp) as (Hiff & Hchain & _ & Htotal).
  split_and!; [exact Hp|vm_compute; reflexivity..| |apply Htotal; vm_compute; reflexivity].
  apply Hchain, Hiff. exists EvidDemo.report. split; vm_compute; reflexivity.
Defined.
Lemma evid_export_tamper_evident_witness :
  let read := fun v => default empty_doc (result_ok (parse_export_doc v)) in
  let doc1 := read (export_of [PayloadUpdate 1%Z "a" (JU64 5)]) in
  let doc2 := read (export_of [PayloadUpdate 1%Z "a" (JInteger 5)]) in
  ed_last_hash doc1 = ed_last_hash doc2 /\ map ee_fact (ed_entries doc1) = map ee_fact (ed_entries doc2).
Proof.
  intros read doc1 doc2. split; [vm_compute; reflexivity|].
  pose (report_of := fun d => default (mk_export_report [] None "" false) (verify_export (N := Z) d)).
  pose proof (evid_export_tamper_evident (N := Z) (export_of [PayloadUpdate 1%Z "a" (JU64 5)])
    (export_of [PayloadUpdate 1%Z "a" (JInteger 5)]) doc1 doc2 (report_of doc1) (report_of doc2)) as Ht.
  do 7 (specialize (Ht ltac:(vm_compute; reflexivity))).
  destruct Ht as [Hsame|(ts1 & ts2 & p & Ht1 & Ht2 & Hp & _)]; [exact Hsame|].
  vm_compute in Ht1, Ht2. injection Ht1 as <-. injection Ht2 as <-. vm_compute in Hp. discriminate Hp.
Defined.
Lemma evid_wal_agrees_with_auditor_witness :
  let records := default [] (wal (inner Demo.log)) in
  let a := (auditor_new : Auditor string) in
  length records = 4 /\
  exists r, verify_wal_lines (N := Z) (H1 := ZHash.hash) (map line_of_record records) = Some r /\
    wal_all_ok r = true /\
    wp_tail_hash r = audit_last_hash (fst (load_tier1 (N := Z) (H1 := ZHash.hash) (H3 := ZSign.ed) a (Ok records))).
Proof.
  intros records a. split; [vm_compute; reflexivity|].
  assert (forallb hashed records = true) as Hh by (vm_compute; reflexivity).
  pose proof (evid_wal_agrees_with_auditor (N := Z) (H2 := ZHash.hash) (H4 := ZSign.ed) a records Hh) as Heq.
  assert (snd (load_tier1 (N := Z) (H1 := ZHash.hash) (H3 := ZSign.ed) a (Ok records)) = Ok tt) as Hr
    by (vm_compute; reflexivity).
  destruct (load_tier1 a (Ok records)) as [a' result]. cbn [fst snd] in *. apply Heq. exact Hr.
Defined.
Lemma evid_reader_refines_wal_witness :
  let v := fact_to_json (N := Z) (PayloadUpdate 7%Z "a.b" (JArray [JU64 5; JU64 (2 ^ 63)])) in
  EvidParse.fact_from_json v = Ok (PayloadUpdate 7%Z "a.b" (JArray [JInteger 5; JU64 (2 ^ 63)])) /\
  Wal.fact_from_json v = Ok (PayloadUpdate 7%Z "a.b" (JArray [JInteger 5; JU64 (2 ^ 63)])).
Proof.
  intros v. destruct (evid_reader_refines_wal (N := Z)) as [Hread Hstable].
  assert (EvidParse.fact_from_json v = Ok (PayloadUpdate 7%Z "a.b" (JArray [JInteger 5; JU64 (2 ^ 63)]))) as Hv.
  { apply (Hstable (PayloadUpdate 7%Z "a.b" (JArray [JU64 5; JU64 (2 ^ 63)]))). reflexivity. }
  split; [exact Hv|]. apply Hread. exact Hv.
Defined.

(** A verdict can panic: the message of a broken link cuts the claimed hash in
    the middle of a character. *)
Lemma verify_export_can_panic : verify_export (N := Z) (mk_export_doc "1.0" 1%Z "" [odd_entry]) = None.
Proof. reflexivity. Qed.
(** The reader of the log accepts numbers it turns into text, and entries of
    the log without a version; this one does not. *)
Lemma evid_reader_stricter :
  let v := s_object [("type", SString "Stable"); ("id", SNumber 1%Z)] in
  Wal.fact_from_json v = Ok (Stable 1%Z 0) /\ exists e, EvidParse.fact_from_json v = Err e.
Proof. split; [reflexivity|by eexists]. Qed.
