(* ===== verification/McuWal.v ===== *)
(** The microcontroller kernel's data, [evorule-mcu]: its errors ([error.rs]),
    the tick clock ([clock.rs]), the rule pack ([pack.rs]) and the interface
    and in-memory implementation of its write-ahead log ([wal.rs]). *)

From S2P Require Import Prelude ObjectMap Value Error Path Domain Executor ExecSemantics Transition Fact Serde Hash Wal WalFile.

(** [enum McuError]. *)
Inductive McuError : Type :=
| McuPack (msg : string)
| McuSerde (msg : string)
| McuHash (msg : string)
| RecordIndex (index len : nat)
| IoPaused (request_id : Z) (io_type : string)
| McuVersionOverflow
| FactIdOverflow
| WalFull
| FlashProgramViolated (offset : nat)
| FlashRange (offset : nat)
| WalCorrupted (msg : string)
| WalRecordTooLarge (line_len page_size : nat).
Definition show_nat (n : nat) : string := pretty (N.of_nat n).
Definition mcu_error_display (e : McuError) : string :=
  match e with
  | McuPack msg => "rule pack error: " +:+ msg
  | McuSerde msg => "serialize error: " +:+ msg
  | McuHash msg => "hash error: " +:+ msg
  | RecordIndex index len =>
      "WAL record index " +:+ show_nat index +:+ " out of range (len " +:+ show_nat len +:+ ")"
  | IoPaused request_id io_type =>
      "io paused: IoRequest " +:+ pretty request_id +:+ " (io_type=" +:+ io_type
      +:+ ") is on the audit chain; perform the I/O (IoBridge) and call resume_io to continue"
  | McuVersionOverflow => "state version overflow"
  | FactIdOverflow => "fact id overflow"
  | WalFull =>
      "flash WAL ring full; audit chain never silently drops records, export or erase via the operations path first"
  | FlashProgramViolated offset => "flash program violated 1->0 rule at offset " +:+ show_nat offset
  | FlashRange offset => "flash offset " +:+ show_nat offset +:+ " out of range"
  | WalCorrupted msg => "wal medium corrupted: " +:+ msg
  | WalRecordTooLarge line_len page_size =>
      "wal line " +:+ show_nat line_len +:+ " bytes exceeds page size " +:+ show_nat page_size
  end.

(** [struct TickClock]. *)
Record TickClock : Type := mk_tick { tick : Z }.
Definition tick_new : TickClock := mk_tick 0.
Definition tick_now (c : TickClock) : Z := tick c.
Definition tick_advance (c : TickClock) : TickClock * Z :=
  let t := u64_saturating_add (tick c) 1 in (mk_tick t, t).

(** * The rule pack *)

#[local] Set Warnings "-register-all".
(** [enum WireValue] and [struct WireRules]. *)
Inductive WireValue : Type :=
| WNull
| WBool (b : bool)
| WInt (i : Z)
| WStr (s : string)
| WArray (l : list WireValue)
| WObject (pairs : list (string * WireValue))
| WUint (u : Z).
Definition WireRules : Type := list WireValue.
(** [postcard::to_allocvec] and [from_bytes] on [WireRules]. *)
Class Postcard : Type := {
  to_allocvec : WireRules -> Result string string;
  from_bytes : string -> Result WireRules string;
}.
(** Documented: what is encoded decodes to itself. *)
Class PostcardLaws `{Postcard} : Prop := {
  from_to_bytes rules bytes : to_allocvec rules = Ok bytes -> from_bytes bytes = Ok rules;
}.

Fixpoint tcb_to_wire (v : JsonValue) : WireValue :=
  match v with
  | JNull => WNull
  | JBool b => WBool b
  | JInteger i => WInt i
  | JU64 u => WUint u
  | JString s => WStr s
  | JArray arr => WArray (map tcb_to_wire arr)
  | JObject obj => WObject (map (fun kv => (fst kv, tcb_to_wire (snd kv))) obj)
  end.
Fixpoint wire_to_tcb (v : WireValue) : JsonValue :=
  match v with
  | WNull => JNull
  | WBool b => JBool b
  | WInt i => JInteger i
  | WUint u => JU64 u
  | WStr s => JString s
  | WArray arr => JArray (map wire_to_tcb arr)
  | WObject pairs => JObject (map_from (map (fun kv => (fst kv, wire_to_tcb (snd kv))) pairs))
  end.

(** [struct RulePack]. *)
Record RulePack : Type := mk_pack { pack_rules : list JsonValue }.
Definition from_rules (rules : list JsonValue) : Result RulePack McuError :=
  if (MAX_TRANSFORM_RULES <? length rules)%nat then
    Err (McuPack ("rule count " +:+ show_nat (length rules) +:+ " exceeds transform limit "
                  +:+ show_nat MAX_TRANSFORM_RULES))
  else Ok (mk_pack rules).
Section Pack.
Context `{Postcard}.
Definition to_evopack (p : RulePack) : Result string McuError :=
  match to_allocvec (map tcb_to_wire (pack_rules p)) with
  | Ok bytes => Ok bytes
  | Err e => Err (McuPack ("postcard encode failed: " +:+ e))
  end.
Definition from_evopack (bytes : string) : Result RulePack McuError :=
  match from_bytes bytes with
  | Ok wire => from_rules (map wire_to_tcb wire)
  | Err e => Err (McuPack ("postcard decode failed: " +:+ e))
  end.
End Pack.

(** * The write-ahead log *)

(** [struct McuWalRecord] and [trait McuWalStore]. *)
Record McuWalRecord : Type := mk_mcu_record {
  m_version_before : Z;
  m_fact : Fact;
  m_content_hash : string;
  m_prev_hash : string;
  m_chain_hash : string;
}.
Class McuWalStore (S : Type) : Type := {
  mcu_append_record : S -> Z -> Fact -> string -> string -> string -> S * Result unit McuError;
  chain_tail_hash : S -> string;
  mcu_len : S -> nat;
  line_json : S -> nat -> Result string McuError;
}.
Definition mcu_is_empty {S} `{McuWalStore S} (s : S) : bool := Nat.eqb (mcu_len s) 0.

Section McuWal.
Context {N : Type} `{SerdeNumber N, SerdeText N}.

Definition wal_line_json (version_before : Z) (fact : Fact) (content_hash prev_hash chain_hash : string) :
    Result string McuError :=
  match fact_to_stable_json fact with
  | Err e => Err (McuHash (hash_error_display e))
  | Ok fact_json =>
      match serde_to_string (s_object
        [("version_before", SNumber (num_from_u64 version_before)); ("fact", fact_json);
         ("content_hash", SString content_hash); ("prev_hash", SString prev_hash);
         ("chain_hash", SString chain_hash)]) with
      | Ok line => Ok line
      | Err e => Err (McuSerde ("WAL line serialize failed: " +:+ e))
      end
  end.

(** [struct RamWalStore]. *)
Record RamWalStore : Type := mk_ram { ram_records : list McuWalRecord }.
Definition ram_new : RamWalStore := mk_ram [].
Definition ram_append (s : RamWalStore) (version_before : Z) (fact : Fact)
    (content_hash prev_hash chain_hash : string) : RamWalStore * Result unit McuError :=
  (mk_ram (ram_records s ++ [mk_mcu_record version_before fact content_hash prev_hash chain_hash]), Ok tt).
Definition ram_tail (s : RamWalStore) : string :=
  match last (ram_records s) with Some r => m_chain_hash r | None => "genesis" end.
Definition record_line (r : McuWalRecord) : Result string McuError :=
  wal_line_json (m_version_before r) (m_fact r) (m_content_hash r) (m_prev_hash r) (m_chain_hash r).
Definition ram_line (s : RamWalStore) (index : nat) : Result string McuError :=
  match ram_records s !! index with
  | Some r => record_line r
  | None => Err (RecordIndex index (length (ram_records s)))
  end.
#[export] Instance ram_wal_store : McuWalStore RamWalStore := {|
  mcu_append_record := ram_append;
  chain_tail_hash := ram_tail;
  mcu_len := fun s => length (ram_records s);
  line_json := ram_line;
|}.

(** * Properties *)

Lemma wire_roundtrip v : wf_json v = true -> wire_to_tcb (tcb_to_wire v) = v.
Proof.
  induction v as [|b|i|u|s|l IH|m IH] using json_ind; intros Hwf; try done; cbn in *.
  - f_equal. rewrite map_map, (map_ext_Forall _ id); [apply map_id|].
    rewrite forallb_forall in Hwf. rewrite List.Forall_forall in *. intros x Hx. by apply IH; auto.
  - apply andb_true_iff in Hwf as [Hs Hwf]. apply keys_sortedb_spec in Hs. f_equal.
    rewrite map_map, (map_ext_Forall _ id); [rewrite map_id; by apply map_from_id|].
    rewrite forallb_forall in Hwf. rewrite List.Forall_forall in *. intros [k x] Hx. cbn. unfold id. f_equal.
    by apply (IH _ Hx), (Hwf _ Hx).
Qed.

(** The lines of both logs are the same bytes. *)
Lemma line_as_native version fact content prev chain :
  wal_line_json version fact content prev chain =
  match serde_to_string (record_with_hash_json (N := N) version fact content prev chain) with
  | Ok line => Ok line
  | Err e => Err (McuSerde ("WAL line serialize failed: " +:+ e))
  end.
Proof. unfold wal_line_json. by rewrite <- (fact_to_json_stable (N := N)). Qed.
End McuWal.

(** A rule pack that was built and encoded is loaded back as it was. *)
Lemma evopack_roundtrip `{PostcardLaws} (rules : list JsonValue) (p : RulePack) (bytes : string) :
  from_rules rules = Ok p -> forallb wf_json rules = true -> to_evopack p = Ok bytes ->
  from_evopack bytes = Ok p.
Proof.
  unfold from_rules at 1. destruct (MAX_TRANSFORM_RULES <? length rules)%nat eqn:Hlen; [done|].
  intros [= <-] Hwf. unfold to_evopack, from_evopack. cbn [pack_rules].
  destruct (to_allocvec _) as [b|] eqn:Hb; [|done]. intros [= <-].
  rewrite (from_to_bytes _ _ Hb), map_map, (map_ext_Forall _ id), map_id.
  - unfold from_rules. by rewrite Hlen.
  - rewrite forallb_forall in Hwf. apply List.Forall_forall. intros x Hx. apply wire_roundtrip. by apply Hwf.
Qed.
