(* ===== verification/McuFlash.v ===== *)
(** The flash write-ahead log of the microcontroller kernel,
    [evorule-mcu/src/wal_flash.rs]: the flash medium, whose bits are only
    cleared until a page is erased, its simulation in memory, the scan of a
    page, recovery over the ring of pages, and the append. *)

From S2P Require Import Prelude ObjectMap Value Error Path Domain Executor ExecSemantics Transition Fact Serde Hash Wal WalFile McuWal.

Definition Bytes : Type := list ascii.
Definition FF : ascii := ascii_of_nat 255.
Definition is_FF (b : ascii) : bool := Ascii.eqb b FF.
Definition bytes_of (s : string) : Bytes := list_ascii_of_string s.
Definition string_of (l : Bytes) : string := string_of_list_ascii l.

(** * The medium *)

(** [trait FlashMedium]; [flash_read] gives the bytes read. *)
Class FlashMedium (M : Type) : Type := {
  page_size : M -> nat;
  page_count : M -> nat;
  flash_read : M -> nat -> nat -> Result Bytes McuError;
  flash_program : M -> nat -> Bytes -> M * Result unit McuError;
  erase_page : M -> nat -> M * Result unit McuError;
}.

(** [u8 & u8]. *)
Definition byte_and (a b : ascii) : ascii :=
  match a, b with
  | Ascii a0 a1 a2 a3 a4 a5 a6 a7, Ascii b0 b1 b2 b3 b4 b5 b6 b7 =>
      Ascii (a0 && b0) (a1 && b1) (a2 && b2) (a3 && b3) (a4 && b4) (a5 && b5) (a6 && b6) (a7 && b7)
  end.

(** [struct RamFlashMedium]; [new] panics on an empty page. *)
Record RamFlashMedium : Type := mk_ram_flash { flash_data : Bytes; flash_page_size : nat }.
Definition ram_flash_new (page_size page_count : nat) : option RamFlashMedium :=
  if Nat.eqb page_size 0 then None
  else Some (mk_ram_flash (replicate (page_size * page_count) FF) page_size).
Definition slice {A} (start len : nat) (l : list A) : list A := take len (drop start l).
(** The end of a range within the data; an overflow of [checked_add] is past
    the end, too. *)
Definition ram_read (m : RamFlashMedium) (offset len : nat) : Result Bytes McuError :=
  if (length (flash_data m) <? offset + len)%nat then Err (FlashRange offset)
  else Ok (slice offset len (flash_data m)).
(** The first byte that would set a bit. *)
Fixpoint first_violation (i : nat) (old bytes : Bytes) : option nat :=
  match old, bytes with
  | o :: old, b :: bytes =>
      if negb (Ascii.eqb (byte_and o b) b) then Some i else first_violation (S i) old bytes
  | _, _ => None
  end.
Definition ram_program (m : RamFlashMedium) (offset : nat) (bytes : Bytes) :
    RamFlashMedium * Result unit McuError :=
  let data := flash_data m in
  let finish := (offset + length bytes)%nat in
  if (length data <? finish)%nat then (m, Err (FlashRange offset))
  else
    match first_violation offset (drop offset data) bytes with
    | Some i => (m, Err (FlashProgramViolated i))
    | None =>
        (mk_ram_flash (take offset data ++ zip_with byte_and (drop offset data) bytes ++ drop finish data)
           (flash_page_size m), Ok tt)
    end.
Definition ram_erase (m : RamFlashMedium) (page : nat) : RamFlashMedium * Result unit McuError :=
  let size := flash_page_size m in
  if (u64_max <? Z.of_nat page * Z.of_nat size)%Z then (m, Err (FlashRange page))
  else
    let start := (page * size)%nat in
    if (length (flash_data m) <? start + size)%nat then (m, Err (FlashRange start))
    else
      (mk_ram_flash (take start (flash_data m) ++ replicate size FF ++ drop (start + size) (flash_data m)) size,
       Ok tt).
#[export] Instance ram_flash : FlashMedium RamFlashMedium := {|
  page_size := flash_page_size;
  page_count := fun m => length (flash_data m) / flash_page_size m;
  flash_read := ram_read;
  flash_program := ram_program;
  erase_page := ram_erase;
|}.

(** * Scanning a page *)

(** [struct PageScan]. *)
Record PageScan : Type := mk_scan {
  sc_rows : list (nat * nat);
  sc_polluted : bool;
  sc_first_free : option nat;
}.
(** The loop: the complete rows, where the last row starts, and the first
    free byte. *)
Fixpoint scan_bytes (i row_start : nat) (data : Bytes) : list (nat * nat) * nat * option nat :=
  match data with
  | [] => ([], row_start, None)
  | b :: data =>
      if is_FF b then ([], row_start, Some i)
      else if Ascii.eqb b newline then
        let '(rows, start, free) := scan_bytes (S i) (S i) data in ((row_start, i) :: rows, start, free)
      else scan_bytes (S i) row_start data
  end.
Definition page_message (page : nat) (what : string) : string := "page " +:+ show_nat page +:+ ": " +:+ what.
Definition scan_page (data : Bytes) (page : nat) : Result PageScan McuError :=
  match scan_bytes 0 0 data with
  | (rows, _, None) => Ok (mk_scan rows false None)
  | (rows, row_start, Some free) =>
      if negb (forallb is_FF (drop free data)) then
        Err (WalCorrupted (page_message page "non-0xFF byte after free space boundary"))
      else Ok (mk_scan rows (row_start <? free)%nat (Some free))
  end.

(** [core::str::from_utf8]. *)
Definition in_range (lo hi : nat) (c : ascii) : bool :=
  (lo <=? nat_of_ascii c)%nat && (nat_of_ascii c <=? hi)%nat.
Definition is_cont (c : ascii) : bool := in_range 128 191 c.
Fixpoint utf8_valid (l : Bytes) : bool :=
  match l with
  | [] => true
  | a :: l1 =>
      if in_range 0 127 a then utf8_valid l1
      else
        match l1 with
        | [] => false
        | b :: l2 =>
            if in_range 194 223 a then is_cont b && utf8_valid l2
            else
              match l2 with
              | [] => false
              | c :: l3 =>
                  if Ascii.eqb a (ascii_of_nat 224) then in_range 160 191 b && is_cont c && utf8_valid l3
                  else if in_range 225 236 a || in_range 238 239 a then is_cont b && is_cont c && utf8_valid l3
                  else if Ascii.eqb a (ascii_of_nat 237) then in_range 128 159 b && is_cont c && utf8_valid l3
                  else
                    match l3 with
                    | [] => false
                    | d :: l4 =>
                        (if Ascii.eqb a (ascii_of_nat 240) then in_range 144 191 b
                         else if in_range 241 243 a then is_cont b
                         else if Ascii.eqb a (ascii_of_nat 244) then in_range 128 143 b
                         else false) && is_cont c && is_cont d && utf8_valid l4
                    end
              end
        end
  end.

(** * The store *)

(** [struct FlashWalStore]. *)
Record FlashWalStore (M : Type) : Type := mk_flash_store {
  fw_medium : M;
  fw_lines : list string;
  fw_line_offsets : list nat;
  fw_tail_hash : string;
  fw_active_page : nat;
  fw_write_offset : nat;
  fw_polluted : bool;
  fw_page_size : nat;
}.
Arguments mk_flash_store {M}.
Arguments fw_medium {M}.
Arguments fw_lines {M}.
Arguments fw_line_offsets {M}.
Arguments fw_tail_hash {M}.
Arguments fw_active_page {M}.
Arguments fw_write_offset {M}.
Arguments fw_polluted {M}.
Arguments fw_page_size {M}.

Section Flash.
Context {N M : Type} `{SerdeNumber N, SerdeText N, FlashMedium M}.

Definition line_chain_hash (line : string) (page : nat) : Result string McuError :=
  match serde_from_str (N := N) line with
  | Err e => Err (WalCorrupted (page_message page ("line is not valid JSON: " +:+ e)))
  | Ok value =>
      ok_or (let! x := s_get value "chain_hash" in s_as_str x)
        (WalCorrupted (page_message page "line missing chain_hash field"))
  end.
(** The local variables of [open]. *)
Record Recovered : Type := mk_recovered {
  rc_lines : list string;
  rc_offsets : list nat;
  rc_tail : string;
  rc_active : nat;
  rc_write : nat;
  rc_polluted : bool;
  rc_saw_empty : bool;
}.
Fixpoint take_rows (page base : nat) (buf : Bytes) (r : Recovered) (rows : list (nat * nat)) :
    Result Recovered McuError :=
  match rows with
  | [] => Ok r
  | (start, finish) :: rest =>
      let row := slice start (finish - start) buf in
      if negb (utf8_valid row) then Err (WalCorrupted (page_message page "line is not valid UTF-8"))
      else
        let? hash := line_chain_hash (string_of row) page in
        take_rows page base buf
          (mk_recovered (rc_lines r ++ [string_of row]) (rc_offsets r ++ [(base + start)%nat]) hash
             (rc_active r) (rc_write r) (rc_polluted r) (rc_saw_empty r)) rest
  end.
Definition open_page (m : M) (r : Recovered) (page : nat) : Result Recovered McuError :=
  let base := (page * page_size m)%nat in
  let? buf := flash_read m base (page_size m) in
  if forallb is_FF buf then
    Ok (mk_recovered (rc_lines r) (rc_offsets r) (rc_tail r) (rc_active r) (rc_write r) (rc_polluted r) true)
  else if rc_saw_empty r then
    Err (WalCorrupted (page_message page "data page after empty page (ring hole)"))
  else
    let? scan := scan_page buf page in
    let? r := take_rows page base buf r (sc_rows scan) in
    Ok (mk_recovered (rc_lines r) (rc_offsets r) (rc_tail r) page
          (default (page_size m) (sc_first_free scan)) (sc_polluted scan) (rc_saw_empty r)).
Fixpoint open_pages (m : M) (r : Recovered) (pages : list nat) : Result Recovered McuError :=
  match pages with
  | [] => Ok r
  | page :: rest => let? r := open_page m r page in open_pages m r rest
  end.
Definition recovered_none : Recovered := mk_recovered [] [] "genesis" 0 0 false false.
Definition flash_open (m : M) : Result (FlashWalStore M) McuError :=
  let? r := open_pages m recovered_none (seq 0 (page_count m)) in
  Ok (mk_flash_store m (rc_lines r) (rc_offsets r) (rc_tail r) (rc_active r) (rc_write r) (rc_polluted r)
        (page_size m)).
Definition is_polluted (s : FlashWalStore M) : bool := fw_polluted s.
Definition line_offsets (s : FlashWalStore M) : list nat := fw_line_offsets s.

(** The change of page of [append_record]. *)
Definition set_cursor (s : FlashWalStore M) (m : M) (active write : nat) (polluted : bool) : FlashWalStore M :=
  mk_flash_store m (fw_lines s) (fw_line_offsets s) (fw_tail_hash s) active write polluted (fw_page_size s).
Definition need_new_page (s : FlashWalStore M) (len : nat) : bool :=
  fw_polluted s || (fw_page_size s <=? fw_write_offset s)%nat
  || (fw_page_size s - fw_write_offset s <? len)%nat.
Definition change_page (s : FlashWalStore M) : FlashWalStore M * Result unit McuError :=
  let next := S (fw_active_page s) in
  if (page_count (fw_medium s) <=? next)%nat then (s, Err WalFull)
  else
    match flash_read (fw_medium s) (next * fw_page_size s) 1 with
    | Err e => (s, Err e)
    | Ok probe =>
        if negb (forallb is_FF probe) then
          (s, Err (WalCorrupted (page_message next "expected empty page before rotate, found data")))
        else
          match erase_page (fw_medium s) next with
          | (m, Err e) => (set_cursor s m (fw_active_page s) (fw_write_offset s) (fw_polluted s), Err e)
          | (m, Ok _) => (set_cursor s m next 0 false, Ok tt)
          end
    end.
Definition write_line (s : FlashWalStore M) (line chain_hash : string) (bytes : Bytes) :
    FlashWalStore M * Result unit McuError :=
  let offset := (fw_active_page s * fw_page_size s + fw_write_offset s)%nat in
  match flash_program (fw_medium s) offset bytes with
  | (m, Err e) => (set_cursor s m (fw_active_page s) (fw_write_offset s) (fw_polluted s), Err e)
  | (m, Ok _) =>
      (mk_flash_store m (fw_lines s ++ [line]) (fw_line_offsets s ++ [offset]) chain_hash
         (fw_active_page s) (fw_write_offset s + length bytes) (fw_polluted s) (fw_page_size s), Ok tt)
  end.
Definition flash_append (s : FlashWalStore M) (version_before : Z) (fact : Fact)
    (content_hash prev_hash chain_hash : string) : FlashWalStore M * Result unit McuError :=
  match wal_line_json (N := N) version_before fact content_hash prev_hash chain_hash with
  | Err e => (s, Err e)
  | Ok line =>
      let bytes := bytes_of line ++ [newline] in
      if (fw_page_size s <? length bytes)%nat then (s, Err (WalRecordTooLarge (length bytes) (fw_page_size s)))
      else if need_new_page s (length bytes) then
        match change_page s with
        | (s, Err e) => (s, Err e)
        | (s, Ok _) => write_line s line chain_hash bytes
        end
      else write_line s line chain_hash bytes
  end.
Definition flash_line (s : FlashWalStore M) (index : nat) : Result string McuError :=
  ok_or (fw_lines s !! index) (RecordIndex index (length (fw_lines s))).
#[export] Instance flash_wal_store : McuWalStore (FlashWalStore M) := {|
  mcu_append_record := flash_append;
  chain_tail_hash := fw_tail_hash;
  mcu_len := fun s => length (fw_lines s);
  line_json := flash_line;
|}.
End Flash.
