(* ===== verification/McuFlashSpec.v ===== *)
(** Theorems about the flash log: what a scan of a page and of the ring finds,
    that every append keeps the ring readable, and that the log survives a
    loss of power at any byte of a write. *)

From S2P Require Import Prelude ObjectMap Value Error Path Domain Executor ExecSemantics Transition Fact Serde Hash Wal WalFile McuWal McuFlash.

(** Documented: a Rust [String] is valid UTF-8. *)
Class SerdeUtf8 (N : Type) `{SerdeText N} : Prop := {
  to_string_utf8 (v : SValue N) s : serde_to_string v = Ok s -> utf8_valid (bytes_of s) = true;
}.

(** * Bytes *)

Lemma bytes_of_string_of l : bytes_of (string_of l) = l.
Proof. apply list_ascii_of_string_of_list_ascii. Qed.
Lemma string_of_bytes_of s : string_of (bytes_of s) = s.
Proof. apply string_of_list_ascii_of_string. Qed.
Lemma byte_and_FF b : byte_and FF b = b.
Proof. by destruct b as [[] [] [] [] [] [] [] []]. Qed.
Lemma in_range_not_FF lo hi c : (hi < 255)%nat -> in_range lo hi c = true -> c <> FF.
Proof.
  intros Hhi Hr ->. unfold in_range in Hr. apply andb_true_iff in Hr as [_ Hr].
  apply Nat.leb_le in Hr. change (nat_of_ascii FF) with 255%nat in Hr. lia.
Qed.
Ltac byte_neq :=
  match goal with H : in_range ?lo ?hi ?c = true |- ?c <> FF =>
    exact (in_range_not_FF lo hi c ltac:(lia) H) end.
Lemma utf8_not_FF l : utf8_valid l = true -> Forall (fun b => b <> FF) l.
Proof.
  assert (forall n l, (length l <= n)%nat -> utf8_valid l = true -> Forall (fun b => b <> FF) l) as Hn.
  { clear l. induction n as [|n IH]; intros l Hl; [by destruct l; cbn in Hl; [|lia]|].
    destruct l as [|a l1]; [done|]. cbn [utf8_valid length] in *.
    destruct (in_range 0 127 a) eqn:Ha; [intros Hv; constructor; [byte_neq|apply IH; [lia|done]]|].
    destruct l1 as [|b l2]; [done|]. cbn [length] in Hl.
    unfold is_cont.
    destruct (in_range 194 223 a) eqn:Ha2.
    { intros [Hb Hv]%andb_true_iff. repeat constructor; [byte_neq..|apply IH; [lia|done]]. }
    destruct l2 as [|c l3]; [done|]. cbn [length] in Hl.
    destruct (Ascii.eqb_spec a (ascii_of_nat 224)) as [->|].
    { rewrite !andb_true_iff. intros [[Hb Hc] Hv]. constructor; [done|].
      repeat constructor; [byte_neq..|apply IH; [lia|done]]. }
    destruct (in_range 225 236 a || in_range 238 239 a) eqn:Ha3.
    { rewrite !andb_true_iff. intros [[Hb Hc] Hv]. apply orb_true_iff in Ha3 as [Ha3|Ha3];
        (repeat constructor; [byte_neq..|apply IH; [lia|done]]). }
    destruct (Ascii.eqb_spec a (ascii_of_nat 237)) as [->|].
    { rewrite !andb_true_iff. intros [[Hb Hc] Hv]. constructor; [done|].
      repeat constructor; [byte_neq..|apply IH; [lia|done]]. }
    destruct l3 as [|d l4]; [done|]. cbn [length] in Hl. rewrite !andb_true_iff. intros [[[Hab Hc] Hd] Hv].
    assert (a <> FF /\ b <> FF) as [??].
    { destruct (Ascii.eqb_spec a (ascii_of_nat 240)) as [->|]; [split; [done|byte_neq]|].
      destruct (in_range 241 243 a) eqn:Ha4; [split; byte_neq|].
      destruct (Ascii.eqb_spec a (ascii_of_nat 244)) as [->|]; [split; [done|byte_neq]|done]. }
    repeat constructor; [done..|byte_neq|byte_neq|apply IH; [lia|done]]. }
  by apply (Hn (length l)).
Qed.
Lemma all_FF n : forallb is_FF (replicate n FF) = true.
Proof. by induction n. Qed.
Lemma some_not_FF l b k : b <> FF -> forallb is_FF (l ++ b :: k) = false.
Proof.
  intros Hb. rewrite forallb_app. cbn. unfold is_FF at 2. rewrite (proj2 (Ascii.eqb_neq b FF) Hb). cbn.
  by rewrite andb_false_r.
Qed.

(** * The layout of a page *)

(** A page in use: its complete rows and what a loss of power left after
    them. *)
Definition Page : Type := list Bytes * Bytes.
Definition row_bytes (rows : list Bytes) : Bytes := concat (map (fun l => l ++ [newline]) rows).
Definition page_bytes (p : Page) : Bytes := row_bytes (fst p) ++ snd p.
Definition fill (size : nat) (p : Page) : Bytes :=
  page_bytes p ++ replicate (size - length (page_bytes p)) FF.
Definition plain (l : Bytes) : Prop := Forall (fun b => b <> newline /\ b <> FF) l.
Fixpoint row_spans (i : nat) (rows : list Bytes) : list (nat * nat) :=
  match rows with
  | [] => []
  | l :: rows => (i, (i + length l)%nat) :: row_spans (i + length l + 1) rows
  end.

Lemma row_bytes_app r1 r2 : row_bytes (r1 ++ r2) = row_bytes r1 ++ row_bytes r2.
Proof. unfold row_bytes. by rewrite map_app, concat_app. Qed.
Lemma row_spans_app i r1 r2 : row_spans i (r1 ++ r2) = row_spans i r1 ++ row_spans (i + length (row_bytes r1)) r2.
Proof.
  revert i. induction r1 as [|l r1 IH]; intros i; cbn [app row_spans]; [by rewrite Nat.add_0_r|].
  rewrite IH. do 3 f_equal. unfold row_bytes. cbn. rewrite !length_app. cbn. lia.
Qed.
Lemma plain_not_FF l : plain l -> Forall (fun b => b <> FF) l.
Proof. intros Hl. eapply List.Forall_impl; [|exact Hl]. by intros ? []. Qed.

Lemma scan_plain i start l rest :
  plain l -> scan_bytes i start (l ++ rest) = scan_bytes (i + length l) start rest.
Proof.
  intros Hl. revert i. induction Hl as [|b l [Hn Hf] _ IH]; intros i; cbn; [by rewrite Nat.add_0_r|].
  unfold is_FF. rewrite (proj2 (Ascii.eqb_neq b FF) Hf), (proj2 (Ascii.eqb_neq b newline) Hn), IH.
  f_equal. lia.
Qed.
Lemma scan_free i start n :
  scan_bytes i start (replicate n FF) = ([], start, if Nat.eqb n 0 then None else Some i).
Proof. by destruct n. Qed.
Lemma scan_rows i rows torn n :
  Forall plain rows -> plain torn ->
  scan_bytes i i (page_bytes (rows, torn) ++ replicate n FF) =
  (row_spans i rows, (i + length (row_bytes rows))%nat,
   if Nat.eqb n 0 then None else Some (i + length (page_bytes (rows, torn)))%nat).
Proof.
  intros Hrows Ht. revert i. induction Hrows as [|l rows Hl _ IH]; intros i.
  - unfold page_bytes. cbn [fst snd row_bytes map concat app]. rewrite scan_plain, scan_free by done.
    by rewrite Nat.add_0_r.
  - unfold page_bytes, row_bytes. cbn [fst snd map concat row_spans]. rewrite <- !app_assoc, scan_plain by done.
    change ([newline] ++ ?x) with (newline :: x). cbn [scan_bytes].
    change (is_FF newline) with false. change (Ascii.eqb newline newline) with true. cbn match.
    specialize (IH (S (i + length l))). unfold page_bytes, row_bytes in IH. cbn [fst snd] in IH.
    rewrite <- app_assoc in IH. rewrite IH.
    replace (i + length l + 1)%nat with (S (i + length l)) by lia.
    repeat (rewrite length_app || cbn [length]). f_equal; [f_equal; lia|].
    destruct (Nat.eqb n 0); [done|]. f_equal. lia.
Qed.
Definition page_polluted (size : nat) (p : Page) : bool :=
  (length (page_bytes p) <? size)%nat && negb (Nat.eqb (length (snd p)) 0).
Definition page_free (size : nat) (p : Page) : option nat :=
  if (length (page_bytes p) <? size)%nat then Some (length (page_bytes p)) else None.
Lemma scan_page_fill size p page :
  Forall plain (fst p) -> plain (snd p) -> (length (page_bytes p) <= size)%nat ->
  scan_page (fill size p) page = Ok (mk_scan (row_spans 0 (fst p)) (page_polluted size p) (page_free size p)).
Proof.
  destruct p as [rows torn]. cbn [fst snd]. intros Hr Ht Hle. unfold scan_page, fill.
  rewrite scan_rows by done. unfold page_polluted, page_free. cbn [snd].
  destruct (Nat.ltb_spec (length (page_bytes (rows, torn))) size) as [Hlt|Hge].
  - destruct (Nat.eqb_spec (size - length (page_bytes (rows, torn))) 0); [lia|].
    rewrite Nat.add_0_l, drop_app_length, all_FF. cbn [negb andb]. do 2 f_equal.
    unfold page_bytes. cbn [fst snd]. rewrite length_app.
    destruct (Nat.eqb_spec (length torn) 0); destruct (Nat.ltb_spec (0 + length (row_bytes rows)) (length (row_bytes rows) + length torn)); try done; lia.
  - by rewrite (proj2 (Nat.eqb_eq _ 0)) by lia.
Qed.

(** * The ring *)

(** Pages in use, then empty ones. *)
Definition ring_data (size count : nat) (pgs : list Page) : Bytes :=
  concat (map (fill size) pgs) ++ replicate (size * (count - length pgs)) FF.
Definition fits (size : nat) (p : Page) : Prop := (0 < length (page_bytes p) <= size)%nat.

Lemma fill_length size p : fits size p -> length (fill size p) = size.
Proof. unfold fits, fill. rewrite length_app, length_replicate. lia. Qed.
Lemma fills_length size pgs : Forall (fits size) pgs -> length (concat (map (fill size) pgs)) = (length pgs * size)%nat.
Proof.
  induction 1 as [|p pgs Hp _ IH]; [done|]. cbn. by rewrite length_app, IH, fill_length.
Qed.
Lemma ring_length size count pgs :
  Forall (fits size) pgs -> (length pgs <= count)%nat -> length (ring_data size count pgs) = (count * size)%nat.
Proof.
  intros Hp Hc. unfold ring_data. rewrite length_app, fills_length, length_replicate by done. nia.
Qed.
Lemma fills_split size pgs i p :
  pgs !! i = Some p -> Forall (fits size) pgs ->
  exists before after, concat (map (fill size) pgs) = before ++ fill size p ++ after /\ length before = (i * size)%nat.
Proof.
  intros Hi Hp. exists (concat (map (fill size) (take i pgs))), (concat (map (fill size) (drop (S i) pgs))). split.
  - rewrite <- (take_drop_middle pgs i p Hi) at 1. by rewrite map_app, concat_app.
  - rewrite fills_length by by apply Forall_take. rewrite length_take_le; [done|].
    apply lookup_lt_Some in Hi. lia.
Qed.
Lemma slice_middle {A} (a b c : list A) n : length a = n -> slice n (length b) (a ++ b ++ c) = b.
Proof. intros <-. unfold slice. by rewrite drop_app_length, take_app_length. Qed.
Lemma slice_replicate {A} (x : A) i k n : (i + k <= n)%nat -> slice i k (replicate n x) = replicate k x.
Proof.
  intros Hle. unfold slice. rewrite drop_replicate, take_replicate. f_equal. lia.
Qed.
Lemma slice_past {A} (a b : list A) i k : (length a <= i)%nat -> slice i k (a ++ b) = slice (i - length a) k b.
Proof. intros Hle. unfold slice. by rewrite drop_app_ge. Qed.

Section Ring.
Context (size count : nat) (Hsize : (0 < size)%nat).
Implicit Types (m : RamFlashMedium) (pgs : list Page).

(** A medium whose content is a ring. *)
Definition ring m pgs : Prop :=
  flash_page_size m = size /\ flash_data m = ring_data size count pgs /\
  Forall (fits size) pgs /\ (length pgs <= count)%nat.
Lemma ring_read_page m pgs i p :
  ring m pgs -> pgs !! i = Some p -> ram_read m (i * size) size = Ok (fill size p).
Proof.
  intros (_ & Hd & Hp & Hc) Hi. unfold ram_read. rewrite Hd, ring_length by done.
  apply lookup_lt_Some in Hi as Hlt.
  destruct (Nat.ltb_spec (count * size) (i * size + size)); [nia|]. f_equal.
  destruct (fills_split size pgs i p Hi Hp) as (a & c & Hac & Ha). unfold ring_data. rewrite Hac, <- !app_assoc.
  assert (fits size p) as Hf by (by eapply Forall_lookup_1).
  pose proof (slice_middle a (fill size p) (c ++ replicate (size * (count - length pgs)) FF) _ Ha) as Hsl.
  by rewrite fill_length in Hsl.
Qed.
Lemma ring_read_empty m pgs i k :
  ring m pgs -> (length pgs <= i < count)%nat -> (k <= size)%nat ->
  ram_read m (i * size) k = Ok (replicate k FF).
Proof.
  intros (_ & Hd & Hp & Hc) Hi Hk. unfold ram_read. rewrite Hd, ring_length by done.
  destruct (Nat.ltb_spec (count * size) (i * size + k)); [nia|]. f_equal.
  unfold ring_data. rewrite slice_past by (rewrite fills_length by done; nia).
  rewrite fills_length by done. apply slice_replicate. nia.
Qed.
Lemma ring_page_count m pgs : ring m pgs -> length (flash_data m) / flash_page_size m = count.
Proof. intros (Hs & Hd & Hp & Hc). rewrite Hd, ring_length, Hs by done. by apply Nat.div_mul; lia. Qed.
Lemma fill_not_empty p : fits size p -> plain (snd p) -> Forall plain (fst p) -> forallb is_FF (fill size p) = false.
Proof.
  destruct p as [rows torn]. unfold fits, fill, page_bytes. cbn [fst snd]. intros Hf Ht Hr.
  destruct rows as [|l rows].
  - destruct torn as [|b torn]; [cbn in Hf; lia|]. inv Ht as [|? ? [_ Hb] _].
    apply (some_not_FF [] b _ Hb).
  - unfold row_bytes. cbn [map concat]. rewrite <- !app_assoc. apply (some_not_FF l newline). done.
Qed.
End Ring.

(** * Recovery *)

Section Recovery.
Context {N : Type} `{SerdeNumber N, SerdeText N}.
Context (size count : nat) (Hsize : (0 < size)%nat).
Implicit Types (m : RamFlashMedium) (pgs : list Page) (r : Recovered).

Definition row_hash (l : Bytes) : string := default "" (result_ok (line_chain_hash (N := N) (string_of l) 0)).
(** A row recovery accepts. *)
Definition row_ok (l : Bytes) : Prop :=
  plain l /\ utf8_valid l = true /\ forall page, line_chain_hash (N := N) (string_of l) page = Ok (row_hash l).
Definition page_ok (p : Page) : Prop := Forall row_ok (fst p) /\ plain (snd p) /\ fits size p.
Lemma page_ok_fits pgs : Forall page_ok pgs -> Forall (fits size) pgs.
Proof. intros Hp. eapply List.Forall_impl; [|exact Hp]. by intros p (_ & _ & ?). Qed.
Lemma rows_plain p : page_ok p -> Forall plain (fst p).
Proof. intros (Hr & _). eapply List.Forall_impl; [|exact Hr]. by intros l []. Qed.

(** What recovery has after another page. *)
Definition last_hash (tail : string) (rows : list Bytes) : string :=
  match last rows with Some l => row_hash l | None => tail end.
Definition add_rows r (base i : nat) (rows : list Bytes) : Recovered :=
  mk_recovered (rc_lines r ++ map string_of rows)
    (rc_offsets r ++ map (fun span => (base + fst span)%nat) (row_spans i rows))
    (last_hash (rc_tail r) rows) (rc_active r) (rc_write r) (rc_polluted r) (rc_saw_empty r).
Definition add_page r (i : nat) (p : Page) : Recovered :=
  let r' := add_rows r (i * size) 0 (fst p) in
  mk_recovered (rc_lines r') (rc_offsets r') (rc_tail r') i (length (page_bytes p))
    (page_polluted size p) (rc_saw_empty r').
Fixpoint add_pages r (i : nat) pgs : Recovered :=
  match pgs with
  | [] => r
  | p :: pgs => add_pages (add_page r i p) (S i) pgs
  end.
Lemma add_pages_app r i p1 p2 : add_pages r i (p1 ++ p2) = add_pages (add_pages r i p1) (i + length p1) p2.
Proof.
  revert r i. induction p1 as [|p p1 IH]; intros r i; cbn; [by rewrite Nat.add_0_r|].
  rewrite IH. f_equal. lia.
Qed.

Lemma take_rows_spans page base pre rows rest r :
  Forall row_ok rows ->
  take_rows (N := N) page base (pre ++ row_bytes rows ++ rest) r (row_spans (length pre) rows) =
  Ok (add_rows r base (length pre) rows).
Proof.
  intros Hr. revert pre r. induction Hr as [|l rows (Hp & Hu & Hh) _ IH]; intros pre r; cbn [row_spans take_rows].
  { unfold add_rows. cbn. rewrite !app_nil_r. by destruct r. }
  unfold row_bytes. cbn [map concat]. rewrite <- !app_assoc.
  replace (length pre + length l - length pre)%nat with (length l) by lia.
  rewrite slice_middle by done. rewrite Hu. cbn [negb]. rewrite Hh.
  specialize (IH (pre ++ l ++ [newline])). rewrite !length_app in IH. cbn [length] in IH.
  rewrite <- !app_assoc in IH. unfold row_bytes in IH. rewrite Nat.add_assoc in IH. rewrite IH. f_equal.
  unfold add_rows. cbn [rc_lines rc_offsets rc_tail rc_active rc_write rc_polluted rc_saw_empty row_spans map].
  rewrite <- !app_assoc. f_equal. unfold last_hash. destruct rows as [|l2 rows]; [done|].
  rewrite !last_cons. by destruct (last rows).
Qed.
Lemma open_page_used m pgs i p r :
  ring size count m pgs -> pgs !! i = Some p -> page_ok p -> rc_saw_empty r = false ->
  open_page (N := N) m r i = Ok (add_page r i p).
Proof.
  intros Hm Hi Hok Hs. pose proof Hok as (Hrows & Ht & Hf). unfold open_page. cbn [page_size flash_read ram_flash].
  pose proof (proj1 Hm) as ->. rewrite (ring_read_page size count) with (pgs := pgs) (p := p) by done.
  rewrite fill_not_empty by (done || by apply rows_plain). rewrite Hs.
  rewrite scan_page_fill by (done || (by apply rows_plain) || by apply Hf). cbn [sc_rows sc_first_free sc_polluted].
  pose proof (take_rows_spans i (i * size) [] (fst p) (snd p ++ replicate (size - length (page_bytes p)) FF) r Hrows) as Htake.
  unfold fill at 1. unfold page_bytes at 1. rewrite <- app_assoc. cbn [app length] in Htake. rewrite Htake.
  unfold add_page, page_free. do 2 f_equal. unfold fits in Hf.
  destruct (Nat.ltb_spec (length (page_bytes p)) size); cbn; [done|lia].
Qed.
Lemma open_pages_used m pgs i rest r :
  ring size count m (pgs ++ rest) -> i = length pgs -> Forall page_ok rest -> rc_saw_empty r = false ->
  open_pages (N := N) m r (seq i (length rest)) = Ok (add_pages r i rest) /\
  rc_saw_empty (add_pages r i rest) = false.
Proof.
  intros Hm Hi Hok. revert pgs i r Hm Hi. induction Hok as [|p rest Hp _ IH]; intros pgs i r Hm Hi Hs; [done|].
  cbn [length seq open_pages add_pages]. rewrite (open_page_used m (pgs ++ p :: rest) i p r); try done.
  - apply (IH (pgs ++ [p])); [by rewrite <- app_assoc|rewrite length_app; cbn; lia|done].
  - subst. by apply list_lookup_middle.
Qed.
Lemma open_pages_empty m pgs i n r :
  ring size count m pgs -> (length pgs <= i)%nat -> (i + n <= count)%nat ->
  exists saw, open_pages (N := N) m r (seq i n) =
    Ok (mk_recovered (rc_lines r) (rc_offsets r) (rc_tail r) (rc_active r) (rc_write r) (rc_polluted r) saw).
Proof.
  intros Hm. revert i r. induction n as [|n IH]; intros i r Hi Hn; cbn [seq open_pages].
  { exists (rc_saw_empty r). by destruct r. }
  unfold open_page. cbn [page_size flash_read ram_flash]. pose proof (proj1 Hm) as ->.
  rewrite (ring_read_empty size count) with (pgs := pgs) by (done || lia). rewrite all_FF.
  match goal with |- context [open_pages m ?r' (seq (S i) n)] =>
    destruct (IH (S i) r') as [saw Hs]; [lia..|] end.
  exists saw. by rewrite Hs.
Qed.

(** The store recovery builds. *)
Definition store_of m pgs : FlashWalStore RamFlashMedium :=
  let r := add_pages recovered_none 0 pgs in
  mk_flash_store m (rc_lines r) (rc_offsets r) (rc_tail r) (rc_active r) (rc_write r) (rc_polluted r) size.
Lemma open_ring m pgs :
  ring size count m pgs -> Forall page_ok pgs -> flash_open (N := N) m = Ok (store_of m pgs).
Proof.
  intros Hm Hok. unfold flash_open. cbn [page_count page_size ram_flash]. rewrite (ring_page_count size count) with (pgs := pgs) by done.
  pose proof Hm as (Hs & _ & _ & Hc).
  replace count with (length pgs + (count - length pgs))%nat by lia.
  rewrite seq_app.
  destruct (open_pages_used m [] 0 pgs recovered_none) as [Hused Hsaw]; [done..|].
  assert (forall l1 l2 r, open_pages (N := N) m r (l1 ++ l2) =
    let? r := open_pages (N := N) m r l1 in open_pages (N := N) m r l2) as Happ.
  { intros l1. induction l1 as [|x l1 IH]; intros l2 r; cbn; [done|]. destruct (open_page m r x); [apply IH|done]. }
  rewrite Happ, Hused.
  destruct (open_pages_empty m pgs (0 + length pgs) (count - length pgs) (add_pages recovered_none 0 pgs))
    as [saw ->]; [done|lia..|]. by rewrite Hs.
Qed.
End Recovery.

(** * Writing *)

(** Programming free bytes writes them as they are. *)
Lemma no_violation i n rest bytes : (length bytes <= n)%nat -> first_violation i (replicate n FF ++ rest) bytes = None.
Proof.
  revert i n. induction bytes as [|b bytes IH]; intros i [|n]; cbn [length]; intros Hl; try done; [by destruct rest|lia|].
  cbn [replicate app first_violation]. rewrite byte_and_FF, Ascii.eqb_refl. apply IH. lia.
Qed.
Lemma and_free n rest bytes :
  (length bytes <= n)%nat -> zip_with byte_and (replicate n FF ++ rest) bytes = bytes.
Proof.
  revert n. induction bytes as [|b bytes IH]; intros [|n]; cbn [length]; intros Hl; try done; [by destruct rest|lia|].
  cbn [replicate app zip_with]. rewrite byte_and_FF, IH; [done|lia].
Qed.
Lemma program_free m pre n post bytes :
  flash_data m = pre ++ replicate n FF ++ post -> (length bytes <= n)%nat ->
  ram_program m (length pre) bytes =
  (mk_ram_flash (pre ++ bytes ++ replicate (n - length bytes) FF ++ post) (flash_page_size m), Ok tt).
Proof.
  intros Hd Hl. unfold ram_program. rewrite Hd, !length_app, length_replicate.
  destruct (Nat.ltb_spec (length pre + (n + length post)) (length pre + length bytes)); [lia|].
  rewrite drop_app_length, no_violation, and_free, take_app_length by done.
  rewrite drop_app_add, drop_app_le by (rewrite length_replicate; lia). by rewrite drop_replicate.
Qed.

Section Writing.
Context {N : Type} `{SerdeNumber N, SerdeText N}.
Context (size count : nat) (Hsize : (0 < size)%nat) (Hbound : (Z.of_nat count * Z.of_nat size <= u64_max)%Z).
Implicit Types (m : RamFlashMedium) (pgs init : list Page) (p : Page).
#[local] Abbreviation store_of := (store_of (N := N) size).
#[local] Abbreviation ring := (ring size count).
#[local] Abbreviation page_ok := (page_ok (N := N) size).

(** Where the next bytes go: a new page after those in use, or the last page
    when nothing was torn there. *)
Definition place pgs init p : Prop :=
  (init = pgs /\ p = ([], [])) \/ (pgs = init ++ [p] /\ snd p = []).
Definition room init p (len : nat) : Prop := (length init < count /\ length (page_bytes p) + len <= size)%nat.
Definition offset_of init p : nat := (length init * size + length (page_bytes p))%nat.
Lemma place_data m pgs init p :
  ring m pgs -> place pgs init p -> (length init < count)%nat ->
  Forall (fits size) init /\
  flash_data m = (concat (map (fill size) init) ++ page_bytes p) ++
    replicate (size - length (page_bytes p)) FF ++ replicate (size * (count - Datatypes.S (length init))) FF.
Proof.
  intros (_ & Hd & Hf & Hc) [[-> ->]|[-> _]] Hlt; rewrite Hd; unfold ring_data.
  - split; [done|]. cbn [page_bytes fst snd row_bytes map concat app length]. rewrite app_nil_r, <- replicate_add.
    do 2 f_equal. nia.
  - apply Forall_app in Hf as [Hf _]. split; [done|]. rewrite map_app, concat_app, length_app. cbn.
    rewrite app_nil_r. unfold fill at 2. rewrite <- !app_assoc. do 5 f_equal. lia.
Qed.
Lemma program_place m pgs init p bytes p' :
  ring m pgs -> place pgs init p -> room init p (length bytes) -> (0 < length bytes)%nat ->
  page_bytes p' = page_bytes p ++ bytes ->
  exists m', ram_program m (offset_of init p) bytes = (m', Ok tt) /\ ring m' (init ++ [p']).
Proof.
  intros Hm Hpl [Hc Hroom] Hpos Hp'. destruct (place_data m pgs init p Hm Hpl Hc) as [Hf Hd].
  eexists. split.
  - unfold offset_of. rewrite <- (fills_length size init Hf), <- length_app.
    apply (program_free m _ _ _ _ Hd). lia.
  - split_and!; cbn [flash_page_size flash_data].
    + apply Hm.
    + unfold ring_data. rewrite map_app, concat_app, length_app. cbn. rewrite app_nil_r.
      unfold fill at 3. rewrite Hp', length_app, <- !app_assoc. do 4 f_equal; [f_equal; lia|f_equal; lia].
    + apply Forall_app. split; [done|]. constructor; [|done]. unfold fits. rewrite Hp', length_app. lia.
    + rewrite length_app. cbn. lia.
Qed.

(** An empty page stays as it is when it is erased. *)
Lemma erase_empty m pgs i :
  ring m pgs -> (length pgs <= i < count)%nat -> ram_erase m i = (m, Ok tt).
Proof.
  intros Hm Hi. pose proof (ring_read_empty size count) as Hread. specialize (Hread Hsize m pgs i size Hm Hi ltac:(lia)).
  pose proof Hm as (Hs & Hd & Hf & Hc). unfold ram_erase, ram_read in *. rewrite Hs.
  assert (length (flash_data m) = count * size)%nat as Hlen by (rewrite Hd; by apply ring_length).
  rewrite Hlen in *. destruct (Nat.ltb_spec (count * size) (i * size + size)); [nia|].
  destruct (Z.ltb_spec u64_max (Z.of_nat i * Z.of_nat size)); [nia|].
  injection Hread as Hread. rewrite <- Hread. unfold slice.
  rewrite <- drop_drop, take_drop, take_drop. by destruct m as [d ps]; cbn in *; subst.
Qed.

(** The cursor of a store. *)
Lemma store_cursor m pgs init p :
  pgs = init ++ [p] ->
  fw_active_page (store_of m pgs) = length init /\ fw_write_offset (store_of m pgs) = length (page_bytes p) /\
  fw_polluted (store_of m pgs) = page_polluted size p.
Proof. intros ->. unfold store_of. by rewrite add_pages_app. Qed.
(** A page is found, or the ring is full and the store as it was. *)
Lemma find_place m pgs len :
  ring m pgs -> (0 < count)%nat -> (0 < len <= size)%nat ->
  let s := store_of m pgs in
  let '(s', r) := if need_new_page s len then change_page s else (s, Ok tt) in
  match r with
  | Err e => s' = s /\ e = WalFull
  | Ok _ =>
      exists init p, place pgs init p /\ room init p len /\
        s' = set_cursor s m (length init) (length (page_bytes p)) false
  end.
Proof.
  intros Hm Hcount Hlen s. pose proof Hm as (Hps & _ & Hf & Hc).
  destruct (decide (pgs = [])) as [Hnil|Hne]; [|destruct (exists_last Hne) as (init & p & Heq)].
  - subst pgs. assert (need_new_page s len = false) as ->.
    { change ((false || (size <=? 0)%nat || (size - 0 <? len)%nat) = false). cbn [orb].
      apply orb_false_iff. split; [apply Nat.leb_gt|apply Nat.ltb_ge]; lia. }
    exists [], ([], []). split; [by left|]. split; [split; cbn; lia|done].
  - destruct (store_cursor m pgs init p Heq) as (Ha & Hw & Hp). fold s in Ha, Hw, Hp.
    assert (length pgs = Datatypes.S (length init)) as Hn by (subst pgs; rewrite length_app; cbn; lia).
    destruct (need_new_page s len) eqn:Hneed.
    + unfold change_page. rewrite Ha. cbn [page_count erase_page flash_read ram_flash].
      change (fw_medium s) with m. change (fw_page_size s) with size.
      rewrite (ring_page_count size count) with (pgs := pgs) by done.
      destruct (Nat.leb_spec count (Datatypes.S (length init))); [done|].
      pose proof (ring_read_empty size count) as Hread.
      rewrite (Hread Hsize m pgs (Datatypes.S (length init)) 1 Hm) by lia. cbn [replicate forallb is_FF andb negb].
      change (is_FF FF) with true. cbn [andb negb].
      rewrite (erase_empty m pgs) by (done || lia).
      exists pgs, ([], []). split; [by left|]. split; [split; cbn; lia|]. by rewrite Hn.
    + unfold need_new_page in Hneed. apply orb_false_iff in Hneed as [Hneed Hroom].
      apply orb_false_iff in Hneed as [Hpol Hfull]. rewrite Hp in Hpol. rewrite Hw in Hfull, Hroom.
      change (fw_page_size s) with size in *. apply Nat.leb_gt in Hfull. apply Nat.ltb_ge in Hroom.
      exists init, p. split; [right; split; [done|]|].
      * unfold page_polluted in Hpol. rewrite (proj2 (Nat.ltb_lt _ _) Hfull) in Hpol. cbn in Hpol.
        destruct (snd p); [done|]. by cbn in Hpol.
      * split; [split; lia|]. unfold set_cursor. rewrite <- Ha, <- Hw.
        replace false with (fw_polluted s); [reflexivity|]. rewrite Hp. exact Hpol.
Qed.

(** A page with another row or a torn end. *)
Definition with_row p (l : Bytes) : Page := (fst p ++ [l], []).
Definition with_torn p (t : Bytes) : Page := (fst p, t).
Lemma with_row_bytes p l : snd p = [] -> page_bytes (with_row p l) = page_bytes p ++ l ++ [newline].
Proof.
  intros Hp. unfold page_bytes, with_row. cbn [fst snd]. rewrite Hp, row_bytes_app, !app_nil_r. f_equal.
  unfold row_bytes. cbn. by rewrite app_nil_r.
Qed.
Lemma with_torn_bytes p t : snd p = [] -> page_bytes (with_torn p t) = page_bytes p ++ t.
Proof. intros Hp. unfold page_bytes, with_torn. cbn [fst snd]. by rewrite Hp, app_nil_r. Qed.
Lemma place_torn pgs init p : place pgs init p -> snd p = [].
Proof. by intros [[_ ->]|[_ ?]]. Qed.
Lemma place_rows pgs init p q :
  place pgs init p -> concat (map fst (init ++ [with_torn p q])) = concat (map fst pgs).
Proof.
  intros [[-> ->]|[-> _]]; rewrite map_app, concat_app; cbn; rewrite ?app_nil_r; [done|].
  by rewrite map_app, concat_app; cbn; rewrite app_nil_r.
Qed.
Lemma place_ok pgs init p :
  place pgs init p -> Forall page_ok pgs -> Forall page_ok init /\ Forall (row_ok (N := N)) (fst p).
Proof.
  intros [[-> ->]|[-> _]]; [done|]. intros [Hi Hp]%Forall_app. split; [done|]. by inv Hp as [|? ? (? & _)].
Qed.

(** The store that has written a row. *)
Lemma store_with_row m m' pgs init p l :
  place pgs init p ->
  store_of m' (init ++ [with_row p l]) =
  mk_flash_store m' (fw_lines (store_of m pgs) ++ [string_of l])
    (fw_line_offsets (store_of m pgs) ++ [offset_of init p]) (row_hash (N := N) l) (length init)
    (length (page_bytes p) + length (l ++ [newline])) false size.
Proof.
  intros Hpl. pose proof (place_torn _ _ _ Hpl) as Ht. unfold McuFlashSpec.store_of. rewrite add_pages_app by done.
  cbn [add_pages]. unfold add_page. cbn [rc_lines rc_offsets rc_tail rc_active rc_write rc_polluted].
  rewrite with_row_bytes, !length_app by done.
  assert (page_polluted size (with_row p l) = false) as -> by (unfold page_polluted; cbn; by rewrite andb_false_r).
  unfold add_rows, with_row, last_hash. cbn [fst rc_lines rc_offsets rc_tail]. rewrite last_snoc.
  rewrite !map_app, row_spans_app, map_app, !app_assoc. cbn [map row_spans fst].
  destruct Hpl as [[-> ->]|[-> _]].
  - cbn [fst row_spans map row_bytes concat length page_bytes snd app]. rewrite !app_nil_r. unfold offset_of.
    cbn. done.
  - rewrite add_pages_app by done. cbn [add_pages]. unfold add_page, add_rows, offset_of, page_bytes.
    cbn [rc_lines rc_offsets fw_lines fw_line_offsets]. rewrite Ht, app_nil_r. done.
Qed.

Lemma append_place m pgs l chain :
  ring m pgs -> Forall page_ok pgs -> (0 < count)%nat -> (length l + 1 <= size)%nat ->
  row_ok (N := N) l -> row_hash (N := N) l = chain ->
  let s := store_of m pgs in
  let '(s1, r1) := if need_new_page s (length (l ++ [newline])) then change_page s else (s, Ok tt) in
  match r1 with
  | Err e => s1 = s /\ e = WalFull
  | Ok _ =>
      exists m' init p, place pgs init p /\ ring m' (init ++ [with_row p l]) /\
        Forall page_ok (init ++ [with_row p l]) /\
        write_line s1 (string_of l) chain (l ++ [newline]) = (store_of m' (init ++ [with_row p l]), Ok tt)
  end.
Proof.
  intros Hm Hok Hcount Hlen Hl Hh s.
  pose proof (find_place m pgs (length (l ++ [newline])) Hm Hcount ltac:(rewrite length_app; cbn; lia)) as Hfind.
  cbv zeta in Hfind. change (McuFlashSpec.store_of size m pgs) with s in Hfind. destruct (if need_new_page s _ then _ else _) as [s1 [[]|e]]; [|done].
  destruct Hfind as (init & p & Hpl & Hroom & ->).
  pose proof (place_torn _ _ _ Hpl) as Ht. destruct (place_ok _ _ _ Hpl Hok) as [Hi Hp].
  destruct (program_place m pgs init p (l ++ [newline]) (with_row p l) Hm Hpl Hroom) as (m' & Hprog & Hring);
    [rewrite length_app; cbn; lia|by rewrite with_row_bytes|].
  exists m', init, p. split_and!; [done..| |].
  - apply Forall_app. split; [done|]. constructor; [|done]. split_and!; cbn [fst snd with_row].
    + apply Forall_app. split; [done|]. by constructor.
    + constructor.
    + destruct Hring as (_ & _ & Hf & _). apply Forall_app in Hf as [_ Hf]. by inv Hf.
  - unfold write_line, set_cursor. cbn [flash_program ram_flash fw_medium fw_active_page fw_write_offset fw_page_size fw_polluted fw_lines fw_line_offsets].
    change (fw_medium s) with m. change (fw_page_size s) with size. change (length init * size + length (page_bytes p))%nat with (offset_of init p).
    rewrite Hprog. f_equal. symmetry. rewrite <- Hh. by apply store_with_row.
Qed.

(** The lines and the last hash of a store. *)
Definition rows_of pgs : list Bytes := concat (map fst pgs).
Lemma add_pages_lines r i pgs :
  rc_lines (add_pages (N := N) size r i pgs) = rc_lines r ++ map string_of (rows_of pgs) /\
  rc_tail (add_pages (N := N) size r i pgs) = last_hash (N := N) (rc_tail r) (rows_of pgs).
Proof.
  revert r i. induction pgs as [|p pgs IH]; intros r i; unfold rows_of; cbn [add_pages map concat].
  - by rewrite app_nil_r.
  - destruct (IH (add_page (N := N) size r i p) (Datatypes.S i)) as [-> ->]. cbn [rc_lines rc_tail add_page add_rows].
    rewrite map_app, <- app_assoc. split; [done|]. unfold last_hash. rewrite last_app.
    unfold rows_of. by destruct (last (concat (map fst pgs))).
Qed.
Lemma store_lines m pgs :
  fw_lines (store_of m pgs) = map string_of (rows_of pgs) /\
  fw_tail_hash (store_of m pgs) = last_hash (N := N) "genesis" (rows_of pgs).
Proof. apply (add_pages_lines recovered_none 0 pgs). Qed.

(** The medium after the power is lost with [k] bytes of a write programmed. *)
Definition power_loss (s : FlashWalStore RamFlashMedium) (bytes : Bytes) (k : nat) : RamFlashMedium :=
  let '(s, r) := if need_new_page s (length bytes) then change_page s else (s, Ok tt) in
  match r with
  | Err _ => fw_medium s
  | Ok _ => fst (flash_program (fw_medium s) (fw_active_page s * fw_page_size s + fw_write_offset s) (take k bytes))
  end.
Lemma power_loss_ring m pgs l k :
  ring m pgs -> Forall page_ok pgs -> (0 < count)%nat -> (length l + 1 <= size)%nat -> plain l ->
  (k <= length l)%nat ->
  exists pgs', ring (power_loss (store_of m pgs) (l ++ [newline]) k) pgs' /\ Forall page_ok pgs' /\
    rows_of pgs' = rows_of pgs.
Proof.
  intros Hm Hok Hcount Hlen Hl Hk. unfold power_loss.
  pose proof (find_place m pgs (length (l ++ [newline])) Hm Hcount ltac:(rewrite length_app; cbn; lia)) as Hfind.
  cbv zeta in Hfind. destruct (if need_new_page _ _ then _ else _) as [s1 [[]|e]].
  2:{ destruct Hfind as [-> _]. by exists pgs. }
  destruct Hfind as (init & p & Hpl & [Hc Hroom] & ->). rewrite length_app in Hroom. cbn [length] in Hroom.
  cbn [set_cursor fw_medium fw_active_page fw_page_size fw_write_offset flash_program ram_flash McuFlashSpec.store_of].
  change (length init * size + length (page_bytes p))%nat with (offset_of init p).
  rewrite take_app_le by done. pose proof (place_torn _ _ _ Hpl) as Ht. destruct (place_ok _ _ _ Hpl Hok) as [Hi Hp].
  destruct (decide (k = 0)%nat) as [->|Hk0].
  - exists pgs. rewrite take_0. split_and!; [|done..].
    destruct (place_data m pgs init p Hm Hpl Hc) as [Hf Hd]. unfold offset_of.
    rewrite <- (fills_length size init Hf), <- length_app. pose proof (program_free m _ _ _ [] Hd) as Hprog.
    rewrite Hprog by (cbn; lia). cbn [fst length app]. rewrite Nat.sub_0_r, <- Hd. by destruct m.
  - assert (length (take k l) = k) as Htk by (rewrite length_take; lia).
    destruct (program_place m pgs init p (take k l) (with_torn p (take k l)) Hm Hpl) as (m' & Hprog & Hring);
      [split; lia|lia|by apply with_torn_bytes|].
    exists (init ++ [with_torn p (take k l)]). rewrite Hprog. split_and!; [done| |by apply place_rows].
    apply Forall_app. split; [done|]. constructor; [|done]. split_and!; cbn [fst snd with_torn]; [done| |].
    + by apply Forall_take.
    + destruct Hring as (_ & _ & Hfit & _). apply Forall_app in Hfit as [_ Hfit]. by inv Hfit.
Qed.
End Writing.

(** * Lines *)

Section Lines.
Context {N : Type} `{SerdeNumberLaws N, SerdeText N, !SerdeTextLaws N, !SerdeUtf8 N}.

(** A record whose line can be read back: the fact nests below the recursion
    limit of the parser. *)
Definition record_line_of (version_before : Z) (fact : Fact) (content prev chain line : string) : Prop :=
  wal_line_json (N := N) version_before fact content prev chain = Ok line /\
  wf_fact fact = true /\ is_u64 version_before = true /\ readable_fact (N := N) fact = true.
Lemma line_row version fact content prev chain line :
  record_line_of version fact content prev chain line ->
  row_ok (N := N) (bytes_of line) /\ row_hash (N := N) (bytes_of line) = chain.
Proof.
  intros (Hl & Hf & Hv & Hr). rewrite line_as_native in Hl.
  destruct (serde_to_string _) as [text|] eqn:Hs; [|done]. injection Hl as ->.
  assert (serde_from_str (N := N) line = Ok (record_with_hash_json version fact content prev chain)) as Hread.
  { change (record_with_hash_json version fact content prev chain) with
      (entry_json (N := N) (mk_entry version fact content prev chain)) in *.
    apply from_to_string; [|by rewrite entry_json_shallow|done].
    apply entry_json_wf. unfold wf_entry. cbn. by rewrite Hv. }
  assert (forall page, line_chain_hash (N := N) line page = Ok chain) as Hh.
  { intros page. unfold line_chain_hash. rewrite Hread. unfold record_with_hash_json. by rewrite s_get_object. }
  split; [split_and!|].
  - apply to_string_utf8 in Hs as Hu. apply utf8_not_FF in Hu. apply to_string_no_control in Hs as Hp.
    clear -Hu Hp. unfold plain. induction line as [|c line IH]; [constructor|].
    cbn [bytes_of list_ascii_of_string str_all] in *. apply andb_true_iff in Hp as [Hc Hp]. inv Hu as [|? ? Hf Hu'].
    constructor; [|by apply IH]. split; [|done]. by intros ->.
  - by eapply to_string_utf8.
  - intros page. rewrite string_of_bytes_of, Hh. unfold row_hash. by rewrite string_of_bytes_of, Hh.
  - unfold row_hash. by rewrite string_of_bytes_of, Hh.
Qed.
End Lines.

(** * The life of a flash log *)

Section Life.
Context {N : Type} `{SerdeNumberLaws N, SerdeText N, !SerdeTextLaws N, !SerdeUtf8 N}.
Context (size count : nat).

(** What can happen to a log on a formatted medium, with the lines that were
    promised to be there and the last chain hash: appends that succeed or are
    refused, restarts, and losses of power within the write of a line. *)
Inductive flash_life : FlashWalStore RamFlashMedium -> list string -> string -> Prop :=
| life_format m s :
    ram_flash_new size count = Some m -> flash_open (N := N) m = Ok s -> flash_life s [] "genesis"
| life_append s lines tail version fact content prev chain line s' :
    flash_life s lines tail -> record_line_of (N := N) version fact content prev chain line ->
    flash_append (N := N) s version fact content prev chain = (s', Ok tt) ->
    flash_life s' (lines ++ [line]) chain
| life_refused s lines tail version fact content prev chain line e s' :
    flash_life s lines tail -> record_line_of (N := N) version fact content prev chain line ->
    flash_append (N := N) s version fact content prev chain = (s', Err e) ->
    flash_life s' lines tail
| life_power_loss s lines tail version fact content prev chain line k s' :
    flash_life s lines tail -> record_line_of (N := N) version fact content prev chain line ->
    (String.length line < size)%nat -> (k <= String.length line)%nat ->
    flash_open (N := N) (power_loss s (bytes_of line ++ [newline]) k) = Ok s' ->
    flash_life s' lines tail
| life_restart s lines tail s' :
    flash_life s lines tail -> flash_open (N := N) (fw_medium s) = Ok s' -> flash_life s' lines tail.

Context (Hsize : (0 < size)%nat) (Hcount : (0 < count)%nat).
Context (Hbound : (Z.of_nat count * Z.of_nat size <= u64_max)%Z).
Definition sound (s : FlashWalStore RamFlashMedium) (lines : list string) (tail : string) : Prop :=
  exists pgs, s = store_of (N := N) size (fw_medium s) pgs /\ ring size count (fw_medium s) pgs /\
    Forall (page_ok (N := N) size) pgs /\ lines = map string_of (rows_of pgs) /\
    tail = last_hash (N := N) "genesis" (rows_of pgs).
Lemma open_sound m pgs :
  ring size count m pgs -> Forall (page_ok (N := N) size) pgs ->
  exists s, flash_open (N := N) m = Ok s /\
    sound s (map string_of (rows_of pgs)) (last_hash (N := N) "genesis" (rows_of pgs)) /\ fw_medium s = m.
Proof.
  intros Hm Hok. exists (store_of (N := N) size m pgs). split; [by apply open_ring with (count := count)|].
  split; [|done]. by exists pgs.
Qed.
Lemma bytes_length line : length (bytes_of line) = String.length line.
Proof. induction line as [|c line IH]; [done|]. cbn. by rewrite <- IH. Qed.
Lemma format_sound m : ram_flash_new size count = Some m -> ring size count m [].
Proof.
  unfold ram_flash_new. destruct (Nat.eqb_spec size 0); [lia|]. intros [= <-].
  split_and!; cbn; [done| |done|lia]. unfold ring_data. cbn. by rewrite Nat.sub_0_r.
Qed.
Lemma rows_of_row pgs init p l :
  place pgs init p -> rows_of (init ++ [with_row p l]) = rows_of pgs ++ [l].
Proof.
  unfold rows_of. intros [[-> ->]|[-> _]]; rewrite map_app, concat_app; cbn; rewrite ?app_nil_r; [done|].
  by rewrite map_app, concat_app, <- app_assoc; cbn; rewrite app_nil_r.
Qed.
(** An append adds its line, or leaves the store as it is. *)
Lemma append_sound s lines tail version fact content prev chain line :
  sound s lines tail -> record_line_of (N := N) version fact content prev chain line ->
  match flash_append (N := N) s version fact content prev chain with
  | (s', Ok _) => sound s' (lines ++ [line]) chain
  | (s', Err e) => s' = s /\ (e = WalFull \/ e = WalRecordTooLarge (Datatypes.S (String.length line)) size)
  end.
Proof.
  intros (pgs & Hs & Hm & Hok & -> & ->) Hrec. pose proof (line_row _ _ _ _ _ _ Hrec) as [Hrow Hhash].
  unfold flash_append. rewrite (proj1 Hrec).
  assert (fw_page_size s = size) as -> by (rewrite Hs; done).
  assert (length (bytes_of line ++ [newline]) = Datatypes.S (String.length line)) as Hlen
    by (rewrite length_app, bytes_length; cbn; lia).
  destruct (Nat.ltb_spec size (length (bytes_of line ++ [newline]))) as [|Hle].
  { split; [done|]. right. by rewrite Hlen. }
  pose proof (append_place size count Hsize Hbound (fw_medium s) pgs (bytes_of line) chain Hm Hok Hcount) as Hap.
  rewrite <- Hs in Hap. cbv zeta in Hap. specialize (Hap ltac:(rewrite bytes_length; lia) Hrow Hhash).
  assert ((if need_new_page s (length (bytes_of line ++ [newline]))
           then match change_page s with (s0, Ok _) => write_line s0 line chain (bytes_of line ++ [newline]) | (s0, Err e) => (s0, Err e) end
           else write_line s line chain (bytes_of line ++ [newline])) =
    let '(s1, r1) := if need_new_page s (length (bytes_of line ++ [newline])) then change_page s else (s, Ok tt) in
    match r1 with Ok _ => write_line s1 line chain (bytes_of line ++ [newline]) | Err e => (s1, Err e) end) as ->
    by (by destruct (need_new_page _ _)).
  destruct (if need_new_page s _ then _ else _) as [s1 [[]|e]].
  - destruct Hap as (m' & init & p & Hpl & Hring & Hokp & Hw). rewrite string_of_bytes_of in Hw. rewrite Hw.
    exists (init ++ [with_row p (bytes_of line)]). split_and!; [done..| |].
    + rewrite (rows_of_row pgs) by done. rewrite map_app. cbn. by rewrite string_of_bytes_of.
    + rewrite (rows_of_row pgs) by done. unfold last_hash. by rewrite last_snoc.
  - destruct Hap as [-> ->]. split; [done|]. by left.
Qed.
Lemma power_loss_sound s lines tail version fact content prev chain line k :
  sound s lines tail -> record_line_of (N := N) version fact content prev chain line ->
  (String.length line < size)%nat -> (k <= String.length line)%nat ->
  exists s', flash_open (N := N) (power_loss s (bytes_of line ++ [newline]) k) = Ok s' /\ sound s' lines tail.
Proof.
  intros (pgs & Hs & Hm & Hok & -> & ->) Hrec Hlen Hk. pose proof (line_row _ _ _ _ _ _ Hrec) as [Hrow _].
  destruct (power_loss_ring (N := N) size count Hsize Hbound (fw_medium s) pgs (bytes_of line) k Hm Hok Hcount)
    as (pgs' & Hring & Hokp & Hrows); [rewrite bytes_length; lia|by destruct Hrow|by rewrite bytes_length|].
  rewrite <- Hs in Hring. destruct (open_sound _ pgs' Hring Hokp) as (s' & Ho & Hsd & _). rewrite Hrows in Hsd.
  by exists s'.
Qed.
Lemma life_sound s lines tail : flash_life s lines tail -> sound s lines tail.
Proof.
  induction 1 as [m s Hnew Ho|s lines tail v f c p h line s' _ IH Hrec Ha|s lines tail v f c p h line e s' _ IH Hrec Ha
    |s lines tail v f c p h line k s' _ IH Hrec Hlen Hk Ho|s lines tail s' _ IH Ho].
  - apply format_sound in Hnew as Hm. destruct (open_sound m [] Hm ltac:(constructor)) as (s0 & Ho' & Hsd & _).
    rewrite Ho in Ho'. injection Ho' as ->. exact Hsd.
  - pose proof (append_sound s lines tail v f c p h line IH Hrec) as Hs. by rewrite Ha in Hs.
  - pose proof (append_sound s lines tail v f c p h line IH Hrec) as Hs. rewrite Ha in Hs. by destruct Hs as [-> _].
  - destruct (power_loss_sound s lines tail v f c p h line k IH Hrec Hlen Hk) as (s0 & Ho' & Hsd).
    rewrite Ho in Ho'. by injection Ho' as ->.
  - destruct IH as (pgs & Hs & Hm & Hok & -> & ->). destruct (open_sound _ pgs Hm Hok) as (s0 & Ho' & Hsd & _).
    rewrite Ho in Ho'. by injection Ho' as ->.
Qed.
End Life.

(** C19: the flash log survives a loss of power.  Whatever happened since the
    medium was formatted (appends that succeeded or were refused, restarts,
    and losses of power after any number of bytes of a line), the store holds
    exactly the lines whose append returned, in order, and the chain hash of
    the last one; opening the medium again gives the same store, cursor
    included; an append adds its line or, when the ring is full or the line
    longer than a page, leaves everything as it was; and if the power is lost
    before the last byte of a line, the next [open] succeeds with all the
    lines before it.  The facts of the lines nest below the recursion limit of
    the parser ([record_line_of]); a deeper one is accepted, and then no [open]
    succeeds ([deep_line_corrupts]). *)
Theorem flash_log_survives {N : Type} `{SerdeNumberLaws N, SerdeText N, !SerdeTextLaws N, !SerdeUtf8 N}
    (size count : nat) (s : FlashWalStore RamFlashMedium) (lines : list string) (tail : string) :
  (0 < size)%nat -> (0 < count)%nat -> (Z.of_nat count * Z.of_nat size <= u64_max)%Z ->
  flash_life (N := N) size count s lines tail ->
  fw_lines s = lines /\ fw_tail_hash s = tail /\ flash_open (N := N) (fw_medium s) = Ok s /\
  forall version fact content prev chain line,
    record_line_of (N := N) version fact content prev chain line ->
    match flash_append (N := N) s version fact content prev chain with
    | (s', Ok _) => fw_lines s' = lines ++ [line] /\ fw_tail_hash s' = chain
    | (s', Err e) => s' = s /\ (e = WalFull \/ e = WalRecordTooLarge (Datatypes.S (String.length line)) size)
    end /\
    forall k, (String.length line < size)%nat -> (k <= String.length line)%nat ->
      exists s', flash_open (N := N) (power_loss s (bytes_of line ++ [newline]) k) = Ok s' /\
        fw_lines s' = lines /\ fw_tail_hash s' = tail.
Proof.
  intros Hsize Hcount Hbound Hlife. apply life_sound in Hlife as Hs; [|done..].
  assert (forall s lines tail, sound (N := N) size count s lines tail -> fw_lines s = lines /\ fw_tail_hash s = tail) as Hread.
  { intros s0 l0 t0 (pgs & -> & _ & _ & -> & ->). apply store_lines. }
  destruct (Hread _ _ _ Hs) as [Hl Ht]. split_and!; [done|done| |].
  - destruct Hs as (pgs & Heq & Hm & Hok & _). rewrite Heq at 2. by apply open_ring with (count := count).
  - intros version fact content prev chain line Hrec. split.
    + pose proof (append_sound (N := N) size count Hsize Hcount Hbound s lines tail _ _ _ _ _ _ Hs Hrec) as Ha.
      destruct (flash_append s _ _ _ _ _) as [s' [[]|e]]; [by apply Hread|done].
    + intros k Hlen Hk. edestruct (power_loss_sound (N := N) size count) as (s' & Ho & Hs'); [done..|].
      exists s'. split; [done|]. by apply Hread.
Qed.

(** * Examples *)

Module FlashDemo.
Import ZNumber ZText ZHash.
Lemma ascii_utf8 l : forallb (fun c => in_range 0 127 c) l = true -> utf8_valid l = true.
Proof.
  induction l as [|c l IH]; [done|]. cbn [forallb utf8_valid]. intros [-> Hl]%andb_true_iff. by apply IH.
Qed.
#[export] Instance text_utf8 : SerdeUtf8 Z.
Proof.
  split. intros v s [= <-]. apply ascii_utf8.
  assert (forall f s, str_all f s = true -> forallb f (bytes_of s) = true) as Hall.
  { intros f s. induction s as [|c s IH]; [done|]. cbn. intros [-> Hs]%andb_true_iff. by apply IH. }
  apply Hall. apply (str_all_impl solid); [|apply print_solid]. intros c Hc. by destruct c as [[] [] [] [] [] [] [] []].
Qed.
Definition fact1 : Fact := Stable 1%Z 0.
Definition fact2 : Fact := Stable 2%Z 0.
Definition line1 : string := default "" (result_ok (wal_line_json (N := Z) 0%Z fact1 "c" "genesis" "h1")).
Definition line2 : string := default "" (result_ok (wal_line_json (N := Z) 0%Z fact2 "c" "h1" "h2")).
Definition medium : RamFlashMedium := default (mk_ram_flash [] 0) (ram_flash_new 150 3).
Definition opened (m : RamFlashMedium) : FlashWalStore RamFlashMedium :=
  default (mk_flash_store m [] [] "" 0 0 false 0) (result_ok (flash_open (N := Z) m)).
(** A line, the loss of power within the next one, and that line again. *)
Definition store1 : FlashWalStore RamFlashMedium :=
  fst (flash_append (N := Z) (opened medium) 0%Z fact1 "c" "genesis" "h1").
Definition store2 : FlashWalStore RamFlashMedium :=
  opened (power_loss store1 (bytes_of line2 ++ [newline]) 50).
Definition store3 : FlashWalStore RamFlashMedium := fst (flash_append (N := Z) store2 0%Z fact2 "c" "h1" "h2").
End FlashDemo.
Import ZNumber ZText FlashDemo.
Lemma flash_log_survives_witness :
  fw_polluted store2 = true /\ fw_active_page store3 = 2 /\
  fw_lines store3 = [line1; line2] /\ fw_tail_hash store3 = "h2" /\
  flash_open (N := Z) (fw_medium store3) = Ok store3.
Proof.
  assert (flash_life (N := Z) 150 3 store3 [line1; line2] "h2") as Hlife.
  { apply (life_append 150 3 store2 [line1] "h1" 0%Z fact2 "c" "h1" "h2" line2).
    - apply (life_power_loss 150 3 store1 [line1] "h1" 0%Z fact2 "c" "h1" "h2" line2 50).
      + apply (life_append 150 3 (opened medium) [] "genesis" 0%Z fact1 "c" "genesis" "h1" line1).
        * apply (life_format 150 3 medium); vm_compute; reflexivity.
        * split_and!; vm_compute; reflexivity.
        * vm_compute. reflexivity.
      + split_and!; vm_compute; reflexivity.
      + apply Nat.ltb_lt. vm_compute. reflexivity.
      + apply Nat.leb_le. vm_compute. reflexivity.
      + vm_compute. reflexivity.
    - split_and!; vm_compute; reflexivity.
    - vm_compute. reflexivity. }
  destruct (flash_log_survives (N := Z) 150 3 store3 [line1; line2] "h2") as (Hl & Ht & Ho & _);
    [lia|lia|cbn; unfold u64_max; lia|exact Hlife|].
  split_and!; [vm_compute; reflexivity|vm_compute; reflexivity|exact Hl|exact Ht|exact Ho].
Defined.

(** A payload update with 126 nested arrays is written to the medium, which
    can then never be opened again; with one array less it can. *)
Definition nested_store (n : nat) : FlashWalStore RamFlashMedium * Result unit McuError :=
  let m := default (mk_ram_flash [] 0) (ram_flash_new 600 2) in
  flash_append (N := Z) (opened m) 0%Z (PayloadUpdate 1%Z "a" (Nat.iter n (fun v => JArray [v]) JNull)) "c" "genesis" "h1".
Lemma deep_line_corrupts :
  snd (nested_store 126) = Ok tt /\ snd (nested_store 125) = Ok tt /\
  is_ok (flash_open (N := Z) (fw_medium (fst (nested_store 125)))) = true /\
  (exists msg, flash_open (N := Z) (fw_medium (fst (nested_store 126))) = Err (WalCorrupted msg)).
Proof. vm_compute. split_and!; try reflexivity. by eexists. Qed.
