(* ===== verification/McuExec.v ===== *)
(** The synchronous executor of the microcontroller kernel,
    [evorule-mcu/src/exec.rs], over any write-ahead log. *)

From S2P Require Import Prelude ObjectMap Value Error Path Domain Executor ExecSemantics Transition Fact Serde Hash Wal WalFile McuWal.

Definition DEFAULT_MAX_QUEUE_LEN : nat := 1024.
Definition DEFAULT_MAX_STEPS_PER_RUN : Z := 10000.

(** [struct RunReport], [struct PendingIo] and [struct PendingIoState]. *)
Record RunReport : Type := mk_run_report {
  steps_executed : Z;
  ticks : Z;
  report_version : Z;
  report_tail_hash : string;
}.
Record PendingIo : Type := mk_pending_io { io_request_id : Z; io_io_type : string; io_params : JsonValue }.
Record PendingIoState : Type := mk_pending_state {
  ps_request_id : FactId;
  ps_io_type : string;
  ps_params : JsonValue;
  ps_instruction : JsonValue;
  ps_cause : FactId;
}.

(** [struct McuExecutor]. *)
Record McuExecutor (S : Type) : Type := mk_exec {
  x_pack : RulePack;
  x_payload : JsonValue;
  x_queue : list (JsonValue * FactId);
  x_version : Z;
  x_next_fact_id : Z;
  x_wal : S;
  x_clock : TickClock;
  x_max_queue_len : nat;
  x_max_steps : Z;
  x_pendings : list PendingIoState;
  x_io_recovery : bool;
}.
Arguments mk_exec {S}.
Arguments x_pack {S}.
Arguments x_payload {S}.
Arguments x_queue {S}.
Arguments x_version {S}.
Arguments x_next_fact_id {S}.
Arguments x_wal {S}.
Arguments x_clock {S}.
Arguments x_max_queue_len {S}.
Arguments x_max_steps {S}.
Arguments x_pendings {S}.
Arguments x_io_recovery {S}.

Section Fields.
Context {S : Type}.
Implicit Types x : McuExecutor S.
Definition x_with_payload x (v : JsonValue) : McuExecutor S :=
  mk_exec (x_pack x) v (x_queue x) (x_version x) (x_next_fact_id x) (x_wal x) (x_clock x)
    (x_max_queue_len x) (x_max_steps x) (x_pendings x) (x_io_recovery x).
Definition x_with_queue x (q : list (JsonValue * FactId)) : McuExecutor S :=
  mk_exec (x_pack x) (x_payload x) q (x_version x) (x_next_fact_id x) (x_wal x) (x_clock x)
    (x_max_queue_len x) (x_max_steps x) (x_pendings x) (x_io_recovery x).
Definition x_with_version x (v : Z) : McuExecutor S :=
  mk_exec (x_pack x) (x_payload x) (x_queue x) v (x_next_fact_id x) (x_wal x) (x_clock x)
    (x_max_queue_len x) (x_max_steps x) (x_pendings x) (x_io_recovery x).
Definition x_with_next_id x (n : Z) : McuExecutor S :=
  mk_exec (x_pack x) (x_payload x) (x_queue x) (x_version x) n (x_wal x) (x_clock x)
    (x_max_queue_len x) (x_max_steps x) (x_pendings x) (x_io_recovery x).
Definition x_with_wal x (s : S) : McuExecutor S :=
  mk_exec (x_pack x) (x_payload x) (x_queue x) (x_version x) (x_next_fact_id x) s (x_clock x)
    (x_max_queue_len x) (x_max_steps x) (x_pendings x) (x_io_recovery x).
Definition x_with_clock x (c : TickClock) : McuExecutor S :=
  mk_exec (x_pack x) (x_payload x) (x_queue x) (x_version x) (x_next_fact_id x) (x_wal x) c
    (x_max_queue_len x) (x_max_steps x) (x_pendings x) (x_io_recovery x).
Definition x_with_pendings x (p : list PendingIoState) : McuExecutor S :=
  mk_exec (x_pack x) (x_payload x) (x_queue x) (x_version x) (x_next_fact_id x) (x_wal x) (x_clock x)
    (x_max_queue_len x) (x_max_steps x) p (x_io_recovery x).
Definition x_with_recovery x (b : bool) : McuExecutor S :=
  mk_exec (x_pack x) (x_payload x) (x_queue x) (x_version x) (x_next_fact_id x) (x_wal x) (x_clock x)
    (x_max_queue_len x) (x_max_steps x) (x_pendings x) b.
End Fields.

(** Code over the executor that may fail: the state is kept on an error. *)
Definition Exec (S A : Type) : Type := McuExecutor S -> McuExecutor S * Result A McuError.
Definition exec_bind {S A B} (m : Exec S A) (k : A -> Exec S B) : Exec S B :=
  fun x => let '(x, r) := m x in match r with Ok a => k a x | Err e => (x, Err e) end.
Definition exec_ret {S A} (a : A) : Exec S A := fun x => (x, Ok a).
Definition modify {S} (f : McuExecutor S -> McuExecutor S) : Exec S unit := fun x => (f x, Ok tt).
Notation "'exec!' x := c 'in' k" := (exec_bind c (fun x => k))
  (at level 10, x name, c at level 100, k at level 200) : rust_scope.

Section Run.
Context {N S : Type} `{SerdeNumber N, SerdeText N, Blake3, McuWalStore S}.
(** The derived [Debug] text of a value, which only error messages use. *)
Variable debug_json : JsonValue -> string.
Implicit Types x : McuExecutor S.

Definition with_wal_store (pack : RulePack) (initial_payload : JsonValue) (max_queue_len : nat)
    (max_steps_per_run : Z) (wal : S) : McuExecutor S :=
  mk_exec pack initial_payload [] 0 0 wal tick_new max_queue_len max_steps_per_run [] false.

Definition mcu_next_id : Exec S FactId := fun x =>
  match u64_checked_add (x_next_fact_id x) 1 with
  | Some id => (x_with_next_id x id, Ok id)
  | None => (x, Err FactIdOverflow)
  end.
Definition append_fact (fact : Fact) : Exec S unit := fun x =>
  match fact_hash (N := N) fact with
  | Err e => (x, Err (McuHash (hash_error_display e)))
  | Ok content_hash =>
      let prev_hash := chain_tail_hash (x_wal x) in
      let chain_hash := chain_step prev_hash content_hash in
      let '(wal, r) := mcu_append_record (x_wal x) (x_version x) fact content_hash prev_hash chain_hash in
      (x_with_wal x wal, r)
  end.
(** [let id = self.next_id()?; self.append_fact(..)?]. *)
Definition append_new (fact : FactId -> Fact) : Exec S FactId :=
  exec! id := mcu_next_id in exec! _u := append_fact (fact id) in exec_ret id.
Definition bump : Exec S unit := fun x =>
  match u64_checked_add (x_version x) 1 with
  | Some v => (x_with_version x v, Ok tt)
  | None => (x, Err McuVersionOverflow)
  end.
Definition mcu_report (executed : Z) x : RunReport :=
  mk_run_report executed executed (x_version x) (chain_tail_hash (x_wal x)).

(** An Error fact, the queue cleared, and a Stable fact. *)
Definition stop_with_error (message : string) : Exec S unit :=
  exec! _e := append_new (fun id => FError id message) in
  exec! _c := modify (fun x => x_with_queue x []) in
  exec! _s := (fun x => append_new (fun id => Stable id (x_version x)) x) in
  exec_ret tt.

Definition mcu_inject_io_result (payload : JsonValue) (io_type : string) (result : JsonValue) : JsonValue :=
  let obj := match payload with JObject obj => obj | _ => [] end in
  let obj := match map_get obj "__io_results__" with
             | None => obj_insert obj "__io_results__" empty_object
             | Some _ => obj
             end in
  match map_get_mut obj "__io_results__" with
  | Some (JObject c, put) => JObject (put (JObject (obj_insert c io_type result)))
  | _ => JObject obj
  end.

(** The causes of a new queue. *)
Definition align_causes (queue : list (JsonValue * FactId)) (new_queue : list JsonValue) (cause : FactId) :
    list (JsonValue * FactId) :=
  let old_causes := map snd queue in
  let new_count := (length new_queue - length queue)%nat in
  imap (fun i queued =>
    (queued, if (i <? new_count)%nat then cause else default cause (old_causes !! (i - new_count)%nat)))
    new_queue.
Definition clear_results (payload : JsonValue) : JsonValue :=
  match payload with JObject obj => JObject (obj_remove obj "__io_results__") | _ => payload end.

(** The arms of the [match] in [drain]; [true] means [return]. *)
Definition on_state (cause : FactId) (new_payload : JsonValue) (new_queue : list JsonValue)
    (rule_hits : list RuleHit) : Exec S bool := fun x =>
  let x := x_with_queue (x_with_payload x new_payload) (align_causes (x_queue x) new_queue cause) in
  let queue_len := length (x_queue x) in
  if ((0 <? x_max_queue_len x)%nat && (x_max_queue_len x <=? queue_len)%nat)%bool then
    (exec! _s := stop_with_error ("Queue length " +:+ show_nat queue_len +:+ " exceeds max "
                                  +:+ show_nat (x_max_queue_len x)) in
     exec_ret true) x
  else
    let x := if x_io_recovery x then x_with_recovery (x_with_payload x (clear_results (x_payload x))) false
             else x in
    (exec! st_id := append_new (fun id => StateTransition id cause (x_payload x) (map fst (x_queue x))) in
     exec! _b := bump in
     exec! _t := append_new (fun id => TransitionTrace id st_id (map trace_hit_from_rule_hit rule_hits)) in
     exec_ret false) x.
Definition on_ignored (instr : JsonValue) (instruction_type reason : string) (rule_hits : list RuleHit) :
    Exec S bool :=
  exec! err_id := append_new (fun id => FError id
    ("Instruction ignored by TCB: type=" +:+ instruction_type +:+ ", reason=" +:+ reason
     +:+ ", instruction=" +:+ debug_json instr)) in
  exec! _t := append_new (fun id => TransitionTrace id err_id (map trace_hit_from_rule_hit rule_hits)) in
  exec_ret false.
Definition on_halted (instr : JsonValue) (cause : FactId) (rule_index : nat) (reason : string) : Exec S bool :=
  exec! _v := append_new (fun id => Violation id cause (Z.of_nat rule_index) reason instr) in
  exec_ret false.
Definition on_io_required (instr : JsonValue) (cause : FactId) (io_type : string) (params : JsonValue) :
    Exec S bool :=
  exec! id := append_new (fun id => IoRequest id cause io_type params) in
  exec! _p := modify (fun x => x_with_pendings x
    (x_pendings x ++ [mk_pending_state id io_type params instr cause])) in
  fun x => (x, Err (IoPaused id io_type)).
Definition on_tcb_error (instr : JsonValue) (steps : Z) (err : TcbError) : Exec S bool :=
  exec! _e := append_new (fun id => FError id
    ("TCB error at step " +:+ pretty steps +:+ ": " +:+ tcb_error_display err
     +:+ " (instruction: " +:+ debug_json instr +:+ ")")) in
  exec_ret false.
Definition execute_step (instr : JsonValue) (cause : FactId) (steps : Z) : Exec S bool := fun x =>
  match execute_transition (pack_rules (x_pack x)) instr (x_payload x) (map fst (x_queue x)) with
  | Ok (TState new_payload new_queue rule_hits) => on_state cause new_payload new_queue rule_hits x
  | Ok (TIgnored instruction_type reason rule_hits) => on_ignored instr instruction_type reason rule_hits x
  | Ok (THalted rule_index reason) => on_halted instr cause rule_index reason x
  | Ok (TIoRequired io_type params) => on_io_required instr cause io_type params x
  | Err err => on_tcb_error instr steps err x
  end.
Definition steps_exhausted x (steps : Z) : bool := (0 <? x_max_steps x)%Z && (x_max_steps x <=? steps)%Z.
Definition steps_message x : string := "max steps per run exceeded: " +:+ pretty (x_max_steps x).
(** The end of the queue. *)
Definition settle (steps executed : Z) : Exec S RunReport := fun x =>
  (exec! _s := (if (0 <? steps)%Z then
                  exec! _id := append_new (fun id => Stable id (x_version x)) in exec_ret tt
                else exec_ret tt) in
   fun x => (x, Ok (mcu_report executed x))) x.
(** The loop of [drain]; [None] is a loop that goes on after [fuel] turns. *)
Fixpoint drain (fuel : nat) (steps executed : Z) x : option (McuExecutor S * Result RunReport McuError) :=
  match fuel with
  | O => None
  | Datatypes.S fuel =>
      match x_queue x with
      | [] => Some (settle steps executed x)
      | (instr, cause) :: rest =>
          let x := x_with_queue x rest in
          if steps_exhausted x steps then
            Some ((exec! _s := stop_with_error (steps_message x) in
                   fun x => (x, Ok (mcu_report executed x))) x)
          else
            let x := x_with_clock x (fst (tick_advance (x_clock x))) in
            match execute_step instr cause (steps + 1) x with
            | (x, Err e) => Some (x, Err e)
            | (x, Ok true) => Some (x, Ok (mcu_report (executed + 1) x))
            | (x, Ok false) => drain fuel (steps + 1) (executed + 1) x
            end
      end
  end.

Definition run (fuel : nat) (instruction : JsonValue) x : option (McuExecutor S * Result RunReport McuError) :=
  match (exec! cmd_id := append_new (fun id => Command id instruction) in
         modify (fun x => x_with_queue x (x_queue x ++ [(instruction, cmd_id)]))) x with
  | (x, Err e) => Some (x, Err e)
  | (x, Ok _) => drain fuel 0 0 x
  end.

(** [position] and [Vec::remove]. *)
Fixpoint take_pending (request_id : Z) (l : list PendingIoState) : option (PendingIoState * list PendingIoState) :=
  match l with
  | [] => None
  | p :: rest =>
      if (ps_request_id p =? request_id)%Z then Some (p, rest)
      else let! '(q, rest) := take_pending request_id rest in Some (q, p :: rest)
  end.
Definition stale_message (request_id : Z) : string :=
  "IoResponse for unknown/stale request_id " +:+ pretty request_id
  +:+ " ignored (duplicate, late-after-timeout, or forged)".
(** What a response changes, after it is on the chain. *)
Definition accept_response (request_id : Z) (result : JsonValue) (error : option string) : Exec S unit := fun x =>
  match take_pending request_id (x_pendings x) with
  | None => (exec! _e := append_new (fun id => FError id (stale_message request_id)) in exec_ret tt) x
  | Some (p, rest) =>
      let x := x_with_pendings x rest in
      if (is_null result || is_some error)%bool then bump x
      else
        let x := x_with_payload x (mcu_inject_io_result (x_payload x) (ps_io_type p) result) in
        let x := x_with_queue x ((ps_instruction p, ps_cause p) :: x_queue x) in
        bump (x_with_recovery x true)
  end.
Definition resume_io (fuel : nat) (request_id : Z) (outcome : Result JsonValue string) x :
    option (McuExecutor S * Result RunReport McuError) :=
  let '(result, error) := match outcome with Ok v => (v, None) | Err msg => (JNull, Some msg) end in
  match (exec! _r := append_new (fun id => IoResponse id request_id result error) in
         accept_response request_id result error) x with
  | (x, Err e) => Some (x, Err e)
  | (x, Ok _) => drain fuel 0 0 x
  end.
Definition pending_ios x : list PendingIo :=
  map (fun p => mk_pending_io (ps_request_id p) (ps_io_type p) (ps_params p)) (x_pendings x).
End Run.

Section New.
Context {N : Type} `{SerdeNumber N, SerdeText N}.
Definition with_options (pack : RulePack) (initial_payload : JsonValue) (max_queue_len : nat)
    (max_steps_per_run : Z) : McuExecutor RamWalStore :=
  with_wal_store pack initial_payload max_queue_len max_steps_per_run ram_new.
Definition mcu_new (pack : RulePack) : McuExecutor RamWalStore :=
  with_options pack empty_object DEFAULT_MAX_QUEUE_LEN DEFAULT_MAX_STEPS_PER_RUN.
End New.
