(* ===== verification/McuExecSpec.v ===== *)
(** Theorems about the microcontroller kernel's executor: that it produces the
    facts the reactor produces, that a run ends, that its log is a hash chain,
    and where the two part. *)

From S2P Require Import Prelude ObjectMap Value Error Path Domain Executor ExecSemantics Transition Fact Serde Hash Wal WalFile FactsLog FactsLogSpec Recovery Phase ReactorState Reactor ReactorSpec ReactorProps Signing Anchor Auditor AuditorSpec AuditorStore EvidParse EvidVerify EvidSpec McuWal McuExec.

(** * What a step of the executor does to its log *)

Section Steps.
Context {N : Type} `{SerdeNumber N, SerdeText N, Blake3}.
Implicit Types x : McuExecutor RamWalStore.

Definition facts_in x : list Fact := map m_fact (ram_records (x_wal x)).
(** The parts a fact does not touch. *)
Definition same_run x x' : Prop :=
  x_pack x' = x_pack x /\ x_payload x' = x_payload x /\ x_queue x' = x_queue x /\
  x_version x' = x_version x /\ x_max_queue_len x' = x_max_queue_len x /\
  x_max_steps x' = x_max_steps x /\ x_pendings x' = x_pendings x /\ x_io_recovery x' = x_io_recovery x /\
  x_clock x' = x_clock x.
Lemma append_new_Ok x f x' id :
  append_new (N := N) f x = (x', Ok id) ->
  id = (x_next_fact_id x + 1)%Z /\ (id <= u64_max)%Z /\ x_next_fact_id x' = id /\
  facts_in x' = facts_in x ++ [f id] /\ same_run x x'.
Proof.
  unfold append_new, exec_bind, mcu_next_id. unfold u64_checked_add.
  destruct (Z.leb_spec (x_next_fact_id x + 1) u64_max) as [Hid|]; [|done]. unfold append_fact.
  destruct (fact_hash (f _)) as [content|]; [|done]. cbn. intros [= <- <-].
  unfold facts_in. cbn. rewrite map_app. by split_and!.
Qed.
End Steps.

(** * The simulation of the reactor *)

Section Simulation.
Context {N S : Type} `{SerdeNumber N, SerdeText N, Blake3, FactWalStore S}.
Variable debug_json : JsonValue -> string.
Variable cfg : Reactor.
Variable limit : Z.
Implicit Types (w : World S) (x : McuExecutor RamWalStore).

(** The two hold the same state; the next identifier is the same; nothing is
    asked of the reactor, it waits for no I/O and its log has no store. *)
Record sim x w : Prop := {
  sm_pack : pack_rules (x_pack x) = core_eval cfg;
  sm_limit : x_max_queue_len x = max_queue_len cfg;
  sm_steps : x_max_steps x = limit;
  sm_payload : rs_payload (w_state w) = x_payload x;
  sm_queue : rs_queue (w_state w) = map fst (x_queue x);
  sm_causes : instruction_causes (w_state w) = map snd (x_queue x);
  sm_recovery : io_recovery (w_state w) = x_io_recovery x;
  sm_pending : pending_io_count (w_state w) = 0;
  sm_requests : pending_requests (w_state w) = ∅;
  sm_ids : gen_next (w_ids w) = u64_wrapping_add (x_next_fact_id x) 1;
  sm_range : (0 <= x_next_fact_id x)%Z;
  sm_flags : w_interrupt w = false /\ w_cancel_all w = false;
  sm_log : wal (inner (w_log w)) = None;
}.
Definition same_version x w : Prop := rs_version (w_state w) = x_version x /\ (0 <= x_version x)%Z.
(** Both have produced these facts. *)
Definition both x x' w w' (fs : list Fact) : Prop :=
  facts_in x' = facts_in x ++ fs /\ w_events w' = w_events w ++ fs /\
  w_log w' = append_all (N := N) (w_log w) fs.
Lemma both_refl x x' w w' :
  facts_in x' = facts_in x -> w_events w' = w_events w -> w_log w' = w_log w -> both x x' w w' [].
Proof. intros Hx He Hl. unfold both. by rewrite !app_nil_r, Hx, He, Hl. Qed.
Lemma both_app x1 x2 x3 w1 w2 w3 f1 f2 :
  both x1 x2 w1 w2 f1 -> both x2 x3 w2 w3 f2 -> both x1 x3 w1 w3 (f1 ++ f2).
Proof.
  intros (Hx1 & He1 & Hl1) (Hx2 & He2 & Hl2). unfold both. rewrite Hx2, Hx1, He2, He1, Hl2, Hl1, append_all_app.
  by rewrite !app_assoc.
Qed.

(** A fact of each. *)
Lemma emit_no_store w f :
  wal (inner (w_log w)) = None ->
  w_events (emit_fact (N := N) w f) = w_events w ++ [f] /\
  w_interrupt (emit_fact (N := N) w f) = w_interrupt w /\
  wal (inner (w_log (emit_fact (N := N) w f))) = None.
Proof.
  intros Hw. destruct (append_no_store (N := N) (w_log w) f Hw) as [Hw' He].
  rewrite emit_fact_events, emit_fact_log, (sent_no_store _ [f]) by done. split_and!; [done| |done].
  unfold emit_fact, append_async. destruct (append (w_log w) f) as [log r] eqn:Ha. cbn in *.
  rewrite He, drop_all. cbn. by rewrite orb_false_r.
Qed.
Lemma wrap_next n : (0 <= n)%Z -> (n + 1 <= u64_max)%Z -> u64_wrapping_add n 1 = (n + 1)%Z.
Proof. unfold u64_wrapping_add, u64_max. intros. apply Z.mod_small. lia. Qed.
Lemma sim_emit x w f x1 id :
  sim x w -> append_new (N := N) f x = (x1, Ok id) ->
  sim x1 (emit_new (N := N) w f) /\ id = gen_next (w_ids w) /\
  both x x1 w (emit_new (N := N) w f) [f id] /\
  w_state (emit_new (N := N) w f) = w_state w /\ w_steps (emit_new (N := N) w f) = w_steps w /\ same_run x x1.
Proof.
  intros Hs (Hid & Hmax & Hnext & Hfacts & Hsame)%append_new_Ok. pose proof Hs as [].
  assert (gen_next (w_ids w) = id) as Hgen by (rewrite sm_ids0, Hid; apply wrap_next; lia).
  rewrite emit_new_eq, Hgen. set (wb := bump_ids w).
  destruct (emit_no_store wb (f id) ltac:(done)) as (He & Hi & Hw).
  destruct Hsame as (Hp & Hpl & Hq & Hv & Hml & Hms & Hpe & Hr & Hcl). refine (conj _ (conj _ (conj _ (conj _ (conj _ _))))); [|done| | | |done].
  - split; rewrite ?emit_fact_state, ?emit_fact_ids, ?Hp, ?Hpl, ?Hq, ?Hml, ?Hms, ?Hr, ?Hnext; try done.
    + unfold wb, bump_ids, fresh_id, next_id. cbn. by rewrite Hgen.
    + lia.
    + rewrite Hi, emit_fact_cancel. done.
  - split_and!; [done|done|by rewrite emit_fact_log].
  - by rewrite emit_fact_state.
  - by rewrite emit_fact_steps.
Qed.
(** What the reactor changes besides is not seen. *)
Lemma sim_same x w w' :
  sim x w -> w_log w' = w_log w -> w_ids w' = w_ids w -> w_interrupt w' = w_interrupt w ->
  w_cancel_all w' = w_cancel_all w ->
  rs_payload (w_state w') = rs_payload (w_state w) -> rs_queue (w_state w') = rs_queue (w_state w) ->
  instruction_causes (w_state w') = instruction_causes (w_state w) ->
  io_recovery (w_state w') = io_recovery (w_state w) ->
  pending_io_count (w_state w') = pending_io_count (w_state w) ->
  pending_requests (w_state w') = pending_requests (w_state w) -> sim x w'.
Proof. intros [] Hl Hi Hf Hc Hp Hq Hca Hr Hpe Hrq. split; congruence. Qed.

Lemma bind_Ok {A B} (m : Exec RamWalStore A) (k : A -> Exec RamWalStore B) x x' r :
  exec_bind m k x = (x', Ok r) -> exists x1 a, m x = (x1, Ok a) /\ k a x1 = (x', Ok r).
Proof. unfold exec_bind. destruct (m x) as [x1 [a|e]]; [by eauto|done]. Qed.

Lemma align_queue queue new_queue cause : map fst (align_causes queue new_queue cause) = new_queue.
Proof.
  unfold align_causes. generalize (length new_queue - length queue)%nat. intros n.
  apply list_eq. intros i. rewrite list_lookup_fmap, list_lookup_imap. by destruct (new_queue !! i).
Qed.
Lemma align_causes_eq queue new_queue cause s :
  rs_queue s = map fst queue -> instruction_causes s = map snd queue ->
  update_queue_with_causes s new_queue cause =
  ReactorState.with_queue s new_queue (map snd (align_causes queue new_queue cause)).
Proof.
  intros Hq Hc. unfold update_queue_with_causes, align_causes. rewrite Hq, Hc, length_map. f_equal.
  generalize (length new_queue - length queue)%nat. intros n. apply list_eq. intros i.
  rewrite !list_lookup_fmap, list_lookup_imap. destruct (new_queue !! i) as [v|] eqn:Hv.
  - rewrite lookup_seq_lt by by eapply lookup_lt_Some. done.
  - apply lookup_ge_None in Hv. by rewrite lookup_seq_ge.
Qed.

(** The Error and Stable facts after which both have an empty queue. *)
Lemma sim_stop x w m x' :
  sim x w -> same_version x w -> stop_with_error (N := N) m x = (x', Ok tt) ->
  exists fs, both x x' w (recover_with_error (N := N) w m) fs /\ sim x' (recover_with_error (N := N) w m) /\
    same_version x' (recover_with_error (N := N) w m) /\ x_queue x' = [] /\
    w_steps (recover_with_error (N := N) w m) = 0.
Proof.
  intros Hs Hv He. unfold stop_with_error in He.
  apply bind_Ok in He as (x1 & e & He & Hr). apply bind_Ok in Hr as (x2 & [] & Hc & Hr).
  apply bind_Ok in Hr as (x3 & st & Hst & Hr). injection Hr as <-. injection Hc as <-.
  set (w0 := set_phase w PhError). assert (sim x w0) as Hs0 by (by apply (sim_same x w)).
  destruct (sim_emit x w0 _ x1 e Hs0 He) as (Hs1 & _ & (Hf1 & Hv1 & Hl1) & Hw1 & _ & Hr1).
  set (w1 := emit_new w0 (fun id => FError id m)) in *.
  set (w2 := set_phase (set_state w1 (clear_queue (w_state w1))) PhStable).
  assert (sim (x_with_queue x1 []) w2) as Hs2 by (destruct Hs1; by split).
  assert (x_version x1 = rs_version (w_state w2)) as Hver.
  { unfold w2. cbn. rewrite Hw1. transitivity (x_version x); [by destruct Hr1 as (_ & _ & _ & -> & _)|].
    symmetry. apply Hv. }
  change (x_version (x_with_queue x1 [])) with (x_version x1) in Hst. rewrite Hver in Hst.
  destruct (sim_emit _ w2 _ x3 st Hs2 Hst) as (Hs3 & _ & (Hf3 & Hv3 & Hl3) & Hw3 & _ & Hr3).
  exists ([FError e m] ++ [Stable st (rs_version (w_state w2))]).
  assert (recover_with_error (N := N) w m =
    set_phase (set_steps (emit_new (N := N) w2 (fun id => Stable id (rs_version (w_state w2)))) 0) Idle) as Hw by done.
  rewrite Hw. split_and!.
  - unfold both. cbn [w_events w_log set_phase set_steps set_state]. split_and!.
    + rewrite Hf3. change (facts_in (x_with_queue x1 [])) with (facts_in x1). rewrite Hf1. by rewrite <- app_assoc.
    + rewrite Hv3. change (w_events w2) with (w_events w1). rewrite Hv1. by rewrite <- app_assoc.
    + rewrite Hl3. change (w_log w2) with (w_log w1). by rewrite Hl1.
  - by apply (sim_same x3 (emit_new (N := N) w2 (fun id => Stable id (rs_version (w_state w2))))).
  - unfold same_version. cbn [w_state set_phase set_steps set_state rs_version ReactorState.with_phase].
    rewrite Hw3. destruct Hr3 as (_ & _ & _ & -> & _). cbn [x_version x_with_queue]. rewrite <- Hver.
    split; [done|]. destruct Hr1 as (_ & _ & _ & -> & _). apply Hv.
  - by destruct Hr3 as (_ & _ & -> & _).
  - done.
Qed.

Lemma sim_payload_queue x w p q :
  sim x w ->
  sim (x_with_queue (x_with_payload x p) q)
    (set_state w (ReactorState.with_queue (ReactorState.with_payload (w_state w) p) (map fst q) (map snd q))).
Proof. intros []. by split. Qed.
Lemma sim_clear x w :
  sim x w -> io_recovery (w_state w) = true ->
  sim (x_with_recovery (x_with_payload x (clear_results (x_payload x))) false)
    (set_state w (clear_io_recovery (w_state w))).
Proof.
  intros [] Hr. unfold clear_io_recovery, clear_io_result, clear_results.
  destruct (rs_payload (w_state w)) eqn:Hp; rewrite <- sm_payload0; split; cbn; congruence.
Qed.
(** The arms. *)
Lemma sim_state x w cause p q hits x' b :
  sim x w -> same_version x w -> McuExec.on_state (N := N) cause p q hits x = (x', Ok b) ->
  exists turn fs, let w' := fst (Reactor.on_state (N := N) cfg w cause p q hits) in
    Reactor.on_state (N := N) cfg w cause p q hits = (w', turn) /\ both x x' w w' fs /\
    sim x' w' /\ same_version x' w' /\
    (if b then turn = TurnLeave /\ x_queue x' = [] /\ w_steps w' = 0 else w_steps w' = w_steps w).
Proof.
  intros Hs Hv He. unfold McuExec.on_state in He. unfold Reactor.on_state.
  rewrite (align_causes_eq (x_queue x)) by apply Hs.
  pose proof (sim_payload_queue x w p (align_causes (x_queue x) q cause) Hs) as Hs1. rewrite align_queue in Hs1.
  set (x1 := x_with_queue (x_with_payload x p) (align_causes (x_queue x) q cause)) in *.
  set (w1 := set_state w _) in *.
  assert (same_version x1 w1) as Hv1 by done.
  assert (length (x_queue x1) = queue_len (w_state w1)) as Hlen.
  { unfold queue_len. rewrite (sm_queue _ _ Hs1). by rewrite length_map. }
  rewrite Hlen in He. rewrite (sm_limit _ _ Hs1) in He.
  rewrite (andb_comm (max_queue_len cfg <=? _)%nat).
  destruct ((0 <? max_queue_len cfg)%nat && (max_queue_len cfg <=? queue_len (w_state w1))%nat).
  - apply bind_Ok in He as (x2 & [] & He & Hr). injection Hr as <- <-.
    destruct (sim_stop x1 w1 _ x2 Hs1 Hv1 He) as (fs & Hb & Hs2 & Hv2 & Hq & Hn).
    exists TurnLeave, fs. cbn [fst]. by split_and!.
  - exists TurnNext. cbn [fst].
    set (x2 := if x_io_recovery x1 then _ else x1) in *.
    unfold commit_transition. set (s2 := if io_recovery (w_state w1) then _ else w_state w1).
    assert (sim x2 (set_state w1 s2) /\ x_version x2 = x_version x /\ rs_version s2 = rs_version (w_state w1) /\
      facts_in x2 = facts_in x) as (Hs2 & Hv2 & Hvs & Hf2).
    { unfold x2, s2. rewrite (sm_recovery _ _ Hs1). destruct (x_io_recovery x1) eqn:Hrec.
      - split_and!; try done.
        + apply sim_clear; [exact Hs1|]. pose proof (sm_recovery _ _ Hs1). congruence.
        + unfold clear_io_recovery, clear_io_result. by destruct (rs_payload _).
      - by split_and!. }
    rewrite fresh_id_eq. cbn zeta. cbn beta iota.
    set (w2 := set_state w1 (bump_version s2)).
    assert (sim x2 w2) as Hs2' by (apply (sim_same x2 (set_state w1 s2)); done).
    apply bind_Ok in He as (x3 & st & He & Hr). apply bind_Ok in Hr as (x4 & [] & Hbump & Hr).
    apply bind_Ok in Hr as (x5 & tr & Htr & Hr). injection Hr as <- <-.
    assert (x_payload x2 = rs_payload (w_state w2) /\ map fst (x_queue x2) = rs_queue (w_state w2)) as [Hpay Hque]
      by (destruct Hs2'; split; congruence).
    rewrite Hpay, Hque in He.
    destruct (sim_emit x2 w2 _ x3 st Hs2' He) as (Hs3 & Hst & (Hf3 & He3 & Hl3) & Hw3 & Hn3 & Hr3).
    rewrite emit_new_eq in Hs3, He3, Hl3, Hw3, Hn3. rewrite <- Hst in *.
    set (w3 := emit_fact (bump_ids w2) (StateTransition st cause _ _)) in *.
    unfold bump in Hbump. unfold u64_checked_add in Hbump.
    destruct (Z.leb_spec (x_version x3 + 1) u64_max) as [Hmax|]; [|done]. injection Hbump as <-.
    assert (sim (x_with_version x3 (x_version x3 + 1)) w3) as Hs4 by (destruct Hs3; by split).
    destruct (sim_emit _ w3 _ x5 tr Hs4 Htr) as (Hs5 & _ & (Hf5 & He5 & Hl5) & Hw5 & Hn5 & Hr5).
    exists ([StateTransition st cause (rs_payload (w_state w2)) (rs_queue (w_state w2))]
            ++ [TransitionTrace tr st (map trace_hit_from_rule_hit hits)]).
    split_and!; [done| |exact Hs5| |].
    + unfold both. split_and!.
      * rewrite Hf5. change (facts_in (x_with_version x3 (x_version x3 + 1))) with (facts_in x3).
        by rewrite Hf3, Hf2, <- app_assoc.
      * rewrite He5, He3. by rewrite <- app_assoc.
      * rewrite Hl5, Hl3. by rewrite append_all_app.
    + unfold same_version. rewrite Hw5, Hw3. destruct Hr5 as (_ & _ & _ & -> & _).
      destruct Hr3 as (_ & _ & _ & Hv3 & _). destruct Hv as [Hv Hpos]. cbn.
      rewrite Hvs. change (rs_version (w_state w1)) with (rs_version (w_state w)).
      rewrite Hv, <- Hv2, <- Hv3 in *. rewrite wrap_next by lia. split; [done|lia].
    + by rewrite Hn5, Hn3.
Qed.

(** Facts that change nothing else. *)
Lemma same_version_run x x' w w' :
  same_version x w -> same_run x x' -> w_state w' = w_state w -> same_version x' w'.
Proof. intros [Hv Hp] (_ & _ & _ & Heq & _) Hw. unfold same_version. by rewrite Hw, Heq. Qed.
Lemma sim_phase x w p : sim x w -> sim x (set_phase w p).
Proof. intros Hs. by apply (sim_same x w). Qed.
Lemma sim_error_phase x w f x' id :
  sim x w -> same_version x w -> append_new (N := N) f x = (x', Ok id) ->
  let w' := set_phase (emit_new (N := N) (set_phase w PhError) f) Idle in
  both x x' w w' [f id] /\ sim x' w' /\ same_version x' w' /\ w_steps w' = w_steps w.
Proof.
  intros Hs Hv He w'.
  destruct (sim_emit x (set_phase w PhError) f x' id) as (Hs1 & _ & Hb & Hw & Hn & Hr); [by apply sim_phase|done|].
  split_and!; [done|by apply sim_phase| |done].
  eapply (same_version_run x x' (set_phase w PhError) (emit_new (N := N) (set_phase w PhError) f)) in Hr; done.
Qed.
Lemma sim_ignored x w instr ty why hits x' b :
  sim x w -> same_version x w ->
  McuExec.on_ignored (N := N) debug_json instr ty why hits x = (x', Ok b) ->
  exists fs, let w' := fst (Reactor.on_ignored (N := N) debug_json w instr ty why hits) in
    both x x' w w' fs /\ sim x' w' /\ same_version x' w' /\ b = false /\ w_steps w' = w_steps w.
Proof.
  intros Hs Hv He. unfold McuExec.on_ignored in He. unfold Reactor.on_ignored. rewrite fresh_id_eq.
  apply bind_Ok in He as (x1 & e & He & Hr). apply bind_Ok in Hr as (x2 & tr & Htr & Hr). injection Hr as <- <-.
  set (w0 := set_phase w PhError). assert (sim x w0) as Hs0 by by apply sim_phase.
  destruct (sim_emit x w0 _ x1 e Hs0 He) as (Hs1 & Hid & Hb1 & Hw1 & Hn1 & Hr1).
  rewrite emit_new_eq in Hs1, Hb1, Hw1, Hn1. rewrite <- Hid in *. cbn beta in Hs1, Hb1, Hw1, Hn1.
  set (w1 := emit_fact (bump_ids w0) _) in *. cbn [fst]. change (gen_next (w_ids w0)) with (gen_next (w_ids w)).
  destruct (sim_emit x1 w1 _ x2 tr Hs1 Htr) as (Hs2 & _ & Hb2 & Hw2 & Hn2 & Hr2).
  exists ([FError e ("Instruction ignored by TCB: type=" +:+ ty +:+ ", reason=" +:+ why
     +:+ ", instruction=" +:+ debug_json instr)] ++ [TransitionTrace tr e (map trace_hit_from_rule_hit hits)]).
  split_and!.
  - eapply (both_app x x1 x2 w w1); [exact Hb1|exact Hb2].
  - by apply sim_phase.
  - assert (same_version x w0) as Hv0 by exact Hv.
    eapply same_version_run in Hr1; [|exact Hv0|exact Hw1]. by eapply same_version_run in Hr2; [|exact Hr1|exact Hw2].
  - done.
  - cbn. by rewrite Hn2, Hn1.
Qed.

(** One instruction that both execute. *)
Lemma sim_instruction x w instr cause t k x' b :
  sim x w -> same_version x w -> w_steps w = k ->
  execute_step (N := N) debug_json instr cause (Z.of_nat k) x = (x', Ok b) ->
  exists w' turn fs,
    execute_instruction (N := N) debug_json cfg w instr cause t = (w', turn) /\
    both x x' w w' fs /\ sim x' w' /\ same_version x' w' /\
    if b then turn = TurnLeave /\ x_queue x' = [] /\ w_steps w' = 0 else w_steps w' = w_steps w.
Proof.
  intros Hs Hv Hk He. unfold execute_step in He. unfold execute_instruction.
  rewrite (sm_pack _ _ Hs), <- (sm_payload _ _ Hs), <- (sm_queue _ _ Hs) in He.
  destruct (execute_transition _ _ _ _) as [[p q hits|ty ps|i why|ty why hits]|err].
  - destruct (sim_state _ _ _ _ _ _ _ _ Hs Hv He) as (turn & fs & Heq & Hr).
    eexists _, turn, fs. rewrite Heq in *. split; [done|exact Hr].
  - unfold McuExec.on_io_required in He. apply bind_Ok in He as (x1 & id & _ & Hr).
    by apply bind_Ok in Hr as (x2 & u & _ & Hr).
  - unfold McuExec.on_halted in He. apply bind_Ok in He as (x1 & id & He & Hr). injection Hr as <- <-.
    eexists _, _, _. split; [reflexivity|]. by apply (sim_error_phase x w _ x1 id).
  - destruct (sim_ignored _ _ _ _ _ _ _ _ Hs Hv He) as (fs & Hb & Hs' & Hv' & -> & Hn).
    eexists _, _, fs. split; [|done]. unfold Reactor.on_ignored. rewrite fresh_id_eq. reflexivity.
  - unfold McuExec.on_tcb_error in He. apply bind_Ok in He as (x1 & id & He & Hr). injection Hr as <- <-.
    rewrite pretty_of_nat, <- Hk in He.
    eexists _, _, _. split; [reflexivity|]. by apply (sim_error_phase x w _ x1 id).
Qed.

(** * The loops *)

Definition idle_input : Input := mk_input false false [] false WTimeout 0 0.
Definition pop_to x (rest : list (JsonValue * FactId)) : McuExecutor RamWalStore :=
  x_with_clock (x_with_queue x rest) (fst (tick_advance (x_clock x))).
Lemma drain_executed fuel steps executed x x' rep :
  drain (N := N) debug_json fuel steps executed x = Some (x', Ok rep) ->
  (executed <= steps_executed rep)%Z.
Proof.
  revert steps executed x. induction fuel as [|fuel IH]; intros steps executed x; cbn [drain]; [done|].
  destruct (x_queue x) as [|[instr cause] rest].
  { unfold settle. intros [= He]. apply bind_Ok in He as (x1 & [] & _ & He). injection He as _ <-. cbn. lia. }
  destruct (steps_exhausted _ _).
  { intros [= He]. apply bind_Ok in He as (x1 & [] & _ & He). injection He as _ <-. cbn. lia. }
  destruct (execute_step _ _ _ _ _) as [x1 [[]|e]]; [intros [= _ <-]; cbn; lia| |done].
  intros ?%IH. lia.
Qed.
(** A turn on an empty queue. *)
Lemma empty_turn x w fuel t :
  sim x w -> x_queue x = [] -> w_steps w < max_rounds cfg -> 0 < fuel ->
  execute_queue (N := N) debug_json cfg fuel w t = Some w.
Proof.
  intros Hs Hq Hn Hf. destruct fuel as [|fuel]; [lia|]. cbn [execute_queue]. unfold execute_turn.
  rewrite (sm_pending _ _ Hs). cbn [Nat.eqb negb]. destruct (Nat.leb_spec (max_rounds cfg) (w_steps w)); [lia|].
  unfold pop_instruction. by rewrite (sm_queue _ _ Hs), Hq.
Qed.
(** A turn on a queue: the instruction is taken and executed. *)
Lemma taken_turn x w instr cause rest t :
  sim x w -> same_version x w -> x_queue x = (instr, cause) :: rest -> w_steps w < max_rounds cfg ->
  exists w0, execute_turn (N := N) debug_json cfg w t = execute_instruction (N := N) debug_json cfg w0 instr cause t /\
    sim (pop_to x rest) w0 /\ same_version (pop_to x rest) w0 /\ w_steps w0 = Datatypes.S (w_steps w) /\
    w_events w0 = w_events w /\ w_log w0 = w_log w.
Proof.
  intros Hs Hv Hq Hn. unfold execute_turn. rewrite (sm_pending _ _ Hs). cbn [Nat.eqb negb].
  destruct (Nat.leb_spec (max_rounds cfg) (w_steps w)); [lia|].
  unfold pop_instruction. rewrite (sm_queue _ _ Hs), (sm_causes _ _ Hs), Hq. cbn [map fst snd].
  eexists. split; [reflexivity|]. destruct Hs. cbn zeta.
  split; [|split; [|split; [|split]]]; destruct (Nat.eqb _ 0); try done; by split.
Qed.
(** An iteration of the main loop with nothing from outside. *)
Definition head w : World S := set_phase (at_head w idle_input) Draining.
Lemma head_same x w : sim x w -> same_version x w ->
  sim x (head w) /\ same_version x (head w) /\ w_steps (head w) = w_steps w /\
  w_events (head w) = w_events w /\ w_log (head w) = w_log w.
Proof.
  intros Hs Hv. pose proof (sm_flags _ _ Hs) as [Hi Hc]. split_and!; try done.
  apply (sim_same x w); try done; cbn; by rewrite orb_false_r.
Qed.
Lemma idle_iteration x w :
  sim x w -> same_version x w ->
  main_iteration (N := N) debug_json cfg w idle_input = after_drain (N := N) debug_json cfg (head w) idle_input.
Proof.
  intros Hs Hv. pose proof (sm_flags _ _ Hs) as [Hi Hc]. unfold main_iteration.
  change (run_invariant_check (update_snapshot (set_flags w (w_interrupt w || in_interrupt idle_input)
    (w_cancel_all w || in_cancel_all idle_input)) false)) with (at_head w idle_input).
  change (w_interrupt (at_head w idle_input)) with (w_interrupt w || false).
  change (w_cancel_all (at_head w idle_input)) with (w_cancel_all w || false). by rewrite Hi, Hc.
Qed.
Lemma busy_iteration x w :
  sim x w -> same_version x w -> x_queue x <> [] ->
  main_iteration (N := N) debug_json cfg w idle_input =
  let! w' := execute_queue (N := N) debug_json cfg (execute_fuel cfg (head w)) (set_phase (head w) Executing) 0 in
  Some (w', Continue).
Proof.
  intros Hs Hv Hq. rewrite (idle_iteration x w Hs Hv). destruct (head_same x w Hs Hv) as (Hs' & _).
  unfold after_drain, stable_now, must_wait, detector_is_stable.
  rewrite (sm_queue _ _ Hs'), (sm_pending _ _ Hs'), length_map. destruct (x_queue x); [done|]. done.
Qed.
Lemma stable_iteration x w :
  sim x w -> same_version x w -> x_queue x = [] -> 0 < w_steps w ->
  main_iteration (N := N) debug_json cfg w idle_input = Some (report_stable (N := N) (head w), Continue).
Proof.
  intros Hs Hv Hq Hn. rewrite (idle_iteration x w Hs Hv). destruct (head_same x w Hs Hv) as (Hs' & _ & Hn' & _).
  unfold after_drain. assert (stable_now (head w) = true) as ->; [|done].
  unfold stable_now. rewrite (sm_queue _ _ Hs'), (sm_pending _ _ Hs'), length_map, Hq, Hn'.
  apply andb_true_intro. split; [done|]. by apply Nat.ltb_lt.
Qed.
(** The end of the queue. *)
Lemma sim_settle x w k x' rep :
  sim x w -> same_version x w -> x_queue x = [] -> w_steps w = k ->
  settle (N := N) (Z.of_nat k) (Z.of_nat k) x = (x', Ok rep) ->
  exists n w' fs, run_loop (N := N) debug_json cfg w (replicate n idle_input) = Some (w', Continue) /\
    both x x' w w' fs /\ sim x' w' /\ same_version x' w' /\ w_steps w' = 0 /\ x_queue x' = [] /\
    steps_executed rep = Z.of_nat k.
Proof.
  intros Hs Hv Hq Hk He. unfold settle in He. apply bind_Ok in He as (x1 & [] & He & Hr).
  injection Hr as <- <-. destruct (Z.ltb_spec 0 (Z.of_nat k)) as [Hpos|].
  - apply bind_Ok in He as (x2 & id & He & Hr). injection Hr as <-.
    destruct (head_same x w Hs Hv) as (Hsh & Hvh & _ & Heh & Hlh).
    set (w0 := set_phase (head w) PhStable). assert (sim x w0) as Hs0 by (by apply sim_phase).
    assert (x_version x = rs_version (w_state w0)) as Hver by (symmetry; apply Hvh). rewrite Hver in He.
    destruct (sim_emit x w0 _ x2 id Hs0 He) as (Hs2 & _ & (Hf2 & He2 & Hl2) & Hw2 & _ & Hr2).
    assert (same_version x2 (emit_stable (N := N) w0)) as Hv2
      by (apply (same_version_run x x2 w0); [exact Hvh|exact Hr2|exact Hw2]).
    exists 1, (report_stable (N := N) (head w)), [Stable id (rs_version (w_state w0))].
    assert (run_loop (N := N) debug_json cfg w (replicate 1 idle_input)
            = Some (report_stable (N := N) (head w), Continue)) as Hrun.
    { cbn [replicate run_loop]. rewrite (stable_iteration x w) by (done || lia). done. }
    refine (conj Hrun _).
    assert (report_stable (N := N) (head w) = set_phase (set_steps (emit_stable (N := N) w0) 0) Idle) as -> by done.
    split_and!; [|by apply (sim_same x2 (emit_stable (N := N) w0))|exact Hv2|done| |done].
    + unfold both. cbn [w_events w_log set_phase set_steps set_state]. change (emit_stable w0) with
        (emit_new (N := N) w0 (fun id => Stable id (rs_version (w_state w0)))). rewrite Hf2, He2, Hl2.
      change (w_events w0) with (w_events (head w)). change (w_log w0) with (w_log (head w)).
      by rewrite Heh, Hlh.
    + by destruct Hr2 as (_ & _ & -> & _).
  - injection He as <-. exists 0, w, []. split_and!; try done; [by apply both_refl|lia].
Qed.

(** The two loops end alike. *)
Lemma sim_drain fuel : forall k x w t fuelR x' rep,
  sim x w -> same_version x w -> w_steps w = k ->
  drain (N := N) debug_json fuel (Z.of_nat k) (Z.of_nat k) x = Some (x', Ok rep) ->
  (limit = 0 \/ steps_executed rep < limit)%Z -> (steps_executed rep < Z.of_nat (max_rounds cfg))%Z ->
  max_rounds cfg - k < fuelR ->
  exists w1 n w' fs,
    execute_queue (N := N) debug_json cfg fuelR w t = Some w1 /\
    run_loop (N := N) debug_json cfg w1 (replicate n idle_input) = Some (w', Continue) /\
    both x x' w w' fs /\ sim x' w' /\ same_version x' w' /\ w_steps w' = 0 /\ x_queue x' = [].
Proof.
  induction fuel as [|fuel IH]; intros k x w t fuelR x' rep Hs Hv Hk He Hlim Hmax Hfuel; [done|].
  pose proof (drain_executed _ _ _ _ _ _ He) as Hle. cbn [drain] in He.
  destruct (x_queue x) as [|[instr cause] rest] eqn:Hq.
  { injection He as He. destruct (sim_settle x w k x' rep Hs Hv Hq Hk He) as (n & w' & fs & Hrun & Hb & Hr).
    exists w, n, w', fs. split; [apply (empty_turn x); (done || lia)|]. tauto. }
  change (x_max_steps (x_with_queue x rest)) with (x_max_steps x) in He.
  destruct (steps_exhausted _ _) eqn:Hex.
  { exfalso. injection He as He. apply bind_Ok in He as (x1 & [] & _ & He). injection He as _ <-.
    unfold steps_exhausted in Hex. cbn [x_max_steps x_with_queue] in Hex. rewrite (sm_steps _ _ Hs) in Hex.
    cbn [steps_executed mcu_report] in Hlim. lia. }
  destruct (taken_turn x w instr cause rest t Hs Hv Hq) as (w0 & Hturn & Hs0 & Hv0 & Hn0 & He0 & Hl0); [lia|].
  change (x_with_clock (x_with_queue x rest) _) with (pop_to x rest) in He.
  assert (forall x2 w2 fs, both (pop_to x rest) x2 w0 w2 fs -> both x x2 w w2 fs) as Hskip.
  { intros x2 w2 fs Hb. unfold both in *. rewrite He0, Hl0 in Hb. exact Hb. }
  replace (Z.of_nat k + 1)%Z with (Z.of_nat (Datatypes.S k)) in He by lia.
  destruct (execute_step _ _ _ _ _) as [x1 [b|e]] eqn:Hstep; [|done].
  destruct (sim_instruction _ w0 instr cause t (Datatypes.S k) x1 b Hs0 Hv0 ltac:(lia) Hstep)
    as (w1 & turn & f1 & Hins & Hb1 & Hs1 & Hv1 & Hafter).
  rewrite Hins in Hturn. destruct fuelR as [|fuelR]; [lia|]. cbn [execute_queue]. rewrite Hturn.
  destruct b.
  { destruct Hafter as (-> & Hq1 & Hn1). injection He as <- _.
    exists w1, 0, w1, f1. split_and!; try done. by apply Hskip. }
  pose proof (drain_executed _ _ _ _ _ _ He) as Hle1.
  destruct turn.
  - destruct (IH (Datatypes.S k) x1 w1 t fuelR x' rep) as (w2 & n & w' & f2 & Hx & Hrun & Hb2 & Hr);
      [done|done|lia|done|done|done|lia|].
    exists w2, n, w', (f1 ++ f2). split_and!; [exact Hx|exact Hrun| |apply Hr..].
    by eapply both_app; [apply Hskip|].
  - destruct (decide (x_queue x1 = [])) as [Hq1|Hq1].
    + destruct (IH (Datatypes.S k) x1 w1 t (Datatypes.S (max_rounds cfg)) x' rep)
        as (w2 & n & w' & f2 & Hx & Hrun & Hb2 & Hr); [done|done|lia|done|done|done|lia|].
      rewrite (empty_turn x1 w1) in Hx by (done || lia). injection Hx as <-.
      exists w1, n, w', (f1 ++ f2). split_and!; [done|exact Hrun| |apply Hr..].
      by eapply both_app; [apply Hskip|].
    + destruct (head_same x1 w1 Hs1 Hv1) as (Hsh & Hvh & Hnh & Heh & Hlh).
      destruct (IH (Datatypes.S k) x1 (set_phase (head w1) Executing) 0%Z (execute_fuel cfg (head w1)) x' rep)
        as (w2 & n & w' & f2 & Hx & Hrun & Hb2 & Hr);
        [by apply sim_phase|done|cbn in *; lia|done|done|done|unfold execute_fuel; lia|].
      exists w1, (Datatypes.S n), w', (f1 ++ f2). split_and!; [done| | |apply Hr..].
      * cbn [replicate run_loop]. rewrite (busy_iteration x1 w1 Hs1 Hv1 Hq1), Hx. exact Hrun.
      * eapply both_app; [apply Hskip; exact Hb1|]. unfold both in *.
        cbn [w_events w_log set_phase set_state] in Hb2. rewrite Heh, Hlh in Hb2. exact Hb2.
Qed.
(** The command: the reactor receives it, the executor makes it. *)
Definition command_input (id : FactId) (instr : JsonValue) : Input :=
  mk_input false false [Command id instr] false WTimeout 0 0.
Definition push_command (id : FactId) (instr : JsonValue) x : McuExecutor RamWalStore :=
  x_with_queue x (x_queue x ++ [(instr, id)]).
Lemma sim_command x w instr x1 id :
  sim (x_with_next_id x (x_next_fact_id x + 1)%Z) w -> same_version x w ->
  append_new (N := N) (fun id => Command id instr) x = (x1, Ok id) ->
  exists w1, main_iteration (N := N) debug_json cfg w (command_input id instr) =
      (let! w' := execute_queue (N := N) debug_json cfg (execute_fuel cfg w1) (set_phase w1 Executing) 0 in
       Some (w', Continue)) /\
    sim (push_command id instr x1) w1 /\ same_version (push_command id instr x1) w1 /\
    w_steps w1 = w_steps w /\ id = (x_next_fact_id x + 1)%Z /\
    both x (push_command id instr x1) w w1 [Command id instr].
Proof.
  intros Hs Hv (Hid & Hmax & Hnext & Hfacts & Hsame)%append_new_Ok.
  set (wd := set_phase (at_head w (command_input id instr)) Draining).
  assert (sim (x_with_next_id x (x_next_fact_id x + 1)%Z) wd) as Hd
    by (apply (sim_same _ w); try done; cbn; by rewrite orb_false_r).
  destruct (emit_no_store wd (Command id instr) (sm_log _ _ Hd)) as (He & Hi & Hw).
  set (we := emit_fact (N := N) wd (Command id instr)) in *.
  set (w1 := set_state we (push_back (w_state we) instr id)).
  assert (w_state we = w_state wd) as Hst by apply emit_fact_state.
  assert (sim (push_command id instr x1) w1) as Hs1.
  { destruct Hsame as (Hp & Hpl & Hq & Hve & Hml & Hms & Hpe & Hr & Hcl).
    destruct Hd; cbn [x_with_next_id x_pack x_max_queue_len x_max_steps x_payload x_queue x_io_recovery x_next_fact_id] in *.
    split; unfold push_command, w1;
      cbn [w_state set_state w_ids w_log w_interrupt w_cancel_all x_pack x_max_queue_len x_max_steps x_payload
           x_queue x_io_recovery x_next_fact_id x_with_queue]; rewrite ?Hst.
    all: try (clear -sm_pack0 sm_limit0 sm_steps0 Hp Hml Hms sm_payload0 sm_queue0 sm_causes0 sm_recovery0 sm_pending0 sm_requests0 Hpl Hq Hr;
      set (sd := w_state wd) in *; clearbody sd; unfold push_back; cbn; rewrite ?map_app; cbn; congruence).
    - assert (w_ids we = w_ids wd) as -> by apply emit_fact_ids. rewrite Hnext, Hid. exact sm_ids0.
    - rewrite Hnext, Hid. exact sm_range0.
    - rewrite Hi. assert (w_cancel_all we = w_cancel_all wd) as -> by apply emit_fact_cancel. done.
    - exact Hw. }
  exists w1. split_and!; [|exact Hs1| |unfold w1, we; cbn; by rewrite emit_fact_steps|done|].
  - pose proof (sm_flags _ _ Hs) as [Hfi Hfc]. unfold main_iteration.
    change (run_invariant_check (update_snapshot (set_flags w (w_interrupt w || in_interrupt (command_input id instr))
      (w_cancel_all w || in_cancel_all (command_input id instr))) false)) with (at_head w (command_input id instr)).
    change (w_interrupt (at_head w _)) with (w_interrupt w || false).
    change (w_cancel_all (at_head w _)) with (w_cancel_all w || false). rewrite Hfi, Hfc. cbn [orb].
    change (in_drained (command_input id instr)) with [Command id instr]. cbn [drain_facts].
    unfold receive_fact. fold wd. fold we. cbn [handle_fact]. fold w1.
    change (in_closed _) with false. cbn iota. unfold after_drain, stable_now, must_wait, detector_is_stable.
    rewrite (sm_queue _ _ Hs1), (sm_pending _ _ Hs1), length_map. unfold push_command. cbn [x_queue x_with_queue].
    rewrite length_app, Nat.add_comm. reflexivity.
  - unfold same_version, w1, push_command. cbn [w_state set_state x_version x_with_queue]. rewrite Hst.
    destruct Hsame as (_ & _ & _ & Hve & _). rewrite Hve. exact Hv.
  - unfold both. split_and!; [exact Hfacts|exact He|unfold w1, we; cbn; by rewrite emit_fact_log].
Qed.
End Simulation.

(** * What every operation keeps *)

(** Properties that neither a new fact nor the other fields break. *)
Class Frame {N : Type} `{SerdeNumber N, SerdeText N, Blake3} (P : McuExecutor RamWalStore -> Prop) : Prop := {
  frame_append x f : P x -> (forall id, fact_id (f id) = id) -> P (fst (append_new (N := N) f x));
  frame_same x x' : P x -> x_wal x' = x_wal x -> x_next_fact_id x' = x_next_fact_id x ->
    x_max_steps x' = x_max_steps x -> P x';
}.
Section Kept.
Context {N : Type} `{SerdeNumber N, SerdeText N, Blake3}.
Context (P : McuExecutor RamWalStore -> Prop) `{!Frame (N := N) P}.
Variable debug_json : JsonValue -> string.
Implicit Types x : McuExecutor RamWalStore.

Definition kept {A} (m : Exec RamWalStore A) : Prop := forall x, P x -> P (fst (m x)).
Lemma kept_bind {A B} (m : Exec RamWalStore A) (k : A -> Exec RamWalStore B) :
  kept m -> (forall a, kept (k a)) -> kept (exec_bind m k).
Proof. intros Hm Hk x Hx. unfold exec_bind. specialize (Hm x Hx). destruct (m x) as [x1 [a|e]]; [by apply Hk|done]. Qed.
Lemma kept_append f : (forall id, fact_id (f id) = id) -> kept (append_new (N := N) f).
Proof. intros Hf x Hx. by apply frame_append. Qed.
Lemma kept_same {A} (m : Exec RamWalStore A) :
  (forall x, x_wal (fst (m x)) = x_wal x /\ x_next_fact_id (fst (m x)) = x_next_fact_id x /\
     x_max_steps (fst (m x)) = x_max_steps x) -> kept m.
Proof. intros Hm x Hx. destruct (Hm x) as (? & ? & ?). by eapply frame_same. Qed.
Lemma kept_bump : kept bump.
Proof. apply kept_same. intros x. unfold bump. by destruct (u64_checked_add _ _). Qed.
Lemma kept_stable : kept (fun x => append_new (N := N) (fun id => Stable id (x_version x)) x).
Proof. intros x Hx. by apply frame_append. Qed.
Lemma kept_from x x1 {A} (m : Exec RamWalStore A) :
  kept m -> P x -> x_wal x1 = x_wal x -> x_next_fact_id x1 = x_next_fact_id x ->
  x_max_steps x1 = x_max_steps x -> P (fst (m x1)).
Proof. intros Hm Hx Hw Hn Hs. apply Hm. by eapply frame_same. Qed.
Lemma kept_stop message : kept (stop_with_error (N := N) message).
Proof.
  apply kept_bind; [by apply kept_append|]. intros _. apply kept_bind; [by apply kept_same|].
  intros _. apply kept_bind; [apply kept_stable|]. intros _. by apply kept_same.
Qed.
Create HintDb kept.
#[local] Hint Resolve kept_bind kept_append kept_bump kept_stable kept_stop : kept.
#[local] Hint Extern 1 (kept _) => apply kept_same; intros ?; done : kept.
Ltac keep := repeat (apply kept_bind; [by eauto with kept|intros ?]); eauto with kept.
Lemma kept_settle steps executed : kept (settle (N := N) steps executed).
Proof.
  intros x Hx. unfold settle. apply kept_bind; [|by keep|done].
  destruct (0 <? steps)%Z; [|by keep]. apply kept_bind; [apply kept_append; done|by keep].
Qed.
Lemma kept_on_state cause p q hits : kept (McuExec.on_state (N := N) cause p q hits).
Proof.
  intros x Hx. unfold McuExec.on_state. destruct (_ && _)%bool.
  - eapply kept_from; [|exact Hx|done|done|done]. by keep.
  - set (x1 := x_with_queue _ _). set (x2 := if x_io_recovery x1 then _ else x1).
    eapply (kept_from x x2); [by keep|exact Hx|unfold x2; by destruct (x_io_recovery x1)..].
Qed.
Lemma kept_step instr cause steps : kept (execute_step (N := N) debug_json instr cause steps).
Proof.
  intros x Hx. unfold execute_step.
  destruct (execute_transition _ _ _ _) as [[p q hits|ty ps|i why|ty why hits]|err].
  - by apply kept_on_state.
  - eapply kept_from; [|exact Hx|done|done|done]. by keep.
  - eapply kept_from; [|exact Hx|done|done|done]. by keep.
  - eapply kept_from; [|exact Hx|done|done|done]. by keep.
  - eapply kept_from; [|exact Hx|done|done|done]. by keep.
Qed.
Lemma kept_drain fuel steps executed x x' r :
  P x -> drain (N := N) debug_json fuel steps executed x = Some (x', r) -> P x'.
Proof.
  revert steps executed x. induction fuel as [|fuel IH]; intros steps executed x Hx; cbn [drain]; [done|].
  destruct (x_queue x) as [|[instr cause] rest].
  { intros [= Heq]. pose proof (kept_settle steps executed x Hx) as Hk. by rewrite Heq in Hk. }
  destruct (steps_exhausted _ _).
  { intros [= Heq]. refine (_ (kept_from x (x_with_queue x rest) _ _ Hx _ _ _)).
    - intros Hk. rewrite Heq in Hk. exact Hk.
    - by keep.
    - done.
    - done.
    - done. }
  pose proof (kept_step instr cause (steps + 1) (pop_to x rest)) as Hk.
  change (x_with_clock (x_with_queue x rest) _) with (pop_to x rest).
  assert (P (pop_to x rest)) as Hp by (by apply (frame_same x)).
  specialize (Hk Hp). destruct (execute_step _ _ _ _ _) as [x1 [[]|e]]; cbn in Hk.
  - by intros [= <- _].
  - by apply IH.
  - by intros [= <- _].
Qed.
Lemma kept_command instr :
  kept (exec_bind (append_new (N := N) (fun id => Command id instr))
          (fun id => modify (fun x => x_with_queue x (x_queue x ++ [(instr, id)])))).
Proof. by keep. Qed.
Lemma kept_accept request result error :
  kept (exec_bind (append_new (N := N) (fun id => IoResponse id request result error))
          (fun _ => accept_response (N := N) request result error)).
Proof.
  apply kept_bind; [by apply kept_append|]. intros _ y Hy. unfold accept_response.
  destruct (take_pending _ _) as [[p rest]|].
  - destruct (_ || _)%bool; (eapply kept_from; [apply kept_bump|exact Hy|done|done|done]).
  - eapply kept_from; [|exact Hy|done|done|done]. by keep.
Qed.
Lemma kept_run fuel instr x x' r :
  P x -> run (N := N) debug_json fuel instr x = Some (x', r) -> P x'.
Proof.
  intros Hx. unfold run. pose proof (kept_command instr x Hx) as Hm.
  destruct (exec_bind _ _ x) as [x1 [u|e]]; [by apply kept_drain|by intros [= <- _]].
Qed.
Lemma kept_resume fuel request outcome x x' r :
  P x -> resume_io (N := N) debug_json fuel request outcome x = Some (x', r) -> P x'.
Proof.
  intros Hx. unfold resume_io. destruct (match outcome with Ok v => _ | Err _ => _ end) as [result error].
  pose proof (kept_accept request result error x Hx) as Hm.
  destruct (exec_bind _ _ x) as [x1 [u|e]]; [by apply kept_drain|by intros [= <- _]].
Qed.
End Kept.

(** * The log of an executor *)

Section Log.
Context {N : Type} `{SerdeNumber N, SerdeText N, Blake3}.
Variable debug_json : JsonValue -> string.
Implicit Types x : McuExecutor RamWalStore.

(** The executors there are: new ones, and those a run or a response leaves. *)
Inductive mcu_life : McuExecutor RamWalStore -> Prop :=
| life_start pack payload max_queue max_steps : mcu_life (with_options pack payload max_queue max_steps)
| life_run fuel instruction x x' r :
    mcu_life x -> run (N := N) debug_json fuel instruction x = Some (x', r) -> mcu_life x'
| life_resume fuel request outcome x x' r :
    mcu_life x -> resume_io (N := N) debug_json fuel request outcome x = Some (x', r) -> mcu_life x'.
Lemma life_kept (P : McuExecutor RamWalStore -> Prop) `{!Frame (N := N) P} x :
  (forall pack payload mq ms, P (with_options pack payload mq ms)) -> mcu_life x -> P x.
Proof.
  intros Hstart. induction 1 as [|fuel i x x' r _ IH Hr|fuel q o x x' r _ IH Hr]; [done| |].
  - by apply (kept_run P debug_json fuel i x x' r IH).
  - by apply (kept_resume P debug_json fuel q o x x' r IH).
Qed.

Definition record_of (m : McuWalRecord) : WalRecord :=
  mk_record (m_version_before m) (m_fact m) (Some (m_content_hash m)) (Some (m_prev_hash m)) (Some (m_chain_hash m)).
Record recorded x : Prop := {
  rc_chained : chained (N := N) "genesis" (map record_of (ram_records (x_wal x)));
  rc_tail : chain_from (N := N) "genesis" (facts_in x) = Ok (ram_tail (x_wal x));
  rc_sorted : StronglySorted Z.lt (map fact_id (facts_in x));
  rc_ids : Forall (fun id => 0 < id <= x_next_fact_id x)%Z (map fact_id (facts_in x));
  rc_next : (0 <= x_next_fact_id x)%Z;
}.
Lemma recorded_start pack payload mq ms : recorded (with_options pack payload mq ms).
Proof. split; cbn; try done; constructor. Qed.
Lemma facts_of_records records : map rec_fact (map record_of records) = map m_fact records.
Proof. by rewrite map_map. Qed.
Lemma sorted_snoc l z : StronglySorted Z.lt l -> Forall (fun i => i < z)%Z l -> StronglySorted Z.lt (l ++ [z]).
Proof.
  induction 1 as [|i l Hl IH Hi]; cbn; [by repeat constructor|]. intros [Hz Hls]%Forall_cons_1.
  constructor; [by apply IH|]. apply Forall_app. split; [done|by constructor].
Qed.
#[export] Instance recorded_frame : Frame (N := N) recorded.
Proof.
  split.
  - intros x f [Hc Ht Hs Hi Hn] Hf. unfold append_new, exec_bind, mcu_next_id, u64_checked_add.
    destruct (Z.leb_spec (x_next_fact_id x + 1) u64_max); [|by split].
    set (x1 := x_with_next_id x _). unfold append_fact.
    assert (Forall (fun id => 0 < id <= x_next_fact_id x1)%Z (map fact_id (facts_in x1))) as Hi1.
    { eapply Forall_impl; [exact Hi|]. cbn. intros. lia. }
    destruct (fact_hash (f _)) as [content|] eqn:Hh; cbn [fst snd]; [|split; (done || (cbn; lia))].
    match goal with |- recorded ?y => set (x2 := y) end.
    assert (facts_in x2 = facts_in x ++ [f (x_next_fact_id x + 1)%Z]) as Hfs.
    { unfold facts_in. cbn. by rewrite map_app. }
    split; rewrite ?Hfs.
    + cbn. rewrite map_app. eapply chained_snoc; [exact Hc|by rewrite facts_of_records|by split_and!].
    + rewrite chain_from_app, Ht. cbn. rewrite Hh. cbn. unfold ram_tail. cbn. by rewrite last_snoc.
    + rewrite map_app. cbn. rewrite Hf. apply sorted_snoc; [done|]. eapply Forall_impl; [exact Hi|]. cbn. intros. lia.
    + rewrite map_app. apply Forall_app. split; [exact Hi1|]. cbn. rewrite Hf. constructor; [cbn; lia|done].
    + cbn. lia.
  - intros x x' [Hc Ht Hs Hi Hn] Hw Hnext _. by split; unfold facts_in in *; rewrite ?Hw, ?Hnext.
Qed.
#[export] Instance steps_frame limit : Frame (N := N) (fun x => x_max_steps x = limit).
Proof.
  split; [|by intros x x' <- _ _ ->]. intros x f Hx _. unfold append_new, exec_bind, mcu_next_id, append_fact.
  destruct (u64_checked_add _ _); [|done]. by destruct (fact_hash _).
Qed.

(** A queue that is drained ends within the budget of steps. *)
Lemma drain_ends fuel limit : forall steps executed x,
  x_max_steps x = limit -> (0 < limit)%Z -> (0 <= steps)%Z -> (Z.to_nat (limit - steps) < fuel)%nat ->
  exists x' r, drain (N := N) debug_json fuel steps executed x = Some (x', r) /\
    forall rep, r = Ok rep -> (steps_executed rep <= executed + Z.max 0 (limit - steps))%Z.
Proof.
  induction fuel as [|fuel IH]; intros steps executed x Hx Hlim Hpos Hfuel; [lia|]. cbn [drain].
  destruct (x_queue x) as [|[instr cause] rest].
  { unfold settle. match goal with |- context [Some ?p] => destruct p as [x' r] eqn:Hp end.
    exists x', r. split; [done|]. intros rep ->. apply bind_Ok in Hp as (x1 & [] & _ & Hr).
    injection Hr as _ <-. cbn. lia. }
  unfold steps_exhausted. change (x_max_steps (x_with_queue x rest)) with (x_max_steps x). rewrite Hx.
  destruct (Z.ltb_spec 0 limit); [|lia]. destruct (Z.leb_spec limit steps); cbn [andb].
  { match goal with |- context [Some ?p] => destruct p as [x' r] eqn:Hp end.
    exists x', r. split; [done|]. intros rep ->. apply bind_Ok in Hp as (x1 & [] & _ & Hr).
    injection Hr as _ <-. cbn. lia. }
  change (x_with_clock (x_with_queue x rest) _) with (pop_to x rest).
  pose proof (kept_step (fun x => x_max_steps x = limit) debug_json instr cause (steps + 1) (pop_to x rest) Hx) as Hk.
  destruct (execute_step _ _ _ _ _) as [x1 [[]|e]]; cbn [fst] in Hk.
  - eexists _, _. split; [done|]. intros rep [= <-]. cbn. lia.
  - destruct (IH (steps + 1)%Z (executed + 1)%Z x1) as (x' & r & Hr & Hle); [done|done|lia|lia|].
    exists x', r. split; [done|]. intros rep Hrep. specialize (Hle rep Hrep). lia.
  - by eexists _, _.
Qed.
End Log.

(** * Properties *)

(** C18: the microcontroller kernel is the reactor.  An executor and a reactor
    that hold the same rules, limits and state, the reactor with no I/O pending
    and no store behind its log, are given the same command.  If the run of
    the executor ends without asking for I/O and within its limit of steps and
    the reactor's of rounds, the main loop of the reactor, left alone after the
    command, produces the same facts in the same order with the same
    identifiers, and ends with the same payload, queue, causes and version. *)
Theorem mcu_run_is_reactor {N S : Type} `{SerdeNumber N, SerdeText N, Blake3, FactWalStore S}
    (debug_json : JsonValue -> string) (cfg : Reactor) (limit : Z) (x : McuExecutor RamWalStore)
    (w : World S) (fuel : nat) (instr : JsonValue) (x' : McuExecutor RamWalStore) (rep : RunReport) :
  sim cfg limit (x_with_next_id x (x_next_fact_id x + 1)%Z) w -> same_version x w -> w_steps w = 0 ->
  run (N := N) debug_json fuel instr x = Some (x', Ok rep) ->
  (limit = 0 \/ steps_executed rep < limit)%Z -> (steps_executed rep < Z.of_nat (max_rounds cfg))%Z ->
  exists n w' fs,
    run_loop (N := N) debug_json cfg w
      (command_input (x_next_fact_id x + 1)%Z instr :: replicate n idle_input) = Some (w', Continue) /\
    facts_in x' = facts_in x ++ Command (x_next_fact_id x + 1)%Z instr :: fs /\
    w_events w' = w_events w ++ Command (x_next_fact_id x + 1)%Z instr :: fs /\
    w_log w' = append_all (N := N) (w_log w) (Command (x_next_fact_id x + 1)%Z instr :: fs) /\
    rs_payload (w_state w') = x_payload x' /\ x_queue x' = [] /\ rs_queue (w_state w') = [] /\
    rs_version (w_state w') = x_version x' /\ sim cfg limit x' w'.
Proof.
  intros Hs Hv Hn Hrun Hlim Hmax. unfold run in Hrun.
  destruct (exec_bind _ _ x) as [x0 [u|e]] eqn:Hm; [|done].
  apply bind_Ok in Hm as (x1 & id & Ha & Hr). injection Hr as <- _.
  destruct (sim_command debug_json cfg limit x w instr x1 id Hs Hv Ha)
    as (w1 & Hiter & Hs1 & Hv1 & Hn1 & -> & Hb1).
  destruct (sim_drain debug_json cfg limit fuel 0 (push_command (x_next_fact_id x + 1)%Z instr x1)
    (set_phase w1 Executing) 0 (execute_fuel cfg w1) x' rep)
    as (w2 & n & w' & fs & Hx & Hloop & Hb2 & Hs2 & Hv2 & _ & Hq);
    [by apply sim_phase|done|cbn; lia|done|done|done|unfold execute_fuel; lia|].
  exists n, w', fs. destruct (both_app (N := N) x _ x' w w1 w' _ fs Hb1 Hb2) as (Hf & He & Hl).
  split_and!; [|exact Hf|exact He|exact Hl|apply Hs2|done| |apply Hv2|done].
  - cbn [run_loop]. rewrite Hiter, Hx. exact Hloop.
  - by rewrite (sm_queue _ _ _ _ Hs2), Hq.
Qed.

(** The log of an executor is its audit trail.  Whatever runs and I/O
    responses an executor has had, and however they ended, the independent
    verifier accepts the lines of its log with the tail the executor reports,
    the identifiers grow along it, and each line is the line the server's log
    writes for that record. *)
Lemma mcu_log_verifies {N : Type} `{SerdeNumberLaws N, SerdeText N, Blake3, SerdeNumberEq N, !SerdeNumberEqLaws N}
    (debug_json : JsonValue -> string) (x : McuExecutor RamWalStore) :
  mcu_life (N := N) debug_json x ->
  (exists r, verify_wal_lines (N := N) (map line_of_record (map record_of (ram_records (x_wal x)))) = Some r /\
     wal_all_ok r = true /\ wp_tail_hash r = ram_tail (x_wal x)) /\
  StronglySorted Z.lt (map fact_id (facts_in x)) /\
  Forall (fun id => 0 < id <= x_next_fact_id x)%Z (map fact_id (facts_in x)) /\
  forall i m, ram_records (x_wal x) !! i = Some m ->
    ram_line (N := N) (x_wal x) i =
    match serde_to_string (record_with_hash_json (N := N) (m_version_before m) (m_fact m) (m_content_hash m)
            (m_prev_hash m) (m_chain_hash m)) with
    | Ok line => Ok line
    | Err e => Err (McuSerde ("WAL line serialize failed: " +:+ e))
    end.
Proof.
  intros Hlife. assert (recorded (N := N) x) as [Hc Ht Hs Hi _].
  { eapply (life_kept debug_json); [apply recorded_frame|apply recorded_start|exact Hlife]. }
  split_and!; [|done|done|].
  - apply wal_lines_accepts, good_lines_chained; [by eapply chained_hashed|]. by rewrite facts_of_records.
  - intros i m Hm. unfold ram_line. rewrite Hm. apply line_as_native.
Qed.

(** C20: a run always ends.  With a limit on the steps of a run, [run] and
    [resume_io] return whatever the rules, the queue and the response, and
    they report at most that many steps. *)
Theorem mcu_run_ends {N : Type} `{SerdeNumber N, SerdeText N, Blake3}
    (debug_json : JsonValue -> string) (x : McuExecutor RamWalStore) (fuel : nat) :
  (0 < x_max_steps x)%Z -> (Z.to_nat (x_max_steps x) < fuel)%nat ->
  (forall instruction, exists x' r, run (N := N) debug_json fuel instruction x = Some (x', r) /\
    forall rep, r = Ok rep -> (steps_executed rep <= x_max_steps x)%Z) /\
  (forall request outcome, exists x' r, resume_io (N := N) debug_json fuel request outcome x = Some (x', r) /\
    forall rep, r = Ok rep -> (steps_executed rep <= x_max_steps x)%Z).
Proof.
  intros Hpos Hfuel. set (P := fun y : McuExecutor RamWalStore => x_max_steps y = x_max_steps x).
  assert (forall y, P y -> exists x' r, drain (N := N) debug_json fuel 0 0 y = Some (x', r) /\
    forall rep, r = Ok rep -> (steps_executed rep <= x_max_steps x)%Z) as Hdrain.
  { intros y Hy. destruct (drain_ends debug_json fuel (x_max_steps x) 0 0 y) as (x' & r & Hr & Hle); [done|lia..|].
    exists x', r. split; [done|]. intros rep Hrep. specialize (Hle rep Hrep). lia. }
  split.
  - intros instruction. unfold run. set (m := exec_bind _ _).
    pose proof (kept_command P instruction x eq_refl : P (fst (m x))) as Hm.
    destruct (m x) as [x1 [u|e]]; [by apply Hdrain|by eexists _, _].
  - intros request outcome. unfold resume_io. destruct (match outcome with Ok v => _ | Err _ => _ end) as [result error].
    set (m := exec_bind _ _). pose proof (kept_accept P request result error x eq_refl : P (fst (m x))) as Hm.
    destruct (m x) as [x1 [u|e]]; [by apply Hdrain|by eexists _, _].
Qed.

(** * Examples *)

Module McuDemo.
Import ZNumber ZText ZHash.
#[local] Existing Instance ZText.text.
#[local] Existing Instance ZHash.hash.
Definition show (v : JsonValue) : string := "".
Definition pack : RulePack := {| pack_rules := [guard_example; set_example] |}.
Definition step : JsonValue := object_from_pairs [("type", JString "step")].
Definition exec0 : McuExecutor RamWalStore := with_options pack empty_object 10 20.
Definition config : Reactor := mk_reactor (pack_rules pack) 30 10 30 60 (Some 2%Z) None.
Definition world0 : World MemoryWalStore := spawn config log_new.
Definition ran : option (McuExecutor RamWalStore * Result RunReport McuError) :=
  run (N := Z) show 21 step exec0.
Definition after : McuExecutor RamWalStore := match ran with Some (x, _) => x | None => exec0 end.
Lemma sim_start : sim config 20 (x_with_next_id exec0 1) world0.
Proof. by split. Qed.
End McuDemo.
Import McuDemo EvidDemo ZNumber.
#[local] Existing Instance ZText.text.
#[local] Existing Instance ZHash.hash.

Lemma mcu_run_is_reactor_witness :
  exists rep, run (N := Z) show 21 step exec0 = Some (after, Ok rep) /\ length (facts_in after) = 4 /\
    exists n w' fs,
      run_loop (N := Z) show config world0 (command_input 1%Z step :: replicate n idle_input) = Some (w', Continue) /\
      w_events w' = Command 1%Z step :: fs /\ facts_in after = Command 1%Z step :: fs.
Proof.
  assert (exists rep, run (N := Z) show 21 step exec0 = Some (after, Ok rep) /\ steps_executed rep = 1%Z)
    as (rep & Hrun & Hsteps) by (eexists; split; vm_compute; reflexivity).
  exists rep. split; [exact Hrun|]. split; [vm_compute; reflexivity|].
  destruct (mcu_run_is_reactor (N := Z) show config 20 exec0 world0 21 step after rep sim_start
    (conj eq_refl (Z.le_refl 0)) eq_refl Hrun) as (n & w' & fs & Hloop & Hf & He & _).
  - right. rewrite Hsteps. reflexivity.
  - rewrite Hsteps. reflexivity.
  - exists n, w', fs. split_and!; [exact Hloop|exact He|exact Hf].
Defined.
Lemma mcu_log_verifies_witness :
  length (ram_records (x_wal after)) = 4 /\ map fact_id (facts_in after) = [1%Z; 2%Z; 3%Z; 4%Z] /\
  exists r, verify_wal_lines (N := Z) (map line_of_record (map record_of (ram_records (x_wal after)))) = Some r /\
    wal_all_ok r = true.
Proof.
  split; [vm_compute; reflexivity|]. split; [vm_compute; reflexivity|].
  assert (mcu_life (N := Z) show after) as Hlife.
  { assert (exists r, run (N := Z) show 21 step exec0 = Some (after, r)) as [r Hr]
      by (eexists; vm_compute; reflexivity).
    exact (life_run show 21 step exec0 after r (life_start show pack empty_object 10 20) Hr). }
  destruct (mcu_log_verifies (N := Z) show after Hlife) as ((r & Hr & Hok & _) & _).
  exists r. split; [exact Hr|exact Hok].
Defined.
Lemma mcu_run_ends_witness :
  (0 < x_max_steps exec0)%Z /\
  exists x' r, resume_io (N := Z) show 21 7 (Err "late") exec0 = Some (x', r) /\
    forall rep, r = Ok rep -> (steps_executed rep <= 20)%Z.
Proof.
  split; [reflexivity|]. apply (mcu_run_ends (N := Z) show exec0 21); [reflexivity|cbn; lia].
Defined.
