(* ===== verification/TimeMachine.v ===== *)
(** Looking back: [evorule-governance/src/time_machine.rs] (the state at a
    version, the difference of two) and the two functions of
    [evorule-governance/src/session.rs] that find the state a session is forked
    from, in memory and in an archived write-ahead log. *)

From S2P Require Import Prelude ObjectMap Value Error Path Domain Executor ExecSemantics Transition Fact Serde Hash Wal WalFile FactsLog EvidParse EvidVerify.

(** * Applying an update *)

(** The walk of [apply_payload_update] over the parts of a path. *)
Fixpoint update_walk (current : JsonValue) (parts : list string) (value : JsonValue) : JsonValue :=
  match parts with
  | [] => current
  | [field] =>
      match current with
      | JObject map => JObject (obj_insert map field value)
      | _ => current
      end
  | part :: rest =>
      match current with
      | JObject map =>
          let map := if map_contains_key map part then map else obj_insert map part empty_object in
          match map_get_mut map part with
          | Some (next, put) => JObject (put (update_walk next rest value))
          | None => JObject map
          end
      | _ => current
      end
  end.
Definition apply_payload_update (payload : JsonValue) (path : string) (value : JsonValue) : JsonValue :=
  match resolve_path_mut payload path with
  | Some (_, put) => put value
  | None => update_walk payload (split_char "." path) value
  end.

(** * The state at a version *)

Section TimeMachine.
Context {N : Type} `{SerdeNumber N, SerdeText N, Blake3, SerdeNumberEq N}.

Fixpoint json_value_to_serde (v : JsonValue) : SValue N :=
  match v with
  | JNull => SNull
  | JBool b => SBool b
  | JInteger i => SNumber (num_from_i64 i)
  | JU64 v => SNumber (num_from_u64 v)
  | JString s => SString s
  | JArray arr => SArray (map json_value_to_serde arr)
  | JObject obj => s_object (map (fun kv => (fst kv, json_value_to_serde (snd kv))) obj)
  end.

(** [struct RewindSnapshot], [struct PayloadDiff] and [struct TimeMachineError]. *)
Record RewindSnapshot : Type := mk_rewind {
  rw_payload : SValue N;
  rw_queue : list (SValue N);
  rw_version : Z;
}.
Record PayloadDiff : Type := mk_diff {
  added : list (string * SValue N);
  removed : list (string * SValue N);
  changed : list (string * SValue N * SValue N);
  unchanged : list string;
}.
Definition diff_is_empty (d : PayloadDiff) : bool :=
  Nat.eqb (length (added d)) 0 && Nat.eqb (length (removed d)) 0 && Nat.eqb (length (changed d)) 0.
Definition change_count (d : PayloadDiff) : nat :=
  length (added d) + length (removed d) + length (changed d).
Definition show_len (n : nat) : string := pretty (N.of_nat n).
Definition diff_summary (d : PayloadDiff) : string :=
  "diff: +" +:+ show_len (length (added d)) +:+ " -" +:+ show_len (length (removed d)) +:+ " ~"
  +:+ show_len (length (changed d)) +:+ " (=" +:+ show_len (length (unchanged d)) +:+ " unchanged)".
Record TimeMachineError : Type := mk_tm_error { tm_version : Z }.
Definition tm_error_display (e : TimeMachineError) : string :=
  "time machine: rewind to version " +:+ pretty (tm_version e)
  +:+ " unavailable (facts history insufficient or version out of range)".

(** The loop variables: payload, queue and version. *)
Record Replay : Type := mk_replay { rp_payload : JsonValue; rp_queue : list JsonValue; rp_version : Z }.
Definition replay_new : Replay := mk_replay empty_object [] 0.
Definition rewind_fact (s : Replay) (fact : Fact) : Replay :=
  match fact with
  | StateTransition _ _ new_payload new_queue =>
      mk_replay new_payload new_queue (u64_wrapping_add (rp_version s) 1)
  | IoResponse _ _ _ _ => mk_replay (rp_payload s) (rp_queue s) (u64_wrapping_add (rp_version s) 1)
  | PayloadUpdate _ path value =>
      mk_replay (apply_payload_update (rp_payload s) path value) (rp_queue s)
        (u64_wrapping_add (rp_version s) 1)
  | _ => s
  end.
Fixpoint rewind_loop (target : Z) (s : Replay) (facts : list Fact) : Replay :=
  match facts with
  | [] => s
  | fact :: rest =>
      let s := rewind_fact s fact in
      if (rp_version s =? target)%Z then s else rewind_loop target s rest
  end.
Definition rewind (facts : list Fact) (target_version : Z) : option RewindSnapshot :=
  if (target_version =? 0)%Z then Some (mk_rewind (SObject []) [] 0)
  else
    let s := rewind_loop target_version replay_new facts in
    if (rp_version s <? target_version)%Z then None
    else Some (mk_rewind (json_value_to_serde (rp_payload s)) (map json_value_to_serde (rp_queue s)) (rp_version s)).

(** [compute_diff]: the keys of the first in order, then those of the second. *)
Definition s_as_object (v : SValue N) : option (ObjectMap (SValue N)) :=
  match v with SObject m => Some m | _ => None end.
Definition s_field (v : SValue N) (key : string) : option (SValue N) :=
  match s_as_object v with Some m => map_get m key | None => None end.
Definition diff_entry (payload_b : SValue N) (d : PayloadDiff) (entry : string * SValue N) : PayloadDiff :=
  let '(key, val_a) := entry in
  match s_field payload_b key with
  | Some val_b =>
      if s_eqb val_a val_b then mk_diff (added d) (removed d) (changed d) (unchanged d ++ [key])
      else mk_diff (added d) (removed d) (changed d ++ [(key, val_a, val_b)]) (unchanged d)
  | None => mk_diff (added d) (removed d ++ [(key, val_a)]) (changed d) (unchanged d)
  end.
Definition diff_added (payload_a : SValue N) (d : PayloadDiff) (entry : string * SValue N) : PayloadDiff :=
  let '(key, val_b) := entry in
  match s_field payload_a key with
  | Some _ => d
  | None => mk_diff (added d ++ [(key, val_b)]) (removed d) (changed d) (unchanged d)
  end.
Definition compute_diff (payload_a payload_b : SValue N) : PayloadDiff :=
  let d := mk_diff [] [] [] [] in
  let d := fold_left (diff_entry payload_b) (default [] (s_as_object payload_a)) d in
  fold_left (diff_added payload_a) (default [] (s_as_object payload_b)) d.
Definition diff (facts : list Fact) (v_a v_b : Z) : Result PayloadDiff TimeMachineError :=
  let? payload_a := ok_or (rw_payload <$> rewind facts v_a) (mk_tm_error v_a) in
  let? payload_b := ok_or (rw_payload <$> rewind facts v_b) (mk_tm_error v_b) in
  Ok (compute_diff payload_a payload_b).

(** * The state a session is forked from *)

(** [enum SessionError]. *)
Inductive SessionError : Type :=
| SessionNotFound (id : Z)
| LimitExceeded (current max : Z)
| InvalidVersion (version : Z)
| WalUnavailable (session_id : Z) (source : FactsLogError)
| ArchiveCorrupted (reason : string).
Definition session_error_display (e : SessionError) : string :=
  match e with
  | SessionNotFound id => "Session " +:+ pretty id +:+ " not found"
  | LimitExceeded current max => "Session limit exceeded: " +:+ pretty current +:+ "/" +:+ pretty max
  | InvalidVersion version => "Invalid version " +:+ pretty version
  | WalUnavailable session_id source =>
      "WAL unavailable, session creation rejected: session " +:+ pretty session_id +:+ ": "
      +:+ facts_log_error_display source
  | ArchiveCorrupted reason => "Archive WAL integrity check failed: " +:+ reason
  end.

(** Here the version is the one recorded with the fact, plus one. *)
Definition replay_recorded (s : JsonValue * Z) (entry : Z * Fact) : JsonValue * Z :=
  let '(payload, version) := s in
  let '(version_before, fact) := entry in
  match fact with
  | StateTransition _ _ new_payload _ => (new_payload, u64_wrapping_add version_before 1)
  | IoResponse _ _ _ _ => (payload, u64_wrapping_add version_before 1)
  | PayloadUpdate _ path value =>
      (apply_payload_update payload path value, u64_wrapping_add version_before 1)
  | _ => s
  end.
Fixpoint recorded_loop (target : option Z) (s : JsonValue * Z) (entries : list (Z * Fact)) : JsonValue * Z :=
  match entries with
  | [] => s
  | entry :: rest =>
      let s := replay_recorded s entry in
      if bool_decide (Some (snd s) = target) then s else recorded_loop target s rest
  end.
Definition rewind_payload {S} (log : FactsLog S) (target_version : Z) : option JsonValue :=
  if (target_version =? 0)%Z then Some empty_object
  else
    let '(payload, version) := recorded_loop (Some target_version) (empty_object, 0%Z) (history_with_versions log) in
    if (version <? target_version)%Z then None else Some payload.

(** The hash checks over an archive. *)
Definition archive_record (prev_hash : string) (r : WalRecord) : Result string SessionError :=
  let at_fact := pretty (fact_id (rec_fact r)) in
  match fact_hash (N := N) (rec_fact r) with
  | Err e => Err (ArchiveCorrupted ("content hash failure at fact " +:+ at_fact +:+ ": " +:+ hash_error_display e))
  | Ok content_hash =>
      match rec_content_hash r with
      | Some stored =>
          if negb (String.eqb stored content_hash) then
            Err (ArchiveCorrupted ("content_hash mismatch at fact " +:+ at_fact))
          else
            let chain_hash := chain_step prev_hash content_hash in
            match rec_chain_hash r with
            | Some stored_chain =>
                if negb (String.eqb stored_chain chain_hash) then
                  Err (ArchiveCorrupted ("chain_hash mismatch at fact " +:+ at_fact))
                else Ok chain_hash
            | None => Ok chain_hash
            end
      | None =>
          Err (ArchiveCorrupted ("legacy (hashless) record at fact " +:+ at_fact
                                 +:+ " — cannot prove integrity"))
      end
  end.
Fixpoint archive_check (prev_hash : string) (records : list WalRecord) : Result unit SessionError :=
  match records with
  | [] => Ok tt
  | r :: rest => let? prev_hash := archive_record prev_hash r in archive_check prev_hash rest
  end.
Definition record_entry (r : WalRecord) : Z * Fact := (version_before r, rec_fact r).
Definition payload_from_wal_records (records : list WalRecord) (target_version : option Z) :
    Result (JsonValue * Z) SessionError :=
  let? _u := archive_check "genesis" records in
  if bool_decide (target_version = Some 0%Z) then Ok (empty_object, 0%Z)
  else
    let '(payload, version) := recorded_loop target_version (empty_object, 0%Z) (map record_entry records) in
    match target_version with
    | None => Ok (payload, version)
    | Some t => if (t <=? version)%Z then Ok (payload, version) else Err (InvalidVersion t)
    end.
End TimeMachine.
Arguments RewindSnapshot : clear implicits.
Arguments PayloadDiff : clear implicits.
