(* ===== verification/TimeMachineSpec.v ===== *)
(** Theorems about looking back: a past version is the state the log had then,
    the difference of two versions is exact, and an archive that forks a
    session is a hash chain replayed to the version asked for. *)

From S2P Require Import Prelude ObjectMap Value Error Path Domain Executor ExecSemantics Transition Fact Serde Hash Wal WalFile FactsLog FactsLogSpec Recovery EvidParse EvidVerify EvidSpec TimeMachine.

(** * The same update, the same JSON *)

Lemma split_char_one c s : length (split_char c s) = 1 -> split_char c s = [s].
Proof.
  induction s as [|a s IH]; cbn; [done|]. assert (split_char c s <> []) as Hne.
  { destruct s as [|b s']; cbn; [done|]. destruct (Ascii.eqb b c); [done|]. by destruct (split_char c s'). }
  destruct (Ascii.eqb a c); cbn; [by destruct (split_char c s)|].
  destruct (split_char c s) as [|x l]; [done|]. cbn in *. intros Hl. by injection (IH Hl) as -> ->.
Qed.
Lemma update_walk_log current parts value : update_walk current parts value = insert_parts current parts value.
Proof. done. Qed.
(** The log and the time machine apply an update alike. *)
Lemma apply_payload_update_log payload path value :
  apply_payload_update payload path value = payload_update payload path value.
Proof.
  unfold apply_payload_update, payload_update, payload_fallback.
  destruct (resolve_path_mut payload path) as [[t put]|]; [done|]. rewrite update_walk_log.
  destruct (Nat.eqb_spec (length (split_char "." path)) 1) as [Hn|]; [|done].
  destruct (contains "[" path); [done|]. cbn [andb negb]. by rewrite (split_char_one _ _ Hn).
Qed.

Section Replays.
Context {N : Type} `{SerdeNumber N, SerdeText N, Blake3}.
Lemma json_value_to_serde_hash v : json_value_to_serde (N := N) v = tcb_to_serde v.
Proof. done. Qed.

(** * States after facts *)

Definition states (st : LogState) (fs : list Fact) : LogState := fold_left next_state fs st.
Definition view (st : LogState) : Replay := mk_replay (current_snapshot st) (current_queue st) (version st).
Lemma states_app st l k : states st (l ++ k) = states (states st l) k.
Proof. apply fold_left_app. Qed.
Lemma states_version_ge st fs : (version st <= version (states st fs))%Z.
Proof.
  revert st. induction fs as [|f fs IH]; intros st; cbn [states fold_left]; [lia|].
  pose proof (version_after_ge (version st) f). specialize (IH (next_state st f)).
  rewrite next_version in IH. unfold states in IH. lia.
Qed.
Lemma rewind_fact_view st f :
  (version (next_state st f) <= u64_max)%Z -> (0 <= version st)%Z ->
  rewind_fact (view st) f = view (next_state st f).
Proof.
  rewrite next_version. unfold version_after.
  destruct f; cbn; intros; unfold view; cbn; unfold u64_wrapping_add, u64_max in *;
    rewrite ?Z.mod_small, ?apply_payload_update_log by lia; done.
Qed.
(** Without a version more, nothing one can look back at changes. *)
Lemma states_same_view st fs : version (states st fs) = version st -> view (states st fs) = view st.
Proof.
  revert st. induction fs as [|f fs IH]; intros st Hv; [done|]. cbn [states fold_left] in *.
  pose proof (states_version_ge (next_state st f) fs) as Hge. rewrite next_version in Hge.
  pose proof (version_after_ge (version st) f) as Hf. unfold states in *.
  assert (version_after (version st) f = version st) as Heq by lia.
  rewrite IH by (rewrite next_version, Heq; done). unfold version_after in Heq.
  destruct f; cbn in *; try lia; done.
Qed.
Lemma rewind_loop_hit st l k target :
  version (states st l) = target -> (0 <= version st < target)%Z -> (target <= u64_max)%Z ->
  rewind_loop target (view st) (l ++ k) = view (states st l).
Proof.
  revert st. induction l as [|f l IH]; intros st Hv Hlt Hmax; cbn [states fold_left app] in *; [lia|].
  pose proof (states_version_ge (next_state st f) l) as Hge. unfold states in *. cbn [rewind_loop].
  pose proof (version_after_ge (version st) f). rewrite next_version in Hge.
  rewrite rewind_fact_view by (rewrite ?next_version; lia).
  change (rp_version (view (next_state st f))) with (version (next_state st f)).
  destruct (Z.eqb_spec (version (next_state st f)) target) as [Heq|Hne].
  - symmetry. apply states_same_view. unfold states. lia.
  - rewrite next_version in Hne. apply IH; [done|rewrite next_version; lia|done].
Qed.
Lemma rewind_loop_miss st l target :
  (0 <= version st)%Z -> (version (states st l) < target)%Z -> (target <= u64_max)%Z ->
  rewind_loop target (view st) l = view (states st l).
Proof.
  revert st. induction l as [|f l IH]; intros st Hpos Hv Hmax; cbn [states fold_left] in *; [done|].
  pose proof (states_version_ge (next_state st f) l) as Hge. unfold states in *. cbn [rewind_loop].
  pose proof (version_after_ge (version st) f). rewrite next_version in Hge.
  rewrite rewind_fact_view by (rewrite ?next_version; lia).
  change (rp_version (view (next_state st f))) with (version (next_state st f)). rewrite next_version.
  destruct (Z.eqb_spec (version_after (version st) f) target); [lia|].
  apply IH; [rewrite next_version; lia|done|done].
Qed.
(** Every version up to the last was once the current one. *)
Lemma states_versions st fs v :
  (version st <= v <= version (states st fs))%Z -> exists l k, fs = l ++ k /\ version (states st l) = v.
Proof.
  revert st. induction fs as [|f fs IH]; intros st Hv; cbn [states fold_left] in Hv.
  { exists [], []. split; [done|]. cbn in *. lia. }
  destruct (Z.eq_dec (version st) v) as [Heq|Hne]; [by exists [], (f :: fs)|].
  destruct (IH (next_state st f)) as (l & k & -> & Hl).
  { unfold states in *. rewrite next_version. unfold version_after. destruct (bumps f); lia. }
  by exists (f :: l), k.
Qed.

(** * Entries that carry the versions the state had *)

Fixpoint numbered (st : LogState) (entries : list (Z * Fact)) : Prop :=
  match entries with
  | [] => True
  | (v, f) :: rest => v = version st /\ numbered (next_state st f) rest
  end.
Definition seen (s : Replay) : JsonValue * Z := (rp_payload s, rp_version s).
Lemma numbered_app st l k :
  numbered st (l ++ k) <-> numbered st l /\ numbered (states st (map snd l)) k.
Proof.
  revert st. induction l as [|[v f] l IH]; intros st; cbn [numbered app map states fold_left snd]; [tauto|].
  rewrite IH. unfold states. tauto.
Qed.
Lemma replay_recorded_fact st f : replay_recorded (seen (view st)) (version st, f) = seen (rewind_fact (view st) f).
Proof. by destruct f. Qed.
Lemma recorded_loop_rewind st entries target :
  numbered st entries -> (0 <= version st)%Z -> (version (states st (map snd entries)) <= u64_max)%Z ->
  recorded_loop (Some target) (seen (view st)) entries =
  seen (rewind_loop target (view st) (map snd entries)).
Proof.
  revert st. induction entries as [|[v f] entries IH]; intros st; cbn [numbered map snd]; [done|].
  intros [-> Hn] Hpos Hmax. cbn [recorded_loop rewind_loop]. rewrite replay_recorded_fact.
  cbn [states fold_left] in Hmax. pose proof (states_version_ge (next_state st f) (map snd entries)) as Hge.
  unfold states in *. pose proof (version_after_ge (version st) f).
  rewrite rewind_fact_view by lia. cbn [snd seen].
  destruct (Z.eqb_spec (rp_version (view (next_state st f))) target) as [Heq|Hne].
  - by rewrite bool_decide_true by by rewrite Heq.
  - rewrite bool_decide_false by congruence. apply IH; [done|rewrite next_version; lia|done].
Qed.
Lemma recorded_loop_all st entries :
  numbered st entries -> (0 <= version st)%Z -> (version (states st (map snd entries)) <= u64_max)%Z ->
  recorded_loop None (seen (view st)) entries = seen (view (states st (map snd entries))).
Proof.
  revert st. induction entries as [|[v f] entries IH]; intros st; cbn [numbered map snd]; [done|].
  intros [-> Hn] Hpos Hmax. cbn [recorded_loop]. rewrite replay_recorded_fact.
  cbn [states fold_left] in *. pose proof (states_version_ge (next_state st f) (map snd entries)) as Hge.
  unfold states in *. pose proof (version_after_ge (version st) f).
  rewrite rewind_fact_view by lia. cbn [snd seen]. rewrite bool_decide_false by done.
  apply IH; [done|rewrite next_version; lia|done].
Qed.
End Replays.

(** * The history of a log *)

Section Grown.
Context {N S : Type} `{SerdeNumber N, SerdeText N, Blake3, FactWalStoreLaws S}.
Implicit Types log : FactsLog S.

Lemma append_grows log f log' r :
  append (N := N) log f = (log', r) -> r <> Err VersionOverflow ->
  (history (inner log') = history (inner log) /\ log_state (inner log') = log_state (inner log)) \/
  (history (inner log') = history (inner log) ++ [(log_version log, f)] /\
   log_state (inner log') = next_state (log_state (inner log)) f /\
   (log_version log <= u64_max -> log_version log' <= u64_max)%Z).
Proof.
  intros Ha%append_cases Hr. destruct (fact_hash f) as [c|e]; [|destruct Ha as [-> _]; by left].
  cbn zeta in Ha. destruct (write_ahead _ _ _ _ _ _) as [log1 u] eqn:Hw.
  apply write_ahead_cases in Hw as [Hin _]. destruct u as [[]|e].
  - destruct Ha as [[-> _]|(Hb & _ & ->)]; [done|]. right. unfold log_version in *. cbn -[version_after].
    rewrite Hin. split_and!; [done|done|]. unfold version_after. destruct (bumps f); [lia|done].
  - destruct Ha as [-> _]. left. by rewrite Hin.
Qed.
(** A log whose history is the whole of its past. *)
Record grown log : Prop := {
  gr_numbered : numbered state_new (history (inner log));
  gr_state : log_state (inner log) = states state_new (log_history log);
  gr_version : (log_version log <= u64_max)%Z;
}.
Lemma grown_fresh log : fresh log -> log_state (inner log) = state_new -> grown log.
Proof.
  intros Hf Hs. assert (history (inner log) = []) as Hh by by destruct Hf.
  split; unfold log_history, log_version; rewrite ?Hh, ?Hs; done.
Qed.
Lemma grown_all log fs :
  grown log -> no_overflow (N := N) log fs = true ->
  grown (append_all (N := N) log fs) /\ exists more, history (inner (append_all (N := N) log fs)) = history (inner log) ++ more.
Proof.
  revert log. induction fs as [|f fs IH]; intros log Hg Hno.
  { split; [done|]. exists []. by rewrite app_nil_r. }
  cbn [no_overflow] in Hno. cbn [append_all fold_left]. destruct (append log f) as [log' r] eqn:Ha. cbn [fst].
  assert (r <> Err VersionOverflow /\ no_overflow (N := N) log' fs = true) as [Hr Hno'] by (destruct r as [|[]]; by split).
  destruct Hg as [Hn Hs Hv].
  assert (grown log' /\ exists more, history (inner log') = history (inner log) ++ more) as (Hg' & more & Hm).
  { destruct (append_grows log f log' r Ha Hr) as [[Hh Hst]|(Hh & Hst & Hv')].
    - split; [|exists []; by rewrite Hh, app_nil_r]. unfold log_version, log_history in *. split; unfold log_version, log_history.
      + by rewrite Hh.
      + by rewrite Hst, Hh.
      + by rewrite Hst.
    - split; [|by eexists]. split; [| |by apply Hv'].
      + rewrite Hh. apply numbered_app. split; [done|]. cbn. split; [|done]. unfold log_version. by rewrite Hs.
      + unfold log_history in *. by rewrite Hst, Hs, Hh, map_app, states_app. }
  destruct (IH log' Hg' Hno') as (Hg2 & more2 & Hm2). split; [exact Hg2|].
  exists (more ++ more2). unfold append_all in Hm2. by rewrite Hm2, Hm, app_assoc.
Qed.

(** What one sees of a grown log at a version of its past. *)
Lemma rewind_grown log l k :
  grown log -> log_history log = l ++ k -> let st := states state_new l in
  rewind (N := N) (log_history log) (version st) =
    Some (mk_rewind (tcb_to_serde (current_snapshot st)) (map tcb_to_serde (current_queue st)) (version st)) /\
  rewind_payload log (version st) = Some (current_snapshot st).
Proof.
  intros Hg Hl st. pose proof (states_version_ge state_new l) as Hge. cbn in Hge. fold st in Hge.
  assert (version st <= u64_max)%Z as Hmax.
  { pose proof (gr_version _ Hg) as Hv. unfold log_version in Hv. rewrite (gr_state _ Hg), Hl, states_app in Hv.
    pose proof (states_version_ge st k). unfold st in *. lia. }
  unfold rewind, rewind_payload. destruct (Z.eqb_spec (version st) 0) as [Hz|Hnz].
  - pose proof (states_same_view state_new l Hz) as Hsame. fold st in Hsame. injection Hsame as -> -> _.
    by rewrite Hz.
  - change replay_new with (view state_new). change (empty_object, 0%Z) with (seen (view state_new)).
    rewrite recorded_loop_rewind;
      [|apply Hg|done|pose proof (gr_version _ Hg) as Hv; unfold log_version in Hv; by rewrite (gr_state _ Hg) in Hv].
    change (map snd (history_with_versions log)) with (log_history log).
    rewrite Hl, (rewind_loop_hit state_new l k (version st)) by (done || (cbn; lia)). fold st. cbn.
    by rewrite Z.ltb_irrefl.
Qed.
Lemma rewind_beyond log v :
  grown log -> (log_version log < v)%Z -> (v <= u64_max)%Z ->
  rewind (N := N) (log_history log) v = None /\ rewind_payload log v = None.
Proof.
  intros Hg Hlt Hmax. pose proof (states_version_ge state_new (log_history log)) as Hge. cbn in Hge.
  unfold log_version in Hlt. rewrite (gr_state _ Hg) in Hlt.
  unfold rewind, rewind_payload. destruct (Z.eqb_spec v 0); [lia|].
  change replay_new with (view state_new). change (empty_object, 0%Z) with (seen (view state_new)).
  rewrite recorded_loop_rewind; [|apply Hg|done|unfold log_history, history_with_versions in *; lia].
  change (map snd (history_with_versions log)) with (log_history log).
  rewrite rewind_loop_miss by (done || lia). cbn. by destruct (Z.ltb_spec (version (states state_new (log_history log))) v); [|lia].
Qed.
End Grown.

(** * The difference of two states *)

Section Differences.
Context {N : Type} `{SerdeNumberLaws N, SerdeText N, SerdeNumberEq N, !SerdeNumberEqLaws N}.
Implicit Types (a b : SValue N) (m : ObjectMap (SValue N)) (d : PayloadDiff N).

Definition entries_of a : ObjectMap (SValue N) := default [] (s_as_object a).
(** The four lists, of which the loops only append. *)
Lemma fold_diff_entry b m d :
  fold_left (diff_entry b) m d = mk_diff (added d)
    (removed d ++ omap (fun kv => match s_field b (fst kv) with None => Some kv | Some _ => None end) m)
    (changed d ++ omap (fun kv => match s_field b (fst kv) with
       | Some w => if s_eqb (snd kv) w then None else Some (fst kv, snd kv, w) | None => None end) m)
    (unchanged d ++ omap (fun kv => match s_field b (fst kv) with
       | Some w => if s_eqb (snd kv) w then Some (fst kv) else None | None => None end) m).
Proof.
  revert d. induction m as [|[k v] m IH]; intros d; cbn [fold_left omap list_omap fst snd].
  { rewrite !app_nil_r. by destruct d. }
  rewrite IH. unfold diff_entry. destruct (s_field b k) as [w|]; [destruct (s_eqb v w)|]; cbn; by rewrite <- ?app_assoc.
Qed.
Lemma fold_diff_added a m d :
  fold_left (diff_added a) m d = mk_diff
    (added d ++ omap (fun kv => match s_field a (fst kv) with None => Some kv | Some _ => None end) m)
    (removed d) (changed d) (unchanged d).
Proof.
  revert d. induction m as [|[k v] m IH]; intros d; cbn [fold_left omap list_omap fst snd].
  { rewrite !app_nil_r. by destruct d. }
  rewrite IH. unfold diff_added. destruct (s_field a k); cbn; by rewrite <- ?app_assoc.
Qed.
Lemma field_entry a k v : s_wf a = true -> s_field a k = Some v <-> (k, v) ∈ entries_of a.
Proof.
  intros Hwf. unfold s_field, entries_of. destruct a as [| | | | |m]; cbn; try (split; [done|by intros ?%not_elem_of_nil]).
  cbn [s_wf] in Hwf. apply andb_true_iff in Hwf as [Hs%keys_sortedb_spec _].
  rewrite list_elem_of_In. split; [apply map_get_In|]. intros Hin. by apply map_get_In_sorted.
Qed.
End Differences.

(** * Updates keep well-formedness *)

Lemma insert_parts_wf v parts x :
  wf_json v = true -> wf_json x = true -> wf_json (insert_parts v parts x) = true.
Proof.
  intros Hv Hx. revert v Hv. induction parts as [|p parts IH]; intros v Hv; [done|].
  destruct parts as [|p' parts].
  - destruct v as [| | | | | |m]; try done. cbn [insert_parts].
    rewrite wf_JObject in *. destruct Hv. auto with evorule.
  - destruct v as [| | | | | |m]; try done. set (rest := p' :: parts) in *. cbn [insert_parts]. fold rest.
    set (m1 := if map_contains_key m p then m else obj_insert m p empty_object).
    assert (wf_json (JObject m1) = true) as Hm1.
    { unfold m1. destruct (map_contains_key m p); [done|]. rewrite wf_JObject in *. destruct Hv. auto with evorule. }
    pose proof (map_get_mut_spec m1 p) as Hput. unfold rest at 1. cbv iota.
    destruct (map_get_mut m1 p) as [[next put]|]; [|done]. destruct Hput as [Hget ->].
    assert (wf_json (insert_parts next rest x) = true) as Hn.
    { apply IH. apply wf_JObject in Hm1 as [_ Hf]. apply map_get_In in Hget.
      rewrite List.Forall_forall in Hf. by apply (Hf (p, next)). }
    rewrite wf_JObject in *. destruct Hm1. auto with evorule.
Qed.
Lemma payload_update_wf v path x :
  wf_json v = true -> wf_json x = true -> wf_json (payload_update v path x) = true.
Proof.
  intros Hv Hx. unfold payload_update. pose proof (resolve_path_mut_denotes v path) as Hp.
  destruct (resolve_path_mut v path) as [[y put]|].
  - destruct Hp as (ss & _ & _ & ->). by apply put_steps_wf.
  - unfold payload_fallback. destruct (_ && _)%bool; [|by apply insert_parts_wf].
    destruct v as [| | | | | |m]; try done. rewrite wf_JObject in *. destruct Hv. auto with evorule.
Qed.
Definition wf_replay (r : Replay) : bool := wf_json (rp_payload r) && forallb wf_json (rp_queue r).
Lemma rewind_loop_wf target r fs :
  wf_replay r = true -> forallb wf_fact fs = true -> wf_replay (rewind_loop target r fs) = true.
Proof.
  revert r. induction fs as [|f fs IH]; intros r Hr; cbn [forallb rewind_loop]; [done|].
  intros [Hf Hfs]%andb_true_iff. assert (wf_replay (rewind_fact r f) = true) as Hr'.
  { unfold wf_replay, wf_fact in *. rewrite !andb_true_iff in *.
    destruct f; cbn [rewind_fact rp_payload rp_queue]; rewrite ?apply_payload_update_log; rewrite ?andb_true_iff in Hf;
      try tauto.
    destruct Hr, Hf. split; [by apply payload_update_wf|done]. }
  destruct (_ =? _)%Z; [done|by apply IH].
Qed.

Section Differ.
Context {N : Type} `{SerdeNumberLaws N, SerdeText N, SerdeNumberEq N, !SerdeNumberEqLaws N}.
Implicit Types (a b : SValue N).

Lemma rewind_wf facts v (s : RewindSnapshot N) :
  forallb wf_fact facts = true -> rewind facts v = Some s -> s_wf (rw_payload s) = true.
Proof.
  intros Hwf. unfold rewind. destruct (_ =? _)%Z; [by intros [= <-]|].
  pose proof (rewind_loop_wf v replay_new facts eq_refl Hwf) as Hr. unfold wf_replay in Hr.
  apply andb_true_iff in Hr as [Hp _]. destruct (_ <? _)%Z; [done|]. intros [= <-]. by apply tcb_to_serde_wf.
Qed.
Lemma field_wf a k v : s_wf a = true -> s_field a k = Some v -> s_wf v = true.
Proof.
  unfold s_field. destruct a as [| | | | |m]; cbn; try done. intros [_ Ha]%andb_true_iff Hg%map_get_In.
  rewrite forallb_forall in Ha. by apply (Ha (k, v)).
Qed.
(** The four lists of a difference. *)
Lemma compute_diff_spec a b :
  s_wf a = true -> s_wf b = true -> let d := compute_diff a b in
  (forall k v, (k, v) ∈ added d <-> s_field a k = None /\ s_field b k = Some v) /\
  (forall k v, (k, v) ∈ removed d <-> s_field a k = Some v /\ s_field b k = None) /\
  (forall k v w, (k, v, w) ∈ changed d <-> s_field a k = Some v /\ s_field b k = Some w /\ v <> w) /\
  (forall k, k ∈ unchanged d <-> exists v, s_field a k = Some v /\ s_field b k = Some v).
Proof.
  intros Ha Hb d. unfold d, compute_diff. fold (entries_of a). fold (entries_of b).
  rewrite fold_diff_entry, fold_diff_added. cbn [added removed changed unchanged app].
  assert (forall k v, s_field a k = Some v -> s_wf v = true) as Hfa by (intros k v; by apply field_wf).
  split_and!.
  - intros k v. rewrite list_elem_of_omap, (field_entry b) by done. split.
    + intros ([k' v'] & Hin & Hm). cbn in Hm. destruct (s_field a k') eqn:Hk; [done|]. by injection Hm as <- <-.
    + intros [Hk Hin]. exists (k, v). cbn. by rewrite Hk.
  - intros k v. rewrite list_elem_of_omap, (field_entry a) by done. split.
    + intros ([k' v'] & Hin & Hm). cbn in Hm. destruct (s_field b k') eqn:Hk; [done|]. by injection Hm as <- <-.
    + intros [Hin Hk]. exists (k, v). cbn. by rewrite Hk.
  - intros k v w. rewrite list_elem_of_omap. split.
    + intros ([k' v'] & Hin & Hm). cbn in Hm. apply field_entry in Hin; [|done].
      destruct (s_field b k') as [w'|] eqn:Hk; [|done]. destruct (s_eqb v' w') eqn:He; [done|].
      injection Hm as <- <- <-. split_and!; [done|done|]. intros <-.
      rewrite (proj2 (s_eqb_eq v' v' (Hfa _ _ Hin)) eq_refl) in He. done.
    + intros (Hin & Hk & Hne). exists (k, v). cbn. rewrite <- field_entry by done. split; [done|]. rewrite Hk.
      destruct (s_eqb v w) eqn:He; [|done]. by apply s_eqb_eq in He; [|by eapply Hfa].
  - intros k. rewrite list_elem_of_omap. split.
    + intros ([k' v'] & Hin & Hm). cbn in Hm. apply field_entry in Hin; [|done].
      destruct (s_field b k') as [w'|] eqn:Hk; [|done]. destruct (s_eqb v' w') eqn:He; [|done].
      injection Hm as <-. apply s_eqb_eq in He; [|by eapply Hfa]. subst. by eexists.
    + intros (v & Hin & Hk). exists (k, v). cbn. rewrite <- field_entry by done. split; [done|]. rewrite Hk.
      by rewrite (proj2 (s_eqb_eq v v (Hfa _ _ Hin)) eq_refl).
Qed.
Lemma empty_list_spec {A} (l : list A) : Nat.eqb (length l) 0 = true <-> forall x, ~ x ∈ l.
Proof.
  destruct l as [|x l]; cbn; split; try done; [by intros _ x Hx%not_elem_of_nil|].
  intros Hn. exfalso. apply (Hn x). by left.
Qed.
Lemma compute_diff_empty a b :
  s_wf a = true -> s_wf b = true ->
  diff_is_empty (compute_diff a b) = true <-> forall k, s_field a k = s_field b k.
Proof.
  intros Ha Hb. destruct (compute_diff_spec a b Ha Hb) as (Hadd & Hrem & Hch & _).
  unfold diff_is_empty. rewrite !andb_true_iff, !empty_list_spec. split.
  - intros [[He1 He2] He3] k. destruct (s_field a k) as [v|] eqn:Hk, (s_field b k) as [w|] eqn:Hk'; [|exfalso|exfalso|done].
    + pose proof (field_wf a k v Ha Hk) as Hv. destruct (s_eqb v w) eqn:He; [by apply s_eqb_eq in He as ->|].
      exfalso. apply (He3 (k, v, w)), Hch. split_and!; [done|done|]. intros <-.
      by rewrite (proj2 (s_eqb_eq v v Hv) eq_refl) in He.
    + by apply (He2 (k, v)), Hrem.
    + by apply (He1 (k, w)), Hadd.
  - intros Heq. split_and!; intros [k v].
    + intros [Hn Hs]%Hadd. rewrite Heq in Hn. congruence.
    + intros [Hs Hn]%Hrem. rewrite Heq in Hs. congruence.
    + destruct k as [k w]. intros (H1' & H2' & Hne)%Hch. rewrite Heq in H1'. congruence.
Qed.
End Differ.

(** * Archives *)

Section Archive.
Context {N : Type} `{SerdeNumber N, SerdeText N, Blake3}.

(** A record of an archive that is accepted, given the chain hash before it. *)
Definition archive_good (prev : string) (r : WalRecord) (content : string) : Prop :=
  fact_hash (N := N) (rec_fact r) = Ok content /\ rec_content_hash r = Some content /\
  forall stored, rec_chain_hash r = Some stored -> stored = chain_step prev content.
Fixpoint archived (prev : string) (records : list WalRecord) : Prop :=
  match records with
  | [] => True
  | r :: rest => exists content, archive_good prev r content /\ archived (chain_step prev content) rest
  end.
Lemma archive_record_spec prev r :
  match archive_record (N := N) prev r with
  | Ok next => exists content, archive_good prev r content /\ next = chain_step prev content
  | Err e => (exists reason, e = ArchiveCorrupted reason) /\ forall content, ~ archive_good prev r content
  end.
Proof.
  unfold archive_record, archive_good. destruct (fact_hash (rec_fact r)) as [c|e];
    [|split; [by eexists|by intros c' [? _]]].
  destruct (rec_content_hash r) as [stored|]; [|split; [by eexists|by intros c' (_ & ? & _)]].
  destruct (String.eqb_spec stored c) as [->|Hne]; cbn [negb];
    [|split; [by eexists|intros c' ([= <-] & [= ->] & _); done]].
  destruct (rec_chain_hash r) as [sc|]; [|exists c; by split_and!].
  destruct (String.eqb_spec sc (chain_step prev c)) as [->|Hne]; cbn [negb].
  - exists c. split_and!; [done|done| |done]. by intros s [= <-].
  - split; [by eexists|]. intros c' ([= <-] & _ & Hs). by apply Hne, Hs.
Qed.
Lemma archive_check_spec prev records :
  match archive_check (N := N) prev records with
  | Ok _ => archived prev records /\ exists tail, chain_from (N := N) prev (map rec_fact records) = Ok tail
  | Err e => (exists reason, e = ArchiveCorrupted reason) /\ ~ archived prev records
  end.
Proof.
  revert prev. induction records as [|r rs IH]; intros prev; cbn [archive_check archived map chain_from]; [by eauto|].
  pose proof (archive_record_spec prev r) as Hr. destruct (archive_record prev r) as [next|e].
  - destruct Hr as (c & Hg & ->). pose proof Hg as (Hh & _). rewrite Hh. specialize (IH (chain_step prev c)).
    destruct (archive_check _ rs) as [u|e].
    + destruct IH as [Ha Ht]. split; [by exists c|done].
    + destruct IH as [He Hn]. split; [done|]. intros (c' & Hg' & Ha). destruct Hg' as (Hh' & _).
      rewrite Hh in Hh'. by injection Hh' as <-.
  - destruct Hr as [He Hn]. split; [done|]. intros (c & Hg & _). by apply (Hn c).
Qed.
End Archive.

(** * Properties *)

(** C23: looking back is exact.  In a log that started empty, for every moment
    of its past (the facts accepted so far, then any others): the state at the
    version it had then, as [rewind] and the fork's [rewind_payload] compute
    it, is the payload and queue the log had then; and a version it has not
    reached is refused. *)
Theorem rewind_is_the_past {N S : Type} `{SerdeNumber N, SerdeText N, Blake3, FactWalStoreLaws S}
    (log : FactsLog S) (past later : list Fact) :
  fresh log -> log_state (inner log) = state_new -> no_overflow (N := N) log past = true ->
  let then_ := append_all (N := N) log past in
  no_overflow (N := N) then_ later = true ->
  let now := append_all (N := N) then_ later in
  let st := log_state (inner then_) in
  rewind (N := N) (log_history now) (version st) =
    Some (mk_rewind (tcb_to_serde (current_snapshot st)) (map tcb_to_serde (current_queue st)) (version st)) /\
  rewind_payload now (version st) = Some (current_snapshot st) /\
  forall v, (log_version now < v <= u64_max)%Z ->
    rewind (N := N) (log_history now) v = None /\ rewind_payload now v = None.
Proof.
  intros Hf Hst Hno then_ Hno' now.
  destruct (grown_all log past (grown_fresh log Hf Hst) Hno) as [Hg _]. fold then_ in Hg.
  destruct (grown_all then_ later Hg Hno') as [Hg' (more & Hh)].
  assert (log_history now = log_history then_ ++ map snd more) as Hl.
  { unfold log_history, now. by rewrite Hh, map_app. }
  pose proof (rewind_grown (N := N) now _ _ Hg' Hl) as [Hr Hp].
  rewrite <- (gr_state _ Hg) in Hr, Hp. split_and!; [exact Hr|exact Hp|].
  intros v [Hlt Hmax]. by apply rewind_beyond.
Qed.

(** A difference is exact.  When [diff] answers, the two versions can be
    looked back to, its four lists hold precisely the fields added, removed,
    changed (with both values) and unchanged between the two payloads, and it
    is empty precisely when the payloads agree on every field; it fails only
    for a version that cannot be looked back to. *)
Lemma diff_exact {N : Type} `{SerdeNumberLaws N, SerdeText N, SerdeNumberEq N, !SerdeNumberEqLaws N}
    (facts : list Fact) (v_a v_b : Z) :
  forallb wf_fact facts = true ->
  match diff (N := N) facts v_a v_b with
  | Ok d => exists a b, rewind facts v_a = Some a /\ rewind facts v_b = Some b /\
      let a := s_field (rw_payload a) in let b := s_field (rw_payload b) in
      (forall k v, (k, v) ∈ added d <-> a k = None /\ b k = Some v) /\
      (forall k v, (k, v) ∈ removed d <-> a k = Some v /\ b k = None) /\
      (forall k v w, (k, v, w) ∈ changed d <-> a k = Some v /\ b k = Some w /\ v <> w) /\
      (forall k, k ∈ unchanged d <-> exists v, a k = Some v /\ b k = Some v) /\
      (diff_is_empty d = true <-> forall k, a k = b k)
  | Err e => rewind (N := N) facts (tm_version e) = None
  end.
Proof.
  intros Hwf. unfold diff. destruct (rewind facts v_a) as [a|] eqn:Ha; cbn; [|done].
  destruct (rewind facts v_b) as [b|] eqn:Hb; cbn; [|done].
  pose proof (rewind_wf _ _ _ Hwf Ha) as Hwa. pose proof (rewind_wf _ _ _ Hwf Hb) as Hwb.
  exists a, b. destruct (compute_diff_spec _ _ Hwa Hwb) as (H1' & H2' & H3' & H4').
  split_and!; [done|done|exact H1'|exact H2'|exact H3'|exact H4'|]. by apply compute_diff_empty.
Qed.

(** A session is forked from an archive only if the archive is a hash
    chain.  [payload_from_wal_records] refuses records that are not a chain
    from genesis of the content hashes of their facts, as corrupted; from a
    chain whose records carry the versions the state had, it computes the
    state after any prefix at that prefix's version, the last state when no
    version is asked, and refuses a version beyond the last. *)
Lemma archive_fork_exact {N : Type} `{SerdeNumber N, SerdeText N, Blake3} (records : list WalRecord) :
  (~ archived (N := N) "genesis" records -> forall target, exists reason,
     payload_from_wal_records (N := N) records target = Err (ArchiveCorrupted reason)) /\
  (archived (N := N) "genesis" records -> numbered state_new (map record_entry records) ->
   let last := states state_new (map rec_fact records) in (version last <= u64_max)%Z ->
   payload_from_wal_records (N := N) records None = Ok (current_snapshot last, version last) /\
   (forall l k, records = l ++ k -> let st := states state_new (map rec_fact l) in
     payload_from_wal_records (N := N) records (Some (version st)) = Ok (current_snapshot st, version st)) /\
   forall v, (version last < v <= u64_max)%Z ->
     payload_from_wal_records (N := N) records (Some v) = Err (InvalidVersion v)).
Proof.
  pose proof (archive_check_spec (N := N) "genesis" records) as Hc. unfold payload_from_wal_records.
  destruct (archive_check "genesis" records) as [[]|e].
  2: { destruct Hc as [[reason ->] Hn]. split; [by eexists|done]. }
  destruct Hc as [Ha _]. split; [done|]. intros _ Hn Hmax.
  set (last := states state_new (map rec_fact records)) in *.
  assert (map snd (map record_entry records) = map rec_fact records) as Hfacts by by rewrite map_map.
  change (empty_object, 0%Z) with (seen (view state_new)). split_and!.
  - rewrite bool_decide_false by done. rewrite recorded_loop_all by (rewrite ?Hfacts; done). by rewrite Hfacts.
  - intros l k ->. set (st := states state_new (map rec_fact l)). destruct (decide (version st = 0%Z)) as [Hz|Hnz].
    + rewrite bool_decide_true by by rewrite Hz. pose proof (states_same_view state_new (map rec_fact l) Hz) as Hsame.
      fold st in Hsame. injection Hsame as -> _ ->. done.
    + rewrite bool_decide_false by congruence. rewrite recorded_loop_rewind by (rewrite ?Hfacts; done).
      pose proof (states_version_ge state_new (map rec_fact l)) as Hge. fold st in Hge. cbn in Hge.
      rewrite Hfacts, map_app, rewind_loop_hit with (l := map rec_fact l);
        [|done|cbn; lia|unfold last in Hmax; rewrite map_app, states_app in Hmax; fold st in Hmax;
          pose proof (states_version_ge st (map rec_fact k)); lia].
      fold st. cbn. by rewrite (proj2 (Z.leb_le _ _) (Z.le_refl _)).
  - intros v [Hlt Hv]. pose proof (states_version_ge state_new (map rec_fact records)) as Hge. cbn in Hge. fold last in Hge.
    assert (v <> 0%Z) by lia. rewrite bool_decide_false by congruence. rewrite recorded_loop_rewind by (rewrite ?Hfacts; done).
    rewrite Hfacts, rewind_loop_miss by (done || (fold last; lia)). fold last. cbn.
    by destruct (Z.leb_spec v (version last)); [lia|].
Qed.

(** * Examples *)

Module PastDemo.
Import ZNumber ZText ZHash EvidDemo.
#[local] Existing Instance ZText.text.
#[local] Existing Instance ZHash.hash.
Definition obj (pairs : list (string * JsonValue)) : JsonValue := object_from_pairs pairs.
Definition past : list Fact := [Command 1%Z JNull; StateTransition 2%Z 1%Z (obj [("a", JInteger 1)]) [JNull]].
Definition later : list Fact := [PayloadUpdate 3%Z "b.c" (JBool true); Stable 4%Z 2].
(** The facts with the hashes the log writes. *)
Fixpoint records_of (prev : string) (v : Z) (fs : list Fact) : list WalRecord :=
  match fs with
  | [] => []
  | f :: rest =>
      match fact_hash (N := Z) f with
      | Ok c => mk_record v f (Some c) (Some prev) (Some (chain_step prev c))
          :: records_of (chain_step prev c) (version_after v f) rest
      | Err _ => []
      end
  end.
Definition archive : list WalRecord := records_of "genesis" 0 (past ++ later).
Definition start : FactsLog MemoryWalStore := log_new.
End PastDemo.
Import PastDemo ZNumber EvidDemo.
#[local] Existing Instance ZText.text.
#[local] Existing Instance ZHash.hash.

Lemma rewind_is_the_past_witness :
  let now := append_all (N := Z) (append_all (N := Z) start past) later in
  log_version now = 2%Z /\
  rewind_payload now 1 = Some (obj [("a", JInteger 1)]) /\ rewind_payload now 3 = None.
Proof.
  intros now. pose (then_ := append_all (N := Z) start past).
  assert (version (log_state (inner then_)) = 1%Z /\ log_version now = 2%Z /\
    current_snapshot (log_state (inner then_)) = obj [("a", JInteger 1)]) as (Hv & Hn & Hs) by (vm_compute; done).
  assert (no_overflow (N := Z) start past = true) as Hno by (vm_compute; reflexivity).
  assert (no_overflow (N := Z) then_ later = true) as Hno' by (vm_compute; reflexivity).
  destruct (rewind_is_the_past (N := Z) start past later fresh_new eq_refl Hno Hno') as (_ & Hp & Hb).
  fold then_ in Hp, Hb. fold now in Hp, Hb.
  rewrite Hv, Hs in Hp. split; [exact Hn|]. split; [exact Hp|].
  apply (Hb 3%Z). split; [|by unfold u64_max]. change (log_version now < 3)%Z. by rewrite Hn.
Defined.
Lemma diff_exact_witness :
  exists d, diff (N := Z) (past ++ later) 1 2 = Ok d /\ change_count d = 1 /\
    forall k, k ∈ unchanged d <-> exists v, Some (SNumber 1%Z) = Some v /\ k = "a".
Proof.
  assert (exists d, diff (N := Z) (past ++ later) 1 2 = Ok d) as [d Hd] by (eexists; vm_compute; reflexivity).
  pose proof (diff_exact (N := Z) (past ++ later) 1 2 eq_refl) as Hx. rewrite Hd in Hx.
  destruct Hx as (a & b & Ha & Hb & _ & _ & _ & Hu & _). exists d. split; [exact Hd|].
  vm_compute in Hd, Ha, Hb. injection Hd as <-. injection Ha as <-. injection Hb as <-.
  split; [reflexivity|]. intros k. cbn [unchanged]. rewrite list_elem_of_singleton. naive_solver.
Defined.
Lemma archive_fork_exact_witness :
  archived (N := Z) "genesis" archive /\
  payload_from_wal_records (N := Z) archive (Some 1%Z) = Ok (obj [("a", JInteger 1)], 1%Z) /\
  exists reason, payload_from_wal_records (N := Z) (rev archive) None = Err (ArchiveCorrupted reason).
Proof.
  assert (archived (N := Z) "genesis" archive) as Ha.
  { pose proof (archive_check_spec (N := Z) "genesis" archive) as Hc.
    assert (archive_check (N := Z) "genesis" archive = Ok tt) as He by (vm_compute; reflexivity).
    rewrite He in Hc. apply Hc. }
  split; [exact Ha|]. split.
  - destruct (archive_fork_exact (N := Z) archive) as [_ Hok].
    destruct (Hok Ha) as (_ & Hpre & _); [by vm_compute|vm_compute; discriminate|].
    exact (Hpre (take 2 archive) (drop 2 archive) eq_refl).
  - apply (archive_fork_exact (N := Z) (rev archive)).
    pose proof (archive_check_spec (N := Z) "genesis" (rev archive)) as Hc.
    destruct (archive_check (N := Z) "genesis" (rev archive)) as [u|e] eqn:He; [vm_compute in He; discriminate|].
    apply Hc.
Defined.

(** In a forked log the past is lost: its initial state is not in the history,
    so that looking back to the current version gives another payload, and a
    version the session never had is answered. *)
Definition forked : FactsLog MemoryWalStore :=
  append_all (N := Z) (set_initial_state (N := Z) log_new (obj [("a", JInteger 1)]) 7) [PayloadUpdate 9%Z "b" (JInteger 2)].
Lemma fork_forgets :
  snapshot forked = (obj [("a", JInteger 1); ("b", JInteger 2)], [], 8%Z) /\
  (exists p, rewind_payload forked 8 = Some p /\ map_get (match p with JObject m => m | _ => [] end) "a" = None) /\
  rewind_payload forked 5 = rewind_payload forked 8.
Proof. split_and!; [reflexivity| |reflexivity]. eexists. split; [reflexivity|reflexivity]. Qed.
(** Compaction drops facts that looking back counts. *)
Lemma compaction_shifts_versions :
  let log := append_all (N := Z) (fst (compact (append_all (N := Z) start (past ++ [Stable 4%Z 1]))))
    [PayloadUpdate 5%Z "b" (JInteger 2); PayloadUpdate 6%Z "c" (JInteger 3)] in
  log_version log = 3%Z /\ rewind (N := Z) (log_history log) 3 = None.
Proof. split; reflexivity. Qed.
(** The version of a record is not under its hashes: an archive with changed
    versions is accepted, with the changed version. *)
Lemma archive_version_unprotected :
  exists p, payload_from_wal_records (N := Z)
    (map (fun r => mk_record (version_before r + 40) (rec_fact r) (rec_content_hash r) (rec_prev_hash r) (rec_chain_hash r))
       archive) (Some 30%Z) = Ok (p, 42%Z).
Proof. eexists. vm_compute. reflexivity. Qed.
