(* ===== verification/Session.v ===== *)
(** Sessions and their manager, [evorule-governance/src/session.rs]: each session
    is a reactor with its log and its auditor; the manager creates, forks,
    finds, closes and reaps them.  The functions that find the state of a fork
    are in TimeMachine.v. *)

From stdpp Require Import sorting.
From S2P Require Import Prelude ObjectMap Value Error Path Domain Executor ExecSemantics Transition Fact Serde Hash Wal WalFile FactsLog Phase ReactorState Reactor Signing Anchor Auditor EvidParse EvidVerify TimeMachine.

(** [enum ContentHashScheme] and [compute_initial_hash]. *)
Inductive ContentHashScheme : Type := TcbDisplay | AuditChainCompact.
Definition content_hash_scheme_default : ContentHashScheme := TcbDisplay.
Definition compute_initial_hash {N} `{SerdeNumber N, SerdeText N, Blake3} (payload : JsonValue) :
    string * ContentHashScheme :=
  match content_hash (N := N) payload with
  | Ok h => (h, AuditChainCompact)
  | Err _ => (blake3_hex (json_display payload), TcbDisplay)
  end.

(** Durations in nanoseconds. *)
Definition DEFAULT_MAX_SESSIONS : nat := 1000.
Definition DEFAULT_SESSION_TTL : Z := (30 * 60 * NANOS_PER_SEC)%Z.
Definition REAPER_INTERVAL : Z := (5 * 60 * NANOS_PER_SEC)%Z.
Definition DEFAULT_SHARD_COUNT : nat := 16.
Definition DEFAULT_IO_WARN_TIMEOUT : Z := (30 * NANOS_PER_SEC)%Z.
Definition DEFAULT_IO_ERROR_TIMEOUT : Z := (60 * NANOS_PER_SEC)%Z.
Definition DEFAULT_IO_TIMEOUT_CHECK_INTERVAL : Z := (5 * NANOS_PER_SEC)%Z.
Definition NANOS_PER_MILLI : Z := 1000000%Z.
Definition SessionId : Type := Z.

(** [struct SessionAnchorConfig]. *)
Record SessionAnchorConfig : Type := mk_anchor_config {
  signer_seed : string;
  ac_key_id : string;
  ac_engine_id : string;
  ac_interval : nat;
}.

(** [struct Session].  The reactor it drives, with the log and the channels it
    shares with it, is a world of Reactor.v; [se_finished] is whether its task
    has ended; a poisoned lock of the auditor is a flag. *)
Record Session (S A : Type) `{Ed25519} : Type := mk_session {
  se_world : World S;
  se_finished : bool;
  se_auditor : Auditor A;
  se_poisoned : bool;
  se_parent_session_id : option SessionId;
  se_initial_content_hash : option string;
  se_content_hash_scheme : ContentHashScheme;
  se_created_at : Z;
  se_last_activity_ms : Z;
}.
Arguments mk_session {S A _}.
Arguments se_world {S A _}.
Arguments se_finished {S A _}.
Arguments se_auditor {S A _}.
Arguments se_poisoned {S A _}.
Arguments se_parent_session_id {S A _}.
Arguments se_initial_content_hash {S A _}.
Arguments se_content_hash_scheme {S A _}.
Arguments se_created_at {S A _}.
Arguments se_last_activity_ms {S A _}.

(** [struct SessionManager].  The shards are maps by identifier; the clock is
    the time given to an operation. *)
Record SessionManager (S A : Type) `{Ed25519} : Type := mk_manager {
  sm_core_eval : list JsonValue;
  sm_max_rounds : nat;
  sm_shards : list (gmap SessionId (Session S A));
  sm_next_session_id : Z;
  sm_max_sessions : nat;
  sm_session_ttl : Z;
  sm_wal_dir : option string;
  sm_wal_fsync : bool;
  sm_max_wal_size_bytes : Z;
  sm_auto_verify : bool;
  sm_auto_verify_threshold : nat;
  sm_auto_verify_interval : nat;
  sm_io_warn_timeout : Z;
  sm_io_error_timeout : Z;
  sm_io_timeout_check_interval : Z;
  sm_count : Z;
  sm_pending_recycle : list (FactsLog S);
  sm_anchor_config : option SessionAnchorConfig;
}.
Arguments mk_manager {S A _}.
Arguments sm_core_eval {S A _}.
Arguments sm_max_rounds {S A _}.
Arguments sm_shards {S A _}.
Arguments sm_next_session_id {S A _}.
Arguments sm_max_sessions {S A _}.
Arguments sm_session_ttl {S A _}.
Arguments sm_wal_dir {S A _}.
Arguments sm_wal_fsync {S A _}.
Arguments sm_max_wal_size_bytes {S A _}.
Arguments sm_auto_verify {S A _}.
Arguments sm_auto_verify_threshold {S A _}.
Arguments sm_auto_verify_interval {S A _}.
Arguments sm_io_warn_timeout {S A _}.
Arguments sm_io_error_timeout {S A _}.
Arguments sm_io_timeout_check_interval {S A _}.
Arguments sm_count {S A _}.
Arguments sm_pending_recycle {S A _}.
Arguments sm_anchor_config {S A _}.

(** * A session *)

Section OneSession.
Context {N S A : Type} `{SerdeNumber N, SerdeText N, Blake3, Ed25519, AnchorCodec, AnchorFile A, SerdePretty N, Gzip}.
Implicit Types s : Session S A.

Definition se_facts_log s : FactsLog S := w_log (se_world s).
Definition is_finished s : bool := se_finished s.
Definition abort s : Session S A :=
  mk_session (se_world s) true (se_auditor s) (se_poisoned s) (se_parent_session_id s)
    (se_initial_content_hash s) (se_content_hash_scheme s) (se_created_at s) (se_last_activity_ms s).
Definition current_phase s : option ReactorPhase := handle_current_phase (se_world s).
Definition causal_depth s : option Z := handle_causal_depth (se_world s).
Definition session_violations s : Z := handle_violations (se_world s).
Definition session_pending_io_count s : option nat := handle_pending_io_count (se_world s).
Definition session_current_step s : option nat := handle_current_step (se_world s).

Definition with_auditor s (a : Auditor A) : Session S A :=
  mk_session (se_world s) (se_finished s) a (se_poisoned s) (se_parent_session_id s)
    (se_initial_content_hash s) (se_content_hash_scheme s) (se_created_at s) (se_last_activity_ms s).
(** [if let Ok(mut auditor) = self.auditor.lock()], with what is returned
    when the lock is poisoned. *)
Definition locked {R} s (poisoned : R) (f : Auditor A -> Auditor A * R) : Session S A * R :=
  if se_poisoned s then (s, poisoned) else let '(a, r) := f (se_auditor s) in (with_auditor s a, r).
Definition reading {R} s (poisoned : R) (f : Auditor A -> R) : R :=
  if se_poisoned s then poisoned else f (se_auditor s).
Definition session_set_auto_verify s (enabled : bool) (threshold interval : nat) : Session S A :=
  fst (locked s tt (fun a => (set_auto_verify a enabled threshold interval, tt))).
Definition session_is_auto_verify_enabled s : bool := reading s false is_auto_verify_enabled.
Definition seal_anchor_now s : Session S A * Result AuditAnchor AnchorError :=
  locked s (Err (AHash "审计器锁中毒，无法封锚点")) auditor_seal_now.
Definition session_anchors s : list AuditAnchor := reading s [] (fun a => sealed (anchoring a)).
Definition session_verify_anchors s (keys : gmap string string) : option (Result unit string) :=
  reading s (Some (Err "审计器锁中毒，无法验证锚点")) (fun a => auditor_verify_anchors a keys).
Definition last_activity s : Z := (se_created_at s + se_last_activity_ms s * NANOS_PER_MILLI)%Z.
(** [now - created_at] is not negative; the milliseconds are cast to [u64]. *)
Definition touch s (now : Z) : Session S A :=
  let ms := ((Z.max 0 (now - se_created_at s) / NANOS_PER_MILLI) mod 2 ^ 64)%Z in
  mk_session (se_world s) (se_finished s) (se_auditor s) (se_poisoned s) (se_parent_session_id s)
    (se_initial_content_hash s) (se_content_hash_scheme s) (se_created_at s) ms.
(** The reactor does not run while the auditor reads. *)
Definition session_audit_new s : Session S A * nat :=
  locked s O (fun a => let log := se_facts_log s in audit_new (N := N) a log log log).
Definition audit_report s : Result string string :=
  reading s (Err "auditor mutex poisoned") (report (N := N)).
Definition audit_verify s : bool := reading s false verify.
Definition audit_export s : Result string string :=
  reading s (Err "auditor mutex poisoned") (export (N := N)).
Definition import_verdict (r : Auditor A * Result bool string) : Auditor A * (bool * bool) :=
  let '(a, r) := r in
  match r with Ok verify_ok => (a, (true, verify_ok)) | Err _ => (a, (false, false)) end.
Definition audit_import s (json_str : string) : Session S A * (bool * bool) :=
  locked s (false, false) (fun a => import_verdict (import_and_verify (N := N) a json_str)).
Definition audit_export_compressed s : string :=
  reading s "" (fun a => match export_compressed (N := N) a with Ok data => data | Err _ => "" end).
Definition audit_import_compressed s (compressed : string) : Session S A * (bool * bool) :=
  locked s (false, false) (fun a => import_verdict (import_compressed_and_verify (N := N) a compressed)).
Definition session_causal_chain (fuel : nat) s (fact_id : FactId) : CausalChain :=
  reading s (CausalDone []) (fun a => causal_chain fuel a fact_id).
End OneSession.

(** * The manager *)

(** [s.strip_suffix(suffix)]. *)
Fixpoint strip_suffix (suffix s : string) : option string :=
  if String.eqb s suffix then Some EmptyString
  else match s with
       | EmptyString => None
       | String c s' => String c <$> strip_suffix suffix s'
       end.
Definition session_wal_name (id : SessionId) : string := "session_" +:+ pretty id +:+ ".wal".
Definition session_number (name : string) : option Z :=
  let! s := strip_prefix "session_" name in let! s := strip_suffix ".wal" s in parse_usize s.
Definition max_session_id_from_names (names : list string) : Z :=
  fold_left (fun max name => match session_number name with Some num => Z.max max num | None => max end) names 0%Z.
(** [read_dir] gives the names, or nothing when the directory cannot be read. *)
Definition scan_max_session_id (entries : option (list string)) : Z :=
  match entries with Some names => max_session_id_from_names names | None => 0%Z end.

Section Manager.
Context {N S A : Type}.
Context `{SerdeNumber N, SerdeText N, Blake3, FactWalStore S, Ed25519, AnchorCodec, AnchorFile A}.
Implicit Types m : SessionManager S A.
#[local] Abbreviation Shard := (gmap SessionId (Session S A)).

(** Field updates. *)
Definition set_shards m (shards : list Shard) : SessionManager S A :=
  mk_manager (sm_core_eval m) (sm_max_rounds m) shards (sm_next_session_id m) (sm_max_sessions m)
    (sm_session_ttl m) (sm_wal_dir m) (sm_wal_fsync m) (sm_max_wal_size_bytes m) (sm_auto_verify m)
    (sm_auto_verify_threshold m) (sm_auto_verify_interval m) (sm_io_warn_timeout m) (sm_io_error_timeout m)
    (sm_io_timeout_check_interval m) (sm_count m) (sm_pending_recycle m) (sm_anchor_config m).
Definition set_next m (n : Z) : SessionManager S A :=
  mk_manager (sm_core_eval m) (sm_max_rounds m) (sm_shards m) n (sm_max_sessions m)
    (sm_session_ttl m) (sm_wal_dir m) (sm_wal_fsync m) (sm_max_wal_size_bytes m) (sm_auto_verify m)
    (sm_auto_verify_threshold m) (sm_auto_verify_interval m) (sm_io_warn_timeout m) (sm_io_error_timeout m)
    (sm_io_timeout_check_interval m) (sm_count m) (sm_pending_recycle m) (sm_anchor_config m).
Definition set_count m (n : Z) : SessionManager S A :=
  mk_manager (sm_core_eval m) (sm_max_rounds m) (sm_shards m) (sm_next_session_id m) (sm_max_sessions m)
    (sm_session_ttl m) (sm_wal_dir m) (sm_wal_fsync m) (sm_max_wal_size_bytes m) (sm_auto_verify m)
    (sm_auto_verify_threshold m) (sm_auto_verify_interval m) (sm_io_warn_timeout m) (sm_io_error_timeout m)
    (sm_io_timeout_check_interval m) n (sm_pending_recycle m) (sm_anchor_config m).
Definition set_recycle m (l : list (FactsLog S)) : SessionManager S A :=
  mk_manager (sm_core_eval m) (sm_max_rounds m) (sm_shards m) (sm_next_session_id m) (sm_max_sessions m)
    (sm_session_ttl m) (sm_wal_dir m) (sm_wal_fsync m) (sm_max_wal_size_bytes m) (sm_auto_verify m)
    (sm_auto_verify_threshold m) (sm_auto_verify_interval m) (sm_io_warn_timeout m) (sm_io_error_timeout m)
    (sm_io_timeout_check_interval m) (sm_count m) l (sm_anchor_config m).

(** The constructors. *)
Definition with_limits_and_wal_and_auto_verify (core_eval : list JsonValue) (max_rounds max_sessions : nat)
    (session_ttl : Z) (wal_dir : option string) (entries : option (list string)) (shard_count : nat)
    (wal_fsync : bool) (max_wal_size_bytes : Z) (auto_verify : bool)
    (auto_verify_threshold auto_verify_interval : nat) : SessionManager S A :=
  let initial_session_id :=
    u64_wrapping_add match wal_dir with Some _ => scan_max_session_id entries | None => 0%Z end 1 in
  mk_manager core_eval max_rounds (repeat ∅ shard_count) initial_session_id max_sessions session_ttl wal_dir
    wal_fsync max_wal_size_bytes auto_verify auto_verify_threshold
    (if Nat.eqb auto_verify_interval 0 then 1 else auto_verify_interval)
    DEFAULT_IO_WARN_TIMEOUT DEFAULT_IO_ERROR_TIMEOUT DEFAULT_IO_TIMEOUT_CHECK_INTERVAL 0 [] None.
Definition with_limits_and_wal_full (core_eval : list JsonValue) (max_rounds max_sessions : nat)
    (session_ttl : Z) (wal_dir : option string) (entries : option (list string)) (shard_count : nat)
    (wal_fsync : bool) (max_wal_size_bytes : Z) : SessionManager S A :=
  with_limits_and_wal_and_auto_verify core_eval max_rounds max_sessions session_ttl wal_dir entries
    shard_count wal_fsync max_wal_size_bytes false 1000 1.
Definition with_limits_and_wal_and_fsync (core_eval : list JsonValue) (max_rounds max_sessions : nat)
    (session_ttl : Z) (wal_dir : option string) (entries : option (list string)) (shard_count : nat)
    (wal_fsync : bool) : SessionManager S A :=
  with_limits_and_wal_full core_eval max_rounds max_sessions session_ttl wal_dir entries shard_count
    wal_fsync (100 * 1024 * 1024).
Definition with_limits_and_wal (core_eval : list JsonValue) (max_rounds max_sessions : nat)
    (session_ttl : Z) (wal_dir : option string) (entries : option (list string)) (shard_count : nat) :
    SessionManager S A :=
  with_limits_and_wal_and_fsync core_eval max_rounds max_sessions session_ttl wal_dir entries shard_count false.
Definition with_limits (core_eval : list JsonValue) (max_rounds max_sessions : nat) (session_ttl : Z) :
    SessionManager S A :=
  with_limits_and_wal core_eval max_rounds max_sessions session_ttl None None DEFAULT_SHARD_COUNT.
Definition manager_new (core_eval : list JsonValue) (max_rounds : nat) : SessionManager S A :=
  with_limits_and_wal core_eval max_rounds DEFAULT_MAX_SESSIONS DEFAULT_SESSION_TTL None None DEFAULT_SHARD_COUNT.
Definition with_anchor_config m (config : SessionAnchorConfig) : SessionManager S A :=
  mk_manager (sm_core_eval m) (sm_max_rounds m) (sm_shards m) (sm_next_session_id m) (sm_max_sessions m)
    (sm_session_ttl m) (sm_wal_dir m) (sm_wal_fsync m) (sm_max_wal_size_bytes m) (sm_auto_verify m)
    (sm_auto_verify_threshold m) (sm_auto_verify_interval m) (sm_io_warn_timeout m) (sm_io_error_timeout m)
    (sm_io_timeout_check_interval m) (sm_count m) (sm_pending_recycle m) (Some config).
Definition with_io_timeouts m (warn error check : option Z) : SessionManager S A :=
  mk_manager (sm_core_eval m) (sm_max_rounds m) (sm_shards m) (sm_next_session_id m) (sm_max_sessions m)
    (sm_session_ttl m) (sm_wal_dir m) (sm_wal_fsync m) (sm_max_wal_size_bytes m) (sm_auto_verify m)
    (sm_auto_verify_threshold m) (sm_auto_verify_interval m) (default (sm_io_warn_timeout m) warn)
    (default (sm_io_error_timeout m) error) (default (sm_io_timeout_check_interval m) check)
    (sm_count m) (sm_pending_recycle m) (sm_anchor_config m).

(** The identifier in the name of the anchors' session is read again from the
    counter. *)
Definition auditor_from_config m : Auditor A :=
  let auditor := new_with_auto_verify (sm_auto_verify m) (sm_auto_verify_threshold m) (sm_auto_verify_interval m) in
  match sm_anchor_config m with
  | Some cfg =>
      auditor_with_anchor auditor (signer_from_bytes (signer_seed cfg)) (ac_key_id cfg) (ac_engine_id cfg)
        ("session-" +:+ pretty (sm_next_session_id m)) (ac_interval cfg)
  | None => auditor
  end.

(** [self.shards[id % self.shards.len()]]; [None] is the panic without shards. *)
Definition get_shard_idx m (id : SessionId) : nat := Z.to_nat (id mod Z.of_nat (length (sm_shards m))).
Definition get_shard m (id : SessionId) : option Shard := sm_shards m !! get_shard_idx m id.
Definition set_shard m (id : SessionId) (shard : Shard) : SessionManager S A :=
  set_shards m (<[get_shard_idx m id := shard]> (sm_shards m)).

(** The atomic steps of a creation.  The compare-and-swap loop of
    [reserve_session_slot] ends with the exchange of the value it read. *)
Definition reserve_session_slot m : SessionManager S A * Result unit SessionError :=
  let current := sm_count m in
  if (Z.of_nat (sm_max_sessions m) <=? current)%Z then
    (m, Err (LimitExceeded current (Z.of_nat (sm_max_sessions m))))
  else (set_count m (u64_wrapping_add current 1), Ok tt).
Definition u64_wrapping_sub (a b : Z) : Z := ((a - b) mod 2 ^ 64)%Z.
Definition release_count m (n : Z) : SessionManager S A := set_count m (u64_wrapping_sub (sm_count m) n).
Definition release_session_slot m : SessionManager S A := release_count m 1.
Definition take_session_id m : SessionManager S A * SessionId :=
  (set_next m (u64_wrapping_add (sm_next_session_id m) 1), sm_next_session_id m).
(** [opened] is what [FactsLog::with_wal_options] gives for the file. *)
Definition create_facts_log m (opened : Result (FactsLog S) FactsLogError) : Result (FactsLog S) FactsLogError :=
  match sm_wal_dir m with Some _ => opened | None => Ok log_new end.
(** [Reactor::builder(..)]: the other settings are the defaults. *)
Definition session_reactor m (core_eval : list JsonValue) : Reactor :=
  mk_reactor core_eval (sm_max_rounds m) DEFAULT_MAX_QUEUE_LEN (sm_io_warn_timeout m) (sm_io_error_timeout m) None None.
Definition register m (id : SessionId) (core_eval : list JsonValue) (log : FactsLog S)
    (parent : option SessionId) (initial_hash : option string) (scheme : ContentHashScheme) (now : Z) :
    option (SessionManager S A) :=
  let world := spawn (session_reactor m core_eval) log in
  let! shard := get_shard m id in
  let session := mk_session world false (auditor_from_config m) false parent initial_hash scheme now 0 in
  Some (set_shard m id (<[id := session]> shard)).

Definition create_session m (opened : Result (FactsLog S) FactsLogError) (now : Z) :
    option (SessionManager S A * Result SessionId SessionError) :=
  match reserve_session_slot m with
  | (m, Err e) => Some (m, Err e)
  | (m, Ok _) =>
      let '(m, session_id) := take_session_id m in
      match create_facts_log m opened with
      | Err source => Some (release_session_slot m, Err (WalUnavailable session_id source))
      | Ok facts_log =>
          let! m := register m session_id (sm_core_eval m) facts_log None None content_hash_scheme_default now in
          Some (m, Ok session_id)
      end
  end.
Definition create_session_from_initial_state_inner m (parent_id : option SessionId)
    (initial_payload : JsonValue) (initial_version : Z) (core_eval : option (list JsonValue))
    (opened : Result (FactsLog S) FactsLogError) (now : Z) :
    option (SessionManager S A * Result SessionId SessionError) :=
  match reserve_session_slot m with
  | (m, Err e) => Some (m, Err e)
  | (m, Ok _) =>
      let '(m, session_id) := take_session_id m in
      let '(initial_content_hash, scheme) := compute_initial_hash (N := N) initial_payload in
      match create_facts_log m opened with
      | Err source => Some (release_session_slot m, Err (WalUnavailable session_id source))
      | Ok facts_log =>
          let facts_log := set_initial_state (N := N) facts_log initial_payload initial_version in
          let! m := register m session_id (default (sm_core_eval m) core_eval) facts_log parent_id
            (Some initial_content_hash) scheme now in
          Some (m, Ok session_id)
      end
  end.
Definition create_session_from_initial_state m (parent_id : option SessionId) (initial_payload : JsonValue)
    (initial_version : Z) (opened : Result (FactsLog S) FactsLogError) (now : Z) :=
  create_session_from_initial_state_inner m parent_id initial_payload initial_version None opened now.
Definition get_session m (id : SessionId) : option (option (Session S A)) :=
  let! shard := get_shard m id in Some (shard !! id).
Definition create_session_from_parent_at_version_with_core_eval m (parent_id : SessionId) (version : option Z)
    (core_eval_override : option (list JsonValue)) (opened : Result (FactsLog S) FactsLogError) (now : Z) :
    option (SessionManager S A * Result SessionId SessionError) :=
  let! found := get_session m parent_id in
  match found with
  | None => Some (m, Err (SessionNotFound parent_id))
  | Some parent =>
      let initial :=
        match version with
        | Some v =>
            match rewind_payload (se_facts_log parent) v with
            | Some payload => Ok (payload, v)
            | None => Err (InvalidVersion v)
            end
        | None => let '(payload, _, version) := snapshot (se_facts_log parent) in Ok (payload, version)
        end in
      match initial with
      | Err e => Some (m, Err e)
      | Ok (initial_payload, initial_version) =>
          create_session_from_initial_state_inner m (Some parent_id) initial_payload initial_version
            core_eval_override opened now
      end
  end.
Definition create_session_from_parent_at_version m (parent_id : SessionId) (version : option Z)
    (opened : Result (FactsLog S) FactsLogError) (now : Z) :=
  create_session_from_parent_at_version_with_core_eval m parent_id version None opened now.
Definition create_session_from_parent m (parent_id : SessionId)
    (opened : Result (FactsLog S) FactsLogError) (now : Z) :=
  create_session_from_parent_at_version m parent_id None opened now.

Definition replace_core_eval m (new_core_eval : list JsonValue) : SessionManager S A * list JsonValue :=
  (mk_manager new_core_eval (sm_max_rounds m) (sm_shards m) (sm_next_session_id m) (sm_max_sessions m)
     (sm_session_ttl m) (sm_wal_dir m) (sm_wal_fsync m) (sm_max_wal_size_bytes m) (sm_auto_verify m)
     (sm_auto_verify_threshold m) (sm_auto_verify_interval m) (sm_io_warn_timeout m) (sm_io_error_timeout m)
     (sm_io_timeout_check_interval m) (sm_count m) (sm_pending_recycle m) (sm_anchor_config m), sm_core_eval m).
Definition touch_session m (id : SessionId) (now : Z) : option (SessionManager S A) :=
  let! shard := get_shard m id in
  Some match shard !! id with
       | Some session => set_shard m id (<[id := touch session now]> shard)
       | None => m
       end.
(** [close_session]; the handle it returns is that of the session. *)
Definition close_session m (id : SessionId) : option (SessionManager S A * Result (Session S A) SessionError) :=
  let! shard := get_shard m id in
  Some match shard !! id with
       | None => (m, Err (SessionNotFound id))
       | Some session =>
           let m := release_count (set_shard m id (delete id shard)) 1 in
           let m := match sm_wal_dir m with
                    | None => set_recycle m (sm_pending_recycle m ++ [se_facts_log session])
                    | Some _ => m
                    end in
           (m, Ok session)
       end.
Definition list_sessions m : list SessionId :=
  merge_sort Z.le (concat (map (fun shard : Shard => map fst (map_to_list shard)) (sm_shards m))).
(** [reclaim_pending]: the logs still in use elsewhere are kept. *)
Definition reclaim_pending m (is_reusable : FactsLog S -> bool) : SessionManager S A :=
  set_recycle m (List.filter (fun fl => negb (is_reusable fl)) (sm_pending_recycle m)).
(** The sessions that are kept, and how many are not. *)
Definition reap_shards (keep : Session S A -> bool) (shards : list Shard) : list Shard * nat :=
  let kept := map (fun shard : Shard => filter (fun entry => keep (snd entry) = true) shard) shards in
  (kept, (sum_list_with size shards - sum_list_with size kept)%nat).
Definition reap (keep : Session S A -> bool) m : SessionManager S A * nat :=
  let '(shards, reaped) := reap_shards keep (sm_shards m) in
  let m := set_shards m shards in
  (if Nat.ltb 0 reaped then release_count m (Z.of_nat reaped) else m, reaped).
Definition reap_finished m (is_reusable : FactsLog S -> bool) : SessionManager S A * nat :=
  reap (fun session => negb (is_finished session)) (reclaim_pending m is_reusable).
(** [now.duration_since(..)] saturates at zero. *)
Definition expired m (now : Z) (session : Session S A) : bool :=
  (sm_session_ttl m <? Z.max 0 (now - last_activity session))%Z.
Definition reap_expired_at m (now : Z) : SessionManager S A * nat :=
  reap (fun session => negb (expired m now session)) m.
Definition reap_all m (is_reusable : FactsLog S -> bool) (now : Z) : SessionManager S A * nat :=
  let '(m, finished) := reap_finished m is_reusable in
  let '(m, expired) := reap_expired_at m now in
  (m, (finished + expired)%nat).
Definition manager_len m : Z := sm_count m.
Definition manager_is_empty m : bool := (sm_count m =? 0)%Z.
End Manager.
