(* ===== verification/SessionSpec.v ===== *)
(** Theorems about sessions: the limit on sessions under any interleaving of
    creations, closings and reaping; what creating, forking and reaping do; and
    that the log of a new session never overwrites one that exists. *)

From stdpp Require Import sorting.
From S2P Require Import Prelude ObjectMap Value Error Path Domain Executor ExecSemantics Transition Fact Serde Hash Wal WalFile FactsLog FactsLogSpec Phase ReactorState Reactor Signing Anchor Auditor EvidParse EvidVerify TimeMachine Session.

(** * The manager under concurrency *)

Section Concurrent.
Context {N S A : Type}.
Context `{SerdeNumber N, SerdeText N, Blake3, FactWalStore S, Ed25519, AnchorCodec, AnchorFile A}.
Implicit Types m : SessionManager S A.
#[local] Abbreviation Shard := (gmap SessionId (Session S A)).

(** A call in progress: a creation that holds a slot, one that also has its
    identifier, and a removal that has yet to subtract from the counter. *)
Inductive Task : Type :=
| Reserved
| Allocated (id : SessionId)
| Subtracting (n : nat).
Definition weight (t : Task) : nat := match t with Reserved | Allocated _ => 1 | Subtracting n => n end.
Definition allocated (ts : list Task) : list SessionId :=
  omap (fun t => match t with Allocated id => Some id | _ => None end) ts.
Record System : Type := mk_system { sys_manager : SessionManager S A; sys_tasks : list Task }.

(** The atomic steps of the calls, in any order.  Identifiers do not wrap. *)
Inductive sys_step : System -> System -> Prop :=
| step_reserve m m' ts :
    reserve_session_slot m = (m', Ok tt) -> sys_step (mk_system m ts) (mk_system m' (Reserved :: ts))
| step_refuse m m' e ts :
    reserve_session_slot m = (m', Err e) -> sys_step (mk_system m ts) (mk_system m' ts)
| step_take m ts1 ts2 :
    (sm_next_session_id m < u64_max)%Z ->
    sys_step (mk_system m (ts1 ++ Reserved :: ts2))
      (mk_system (fst (take_session_id m)) (ts1 ++ Allocated (snd (take_session_id m)) :: ts2))
| step_fail m ts1 id ts2 :
    sys_step (mk_system m (ts1 ++ Allocated id :: ts2)) (mk_system (release_session_slot m) (ts1 ++ ts2))
| step_register m ts1 id ts2 core_eval log parent hash scheme now m' :
    register m id core_eval log parent hash scheme now = Some m' ->
    sys_step (mk_system m (ts1 ++ Allocated id :: ts2)) (mk_system m' (ts1 ++ ts2))
| step_touch m id now m' ts :
    touch_session m id now = Some m' -> sys_step (mk_system m ts) (mk_system m' ts)
| step_close m id shard session ts :
    get_shard m id = Some shard -> shard !! id = Some session ->
    sys_step (mk_system m ts) (mk_system (set_shard m id (delete id shard)) (Subtracting 1 :: ts))
| step_reap m ts : sys_step (mk_system m ts) (mk_system m (Subtracting 0 :: ts))
| step_reap_shard m ts1 n ts2 i (shard : Shard) keep :
    sm_shards m !! i = Some shard ->
    let kept := filter (fun entry => keep (snd entry) = true) shard in
    sys_step (mk_system m (ts1 ++ Subtracting n :: ts2))
      (mk_system (set_shards m (<[i := kept]> (sm_shards m)))
         (ts1 ++ Subtracting (n + (size shard - size kept)) :: ts2))
| step_subtract m ts1 n ts2 :
    sys_step (mk_system m (ts1 ++ Subtracting n :: ts2)) (mk_system (release_count m (Z.of_nat n)) (ts1 ++ ts2)).

Definition live m : nat := sum_list_with size (sm_shards m).
Definition weights (ts : list Task) : nat := sum_list_with weight ts.
Definition holds_session m (id : SessionId) (session : Session S A) : Prop :=
  exists i shard, sm_shards m !! i = Some shard /\ shard !! id = Some session.
Record sys_inv (sys : System) : Prop := {
  si_count : sm_count (sys_manager sys) = Z.of_nat (live (sys_manager sys) + weights (sys_tasks sys));
  si_max : (sm_count (sys_manager sys) <= Z.of_nat (sm_max_sessions (sys_manager sys)))%Z;
  si_bound : (Z.of_nat (sm_max_sessions (sys_manager sys)) <= u64_max)%Z;
  si_place i shard id session :
    sm_shards (sys_manager sys) !! i = Some shard -> shard !! id = Some session ->
    i = get_shard_idx (sys_manager sys) id /\ (id < sm_next_session_id (sys_manager sys))%Z;
  si_next : (0 <= sm_next_session_id (sys_manager sys) <= u64_max)%Z;
  si_fresh : NoDup (allocated (sys_tasks sys));
  si_allocated id : id ∈ allocated (sys_tasks sys) ->
    (id < sm_next_session_id (sys_manager sys))%Z /\ forall session, ~ holds_session (sys_manager sys) id session;
}.
Lemma weights_middle ts1 t ts2 : weights (ts1 ++ t :: ts2) = weight t + weights (ts1 ++ ts2).
Proof. unfold weights. by rewrite <- Permutation_middle. Qed.
Lemma allocated_middle ts1 t ts2 :
  allocated (ts1 ++ t :: ts2) ≡ₚ
  match t with Allocated id => id :: allocated (ts1 ++ ts2) | _ => allocated (ts1 ++ ts2) end.
Proof. unfold allocated. rewrite <- Permutation_middle. by destruct t. Qed.
Lemma sum_insert {B} (f : B -> nat) l i x y :
  l !! i = Some x -> sum_list_with f (<[i:=y]> l) + f x = sum_list_with f l + f y.
Proof.
  rewrite !sum_list_with_foldr. revert i. induction l as [|z l IH]; intros [|i]; try done.
  - intros [= ->]. cbn. lia.
  - intros Hi. specialize (IH i Hi). change (<[Datatypes.S i:=y]> (z :: l)) with (z :: <[i:=y]> l). cbn [foldr]. lia.
Qed.
Lemma holds_insert m i (shard shard' : Shard) id session :
  sm_shards m !! i = Some shard -> (forall k, is_Some (shard' !! k) -> is_Some (shard !! k)) ->
  holds_session (set_shards m (<[i:=shard']> (sm_shards m))) id session ->
  exists session', holds_session m id session'.
Proof.
  intros Hi Hsub (j & sh & Hj & Hid). cbn in Hj. apply list_lookup_insert_Some in Hj as [(<- & -> & _)|[_ Hj]].
  - destruct (Hsub id) as [s' Hs']; [by eexists|]. by exists s', i, shard.
  - by exists session, j, sh.
Qed.
(** Fewer sessions in a shard, or the same ones. *)
Lemma inv_shard m ts ts' i (shard shard' : Shard) :
  sys_inv (mk_system m ts) -> sm_shards m !! i = Some shard ->
  (forall k, is_Some (shard' !! k) -> is_Some (shard !! k)) ->
  size shard' + weights ts' = size shard + weights ts -> allocated ts' ≡ₚ allocated ts ->
  sys_inv (mk_system (set_shards m (<[i:=shard']> (sm_shards m))) ts').
Proof.
  intros [] Hi Hsub Hsize Hperm. cbn [sys_manager sys_tasks] in *. pose proof (sum_insert size _ _ _ shard' Hi).
  split; cbn [sys_manager sys_tasks]; try done.
  - cbn. unfold live in *. cbn. rewrite si_count0. lia.
  - intros j sh id session Hj Hid. unfold get_shard_idx. cbn in *. rewrite length_insert.
    apply list_lookup_insert_Some in Hj as [(<- & -> & _)|[_ Hj]]; [|by eapply si_place0].
    destruct (Hsub id) as [s' Hs']; [by eexists|]. by eapply si_place0.
  - by rewrite Hperm.
  - intros id. rewrite Hperm. intros Ha. destruct (si_allocated0 id Ha) as [Hlt Hno]. split; [done|].
    intros session Hh. apply (holds_insert m i shard) in Hh as [s' Hs']; [|done|done]. by eapply Hno.
Qed.
(** The counter goes down by what the tasks held. *)
Lemma inv_release m ts ts' n :
  sys_inv (mk_system m ts) -> weights ts = n + weights ts' ->
  (exists dropped, allocated ts ≡ₚ dropped ++ allocated ts') ->
  sys_inv (mk_system (release_count m (Z.of_nat n)) ts').
Proof.
  intros [] Hw [dropped Hd]. cbn [sys_manager sys_tasks] in *. unfold release_count, u64_wrapping_sub.
  assert (((sm_count m - Z.of_nat n) mod 2 ^ 64 = sm_count m - Z.of_nat n)%Z) as Hmod.
  { apply Z.mod_small. unfold u64_max in *. lia. }
  split; cbn [sys_manager sys_tasks]; try done.
  - cbn. rewrite Hmod. unfold live in *. cbn. lia.
  - cbn. rewrite Hmod. lia.
  - rewrite Hd in si_fresh0. by apply NoDup_app in si_fresh0 as (_ & _ & ?).
  - intros id Ha. apply si_allocated0. rewrite Hd. apply elem_of_app. by right.
Qed.
Lemma inv_reserve m m' ts :
  sys_inv (mk_system m ts) -> reserve_session_slot m = (m', Ok tt) -> sys_inv (mk_system m' (Reserved :: ts)).
Proof.
  intros [] Hr. cbn [sys_manager sys_tasks] in *. unfold reserve_session_slot in Hr.
  destruct (Z.leb_spec (Z.of_nat (sm_max_sessions m)) (sm_count m)) as [|Hlt]; [done|]. injection Hr as <-.
  assert (u64_wrapping_add (sm_count m) 1 = sm_count m + 1)%Z as Hadd.
  { unfold u64_wrapping_add, u64_max in *. apply Z.mod_small. lia. }
  split; cbn [sys_manager sys_tasks]; try done.
  - cbn. rewrite Hadd. unfold live in *. cbn. fold (weights ts). lia.
  - cbn. rewrite Hadd. lia.
Qed.
Lemma inv_take m ts1 ts2 :
  sys_inv (mk_system m (ts1 ++ Reserved :: ts2)) -> (sm_next_session_id m < u64_max)%Z ->
  sys_inv (mk_system (fst (take_session_id m)) (ts1 ++ Allocated (snd (take_session_id m)) :: ts2)).
Proof.
  intros [] Hn. cbn [sys_manager sys_tasks] in *. rewrite weights_middle in si_count0.
  rewrite (allocated_middle ts1 Reserved ts2) in si_fresh0.
  assert (u64_wrapping_add (sm_next_session_id m) 1 = sm_next_session_id m + 1)%Z as Hadd.
  { unfold u64_wrapping_add, u64_max in *. apply Z.mod_small. lia. }
  split; cbn [sys_manager sys_tasks]; try done.
  - rewrite weights_middle. exact si_count0.
  - intros i shard id session Hi Hid. destruct (si_place0 i shard id session Hi Hid) as [-> Hlt].
    split; [done|]. cbn. rewrite Hadd. lia.
  - cbn. rewrite Hadd. lia.
  - rewrite allocated_middle. apply NoDup_cons. split; [|done]. intros Hin.
    destruct (si_allocated0 (sm_next_session_id m)) as [Hlt _]; [|lia]. by rewrite allocated_middle.
  - intros id. rewrite allocated_middle. cbn. rewrite Hadd. intros [->|Hin]%elem_of_cons.
    + split; [lia|]. intros session (i & shard & Hi & Hid). destruct (si_place0 i shard _ session Hi Hid). lia.
    + destruct (si_allocated0 id) as [Hlt Hno]; [by rewrite allocated_middle|]. split; [lia|done].
Qed.
Lemma register_Some m id core_eval log parent hash scheme now m' :
  register m id core_eval log parent hash scheme now = Some m' ->
  exists shard, get_shard m id = Some shard /\
    m' = set_shard m id (<[id := mk_session (spawn (session_reactor m core_eval) log) false
      (auditor_from_config m) false parent hash scheme now 0]> shard).
Proof. unfold register. destruct (get_shard m id) as [shard|]; [|done]. intros [= <-]. by exists shard. Qed.
Lemma inv_register m ts1 id ts2 core_eval log parent hash scheme now m' :
  sys_inv (mk_system m (ts1 ++ Allocated id :: ts2)) ->
  register m id core_eval log parent hash scheme now = Some m' -> sys_inv (mk_system m' (ts1 ++ ts2)).
Proof.
  intros [] (shard & Hi & ->)%register_Some. cbn [sys_manager sys_tasks] in *. rewrite weights_middle in si_count0.
  rewrite (allocated_middle ts1 (Allocated id) ts2) in si_fresh0. apply NoDup_cons in si_fresh0 as [Hnin Hnd].
  assert (id ∈ allocated (ts1 ++ Allocated id :: ts2)) as Hin by (rewrite allocated_middle; by left).
  destruct (si_allocated0 id Hin) as [Hlt Hno].
  assert (shard !! id = None) as Hnone.
  { destruct (shard !! id) as [session|] eqn:Hid; [|done]. exfalso. by apply (Hno session); exists (get_shard_idx m id), shard. }
  set (session := mk_session _ _ _ _ _ _ _ _ _). unfold set_shard. pose proof (sum_insert size _ _ _ (<[id:=session]> shard) Hi) as Hs.
  rewrite map_size_insert_None in Hs by done.
  split; cbn [sys_manager sys_tasks]; try done.
  - unfold live in *. cbn [weight sm_shards set_shards sm_count] in *. lia.
  - intros j sh id' s' Hj Hid. unfold get_shard_idx. cbn in *. rewrite length_insert.
    apply list_lookup_insert_Some in Hj as [(<- & <- & _)|[_ Hj]]; [|by eapply si_place0].
    apply lookup_insert_Some in Hid as [[<- <-]|[_ Hid]]; [done|by eapply si_place0].
  - intros id' Hin'. destruct (si_allocated0 id') as [Hlt' Hno']; [rewrite allocated_middle; by right|].
    split; [done|]. intros s' (j & sh & Hj & Hid). cbn in Hj.
    apply list_lookup_insert_Some in Hj as [(<- & <- & _)|[_ Hj]]; [|by apply (Hno' s'); exists j, sh].
    apply lookup_insert_Some in Hid as [[-> _]|[_ Hid]]; [done|]. by apply (Hno' s'); exists (get_shard_idx m id), shard.
Qed.
Lemma size_filter_le (keep : Session S A -> bool) (shard : Shard) :
  size (filter (fun entry : SessionId * Session S A => keep (snd entry) = true) shard) <= size shard.
Proof. apply map_subseteq_size, map_filter_subseteq. Qed.
Lemma inv_step sys sys' : sys_inv sys -> sys_step sys sys' -> sys_inv sys'.
Proof.
  intros Hinv Hstep. destruct Hstep as [m m' ts Hr|m m' e ts Hr|m ts1 ts2 Hn|m ts1 id ts2
    |m ts1 id ts2 ce log par h sc now m' Hr|m id now m' ts Ht|m id shard s ts Hi Hid|m ts
    |m ts1 n ts2 i shard keep Hi kept|m ts1 n ts2].
  - by eapply inv_reserve.
  - unfold reserve_session_slot in Hr. destruct (_ <=? _)%Z; [|done]. by injection Hr as <- _.
  - by apply inv_take.
  - apply (inv_release m (ts1 ++ Allocated id :: ts2) _ 1); [done|by rewrite weights_middle|]. exists [id]. by rewrite allocated_middle.
  - by eapply inv_register.
  - unfold touch_session in Ht. destruct (get_shard m id) as [shard|] eqn:Hi; [|done].
    destruct (shard !! id) as [s|] eqn:Hid; injection Ht as <-; [|done].
    apply (inv_shard m ts ts _ shard); try done.
    + intros k [x [[<- _]|[_ Hk]]%lookup_insert_Some]; by eexists.
    + by rewrite map_size_insert_Some.
  - apply (inv_shard m ts _ _ shard); try done.
    + intros k [x [_ Hk]%lookup_delete_Some]. by eexists.
    + rewrite map_size_delete_Some by (by eexists). change (weights (Subtracting 1 :: ts)) with (1 + weights ts).
      assert (size shard <> 0); [|lia]. intros Hz%map_size_empty_inv. by rewrite Hz in Hid.
  - destruct Hinv. by split.
  - apply (inv_shard m (ts1 ++ Subtracting n :: ts2) _ _ shard); [exact Hinv|done| | |].
    + intros k [x Hk]. apply map_lookup_filter_Some in Hk as [Hk _]. by eexists.
    + rewrite !weights_middle. cbn. pose proof (size_filter_le keep shard) as Hle. fold kept in Hle. lia.
    + by rewrite !allocated_middle.
  - apply (inv_release m (ts1 ++ Subtracting n :: ts2) _ n); [done|by rewrite weights_middle|]. exists []. by rewrite allocated_middle.
Qed.

(** * One call at a time *)

(** A manager between calls. *)
Definition quiet_manager m : Prop := sys_inv (mk_system m []).
Lemma quiet_start core_eval rounds max ttl dir entries shards fsync size on threshold interval :
  (Z.of_nat max <= u64_max)%Z ->
  quiet_manager (with_limits_and_wal_and_auto_verify core_eval rounds max ttl dir entries shards fsync size on threshold interval).
Proof.
  intros Hmax. split; cbn [sys_manager sys_tasks]; try done.
  - cbn. unfold live. cbn. induction shards as [|k IH]; [done|]. cbn. by rewrite map_size_empty.
  - cbn. lia.
  - intros i shard id session Hi. cbn in Hi. apply list_elem_of_lookup_2, list_elem_of_In, repeat_spec in Hi. subst.
    by rewrite lookup_empty.
  - cbn. unfold u64_wrapping_add, u64_max. pose proof (Z.mod_pos_bound
      (match dir with Some _ => scan_max_session_id entries | None => 0 end + 1) (2 ^ 64) ltac:(lia)). lia.
  - apply NoDup_nil_2.
  - intros id Hin. by apply not_elem_of_nil in Hin.
Qed.
Lemma inv_steps sys sys' : sys_inv sys -> rtc sys_step sys sys' -> sys_inv sys'.
Proof. intros Hi. induction 1 as [|x y z Hs _ IH]; [done|]. by apply IH, (inv_step x). Qed.

Lemma get_session_set m id shard id' :
  get_shard m id = Some shard -> forall shard' : Shard,
  (forall k, k <> id -> shard' !! k = shard !! k) ->
  get_session (set_shard m id shard') id' =
  if decide (id' = id) then Some (shard' !! id) else get_session m id'.
Proof.
  intros Hi shard' Hsame. unfold get_session, get_shard, get_shard_idx, set_shard in *. cbn. rewrite length_insert.
  set (idx := fun k : Z => Z.to_nat (k mod Z.of_nat (length (sm_shards m)))). fold (idx id) in Hi |- *. fold (idx id').
  assert (idx id < length (sm_shards m)) as Hlt by by eapply lookup_lt_Some.
  destruct (decide (id' = id)) as [->|Hne]; [by rewrite list_lookup_insert_eq|].
  destruct (decide (idx id = idx id')) as [<-|Hd].
  - rewrite list_lookup_insert_eq by done. rewrite Hi. by rewrite Hsame.
  - by rewrite list_lookup_insert_ne.
Qed.
Lemma holds_get m id session :
  quiet_manager m -> holds_session m id session <-> get_session m id = Some (Some session).
Proof.
  intros Hq. unfold get_session, get_shard. split.
  - intros (i & shard & Hi & Hid). destruct (si_place _ Hq i shard id session Hi Hid) as [-> _]. cbn [sys_manager] in Hi. rewrite Hi. by f_equal.
  - destruct (sm_shards m !! get_shard_idx m id) as [shard|] eqn:Hi; [|done]. intros [= Hid]. by exists (get_shard_idx m id), shard.
Qed.

(** The steps of a creation: a slot, an identifier, and then either the slot
    is given back or the session is registered. *)
Lemma creation_steps m m1 ce log par h sc now :
  quiet_manager m -> (sm_next_session_id m < u64_max)%Z -> reserve_session_slot m = (m1, Ok tt) ->
  let '(m2, id) := take_session_id m1 in
  id = sm_next_session_id m /\ quiet_manager (release_session_slot m2) /\
  sm_shards (release_session_slot m2) = sm_shards m /\ sm_count (release_session_slot m2) = sm_count m /\
  forall m3, register m2 id ce log par h sc now = Some m3 -> quiet_manager m3 /\ live m3 = Datatypes.S (live m) /\
    get_session m id = Some None /\
    forall id', get_session m3 id' = if decide (id' = id)
      then Some (Some (mk_session (spawn (session_reactor m ce) log) false (auditor_from_config m2) false par h sc now 0))
      else get_session m id'.
Proof.
  intros Hq Hn Hr. pose proof (inv_reserve m m1 [] Hq Hr) as H1'.
  assert (m1 = set_count m (sm_count m + 1)) as Hm1.
  { unfold reserve_session_slot in Hr. destruct (Z.leb_spec (Z.of_nat (sm_max_sessions m)) (sm_count m)); [done|].
    injection Hr as <-. f_equal. unfold u64_wrapping_add. apply Z.mod_small. destruct Hq. cbn in *. unfold u64_max in *. lia. }
  assert (sm_next_session_id m1 < u64_max)%Z as Hn1 by by rewrite Hm1.
  pose proof (inv_take m1 [] [] H1' Hn1) as H2'. destruct (take_session_id m1) as [m2 id] eqn:Ht. cbn [fst snd app] in H2'.
  assert (id = sm_next_session_id m /\ sm_shards m2 = sm_shards m /\ sm_count m2 = (sm_count m + 1)%Z /\
    session_reactor m2 = session_reactor m) as (Hid & Hsh & Hc & Hre).
  { unfold take_session_id in Ht. injection Ht as <- <-. by rewrite Hm1. }
  split; [done|]. split; [|split; [|split]].
  - eapply inv_step; [exact H2'|]. apply (step_fail m2 [] id []).
  - done.
  - cbn. rewrite Hc. unfold u64_wrapping_sub. replace (sm_count m + 1 - 1)%Z with (sm_count m) by lia.
    apply Z.mod_small. destruct Hq. cbn in *. unfold u64_max in *. lia.
  - intros m3 Hreg. pose proof (inv_register m2 [] id [] _ _ _ _ _ _ _ H2' Hreg) as H3'. split; [exact H3'|].
    destruct (register_Some _ _ _ _ _ _ _ _ _ Hreg) as (shard & Hi & ->). rewrite Hre in *.
    assert (forall k, get_session m2 k = get_session m k) as Hsame.
    { intros k. unfold get_session, get_shard, get_shard_idx. by rewrite Hsh. }
    assert (get_session m id = Some None) as Hnone.
    { rewrite <- Hsame. unfold get_session. rewrite Hi. cbn. f_equal. destruct (shard !! id) as [s|] eqn:Hs; [|done].
      exfalso. destruct (si_place _ H2' (get_shard_idx m2 id) shard id s Hi Hs) as [_ Hlt].
      destruct (si_allocated _ H2' id) as [_ Hno]; [by left|]. apply (Hno s). by exists (get_shard_idx m2 id), shard. }
    split_and!; [|done|].
    + pose proof (si_count _ H3') as Hc3. pose proof (si_count _ Hq) as Hcq. cbn [sys_manager sys_tasks app] in Hc3, Hcq.
      change (weights []) with 0 in Hc3, Hcq. match type of Hc3 with ?c = _ => change c with (sm_count m2) in Hc3 end. lia.
    + intros id'. rewrite (get_session_set m2 id shard) by (done || (intros k Hk; by rewrite lookup_insert_ne)).
      destruct (decide (id' = id)) as [->|]; [by rewrite lookup_insert_eq|apply Hsame].
Qed.

Lemma reserve_same m m1 r : reserve_session_slot m = (m1, r) ->
  sm_wal_dir m1 = sm_wal_dir m /\ sm_core_eval m1 = sm_core_eval m.
Proof. unfold reserve_session_slot. destruct (_ <=? _)%Z; by intros [= <- <-]. Qed.

(** Reaping. *)
Lemma map_inserts_inv (keep : Session S A -> bool) m :
  quiet_manager m ->
  let kept := map (fun shard : Shard => filter (fun entry : SessionId * Session S A => keep (snd entry) = true) shard) (sm_shards m) in
  let gone := sum_list_with size (sm_shards m) - sum_list_with size kept in
  sys_inv (mk_system (set_shards m kept) [Subtracting gone]).
Proof.
  intros [] kept gone. cbn [sys_manager sys_tasks] in *.
  assert (sum_list_with size kept <= sum_list_with size (sm_shards m)) as Hle.
  { unfold kept. clear. rewrite !sum_list_with_foldr. induction (sm_shards m) as [|sh l IH]; cbn; [lia|].
    pose proof (size_filter_le keep sh). lia. }
  assert (forall i sh id s, kept !! i = Some sh -> sh !! id = Some s ->
    exists sh0, sm_shards m !! i = Some sh0 /\ sh0 !! id = Some s) as Hk.
  { intros i sh id s. unfold kept. rewrite list_lookup_fmap. destruct (sm_shards m !! i) as [sh0|]; [|done].
    intros [= <-] [Hs _]%map_lookup_filter_Some. by exists sh0. }
  split; cbn [sys_manager sys_tasks]; try done.
  - unfold live, weights in *. cbn [sm_count sm_shards set_shards sum_list_with weight] in *. cbn in *. unfold gone. lia.
  - intros i sh id s Hi Hid. destruct (Hk i sh id s Hi Hid) as (sh0 & Hi0 & Hid0).
    unfold get_shard_idx. cbn. unfold kept. rewrite length_map. by eapply si_place0.
  - intros id Hin. by apply not_elem_of_nil in Hin.
Qed.
Lemma reap_spec (keep : Session S A -> bool) m m' n :
  quiet_manager m -> reap keep m = (m', n) ->
  quiet_manager m' /\ live m = live m' + n /\
  forall id, get_session m' id = match get_session m id with
    | Some (Some session) => Some (if keep session then Some session else None) | r => r end.
Proof.
  intros Hq. unfold reap, reap_shards. pose proof (map_inserts_inv keep m Hq) as Hinv. cbv zeta in Hinv.
  set (kept := map _ (sm_shards m)) in *. set (gone := sum_list_with size (sm_shards m) - _) in *.
  intros [= <- <-]. pose proof (inv_step _ _ Hinv (step_subtract _ [] gone [])) as Hq'. cbn [app] in Hq'.
  assert (sys_inv (mk_system (if 0 <? gone then release_count (set_shards m kept) (Z.of_nat gone) else set_shards m kept) [])) as Hfin.
  { destruct (Nat.ltb_spec 0 gone); [exact Hq'|]. assert (gone = 0) as Hz by lia. rewrite Hz in Hinv, Hq'.
    destruct Hinv. by split. }
  set (m2 := if 0 <? gone then _ else _) in *. assert (sm_shards m2 = kept) as Hsh by (unfold m2; by destruct (0 <? gone)).
  split; [exact Hfin|]. split.
  - pose proof (si_count _ Hinv) as Hc. pose proof (si_count _ Hq) as Hcq. cbn [sys_manager sys_tasks] in Hc, Hcq.
    unfold live at 2. rewrite Hsh. unfold live, weights in *. cbn [sm_count set_shards sm_shards] in *. cbn in Hc, Hcq. lia.
  - intros id. unfold get_session, get_shard, get_shard_idx. rewrite Hsh. unfold kept at 1 2. rewrite length_map, list_lookup_fmap.
    destruct (sm_shards m !! _) as [sh|]; [|done]. cbn. destruct (sh !! id) as [s|] eqn:Hs.
    + destruct (keep s) eqn:Hk; f_equal.
      * by apply map_lookup_filter_Some.
      * apply map_lookup_filter_None. right. intros s' Hs'. rewrite Hs in Hs'. injection Hs' as <-. cbn. by rewrite Hk.
    + f_equal. apply map_lookup_filter_None. by left.
Qed.

(** The state of a log a session is forked into. *)
Lemma initial_state_log (log : FactsLog S) payload v :
  log_state (inner log) = state_new ->
  snapshot (set_initial_state (N := N) log payload v) = (payload, [], v).
Proof.
  intros Hst. unfold set_initial_state. match goal with |- context [append ?l ?f] => destruct (append (N := N) l f) as [log' r] eqn:Ha end.
  cbn [fst]. assert (current_queue (log_state (inner log')) = []) as Hqueue.
  { assert (r <> Err VersionOverflow) as Hr.
    { intros ->. apply append_version in Ha as [Hv _]. specialize (Hv eq_refl). unfold log_version in Hv. cbn in Hv.
      rewrite Hst in Hv. by cbn in Hv. }
    apply append_state in Ha as [[_ ->]|(v' & _ & ->)]; cbn; rewrite ?Hst; done. }
  unfold snapshot. cbn. by rewrite Hqueue.
Qed.
End Concurrent.

(** * The names of the logs *)

Lemma strip_suffix_app suffix s : strip_suffix suffix (s +:+ suffix) = Some s.
Proof.
  induction s as [|c s IH]; cbn [append].
  - change (EmptyString +:+ suffix) with suffix. destruct suffix; cbn; [done|]. by rewrite Ascii.eqb_refl, String.eqb_refl.
  - change (String c s +:+ suffix) with (String c (s +:+ suffix)). cbn [strip_suffix].
    destruct (String.eqb_spec (String c (s +:+ suffix)) suffix) as [Heq|_].
    + apply (f_equal String.length) in Heq. cbn in Heq. rewrite str_app_length in Heq. lia.
    + by rewrite IH.
Qed.
Lemma session_number_name id : is_u64 id = true -> session_number (session_wal_name id) = Some id.
Proof.
  intros Hid. unfold session_number, session_wal_name.
  replace (strip_prefix "session_" ("session_" +:+ pretty id +:+ ".wal")) with (Some (pretty id +:+ ".wal"))
    by (symmetry; by apply strip_prefix_Some).
  rewrite strip_suffix_app. pose proof (parse_usize_pretty id Hid) as Hp. apply is_u64_spec in Hid.
  destruct id as [|p|p]; [exact Hp|exact Hp|lia].
Qed.
Lemma max_session_id_ge names max :
  (max <= fold_left (fun max name => match session_number name with Some num => Z.max max num | None => max end) names max)%Z /\
  forall name num, name ∈ names -> session_number name = Some num ->
    (num <= fold_left (fun max name => match session_number name with Some num => Z.max max num | None => max end) names max)%Z.
Proof.
  revert max. induction names as [|name names IH]; intros max; cbn [fold_left].
  { split; [lia|]. by intros name num Hin%not_elem_of_nil. }
  set (max' := match session_number name with Some num => Z.max max num | None => max end).
  destruct (IH max') as [Hge Hall]. assert (max <= max')%Z by (unfold max'; destruct (session_number name); lia).
  split; [lia|]. intros name' num [->|Hin]%elem_of_cons Hn; [|by eapply Hall].
  assert (num <= max')%Z by (unfold max'; rewrite Hn; lia). lia.
Qed.

(** * Properties *)

(** C21: the session limit holds under any interleaving.  Whatever creations,
    closings, touches and reapings run at once, in any order of their atomic
    steps, the sessions there are never exceed the limit: the counter is
    always the sessions plus the slots held by creations in progress plus the
    removals not yet subtracted, and is itself within the limit.  Every
    session is found under its identifier, in one shard only. *)
Theorem session_limit {N S A : Type}
    `{SerdeNumber N, SerdeText N, Blake3, FactWalStore S, Ed25519, AnchorCodec, AnchorFile A}
    core_eval rounds max ttl dir entries shards fsync size on threshold interval (sys : System (S := S) (A := A)) :
  (Z.of_nat max <= u64_max)%Z ->
  rtc (sys_step (S := S) (A := A)) (mk_system (with_limits_and_wal_and_auto_verify core_eval rounds max ttl dir entries
    shards fsync size on threshold interval) []) sys ->
  let m := sys_manager sys in
  (live m <= sm_max_sessions m)%nat /\ sm_count m = Z.of_nat (live m + weights (sys_tasks sys)) /\
  forall i shard id session, sm_shards m !! i = Some shard -> shard !! id = Some session ->
    get_session m id = Some (Some session) /\
    forall j shard', sm_shards m !! j = Some shard' -> is_Some (shard' !! id) -> j = i.
Proof.
  intros Hmax Hsteps m. pose proof (inv_steps _ _ (quiet_start core_eval rounds max ttl dir entries shards fsync size on
    threshold interval Hmax) Hsteps) as Hi. destruct Hi. fold m in si_count0, si_max0, si_bound0, si_place0.
  split_and!; [lia|done|]. intros i shard id session Hsh Hid. destruct (si_place0 i shard id session Hsh Hid) as [-> _]. split.
  - unfold get_session, get_shard. rewrite Hsh. by f_equal.
  - intros j shard' Hj [s' Hs']. by destruct (si_place0 j shard' id s' Hj Hs').
Qed.

(** Creating a session.  Between calls, [create_session] answers: at the
    limit it refuses and changes nothing; when the log cannot be opened it
    refuses, and keeps every session and the count; otherwise it gives the
    next identifier, under which there was no session, to a session with a
    freshly spawned reactor over the log, and leaves the others alone. *)
Lemma create_session_exact {N S A : Type}
    `{SerdeNumber N, SerdeText N, Blake3, FactWalStore S, Ed25519, AnchorCodec, AnchorFile A}
    (m : SessionManager S A) (opened : Result (FactsLog S) FactsLogError) (now : Z) m' r :
  quiet_manager m -> (sm_next_session_id m < u64_max)%Z -> create_session m opened now = Some (m', r) ->
  quiet_manager m' /\
  match r with
  | Err (LimitExceeded c max) => m' = m /\ live m = sm_max_sessions m
  | Err (WalUnavailable id e) =>
      live m < sm_max_sessions m /\ create_facts_log m opened = Err e /\ live m' = live m /\
      forall id', get_session m' id' = get_session m id'
  | Err _ => False
  | Ok id =>
      live m < sm_max_sessions m /\ id = sm_next_session_id m /\ get_session m id = Some None /\
      live m' = Datatypes.S (live m) /\
      exists log session, create_facts_log m opened = Ok log /\
        se_world session = spawn (session_reactor m (sm_core_eval m)) log /\ se_finished session = false /\
        forall id', get_session m' id' = if decide (id' = id) then Some (Some session) else get_session m id'
  end.
Proof.
  intros Hq Hn. unfold create_session. destruct (reserve_session_slot m) as [m1 [[]|e]] eqn:Hr.
  2: { intros [= <- <-]. unfold reserve_session_slot in Hr. pose proof (si_count _ Hq) as Hc. pose proof (si_max _ Hq) as Hm.
    cbn [sys_manager sys_tasks] in Hc, Hm. change (weights []) with 0 in Hc.
    destruct (Z.leb_spec (Z.of_nat (sm_max_sessions m)) (sm_count m)); [|done]. injection Hr as <- <-.
    split_and!; [done|done|lia]. }
  assert (live m < sm_max_sessions m) as Hlt.
  { unfold reserve_session_slot in Hr. pose proof (si_count _ Hq) as Hc. cbn [sys_manager sys_tasks] in Hc.
    change (weights []) with 0 in Hc. destruct (Z.leb_spec (Z.of_nat (sm_max_sessions m)) (sm_count m)); [done|lia]. }
  destruct (reserve_same m m1 _ Hr) as (Hwal & Hce).
  pose proof (fun log => creation_steps m m1 (sm_core_eval m) log None None content_hash_scheme_default now Hq Hn Hr) as Hsteps.
  unfold take_session_id in *. set (m2 := set_next m1 _) in *.
  assert (create_facts_log m2 opened = create_facts_log m opened) as -> by (unfold create_facts_log; cbn; by rewrite Hwal).
  destruct (create_facts_log m opened) as [log|e].
  - destruct (Hsteps log) as (Hid & _ & _ & _ & Hreg). assert (sm_core_eval m2 = sm_core_eval m) as -> by exact Hce.
    destruct (register m2 _ _ _ _ _ _ _) as [m3|] eqn:Hreg3; [|done]. intros [= <- <-].
    destruct (Hreg m3 eq_refl) as (Hq3 & Hl3 & Hnone & Hget). rewrite Hid in Hnone, Hget. split; [done|]. rewrite Hid.
    split_and!; [done|done|done|done|]. do 2 eexists. split_and!; [reflexivity| | |exact Hget]; done.
  - destruct (Hsteps log_new) as (Hid & Hq2 & Hsh & Hc & _). intros [= <- <-]. split; [exact Hq2|].
    split_and!; [done|done| |].
    + unfold live. by rewrite Hsh.
    + intros id'. unfold get_session, get_shard, get_shard_idx. by rewrite Hsh.
Qed.

(** A session created from an initial state. *)
Lemma initial_state_created {N S A : Type}
    `{SerdeNumber N, SerdeText N, Blake3, FactWalStoreLaws S, Ed25519, AnchorCodec, AnchorFile A}
    (m : SessionManager S A) par payload v ce (opened : Result (FactsLog S) FactsLogError) now m' id log :
  quiet_manager m -> (sm_next_session_id m < u64_max)%Z ->
  create_facts_log m opened = Ok log -> log_state (inner log) = state_new ->
  create_session_from_initial_state_inner (N := N) m par payload v ce opened now = Some (m', Ok id) ->
  quiet_manager m' /\ live m' = Datatypes.S (live m) /\
  exists session, snapshot (se_facts_log session) = (payload, [], v) /\
    se_world session = spawn (session_reactor m (default (sm_core_eval m) ce)) (set_initial_state (N := N) log payload v) /\
    se_parent_session_id session = par /\
    (se_initial_content_hash session, se_content_hash_scheme session) =
      (let '(h, scheme) := compute_initial_hash (N := N) payload in (Some h, scheme)) /\
    forall id', get_session m' id' = if decide (id' = id) then Some (Some session) else get_session m id'.
Proof.
  intros Hq Hn Hlog Hst. unfold create_session_from_initial_state_inner.
  destruct (reserve_session_slot m) as [m1 [[]|e]] eqn:Hr; [|done]. destruct (reserve_same m m1 _ Hr) as (Hwal & Hce).
  destruct (compute_initial_hash payload) as [h sc] eqn:Hh. set (log' := set_initial_state (N := N) log payload v).
  pose proof (fun ce => creation_steps m m1 ce log' par (Some h) sc now Hq Hn Hr) as Hsteps.
  unfold take_session_id in *. set (m2 := set_next m1 _) in *.
  assert (create_facts_log m2 opened = Ok log) as -> by (rewrite <- Hlog; unfold create_facts_log; cbn; by rewrite Hwal).
  fold log'. assert (sm_core_eval m2 = sm_core_eval m) as -> by exact Hce.
  destruct (register m2 _ _ _ _ _ _ _) as [m3|] eqn:Hreg3; [|done]. intros [= <- <-].
  destruct (Hsteps (default (sm_core_eval m) ce)) as (Hid & _ & _ & _ & Hreg).
  destruct (Hreg m3 Hreg3) as (Hq3 & Hl & _ & Hget). split; [done|]. split; [done|].
  pose proof (initial_state_log (N := N) log payload v Hst) as Hsnap. fold log' in Hsnap.
  eexists (mk_session (spawn _ log') _ _ _ par (Some h) sc _ _). split; [exact Hsnap|]. split; [reflexivity|].
  split; [reflexivity|]. split; [reflexivity|]. exact Hget.
Qed.

(** C22: a fork continues its parent.  A session created from a parent at a
    version (or at the parent's current one) starts with the payload the
    parent had, looked back to, at that version, with an empty queue: its log
    always, its reactor when the version is above 0 (at version 0 a reactor is
    spawned without anything of its log).  It carries the content hash of that
    payload and the parent's identifier; and the parent and every other
    session stay as they are.  This is for a manager with no operation under
    way, below the last identifier, and for a log opened fresh. *)
Theorem fork_inherits {N S A : Type}
    `{SerdeNumber N, SerdeText N, Blake3, FactWalStoreLaws S, Ed25519, AnchorCodec, AnchorFile A}
    (m : SessionManager S A) (parent_id : SessionId) (version : option Z)
    (opened : Result (FactsLog S) FactsLogError) (now : Z) m' id parent log :
  quiet_manager m -> (sm_next_session_id m < u64_max)%Z ->
  create_facts_log m opened = Ok log -> log_state (inner log) = state_new ->
  create_session_from_parent_at_version (N := N) m parent_id version opened now = Some (m', Ok id) ->
  get_session m parent_id = Some (Some parent) ->
  exists session payload v,
    match version with
    | Some w => v = w /\ rewind_payload (se_facts_log parent) w = Some payload
    | None => exists queue, snapshot (se_facts_log parent) = (payload, queue, v)
    end /\
    snapshot (se_facts_log session) = (payload, [], v) /\
    ((0 < v)%Z -> rs_payload (w_state (se_world session)) = payload /\ rs_queue (w_state (se_world session)) = [] /\
       rs_version (w_state (se_world session)) = v) /\
    se_parent_session_id session = Some parent_id /\
    (forall h, content_hash (N := N) payload = Ok h ->
       se_initial_content_hash session = Some h /\ se_content_hash_scheme session = AuditChainCompact) /\
    get_session m' id = Some (Some session) /\
    forall id', id' <> id -> get_session m' id' = get_session m id'.
Proof.
  intros Hq Hn Hlog Hst Hc Hp. unfold create_session_from_parent_at_version, create_session_from_parent_at_version_with_core_eval in Hc.
  rewrite Hp in Hc. set (initial := match version with Some _ => _ | None => _ end) in Hc.
  destruct initial as [[payload v]|e] eqn:Hinit; [|done].
  assert (match version with Some w => v = w /\ rewind_payload (se_facts_log parent) w = Some payload
    | None => exists queue, snapshot (se_facts_log parent) = (payload, queue, v) end) as Hfrom.
  { unfold initial in Hinit. destruct version as [w|].
    - destruct (rewind_payload (se_facts_log parent) w); [|done]. by injection Hinit as <- <-.
    - destruct (snapshot (se_facts_log parent)) as [[p q] u]. injection Hinit as <- <-. by exists q. }
  destruct (initial_state_created m _ _ _ _ _ _ _ _ _ Hq Hn Hlog Hst Hc) as (_ & _ & session & Hsnap & Hw & Hpar & Hh & Hget).
  exists session, payload, v. split; [exact Hfrom|]. split; [exact Hsnap|]. split; [|split; [done|split; [|split]]].
  - intros Hv. rewrite Hw. unfold se_facts_log in Hsnap. rewrite Hw in Hsnap. cbn [w_log w_state spawn] in *.
    change (snapshot (set_initial_state log payload v) = (payload, [], v)) in Hsnap. unfold seed_state. rewrite Hsnap.
    by destruct (Z.ltb_spec 0 v); [|lia].
  - intros h Hc'. unfold compute_initial_hash in Hh. rewrite Hc' in Hh. by injection Hh as -> ->.
  - rewrite Hget. by rewrite decide_True.
  - intros id' Hne. rewrite Hget. by rewrite decide_False.
Qed.

(** A new session never overwrites a log.  The manager starts after the
    largest session number among the files of its directory, so the name of
    the log of any session it will create is not among them; and the logs of
    two sessions have different names. *)
Lemma session_logs_fresh {N S A : Type}
    `{SerdeNumber N, SerdeText N, Blake3, FactWalStore S, Ed25519, AnchorCodec, AnchorFile A}
    core_eval rounds max ttl dir (names : list string) shards fsync size on threshold interval (id id' : SessionId) :
  (max_session_id_from_names names < u64_max)%Z -> (id <= u64_max)%Z ->
  let m : SessionManager S A := with_limits_and_wal_and_auto_verify core_eval rounds max ttl (Some dir) (Some names)
    shards fsync size on threshold interval in
  (sm_next_session_id m <= id)%Z ->
  (session_wal_name id ∉ names) /\
  ((0 <= id' <= u64_max)%Z -> session_wal_name id = session_wal_name id' -> id = id').
Proof.
  intros Hmax Hid m Hle. destruct (max_session_id_ge names 0) as [Hpos Hall]. fold (max_session_id_from_names names) in Hpos, Hall.
  assert (sm_next_session_id m = max_session_id_from_names names + 1)%Z as Hn.
  { unfold m. cbn. unfold u64_wrapping_add, u64_max in *. apply Z.mod_small. lia. }
  assert (session_number (session_wal_name id) = Some id) as Hnum by (apply session_number_name, is_u64_spec; lia).
  split.
  - intros Hin. pose proof (Hall _ _ Hin Hnum). lia.
  - intros Hid' Heq. rewrite Heq, session_number_name in Hnum by (apply is_u64_spec; lia). by injection Hnum.
Qed.

(** Reaping is exact.  [reap_expired_at] removes the sessions without
    activity for longer than the time to live and no others, and returns how
    many; and a session touched less than the time to live ago, but for a
    millisecond, is kept. *)
Lemma reap_expired_exact {N S A : Type}
    `{SerdeNumber N, SerdeText N, Blake3, FactWalStore S, Ed25519, AnchorCodec, AnchorFile A}
    (m m' : SessionManager S A) (now : Z) (n : nat) :
  quiet_manager m -> reap_expired_at m now = (m', n) ->
  quiet_manager m' /\ live m = (live m' + n)%nat /\
  (forall id session, get_session m' id = Some (Some session) <->
    get_session m id = Some (Some session) /\ (Z.max 0 (now - last_activity session) <= sm_session_ttl m)%Z) /\
  forall session touched, (0 <= sm_session_ttl m)%Z -> (se_created_at session <= touched)%Z -> (touched - se_created_at session < 2 ^ 64)%Z ->
    (now - touched <= sm_session_ttl m - NANOS_PER_MILLI)%Z -> expired m now (touch session touched) = false.
Proof.
  intros Hq Hr. destruct (reap_spec _ m m' n Hq Hr) as (Hq' & Hl & Hget). split_and!; [done|done| |].
  - intros id session. rewrite Hget. destruct (get_session m id) as [[s|]|]; [|split; [done|by intros [? _]]..].
    unfold expired. destruct (Z.ltb_spec (sm_session_ttl m) (Z.max 0 (now - last_activity s))); cbn [negb].
    + split; [done|]. intros [[= <-] Hle]. lia.
    + split; [intros [= <-]|intros [Heq _]]; [by split|]. exact Heq.
  - intros session touched Ht Hc Hb Hn. unfold expired, last_activity, touch. cbn.
    rewrite (Z.max_r 0 (touched - _)) by lia. set (d := (touched - se_created_at session)%Z) in *.
    assert (0 <= d / NANOS_PER_MILLI < 2 ^ 64)%Z as Hd.
    { unfold NANOS_PER_MILLI. split; [apply Z.div_pos; lia|]. apply Z.div_lt_upper_bound; lia. }
    rewrite Z.mod_small by done. apply Z.ltb_ge.
    pose proof (Z.div_mod d NANOS_PER_MILLI ltac:(done)) as Hdm. pose proof (Z.mod_pos_bound d NANOS_PER_MILLI ltac:(done)).
    unfold NANOS_PER_MILLI in *. lia.
Qed.

(** * Examples *)

Module SessionDemo.
Import ZNumber ZText ZHash ZSign ZAnchor.
Definition Manager : Type := SessionManager MemoryWalStore string.
(** Room for two sessions in two shards, over a directory with old logs. *)
Definition names : list string := ["session_3.wal"; "notes.txt"; "session_11.wal"; "session_x.wal"].
Definition start : Manager :=
  with_limits_and_wal_and_auto_verify [] 5 2 (10 * NANOS_PER_SEC) (Some "wal") (Some names) 2 false 300 true 0 1.
Definition opened : Result (FactsLog MemoryWalStore) FactsLogError := Ok (with_wal_store []).
Definition answer {R} (r : option (Manager * R)) : Manager := match r with Some (m, _) => m | None => start end.
Definition one : Manager := answer (create_session start opened 0).
Definition payload : JsonValue := JObject [("a", JInteger 1)].
Definition parent : Manager :=
  answer (create_session_from_initial_state (N := Z) start None payload 4 opened 0).
Definition forked : Manager :=
  answer (create_session_from_parent_at_version (N := Z) parent 12%Z None opened (3 * NANOS_PER_SEC)).
End SessionDemo.
Import ZNumber ZText ZHash ZSign ZAnchor.

Example session_names : map session_number SessionDemo.names = [Some 3; None; Some 11; None]%Z /\
  sm_next_session_id SessionDemo.start = 12%Z.
Proof. vm_compute. done. Qed.
(** Two creations interleave at a limit of two, and a third is refused. *)
Lemma demo_steps :
  exists sys, rtc (sys_step (S := MemoryWalStore) (A := string)) (mk_system SessionDemo.start []) sys /\
    live (sys_manager sys) = 2 /\ weights (sys_tasks sys) = 0 /\ is_Some (get_session (sys_manager sys) 13%Z).
Proof.
  eexists. split.
  { eapply rtc_l; [apply step_reserve; reflexivity|]. eapply rtc_l; [apply step_reserve; reflexivity|].
    eapply rtc_l; [apply (step_take _ [Reserved] []); vm_compute; reflexivity|].
    eapply rtc_l; [apply (step_take _ [] _); vm_compute; reflexivity|].
    eapply rtc_l; [apply (step_register _ [] _ _ [] log_new None None TcbDisplay 0); reflexivity|].
    eapply rtc_l; [apply (step_register _ [] _ _ [] log_new None None TcbDisplay 0); reflexivity|].
    eapply rtc_l; [eapply step_refuse; reflexivity|]. apply rtc_refl. }
  split_and!; [vm_compute; reflexivity|reflexivity|]. eexists. reflexivity.
Qed.
Lemma session_limit_witness :
  exists sys : System (S := MemoryWalStore) (A := string), live (sys_manager sys) = 2 /\ sm_count (sys_manager sys) = 2%Z /\ (2 <= sm_max_sessions (sys_manager sys))%nat.
Proof.
  destruct demo_steps as (sys & Hsteps & Hl & Hw & _). exists sys.
  destruct (session_limit [] 5 2 (10 * NANOS_PER_SEC) (Some "wal") (Some SessionDemo.names) 2 false 300 true 0 1 sys
    ltac:(vm_compute; discriminate) Hsteps) as (Hle & Hc & _).
  rewrite Hl in Hle, Hc. rewrite Hw in Hc. done.
Defined.
Lemma start_quiet : quiet_manager SessionDemo.start.
Proof. apply quiet_start. vm_compute. discriminate. Qed.
Lemma create_session_exact_witness :
  live SessionDemo.one = 1 /\ exists session, get_session SessionDemo.one 12%Z = Some (Some session).
Proof.
  destruct (create_session SessionDemo.start SessionDemo.opened 0) as [[m' r]|] eqn:Hc; [|vm_compute in Hc; discriminate].
  assert (SessionDemo.one = m') as Hone by (unfold SessionDemo.one; by rewrite Hc).
  assert (r = Ok 12%Z) as -> by (apply (f_equal (fun x => snd <$> x)) in Hc; vm_compute in Hc; congruence).
  destruct (create_session_exact SessionDemo.start SessionDemo.opened 0 m' (Ok 12%Z) start_quiet
    ltac:(vm_compute; reflexivity) Hc) as (_ & _ & _ & _ & Hl & log & session & _ & _ & _ & Hget).
  rewrite Hone. split; [by rewrite Hl|]. exists session. rewrite Hget. by rewrite decide_True.
Defined.
Lemma fork_inherits_witness :
  exists session, get_session SessionDemo.forked 13%Z = Some (Some session) /\
    snapshot (se_facts_log session) = (SessionDemo.payload, [], 4%Z) /\ se_parent_session_id session = Some 12%Z.
Proof.
  destruct (create_session_from_initial_state_inner (N := Z) SessionDemo.start None SessionDemo.payload 4 None
    SessionDemo.opened 0) as [[mp rp]|] eqn:Hp; [|vm_compute in Hp; discriminate].
  assert (SessionDemo.parent = mp) as Hpar.
  { unfold SessionDemo.parent, create_session_from_initial_state. by rewrite Hp. }
  assert (rp = Ok 12%Z) as -> by (apply (f_equal (fun x => snd <$> x)) in Hp; vm_compute in Hp; congruence).
  destruct (initial_state_created SessionDemo.start _ _ _ _ _ _ _ _ _ start_quiet ltac:(vm_compute; reflexivity)
    (eq_refl : create_facts_log SessionDemo.start SessionDemo.opened = Ok (with_wal_store [])) eq_refl Hp)
    as (Hq & _ & session & Hsnap & _ & _ & _ & Hget).
  specialize (Hget 12%Z). rewrite decide_True in Hget by done.
  destruct (create_session_from_parent_at_version (N := Z) mp 12%Z None SessionDemo.opened (3 * NANOS_PER_SEC))
    as [[m' r]|] eqn:Hc; [|rewrite <- Hpar in Hc; vm_compute in Hc; discriminate].
  assert (SessionDemo.forked = m') as Hf by (unfold SessionDemo.forked; rewrite Hpar; by rewrite Hc).
  assert (r = Ok 13%Z) as ->.
  { rewrite <- Hpar in Hc. apply (f_equal (fun x => snd <$> x)) in Hc. vm_compute in Hc. congruence. }
  destruct (fork_inherits mp 12%Z None SessionDemo.opened (3 * NANOS_PER_SEC) m' 13%Z session (with_wal_store []) Hq)
    as (child & p & v & (queue & Hs) & Hsnap' & _ & Hcp & _ & Hget' & _).
  - rewrite <- Hpar. vm_compute. reflexivity.
  - rewrite <- Hpar. vm_compute. reflexivity.
  - reflexivity.
  - exact Hc.
  - exact Hget.
  - rewrite Hsnap in Hs. injection Hs as <- <- <-. rewrite Hf. by exists child.
Defined.
Lemma session_logs_fresh_witness : session_wal_name 12%Z ∉ SessionDemo.names.
Proof.
  apply (session_logs_fresh (S := MemoryWalStore) (A := string) [] 5 2 (10 * NANOS_PER_SEC) "wal" SessionDemo.names 2 false
    300 true 0 1 12%Z 13%Z); vm_compute; first [reflexivity|discriminate].
Defined.
Lemma parent_quiet : quiet_manager SessionDemo.parent.
Proof.
  destruct (create_session_from_initial_state_inner (N := Z) SessionDemo.start None SessionDemo.payload 4 None
    SessionDemo.opened 0) as [[mp rp]|] eqn:Hp; [|vm_compute in Hp; discriminate].
  assert (SessionDemo.parent = mp) as ->.
  { unfold SessionDemo.parent, create_session_from_initial_state. by rewrite Hp. }
  assert (rp = Ok 12%Z) as -> by (apply (f_equal (fun x => snd <$> x)) in Hp; vm_compute in Hp; congruence).
  by apply (initial_state_created SessionDemo.start _ _ _ _ _ _ _ _ _ start_quiet ltac:(vm_compute; reflexivity)
    (eq_refl : create_facts_log SessionDemo.start SessionDemo.opened = Ok (with_wal_store [])) eq_refl Hp).
Qed.
Lemma reap_expired_exact_witness :
  (forall session, get_session (fst (reap_expired_at SessionDemo.parent (10 * NANOS_PER_SEC + 1))) 12%Z <>
     Some (Some session)) /\
  quiet_manager (fst (reap_expired_at SessionDemo.parent (10 * NANOS_PER_SEC))).
Proof.
  split.
  - destruct (reap_expired_at SessionDemo.parent (10 * NANOS_PER_SEC + 1)) as [m' n] eqn:Hr.
    destruct (reap_expired_exact SessionDemo.parent m' _ n parent_quiet Hr) as (_ & _ & Hget & _).
    intros session [Hs Hle]%Hget. assert (last_activity <$> (get_session SessionDemo.parent 12%Z ≫= id) = Some 0%Z) as Ht
      by (vm_compute; reflexivity).
    rewrite Hs in Ht. injection Ht as Ht. rewrite Ht in Hle. vm_compute in Hle. by apply Hle.
  - destruct (reap_expired_at SessionDemo.parent (10 * NANOS_PER_SEC)) as [m' n] eqn:Hr.
    by apply (reap_expired_exact SessionDemo.parent m' _ n parent_quiet Hr).
Defined.
(** Every anchor of session 12 names session 13: the identifier is read again
    after the counter has moved. *)
Definition anchored : SessionDemo.Manager :=
  with_anchor_config SessionDemo.start (mk_anchor_config "seed" "k1" "engine" 2).
Lemma anchors_name_next_session :
  exists m' session, create_session anchored SessionDemo.opened 0 = Some (m', Ok 12%Z) /\
    get_session m' 12%Z = Some (Some session) /\
    b_session_id <$> anchor_builder (anchoring (se_auditor session)) = Some "session-13".
Proof. do 2 eexists. split_and!; reflexivity. Qed.
