(* ===== verification/RuleValidation.v ===== *)
(** The validation of rules, [evorule-governance/src/rule_validation.rs]: the
    static checks and the security analysis an editor runs before rules are
    loaded. *)

From S2P Require Import Prelude ObjectMap Value Error Path Domain Executor Transition Fact Serde Hash Wal Auditor.

(** The length of [format!("{:?}", params)]: the derived [Debug], with the
    escapes of strings by the Unicode tables of the standard library. *)
Class JsonDebug : Type := { debug_len : JsonValue -> nat }.

Definition VALID_TRANSFORM_TYPES : list string := ["branch"; "set"; "push"; "io_request"].
Definition BRANCH_REQUIRED : list string := ["domain"].
Definition SET_REQUIRED : list string := ["attr"; "operation"; "value"].
Definition PUSH_REQUIRED : list string := ["instructions"].
Definition IO_REQUEST_REQUIRED : list string := ["io_type"].
Definition VALID_OPERATIONS : list string := ["set"; "add"; "sub"].
Definition MAX_TRANSFORM_RULES : nat := 128.
Definition MAX_NESTING_DEPTH : nat := 64.
Definition MAX_IO_PARAMS_SIZE : nat := 1024 * 10.
Definition INFINITE_LOOP_DEPTH_THRESHOLD : nat := 5.

(** * Results *)

Record ValidationCheck : Type := mk_check {
  ck_name : string;
  ck_passed : bool;
  ck_level : string;
  ck_message : string;
  ck_transform_index : Z;
}.
Record StaticValidation : Type := mk_static {
  st_checks : list ValidationCheck;
  st_error_count : nat;
  st_warn_count : nat;
}.
Record SecurityAnalysis : Type := mk_security {
  sa_checks : list ValidationCheck;
  sa_risk_count : nat;
  sa_risk_level : string;
}.
Record ValidationSummary : Type := mk_summary {
  total_transforms : nat;
  total_errors : nat;
  total_warnings : nat;
  total_risks : nat;
}.
Record ValidationResult : Type := mk_validation {
  vr_passed : bool;
  static_validation : StaticValidation;
  security_analysis : SecurityAnalysis;
  summary : ValidationSummary;
}.

(** * Accesses the checks repeat *)

Definition str_in (s : string) (l : list string) : bool := existsb (String.eqb s) l.
Definition show_nat (n : nat) : string := pretty (N.of_nat n).
(** [i as i32]. *)
Definition as_i32 (i : nat) : Z := ((Z.of_nat i + 2 ^ 31) mod 2 ^ 32 - 2 ^ 31)%Z.
(** [t.get("type").and_then(|v| v.as_str())]. *)
Definition type_str (t : JsonValue) : option string := let! v := json_get t "type" in as_str v.
(** [t.get("params").and_then(|p| p.get(key))], and as an array. *)
Definition param (t : JsonValue) (key : string) : option JsonValue :=
  let! p := json_get t "params" in json_get p key.
Definition branch_children (t : JsonValue) (key : string) : list JsonValue :=
  default [] (let! v := param t key in as_array v).
Definition is_type (ty : string) (t : JsonValue) : bool :=
  match type_str t with Some s => String.eqb s ty | None => false end.

(** The recursions below go through [params] to the children of a branch; the
    height of the value, [json_height], bounds them. *)

(** * Static checks *)

Definition check_transform_count (transforms : list JsonValue) : ValidationCheck :=
  let passed := (length transforms <=? MAX_TRANSFORM_RULES)%nat in
  mk_check "transform_count_limit" passed (if passed then "info" else "error")
    ("Transform 数量: " +:+ show_nat (length transforms) +:+ " (上限: " +:+ show_nat MAX_TRANSFORM_RULES +:+ ", "
     +:+ (if passed then "合规" else "超出限制") +:+ ")") (-1).
Definition at_index (idx : Z) : string := "transform[" +:+ pretty idx +:+ "]".
Definition check_type_exists (t : JsonValue) (idx : Z) : ValidationCheck :=
  let has_type := is_some (type_str t) in
  mk_check "type_exists" has_type (if has_type then "info" else "error")
    (if has_type then at_index idx +:+ " 的 type 字段存在" else at_index idx +:+ " 缺少 'type' 字段") idx.
Definition check_type_valid (type_str : string) (idx : Z) : ValidationCheck :=
  let valid := str_in type_str VALID_TRANSFORM_TYPES in
  mk_check "type_valid" valid (if valid then "info" else "error")
    (if valid then at_index idx +:+ " 的 type '" +:+ type_str +:+ "' 是合法元指令"
     else at_index idx +:+ " 的 type '" +:+ type_str +:+ "' 不在白名单中 (合法值: "
          +:+ String.concat ", " VALID_TRANSFORM_TYPES +:+ ")") idx.

Section Validation.
Context `{JsonDebug}.

(** The two extra checks: [set]'s operation and the size of [io_request]'s
    parameters; each gives its message when it fails. *)
Definition operation_invalid (t : JsonValue) (type_str : string) (missing : list string) : option string :=
  if String.eqb type_str "set" && match missing with [] => true | _ => false end then
    let! op := (let! v := param t "operation" in as_str v) in
    if str_in op VALID_OPERATIONS then None
    else Some ("operation '" +:+ op +:+ "' 不在合法值中 (" +:+ String.concat ", " VALID_OPERATIONS +:+ ")")
  else None.
Definition params_too_large (t : JsonValue) (type_str : string) (missing : list string) : option string :=
  if String.eqb type_str "io_request" && match missing with [] => true | _ => false end then
    let! params := json_get t "params" in
    if (MAX_IO_PARAMS_SIZE <? debug_len params)%nat then
      Some ("io_request 参数过大: " +:+ show_nat (debug_len params) +:+ " 字节 (上限: "
            +:+ show_nat MAX_IO_PARAMS_SIZE +:+ " 字节)")
    else None
  else None.
Definition required_params (type_str : string) : option (list string) :=
  if String.eqb type_str "branch" then Some BRANCH_REQUIRED
  else if String.eqb type_str "set" then Some SET_REQUIRED
  else if String.eqb type_str "push" then Some PUSH_REQUIRED
  else if String.eqb type_str "io_request" then Some IO_REQUEST_REQUIRED
  else None.
Definition missing_params (t : JsonValue) (required : list string) : list string :=
  List.filter (fun p => negb (is_some (param t p))) required.
Definition check_params_complete (t : JsonValue) (type_str : string) (idx : Z) : ValidationCheck :=
  match required_params type_str with
  | None =>
      mk_check "params_complete" true "info"
        (at_index idx +:+ " 的 type '" +:+ type_str +:+ "' 无需校验参数") idx
  | Some required =>
      let missing := missing_params t required in
      let operation := operation_invalid t type_str missing in
      let too_large := params_too_large t type_str missing in
      let extra_checks := option_list operation ++ option_list too_large in
      let no_missing := match missing with [] => true | _ => false end in
      let passed := no_missing && match extra_checks with [] => true | _ => false end in
      let level :=
        if passed then "info"
        else if negb no_missing || is_some too_large || is_some operation then "error"
        else "warn" in
      let msg_parts :=
        (if no_missing then [] else ["缺少必填参数: " +:+ String.concat ", " missing]) ++ extra_checks in
      mk_check "params_complete" passed level
        (match msg_parts with
         | [] => at_index idx +:+ " 的 params 参数完备"
         | _ => at_index idx +:+ ": " +:+ String.concat "; " msg_parts
         end) idx
  end.

(** [check_branch_nested] stops beyond the limit, so that [nested_fuel] calls
    are enough ([check_branch_nested_fuel]). *)
Definition nesting_check (idx : Z) : ValidationCheck :=
  mk_check "nesting_depth" false "error"
    (at_index idx +:+ " 的嵌套深度超过 " +:+ show_nat MAX_NESTING_DEPTH +:+ " 层") idx.
Fixpoint check_branch_nested (fuel : nat) (t : JsonValue) (idx : Z) (depth : nat) : list ValidationCheck :=
  match fuel with
  | O => []
  | S fuel =>
      if (MAX_NESTING_DEPTH <? depth)%nat then [nesting_check idx]
      else
        let nested child :=
          if is_type "branch" child then check_branch_nested fuel child idx (S depth) else [] in
        concat (map nested (branch_children t "on_true")) ++ concat (map nested (branch_children t "on_false"))
  end.
Definition nested_fuel : nat := MAX_NESTING_DEPTH + 2.

Definition transform_checks (idx : Z) (t : JsonValue) : list ValidationCheck :=
  [check_type_exists t idx]
  ++ match type_str t with
     | Some ty => [check_type_valid ty idx; check_params_complete t ty idx]
     | None => []
     end
  ++ (if is_type "branch" t then check_branch_nested nested_fuel t idx 0 else []).
Definition perform_static_validation (transforms : list JsonValue) : list ValidationCheck :=
  let count := check_transform_count transforms in
  match transforms with
  | [] => [count; mk_check "non_empty" false "error" "Transform 列表为空，至少需要一条规则" (-1)]
  | _ => count :: concat (imap (fun i t => transform_checks (as_i32 i) t) transforms)
  end.

(** * Security analysis *)

(** [collect_loop_risk_signals]: whether a domain names a while loop, whether
    there is a [set]. *)
Definition while_domain (t : JsonValue) : bool :=
  match param t "domain" with
  | Some domain =>
      match type_str domain with
      | Some inner_type =>
          if String.eqb inner_type "instruction" then
            match (let! v := json_get domain "instruction_type" in as_str v) with
            | Some inst_type => match control_flow_parse inst_type with Some CfWhileLoop => true | _ => false end
            | None => false
            end
          else false
      | None => false
      end
  | None => false
  end.
Fixpoint collect_loop_risk_signals (fuel : nat) (transforms : list JsonValue) (signals : bool * bool) : bool * bool :=
  match fuel with
  | O => signals
  | S fuel =>
      fold_left (fun (signals : bool * bool) t =>
        let '(has_while_loop, has_state_change) := signals in
        match type_str t with
        | Some ty =>
            let '(has_while_loop, has_state_change) :=
              if String.eqb ty "branch" then
                let signals := (has_while_loop || while_domain t, has_state_change) in
                let signals := collect_loop_risk_signals fuel (branch_children t "on_true") signals in
                collect_loop_risk_signals fuel (branch_children t "on_false") signals
              else signals in
            (has_while_loop, has_state_change || String.eqb ty "set")
        | None => signals
        end) transforms signals
  end.
Definition check_infinite_loop_risk (transforms : list JsonValue) : ValidationCheck :=
  let '(has_while_loop, has_state_change) :=
    collect_loop_risk_signals (S (json_height (JArray transforms))) transforms (false, false) in
  let risk := has_while_loop && negb has_state_change in
  mk_check "infinite_loop" (negb risk) (if risk then "warn" else "info")
    (if risk then "检测到 while_loop 但未找到状态变更指令 (set)，可能导致无限循环"
     else if has_while_loop : bool then "while_loop 存在配套的状态变更指令，循环可终止"
     else "未检测到 while_loop 指令") (-1).

Fixpoint measure_nesting_depth (fuel : nat) (t : JsonValue) (depth : nat) : nat :=
  match fuel with
  | O => depth
  | S fuel =>
      let step max_child_depth child :=
        if is_type "branch" child then Nat.max max_child_depth (measure_nesting_depth fuel child (S depth))
        else max_child_depth in
      fold_left step (branch_children t "on_false") (fold_left step (branch_children t "on_true") depth)
  end.
Definition check_recursive_nesting (transforms : list JsonValue) : ValidationCheck :=
  let max_depth := fold_left (fun max_depth t =>
    if is_type "branch" t then Nat.max max_depth (measure_nesting_depth (json_height t) t 0) else max_depth)
    transforms 0 in
  let risk := (INFINITE_LOOP_DEPTH_THRESHOLD <=? max_depth)%nat in
  mk_check "recursive_nesting" (negb risk) (if risk then "warn" else "info")
    ("最大嵌套深度: " +:+ show_nat max_depth +:+ " 层"
     +:+ (if risk then " (超过阈值 " +:+ show_nat INFINITE_LOOP_DEPTH_THRESHOLD +:+ "，建议拆分)" else "")) (-1).

Fixpoint count_io_in_loop_body (fuel : nat) (t : JsonValue) : nat :=
  match fuel with
  | O => 0
  | S fuel =>
      let step count child :=
        match type_str child with
        | Some ty =>
            if String.eqb ty "io_request" then S count
            else if String.eqb ty "branch" then count + count_io_in_loop_body fuel child
            else count
        | None => count
        end in
      fold_left step (branch_children t "on_false") (fold_left step (branch_children t "on_true") 0)
  end.
Definition check_unbounded_io (transforms : list JsonValue) : ValidationCheck :=
  let unbounded_io_count := fold_left (fun n t =>
    if is_type "branch" t then n + count_io_in_loop_body (json_height t) t else n) transforms 0 in
  let risk := (0 <? unbounded_io_count)%nat in
  mk_check "unbounded_io" (negb risk) (if risk then "warn" else "info")
    (if risk then "检测到 " +:+ show_nat unbounded_io_count +:+ " 处 io_request 可能在循环体内执行，可能导致无限制 I/O 调用"
     else "未检测到循环体内的 io_request") (-1).

Definition cleans_up (t : JsonValue) : bool :=
  is_type "set" t && match param t "value" with Some value => is_array value || is_null value | None => false end.
Definition check_payload_growth (transforms : list JsonValue) : ValidationCheck :=
  let push_count := length (List.filter (is_type "push") transforms) in
  let has_cleanup := existsb cleans_up transforms in
  let risk := (3 <? push_count)%nat && negb has_cleanup in
  mk_check "payload_growth" (negb risk) (if risk then "warn" else "info")
    (if risk then "检测到 " +:+ show_nat push_count +:+ " 处 push 指令但未找到清理操作，可能导致 payload 无界增长"
     else "push 指令 " +:+ show_nat push_count +:+ " 处" +:+ (if has_cleanup then "，有配套清理操作" else "")) (-1).

Definition self_refs (i : nat) (t : JsonValue) : list string :=
  if is_type "branch" t then
    match param t "domain" with
    | Some domain =>
        if is_type "instruction" domain then
          match (let! v := json_get domain "instruction_type" in as_str v) with
          | Some inst_type =>
              map (fun _ => at_index (Z.of_nat i) +:+ " 匹配 '" +:+ inst_type +:+ "' 但体内包含同类型指令")
                (List.filter (fun child => is_type inst_type child || is_type "branch" child) (branch_children t "on_true"))
          | None => []
          end
        else []
    | None => []
    end
  else [].
Definition check_self_reference (transforms : list JsonValue) : ValidationCheck :=
  let refs := concat (imap self_refs transforms) in
  let risk := match refs with [] => false | _ => true end in
  mk_check "self_reference" (negb risk) (if risk then "warn" else "info")
    (if risk then "检测到自引用风险: " +:+ String.concat "; " refs else "未检测到自引用") (-1).
Definition perform_security_analysis (transforms : list JsonValue) : list ValidationCheck :=
  [check_infinite_loop_risk transforms; check_recursive_nesting transforms; check_unbounded_io transforms;
   check_payload_growth transforms; check_self_reference transforms].

(** * The entry points *)

Definition has_level (level : string) (c : ValidationCheck) : bool := String.eqb (ck_level c) level.
Definition count_level (level : string) (checks : list ValidationCheck) : nat :=
  length (List.filter (has_level level) checks).
Definition validate_rules (transforms : list JsonValue) : ValidationResult :=
  let static_checks := perform_static_validation transforms in
  let static_error_count := count_level "error" static_checks in
  let static_warn_count := count_level "warn" static_checks in
  let security_checks := perform_security_analysis transforms in
  let risk_count := length (List.filter (fun c => has_level "error" c || has_level "warn" c) security_checks) in
  let total_errors := static_error_count in
  let total_warnings := static_warn_count + count_level "warn" security_checks in
  let total_risks := risk_count in
  let risk_level :=
    if (0 <? total_errors)%nat || (3 <? total_risks)%nat then "high"
    else if (0 <? total_warnings)%nat then "medium"
    else "low" in
  let passed := Nat.eqb static_error_count 0 in
  mk_validation passed (mk_static static_checks static_error_count static_warn_count)
    (mk_security security_checks risk_count risk_level)
    (mk_summary (length transforms) total_errors total_warnings total_risks).

Section Json.
Context {N : Type} `{SerdeNumber N, SerdeText N, SerdePretty N}.
Definition extract_transforms (json : SValue N) : Result (list (SValue N)) string :=
  match json with
  | SObject _ =>
      match (let! v := s_get json "transform" in s_as_array v) with
      | Some arr => Ok arr
      | None =>
          match (let! v := s_get json "transforms" in s_as_array v) with
          | Some arr => Ok arr
          | None => Ok [json]
          end
      end
  | SArray arr => Ok arr
  | _ => Err "JSON 必须是对象或数组"
  end.
Definition validate_rules_from_json (json_str : string) : Result ValidationResult string :=
  match serde_from_str json_str with
  | Err e => Err ("JSON 解析失败: " +:+ e)
  | Ok parsed =>
      let? transforms := extract_transforms parsed in
      Ok (validate_rules (map Wal.serde_to_tcb transforms))
  end.

(** The derived [Serialize]: fields in their order. *)
Definition s_usize (n : nat) : SValue N := s_u64 (Z.of_nat n).
Definition check_json (c : ValidationCheck) : SValue N :=
  SObject [("name", SString (ck_name c)); ("passed", SBool (ck_passed c)); ("level", SString (ck_level c));
    ("message", SString (ck_message c)); ("transform_index", SNumber (num_from_i64 (ck_transform_index c)))].
Definition validation_json (r : ValidationResult) : SValue N :=
  let st := static_validation r in let sa := security_analysis r in let su := summary r in
  SObject [("passed", SBool (vr_passed r));
    ("static_validation", SObject [("checks", SArray (map check_json (st_checks st)));
      ("error_count", s_usize (st_error_count st)); ("warn_count", s_usize (st_warn_count st))]);
    ("security_analysis", SObject [("checks", SArray (map check_json (sa_checks sa)));
      ("risk_count", s_usize (sa_risk_count sa)); ("risk_level", SString (sa_risk_level sa))]);
    ("summary", SObject [("total_transforms", s_usize (total_transforms su));
      ("total_errors", s_usize (total_errors su)); ("total_warnings", s_usize (total_warnings su));
      ("total_risks", s_usize (total_risks su))])].
Definition validation_result_to_json (r : ValidationResult) : string :=
  match serde_to_string_pretty (validation_json r) with Ok s => s | Err _ => "{}" end.
End Json.
End Validation.
