(* ===== verification/RuleValidationSpec.v ===== *)
(** Theorems about the validation of rules: it accepts exactly the rules its
    specification describes, with which errors an accepted rule can fail in the
    executor and which of its literals make it fail in every state; with the
    shapes it accepts and the executor refuses. *)

From S2P Require Import Prelude ObjectMap Value Error Path Domain Executor ExecSemantics Transition Fact Serde Hash Wal Auditor RuleValidation.

(** * Heights *)

Lemma children_height t key child : child ∈ branch_children t key -> (json_height child < json_height t)%nat.
Proof.
  unfold branch_children, param. destruct (json_get t "params") as [p|] eqn:Hp; [|by intros ?%not_elem_of_nil].
  destruct (json_get p key) as [v|] eqn:Hv; [|by intros ?%not_elem_of_nil].
  destruct (as_array v) as [l|] eqn:Hl; [|by intros ?%not_elem_of_nil]. cbn. intros Hin.
  pose proof (array_height v l child Hl Hin). apply json_get_height in Hp, Hv. lia.
Qed.

(** * The depth of branches *)

(** Below [t] there is a branch in a branch, [n] times. *)
Inductive branch_chain : nat -> JsonValue -> Prop :=
| chain_zero t : branch_chain 0 t
| chain_succ n t key child :
    key = "on_true" \/ key = "on_false" -> child ∈ branch_children t key -> is_type "branch" child = true ->
    branch_chain n child -> branch_chain (S n) t.
Lemma branch_chain_le n k t : branch_chain n t -> (k <= n)%nat -> branch_chain k t.
Proof.
  intros Hn. revert k. induction Hn as [t|n t key child Hk Hin Hb Hn IH]; intros k Hle.
  - replace k with 0 by lia. constructor.
  - destruct k as [|k]; [constructor|]. eapply chain_succ; [done..|]. apply IH. lia.
Qed.

(** One step of the measures: the children of both arms, in order. *)
Definition arms (t : JsonValue) : list JsonValue :=
  List.filter (is_type "branch") (branch_children t "on_true" ++ branch_children t "on_false").
Lemma elem_of_arms t child :
  child ∈ arms t <-> is_type "branch" child = true /\
    (child ∈ branch_children t "on_true" \/ child ∈ branch_children t "on_false").
Proof. unfold arms. rewrite !list_elem_of_In, filter_In, in_app_iff. tauto. Qed.
Lemma branch_chain_arms n t : branch_chain (S n) t <-> exists child, child ∈ arms t /\ branch_chain n child.
Proof.
  split.
  - inversion 1 as [|? ? key child Hk Hin Hb Hc]; subst. exists child. split; [|done].
    apply elem_of_arms. by destruct Hk as [-> | ->]; auto.
  - intros (child & [Hb [Hin|Hin]]%elem_of_arms & Hc).
    + by apply (chain_succ n t "on_true" child); [left|..].
    + by apply (chain_succ n t "on_false" child); [right|..].
Qed.

Lemma check_branch_nested_S fuel t idx depth :
  check_branch_nested (S fuel) t idx depth =
  if (MAX_NESTING_DEPTH <? depth)%nat then [nesting_check idx]
  else concat (map (fun child => check_branch_nested fuel child idx (S depth)) (arms t)).
Proof.
  cbn [check_branch_nested]. destruct (MAX_NESTING_DEPTH <? depth)%nat; [done|]. rewrite <- concat_app, <- map_app.
  unfold arms. generalize (branch_children t "on_true" ++ branch_children t "on_false"). intros l.
  induction l as [|x l IH]; [done|]. cbn. rewrite IH. by destruct (is_type "branch" x).
Qed.
(** The check for the depth finds exactly the chains beyond the limit, and
    [nested_fuel] is enough. *)
Lemma check_branch_nested_fuel fuel fuel' t idx depth :
  (MAX_NESTING_DEPTH + 2 <= fuel + depth)%nat -> (MAX_NESTING_DEPTH + 2 <= fuel' + depth)%nat ->
  (depth <= MAX_NESTING_DEPTH + 1)%nat ->
  check_branch_nested fuel t idx depth = check_branch_nested fuel' t idx depth.
Proof.
  revert fuel' t depth. induction fuel as [|fuel IH]; intros [|fuel'] t depth Hf Hf' Hd; [lia..|].
  rewrite !check_branch_nested_S. destruct (Nat.ltb_spec MAX_NESTING_DEPTH depth); [done|].
  f_equal. apply map_ext. intros child. apply IH; lia.
Qed.
Lemma check_branch_nested_spec fuel t idx depth :
  (MAX_NESTING_DEPTH + 2 <= fuel + depth)%nat -> (depth <= MAX_NESTING_DEPTH + 1)%nat ->
  (forall c, c ∈ check_branch_nested fuel t idx depth -> c = nesting_check idx) /\
  (check_branch_nested fuel t idx depth = [] <-> ~ branch_chain (MAX_NESTING_DEPTH + 1 - depth) t).
Proof.
  revert t depth. induction fuel as [|fuel IH]; intros t depth Hf Hd; [unfold MAX_NESTING_DEPTH in *; lia|].
  rewrite check_branch_nested_S. destruct (Nat.ltb_spec MAX_NESTING_DEPTH depth) as [Hlt|Hle].
  - replace (MAX_NESTING_DEPTH + 1 - depth) with 0 by lia. split; [by intros c ->%list_elem_of_singleton|].
    split; [done|]. intros Hn. exfalso. apply Hn. constructor.
  - replace (MAX_NESTING_DEPTH + 1 - depth) with (S (MAX_NESTING_DEPTH - depth)) by lia. rewrite branch_chain_arms.
    assert (forall child, child ∈ arms t ->
      (forall c, c ∈ check_branch_nested fuel child idx (S depth) -> c = nesting_check idx) /\
      (check_branch_nested fuel child idx (S depth) = [] <-> ~ branch_chain (MAX_NESTING_DEPTH - depth) child)) as Hall.
    { intros child _. replace (MAX_NESTING_DEPTH - depth) with (MAX_NESTING_DEPTH + 1 - S depth) by lia. apply IH; lia. }
    revert Hall. generalize (arms t). intros l. induction l as [|x l IHl]; intros Hall; cbn.
    + split; [by intros ? ?%not_elem_of_nil|]. split; [|done]. by intros _ (? & ?%not_elem_of_nil & _).
    + destruct (Hall x) as [Hx Hxn]; [by left|]. destruct IHl as [Hl Hln]; [intros; apply Hall; by right|]. split.
      * intros c [?|?]%elem_of_app; auto.
      * split.
        -- intros [Ha Hb]%app_eq_nil (child & [->|Hin]%elem_of_cons & Hc); [by apply Hxn|]. apply Hln; [done|]. by exists child.
        -- intros Hn. assert (check_branch_nested fuel x idx (S depth) = []) as ->.
           { apply Hxn. intros Hc. apply Hn. exists x. split; [by left|done]. }
           cbn. apply Hln. intros (child & Hin & Hc). apply Hn. exists child. split; [by right|done].
Qed.

(** The depth the security analysis measures is the length of the longest
    chain; the height of the value is enough. *)
Lemma fold_max_arms (f : JsonValue -> nat) l d :
  fold_left (fun m child => if is_type "branch" child then Nat.max m (f child) else m) l d =
  fold_left (fun m child => Nat.max m (f child)) (List.filter (is_type "branch") l) d.
Proof. revert d. induction l as [|x l IH]; intros d; [done|]. cbn. rewrite IH. by destruct (is_type "branch" x). Qed.
Lemma measure_nesting_depth_S fuel t depth :
  measure_nesting_depth (S fuel) t depth =
  fold_left (fun m child => Nat.max m (measure_nesting_depth fuel child (S depth))) (arms t) depth.
Proof.
  cbn [measure_nesting_depth]. rewrite !fold_max_arms, <- fold_left_app. unfold arms. by rewrite List.filter_app.
Qed.
Lemma fold_max_ge (f : JsonValue -> nat) l d n :
  (n <= fold_left (fun m x => Nat.max m (f x)) l d)%nat <-> (n <= d)%nat \/ exists x, x ∈ l /\ (n <= f x)%nat.
Proof.
  revert d. induction l as [|x l IH]; intros d; cbn.
  - split; [by left|]. intros [?|(? & ?%not_elem_of_nil & _)]; done.
  - rewrite IH. split.
    + intros [Hn|(y & Hy & Hle)]; [|by right; exists y; split; [right|]].
      destruct (Nat.max_spec d (f x)) as [[_ Hm]|[_ Hm]]; rewrite Hm in Hn; [|by left]. right. exists x. by split; [left|].
    + intros [Hn|(y & [->|Hy]%elem_of_cons & Hle)]; [left; lia|left; lia|right; by exists y].
Qed.
Lemma measure_depth_exact fuel t depth n :
  (json_height t <= fuel)%nat ->
  (depth + n <= measure_nesting_depth fuel t depth)%nat <-> branch_chain n t.
Proof.
  revert t depth n. induction fuel as [|fuel IH]; intros t depth n Hf; [destruct t; cbn in Hf; lia|].
  rewrite measure_nesting_depth_S, fold_max_ge. destruct n as [|n].
  - split; [intros _; constructor|intros _; left; lia].
  - rewrite branch_chain_arms. assert (forall child, child ∈ arms t -> (json_height child <= fuel)%nat) as Hh.
    { intros child [_ [Hin|Hin]]%elem_of_arms; apply children_height in Hin; lia. }
    split.
    + intros [Hle|(child & Hin & Hle)]; [lia|]. exists child. split; [done|]. apply (IH child (S depth)); [by apply Hh|lia].
    + intros (child & Hin & Hc). right. exists child. split; [done|].
      apply (IH child (S depth)) in Hc; [lia|by apply Hh].
Qed.

(** * The rules that are accepted *)

Lemma count_level_zero level checks :
  count_level level checks = 0 <-> forall c, c ∈ checks -> has_level level c = false.
Proof.
  unfold count_level. induction checks as [|c checks IH]; cbn; [split; [by intros _ c ?%not_elem_of_nil|done]|].
  destruct (has_level level c) eqn:Hc; cbn.
  - split; [done|]. intros Hall. specialize (Hall c ltac:(by left)). congruence.
  - rewrite IH. split; [by intros Hall c' [->|?]%elem_of_cons; auto|]. intros Hall c' Hin. apply Hall. by right.
Qed.
Lemma str_in_spec s l : str_in s l = true <-> s ∈ l.
Proof.
  unfold str_in. rewrite existsb_exists, list_elem_of_In. split.
  - intros (x & Hin & ->%String.eqb_eq). done.
  - intros Hin. exists s. split; [done|]. apply String.eqb_refl.
Qed.
Lemma missing_params_nil t required :
  missing_params t required = [] <-> forall p, p ∈ required -> is_Some (param t p).
Proof.
  unfold missing_params. induction required as [|p required IH]; cbn; [split; [by intros _ p ?%not_elem_of_nil|done]|].
  destruct (param t p) as [v|] eqn:Hp; cbn.
  - rewrite IH. split; [|intros Hall q Hq; apply Hall; by right]. intros Hall q [->|Hq]%elem_of_cons; [by rewrite Hp|auto].
  - split; [done|]. intros Hall. destruct (Hall p) as [v Hv]; [by left|]. congruence.
Qed.

Section Accepted.
Context `{JsonDebug}.

(** What an accepted rule is. *)
Record rule_ok (t : JsonValue) (ty : string) : Prop := {
  ok_type : type_str t = Some ty;
  ok_valid : ty ∈ ["branch"; "set"; "push"; "io_request"];
  ok_required required p : required_params ty = Some required -> p ∈ required -> is_Some (param t p);
  ok_operation op : ty = "set" -> param t "operation" = Some (JString op) -> op ∈ ["set"; "add"; "sub"];
  ok_size params : ty = "io_request" -> json_get t "params" = Some params -> debug_len params <= MAX_IO_PARAMS_SIZE;
  ok_depth : ty = "branch" -> ~ branch_chain (S MAX_NESTING_DEPTH) t;
}.
Definition params_ok (t : JsonValue) (ty : string) : Prop :=
  (forall required p, required_params ty = Some required -> p ∈ required -> is_Some (param t p)) /\
  (forall op, ty = "set" -> param t "operation" = Some (JString op) -> op ∈ ["set"; "add"; "sub"]) /\
  (forall params, ty = "io_request" -> json_get t "params" = Some params -> debug_len params <= MAX_IO_PARAMS_SIZE).

Lemma operation_invalid_None t ty :
  operation_invalid t ty [] = None <->
  forall op, ty = "set" -> param t "operation" = Some (JString op) -> op ∈ ["set"; "add"; "sub"].
Proof.
  unfold operation_invalid. rewrite andb_true_r. destruct (String.eqb_spec ty "set") as [->|Hne]; [|by split].
  destruct (param t "operation") as [v|]; [|by split]. destruct v; cbn [as_str]; try (split; [intros _ op _ [=]|done]).
  change ["set"; "add"; "sub"] with VALID_OPERATIONS. destruct (str_in s VALID_OPERATIONS) eqn:Hin.
  - apply str_in_spec in Hin. split; [by intros _ op _ [= <-]|done].
  - split; [done|]. intros Hall. specialize (Hall s eq_refl eq_refl). apply str_in_spec in Hall. congruence.
Qed.
Lemma params_too_large_None t ty :
  params_too_large t ty [] = None <->
  forall params, ty = "io_request" -> json_get t "params" = Some params -> debug_len params <= MAX_IO_PARAMS_SIZE.
Proof.
  unfold params_too_large. rewrite andb_true_r. destruct (String.eqb_spec ty "io_request") as [->|Hne]; [|by split].
  destruct (json_get t "params") as [v|]; [|by split]. destruct (Nat.ltb_spec MAX_IO_PARAMS_SIZE (debug_len v)).
  - split; [done|]. intros Hall. specialize (Hall v eq_refl eq_refl). lia.
  - split; [|done]. intros _ params _ [= <-]. lia.
Qed.
Lemma check_params_complete_level t ty idx :
  has_level "error" (check_params_complete t ty idx) = false <-> params_ok t ty.
Proof.
  unfold check_params_complete, params_ok. destruct (required_params ty) as [required|] eqn:Hr.
  2: { split; [intros _|done]. split; [done|]. unfold required_params in Hr.
       split; intros ? ->; by cbn in Hr. }
  destruct (missing_params t required) as [|p missing] eqn:Hm.
  - pose proof (proj1 (missing_params_nil t required) Hm) as Hall.
    pose proof (operation_invalid_None t ty) as Ho. pose proof (params_too_large_None t ty) as Hl.
    destruct (operation_invalid t ty []) as [e1|], (params_too_large t ty []) as [e2|]; unfold has_level; cbn.
    + split; [done|]. intros (_ & Hop & _). by apply Ho in Hop.
    + split; [done|]. intros (_ & Hop & _). by apply Ho in Hop.
    + split; [done|]. intros (_ & _ & Hsz). by apply Hl in Hsz.
    + split; [intros _|done]. split; [|split; [by apply Ho|by apply Hl]]. intros ? p [= <-] Hp. by apply Hall.
  - unfold has_level. cbn. split; [done|]. intros (Hreq & _).
    assert (missing_params t required = []) as Hn by (apply missing_params_nil; intros q Hq; by eapply Hreq).
    congruence.
Qed.
Lemma transform_checks_ok t idx :
  (forall c, c ∈ transform_checks idx t -> has_level "error" c = false) <-> exists ty, rule_ok t ty.
Proof.
  unfold transform_checks. destruct (type_str t) as [ty|] eqn:Hty.
  2: { split; [|intros [ty []]; congruence]. intros Hall. specialize (Hall (check_type_exists t idx) ltac:(by left)).
       unfold check_type_exists in Hall. by rewrite Hty in Hall. }
  assert (is_type "branch" t = String.eqb ty "branch") as Hb by (unfold is_type; by rewrite Hty).
  destruct (check_branch_nested_spec nested_fuel t idx 0) as [Hone Hnone]; [unfold nested_fuel; lia|lia|].
  replace (MAX_NESTING_DEPTH + 1 - 0) with (S MAX_NESTING_DEPTH) in Hnone by lia.
  assert (has_level "error" (check_type_exists t idx) = false) as He by (unfold check_type_exists; by rewrite Hty).
  assert (has_level "error" (check_type_valid ty idx) = false <-> ty ∈ VALID_TRANSFORM_TYPES) as Hv.
  { rewrite <- str_in_spec. unfold check_type_valid, has_level. by destruct (str_in ty VALID_TRANSFORM_TYPES). }
  pose proof (check_params_complete_level t ty idx) as Hp. split.
  - intros Hall. exists ty. destruct (proj1 Hp) as (H1 & H2 & H3); [by apply Hall; do 2 right; left|]. split; [done| |done..|].
    + apply Hv, Hall. by right; left.
    + intros ->. apply Hnone. destruct (check_branch_nested nested_fuel t idx 0) as [|c cs] eqn:Hc; [done|exfalso].
      assert (c = nesting_check idx) as -> by (apply Hone; by left).
      assert (has_level "error" (nesting_check idx) = false) as Hf; [|done].
      apply Hall. rewrite Hb, String.eqb_refl. do 3 right. left.
  - intros [ty' Hok]. assert (ty' = ty) as -> by (destruct Hok; congruence). destruct Hok.
    intros c [->%list_elem_of_singleton|[Hc|Hc]%elem_of_app]%elem_of_app; [done| |].
    + apply elem_of_cons in Hc as [-> | ->%list_elem_of_singleton]; [by apply Hv|]. apply Hp. by split_and!.
    + rewrite Hb in Hc. destruct (String.eqb_spec ty "branch") as [->|]; [|by apply not_elem_of_nil in Hc].
      rewrite (proj2 Hnone) in Hc by auto. by apply not_elem_of_nil in Hc.
Qed.
End Accepted.

(** * Accepted rules in the executor *)

(** The kinds of error with which a rule of a known shape can fail: a path, a
    type, a missing queue or an overflow.  The first two come from the state,
    or from a literal of the rule itself ([literal_fault]). *)
Definition runtime_error (e : TcbError) : bool :=
  match e with
  | PathResolutionFailed _ _ | InvalidType _ _ _ | InvalidState _ | IntegerOverflow _ _ _ => true
  | _ => false
  end.
(** The parameters the executor reads as strings are strings. *)
Definition string_params (t : JsonValue) (ty : string) : Prop :=
  (ty = "set" -> exists op, param t "operation" = Some (JString op)) /\
  (ty = "io_request" -> exists io, param t "io_type" = Some (JString io)).

Lemma resolve_literal_error state v e : resolve_path_or_literal state (Some v) = Err e -> runtime_error e = true.
Proof. unfold resolve_path_or_literal, ok_or. repeat case_match; by intros [= <-]. Qed.
Lemma resolve_attr_error state v e : resolve_attr_from_state state v = Err e -> runtime_error e = true.
Proof.
  unfold resolve_attr_from_state. destruct (resolve_path_or_literal state (Some v)) as [w|e'] eqn:Hr.
  - unfold ok_or. case_match; by intros [= <-].
  - intros [= <-]. by eapply resolve_literal_error.
Qed.
Lemma guarded_attr_error state v e : guarded_attr state v = Err e -> runtime_error e = true.
Proof.
  unfold guarded_attr. destruct (resolve_attr_from_state state v) as [s|e'] eqn:Hr.
  - case_match; by intros [= <-].
  - intros [= <-]. by eapply resolve_attr_error.
Qed.
Lemma set_attr_error state v e : set_attr state v = Err e -> runtime_error e = true.
Proof. unfold set_attr. repeat case_match; try done; apply guarded_attr_error. Qed.
Lemma apply_set_operation_error operation a b e :
  operation ∈ ["set"; "add"; "sub"] -> apply_set_operation operation a b = Err e -> runtime_error e = true.
Proof.
  intros Hop. unfold apply_set_operation. destruct (String.eqb_spec operation "set"); [done|].
  destruct (String.eqb operation "add" || String.eqb operation "sub") eqn:Ho.
  - destruct (as_i64 a) as [x|]; cbn [ok_or]; [|by intros [= <-]]. destruct (as_i64 b) as [y|]; cbn [ok_or]; [|by intros [= <-]].
    by destruct (if String.eqb operation "add" then _ else _); intros [= <-].
  - exfalso. apply orb_false_iff in Ho as [?%String.eqb_neq ?%String.eqb_neq]. set_solver.
Qed.
Lemma param_Some t key v : param t key = Some v -> exists p, json_get t "params" = Some p /\ json_get p key = Some v.
Proof. unfold param. destruct (json_get t "params") as [p|]; [|done]. intros Hp. by exists p. Qed.
Lemma exec_set_error t state op e :
  is_Some (param t "attr") -> is_Some (param t "value") -> param t "operation" = Some (JString op) ->
  op ∈ ["set"; "add"; "sub"] -> exec_set t state = Err e -> runtime_error e = true.
Proof.
  intros [attr Ha] [value Hv] Ho Hop. apply param_Some in Ha as (p & Hp & Ha), Hv as (p1 & Hp1 & Hv), Ho as (p2 & Hp2 & Ho).
  rewrite Hp in Hp1, Hp2. injection Hp1 as <-. injection Hp2 as <-.
  unfold exec_set. rewrite Hp. cbn [ok_or]. rewrite Ha. cbn [ok_or].
  destruct (set_attr state attr) as [name|e'] eqn:Hs; [|intros [= <-]; by eapply set_attr_error].
  rewrite Ho. cbn [as_str ok_or]. rewrite Hv.
  destruct (resolve_path_or_literal state (Some value)) as [x|e'] eqn:Hx; [|intros [= <-]; by eapply resolve_literal_error].
  destruct (parse_path_segments name) as [segs|] eqn:Hsegs; cbn [ok_or]; [|by intros [= <-]].
  apply parse_wf in Hsegs as [Hne Hwf]. destruct segs as [|seg segs]; [done|].
  destruct (resolve_path_mut state "__exec__.payload") as [[payload put]|]; cbn [ok_or]; [|by intros [= <-]].
  pose proof (descend_spec (seg :: segs) name payload put Hne Hwf) as Hd.
  destruct (descend_to_write_slot payload put (seg :: segs) name) as [slot|e'].
  2: { destruct Hd as [[reason ->] _]. by intros [= <-]. }
  destruct (slot_current name slot) as [current|e'] eqn:Hc.
  2: { unfold slot_current, ok_or in Hc. intros [= <-]. destruct slot; [done|]. case_match; [done|]. by injection Hc as <-. }
  destruct (apply_set_operation op current x) as [y|e'] eqn:Hy; [done|]. intros [= <-]. by eapply apply_set_operation_error.
Qed.
Lemma resolve_items_error state arr acc e : resolve_items state arr acc = Err e -> runtime_error e = true.
Proof.
  revert acc. induction arr as [|item arr IH]; intros acc; [done|]. cbn. unfold ok_or. destruct item; try apply IH.
  case_match; [|apply IH]. destruct (resolve_path state s) as [v|]; [|by intros [= <-]]. destruct v; apply IH.
Qed.
Lemma exec_push_error t state e : is_Some (param t "instructions") -> exec_push t state = Err e -> runtime_error e = true.
Proof.
  intros [v Hv]. apply param_Some in Hv as (p & Hp & Hv). unfold exec_push, resolve_instructions_list. rewrite Hp. cbn [ok_or].
  rewrite Hv. destruct (resolve_path_or_literal state (Some v)) as [w|e'] eqn:Hw; [|intros [= <-]; by eapply resolve_literal_error].
  destruct (as_array w) as [arr|]; cbn [ok_or]; [|by intros [= <-]].
  destruct (resolve_items state arr []) as [l|e'] eqn:Hi; [|intros [= <-]; by eapply resolve_items_error].
  destruct l as [|x l]; [done|]. destruct (resolve_path_mut state "__exec__.queue") as [[q put]|]; [|by intros [= <-]].
  by destruct (as_array q); intros [= <-].
Qed.
Lemma io_params_error state obj acc e : io_params state obj acc = Err e -> runtime_error e = true.
Proof.
  revert acc. induction obj as [|[key v] obj IH]; intros acc; cbn [io_params]; [done|]. case_match; [apply IH|].
  destruct (match strip_suffix_char "?" key with Some stripped => (stripped, true) | None => (key, false) end) as [name optional].
  destruct (resolve_path_or_literal state (Some v)) as [x|e'] eqn:Hx; [apply IH|].
  pose proof (resolve_literal_error _ _ _ Hx) as He. destruct e'; try (by intros [= <-]). destruct optional; [apply IH|by intros [= <-]].
Qed.
Lemma exec_io_error t state io e :
  param t "io_type" = Some (JString io) -> exec_io_request t state = Err e -> runtime_error e = true.
Proof.
  intros Hv. apply param_Some in Hv as (p & Hp & Hv). unfold exec_io_request. rewrite Hp. cbn [ok_or]. rewrite Hv. cbn [as_str ok_or].
  destruct (as_object p) as [obj|]; [|done].
  destruct (io_params state obj map_new) as [l|e'] eqn:Hi; [done|]. intros [= <-]. by eapply io_params_error.
Qed.

(** * Literals that cannot work, and states in which the others do *)

Definition is_reference (v : JsonValue) : bool := match v with JString s => starts_with "__" s | _ => false end.
(** The path of a literal [attr]: none when it is no string, has the
    forbidden prefix, or is not a path to write to. *)
Definition literal_path (attr : JsonValue) : option (list PathSegment) :=
  let! raw := as_str attr in
  let! name :=
    match strip_prefix "__exec__.payload." raw with
    | Some suffix => Some suffix
    | None => if starts_with "payload." raw then None else Some raw
    end in
  let! segs := parse_path_segments name in
  if canonical segs then Some segs else None.
Definition literal_attr (attr : JsonValue) : bool :=
  negb (is_reference attr) || is_some (let! raw := as_str attr in strip_prefix "__exec__.payload." raw).
Definition literal_operand (op : string) (v : JsonValue) : bool :=
  is_reference v || String.eqb op "set" || is_some (as_i64 v).
(** A literal of the rule with which it fails in every state. *)
Definition literal_fault (t : JsonValue) (ty : string) : bool :=
  if String.eqb ty "set" then
    match param t "attr", param t "operation", param t "value" with
    | Some attr, Some (JString op), Some value =>
        literal_attr attr && negb (is_some (literal_path attr)) || negb (literal_operand op value)
    | _, _, _ => true
    end
  else if String.eqb ty "push" then
    match param t "instructions" with Some v => negb (is_reference v || is_some (as_array v)) | None => true end
  else false.
(** The rule names no path of the state. *)
Definition reference_free (t : JsonValue) (ty : string) : bool :=
  if String.eqb ty "set" then
    match param t "attr", param t "value" with
    | Some attr, Some value => literal_attr attr && negb (is_reference value)
    | _, _ => false
    end
  else if String.eqb ty "push" then
    match (let! v := param t "instructions" in as_array v) with
    | Some arr => forallb (fun i => negb (is_reference i)) arr
    | None => false
    end
  else
    match (let! p := json_get t "params" in as_object p) with
    | Some obj => forallb (fun kv => negb (is_reference (snd kv))) obj
    | None => true
    end.

Lemma resolve_non_reference state v : is_reference v = false -> resolve_path_or_literal state (Some v) = Ok v.
Proof. destruct v; try done. cbn. by intros ->. Qed.
Lemma set_attr_literal state attr :
  literal_attr attr = true ->
  match set_attr state attr with
  | Ok name => literal_path attr = let! segs := parse_path_segments name in if canonical segs then Some segs else None
  | Err _ => literal_path attr = None
  end.
Proof.
  unfold literal_attr, set_attr, literal_path. intros Hl. destruct (as_str attr) as [raw|] eqn:Hraw.
  - destruct attr; try done. injection Hraw as ->. cbn [option_bind] in *.
    destruct (strip_prefix "__exec__.payload." raw) as [suffix|]; [done|]. cbn [is_some] in Hl.
    rewrite orb_false_r, negb_true_iff in Hl. unfold guarded_attr, resolve_attr_from_state.
    rewrite resolve_non_reference by done. cbn [as_str ok_or]. by destruct (starts_with "payload." raw).
  - cbn [option_bind is_some] in Hl. rewrite orb_false_r, negb_true_iff in Hl.
    unfold guarded_attr, resolve_attr_from_state. rewrite resolve_non_reference by done. by rewrite Hraw.
Qed.
(** What the entry point does with the three types. *)
Lemma execute_by_type t state :
  (type_str t = Some "set" -> execute_meta_instruction t state 0 = result_map MState (exec_set t state)) /\
  (type_str t = Some "push" -> execute_meta_instruction t state 0 = result_map MState (exec_push t state)) /\
  (type_str t = Some "io_request" -> execute_meta_instruction t state 0 = exec_io_request t state).
Proof.
  assert (execute_meta_instruction t state 0 = result_map fst
    (execute_dispatch (execute_at 1) t state 0 (mk_outs (MAX_TOTAL_META_INSTRUCTIONS - 1) false None))) as ->
    by (rewrite execute_meta_instruction_at, execute_at_eq; reflexivity).
  unfold execute_dispatch. fold (type_str t). split_and!; intros ->; cbn [ok_or String.eqb Ascii.eqb Bool.eqb].
  - by destruct (exec_set t state).
  - by destruct (exec_push t state).
  - by destruct (exec_io_request t state).
Qed.

(** A literal that cannot work fails in every state. *)
Lemma literal_set_fails t state attr op value :
  param t "attr" = Some attr -> param t "operation" = Some (JString op) -> param t "value" = Some value ->
  literal_attr attr && negb (is_some (literal_path attr)) || negb (literal_operand op value) = true ->
  exists e, exec_set t state = Err e.
Proof.
  intros Ha Ho Hv Hl. apply param_Some in Ha as (p & Hp & Ha), Ho as (p1 & Hp1 & Ho), Hv as (p2 & Hp2 & Hv).
  rewrite Hp in Hp1, Hp2. injection Hp1 as <-. injection Hp2 as <-.
  unfold exec_set. rewrite Hp. cbn [ok_or]. rewrite Ha. cbn [ok_or].
  apply orb_true_iff in Hl as [[Hlit Hn]%andb_true_iff|Hn].
  - pose proof (set_attr_literal state attr Hlit) as Hs. destruct (set_attr state attr) as [name|e]; [|by eexists].
    rewrite Ho. cbn [as_str ok_or]. destruct (resolve_path_or_literal state _) as [x|e]; [|by eexists].
    destruct (parse_path_segments name) as [segs|] eqn:Hsegs; cbn [ok_or option_bind] in *; [|by eexists].
    apply parse_wf in Hsegs as [Hne Hwf]. destruct segs as [|seg segs]; [done|].
    destruct (canonical (seg :: segs)) eqn:Hc; [by rewrite Hs in Hn|].
    destruct (resolve_path_mut state "__exec__.payload") as [[payload put]|]; cbn [ok_or]; [|by eexists].
    pose proof (descend_spec (seg :: segs) name payload put Hne Hwf) as Hd.
    destruct (descend_to_write_slot payload put (seg :: segs) name) as [slot|e']; [|by eexists].
    destruct Hd as [Hd _]. unfold write_ok in Hd. by rewrite Hc in Hd.
  - unfold literal_operand in Hn. rewrite !negb_orb, !andb_true_iff, !negb_true_iff in Hn. destruct Hn as [[Href Hop] Hint].
    destruct (set_attr state attr) as [name|e]; [|by eexists]. rewrite Ho. cbn [as_str ok_or].
    rewrite Hv, resolve_non_reference by done. destruct (parse_path_segments name) as [[|seg segs]|]; cbn [ok_or]; [by eexists| |by eexists].
    destruct (resolve_path_mut state "__exec__.payload") as [[payload put]|]; cbn [ok_or]; [|by eexists].
    destruct (descend_to_write_slot payload put (seg :: segs) name) as [slot|e']; [|by eexists].
    destruct (slot_current name slot) as [current|]; [|by eexists].
    unfold apply_set_operation. rewrite Hop. destruct (String.eqb op "add" || String.eqb op "sub"); [|by eexists].
    destruct (as_i64 current); cbn [ok_or]; [|by eexists]. destruct (as_i64 value); [done|]. by eexists.
Qed.
Lemma literal_fault_fails t ty state :
  type_str t = Some ty -> string_params t ty ->
  (forall required p, required_params ty = Some required -> p ∈ required -> is_Some (param t p)) ->
  literal_fault t ty = true -> exists e, execute_meta_instruction t state 0 = Err e.
Proof.
  intros Hty [Hop _] Hreq Hlit. destruct (execute_by_type t state) as (Hset & Hpush & _). unfold literal_fault in Hlit.
  destruct (String.eqb_spec ty "set") as [->|].
  - rewrite Hset by done. destruct (Hop eq_refl) as [op Ho]. rewrite Ho in Hlit.
    destruct (Hreq _ "attr" eq_refl ltac:(left)) as [attr Ha]. destruct (Hreq _ "value" eq_refl ltac:(do 2 right; left)) as [value Hv].
    rewrite Ha, Hv in Hlit. destruct (literal_set_fails t state attr op value Ha Ho Hv Hlit) as [e ->]. by eexists.
  - destruct (String.eqb_spec ty "push") as [->|]; [|done]. rewrite Hpush by done.
    destruct (Hreq _ "instructions" eq_refl ltac:(left)) as [v Hv]. rewrite Hv in Hlit.
    apply param_Some in Hv as (p & Hp & Hv). unfold exec_push, resolve_instructions_list. rewrite Hp. cbn [ok_or]. rewrite Hv.
    apply negb_true_iff, orb_false_iff in Hlit as [Href Harr]. rewrite resolve_non_reference by done.
    destruct (as_array v); [done|]. by eexists.
Qed.

(** A payload with a value at a path. *)
Fixpoint room (ss : list Step) (leaf : JsonValue) : JsonValue :=
  match ss with
  | [] => leaf
  | Key k :: ss => JObject [(k, room ss leaf)]
  | Idx i :: ss => JArray (replicate (S (Z.to_nat i)) (room ss leaf))
  end.
Lemma room_step s ss leaf :
  (forall i, s = Idx i -> (0 <= i)%Z) -> get_step (room (s :: ss) leaf) s = Some (room ss leaf).
Proof.
  destruct s as [k|i]; intros Hi; cbn [room get_step].
  - rewrite map_get_find. cbn. by rewrite String.eqb_refl.
  - specialize (Hi i eq_refl). unfold vec_get, vec_len. rewrite length_replicate.
    destruct (Z.leb_spec 0 i), (Z.ltb_spec i (Z.of_nat (S (Z.to_nat i)))); try lia. cbn [andb].
    apply lookup_replicate_2. lia.
Qed.
Lemma room_not_null ss leaf : leaf <> JNull -> room ss leaf <> JNull.
Proof. by destruct ss as [|[] ]. Qed.
Lemma room_writable ss leaf :
  (forall i, Idx i ∈ ss -> (0 <= i)%Z) -> leaf <> JNull ->
  writable (room ss leaf) ss = true /\ get_steps (room ss leaf) ss = Some leaf.
Proof.
  intros Hi Hleaf. induction ss as [|s ss IH]; [done|]. destruct IH as [Hw Hg]; [intros i Hin; apply Hi; by right|].
  assert (get_step (room (s :: ss) leaf) s = Some (room ss leaf)) as Hs.
  { apply room_step. intros i ->. apply Hi. by left. }
  pose proof (room_not_null ss leaf Hleaf) as Hn. cbn [writable get_steps]. rewrite Hs. cbn [option_bind]. split; [|done].
  apply andb_true_iff. split; [destruct s; [done|]; apply bool_decide_eq_true; rewrite Hs; by eexists|].
  assert (child (room (s :: ss) leaf) s = room ss leaf) as ->; [|done].
  unfold child. rewrite Hs. destruct s; [|done]. by destruct (room ss leaf).
Qed.
Lemma path_steps_nonnegative segs :
  Forall (fun seg => wf_segment seg = true) segs -> forall i, Idx i ∈ path_steps segs -> (0 <= i)%Z.
Proof.
  induction 1 as [|seg segs Hseg _ IH]; intros i; [by intros ?%not_elem_of_nil|].
  rewrite path_steps_cons, elem_of_app. intros [Hin|]; [|by apply IH].
  destruct seg as [f|[f|] j]; cbn [seg_steps wf_segment] in *; reflect_bool; set_solver by lia.
Qed.
Definition state_with (payload : JsonValue) : JsonValue :=
  object_from_pairs [("__exec__", object_from_pairs [("payload", payload); ("queue", JArray [])])].
Lemma state_with_payload payload : exists put, resolve_path_mut (state_with payload) "__exec__.payload" = Some (payload, put).
Proof. eexists. vm_compute. reflexivity. Qed.
Lemma state_with_queue payload : exists put, resolve_path_mut (state_with payload) "__exec__.queue" = Some (JArray [], put).
Proof. eexists. vm_compute. reflexivity. Qed.

(** The operand a state has to hold for the operation to work. *)
Definition leaf_for (op : string) (value : JsonValue) : JsonValue :=
  if String.eqb op "sub" then value
  else match as_i64 value with Some z => JInteger (if is_i64 z then 0 else - z) | None => JInteger 0 end.
Lemma leaf_works op value :
  op ∈ ["set"; "add"; "sub"] -> is_reference value = false -> literal_operand op value = true ->
  (op = "sub" -> value <> JNull) /\ is_ok (apply_set_operation op (leaf_for op value) value) = true.
Proof.
  intros Hop Href Hl. unfold literal_operand in Hl. rewrite Href in Hl. cbn [orb] in Hl. unfold apply_set_operation, leaf_for.
  destruct (String.eqb_spec op "set") as [->|Hns]; [done|]. cbn [orb] in Hl.
  destruct (as_i64 value) as [z|] eqn:Hz; [|done]. split; [by intros _ ->|].
  destruct (String.eqb_spec op "add") as [->|]; cbn [orb String.eqb Ascii.eqb Bool.eqb].
  - cbn [as_i64 ok_or]. unfold i64_checked_add. destruct (is_i64 z) eqn:Hr; [by rewrite Z.add_0_l, Hr|].
    by rewrite Z.add_opp_diag_l.
  - assert (op = "sub") as -> by set_solver. cbn [orb String.eqb Ascii.eqb Bool.eqb]. rewrite Hz. cbn [ok_or].
    unfold i64_checked_sub. by rewrite Z.sub_diag.
Qed.
Lemma literal_set_works t attr op value :
  param t "attr" = Some attr -> param t "operation" = Some (JString op) -> param t "value" = Some value ->
  op ∈ ["set"; "add"; "sub"] -> literal_attr attr = true -> is_reference value = false ->
  is_some (literal_path attr) = true -> literal_operand op value = true ->
  exists payload s, exec_set t (state_with payload) = Ok s.
Proof.
  intros Ha Ho Hv Hop Hlit Href Hpath Hoper.
  apply param_Some in Ha as (p & Hp & Ha), Ho as (p1 & Hp1 & Ho), Hv as (p2 & Hp2 & Hv).
  rewrite Hp in Hp1, Hp2. injection Hp1 as <-. injection Hp2 as <-.
  destruct (leaf_works op value Hop Href Hoper) as [Hnull Happ].
  assert (exists segs, literal_path attr = Some segs /\ segs <> [] /\ Forall (fun seg => wf_segment seg = true) segs /\
    canonical segs = true /\ forall state, exists name, set_attr state attr = Ok name /\ parse_path_segments name = Some segs)
    as (segs & _ & Hne & Hwf & Hc & Hname).
  { destruct (literal_path attr) as [segs|] eqn:Hl; [|done]. exists segs.
    assert (forall state, exists name, set_attr state attr = Ok name /\ parse_path_segments name = Some segs /\ canonical segs = true) as Hall.
    { intros state. pose proof (set_attr_literal state attr Hlit) as Hs. destruct (set_attr state attr) as [name|]; [|congruence].
      exists name. rewrite Hl in Hs. destruct (parse_path_segments name) as [segs'|]; [|done]. cbn [option_bind] in Hs.
      destruct (canonical segs') eqn:Hc; [|done]. by injection Hs as <-. }
    destruct (Hall JNull) as (name & _ & Hparse & Hc). apply parse_wf in Hparse as [Hne Hwf].
    split_and!; [done..|]. intros state. destruct (Hall state) as (n & ? & ? & _). by exists n. }
  set (payload := room (path_steps segs) (leaf_for op value)). exists payload.
  unfold exec_set. rewrite Hp. cbn [ok_or]. rewrite Ha. cbn [ok_or].
  destruct (Hname (state_with payload)) as (name & -> & Hparse). rewrite Ho. cbn [as_str ok_or].
  rewrite Hv, resolve_non_reference, Hparse by done. cbn [ok_or]. destruct segs as [|seg segs]; [done|].
  destruct (state_with_payload payload) as [put ->]. cbn [ok_or].
  pose proof (descend_spec (seg :: segs) name payload put Hne Hwf) as Hd.
  assert (leaf_for op value <> JNull) as Hleaf.
  { unfold leaf_for. destruct (String.eqb_spec op "sub"); [by apply Hnull|by destruct (as_i64 value)]. }
  destruct (room_writable (path_steps (seg :: segs)) (leaf_for op value) (path_steps_nonnegative _ Hwf) Hleaf) as [Hw Hg].
  assert (write_ok payload (seg :: segs) = true) as Hok by (unfold write_ok; by rewrite Hc).
  destruct (descend_to_write_slot payload put (seg :: segs) name) as [slot|e]; [|by destruct Hd; congruence].
  destruct Hd as [_ [-> _]]. unfold current_value. fold payload in Hg. rewrite Hg.
  replace (match leaf_for op value with JNull => _ | _ => _ end) with (leaf_for op value) by by destruct (leaf_for op value).
  destruct (apply_set_operation op (leaf_for op value) value) as [y|]; [|done]. by eexists.
Qed.
Lemma literal_items state arr acc :
  forallb (fun i => negb (is_reference i)) arr = true -> resolve_items state arr acc = Ok (acc ++ arr).
Proof.
  revert acc. induction arr as [|i arr IH]; intros acc; [by rewrite app_nil_r|]. cbn [forallb resolve_items].
  intros [Hi Harr]%andb_true_iff. rewrite IH, <- app_assoc by done. destruct i; try done. cbn in Hi. by destruct (starts_with "__" s).
Qed.
Lemma literal_io state obj acc :
  forallb (fun kv => negb (is_reference (snd kv))) obj = true -> exists r, io_params state obj acc = Ok r.
Proof.
  revert acc. induction obj as [|[k v] obj IH]; intros acc; cbn [forallb io_params]; [by eexists|].
  intros [Hv Hobj]%andb_true_iff. apply negb_true_iff in Hv. cbn [snd] in Hv. case_match; [by apply IH|].
  destruct (match strip_suffix_char "?" k with Some _ => _ | None => _ end) as [name optional].
  rewrite resolve_non_reference by done. by apply IH.
Qed.
(** A rule without references and without such literals has a state in
    which it works. *)
Lemma literal_rule_works t ty :
  type_str t = Some ty -> ty ∈ ["set"; "push"; "io_request"] -> string_params t ty ->
  (forall op, ty = "set" -> param t "operation" = Some (JString op) -> op ∈ ["set"; "add"; "sub"]) ->
  reference_free t ty = true -> literal_fault t ty = false ->
  exists payload r, execute_meta_instruction t (state_with payload) 0 = Ok r.
Proof.
  intros Hty Hin [Hop Hio] Hoper Hfree Hlit. unfold reference_free, literal_fault in *.
  apply elem_of_cons in Hin as [->|Hin]; [|apply elem_of_cons in Hin as [->|Hin]; [|apply list_elem_of_singleton in Hin as ->]];
    cbn [String.eqb Ascii.eqb Bool.eqb] in *.
  - destruct (Hop eq_refl) as [op Ho]. rewrite Ho in Hlit. destruct (param t "attr") as [attr|] eqn:Ha; [|done].
    destruct (param t "value") as [value|] eqn:Hv; [|done]. apply andb_true_iff in Hfree as [Hl Hr%negb_true_iff].
    rewrite Hl in Hlit. apply orb_false_iff in Hlit as [Hp%negb_false_iff Hq%negb_false_iff].
    destruct (literal_set_works t attr op value) as (payload & s & Hs); [done|done|done|by apply Hoper|done|done|done|done|].
    exists payload. destruct (execute_by_type t (state_with payload)) as (He & _). rewrite He, Hs by done. by eexists.
  - destruct (param t "instructions") as [v|] eqn:Hv; [|done]. apply param_Some in Hv as (p & Hp & Hv). cbn [option_bind] in Hfree.
    destruct (as_array v) as [arr|] eqn:Harr; [|done]. exists JNull. destruct (execute_by_type t (state_with JNull)) as (_ & He & _).
    rewrite He by done. unfold exec_push, resolve_instructions_list. rewrite Hp. cbn [ok_or]. rewrite Hv.
    rewrite resolve_non_reference by by destruct v. rewrite Harr. cbn [ok_or]. rewrite literal_items by done. cbn [app].
    destruct arr; [by eexists|]. destruct (state_with_queue JNull) as [put Hq]. rewrite Hq. cbn. by eexists.
  - exists JNull. destruct (execute_by_type t (state_with JNull)) as (_ & _ & He). rewrite He by done.
    destruct (Hio eq_refl) as [io Hi]. apply param_Some in Hi as (p & Hp & Hi). unfold exec_io_request. rewrite Hp in *. cbn [ok_or option_bind] in *.
    rewrite Hi. cbn [as_str ok_or]. destruct (as_object p) as [obj|]; [|by eexists].
    destruct (literal_io (state_with JNull) obj map_new Hfree) as [r ->]. by eexists.
Qed.

Lemma validation_accepts `{JsonDebug} (rules : list JsonValue) :
  vr_passed (validate_rules rules) = true <->
  rules <> [] /\ length rules <= Transition.MAX_TRANSFORM_RULES /\
  forall t, t ∈ rules -> exists ty, rule_ok t ty.
Proof.
  unfold validate_rules. cbn [vr_passed]. rewrite Nat.eqb_eq, count_level_zero. unfold perform_static_validation.
  destruct rules as [|t rules].
  { split; [|by intros [? _]]. intros Hall. by specialize (Hall _ ltac:(right; left)). }
  set (all := t :: rules).
  assert (has_level "error" (check_transform_count all) = false <-> length all <= Transition.MAX_TRANSFORM_RULES) as Hcount.
  { unfold check_transform_count, has_level. cbn [ck_level]. change MAX_TRANSFORM_RULES with Transition.MAX_TRANSFORM_RULES.
    destruct (Nat.leb_spec (length all) Transition.MAX_TRANSFORM_RULES) as [Hl|Hl]; [by split|].
    split; [intros Habs; by vm_compute in Habs|]. clearbody all. unfold Transition.MAX_TRANSFORM_RULES in *. lia. }
  assert (forall c, c ∈ concat (imap (fun i t => transform_checks (as_i32 i) t) all) <->
    exists i t, all !! i = Some t /\ c ∈ transform_checks (as_i32 i) t) as Hin.
  { intros c. rewrite list_elem_of_In, in_concat. split.
    - intros (l & Hl & Hc). apply list_elem_of_In, elem_of_lookup_imap in Hl as (i & x & -> & Hx).
      exists i, x. split; [done|]. by apply list_elem_of_In.
    - intros (i & x & Hx & Hc). exists (transform_checks (as_i32 i) x). split; [|by apply list_elem_of_In].
      apply list_elem_of_In, elem_of_lookup_imap. by exists i, x. }
  split.
  - intros Hall. split; [done|]. split; [apply Hcount, Hall; by left|]. intros x [i Hi]%list_elem_of_lookup.
    apply (transform_checks_ok x (as_i32 i)). intros c Hc. apply Hall. right. apply Hin. by exists i, x.
  - intros (_ & Hlen & Hok) c [->|Hc]%elem_of_cons; [by apply Hcount|]. apply Hin in Hc as (i & x & Hx & Hc).
    apply (transform_checks_ok x (as_i32 i)); [|done]. apply Hok. by eapply list_elem_of_lookup_2.
Qed.

(** * Properties *)

(** C24: validation accepts exactly the well-formed rule sets.  The result
    passes precisely when there is a rule, no more rules than the engine
    takes, and every rule has one of the four types, its required parameters,
    a known operation when that is a string, I/O parameters within the size
    limit, and no chain of branches longer than the nesting limit; the depth
    the analysis then measures for a branch is within the limit too. *)
Theorem validation_exact `{JsonDebug} (rules : list JsonValue) :
  (vr_passed (validate_rules rules) = true <->
   rules <> [] /\ length rules <= Transition.MAX_TRANSFORM_RULES /\
   forall t, t ∈ rules -> exists ty, rule_ok t ty) /\
  forall t, rule_ok t "branch" -> measure_nesting_depth (json_height t) t 0 <= MAX_NESTING_DEPTH.
Proof.
  split; [apply validation_accepts|]. intros t Hok. destruct (Nat.le_gt_cases (measure_nesting_depth (json_height t) t 0)
    MAX_NESTING_DEPTH) as [|Hgt]; [done|exfalso]. apply (ok_depth _ _ Hok eq_refl).
  apply (measure_depth_exact (json_height t) t 0); lia.
Qed.

(** C25: how an accepted rule can fail.  Where the parameters the executor
    reads as strings are strings, a [set], [push] or [io_request] of an
    accepted rule set never fails for a missing field, an unknown type or an
    unknown operation: only with a path, a type, a missing queue or an
    overflow.  Such an error need not come from the state: with a literal
    that cannot work ([literal_fault]: an [attr] that is no path to write to,
    an operand that is no integer, [instructions] that are no array), which
    the validation accepts, the rule fails in every state; and a rule that
    names no path of the state and has no such literal works in some
    state. *)
Theorem accepted_rules_execute `{JsonDebug} (rules : list JsonValue) (t : JsonValue) (ty : string) :
  vr_passed (validate_rules rules) = true -> t ∈ rules ->
  type_str t = Some ty -> ty <> "branch" -> string_params t ty ->
  (forall state e, execute_meta_instruction t state 0 = Err e -> runtime_error e = true) /\
  (literal_fault t ty = true -> forall state, exists e, execute_meta_instruction t state 0 = Err e) /\
  (reference_free t ty = true -> literal_fault t ty = false ->
   exists payload r, execute_meta_instruction t (state_with payload) 0 = Ok r).
Proof.
  intros Hv Ht Hty Hb Hsp. apply validation_accepts in Hv as (_ & _ & Hok). destruct (Hok t Ht) as [ty' Hrule].
  assert (ty' = ty) as -> by (destruct Hrule; congruence). destruct Hrule as [_ Hvalid Hreq Hoper _ _].
  apply elem_of_cons in Hvalid as [->|Hvalid]; [done|]. split_and!.
  - intros state e. destruct (execute_by_type t state) as (Hset & Hpush & Hio). destruct Hsp as [Hop Hiot].
    repeat (apply elem_of_cons in Hvalid as [->|Hvalid]); [| | |by apply not_elem_of_nil in Hvalid].
    + rewrite Hset by done. destruct (Hop eq_refl) as [op Ho]. destruct (exec_set t state) as [s|e'] eqn:Hs; [done|]. intros [= <-].
      apply (exec_set_error t state op e'); [by eapply Hreq; [done|left]|by eapply Hreq; [done|do 2 right; left]|done|by apply Hoper|done].
    + rewrite Hpush by done. destruct (exec_push t state) as [s|e'] eqn:Hs; [done|]. intros [= <-]. eapply exec_push_error; [|done].
      by eapply Hreq; [done|left].
    + rewrite Hio by done. destruct (Hiot eq_refl) as [io Hi]. by apply exec_io_error with (io := io).
  - intros Hlit state. by eapply literal_fault_fails.
  - intros Hfree Hlit. by apply (literal_rule_works t ty).
Qed.

(** * Examples *)

Module ValidationDemo.
#[export] Instance debug : JsonDebug := {| debug_len := fun _ => 100 |}.
Definition rule (ty : string) (params : list (string * JsonValue)) : JsonValue :=
  object_from_pairs [("type", JString ty); ("params", object_from_pairs params)].
Definition set_x (operation : JsonValue) : JsonValue :=
  rule "set" [("attr", JString "x"); ("operation", operation); ("value", JInteger 1)].
Definition branch_on (on_true : list JsonValue) : JsonValue :=
  rule "branch" [("domain", object_from_pairs [("type", JString "all"); ("inner", JArray [])]); ("on_true", JArray on_true)].
Definition state : JsonValue :=
  object_from_pairs [("__exec__", object_from_pairs
    [("payload", object_from_pairs [("x", JString "text")]); ("queue", JArray [])])].
Definition rules : list JsonValue := [set_x (JString "add"); branch_on [set_x (JString "set")]].
(** [n] branches around a [set]. *)
Fixpoint nest (n : nat) : JsonValue :=
  match n with O => set_x (JString "set") | S n => branch_on [nest n] end.
End ValidationDemo.
Import ValidationDemo.

Lemma validation_exact_witness :
  (forall t, t ∈ rules -> exists ty, rule_ok t ty) /\
  measure_nesting_depth (json_height (nest 3)) (nest 3) 0 <= MAX_NESTING_DEPTH /\ rule_ok (nest 3) "branch".
Proof.
  assert (forall t, t ∈ nest 3 :: rules -> exists ty, rule_ok t ty) as Hall.
  { apply (validation_exact (nest 3 :: rules)). vm_compute. reflexivity. }
  split; [intros t Ht; apply Hall; by right|].
  destruct (Hall (nest 3)) as [ty Hok]; [left|]. assert (ty = "branch") as -> by (destruct Hok; vm_compute in ok_type0; congruence).
  split; [|exact Hok]. by apply (validation_exact rules).
Defined.
Lemma accepted_rules_execute_witness :
  vr_passed (validate_rules rules) = true /\
  (exists e, execute_meta_instruction (set_x (JString "add")) state 0 = Err e /\ runtime_error e = true) /\
  exists payload r, execute_meta_instruction (set_x (JString "add")) (state_with payload) 0 = Ok r.
Proof.
  assert (vr_passed (validate_rules rules) = true) as Hv by (vm_compute; reflexivity). split; [exact Hv|].
  assert (execute_meta_instruction (set_x (JString "add")) state 0 =
    Err (InvalidType "integer" "string" "add left operand")) as He by (vm_compute; reflexivity).
  destruct (accepted_rules_execute rules (set_x (JString "add")) "set" Hv) as (Herr & _ & Hworks).
  - left.
  - vm_compute. reflexivity.
  - discriminate.
  - split; [intros _; exists "add"; vm_compute; reflexivity|intros [=]].
  - split; [eexists; split; [exact He|exact (Herr _ _ He)]|].
    apply Hworks; vm_compute; reflexivity.
Defined.
(** Accepted rules that fail in every state for a literal: [instructions] that
    are a number, and an [attr] under the forbidden prefix. *)
Definition push_number : JsonValue := rule "push" [("instructions", JInteger 5)].
Definition set_prefixed : JsonValue :=
  rule "set" [("attr", JString "payload.x"); ("operation", JString "set"); ("value", JInteger 1)].
Lemma literals_unchecked state :
  vr_passed (validate_rules [push_number; set_prefixed]) = true /\
  execute_meta_instruction push_number state 0 = Err (InvalidType "array" "integer" "instructions") /\
  execute_meta_instruction set_prefixed state 0 = Err (PathResolutionFailed "payload.x" payload_prefix_reason).
Proof. split_and!; vm_compute; reflexivity. Qed.

(** What is accepted and then refused by the executor for its shape: an
    operation that is not a string; anything in the arm of a branch; and 65
    branches, of which the executor runs 64. *)
Lemma operation_type_unchecked :
  vr_passed (validate_rules [set_x (JInteger 5)]) = true /\
  execute_meta_instruction (set_x (JInteger 5)) state 0 = Err (MissingField "operation").
Proof. split; vm_compute; reflexivity. Qed.
Lemma arms_unchecked :
  let rules := [branch_on [rule "launch" []; set_x (JString "mul")]] in
  vr_passed (validate_rules rules) = true /\ total_warnings (summary (validate_rules rules)) = 0 /\
  execute_meta_instruction (branch_on [rule "launch" []]) state 0 = Err (UnknownMetaInstruction "launch") /\
  execute_meta_instruction (branch_on [set_x (JString "mul")]) state 0 = Err (UnknownOperation "mul").
Proof. split_and!; vm_compute; reflexivity. Qed.
Lemma nesting_off_by_one :
  vr_passed (validate_rules [nest 65]) = true /\
  execute_meta_instruction (nest 65) state 0 = Err (NestingTooDeep 64) /\
  (exists s, execute_meta_instruction (nest 64) state 0 = Ok (MState s)) /\
  vr_passed (validate_rules [nest 66]) = false.
Proof. split_and!; [vm_compute; reflexivity..| |vm_compute; reflexivity]. eexists. vm_compute. reflexivity. Qed.
