(* ===== verification/Cli.v ===== *)
(** The command-line tool, [evorule-cli/src/]: running rules to a fact log,
    reading and comparing logs, verifying a log's hash chain and structure,
    cutting off a half-written last line, verifying exported anchors.  Printed
    text is left out, except the lines a command is about. *)

From S2P Require Import Prelude ObjectMap Value Error Path Domain Executor Transition Fact Serde Hash Wal WalFile Signing.

(** * Errors, [error.rs] *)

(** [enum CliError]. *)
Inductive CliError : Type :=
| SentinelExit (code : Z)
| CliIo (message : string)
| CliJson (message : string)
| CliWal (e : WalError)
| RulesDirNotFound (dir : string)
| NoRulesFound (dir : string)
| InvalidPayload (message : string)
| FactLogParse (line : nat) (reason : string)
| HashChain (message : string)
| ExecutionHadErrors (count : nat)
| CliOther (message : string).
Definition show_usize (n : nat) : string := pretty (N.of_nat n).
Definition cli_error_display (e : CliError) : string :=
  match e with
  | SentinelExit code => "audit chain sentinel exit code " +:+ pretty code
  | CliIo m => "I/O error: " +:+ m
  | CliJson m => "JSON error: " +:+ m
  | CliWal e => "WAL error: " +:+ wal_error_display e
  | RulesDirNotFound dir => "Rules directory does not exist: " +:+ dir
  | NoRulesFound dir => "No .json files found in " +:+ dir
  | InvalidPayload m => "Invalid payload JSON: " +:+ m
  | FactLogParse line reason => "Fact log parse error at line " +:+ show_usize line +:+ ": " +:+ reason
  | HashChain m => "Hash chain verification failed: " +:+ m
  | ExecutionHadErrors count =>
      "Execution completed with " +:+ show_usize count +:+ " Error fact(s); fact log written for audit (exit code 3)"
  | CliOther m => m
  end.
Definition exit_code (e : CliError) : Z :=
  match e with
  | SentinelExit c => c
  | RulesDirNotFound _ | NoRulesFound _ => 2
  | ExecutionHadErrors _ => 3
  | _ => 1
  end.

(** * The loop, [executor.rs] *)

Definition DEFAULT_MAX_STEPS : nat := 100 * 100.

(** The variables of [execute]; its facts so far, its identifier generator. *)
Record CliRun : Type := mk_cli_run {
  cr_facts : list Fact;
  cr_ids : FactIdGenerator;
  cr_queue : list JsonValue;
  cr_payload : JsonValue;
  cr_steps : nat;
  cr_version : Z;
  cr_pending : gmap Z JsonValue;
  cr_cause : FactId;
}.
Definition cr_with_queue (r : CliRun) (queue : list JsonValue) (steps : nat) : CliRun :=
  mk_cli_run (cr_facts r) (cr_ids r) queue (cr_payload r) steps (cr_version r) (cr_pending r) (cr_cause r).
Definition cr_with_state (r : CliRun) (payload : JsonValue) (queue : list JsonValue) : CliRun :=
  mk_cli_run (cr_facts r) (cr_ids r) queue payload (cr_steps r) (u64_wrapping_add (cr_version r) 1)
    (cr_pending r) (cr_cause r).
Definition cr_with_pending (r : CliRun) (id : FactId) (instruction : JsonValue) : CliRun :=
  mk_cli_run (cr_facts r) (cr_ids r) (cr_queue r) (cr_payload r) (cr_steps r) (cr_version r)
    (<[id := instruction]> (cr_pending r)) (cr_cause r).
Definition cr_with_cause (r : CliRun) (cause : FactId) : CliRun :=
  mk_cli_run (cr_facts r) (cr_ids r) (cr_queue r) (cr_payload r) (cr_steps r) (cr_version r) (cr_pending r) cause.
(** [let id = id_gen.next_id(); facts.push(..)]; the identifier is returned. *)
Definition push_fact (r : CliRun) (fact : FactId -> Fact) : CliRun * FactId :=
  let '(id, ids) := next_id (cr_ids r) in
  (mk_cli_run (cr_facts r ++ [fact id]) ids (cr_queue r) (cr_payload r) (cr_steps r) (cr_version r)
     (cr_pending r) (cr_cause r), id).

Section Execute.
(** [{:?}] of an instruction. *)
Variable debug_json : JsonValue -> string.

(** The arms of the match on the result; [false] leaves the loop. *)
Definition on_result (r : CliRun) (instruction : JsonValue) (result : Result TransitionResult TcbError) :
    CliRun * bool :=
  match result with
  | Ok (TState new_payload new_queue _) =>
      let r := cr_with_state r new_payload new_queue in
      let '(r, id) := push_fact r (fun id => StateTransition id (cr_cause r) new_payload new_queue) in
      (cr_with_cause r id, true)
  | Ok (TIoRequired io_type params) =>
      let '(r, req_id) := push_fact r (fun id => IoRequest id (cr_cause r) io_type params) in
      let r := cr_with_pending r req_id instruction in
      let '(r, _) := push_fact r (fun id => FError id ("no I/O handler for io_type=" +:+ io_type)) in
      (r, false)
  | Ok (TIgnored instruction_type reason _) =>
      let '(r, _) := push_fact r (fun id => FError id
        ("Instruction ignored by TCB: type=" +:+ instruction_type +:+ ", reason=" +:+ reason
         +:+ ", instruction=" +:+ debug_json instruction)) in
      (r, false)
  | Ok (THalted rule_index reason) =>
      let '(r, _) := push_fact r (fun id => Violation id (cr_cause r) (Z.of_nat rule_index) reason instruction) in
      (r, true)
  | Err e =>
      let '(r, _) := push_fact r (fun id => FError id
        ("TCB error at step " +:+ show_usize (cr_steps r) +:+ ": " +:+ tcb_error_display e)) in
      (r, false)
  end.
(** The loop; it ends before [max_steps + 1] rounds
    ([cli_loop_total]). *)
Fixpoint cli_loop (fuel : nat) (core_eval : list JsonValue) (max_steps : nat) (r : CliRun) : option CliRun :=
  match fuel with
  | O => None
  | S fuel =>
      match cr_queue r with
      | [] => Some r
      | instruction :: queue =>
          if (max_steps <=? cr_steps r)%nat then
            Some (fst (push_fact r (fun id => FError id ("max_steps exceeded: " +:+ show_usize (cr_steps r)))))
          else
            let r := cr_with_queue r queue (S (cr_steps r)) in
            let result := execute_transition core_eval instruction (cr_payload r) queue in
            match on_result r instruction result with
            | (r, true) => cli_loop fuel core_eval max_steps r
            | (r, false) => Some r
            end
      end
  end.
Definition cli_start (initial_payload initial_instruction : JsonValue) : CliRun :=
  let r := mk_cli_run [] generator_new [initial_instruction] initial_payload 0 0%Z ∅ 0%Z in
  let '(r, cmd_id) := push_fact r (fun id => Command id initial_instruction) in
  cr_with_cause r cmd_id.
Definition cli_execute (core_eval : list JsonValue) (initial_payload initial_instruction : JsonValue)
    (max_steps : nat) : option (list Fact * JsonValue) :=
  let! r := cli_loop (S (S max_steps)) core_eval max_steps (cli_start initial_payload initial_instruction) in
  let '(r, _) := push_fact r (fun id => Stable id (cr_version r)) in
  Some (cr_facts r, cr_payload r).
End Execute.

(** * Fact logs, [fact_log.rs], and files, [io_util.rs] *)

Section Files.
Context {N : Type} `{SerdeNumber N, SerdeText N}.

(** [write_facts], up to the content that is written. *)
Fixpoint fact_lines (facts : list Fact) : Result (list string) CliError :=
  match facts with
  | [] => Ok []
  | f :: rest =>
      match serde_to_string (fact_to_json f) with
      | Err e => Err (CliJson e)
      | Ok line => let? lines := fact_lines rest in Ok (line :: lines)
      end
  end.
(** [parse_facts] on the lines of a file. *)
Fixpoint parse_facts_from (idx : nat) (lines : list string) : Result (list Fact) CliError :=
  match lines with
  | [] => Ok []
  | line :: rest =>
      let trimmed := trim line in
      if str_is_empty trimmed then parse_facts_from (S idx) rest
      else
        match serde_from_str trimmed with
        | Err e => Err (FactLogParse (idx + 1) ("JSON parse: " +:+ e))
        | Ok v =>
            match fact_from_json v with
            | Err e => Err (FactLogParse (idx + 1) ("Fact deserialize: " +:+ wal_error_display e))
            | Ok fact => let? facts := parse_facts_from (S idx) rest in Ok (fact :: facts)
            end
        end
  end.
Definition parse_facts (lines : list string) : Result (list Fact) CliError := parse_facts_from 0 lines.

Definition cli_extract_transforms (json : SValue N) : list (SValue N) :=
  match json with
  | SObject _ =>
      match s_get json "transform" with
      | Some (SArray arr) => arr
      | _ => match s_get json "transforms" with Some (SArray arr) => arr | _ => [json] end
      end
  | SArray arr => arr
  | _ => [json]
  end.
(** One rule file: its text, or the failure to read it. *)
Definition load_rules_file (path : string) (content : Result string string) : Result (list JsonValue) CliError :=
  match content with
  | Err e => Err (CliIo e)
  | Ok content =>
      match serde_from_str content with
      | Err e => Err (CliOther ("Invalid JSON in " +:+ path +:+ ": " +:+ e))
      | Ok json => Ok (map Wal.serde_to_tcb (cli_extract_transforms json))
      end
  end.
(** [load_rules] on the entries of a directory: [.json] files in the order of
    their names, [payload.json] left out in any case. *)
Definition ascii_lower (c : ascii) : ascii :=
  let n := nat_of_ascii c in if (65 <=? n)%nat && (n <=? 90)%nat then ascii_of_nat (n + 32) else c.
Fixpoint str_lower (s : string) : string :=
  match s with EmptyString => EmptyString | String c s => String (ascii_lower c) (str_lower s) end.
Definition is_rule_file (name : string) : bool :=
  String.eqb (extension (mk_path "" name)) "json" && negb (String.eqb (str_lower name) "payload.json").
Fixpoint insert_name {A} (e : string * A) (l : list (string * A)) : list (string * A) :=
  match l with
  | [] => [e]
  | x :: l' => if String.ltb (fst e) (fst x) then e :: l else x :: insert_name e l'
  end.
Definition sort_by_name {A} (l : list (string * A)) : list (string * A) :=
  fold_left (fun sorted e => insert_name e sorted) l [].
Fixpoint load_files (dir : string) (entries : list (string * Result string string)) :
    Result (list JsonValue) CliError :=
  match entries with
  | [] => Ok []
  | (name, content) :: rest =>
      let? rules := load_rules_file (dir +:+ name) content in
      let? others := load_files dir rest in Ok (rules ++ others)
  end.
Definition load_rules (dir : string) (entries : option (list (string * Result string string))) :
    Result (list JsonValue) CliError :=
  match entries with
  | None => Err (RulesDirNotFound dir)
  | Some entries =>
      let entries := sort_by_name (List.filter (fun e => is_rule_file (fst e)) entries) in
      match entries with
      | [] => Err (NoRulesFound dir)
      | _ => load_files dir entries
      end
  end.
Definition parse_initial_payload (payload_str : option string) (payload_file : option (string * Result string string)) :
    Result JsonValue CliError :=
  let raw :=
    match payload_str, payload_file with
    | Some s, _ => Ok (Some s)
    | None, Some (path, Ok s) => Ok (Some s)
    | None, Some (path, Err e) => Err (CliOther ("Failed to read payload file " +:+ path +:+ ": " +:+ e))
    | None, None => Ok None
    end in
  let? raw := raw in
  match raw with
  | Some s =>
      match serde_from_str s with
      | Err e => Err (InvalidPayload e)
      | Ok json => Ok (Wal.serde_to_tcb json)
      end
  | None => Ok empty_object
  end.

(** [commands/run.rs]: the lines written and the result. *)
Variable debug_json : JsonValue -> string.
Definition is_error_fact (f : Fact) : bool := match f with FError _ _ => true | _ => false end.
Definition noop : JsonValue := object_from_pairs [("type", JString "noop")].
Definition run_rules (transforms : Result (list JsonValue) CliError) (payload : Result JsonValue CliError)
    (max_steps : nat) : option (Result (list string * Result unit CliError) CliError) :=
  match transforms, payload with
  | Err e, _ => Some (Err e)
  | Ok _, Err e => Some (Err e)
  | Ok transforms, Ok initial_payload =>
      let! '(facts, _) := cli_execute debug_json transforms initial_payload noop max_steps in
      Some (let? lines := fact_lines facts in
            let error_count := length (List.filter is_error_fact facts) in
            Ok (lines, if (0 <? error_count)%nat then Err (ExecutionHadErrors error_count) else Ok tt))
  end.
End Files.

(** * Output and comparison, [output.rs] and [commands/diff.rs] *)

Definition fact_to_human (fact : Fact) : string :=
  let head id := "[F" +:+ pretty (id : Z) +:+ "] " in
  match fact with
  | Command id instruction =>
      head id +:+ "Command type=" +:+ default "?" (let! v := json_get instruction "type" in as_str v)
  | PayloadUpdate id path _ => head id +:+ "PayloadUpdate path=" +:+ path
  | StateTransition id cause _ _ => head id +:+ "StateTransition cause=F" +:+ pretty (cause : Z)
  | IoRequest id cause io_type _ =>
      head id +:+ "IoRequest cause=F" +:+ pretty (cause : Z) +:+ " io_type=" +:+ io_type
  | IoResponse id request_id _ error =>
      head id +:+ "IoResponse request_id=F" +:+ pretty (request_id : Z)
      +:+ match error with Some msg => " error=" +:+ msg | None => " ok" end
  | Stable id version => head id +:+ "Stable version=" +:+ pretty version
  | FError id message => head id +:+ "Error: " +:+ message
  | TransitionTrace id cause rule_hits =>
      head id +:+ "TransitionTrace cause=F" +:+ pretty (cause : Z) +:+ " hits="
      +:+ show_usize (length (List.filter th_hit rule_hits)) +:+ "/" +:+ show_usize (length rule_hits)
  | Violation id cause rule_index reason _ =>
      head id +:+ "Violation cause=F" +:+ pretty (cause : Z) +:+ " rule=" +:+ pretty rule_index +:+ " " +:+ reason
  end.
Definition facts_to_human (facts : list Fact) : string :=
  String.concat (String newline EmptyString) (map fact_to_human facts).
Definition format_diff_line (prefix content : string) : string := prefix +:+ " " +:+ content.
(** [compare_facts]: the printed lines and the number of differences. *)
Fixpoint compare_facts (facts_a facts_b : list Fact) : list string * nat :=
  match facts_a, facts_b with
  | fa :: la, fb :: lb =>
      let '(lines, n) := compare_facts la lb in
      if decide (fa = fb) then (lines, n)
      else (format_diff_line "[~]" (fact_to_human fa) :: format_diff_line "[~]" (fact_to_human fb) :: lines, S n)
  | fa :: la, [] =>
      let '(lines, n) := compare_facts la [] in (format_diff_line "[-]" (fact_to_human fa) :: lines, S n)
  | [], fb :: lb =>
      let fix only_b (lb : list Fact) : list string * nat :=
        match lb with
        | [] => ([], 0)
        | fb :: lb => let '(lines, n) := only_b lb in (format_diff_line "[+]" (fact_to_human fb) :: lines, S n)
        end in
      only_b (fb :: lb)
  | [], [] => ([], 0)
  end.

(** * Verification of a log, [commands/verify_chain.rs] *)

(** [verify_structural_invariants]: the violations. *)
Definition structural_cause (fact : Fact) : option FactId :=
  match fact with
  | StateTransition _ cause _ _ => Some cause
  | IoRequest _ cause _ _ => Some cause
  | _ => None
  end.
Definition monotonic_error (i : nat) (id prev : FactId) : string :=
  "fact[" +:+ show_usize i +:+ "]: id=" +:+ pretty (id : Z) +:+ " not strictly greater than prev id=" +:+ pretty (prev : Z)
  +:+ " (monotonicity violated)".
Definition cause_error (i : nat) (id c : FactId) : string :=
  "fact[" +:+ show_usize i +:+ "]: id=" +:+ pretty (id : Z) +:+ " references cause=F" +:+ pretty (c : Z)
  +:+ " which does not exist (cause must point to a prior fact)".
Fixpoint structural_errors (i : nat) (seen_ids : gset Z) (prev_id : option FactId) (facts : list Fact) : list string :=
  match facts with
  | [] => []
  | fact :: rest =>
      let id := fact_id fact in
      match prev_id with
      | Some prev => if (id <=? prev)%Z then [monotonic_error i id prev] else []
      | None => []
      end
      ++ match structural_cause fact with
         | Some c => if decide (c ∈ seen_ids) then [] else [cause_error i id c]
         | None => []
         end
      ++ structural_errors (S i) ({[id]} ∪ seen_ids) (Some id) rest
  end.
Definition verify_structural_invariants (facts : list Fact) : list string := structural_errors 0 ∅ None facts.
Definition verify_and_report_structural (facts : list Fact) : Result unit CliError :=
  match verify_structural_invariants facts with
  | [] => Ok tt
  | errors => Err (HashChain ("structural violations: " +:+ show_usize (length errors)))
  end.

Section VerifyChain.
Context {N : Type} `{SerdeNumber N, SerdeText N, Blake3}.

(** [verify_hash_chain_with_stored]. *)
Definition mismatch (i : nat) (id : FactId) (what : string) (stored : option string) (expected label : string) : CliError :=
  HashChain ("fact[" +:+ show_usize i +:+ "] (id=" +:+ pretty (id : Z) +:+ "): " +:+ what +:+ " mismatch (stored="
    +:+ default "none" stored +:+ ", " +:+ label +:+ "=" +:+ expected +:+ ")").
Definition verify_record (i : nat) (prev_hash : string) (r : WalRecord) : Result string CliError :=
  match fact_hash (N := N) (rec_fact r) with
  | Err e => Err (HashChain ("fact[" +:+ show_usize i +:+ "]: hash error: " +:+ hash_error_display e))
  | Ok content =>
      let id := fact_id (rec_fact r) in
      match rec_chain_hash r with
      | None => Ok (chain_step prev_hash content)
      | Some _ =>
          if negb (bool_decide (rec_content_hash r = Some content)) then
            Err (mismatch i id "content_hash" (rec_content_hash r) content "recomputed")
          else if negb (bool_decide (rec_prev_hash r = Some prev_hash)) then
            Err (mismatch i id "prev_hash" (rec_prev_hash r) prev_hash "expected")
          else
            let chain := chain_step prev_hash content in
            if negb (bool_decide (rec_chain_hash r = Some chain)) then
              Err (mismatch i id "chain_hash" (rec_chain_hash r) chain "recomputed")
            else Ok chain
      end
  end.
Fixpoint verify_stored_from (i : nat) (prev_hash : string) (records : list WalRecord) : Result unit CliError :=
  match records with
  | [] => Ok tt
  | r :: rest => let? prev_hash := verify_record i prev_hash r in verify_stored_from (S i) prev_hash rest
  end.
Definition verify_hash_chain_with_stored (records : list WalRecord) : Result unit CliError :=
  verify_stored_from 0 "genesis" records.

(** The shape of a file that could not be read as a write-ahead log. *)
Fixpoint looks_like_raw_fact_log (lines : list string) : bool :=
  match lines with
  | [] => false
  | line :: rest =>
      let trimmed := trim line in
      if str_is_empty trimmed then looks_like_raw_fact_log rest
      else
        match serde_from_str trimmed with
        | Err _ => false
        | Ok v => match s_get v "type" with Some (SString _) => true | _ => false end
        end
  end.
(** [run], given what [read_wal_with_hash] returned. *)
Definition verify_read (read : Result (list WalRecord) WalError) (lines : list string) : Result unit CliError :=
  match read with
  | Ok records =>
      let facts := map rec_fact records in
      let has_hash := existsb (fun r => is_some (rec_chain_hash r)) records in
      let? _u := if has_hash then verify_hash_chain_with_stored records else Ok tt in
      verify_and_report_structural facts
  | Err original =>
      if negb (looks_like_raw_fact_log lines) then Err (CliWal original)
      else
        let? facts := parse_facts (N := N) lines in
        verify_and_report_structural facts
  end.
Definition verify_chain (fs : Files) (path : WalPath) : option (Result unit CliError) :=
  let! read := read_wal_with_hash (N := N) fs path in Some (verify_read read (read_file fs path)).

(** * Cutting off a half-written line, [commands/truncate_partial_line.rs] *)

(** The three checks along a log; the sentinel makes the same ones. *)
Definition check_record (prev : string) (r : WalRecord) : Result string string :=
  let at_fact := " at fact " +:+ pretty (fact_id (rec_fact r) : Z) in
  match fact_hash (N := N) (rec_fact r) with
  | Err e => Err (hash_error_display e)
  | Ok content =>
      let differs (stored : option string) (computed : string) :=
        match stored with Some s => negb (String.eqb s computed) | None => false end in
      if differs (rec_content_hash r) content then Err ("content_hash mismatch" +:+ at_fact)
      else if differs (rec_prev_hash r) prev then Err ("chain broken" +:+ at_fact)
      else
        let chain := chain_step prev content in
        if differs (rec_chain_hash r) chain then Err ("chain_hash mismatch" +:+ at_fact)
        else Ok chain
  end.
Fixpoint check_records (prev : string) (records : list WalRecord) : Result string string :=
  match records with
  | [] => Ok prev
  | r :: rest => let? prev := check_record prev r in check_records prev rest
  end.

(** [data.iter().rposition(..)]: the bytes up to the last line break, with it,
    and those after it. *)
Fixpoint split_last_newline (data : string) : option (string * string) :=
  match data with
  | EmptyString => None
  | String c data' =>
      match split_last_newline data' with
      | Some (prefix, trailing) => Some (String c prefix, trailing)
      | None => if Ascii.eqb c newline then Some (String c EmptyString, data') else None
      end
  end.
(** [u8::is_ascii_whitespace]. *)
Definition is_ascii_whitespace (c : ascii) : bool :=
  match nat_of_ascii c with 9 | 10 | 12 | 13 | 32 => true | _ => false end.
(** The lines of a text, without a last empty one. *)
Fixpoint text_lines (s : string) : list string :=
  match s with
  | EmptyString => []
  | String c s' =>
      if Ascii.eqb c newline then EmptyString :: text_lines s'
      else match text_lines s' with
           | [] => [String c EmptyString]
           | l :: rest => String c l :: rest
           end
  end.
(** The outcome: nothing to do, or the bytes kept and, when confirmed, the
    backup written first. *)
Inductive Truncation : Type :=
| NothingToDo
| DryRun (prefix : string)
| Truncated (backup prefix : string).
(** The prefix is verified through a temporary file of its own. *)
Definition temp_path : WalPath := mk_path "" "evorule_truncate_prefix".
Definition truncate_partial_line (data : string) (confirm : bool) : option (Result Truncation CliError) :=
  match split_last_newline data with
  | None => Some (Err (CliOther "文件无完整行（无换行符），拒绝处理"))
  | Some (prefix, trailing) =>
      if str_all is_ascii_whitespace trailing then Some (Ok NothingToDo)
      else
        let! read := read_wal_with_hash (N := N) {[path_string temp_path := text_lines prefix]} temp_path in
        let verify :=
          match read with
          | Err e => Err (wal_error_display e)
          | Ok records => check_records "genesis" records
          end in
        Some match verify with
             | Err e => Err (CliOther ("前缀链验证 FAIL（截断无济于事，文件存在更早破坏）: " +:+ e))
             | Ok _ => Ok (if confirm then Truncated data prefix else DryRun prefix)
             end
  end.
End VerifyChain.

(** * Exported anchors, [commands/verify_anchors.rs] *)

Section VerifyAnchors.
Context {N : Type} `{SerdeNumber N, Ed25519}.

(** The copy of [signing.rs] the tool has; its messages are its own. *)
Definition cli_sign_error (msg : string) : CliError := CliOther ("audit signature: invalid input: " +:+ msg).
Definition cli_hex_decode (hex : string) : Result string CliError :=
  if negb (Nat.even (String.length hex)) then Err (cli_sign_error ("odd hex length: " +:+ show_usize (String.length hex)))
  else match hex_decode_loop hex with
       | Ok bytes => Ok bytes
       | Err _ => Err (cli_sign_error "hex contains non-hexadecimal characters")
       end.
Definition cli_verify_signature (verifying_bytes payload sig_bytes : string) : Result bool CliError :=
  match verifying_key_check verifying_bytes with
  | Err e => Err (cli_sign_error ("invalid public key: " +:+ e))
  | Ok _ => Ok (ed_verify verifying_bytes payload sig_bytes)
  end.

Definition anchor_field {A} (v : option A) (key : string) : Result A CliError :=
  ok_or v (CliOther ("Anchor missing '" +:+ key +:+ "'")).
Definition anchor_str (anchor : SValue N) (key : string) : Result string CliError :=
  anchor_field (let! v := s_get anchor key in s_as_str v) key.
Definition anchor_u64 (anchor : SValue N) (key : string) : Result Z CliError :=
  anchor_field (let! v := s_get anchor key in s_as_u64 v) key.
(** [pointer("/fact_range/..")]. *)
Definition anchor_range (anchor : SValue N) (key : string) : Result Z CliError :=
  anchor_field (let! r := s_get anchor "fact_range" in let! v := s_get r key in s_as_u64 v) ("fact_range." +:+ key).
Definition anchor_payload_v2 (anchor : SValue N) : Result string CliError :=
  let? lo := anchor_range anchor "lo" in
  let? hi := anchor_range anchor "hi" in
  let? session_id := anchor_str anchor "session_id" in
  let? seq := anchor_u64 anchor "seq" in
  let? chain_head := anchor_str anchor "chain_head" in
  let? key_id := anchor_str anchor "key_id" in
  let? engine_id := anchor_str anchor "engine_id" in
  let? logical_time := anchor_u64 anchor "logical_time" in
  Ok (String.concat "|" ["evorule-anchor/2"; session_id; pretty seq; pretty lo; pretty hi; chain_head; key_id;
        engine_id; pretty logical_time]).
Definition parse_pubkey (hex : string) : Result string CliError :=
  let? bytes := cli_hex_decode hex in
  if Nat.eqb (String.length bytes) 32 then Ok bytes
  else Err (CliOther ("Public key length != 32: " +:+ show_usize (String.length bytes))).
Definition verify_anchor (pk : string) (i : nat) (expect_lo : Z) (a : SValue N) : Result Z CliError :=
  let at_i := "Anchor [" +:+ show_usize i +:+ "] " in
  let? seq := anchor_u64 a "seq" in
  if negb (seq =? Z.of_nat i)%Z then
    Err (CliOther (at_i +:+ "seq broken: expected " +:+ show_usize i +:+ ", got " +:+ pretty seq))
  else
    let? lo := anchor_range a "lo" in
    let? hi := anchor_range a "hi" in
    if negb (lo =? expect_lo)%Z then
      Err (CliOther (at_i +:+ "fact range not seamless: expected lo=" +:+ pretty expect_lo +:+ ", got lo=" +:+ pretty lo))
    else
      let? payload := anchor_payload_v2 a in
      let? sig_hex := anchor_str a "signature" in
      let? sig_bytes := cli_hex_decode sig_hex in
      if negb (Nat.eqb (String.length sig_bytes) 64) then
        Err (CliOther (at_i +:+ "signature length != 64: " +:+ show_usize (String.length sig_bytes)))
      else
        let? ok := cli_verify_signature pk payload sig_bytes in
        if ok : bool then Ok hi
        else Err (CliOther (at_i +:+ "signature verification failed (tampered payload or wrong key)")).
Fixpoint verify_anchor_list (pk : string) (i : nat) (expect_lo : Z) (anchors : list (SValue N)) : Result unit CliError :=
  match anchors with
  | [] => Ok tt
  | a :: rest => let? hi := verify_anchor pk i expect_lo a in verify_anchor_list pk (S i) hi rest
  end.
Definition verify_value (parsed : SValue N) (pk : string) : Result nat CliError :=
  let? anchors := ok_or (let! v := s_get parsed "anchors" in s_as_array v)
    (CliOther "Document missing 'anchors' array") in
  match anchors with
  | [] => Ok 0
  | _ => let? _u := verify_anchor_list pk 0 0 anchors in Ok (length anchors)
  end.
Definition verify_anchors_document (parsed : SValue N) (pubkey_hex : option string) : Result nat CliError :=
  let? pk_hex :=
    match pubkey_hex with
    | Some hex => Ok hex
    | None =>
        ok_or (let! v := s_get parsed "verifying_key" in s_as_str v)
          (CliOther "No --pubkey provided and document has no embedded 'verifying_key'")
    end in
  let? pk := parse_pubkey pk_hex in
  verify_value parsed pk.
End VerifyAnchors.
