(* ===== verification/CliSpec.v ===== *)
(** Theorems about the command-line tool: the log a run writes is a sound fact
    log which the tool's own verification accepts; the verification of a hash
    chain agrees with the auditor; cutting off a partial line. *)

From S2P Require Import Prelude ObjectMap Value Error Path Domain Executor ExecSemantics Transition Fact Serde Hash Wal WalFile FactsLog FactsLogSpec Recovery Signing Anchor Auditor AuditorSpec AuditorStore Cli.

(** * Transitions keep values well formed *)

Definition wf_outcome (r : MetaInstructionResult) : Prop :=
  match r with
  | MState s => wf_json s = true
  | MIoRequired _ params => wf_json params = true
  | MHalted _ => True
  end.
Lemma exec_io_request_wf i s r :
  wf_json i = true -> wf_json s = true -> exec_io_request i s = Ok r -> wf_outcome r.
Proof.
  intros Hi Hs. unfold exec_io_request. destruct (json_get i "params") as [params|] eqn:Hp; cbn [ok_or]; [|done].
  destruct (ok_or _ _) as [io|]; [|done]. apply json_get_wf in Hp; [|done].
  destruct (as_object params) as [obj|] eqn:Ho; [|by intros [= <-]].
  destruct params; try done. injection Ho as ->. apply wf_JObject in Hp as [_ Hobj].
  destruct (io_params s obj map_new) as [m|] eqn:Hm; [|done]. intros [= <-]. cbn [wf_outcome].
  by apply (io_params_wf s obj map_new m).
Qed.
Lemma exec_sem_wf :
  (forall i s r n h, exec_sem i s r n h -> wf_json i = true -> wf_json s = true -> wf_outcome r) /\
  (forall l s r n h, seq_sem l s r n h -> Forall (fun i => wf_json i = true) l -> wf_json s = true -> wf_outcome r).
Proof.
  apply exec_seq_ind.
  - intros i s s' _ He Hi Hs. exact (exec_set_wf _ _ _ Hi Hs He).
  - intros i s s' _ He Hi Hs. exact (exec_push_wf _ _ _ Hi Hs He).
  - intros i s r _ He Hi Hs. exact (exec_io_request_wf _ _ _ Hi Hs He).
  - intros i s r attr _ He Hi Hs. unfold exec_enforce in He. destruct (ok_or _ _) as [params|]; [|done].
    destruct (resolve_path_or_literal s _) as [domain|]; [|done].
    destruct (evaluate_domain_outcome domain s) as [outcome|]; [|done].
    destruct (negb (to_bool outcome)); [by injection He as <- <-|].
    destruct (ok_or _ _) as [reason|]; [|done]. by injection He as <- <-.
  - intros i s domain outcome r n h _ _ _ IH Hi Hs. apply IH; [by apply chosen_branch_wf|done].
  - by intros s _ Hs.
  - intros i l s s1 r n1 h1 n2 h2 _ IH1 _ IH2 [Hi Hl]%Forall_cons Hs. apply IH2; [done|]. by apply IH1.
  - intros i l s r n h _ IH _ [Hi Hl]%Forall_cons Hs. by apply IH.
Qed.
Lemma transition_wf core_eval instruction payload queue res :
  Forall (fun i => wf_json i = true) core_eval -> wf_json instruction = true -> wf_json payload = true ->
  Forall (fun i => wf_json i = true) queue ->
  execute_transition core_eval instruction payload queue = Ok res ->
  match res with
  | TState new_payload new_queue _ => wf_json new_payload = true /\ Forall (fun i => wf_json i = true) new_queue
  | TIoRequired _ params => wf_json params = true
  | THalted i _ => i < MAX_TRANSFORM_RULES
  | TIgnored _ _ _ => True
  end.
Proof.
  intros Hr Hi Hp Hq. unfold execute_transition. destruct (Nat.ltb_spec MAX_TRANSFORM_RULES (length core_eval)); [done|].
  cbv zeta. destruct (enforce_gate _ 0 core_eval _ []) as [[t|[b enforce_hits]]|e] eqn:Hg; [..|done].
  { apply enforce_gate_spec in Hg as (k & rule & reason & n & h & -> & Hk & _). intros [= <-].
    apply lookup_lt_Some in Hk. cbn. lia. }
  apply enforce_gate_spec in Hg as (Hb & _).
  destruct (transform_loop _ 0 core_eval b []) as [[t|[state hits]]|e] eqn:Ht; [..|done]; apply transform_loop_spec in Ht.
  - destruct Ht as (r & n & h & Hs & _ & Ht). intros [= <-].
    assert (wf_outcome r) as Hw.
    { eapply exec_sem_wf; [exact Hs| |by apply build_exec_state_wf]. apply List.Forall_forall.
      intros x [Hx _]%filter_In. rewrite List.Forall_forall in Hr. auto. }
    destruct t; try done; [by subst|]. destruct Ht as (_ & k & rule & -> & Hk & _). apply lookup_lt_Some in Hk. lia.
  - destruct Ht as ((n & h & Hs & Hn) & _).
    assert (transforms_finish core_eval instruction payload queue state) as Hf by (exists n, h; split; [done|lia]).
    destruct (transforms_finish_payload _ _ _ _ Hr Hi Hp Hq _ Hf) as (p & Hpay & Hpwf).
    destruct (transforms_finish_queue _ _ _ _ Hr Hi Hp Hq _ Hf) as (pushed & Hque & Hqwf).
    rewrite !resolve_path_denotes, denotes_payload, denotes_queue, Hpay, Hque. cbn [ok_or as_array].
    case_match; intros [= <-]; [done|]. done.
Qed.

(** * Sound fact logs *)

Definition is_transition (f : Fact) : bool := match f with StateTransition _ _ _ _ => true | _ => false end.
Definition transitions (facts : list Fact) : nat := length (List.filter is_transition facts).
Definition last_payload (payload : JsonValue) (facts : list Fact) : JsonValue :=
  fold_left (fun p f => match f with StateTransition _ _ new_payload _ => new_payload | _ => p end) facts payload.
(** Identifiers from 1 on, without gaps; causes point back. *)
Definition causes_back (f : Fact) : Prop := forall c, structural_cause f = Some c -> (1 <= c < fact_id f)%Z.
Record sound_facts (facts : list Fact) : Prop := {
  sf_ids : map fact_id facts = seqZ 1 (Z.of_nat (length facts));
  sf_causes : Forall causes_back facts;
}.
Lemma sound_snoc facts f :
  sound_facts facts -> fact_id f = (Z.of_nat (length facts) + 1)%Z -> causes_back f -> sound_facts (facts ++ [f]).
Proof.
  intros [Hi Hc] Hf Hb. split; [|apply Forall_app; by split; [|constructor]].
  rewrite map_app, Hi, length_app, Nat2Z.inj_add, seqZ_app by lia. f_equal. cbn [map]. rewrite Hf.
  change (Z.of_nat (length [f])) with 1%Z. unfold seqZ. change (Z.to_nat 1) with 1. cbn [seq fmap list_fmap]. f_equal. lia.
Qed.
Lemma structural_errors_nil facts k i seen prev :
  map fact_id facts = seqZ k (Z.of_nat (length facts)) -> Forall causes_back facts ->
  (forall c, 1 <= c < k -> c ∈ seen)%Z -> (forall p, prev = Some p -> p < k)%Z ->
  structural_errors i seen prev facts = [].
Proof.
  revert k i seen prev. induction facts as [|f facts IH]; intros k i seen prev Hi Hc Hs Hp; [done|].
  cbn [length map] in Hi. rewrite Nat2Z.inj_succ, seqZ_cons in Hi by lia. injection Hi as Hf Hi.
  rewrite Z.pred_succ in Hi. apply Forall_cons in Hc as [Hb Hc]. cbn [structural_errors].
  assert (forall p, prev = Some p -> (fact_id f <=? p)%Z = false) as Hmono.
  { intros p Hprev. specialize (Hp p Hprev). apply Z.leb_gt. lia. }
  assert (forall c, structural_cause f = Some c -> c ∈ seen) as Hseen.
  { intros c Hcf. specialize (Hb c Hcf). apply Hs. lia. }
  assert (forall A (x y : list A), x = [] -> y = [] -> x ++ y = []) as Happ by (by intros A x y -> ->).
  apply Happ; [|apply Happ].
  { destruct prev as [p|]; [|done]. by rewrite (Hmono p). }
  { destruct (structural_cause f) as [c|]; [|done]. rewrite decide_True; [done|by apply Hseen]. }
  apply (IH (Z.succ k)); [done..| |].
  - intros c Hck. rewrite Hf. destruct (decide (c = k)) as [->|]; [set_solver|]. apply elem_of_union_r, Hs. lia.
  - intros p [= <-]. lia.
Qed.
Lemma sound_verifies facts : sound_facts facts -> verify_structural_invariants facts = [].
Proof. intros [Hi Hc]. apply (structural_errors_nil facts 1); [done..|lia|done]. Qed.

(** The structure the verification asks for: increasing identifiers, and each
    cause the identifier of an earlier fact. *)
Definition well_structured (facts : list Fact) : Prop :=
  StronglySorted Z.lt (map fact_id facts) /\
  forall i f c, facts !! i = Some f -> structural_cause f = Some c -> c ∈ map fact_id (take i facts).
Lemma structural_errors_exact i seen prev facts :
  structural_errors i seen prev facts = [] <->
  Sorted Z.lt (match prev with Some p => [p] | None => [] end ++ map fact_id facts) /\
  forall j f c, facts !! j = Some f -> structural_cause f = Some c -> c ∈ seen \/ c ∈ map fact_id (take j facts).
Proof.
  revert i seen prev. induction facts as [|f facts IH]; intros i seen prev.
  { split; [|done]. intros _. split; [destruct prev; repeat constructor|]. by intros [|j]. }
  cbn [structural_errors]. rewrite !app_nil, IH. split.
  - intros (Hm & Hc & Hs & Hrest). split.
    + destruct prev as [p|]; [|done]. destruct (Z.leb_spec (fact_id f) p); [done|]. cbn in *. constructor; [done|].
      by constructor.
    + intros [|j] g c Hg Hgc.
      * injection Hg as ->. rewrite Hgc in Hc. left. by destruct (decide (c ∈ seen)).
      * destruct (Hrest j g c Hg Hgc) as [Hin|Hin]; [set_solver|]. right. cbn. set_solver.
  - intros [Hs Hrest]. split_and!.
    + destruct prev as [p|]; [|done]. cbn in Hs. inv Hs as [|? ? _ Hh]. inv Hh.
      destruct (Z.leb_spec (fact_id f) p); [lia|done].
    + destruct (structural_cause f) as [c|] eqn:Hc; [|done].
      destruct (Hrest 0 f c eq_refl Hc) as [|Hin]; [by rewrite decide_True|]. by apply elem_of_nil in Hin.
    + destruct prev as [p|]; [|done]. by inv Hs.
    + intros j g c Hg Hgc. destruct (Hrest (S j) g c Hg Hgc) as [Hin|Hin]; [set_solver|]. cbn in Hin. set_solver.
Qed.
Lemma verify_structural_exact facts : verify_structural_invariants facts = [] <-> well_structured facts.
Proof.
  unfold verify_structural_invariants, well_structured. rewrite structural_errors_exact. cbn [app].
  assert (Sorted Z.lt (map fact_id facts) <-> StronglySorted Z.lt (map fact_id facts)) as ->.
  { split; [apply Sorted_StronglySorted; intros x y z; lia|apply StronglySorted_Sorted]. }
  split; intros [Hs Hc]; (split; [done|]); intros i f c Hf Hfc; [|by right; eapply Hc].
  destruct (Hc i f c Hf Hfc) as [Hin|]; [set_solver|done].
Qed.

(** * The loop *)

Ltac wf_fact := intros; unfold wf_fact; cbn [fact_id]; rewrite ?andb_true_iff; split_and!; try done.

Section Loop.
Variable debug_json : JsonValue -> string.
Variables (core_eval : list JsonValue) (payload0 instruction0 : JsonValue) (max_steps : nat).
Context (Hcore : Forall (fun i => wf_json i = true) core_eval).
Context (Hbound : (Z.of_nat max_steps + 5 <= u64_max)%Z).

(** The log and the identifiers of a run of at most [k] facts; its state. *)
Record log_part (k : nat) (r : CliRun) : Prop := {
  lp_sound : sound_facts (cr_facts r);
  lp_next : gen_next (cr_ids r) = (Z.of_nat (length (cr_facts r)) + 1)%Z;
  lp_cause : (1 <= cr_cause r <= Z.of_nat (length (cr_facts r)))%Z;
  lp_len : length (cr_facts r) <= k;
  lp_wf : forallb wf_fact (cr_facts r) = true;
  lp_head : head (cr_facts r) = Some (Command 1%Z instruction0);
}.
Record state_part (r : CliRun) : Prop := {
  sp_version : cr_version r = Z.of_nat (transitions (cr_facts r));
  sp_steps : transitions (cr_facts r) <= cr_steps r;
  sp_payload : cr_payload r = last_payload payload0 (cr_facts r);
  sp_wf : wf_json (cr_payload r) = true;
  sp_queue : Forall (fun i => wf_json i = true) (cr_queue r);
}.
Lemma push_log k r f :
  log_part k r -> k <= max_steps + 3 ->
  let id := (Z.of_nat (length (cr_facts r)) + 1)%Z in
  fact_id (f id) = id -> (forall c, structural_cause (f id) = Some c -> c = cr_cause r) ->
  (is_u64 id = true -> is_u64 (cr_cause r) = true -> wf_fact (f id) = true) ->
  log_part (S k) (fst (push_fact r f)) /\ snd (push_fact r f) = id /\
  cr_facts (fst (push_fact r f)) = cr_facts r ++ [f id].
Proof.
  intros [] Hk id Hid Hc Hwf. unfold push_fact, next_id. rewrite lp_next0. fold id. cbn [fst snd cr_facts].
  split; [|done]. assert (is_u64 id = true /\ is_u64 (cr_cause r) = true) as [Hu Hv].
  { rewrite !is_u64_spec. unfold u64_max in *. lia. }
  split; cbn [cr_facts cr_ids cr_cause]; rewrite ?length_app; cbn [length].
  - apply sound_snoc; [done..|]. intros c ->%Hc. rewrite Hid. unfold id. lia.
  - cbn. unfold u64_wrapping_add. rewrite Z.mod_small; [unfold id; lia|]. unfold id, u64_max in *. lia.
  - lia.
  - lia.
  - rewrite forallb_app, lp_wf0. cbn. by rewrite Hwf.
  - by destruct (cr_facts r).
Qed.
Lemma push_state k r f :
  log_part k r -> (forall id, is_transition (f id) = false) -> state_part r -> state_part (fst (push_fact r f)).
Proof.
  intros [] Hf []. unfold push_fact, next_id. rewrite lp_next0. cbn [fst].
  split; cbn [cr_facts cr_version cr_steps cr_payload cr_queue]; try done.
  - unfold transitions. rewrite List.filter_app. cbn. by rewrite Hf, app_nil_r.
  - unfold transitions. rewrite List.filter_app. cbn. by rewrite Hf, app_nil_r.
  - unfold last_payload. rewrite fold_left_app. cbn. specialize (Hf (Z.of_nat (length (cr_facts r)) + 1)%Z).
    by destruct (f _).
Qed.
(** An arm that only pushes a fact. *)
Lemma push_other k r f :
  log_part k r -> state_part r -> k <= max_steps + 3 -> (forall id, fact_id (f id) = id) ->
  (forall id, is_transition (f id) = false) ->
  (forall id c, structural_cause (f id) = Some c -> c = cr_cause r) ->
  (forall id, is_u64 id = true -> is_u64 (cr_cause r) = true -> wf_fact (f id) = true) ->
  log_part (S k) (fst (push_fact r f)) /\ state_part (fst (push_fact r f)) /\
  cr_steps (fst (push_fact r f)) = cr_steps r /\ cr_cause (fst (push_fact r f)) = cr_cause r.
Proof.
  intros Hl Hs Hk Hid Ht Hc Hwf. split; [exact (proj1 (push_log k r f Hl Hk (Hid _) (Hc _) (Hwf _)))|]. split; [by eapply push_state|].
  unfold push_fact. by destruct (next_id (cr_ids r)).
Qed.
Lemma on_result_inv r instruction result :
  log_part (cr_steps r) r -> state_part r -> cr_steps r <= max_steps -> wf_json instruction = true ->
  transitions (cr_facts r) < cr_steps r ->
  match result with
  | Ok (TState new_payload new_queue _) => wf_json new_payload = true /\ Forall (fun i => wf_json i = true) new_queue
  | Ok (TIoRequired _ params) => wf_json params = true
  | Ok (THalted i _) => i < MAX_TRANSFORM_RULES
  | _ => True
  end ->
  let '(r', go) := on_result debug_json r instruction result in
  log_part (cr_steps r + 2) r' /\ state_part r' /\ cr_steps r' = cr_steps r /\
  (go = true -> log_part (S (cr_steps r)) r').
Proof.
  intros Hl Hs Hle Hi Hlt Hres.
  assert (forall k r', log_part k r' -> forall k', k <= k' -> log_part k' r') as Hmono by (intros ? ? []; split; try done; lia).
  destruct result as [[new_payload new_queue hits|io params|i reason|ty why hits]|e]; cbn [on_result].
  - destruct Hres as [Hp Hq].
    destruct (push_log (cr_steps r) (cr_with_state r new_payload new_queue)
      (fun id => StateTransition id (cr_cause r) new_payload new_queue)) as (Hl' & Hid & Hf).
    { by destruct Hl. } { lia. } { done. } { by intros c [= <-]. }
    { wf_fact. apply forallb_forall. exact (proj1 (List.Forall_forall _ _) Hq). }
    destruct (push_fact (cr_with_state r new_payload new_queue) _) as [r' id] eqn:Hr'. cbn [fst snd] in *.
    unfold push_fact in Hr'. destruct (next_id _) as [id' ids]. injection Hr' as <- <-. cbn [cr_facts cr_with_state] in *.
    assert (log_part (S (cr_steps r)) (cr_with_cause (mk_cli_run (cr_facts r ++
      [StateTransition id' (cr_cause r) new_payload new_queue]) ids new_queue new_payload (cr_steps r)
      (u64_wrapping_add (cr_version r) 1) (cr_pending r) (cr_cause r)) id')) as Hl2.
    { destruct Hl'. split; try done. cbn [cr_facts cr_with_cause cr_cause cr_with_state] in *.
      rewrite length_app. cbn [length]. lia. }
    split; [eapply Hmono; [exact Hl2|lia]|]. split; [|done]. destruct Hs. split; cbn [cr_facts cr_version cr_steps cr_payload cr_queue cr_with_cause].
    + unfold transitions in *. rewrite List.filter_app, length_app, sp_version0. cbn [List.filter is_transition length].
      unfold u64_wrapping_add. rewrite Z.mod_small; [lia|]. unfold u64_max in *. lia.
    + unfold transitions in *. rewrite List.filter_app, length_app. cbn. lia.
    + unfold last_payload. by rewrite fold_left_app.
    + done.
    + done.
  - destruct (push_other (cr_steps r) r (fun id => IoRequest id (cr_cause r) io params)) as (Hl1 & Hs1 & Hst1 & Hc1); try done.
    { lia. } { by intros id c [= <-]. } { intros id. wf_fact. }
    destruct (push_fact r _) as [r1 req]. cbn [fst] in *.
    destruct (push_other (S (cr_steps r)) (cr_with_pending r1 req instruction)
      (fun id => FError id ("no I/O handler for io_type=" +:+ io))) as (Hl2 & Hs2 & Hst2 & _).
    { by destruct Hl1. } { by destruct Hs1. } { lia. } { done. } { done. } { done. } { intros id. wf_fact. }
    destruct (push_fact (cr_with_pending r1 req instruction) _) as [r2 e]. cbn [fst] in *.
    split; [eapply Hmono; [exact Hl2|lia]|]. split; [done|]. split; [cbn in Hst2; congruence|done].
  - destruct (push_other (cr_steps r) r (fun id => Violation id (cr_cause r) (Z.of_nat i) reason instruction))
      as (Hl1 & Hs1 & Hst1 & _); try done.
    { lia. } { intros id. wf_fact. apply is_u64_spec. unfold MAX_TRANSFORM_RULES, u64_max in *. lia. }
    destruct (push_fact r _) as [r1 id]. cbn [fst] in *. split; [eapply Hmono; [exact Hl1|lia]|done].
  - destruct (push_other (cr_steps r) r (fun id => FError id
        ("Instruction ignored by TCB: type=" +:+ ty +:+ ", reason=" +:+ why
         +:+ ", instruction=" +:+ debug_json instruction))) as (Hl1 & Hs1 & Hst1 & _); try done.
    { lia. } { intros id. wf_fact. }
    destruct (push_fact r _) as [r1 id]. cbn [fst] in *. split; [eapply Hmono; [exact Hl1|lia]|done].
  - destruct (push_other (cr_steps r) r (fun id => FError id
        ("TCB error at step " +:+ show_usize (cr_steps r) +:+ ": " +:+ tcb_error_display e)))
      as (Hl1 & Hs1 & Hst1 & _); try done.
    { lia. } { intros id. wf_fact. }
    destruct (push_fact r _) as [r1 id]. cbn [fst] in *. split; [eapply Hmono; [exact Hl1|lia]|done].
Qed.
(** The loop ends, and keeps both parts. *)
Lemma cli_loop_total fuel r :
  log_part (S (cr_steps r)) r -> state_part r -> cr_steps r <= max_steps -> max_steps - cr_steps r < fuel ->
  exists r', cli_loop debug_json fuel core_eval max_steps r = Some r' /\ log_part (max_steps + 3) r' /\ state_part r' /\
    cr_steps r' <= max_steps.
Proof.
  revert r. induction fuel as [|fuel IH]; intros r Hl Hs Hle Hf; [lia|]. cbn [cli_loop].
  assert (forall k r', log_part k r' -> forall k', k <= k' -> log_part k' r') as Hmono by (intros ? ? []; split; try done; lia).
  destruct (cr_queue r) as [|instruction queue] eqn:Hq.
  { exists r. split; [done|]. split; [eapply Hmono; [exact Hl|lia]|done]. }
  pose proof (sp_queue r Hs) as Hwq. rewrite Hq in Hwq. apply Forall_cons in Hwq as [Hi Hwq].
  destruct (Nat.leb_spec max_steps (cr_steps r)).
  { destruct (push_other (S (cr_steps r)) r (fun id => FError id ("max_steps exceeded: " +:+ show_usize (cr_steps r))))
      as (Hl1 & Hs1 & Hst1 & _); try done; [lia|intros id; wf_fact|].
    eexists. split; [reflexivity|]. split; [eapply Hmono; [exact Hl1|lia]|]. split; [done|]. lia. }
  set (r1 := cr_with_queue r queue (S (cr_steps r))).
  assert (log_part (cr_steps r1) r1) as Hl1 by (by destruct Hl).
  assert (state_part r1) as Hs1 by (pose proof (sp_steps r Hs); destruct Hs; split; cbn [r1 cr_with_queue cr_version cr_facts cr_steps cr_payload cr_queue]; try done; lia).
  assert (transitions (cr_facts r1) < cr_steps r1) as Hlt by (pose proof (sp_steps r Hs); unfold r1; cbn [cr_with_queue cr_facts cr_steps]; lia).
  pose proof (on_result_inv r1 instruction (execute_transition core_eval instruction (cr_payload r) queue) Hl1 Hs1
    ltac:(cbn; lia) Hi Hlt) as Hinv.
  cbv zeta. fold r1. destruct (on_result debug_json r1 instruction _) as [r2 go].
  destruct Hinv as (Hl2 & Hs2 & Hst & Hgo).
  { destruct (execute_transition core_eval instruction (cr_payload r) queue) as [res|e] eqn:He; [|done].
    pose proof (transition_wf _ _ _ _ _ Hcore Hi (sp_wf r Hs) Hwq He) as Hw. by destruct res. }
  cbn [cr_steps r1 cr_with_queue] in Hst. destruct go.
  - apply IH; [rewrite Hst; by apply Hgo|done|lia|lia].
  - exists r2. split; [done|]. split; [eapply Hmono; [exact Hl2|cbn; lia]|]. split; [done|lia].
Qed.
End Loop.

Lemma cli_execute_sound debug_json core_eval payload instruction max_steps :
  Forall (fun i => wf_json i = true) core_eval -> wf_json payload = true -> wf_json instruction = true ->
  (Z.of_nat max_steps + 5 <= u64_max)%Z ->
  exists facts final, cli_execute debug_json core_eval payload instruction max_steps = Some (facts, final) /\
    sound_facts facts /\ forallb wf_fact facts = true /\ head facts = Some (Command 1%Z instruction) /\
    last facts = Some (Stable (Z.of_nat (length facts)) (Z.of_nat (transitions facts))) /\
    transitions facts <= max_steps /\ final = last_payload payload facts.
Proof.
  intros Hcore Hp Hi Hbound. unfold cli_execute.
  destruct (cli_loop_total debug_json core_eval payload instruction max_steps Hcore Hbound (S (S max_steps))
    (cli_start payload instruction)) as (r & Hr & Hl & Hs & Hle).
  - split; [split; [done|by constructor]|done|cbn; lia|cbn; lia| |done]. 
    change (forallb wf_fact [Command 1%Z instruction] = true). cbn [forallb]. rewrite andb_true_r. wf_fact.
  - split; cbn; try done. by constructor.
  - cbn. lia.
  - cbn. lia.
  - rewrite Hr. pose proof (sp_version _ r Hs) as Hv. pose proof (sp_steps _ r Hs) as Hst.
    destruct (push_log instruction max_steps Hbound (max_steps + 3) r (fun id => Stable id (cr_version r)) Hl)
      as (Hl' & Hid & Hf); [lia|done|done| |].
    { wf_fact. rewrite Hv. apply is_u64_spec. unfold u64_max in *. lia. }
    pose proof (push_state payload instruction (max_steps + 3) r (fun id => Stable id (cr_version r)) Hl ltac:(done) Hs) as Hs'.
    destruct (push_fact r _) as [r' id]. cbn [fst snd] in *.
    assert (transitions (cr_facts r') = transitions (cr_facts r)) as Ht.
    { rewrite Hf. unfold transitions. by rewrite List.filter_app, app_nil_r. }
    exists (cr_facts r'), (cr_payload r'). split; [done|]. split; [apply Hl'|]. split; [apply Hl'|]. split; [apply Hl'|].
    split; [|split; [lia|apply Hs']]. rewrite Ht, <- Hv. rewrite Hf at 1. rewrite last_snoc. f_equal. f_equal.
    rewrite Hf, length_app. cbn [length]. lia.
Qed.

(** * What a run writes is read back and verified *)

Lemma trim_end_fixed s : trim s = s -> trim_end s = s.
Proof.
  unfold trim. intros Hs. destruct (strip_all_suffix (String.length s) whitespace s) as [t Ht].
  fold (trim_start s) in Ht. set (a := trim_start s) in *.
  destruct (strip_all_suffix (String.length a) (map str_rev whitespace) (str_rev a)) as [u Hu].
  apply (f_equal str_rev) in Hu. rewrite str_rev_app, str_rev_involutive in Hu. fold (trim_end a) in Hu. rewrite Hs in Hu.
  assert (String.length t = 0) as Htl.
  { apply (f_equal String.length) in Ht, Hu. rewrite str_app_length in Ht, Hu. lia. }
  destruct t; [|done]. change ("" +:+ a) with a in Ht. by rewrite <- Ht in Hs.
Qed.

Section Written.
Context {N : Type} `{SerdeNumberLaws N, SerdeText N, !SerdeTextLaws N, Blake3}.

Definition line_of (f : Fact) (line : string) : Prop := serde_to_string (fact_to_json (N := N) f) = Ok line.
Lemma fact_lines_total facts : exists lines, fact_lines (N := N) facts = Ok lines /\ Forall2 line_of facts lines.
Proof.
  induction facts as [|f facts (lines & Hl & Hf)]; [by exists []|]. cbn.
  destruct (to_string_total (fact_to_json (N := N) f)) as [line Hline]. rewrite Hline, Hl. eexists. split; [done|].
  by constructor.
Qed.
(** A fact that the parser reads back from its line. *)
Definition shallow_fact (f : Fact) : bool := shallow (fact_to_json (N := N) f).
Lemma parse_line f line : wf_fact f = true -> line_of f line ->
  trim line = line /\ str_is_empty line = false /\
  if shallow_fact f then serde_from_str line = Ok (fact_to_json (N := N) f)
  else exists e, serde_from_str (N := N) line = Err e.
Proof.
  intros Hwf Hl. destruct (to_string_trimmed _ _ Hl) as [Ht He]. split_and!; [done..|].
  pose proof (fact_to_json_wf (N := N) f Hwf) as Hj. destruct (shallow_fact f) eqn:Hd.
  - by eapply from_to_string.
  - by eapply from_to_string_deep.
Qed.
Lemma parse_facts_lines facts lines idx :
  forallb wf_fact facts = true -> Forall2 line_of facts lines ->
  if forallb shallow_fact facts then parse_facts_from (N := N) idx lines = Ok (map norm_fact facts)
  else exists e, parse_facts_from (N := N) idx lines = Err e.
Proof.
  intros Hwf Hl. revert idx Hwf. induction Hl as [|f line facts lines Hline Hl IH]; intros idx Hwf; [done|].
  apply andb_true_iff in Hwf as [Hf Hwf]. destruct (parse_line f line Hf Hline) as (Ht & He & Hv).
  cbn [parse_facts_from forallb]. rewrite Ht, He. destruct (shallow_fact f); cbn [andb].
  - rewrite Hv, fact_from_json_to_json by done. specialize (IH (S idx) Hwf).
    destruct (forallb shallow_fact facts); [by rewrite IH|]. destruct IH as [e ->]. by eexists.
  - destruct Hv as [e ->]. by eexists.
Qed.
Lemma fact_json_fields f :
  s_get (fact_to_json (N := N) f) "version_before" = None /\ exists ty, s_get (fact_to_json (N := N) f) "type" = Some (SString ty).
Proof.
  unfold fact_to_json. rewrite !s_get_object. destruct f; (split; [reflexivity|eexists; reflexivity]).
Qed.
Lemma norm_sound facts : sound_facts facts -> sound_facts (map norm_fact facts).
Proof.
  assert (forall f, fact_id (norm_fact f) = fact_id f /\ structural_cause (norm_fact f) = structural_cause f) as Hn by by intros [].
  intros [Hi Hc]. split.
  - rewrite length_map, <- Hi, map_map. apply map_ext. intros f. apply Hn.
  - apply Forall_map. eapply Forall_impl; [exact Hc|]. intros f Hb c. destruct (Hn f) as [-> ->]. apply Hb.
Qed.
(** A log of bare facts: the reader of the write-ahead log refuses it, the
    tool then reads it as facts. *)
Lemma verify_raw_log fs path facts lines :
  facts <> [] -> sound_facts facts -> forallb wf_fact facts = true -> Forall2 line_of facts lines ->
  fs !! path_string path = Some lines ->
  if forallb shallow_fact facts then verify_chain (N := N) fs path = Some (Ok tt)
  else exists e, verify_chain (N := N) fs path = Some (Err e).
Proof.
  intros Hne Hsound Hwf Hl Hfs. unfold verify_chain, read_wal_with_hash, read_all.
  assert (read_file fs path = lines) as Hread by (unfold read_file; by rewrite Hfs).
  assert (path_exists fs path = true) as -> by (unfold path_exists; by rewrite Hfs).
  pose proof (parse_facts_lines facts lines 0 Hwf Hl) as Hparse.
  destruct Hl as [|f line facts' lines' Hline Hl]; [done|]. pose proof Hwf as [Hf _]%andb_true_iff.
  destruct (parse_line f line Hf Hline) as (Ht & He & Hv).
  destruct (fact_json_fields f) as [Hno [ty Hty]].
  assert (is_format_header line = false) as Hh.
  { unfold is_format_header. rewrite Ht. apply String.eqb_neq. intros Heq.
    assert (contains "type" line = true) as Hk by (eapply to_string_key; [exact Hline|exact Hty|done]).
    rewrite Heq in Hk. by vm_compute in Hk. }
  assert (strip_cr line = line) as Hcr by (eapply strip_cr_printable, to_string_no_control, Hline).
  assert (detect_format_downgrade fs path = Ok tt) as ->.
  { unfold detect_format_downgrade. rewrite Hread. cbn [head default from_option id]. rewrite trim_end_fixed by done. by rewrite Hh. }
  assert (exists e, read_wal_file_with_hash (N := N) fs path 0 = Err e) as [e ->].
  { unfold read_wal_file_with_hash, parse_wal_records_counted. rewrite Hread. cbn [parse_lines]. rewrite Hcr, Ht, He, Hh.
    rewrite andb_false_r. unfold parse_wal_line. destruct (shallow_fact f); [rewrite Hv, Hno|destruct Hv as [? ->]]; by eexists. }
  cbn [verify_read]. rewrite Hread. cbn [looks_like_raw_fact_log forallb] in *. rewrite Ht, He.
  destruct (shallow_fact f); cbn [andb] in *; [|destruct Hv as [? ->]; by eexists].
  rewrite Hv, Hty. cbn [negb]. unfold parse_facts. destruct (forallb shallow_fact facts').
  - rewrite Hparse. unfold verify_and_report_structural. by rewrite sound_verifies by by apply norm_sound.
  - destruct Hparse as [e' ->]. by eexists.
Qed.
End Written.

(** * The verification of hash chains *)

Section Chains.
Context {N : Type} `{SerdeNumber N, SerdeText N, Blake3}.

Lemma verify_record_hashed i prev r :
  hashed r = true ->
  match verify_record (N := N) i prev r with
  | Ok next => exists content, record_chained (N := N) prev r content /\ next = chain_step prev content
  | Err _ => ~ exists content, record_chained (N := N) prev r content
  end.
Proof.
  unfold hashed, verify_record, record_chained. intros [[Hc Hp]%andb_true_iff Hh]%andb_true_iff.
  destruct (fact_hash (rec_fact r)) as [content|e]; [|by intros (c & ? & _)].
  destruct (rec_chain_hash r) as [chain|]; [|done].
  destruct (bool_decide_reflect (rec_content_hash r = Some content)) as [->|Hn1]; cbn [negb].
  2: { intros (c & [= <-] & ? & _). congruence. }
  destruct (bool_decide_reflect (rec_prev_hash r = Some prev)) as [->|Hn2]; cbn [negb].
  2: { intros (c & _ & _ & ? & _). congruence. }
  destruct (bool_decide_reflect (Some chain = Some (chain_step prev content))) as [Heq|Hn3]; cbn [negb].
  - exists content. by rewrite Heq.
  - intros (c & [= <-] & _ & _ & ?). congruence.
Qed.
Lemma check_record_hashed prev r :
  hashed r = true ->
  match check_record (N := N) prev r with
  | Ok next => exists content, record_chained (N := N) prev r content /\ next = chain_step prev content
  | Err _ => ~ exists content, record_chained (N := N) prev r content
  end.
Proof.
  unfold hashed, check_record, record_chained. intros [[Hc Hp]%andb_true_iff Hh]%andb_true_iff.
  destruct (fact_hash (rec_fact r)) as [content|e]; [|by intros (c & ? & _)].
  destruct (rec_content_hash r) as [c1|]; [|done]. destruct (rec_prev_hash r) as [p1|]; [|done].
  destruct (rec_chain_hash r) as [h1|]; [|done].
  destruct (String.eqb_spec c1 content) as [->|Hn1]; cbn [negb]; [|by intros (c & [= <-] & [= ?] & _)].
  destruct (String.eqb_spec p1 prev) as [->|Hn2]; cbn [negb]; [|by intros (c & _ & _ & [= ?] & _)].
  destruct (String.eqb_spec h1 (chain_step prev content)) as [->|Hn3]; cbn [negb]; [by exists content|].
  by intros (c & [= <-] & _ & _ & [= ?]).
Qed.
(** Both follow a chain of hashed records exactly. *)
Lemma verify_stored_chained i prev records :
  forallb hashed records = true -> is_ok (verify_stored_from (N := N) i prev records) = true <-> chained (N := N) prev records.
Proof.
  revert i prev. induction records as [|r records IH]; intros i prev; [by split|]. cbn [forallb verify_stored_from chained].
  intros [Hr Hh]%andb_true_iff. pose proof (verify_record_hashed i prev r Hr) as Hv.
  destruct (verify_record i prev r) as [next|e].
  - destruct Hv as (content & Hc & ->). rewrite IH by done. split; [by exists content|].
    intros (c & (Hf & _) & Hrest). destruct Hc as (Hf' & _). by assert (c = content) as -> by congruence.
  - split; [done|]. intros (c & Hc & _). exfalso. apply Hv. by exists c.
Qed.
Lemma check_records_chained prev records :
  forallb hashed records = true -> is_ok (check_records (N := N) prev records) = true <-> chained (N := N) prev records.
Proof.
  revert prev. induction records as [|r records IH]; intros prev; [by split|]. cbn [forallb check_records chained].
  intros [Hr Hh]%andb_true_iff. pose proof (check_record_hashed prev r Hr) as Hv.
  destruct (check_record prev r) as [next|e].
  - destruct Hv as (content & Hc & ->). rewrite IH by done. split; [by exists content|].
    intros (c & (Hf & _) & Hrest). destruct Hc as (Hf' & _). by assert (c = content) as -> by congruence.
  - split; [done|]. intros (c & Hc & _). exfalso. apply Hv. by exists c.
Qed.
End Chains.

(** * Cutting off a partial line *)

Lemma split_last_newline_spec data :
  match split_last_newline data with
  | Some (prefix, trailing) => data = prefix +:+ trailing /\ ends_with_char newline prefix = true /\
      str_all (fun c => negb (Ascii.eqb c newline)) trailing = true
  | None => str_all (fun c => negb (Ascii.eqb c newline)) data = true
  end.
Proof.
  induction data as [|c data IH]; cbn; [done|]. destruct (split_last_newline data) as [[prefix trailing]|].
  - destruct IH as (-> & He & Ha). split_and!; [done| |done]. cbn. by destruct prefix.
  - destruct (Ascii.eqb_spec c newline) as [->|Hne]; cbn; [|done]. split_and!; done.
Qed.
Lemma split_last_newline_line prefix : ends_with_char newline prefix = true -> split_last_newline prefix = Some (prefix, "").
Proof.
  induction prefix as [|c prefix IH]; [done|]. cbn [ends_with_char split_last_newline]. destruct prefix as [|d prefix].
  - intros ->%Ascii.eqb_eq. done.
  - intros Hp%IH. by rewrite Hp.
Qed.

(** * Properties *)

(** C28: a run leaves a sound log, and the tool verifies it.  Every run of
    rules ends, within the given steps.  Its log starts with the command, has
    identifiers from 1 on without gaps and causes that point back, and ends
    with a Stable fact that carries the number of transitions; the payload is
    that of the last transition.  The command fails, with the exit code 3,
    exactly when the log has an Error fact.  When every fact nests below the
    recursion limit of the parser, the written lines read back as the same
    facts and [verify-chain] accepts the written file; when one is deeper,
    which the run does not refuse, reading the lines back is an error and so is
    [verify-chain]. *)
Theorem run_log_verifies {N : Type} `{SerdeNumberLaws N, SerdeText N, !SerdeTextLaws N, Blake3}
    (debug_json : JsonValue -> string) (core_eval : list JsonValue) (payload : JsonValue) (max_steps : nat)
    (fs : Files) (path : WalPath) :
  Forall (fun i => wf_json i = true) core_eval -> wf_json payload = true -> (Z.of_nat max_steps + 5 <= u64_max)%Z ->
  exists facts final lines r,
    cli_execute debug_json core_eval payload noop max_steps = Some (facts, final) /\
    run_rules (N := N) debug_json (Ok core_eval) (Ok payload) max_steps = Some (Ok (lines, r)) /\
    sound_facts facts /\ head facts = Some (Command 1%Z noop) /\
    last facts = Some (Stable (Z.of_nat (length facts)) (Z.of_nat (transitions facts))) /\
    transitions facts <= max_steps /\ final = last_payload payload facts /\
    match r with
    | Ok _ => Forall (fun f => is_error_fact f = false) facts
    | Err e => exit_code e = 3%Z /\ Exists (fun f => is_error_fact f = true) facts
    end /\
    if forallb (shallow_fact (N := N)) facts then
      parse_facts (N := N) lines = Ok (map norm_fact facts) /\
      (fs !! path_string path = Some lines -> verify_chain (N := N) fs path = Some (Ok tt))
    else
      (exists e, parse_facts (N := N) lines = Err e) /\
      (fs !! path_string path = Some lines -> exists e, verify_chain (N := N) fs path = Some (Err e)).
Proof.
  intros Hcore Hp Hb.
  destruct (cli_execute_sound debug_json core_eval payload noop max_steps Hcore Hp eq_refl Hb)
    as (facts & final & He & Hs & Hwf & Hhd & Hlast & Hn & Hfin).
  destruct (fact_lines_total (N := N) facts) as (lines & Hl & Hf).
  exists facts, final, lines. eexists. split; [exact He|]. unfold run_rules. rewrite He, Hl.
  split; [reflexivity|]. split_and!; [done..| |].
  - destruct (Nat.ltb_spec 0 (length (List.filter is_error_fact facts))) as [Hlt|Hge].
    + split; [done|]. apply Exists_exists. destruct (List.filter is_error_fact facts) as [|f l] eqn:Hfl; [cbn in Hlt; lia|].
      assert (In f (List.filter is_error_fact facts)) as [Hin Hef]%filter_In by (rewrite Hfl; by left).
      exists f. split; [by apply list_elem_of_In|done].
    + apply List.Forall_forall. intros f Hin. destruct (is_error_fact f) eqn:Hef; [|done].
      assert (In f (List.filter is_error_fact facts)) as Hin' by by apply filter_In.
      destruct (List.filter is_error_fact facts); [done|cbn in Hge; lia].
  - pose proof (parse_facts_lines facts lines 0 Hwf Hf) as Hparse.
    assert (facts <> []) as Hne by by intros ->.
    pose proof (fun Hfs => verify_raw_log fs path facts lines Hne Hs Hwf Hf Hfs) as Hver.
    by destruct (forallb (shallow_fact (N := N)) facts).
Qed.

(** C29: three verifiers, one verdict on the hashes.  Records that have their
    hashes are loaded into an auditor, and pass the check the sentinel and the
    truncation make, exactly when they are a chain from genesis of the content
    hashes of their facts.  [verify-chain] accepts the same records when, in
    addition, the structure is sound: the identifiers of the facts increase
    and each cause is the identifier of an earlier fact. *)
Theorem verifiers_agree {N A : Type} `{SerdeNumber N, SerdeText N, Blake3, Ed25519} (a : Auditor A)
    (records : list WalRecord) (lines : list string) :
  forallb hashed records = true ->
  (is_ok (snd (load_tier1 (N := N) a (Ok records))) = true <-> chained (N := N) "genesis" records) /\
  (is_ok (check_records (N := N) "genesis" records) = true <-> chained (N := N) "genesis" records) /\
  (is_ok (verify_read (N := N) (Ok records) lines) = true <->
   chained (N := N) "genesis" records /\ well_structured (map rec_fact records)).
Proof.
  intros Hh. split_and!.
  - pose proof (load_tier1_exact (N := N) a records Hh) as Hl. destruct (load_tier1 a (Ok records)) as [a' r].
    destruct Hl as [Hl _]. cbn [snd]. rewrite <- Hl. by destruct r as [[]|].
  - by apply check_records_chained.
  - rewrite <- (verify_stored_chained 0 "genesis" records Hh), <- verify_structural_exact.
    cbn [verify_read]. unfold verify_and_report_structural.
    assert (is_ok (if existsb (fun r => is_some (rec_chain_hash r)) records
      then verify_hash_chain_with_stored (N := N) records else Ok tt) =
      is_ok (verify_stored_from (N := N) 0 "genesis" records)) as Heq.
    { destruct records as [|r records]; [done|]. cbn [existsb].
      apply andb_true_iff in Hh as [[_ Hc]%andb_true_iff _]. unfold is_some. by destruct (rec_chain_hash r). }
    rewrite <- Heq. destruct (if existsb _ records then _ else _) as [[]|e]; [|by split; [|intros []]].
    destruct (verify_structural_invariants _); cbn; split; try done; by intros [].
Qed.

(** Truncation only removes the partial line.  When it writes, the backup
    is the whole file and what it keeps is the complete lines: the file is
    those and a rest without line break that is not blank; the records of the
    lines passed the check of the chain; and the kept file has nothing left
    to cut off.  A dry run decides the same. *)
Lemma truncation_exact {N : Type} `{SerdeNumber N, SerdeText N, Blake3} (data backup prefix : string) :
  truncate_partial_line (N := N) data true = Some (Ok (Truncated backup prefix)) ->
  backup = data /\
  (exists trailing, data = prefix +:+ trailing /\ ends_with_char newline prefix = true /\
     str_all (fun c => negb (Ascii.eqb c newline)) trailing = true /\ str_all is_ascii_whitespace trailing = false) /\
  (exists records tail,
     read_wal_with_hash (N := N) {[path_string temp_path := text_lines prefix]} temp_path = Some (Ok records) /\
     check_records (N := N) "genesis" records = Ok tail) /\
  truncate_partial_line (N := N) prefix true = Some (Ok NothingToDo) /\
  truncate_partial_line (N := N) data false = Some (Ok (DryRun prefix)).
Proof.
  unfold truncate_partial_line. pose proof (split_last_newline_spec data) as Hs.
  destruct (split_last_newline data) as [[pre trailing]|]; [|done]. destruct Hs as (Hd & He & Ha).
  destruct (str_all is_ascii_whitespace trailing) eqn:Hw; [done|].
  destruct (read_wal_with_hash _ temp_path) as [[records|e]|] eqn:Hr; try done.
  destruct (check_records "genesis" records) as [tail|e] eqn:Hc; [|done]. intros [= <- <-].
  split_and!; [done|by exists trailing|by exists records, tail| |done].
  by rewrite split_last_newline_line.
Qed.

(** * Examples *)

Module CliDemo.
Import ZNumber ZText ZHash ZSign ZAnchor.
Definition rules : list JsonValue :=
  [object_from_pairs [("type", JString "set"); ("params", object_from_pairs
     [("attr", JString "n"); ("operation", JString "add"); ("value", JInteger 1)])];
   object_from_pairs [("type", JString "io_request"); ("params", object_from_pairs [("io_type", JString "http_get")])]].
Definition path : WalPath := mk_path "" "run.log".
(** A write-ahead log, as text, with half a line at its end. *)
Definition wal_path : WalPath := mk_path "" "s.wal".
Definition text_of (lines : list string) : string :=
  fold_right (fun l s => l +:+ String newline s) "" lines.
Definition wal_text (max_size : Z) (sequence : nat) : string :=
  match wal (inner (append_all (N := Z) (with_wal_options ∅ wal_path max_size false) Demo.facts)) with
  | Some (fs, _) => text_of (read_file fs (build_rotated_path wal_path sequence))
  | None => ""
  end.
Definition partial : string := "{" +:+ quote "version_before" +:+ ":".
Definition cut (max_size : Z) (sequence : nat) : option (Result Truncation CliError) :=
  truncate_partial_line (N := Z) (wal_text max_size sequence +:+ partial) true.
Definition records : list WalRecord := default [] (wal (inner Demo.log)).
(** The last record without its hashes, and with another fact. *)
Definition stripped : list WalRecord :=
  match rev records with
  | r :: rest => rev (mk_record (version_before r) (FError (fact_id (rec_fact r)) "forged") None None None :: rest)
  | [] => []
  end.
End CliDemo.
Import ZNumber ZText ZHash ZSign ZAnchor.

Lemma one_file (p : string) (lines : list string) : lookup (M := Files) p {[p := lines]} = Some lines.
Proof. apply lookup_singleton_eq. Qed.
Lemma run_log_verifies_witness :
  exists lines r, run_rules (N := Z) (fun _ => "") (Ok CliDemo.rules) (Ok empty_object) 10 = Some (Ok (lines, r)) /\
    is_ok (parse_facts (N := Z) lines) = true /\
    verify_chain (N := Z) {[path_string CliDemo.path := lines]} CliDemo.path = Some (Ok tt).
Proof.
  assert (forallb wf_json CliDemo.rules = true) as Hwf by (vm_compute; reflexivity).
  assert (Z.of_nat 10 + 5 <= u64_max)%Z as Hb by (vm_compute; discriminate).
  assert (Forall (fun i => wf_json i = true) CliDemo.rules) as Hw
    by (apply List.Forall_forall; exact (proj1 (forallb_forall _ _) Hwf)).
  pose proof (fun fs => run_log_verifies (N := Z) (fun _ => "") CliDemo.rules empty_object 10 fs CliDemo.path Hw eq_refl Hb) as Hrun.
  assert (match cli_execute (fun _ => "") CliDemo.rules empty_object noop 10 with
          | Some (facts, _) => forallb (shallow_fact (N := Z)) facts | None => false end = true) as Hd by (vm_compute; reflexivity).
  destruct (Hrun ∅) as (facts & final & lines & r & He & Hr & _ & _ & _ & _ & _ & _ & Hread).
  destruct (Hrun {[path_string CliDemo.path := lines]}) as (facts' & final' & lines' & r' & He' & Hr' & _ & _ & _ & _ & _ & _ & Hv).
  pose proof (eq_trans (eq_sym Hr) Hr') as Hlines. injection Hlines as Hlines _.
  pose proof (eq_trans (eq_sym He) He') as Hfacts. injection Hfacts as Hfacts _.
  rewrite He in Hd. rewrite <- Hfacts in Hv. rewrite Hd in Hread, Hv. destruct Hread as [Hread _], Hv as [_ Hv].
  exists lines, r. split; [exact Hr|]. rewrite Hread. split; [exact eq_refl|]. apply Hv. rewrite <- Hlines. exact (one_file _ lines).
Defined.
Lemma verifiers_agree_witness :
  verify_read (N := Z) (Ok CliDemo.records) [] = Ok tt /\ chained (N := Z) "genesis" CliDemo.records /\
  well_structured (map rec_fact CliDemo.records).
Proof.
  assert (forallb hashed CliDemo.records = true) as Hh by (vm_compute; reflexivity).
  destruct (verifiers_agree (N := Z) (auditor_new : Auditor string) CliDemo.records [] Hh) as (_ & _ & Hv).
  assert (verify_read (N := Z) (Ok CliDemo.records) [] = Ok tt) as He by (vm_compute; reflexivity).
  split; [exact He|]. apply Hv. rewrite He. reflexivity.
Defined.
(** Facts that are correctly hashed but with identifiers that go down: the
    auditor and the sentinel accept them, [verify-chain] does not. *)
Lemma structure_checked_by_one :
  let rs := default [] (wal (inner (append_all (N := Z) (with_wal_store (S := MemoryWalStore) [])
              [Stable 2%Z 0; Stable 1%Z 0]))) in
  is_ok (snd (load_tier1 (N := Z) (auditor_new : Auditor string) (Ok rs))) = true /\
  is_ok (check_records (N := Z) "genesis" rs) = true /\ is_ok (verify_read (N := Z) (Ok rs) []) = false.
Proof. split_and!; vm_compute; reflexivity. Qed.
(** A run of one rule, itself shallow enough to be read, that sets a value
    nested 123 deep at a path: at a path of three keys the run writes a log
    [verify-chain] accepts, at one of four keys a log it cannot read. *)
Definition nested_rules (attr : string) : list JsonValue :=
  [object_from_pairs [("type", JString "set"); ("params", object_from_pairs
     [("attr", JString attr); ("operation", JString "set"); ("value", Nat.iter 123 (fun v => JArray [v]) JNull)])]].
Definition nested_verdict (attr : string) : option (option (Result unit CliError)) :=
  let! r := run_rules (N := Z) (fun _ => "") (Ok (nested_rules attr)) (Ok empty_object) 10 in
  Some (let! lines := result_ok r in
        verify_chain (N := Z) {[path_string CliDemo.path := fst lines]} CliDemo.path).
Lemma deep_run_unverifiable :
  nested_verdict "a.b.c" = Some (Some (Ok tt)) /\ exists e, nested_verdict "a.b.c.d" = Some (Some (Err e)).
Proof. vm_compute. split; [reflexivity|by eexists]. Qed.
Lemma truncation_exact_witness : exists backup prefix,
  truncate_partial_line (N := Z) (CliDemo.wal_text 10000 0 +:+ CliDemo.partial) true = Some (Ok (Truncated backup prefix)) /\
  truncate_partial_line (N := Z) prefix true = Some (Ok NothingToDo).
Proof.
  assert (match truncate_partial_line (N := Z) (CliDemo.wal_text 10000 0 +:+ CliDemo.partial) true with
          | Some (Ok (Truncated _ _)) => true | _ => false end = true) as Ht by (vm_compute; reflexivity).
  generalize (truncation_exact (N := Z) (CliDemo.wal_text 10000 0 +:+ CliDemo.partial)).
  destruct (truncate_partial_line _ true) as [[[|prefix|backup prefix]|]|]; try discriminate Ht. intros Hc.
  exists backup, prefix. split; [exact eq_refl|]. destruct (Hc backup prefix eq_refl) as (_ & _ & _ & Hn & _). exact Hn.
Defined.

(** None of the three compares a record without a chain hash with anything:
    with the hashes of the last record removed, its fact can be replaced. *)
Lemma stripped_tail_accepted :
  map rec_fact CliDemo.stripped <> map rec_fact CliDemo.records /\
  verify_hash_chain_with_stored (N := Z) CliDemo.stripped = Ok tt /\ is_ok (check_records (N := Z) "genesis" CliDemo.stripped) = true /\
  is_ok (snd (load_tier1 (N := Z) (auditor_new : Auditor string) (Ok CliDemo.stripped))) = true.
Proof. split; [vm_compute; discriminate|split_and!; vm_compute; reflexivity]. Qed.
(** The check starts from genesis: a partial line in a later file of a rotated
    log, where it is when a write was cut short, cannot be cut off. *)
Lemma rotated_log_not_cut :
  CliDemo.wal_text 300 1 <> "" /\
  match CliDemo.cut 300 1 with Some (Err _) => True | _ => False end.
Proof. split; [vm_compute; discriminate|]. vm_compute. exact I. Qed.
