(* ===== verification/Sentinel.v ===== *)
(** The sentinel of the write-ahead logs,
    [evorule-cli/src/commands/scan_wal_dir.rs]: the test of the verifier
    itself, the grouping of a directory's files, the verification of a group,
    the comparison with the baseline of the scan before, the exit code.  The
    baseline is its value: its JSON text is a derived encoding.  What the scan
    prints is the lines of its report. *)

From S2P Require Import Prelude ObjectMap Value Path Fact Serde Hash Wal WalFile Signing Cli.

(** * Constants, data *)

Definition KERNEL_HASH_SNAPSHOT : list string :=
  ["56de9ce95d41896edf081f452b4ea5d3ad6508de3a0781a36fa5fbd13c586aa1";
   "902f22869450a78851d5bf1396b64d4bc7be0666468a39d2dac53b7d176f8047";
   "6c4a12ee89a692181a07ede80b0864f0774286427fce67156944f6f33290ddf7";
   "4855b360063f11eeffd7b8e2bd5720c641451012a688ebec489b5f8f059058aa";
   "867c9f708b7469ffb25682f997792b8811f34ef61eb2ee4ba23964e1c20f7909";
   "ac02d9e15a497b30c18ce5019a50aeced2d5d186a973ee3a0985ee728054a015";
   "42ca4e53611616707514550f1d2ab8a89be5ef8bd1a5f6cbd07e016bdb931afb"].
Definition EXIT_OK : Z := 0%Z.
Definition EXIT_SELF_TEST : Z := 2%Z.
Definition EXIT_CHAIN_BROKEN : Z := 3%Z.
Definition EXIT_FILE_GONE : Z := 4%Z.
Definition EXIT_CORRUPT_REJECT : Z := 5%Z.

(** [struct FileObs]: what a scan sees of one group of files. *)
Record FileObs : Type := mk_obs {
  obs_records : Z;
  obs_tail : string;
  obs_bytes : Z;
  obs_verdict : string;
}.
(** [struct Baseline]: a [BTreeMap] from the keys of the groups. *)
Abbreviation Baseline := (ObjectMap FileObs).

(** * The test of the verifier *)

(** The facts of the snapshot. *)
Definition golden_facts : list Fact :=
  [Command 1%Z empty_object;
   PayloadUpdate 2%Z "test.path" (JString "test_value");
   StateTransition 3%Z 1%Z empty_object [];
   IoRequest 4%Z 3%Z "http_get" empty_object;
   IoResponse 5%Z 4%Z (JString "response") None;
   Stable 6%Z 0%Z;
   FError 7%Z "test error"].
Definition GOLDEN_PK : string := "248acbdbaf9e050196de704bea2d68770e519150d103b587dae2d9cad53dd930".
Fixpoint repeat_byte (n : nat) (c : ascii) : string :=
  match n with O => EmptyString | S n => String c (repeat_byte n c) end.
Definition golden_seed : string := repeat_byte 32 (ascii_of_nat 171).
Definition golden_payload : string :=
  "evorule-anchor/2|vector-sess-1|0|0|5|" +:+ repeat_byte 64 "a" +:+ "|anchor-key-1|vector-engine/0.1|0".
Definition golden_signature : string :=
  "bb9fe4f555b816edef9e0f1438e07a3dfa944688324b489304ba0923a371024217683c56f0d0d30a6bbf1efda8dad0ba0bca829a6ca4e6598b2cf4df167e2507".
(** [u8::is_ascii_hexdigit]. *)
Definition is_ascii_hexdigit (c : ascii) : bool := match to_digit_16 c with Some _ => true | None => false end.

Section Sentinel.
Context {N : Type} `{SerdeNumber N, SerdeText N, Blake3}.

Definition self_test_failed (what : string) : CliError := CliOther ("self-test FAILED: " +:+ what).
(** The loop over the facts, from the one with index [i]. *)
Fixpoint test_hashes (i : nat) (facts : list Fact) (snapshot : list string) : Result unit CliError :=
  match facts, snapshot with
  | f :: facts, s :: snapshot =>
      match fact_hash (N := N) f with
      | Err e => Err (CliOther ("self-test hash: " +:+ hash_error_display e))
      | Ok h =>
          if String.eqb h s then test_hashes (S i) facts snapshot
          else Err (self_test_failed ("golden fact hash #" +:+ show_usize (S i)
                      +:+ "/7 mismatch (verifier drifted from kernel SSOT)"))
      end
  | _, _ => Ok tt
  end.
Definition self_test `{Ed25519} : Result unit CliError :=
  let? _u := test_hashes 0 golden_facts KERNEL_HASH_SNAPSHOT in
  let first := chain_step "genesis" (default "" (head KERNEL_HASH_SNAPSHOT)) in
  if (negb (Nat.eqb (String.length first) 64) || negb (str_all is_ascii_hexdigit first))%bool then
    Err (self_test_failed "chain_step output shape")
  else
    let pk := verifying_bytes (signer_from_bytes golden_seed) in
    if negb (String.eqb (hex_encode pk) GOLDEN_PK) then Err (self_test_failed "anchor golden pubkey mismatch")
    else
      let? bytes :=
        match cli_hex_decode golden_signature with
        | Ok bytes => Ok bytes
        | Err e => Err (CliOther ("self-test hex: " +:+ cli_error_display e))
        end in
      if negb (Nat.eqb (String.length bytes) 64) then Err (CliOther "self-test sig length")
      else
        match cli_verify_signature pk golden_payload bytes with
        | Err e => Err (CliOther ("self-test verify: " +:+ cli_error_display e))
        | Ok true => Ok tt
        | Ok false => Err (self_test_failed "anchor golden signature verify")
        end.

(** * The groups of files *)

(** The key of a session's log, from the name of its file. *)
Definition session_wal_key (name : string) : option string :=
  let! rest := strip_prefix "session_" name in
  let! pos := String.index 0 ".wal" rest in
  let id_part := String.substring 0 pos rest in
  let after := String.substring (pos + 4) (String.length rest - (pos + 4)) rest in
  let valid_suffix :=
    match after with
    | EmptyString => true
    | String c digits => (negb (str_is_empty digits) && Ascii.eqb c "." && str_all is_digit digits)%bool
    end in
  if negb valid_suffix then None
  else let! id := parse_usize id_part in Some ("session:" +:+ pretty (id : Z)).
(** The group a name belongs to, if any. *)
Definition group_key (name : string) : option string :=
  match session_wal_key name with
  | Some key => Some key
  | None =>
      if String.eqb name "shared_facts.wal" then Some "shared_facts"
      else if String.eqb name "governance_single_reactor.wal" then Some "governance_single_reactor"
      else None
  end.
(** [groups.entry(key).or_default().push(path)]. *)
Definition push_path (groups : ObjectMap (list WalPath)) (key : string) (path : WalPath) : ObjectMap (list WalPath) :=
  obj_insert groups key (default [] (map_get groups key) ++ [path]).
Definition add_entry (dir : string) (groups : ObjectMap (list WalPath)) (name : string) : ObjectMap (list WalPath) :=
  match group_key name with
  | Some key => push_path groups key (mk_path dir name)
  | None => groups
  end.
(** The paths of one directory are in the order of their names. *)
Definition sort_paths (paths : list WalPath) : list WalPath :=
  map snd (sort_by_name (map (fun p => (file_name p, p)) paths)).
(** [entries] is what [read_dir] lists of the directory. *)
Definition classify (dir : string) (entries : Result (list string) string) : Result (ObjectMap (list WalPath)) string :=
  match entries with
  | Err e => Err ("read wal dir: " +:+ e)
  | Ok names =>
      Ok (map (fun '(key, paths) => (key, sort_paths paths)) (fold_left (add_entry dir) names map_new))
  end.

(** * The verification of a group *)

(** One record of the file at [p]: the three checks. *)
Definition group_record (p : WalPath) (prev : string) (rec : WalRecord) : Result string string :=
  let at_path := path_string p +:+ ": " in
  let id := pretty (fact_id (rec_fact rec) : Z) in
  match fact_hash (N := N) (rec_fact rec) with
  | Err e => Err (at_path +:+ hash_error_display e)
  | Ok content =>
      let differs (stored : option string) (computed : string) :=
        match stored with Some s => negb (String.eqb s computed) | None => false end in
      if differs (rec_content_hash rec) content then Err (at_path +:+ "content_hash mismatch at fact " +:+ id)
      else if differs (rec_prev_hash rec) prev then
        Err (at_path +:+ "chain broken at fact " +:+ id +:+ " (stored_prev != expected)")
      else
        let chain := chain_step prev content in
        if differs (rec_chain_hash rec) chain then Err (at_path +:+ "chain_hash mismatch at fact " +:+ id)
        else Ok chain
  end.
(** The records of one file: the chain hash after each. *)
Fixpoint group_records (p : WalPath) (prev : string) (records : list WalRecord) : Result (list string) string :=
  match records with
  | [] => Ok []
  | rec :: rest =>
      let? chain := group_record p prev rec in
      let? hashes := group_records p chain rest in Ok (chain :: hashes)
  end.
(** The files of a group, one after the other. *)
Fixpoint group_files (fs : Files) (prev : string) (bytes : Z) (paths : list WalPath) :
    option (Result (list string * Z) string) :=
  match paths with
  | [] => Some (Ok ([], bytes))
  | p :: rest =>
      let at_path := path_string p +:+ ": " in
      match fs !! path_string p with
      | None => Some (Err (at_path +:+ "No such file or directory (os error 2)"))
      | Some lines =>
          let bytes := u64_wrapping_add bytes (file_len lines) in
          let! read := read_wal_with_hash (N := N) fs p in
          match read with
          | Err e => Some (Err (at_path +:+ wal_error_display e))
          | Ok records =>
              match group_records p prev records with
              | Err e => Some (Err e)
              | Ok hashes =>
                  let! more := group_files fs (default prev (last hashes)) bytes rest in
                  Some (let? ' (hashes', bytes) := more in Ok (hashes ++ hashes', bytes))
              end
          end
      end
  end.
Definition verify_group (fs : Files) (paths : list WalPath) : option (Result (list string * Z * Z) string) :=
  let! r := group_files fs "genesis" 0%Z paths in
  Some (let? ' (chain_hashes, bytes) := r in Ok (chain_hashes, Z.of_nat (length chain_hashes), bytes)).

(** The bytes of a file, and the digest of files without hashes. *)
Definition file_text (lines : list string) : string :=
  fold_right (fun line text => line +:+ String newline text) "" lines.
Fixpoint digest_files (fs : Files) (bytes lines : Z) (data : string) (paths : list WalPath) :
    Result (string * Z * Z) string :=
  match paths with
  | [] => Ok (blake3_hex data, lines, bytes)
  | p :: rest =>
      match fs !! path_string p with
      | None => Err (path_string p +:+ ": No such file or directory (os error 2)")
      | Some content =>
          digest_files fs (u64_wrapping_add bytes (file_len content))
            (u64_wrapping_add lines (Z.of_nat (length content))) (data +:+ file_text content) rest
      end
  end.
Definition digest_group (fs : Files) (paths : list WalPath) : Result (string * Z * Z) string :=
  digest_files fs 0%Z 0%Z "" paths.

(** * The comparison with the baseline *)

Definition rank (c : Z) : nat :=
  if Z.eqb c EXIT_CHAIN_BROKEN then 4 else if Z.eqb c EXIT_FILE_GONE then 3
  else if Z.eqb c EXIT_CORRUPT_REJECT then 2 else 0.
Definition bump (code worst : Z) : Z := if (rank worst <? rank code)%nat then code else worst.

Definition UNCHANGED : string := "unchanged".
(** The label of the comparison and the worst code after it. *)
Definition compare_with_baseline (fs : Files) (obs : FileObs) (prev : option FileObs) (unhashed : bool)
    (paths : list WalPath) (worst : Z) : option (string * Z) :=
  let broken := bump EXIT_CHAIN_BROKEN worst in
  match prev with
  | None => Some ("new-file", worst)
  | Some prev_obs =>
      if unhashed then
        if String.eqb (obs_tail prev_obs) (obs_tail obs) then Some (UNCHANGED, worst)
        else Some ("UNHASHED-CHANGED（内容变化：正常追加或篡改不可分，人工确认）", broken)
      else if (obs_records obs <? obs_records prev_obs)%Z then
        Some ("REGRESSED（记录回退：上轮 " +:+ pretty (obs_records prev_obs) +:+ " → 本轮 "
              +:+ pretty (obs_records obs) +:+ "）", broken)
      else if (obs_records obs =? obs_records prev_obs)%Z then
        if String.eqb (obs_tail obs) (obs_tail prev_obs) then Some (UNCHANGED, worst)
        else Some ("TAIL-CHANGED-SAME-LENGTH（同位链尾变化=篡改）", broken)
      else
        let! checked := verify_group fs paths in
        match checked with
        | Ok (chain, _, _) =>
            let anchor_idx := Nat.pred (Z.to_nat (obs_records prev_obs)) in
            if bool_decide (chain !! anchor_idx = Some (obs_tail prev_obs)) then
              Some ("appended（前缀锚定通过）", worst)
            else Some ("PREFIX-ANCHOR-MISMATCH（历史被改后重算/分片错位）", broken)
        | Err e => Some ("RECHECK-FAILED: " +:+ e, broken)
        end
  end.

(** * The scan *)

(** The variables of [run]; the log of the sentinel, when there is one. *)
Record Scan : Type := mk_scan {
  sc_now : Baseline;
  sc_worst : Z;
  sc_lines : list string;
  sc_log : option (list string);
}.
Definition append_sentinel_log (ts : Z) (log : option (list string)) (key : string) (obs : FileObs)
    (verdict_label comparison : string) : option (list string) :=
  let! lines := log in
  Some (lines ++ [String.concat " | " [pretty ts; key; pretty (obs_records obs); obs_tail obs; verdict_label; comparison]]).
Definition report_line (key : string) (obs : FileObs) (verdict_label comparison : string) : string :=
  let len := String.length (obs_tail obs) in
  key +:+ ": " +:+ pretty (obs_records obs) +:+ " records, tail " +:+ String.substring 0 (Nat.min 8 len) (obs_tail obs)
  +:+ ".." +:+ String.substring (len - 8) (len - (len - 8)) (obs_tail obs)
  +:+ ", verdict=" +:+ verdict_label +:+ ", delta=" +:+ comparison.
(** What a scan sees of a group. *)
Definition observe (fs : Files) (unhashed : bool) (paths : list WalPath) : option (Result FileObs string) :=
  if unhashed then
    Some (let? ' (digest, lines, bytes) := digest_group fs paths in Ok (mk_obs lines digest bytes "unhashed-ledger"))
  else
    let! r := verify_group fs paths in
    Some (let? ' (chain, records, bytes) := r in
          Ok (mk_obs records (default "genesis" (last chain)) bytes "verified")).
(** The bytes of the files that are there. *)
Definition present_bytes (fs : Files) (paths : list WalPath) : Z :=
  fold_left (fun n p => match fs !! path_string p with Some lines => u64_wrapping_add n (file_len lines) | None => n end) paths 0%Z.
Definition rejected_code (e : string) : Z :=
  if (contains "JSON parse error" e || contains "EOF while parsing" e)%bool then EXIT_CORRUPT_REJECT
  else EXIT_CHAIN_BROKEN.
Definition scan_group (fs : Files) (ts : Z) (old : Baseline) (s : Scan) (key : string) (paths : list WalPath) : option Scan :=
  let unhashed := false in
  let! seen := observe fs unhashed paths in
  match seen with
  | Ok obs =>
      let verdict_label := obs_verdict obs in
      let! ' (comparison, worst) := compare_with_baseline fs obs (map_get old key) unhashed paths (sc_worst s) in
      Some (mk_scan (obj_insert (sc_now s) key obs) worst (sc_lines s ++ [report_line key obs verdict_label comparison])
              (append_sentinel_log ts (sc_log s) key obs verdict_label comparison))
  | Err e =>
      Some (mk_scan (obj_insert (sc_now s) key (mk_obs 0 "" (present_bytes fs paths) "rejected"))
              (bump (rejected_code e) (sc_worst s)) (sc_lines s ++ [key +:+ ": REJECTED (" +:+ e +:+ ")"]) (sc_log s))
  end.
Fixpoint scan_groups (fs : Files) (ts : Z) (old : Baseline) (s : Scan) (groups : ObjectMap (list WalPath)) : option Scan :=
  match groups with
  | [] => Some s
  | (key, paths) :: rest => let! s := scan_group fs ts old s key paths in scan_groups fs ts old s rest
  end.
(** The groups of the baseline that are gone. *)
Definition check_gone (first_run : bool) (s : Scan) (key : string) : Scan :=
  if (negb (map_contains_key (sc_now s) key) && negb first_run)%bool then
    mk_scan (sc_now s) (bump EXIT_FILE_GONE (sc_worst s))
      (sc_lines s ++ [key +:+ ": FILE-GONE（基线有而磁盘无——截断/误删）"]) (sc_log s)
  else s.
Definition scan (fs : Files) (ts : Z) (old : Baseline) (log : option (list string)) (groups : ObjectMap (list WalPath)) :
    option Scan :=
  let first_run := map_is_empty old in
  let! s := scan_groups fs ts old (mk_scan map_new EXIT_OK [] log) groups in
  Some (fold_left (check_gone first_run) (map fst old) s).

(** The report for machines. *)
Definition obs_json (obs : FileObs) : SValue N :=
  s_object [("records", s_u64 (obs_records obs)); ("tail", SString (obs_tail obs)); ("bytes", s_u64 (obs_bytes obs));
            ("verdict", SString (obs_verdict obs))].
Definition report_json (dir : string) (first_run : bool) (s : Scan) : SValue N :=
  s_object [("wal_dir", SString dir); ("first_run", SBool first_run); ("exit_code", s_u64 (sc_worst s));
            ("files", SObject (map (fun '(key, obs) => (key, obs_json obs)) (sc_now s)));
            ("lines", SArray (map SString (sc_lines s)))].

(** What a scan leaves: the baseline file, the report, the sentinel's log. *)
Record ScanFiles : Type := mk_scan_files {
  sf_baseline : option (Result Baseline string);
  sf_report : option (SValue N);
  sf_log : option (list string);
}.
(** [finalize_and_report]; the files can be written. *)
Definition finalize_and_report (dir : string) (files : ScanFiles) (s : Scan) (first_run : bool) : ScanFiles :=
  mk_scan_files (if (sc_worst s =? EXIT_OK)%Z then Some (Ok (sc_now s)) else sf_baseline files)
    (Some (report_json dir first_run s)) (sc_log s).
(** [run].  The baseline file is missing, or what its text is read as. *)
Definition scan_wal_dir `{Ed25519} (fs : Files) (ts : Z) (dir : string) (entries : Result (list string) string)
    (files : ScanFiles) : option (Result unit CliError * ScanFiles) :=
  match self_test with
  | Err _ => Some (Err (SentinelExit EXIT_SELF_TEST), files)
  | Ok _ =>
      match classify dir entries with
      | Err e => Some (Err (CliOther e), files)
      | Ok groups =>
          match default (Ok map_new) (sf_baseline files) with
          | Err e => Some (Err (CliOther ("baseline parse: " +:+ e)), files)
          | Ok old =>
              let! s := scan fs ts old (sf_log files) groups in
              Some (if (sc_worst s =? EXIT_OK)%Z then Ok tt else Err (SentinelExit (sc_worst s)),
                    finalize_and_report dir files s (map_is_empty old))
          end
      end
  end.
End Sentinel.
