(* ===== verification/SentinelSpec.v ===== *)
(** Theorems about the sentinel: two scans without an alarm mean that the logs
    only grew in between; when a scan gives which alarm. *)

From S2P Require Import Prelude ObjectMap Value Path Fact Serde Hash Wal WalFile FactsLog FactsLogSpec Signing Cli Sentinel.

(** * Ranks *)

Definition is_code (c : Z) : Prop := c = EXIT_OK \/ c = EXIT_CORRUPT_REJECT \/ c = EXIT_FILE_GONE \/ c = EXIT_CHAIN_BROKEN.
Ltac by_codes := repeat match goal with H : is_code ?c |- _ => destruct H as [-> | [-> | [-> | ->]]] end.
Lemma bump_code a b : is_code a -> is_code b -> is_code (bump a b).
Proof. unfold bump. by case_match. Qed.
Lemma rank_bump a b : rank (bump a b) = Nat.max (rank a) (rank b).
Proof. unfold bump. destruct (Nat.ltb_spec (rank b) (rank a)); lia. Qed.
Lemma rank_inj a b : is_code a -> is_code b -> rank a = rank b -> a = b.
Proof. intros Ha Hb. by_codes; try done; by vm_compute. Qed.
Lemma bump_ok b : is_code b -> bump EXIT_OK b = b.
Proof. intros Hb. by_codes; reflexivity. Qed.
Lemma bump_to_ok a b : is_code a -> is_code b -> bump a b = EXIT_OK -> a = EXIT_OK /\ b = EXIT_OK.
Proof. intros Ha Hb. by_codes; done. Qed.

(** The worst code of a list. *)
Definition worst_of (codes : list Z) (c : Z) : Z := fold_left (fun w c => bump c w) codes c.
Lemma worst_code codes c : is_code c -> Forall is_code codes -> is_code (worst_of codes c).
Proof.
  revert c. induction codes as [|x codes IH]; intros c Hc Hall; [done|]. apply Forall_cons in Hall as [Hx Hall].
  apply IH; [by apply bump_code|done].
Qed.
Lemma worst_bound codes c x : x = c \/ x ∈ codes -> rank x <= rank (worst_of codes c).
Proof.
  revert c x. induction codes as [|y codes IH]; intros c x Hx; cbn [worst_of fold_left].
  - destruct Hx as [->|Hx]; [done|by apply not_elem_of_nil in Hx].
  - rewrite elem_of_cons in Hx. change (fold_left _ codes (bump y c)) with (worst_of codes (bump y c)).
    pose proof (IH (bump y c) _ (or_introl eq_refl)) as Hb. rewrite rank_bump in Hb.
    destruct Hx as [->|[->|Hx]]; [lia..|]. apply IH. by right.
Qed.
Lemma worst_in codes c : worst_of codes c = c \/ worst_of codes c ∈ codes.
Proof.
  revert c. induction codes as [|y codes IH]; intros c; [by left|]. cbn [worst_of fold_left].
  change (fold_left _ codes (bump y c)) with (worst_of codes (bump y c)). rewrite elem_of_cons.
  destruct (IH (bump y c)) as [->|?]; [|by right; right]. unfold bump. case_match; auto.
Qed.

Section Spec.
Context {N : Type} `{SerdeNumber N, SerdeText N, Blake3}.

(** * What a group holds *)

(** The facts of a group's files, in the order the files are read. *)
Fixpoint group_history (fs : Files) (paths : list WalPath) : option (list Fact) :=
  match paths with
  | [] => Some []
  | p :: rest =>
      match read_wal_with_hash (N := N) fs p with
      | Some (Ok records) => let! more := group_history fs rest in Some (map rec_fact records ++ more)
      | _ => None
      end
  end.
(** The hashes of the chain after each fact. *)
Fixpoint trail (prev : string) (facts : list Fact) (hashes : list string) : Prop :=
  match facts, hashes with
  | [], [] => True
  | f :: facts, h :: hashes =>
      (exists content, fact_hash (N := N) f = Ok content /\ h = chain_step prev content) /\ trail h facts hashes
  | _, _ => False
  end.
Lemma trail_app prev f1 h1 f2 h2 :
  trail prev f1 h1 -> trail (default prev (last h1)) f2 h2 -> trail prev (f1 ++ f2) (h1 ++ h2).
Proof.
  revert prev h1. induction f1 as [|f f1 IH]; intros prev [|h h1]; cbn [trail app]; try done.
  intros [Hf Ht] H2. split; [done|]. apply IH; [done|]. rewrite last_cons in H2. by destruct (last h1).
Qed.
Lemma trail_length prev facts hashes : trail prev facts hashes -> length hashes = length facts.
Proof. revert prev hashes. induction facts as [|f facts IH]; intros prev [|h hashes]; cbn; try done. intros [_ Ht%IH]. lia. Qed.
Lemma trail_lookup prev facts hashes k h :
  trail prev facts hashes -> hashes !! k = Some h -> chain_from (N := N) prev (take (S k) facts) = Ok h.
Proof.
  revert prev facts k. induction hashes as [|h0 hashes IH]; intros prev [|f facts] k; cbn [trail]; try done.
  intros [(content & Hf & ->) Ht]. cbn [take chain_from]. rewrite Hf. destruct k as [|k]; [by intros [= <-]|].
  intros Hk. by apply (IH _ facts k).
Qed.
Lemma trail_last prev facts hashes :
  trail prev facts hashes -> chain_from (N := N) prev facts = Ok (default prev (last hashes)).
Proof.
  revert prev hashes. induction facts as [|f facts IH]; intros prev [|h hashes]; cbn [trail]; try done.
  intros [(content & Hf & ->) Ht]. cbn [chain_from]. rewrite Hf. rewrite (IH _ _ Ht), last_cons. by destruct (last hashes).
Qed.
Lemma group_record_chain p prev r h :
  group_record (N := N) p prev r = Ok h -> exists content, fact_hash (N := N) (rec_fact r) = Ok content /\ h = chain_step prev content.
Proof.
  unfold group_record. destruct (fact_hash (rec_fact r)) as [content|e]; [|done]. cbv zeta.
  destruct (match rec_content_hash r with Some _ => _ | None => _ end); [done|].
  destruct (match rec_prev_hash r with Some _ => _ | None => _ end); [done|].
  destruct (match rec_chain_hash r with Some _ => _ | None => _ end); [done|]. intros [= <-]. by exists content.
Qed.
Lemma group_records_trail p prev records hashes :
  group_records (N := N) p prev records = Ok hashes -> trail prev (map rec_fact records) hashes.
Proof.
  revert prev hashes. induction records as [|r records IH]; intros prev hashes; cbn [group_records]; [by intros [= <-]|].
  destruct (group_record p prev r) as [h|e] eqn:Hr; [|done].
  destruct (group_records p h records) as [hs|e] eqn:Hrs; [|done]. intros [= <-]. cbn [map trail].
  split; [by eapply group_record_chain|by apply IH].
Qed.
Lemma group_files_history fs prev bytes paths hashes bytes' :
  group_files (N := N) fs prev bytes paths = Some (Ok (hashes, bytes')) ->
  exists facts, group_history fs paths = Some facts /\ trail prev facts hashes.
Proof.
  revert prev bytes hashes bytes'. induction paths as [|p paths IH]; intros prev bytes hashes bytes'; cbn [group_files group_history].
  { intros [= <- <-]. by exists []. }
  destruct (fs !! path_string p) as [lines|]; [|done].
  destruct (read_wal_with_hash fs p) as [[records|e]|]; [|done..]. destruct (group_records p prev records) as [h1|e] eqn:Hr; [|done].
  destruct (group_files fs _ _ paths) as [[[h2 b2]|e]|] eqn:Hg; [|done..]. intros [= <- <-].
  destruct (IH _ _ _ _ Hg) as (facts & -> & Ht). eexists. split; [reflexivity|].
  apply trail_app; [by eapply group_records_trail|done].
Qed.
Lemma verify_group_history fs paths chain n bytes :
  verify_group (N := N) fs paths = Some (Ok (chain, n, bytes)) ->
  n = Z.of_nat (length chain) /\ exists facts, group_history fs paths = Some facts /\ trail "genesis" facts chain.
Proof.
  unfold verify_group. destruct (group_files fs _ _ paths) as [[[h b]|e]|] eqn:Hg; [|done..].
  intros [= <- <- <-]. split; [done|]. by eapply group_files_history.
Qed.
(** The verification of a group always ends. *)
Lemma group_files_total fs prev bytes paths : exists r, group_files (N := N) fs prev bytes paths = Some r.
Proof.
  revert prev bytes. induction paths as [|p paths IH]; intros prev bytes; cbn [group_files]; [by eexists|].
  destruct (fs !! path_string p) as [lines|]; [|by eexists].
  destruct (proj1 (wal_read_fails_closed (N := N) fs p)) as [[records|e] ->]; [|by eexists].
  destruct (group_records p prev records) as [h|e]; [|by eexists].
  destruct (IH (default prev (last h)) (u64_wrapping_add bytes (file_len lines))) as [r ->]. by eexists.
Qed.
Lemma verify_group_total fs paths : exists r, verify_group (N := N) fs paths = Some r.
Proof. unfold verify_group. destruct (group_files_total fs "genesis" 0 paths) as [r ->]. by eexists. Qed.

(** * The alarms *)

(** The chain of a group goes on from what the baseline says of it. *)
Definition continues (prev : FileObs) (chain : list string) : Prop :=
  (obs_records prev = Z.of_nat (length chain) /\ obs_tail prev = default "genesis" (last chain)) \/
  ((obs_records prev < Z.of_nat (length chain))%Z /\
   chain !! Nat.pred (Z.to_nat (obs_records prev)) = Some (obs_tail prev)).
Definition green (fs : Files) (old : Baseline) (key : string) (paths : list WalPath) : Prop :=
  exists chain n bytes, verify_group (N := N) fs paths = Some (Ok (chain, n, bytes)) /\
    forall prev, map_get old key = Some prev -> continues prev chain.
Definition corrupt (fs : Files) (paths : list WalPath) : Prop :=
  exists e, verify_group (N := N) fs paths = Some (Err e) /\ rejected_code e = EXIT_CORRUPT_REJECT.
Definition broken (fs : Files) (old : Baseline) (key : string) (paths : list WalPath) : Prop :=
  (exists e, verify_group (N := N) fs paths = Some (Err e) /\ rejected_code e = EXIT_CHAIN_BROKEN) \/
  (exists chain n bytes prev, verify_group (N := N) fs paths = Some (Ok (chain, n, bytes)) /\
     map_get old key = Some prev /\ ~ continues prev chain).
(** What the code reports of these groups. *)
Inductive code_alarm (fs : Files) (old : Baseline) (groups : ObjectMap (list WalPath)) : Z -> Prop :=
| code_broken key paths : In (key, paths) groups -> broken fs old key paths -> code_alarm fs old groups EXIT_CHAIN_BROKEN
| code_gone key : key ∈ map fst old -> key ∉ map fst groups -> code_alarm fs old groups EXIT_FILE_GONE
| code_corrupt key paths : In (key, paths) groups -> corrupt fs paths -> code_alarm fs old groups EXIT_CORRUPT_REJECT.

(** The code one group adds. *)
Definition coded (fs : Files) (old : Baseline) (key : string) (paths : list WalPath) (c : Z) : Prop :=
  (c = EXIT_OK /\ green fs old key paths) \/ (c = EXIT_CORRUPT_REJECT /\ corrupt fs paths) \/
  (c = EXIT_CHAIN_BROKEN /\ broken fs old key paths).
Lemma rejected_cases e : rejected_code e = EXIT_CORRUPT_REJECT \/ rejected_code e = EXIT_CHAIN_BROKEN.
Proof. unfold rejected_code. case_match; auto. Qed.
Definition seen_as (fs : Files) (paths : list WalPath) (obs : FileObs) : Prop :=
  forall chain n bytes, verify_group (N := N) fs paths = Some (Ok (chain, n, bytes)) ->
    obs = mk_obs n (default "genesis" (last chain)) bytes "verified".

Lemma compare_spec fs old key paths chain n bytes worst :
  is_code worst -> verify_group (N := N) fs paths = Some (Ok (chain, n, bytes)) ->
  exists label c,
    compare_with_baseline (N := N) fs (mk_obs n (default "genesis" (last chain)) bytes "verified") (map_get old key) false paths worst
      = Some (label, bump c worst) /\ coded fs old key paths c.
Proof.
  intros Hw Hv. destruct (verify_group_history fs paths chain n bytes Hv) as [Hn _].
  assert (forall label : string, green fs old key paths -> exists (label' : string) (c : Z),
    Some (label, worst) = Some (label', bump c worst) /\ coded fs old key paths c) as Hgreen.
  { intros label Hg. exists label, EXIT_OK. rewrite bump_ok by done. split; [done|by left]. }
  unfold compare_with_baseline. destruct (map_get old key) as [prev|] eqn:Hp.
  2: { apply Hgreen. exists chain, n, bytes. split; [done|]. intros ? ?. congruence. }
  assert (forall label : string, ~ continues prev chain -> exists (label' : string) (c : Z),
    Some (label, bump EXIT_CHAIN_BROKEN worst) = Some (label', bump c worst) /\ coded fs old key paths c) as Hbad.
  { intros label Hc. exists label, EXIT_CHAIN_BROKEN. split; [done|]. right. right. split; [done|]. right. by exists chain, n, bytes, prev. }
  assert (continues prev chain -> green fs old key paths) as Hcont.
  { intros Hc. exists chain, n, bytes. split; [done|]. intros ? ?. congruence. }
  cbn [obs_records obs_tail]. rewrite Hv. unfold continues in *.
  destruct (Z.ltb_spec n (obs_records prev)) as [Hlt|Hge]; [apply Hbad; lia|].
  destruct (Z.eqb_spec n (obs_records prev)) as [Heq|Hne].
  - destruct (String.eqb_spec (default "genesis" (last chain)) (obs_tail prev)) as [Ht|Ht].
    + apply Hgreen, Hcont. left. split; [lia|done].
    + apply Hbad. intros [[_ ?]|[? _]]; [congruence|lia].
  - destruct (bool_decide_reflect (chain !! Nat.pred (Z.to_nat (obs_records prev)) = Some (obs_tail prev))) as [Ha|Ha].
    + apply Hgreen, Hcont. right. split; [lia|done].
    + apply Hbad. intros [[? _]|[_ ?]]; [lia|done].
Qed.
Lemma scan_group_spec fs ts old s key paths :
  is_code (sc_worst s) ->
  exists s' c obs, scan_group (N := N) fs ts old s key paths = Some s' /\ coded fs old key paths c /\
    sc_worst s' = bump c (sc_worst s) /\ sc_now s' = obj_insert (sc_now s) key obs /\ seen_as fs paths obs.
Proof.
  intros Hw. unfold scan_group, observe. destruct (verify_group_total fs paths) as [[[[chain n] bytes]|e] Hv]; rewrite Hv.
  - cbn [obs_verdict]. destruct (compare_spec fs old key paths chain n bytes (sc_worst s) Hw Hv) as (label & c & -> & Hc).
    eexists _, c, _. split; [reflexivity|]. split_and!; [done..|]. intros chain' n' bytes' ?. congruence.
  - eexists _, (rejected_code e), _. split; [reflexivity|]. split_and!; [|done..|].
    + destruct (rejected_cases e) as [He|He]; rewrite He; right; [left|right]; (split; [done|]); [|left]; by exists e.
    + intros ? ? ? ?. congruence.
Qed.
(** The three cases exclude each other. *)
Lemma coded_broken fs old key paths c : broken fs old key paths -> coded fs old key paths c -> c = EXIT_CHAIN_BROKEN.
Proof.
  intros Hb [[-> (chain & n & b & Hv & Hg)]|[[-> (e & He & Hr)]|[-> _]]]; [exfalso|exfalso|done].
  - destruct Hb as [(e & He & _)|(chain' & n' & b' & prev & Hv' & Hp & Hn)]; [congruence|].
    assert (chain' = chain) as -> by congruence. by apply Hn, Hg.
  - destruct Hb as [(e' & He' & Hr')|(chain' & n' & b' & prev & Hv' & _)]; [|congruence].
    assert (e' = e) as -> by congruence. by rewrite Hr in Hr'.
Qed.
Lemma coded_corrupt fs old key paths c : corrupt fs paths -> coded fs old key paths c -> c = EXIT_CORRUPT_REJECT.
Proof.
  intros Hc [[-> (chain & n & b & Hv & Hg)]|[[-> _]|[-> Hb]]]; [exfalso|done|exfalso].
  - destruct Hc as (e & He & _). congruence.
  - pose proof (coded_broken fs old key paths EXIT_CORRUPT_REJECT Hb) as Habs. discriminate Habs. right. by left.
Qed.
Lemma coded_code fs old key paths c : coded fs old key paths c -> is_code c.
Proof. unfold is_code. intros [[-> _]|[[-> _]|[-> _]]]; auto. Qed.

(** * The scan *)

Lemma scan_groups_spec fs ts old groups : NoDup (map fst groups) -> forall s, is_code (sc_worst s) -> keys_sorted (sc_now s) ->
  exists s' codes, scan_groups (N := N) fs ts old s groups = Some s' /\
    Forall2 (fun g c => coded fs old (fst g) (snd g) c) groups codes /\ sc_worst s' = worst_of codes (sc_worst s) /\
    (forall key, key ∉ map fst groups -> map_get (sc_now s') key = map_get (sc_now s) key) /\
    (forall key paths, In (key, paths) groups -> exists obs, map_get (sc_now s') key = Some obs /\ seen_as fs paths obs).
Proof.
  induction groups as [|[key paths] groups IH]; intros Hnd s Hw Hsort; cbn [scan_groups].
  { exists s, []. by split_and!. }
  apply NoDup_cons in Hnd as [Hkey Hnd].
  destruct (scan_group_spec fs ts old s key paths Hw) as (s1 & c & obs & -> & Hc & Hw1 & Hnow & Hobs).
  destruct (IH Hnd s1) as (s' & codes & -> & Hcs & Hworst & Hother & Hin).
  { rewrite Hw1. apply bump_code; [by eapply coded_code|done]. }
  { rewrite Hnow. by apply obj_insert_sorted. }
  exists s', (c :: codes). split; [done|]. split_and!.
  - by constructor.
  - by rewrite Hworst, Hw1.
  - intros k Hk. cbn [map fst] in Hk. rewrite not_elem_of_cons in Hk. destruct Hk as [Hne Hk].
    rewrite Hother, Hnow by done. apply map_get_insert_ne; [done|congruence].
  - intros k ps [[= <- <-]|Hi]; [|by apply Hin]. exists obs. split; [|done].
    rewrite Hother, Hnow by done. apply map_get_insert_eq.
Qed.
(** The codes of the keys that are gone. *)
Definition gone_code (s : Scan) (key : string) : Z := if map_contains_key (sc_now s) key then EXIT_OK else EXIT_FILE_GONE.
Lemma gone_spec keys s : is_code (sc_worst s) ->
  sc_now (fold_left (check_gone false) keys s) = sc_now s /\
  sc_worst (fold_left (check_gone false) keys s) = worst_of (map (gone_code s) keys) (sc_worst s).
Proof.
  revert s. induction keys as [|key keys IH]; intros s Hw; [done|]. cbn [fold_left map worst_of].
  assert (sc_now (check_gone false s key) = sc_now s /\ sc_worst (check_gone false s key) = bump (gone_code s key) (sc_worst s)) as [Hn Hb].
  { unfold check_gone, gone_code. destruct (map_contains_key (sc_now s) key); cbn [negb andb]; [by rewrite bump_ok|done]. }
  destruct (IH (check_gone false s key)) as [-> ->].
  { rewrite Hb. apply bump_code; [|done]. unfold gone_code, is_code. case_match; auto. }
  split; [done|]. rewrite Hb. unfold worst_of. f_equal. apply map_ext. intros k. unfold gone_code. by rewrite Hn.
Qed.
(** The scan reports its worst alarm, and sees every group. *)
Lemma scan_spec fs ts old log groups : NoDup (map fst groups) ->
  exists s, scan (N := N) fs ts old log groups = Some s /\
    (sc_worst s = EXIT_OK \/ code_alarm fs old groups (sc_worst s)) /\
    (forall c, code_alarm fs old groups c -> rank c <= rank (sc_worst s)) /\
    (forall key paths, In (key, paths) groups -> exists obs, map_get (sc_now s) key = Some obs /\ seen_as fs paths obs).
Proof.
  intros Hnd. unfold scan.
  destruct (scan_groups_spec fs ts old groups Hnd (mk_scan map_new EXIT_OK [] log)) as (s1 & codes & Hs1 & Hcs & Hw & Hother & Hin);
    [by left|apply keys_sorted_nil|]. rewrite Hs1. eexists. split; [reflexivity|]. cbn [sc_worst sc_now] in Hw, Hother.
  assert (Forall is_code codes) as Hcodes.
  { apply Forall_forall. intros c Hc. apply list_elem_of_lookup in Hc as [i Hi].
    destruct (Forall2_lookup_r _ _ _ _ _ Hcs Hi) as (g & _ & Hg). by eapply coded_code. }
  assert (is_code (sc_worst s1)) as Hw1 by (rewrite Hw; apply worst_code; [by left|done]).
  assert (fold_left (check_gone (map_is_empty old)) (map fst old) s1 = fold_left (check_gone false) (map fst old) s1) as -> by by destruct old.
  destruct (gone_spec (map fst old) s1 Hw1) as [-> ->].
  assert (forall key, map_contains_key (sc_now s1) key = true <-> key ∈ map fst groups) as Hkeys.
  { intros key. rewrite map_contains_key_get. split.
    - intros [obs Hobs]. destruct (decide (key ∈ map fst groups)) as [|Hn]; [done|]. by rewrite Hother in Hobs.
    - intros Hk. apply list_elem_of_In, in_map_iff in Hk as ([k paths] & <- & Hi). destruct (Hin k paths Hi) as (obs & Hobs & _). by exists obs. }
  assert (forall key, key ∈ map fst old -> gone_code s1 key ∈ map (gone_code s1) (map fst old)) as Hgone.
  { intros key Hk. apply list_elem_of_In, in_map, list_elem_of_In, Hk. }
  split_and!; [| |done].
  - destruct (worst_in (map (gone_code s1) (map fst old)) (sc_worst s1)) as [->|Hg].
    + rewrite Hw. destruct (worst_in codes EXIT_OK) as [->|Hc]; [by left|].
      apply list_elem_of_lookup in Hc as [i Hi]. destruct (Forall2_lookup_r _ _ _ _ _ Hcs Hi) as ([k paths] & Hk & Hg).
      apply list_elem_of_lookup_2, list_elem_of_In in Hk. destruct Hg as [[-> _]|[[-> ?]|[-> ?]]]; [by left|right..].
      * by eapply code_corrupt.
      * by eapply code_broken.
    + apply list_elem_of_In, in_map_iff in Hg as (key & <- & Hk%list_elem_of_In). unfold gone_code.
      destruct (map_contains_key (sc_now s1) key) eqn:Hc; [by left|]. right. apply (code_gone _ _ _ key); [done|].
      rewrite <- Hkeys, Hc. done.
  - assert (forall key paths c, In (key, paths) groups -> c <> EXIT_OK -> (forall c', coded fs old key paths c' -> c' = c) ->
      rank c <= rank (worst_of (map (gone_code s1) (map fst old)) (sc_worst s1))) as Hcode.
    { intros key paths c Hi _ Hc. apply list_elem_of_In, list_elem_of_lookup in Hi as [i Hi].
      destruct (Forall2_lookup_l _ _ _ _ _ Hcs Hi) as (c' & Hi' & Hc'). rewrite <- (Hc c' Hc').
      transitivity (rank (sc_worst s1)); [|apply worst_bound; by left]. rewrite Hw. apply worst_bound. right. by eapply list_elem_of_lookup_2. }
    intros c [key paths Hi Hb|key Hk Hn|key paths Hi Hc].
    + apply (Hcode key paths); [done..|]. intros c'. apply coded_broken, Hb.
    + apply worst_bound. right. replace EXIT_FILE_GONE with (gone_code s1 key); [by apply Hgone|].
      unfold gone_code. destruct (map_contains_key (sc_now s1) key) eqn:Hc; [|done]. by apply Hkeys in Hc.
    + apply (Hcode key paths); [done..|]. intros c'. apply coded_corrupt, Hc.
Qed.
End Spec.

(** * The alarms, without the code

    What a group of files is, said of the files alone. *)
Section Alarms.
Context {N : Type} `{SerdeNumber N, SerdeText N, Blake3}.
Implicit Types (fs : Files) (prev : string) (records : list WalRecord).

(** A record follows the hash [prev] with the hash [h]: the hashes stored in it
    are those of its fact, of what comes before, and of both. *)
Definition follows prev (r : WalRecord) (h : string) : Prop :=
  exists content, fact_hash (N := N) (rec_fact r) = Ok content /\ h = chain_step prev content /\
    (forall stored, rec_content_hash r = Some stored -> stored = content) /\
    (forall stored, rec_prev_hash r = Some stored -> stored = prev) /\
    (forall stored, rec_chain_hash r = Some stored -> stored = h).
Fixpoint links prev records (hashes : list string) : Prop :=
  match records, hashes with
  | [], [] => True
  | r :: records, h :: hashes => follows prev r h /\ links h records hashes
  | _, _ => False
  end.
(** A group whose files are all there and read, with the hashes of the chain
    their records are, from [prev] on. *)
Inductive group_chain fs : string -> list WalPath -> list string -> Prop :=
| gc_end prev : group_chain fs prev [] []
| gc_file prev p paths lines records h1 h2 :
    fs !! path_string p = Some lines -> read_wal_with_hash (N := N) fs p = Some (Ok records) -> links prev records h1 ->
    group_chain fs (default prev (last h1)) paths h2 -> group_chain fs prev (p :: paths) (h1 ++ h2).
(** The first thing wrong with a group: a file that is not there, a file that
    cannot be read, a record that does not follow what comes before it. *)
Inductive Fault : Type :=
| Missing (p : WalPath)
| Unreadable (p : WalPath) (e : WalError)
| Unlinked (p : WalPath) (r : WalRecord).
Inductive first_fault fs : string -> list WalPath -> Fault -> Prop :=
| ff_missing prev p paths : fs !! path_string p = None -> first_fault fs prev (p :: paths) (Missing p)
| ff_unreadable prev p paths lines e :
    fs !! path_string p = Some lines -> read_wal_with_hash (N := N) fs p = Some (Err e) ->
    first_fault fs prev (p :: paths) (Unreadable p e)
| ff_unlinked prev p paths lines records h1 r rest :
    fs !! path_string p = Some lines -> read_wal_with_hash (N := N) fs p = Some (Ok (records ++ r :: rest)) ->
    links prev records h1 -> (forall h, ~ follows (default prev (last h1)) r h) ->
    first_fault fs prev (p :: paths) (Unlinked p r)
| ff_later prev p paths lines records h1 f :
    fs !! path_string p = Some lines -> read_wal_with_hash (N := N) fs p = Some (Ok records) -> links prev records h1 ->
    first_fault fs (default prev (last h1)) paths f -> first_fault fs prev (p :: paths) f.

(** A text with the words for a line that is not JSON.  The sentinel looks for
    them in the whole report of a fault, the path of the file included. *)
Definition speaks (s : string) : bool := contains "JSON parse error" s || contains "EOF while parsing" s.
Definition unparsed (f : Fault) : bool :=
  match f with
  | Missing p => speaks (path_string p)
  | Unreadable p e => speaks (path_string p) || speaks (wal_error_display e)
  | Unlinked p r => speaks (path_string p) ||
      match fact_hash (N := N) (rec_fact r) with Err e => speaks (hash_error_display e) | Ok _ => false end
  end.
(** What is wrong with these groups, with the exit code for it: 3 for a group
    with a fault that is no unparsed line, or whose chain does not go on from
    the baseline; 4 for a group of the baseline that is gone; 5 for a group
    with a line that does not parse. *)
Inductive alarm fs (old : Baseline) (groups : ObjectMap (list WalPath)) : Z -> Prop :=
| alarm_fault key paths f : In (key, paths) groups -> first_fault fs "genesis" paths f -> unparsed f = false -> alarm fs old groups 3
| alarm_discontinued key paths chain (prev : FileObs) :
    In (key, paths) groups -> group_chain fs "genesis" paths chain -> map_get old key = Some prev -> ~ continues prev chain ->
    alarm fs old groups 3
| alarm_gone key : key ∈ map fst old -> key ∉ map fst groups -> alarm fs old groups 4
| alarm_unparsed key paths f : In (key, paths) groups -> first_fault fs "genesis" paths f -> unparsed f = true -> alarm fs old groups 5.

(** The words in a report: none of them has a colon, and they begin with a
    capital letter. *)
Lemma contains_String a p c s : contains (String a p) (String c s) = String.prefix (String a p) (String c s) || contains (String a p) s.
Proof. unfold contains. cbn [String.index]. destruct (String.prefix _ _); [done|]. by destruct (String.index 0 _ s). Qed.
Lemma prefix_separator p x a b : str_all (fun c => negb (Ascii.eqb c x)) p = true -> String.prefix p (a +:+ String x b) = String.prefix p a.
Proof.
  revert a. induction p as [|c p IH]; intros a; [by destruct a|]. cbn [str_all]. intros [Hc Hp]%andb_true_iff.
  destruct a as [|d a]; cbn [String.append String.prefix].
  - destruct (ascii_dec c x) as [->|]; [by rewrite Ascii.eqb_refl in Hc|done].
  - destruct (ascii_dec c d); [by apply IH|done].
Qed.
Lemma contains_separator c p x a b : str_all (fun c => negb (Ascii.eqb c x)) (String c p) = true ->
  contains (String c p) (a +:+ String x b) = contains (String c p) a || contains (String c p) b.
Proof.
  intros Hp. induction a as [|d a IH].
  - change ("" +:+ String x b) with (String x b). rewrite contains_String.
    pose proof (prefix_separator (String c p) x "" b Hp) as He. change ("" +:+ String x b) with (String x b) in He. by rewrite He.
  - change (String d a +:+ String x b) with (String d (a +:+ String x b)). rewrite !contains_String, IH.
    pose proof (prefix_separator (String c p) x (String d a) b Hp) as He.
    change (String d a +:+ String x b) with (String d (a +:+ String x b)) in He. by rewrite He, orb_assoc.
Qed.
Lemma speaks_separator a b : speaks (a +:+ String ":" b) = speaks a || speaks b.
Proof.
  unfold speaks. rewrite !contains_separator by reflexivity.
  destruct (contains "JSON parse error" a), (contains "EOF while parsing" a), (contains "JSON parse error" b); done.
Qed.
Definition no_capital (c : ascii) : bool := negb (Ascii.eqb c "J") && negb (Ascii.eqb c "E").
Lemma speaks_String c s : no_capital c = true -> speaks (String c s) = speaks s.
Proof.
  unfold no_capital, speaks. intros [HJ HE]%andb_true_iff. rewrite !contains_String.
  assert (String.prefix "JSON parse error" (String c s) = false) as ->.
  { cbn [String.prefix]. destruct (ascii_dec "J" c) as [<-|]; [done|done]. }
  assert (String.prefix "EOF while parsing" (String c s) = false) as ->; [|done].
  cbn [String.prefix]. destruct (ascii_dec "E" c) as [<-|]; [done|done].
Qed.
Lemma speaks_plain s : str_all no_capital s = true -> speaks s = false.
Proof. induction s as [|c s IH]; [done|]. cbn [str_all]. intros [Hc Hs]%andb_true_iff. rewrite speaks_String by done. by apply IH. Qed.
Lemma pretty_no_capital (z : Z) : str_all no_capital (pretty z) = true.
Proof.
  assert (forall n : BinNums.N, str_all no_capital (pretty n) = true) as Hn.
  { intros n. eapply str_all_impl; [|apply pretty_N_digits]. intros c. by destruct c as [[] [] [] [] [] [] [] []]. }
  destruct z as [|p|p]; [done|apply (Hn (Npos p))|]. cbn. apply (Hn (Npos p)).
Qed.
Lemma speaks_report p rest : speaks ((p +:+ ": ") +:+ rest) = speaks p || speaks rest.
Proof.
  rewrite <- str_app_assoc. change (": " +:+ rest) with (String ":" (String " " rest)).
  by rewrite speaks_separator, (speaks_String " ").
Qed.
Lemma speaks_report_plain p rest : speaks rest = false -> speaks ((p +:+ ": ") +:+ rest) = speaks p.
Proof. intros Hr. by rewrite speaks_report, Hr, orb_false_r. Qed.
Lemma speaks_fact (what : string) (id : Z) rest :
  str_all no_capital what = true -> str_all no_capital rest = true -> speaks (what +:+ pretty id +:+ rest) = false.
Proof. intros Hw Hr. apply speaks_plain. by rewrite !str_all_app, Hw, Hr, pretty_no_capital. Qed.

(** The code checks exactly that. *)
Lemma group_record_follows p prev r :
  match group_record (N := N) p prev r with
  | Ok h => follows prev r h
  | Err e => (forall h, ~ follows prev r h) /\ speaks e = unparsed (Unlinked p r)
  end.
Proof.
  unfold group_record, follows, unparsed. destruct (fact_hash (rec_fact r)) as [content|e] eqn:Hf; cbv zeta.
  2: { split; [by intros h (c & [=] & _)|]. by rewrite speaks_report. }
  rewrite orb_false_r.
  assert (forall o x, match o with Some s => negb (String.eqb s x) | None => false end = false <-> forall s : string, o = Some s -> s = x) as Hd.
  { intros [s|] x; [|by split]. rewrite negb_false_iff, String.eqb_eq. split; [by intros -> ? [= ->]|intros Hs; by apply Hs]. }
  assert (forall (o : option string) x, match o with Some s => negb (String.eqb s x) | None => false end = true -> (forall s, o = Some s -> s = x) -> False) as Hd'.
  { intros o x Ht Hs. apply Hd in Hs. congruence. }
  destruct (match rec_content_hash r with Some _ => _ | None => _ end) eqn:E1.
  { split; [intros h (c & [= <-] & _ & Hs & _); by eapply Hd'|]. apply speaks_report_plain.
    rewrite <- (str_app_nil_r (pretty _)). by apply speaks_fact. }
  destruct (match rec_prev_hash r with Some _ => _ | None => _ end) eqn:E2.
  { split; [intros h (c & [= <-] & _ & _ & Hs & _); by eapply Hd'|]. apply speaks_report_plain. by apply speaks_fact. }
  destruct (match rec_chain_hash r with Some _ => _ | None => _ end) eqn:E3.
  { split; [intros h (c & [= <-] & -> & _ & _ & Hs); by eapply Hd'|]. apply speaks_report_plain.
    rewrite <- (str_app_nil_r (pretty _)). by apply speaks_fact. }
  exists content. split_and!; [done..|by apply Hd|by apply Hd|by apply Hd].
Qed.
Lemma follows_unique prev r h h' : follows prev r h -> follows prev r h' -> h = h'.
Proof. intros (c & Hc & -> & _) (c' & Hc' & -> & _). congruence. Qed.
Lemma group_records_links p prev records :
  match group_records (N := N) p prev records with
  | Ok hashes => links prev records hashes
  | Err e => exists done r rest hashes, records = done ++ r :: rest /\ links prev done hashes /\
      (forall h, ~ follows (default prev (last hashes)) r h) /\ speaks e = unparsed (Unlinked p r)
  end.
Proof.
  revert prev. induction records as [|r records IH]; intros prev; cbn [group_records]; [done|].
  pose proof (group_record_follows p prev r) as Hr. destruct (group_record p prev r) as [h|e].
  - specialize (IH h). destruct (group_records p h records) as [hashes|e]; [by split|].
    destruct IH as (done & r' & rest & hashes & -> & Hl & Hn & He). exists (r :: done), r', rest, (h :: hashes).
    split_and!; [done|done| |done]. rewrite last_cons. by destruct (last hashes).
  - destruct Hr as [Hr He]. by exists [], r, records, [].
Qed.
Lemma group_files_exact fs prev bytes paths :
  exists r, group_files (N := N) fs prev bytes paths = Some r /\
  match r with
  | Ok (hashes, bytes') => group_chain fs prev paths hashes /\
      bytes' = fold_left (fun n p => match fs !! path_string p with Some lines => u64_wrapping_add n (file_len lines) | None => n end) paths bytes
  | Err e => exists f, first_fault fs prev paths f /\ speaks e = unparsed f
  end.
Proof.
  revert prev bytes. induction paths as [|p paths IH]; intros prev bytes; cbn [group_files fold_left].
  { eexists. split; [done|]. split; [constructor|done]. }
  destruct (fs !! path_string p) as [lines|] eqn:Hf.
  2: { eexists. split; [done|]. exists (Missing p). split; [by constructor|]. by apply speaks_report_plain. }
  destruct (proj1 (wal_read_fails_closed (N := N) fs p)) as [[records|e] Hread]; rewrite Hread.
  2: { eexists. split; [done|]. exists (Unreadable p e). split; [by econstructor|]. by rewrite speaks_report. }
  pose proof (group_records_links p prev records) as Hl. destruct (group_records p prev records) as [h1|e].
  2: { destruct Hl as (before & r & rest & hashes & -> & Hl & Hn & He). eexists. split; [done|]. exists (Unlinked p r).
    split; [by eapply ff_unlinked|done]. }
  destruct (IH (default prev (last h1)) (u64_wrapping_add bytes (file_len lines))) as (r & -> & Hr).
  eexists. split; [done|]. destruct r as [[h2 b2]|e].
  - destruct Hr as [Hg ->]. split; [by econstructor|done].
  - destruct Hr as (f & Hff & He). exists f. split; [by eapply ff_later|done].
Qed.
Lemma verify_group_exact fs paths :
  exists r, verify_group (N := N) fs paths = Some r /\
  match r with
  | Ok (chain, n, bytes) => group_chain fs "genesis" paths chain /\ n = Z.of_nat (length chain) /\ bytes = present_bytes fs paths
  | Err e => exists f, first_fault fs "genesis" paths f /\
      rejected_code e = if unparsed f then EXIT_CORRUPT_REJECT else EXIT_CHAIN_BROKEN
  end.
Proof.
  unfold verify_group. destruct (group_files_exact fs "genesis" 0 paths) as ([[chain bytes]|e] & -> & Hr); eexists; (split; [done|]).
  - destruct Hr as [Hg ->]. by split_and!.
  - destruct Hr as (f & Hff & He). exists f. split; [done|]. unfold rejected_code. fold (speaks e). by rewrite He.
Qed.

(** A group has one chain or one first fault. *)
Lemma links_unique prev records h1 h2 : links prev records h1 -> links prev records h2 -> h1 = h2.
Proof.
  revert prev h1 h2. induction records as [|r records IH]; intros prev [|h1 l1] [|h2 l2]; cbn; try done.
  intros [Hr1 Hl1] [Hr2 Hl2]. assert (h1 = h2) as -> by by eapply follows_unique. f_equal. by eapply IH.
Qed.
Lemma links_stops prev before r rest hashes h :
  links prev before h -> (forall x, ~ follows (default prev (last h)) r x) -> ~ links prev (before ++ r :: rest) hashes.
Proof.
  revert prev hashes h. induction before as [|b before IH]; intros prev [|x hashes] [|y h]; cbn [links app]; try done;
    try by intros ? ? [].
  - intros _ Hn [Hf _]. by eapply Hn.
  - intros [Hb Hl] Hn [Hb' Hl']. assert (y = x) as -> by by eapply follows_unique.
    eapply (IH x hashes h); [done| |done]. rewrite last_cons in Hn. by destruct (last h).
Qed.
Lemma links_stops_at prev before1 r1 rest1 h1 before2 r2 rest2 h2 :
  before1 ++ r1 :: rest1 = before2 ++ r2 :: rest2 -> links prev before1 h1 -> links prev before2 h2 ->
  (forall x, ~ follows (default prev (last h1)) r1 x) -> (forall x, ~ follows (default prev (last h2)) r2 x) -> r1 = r2.
Proof.
  revert prev before2 h1 h2. induction before1 as [|b before1 IH]; intros prev [|b2 before2] [|x1 h1] [|x2 h2]; cbn [links app]; try done.
  - by intros [= ->].
  - intros [= -> _] _ [Hf _] Hn _. exfalso. by eapply Hn.
  - intros [= -> _] [Hf _] _ _ Hn. exfalso. by eapply Hn.
  - intros [= -> Heq] [Hf1 Hl1] [Hf2 Hl2]. assert (x1 = x2) as -> by by eapply follows_unique. rewrite !last_cons.
    intros Hn1 Hn2. eapply (IH x2 before2 h1 h2); [done..| |]; [by destruct (last h1)|by destruct (last h2)].
Qed.
Lemma group_chain_unique fs prev paths c1 c2 : group_chain fs prev paths c1 -> group_chain fs prev paths c2 -> c1 = c2.
Proof.
  intros G1. revert c2. induction G1 as [prev|prev p paths lines records h1 h2 Hf Hr Hl _ IH]; intros c2 G2; inversion G2; subst; [done|].
  assert (records0 = records) as -> by congruence. assert (h0 = h1) as -> by by eapply links_unique. f_equal. by apply IH.
Qed.
Lemma chain_no_fault fs prev paths c f : group_chain fs prev paths c -> ~ first_fault fs prev paths f.
Proof.
  intros G1. induction G1 as [prev|prev p paths lines records h1 h2 Hf Hr Hl _ IH]; intros G2; inversion G2; subst; try congruence.
  - assert (records = records0 ++ r :: rest) as -> by congruence. by eapply links_stops.
  - assert (records0 = records) as -> by congruence. assert (h0 = h1) as -> by by eapply links_unique. by apply IH.
Qed.
Lemma fault_unique fs prev paths f g : first_fault fs prev paths f -> first_fault fs prev paths g -> f = g.
Proof.
  intros G1. revert g. induction G1 as [prev p paths Hf|prev p paths lines e Hf Hr|prev p paths lines records h1 r rest Hf Hr Hl Hn
    |prev p paths lines records h1 f Hf Hr Hl _ IH]; intros g G2; inversion G2; subst; try congruence.
  - match goal with Hx : _ = Some (Ok (?l ++ r0 :: ?l')), Hy : links prev ?l ?h, Hz : forall _, ~ follows _ r0 _ |- _ =>
      f_equal; apply (links_stops_at prev records r rest h1 l r0 l' h); [congruence|exact Hl|exact Hy|exact Hn|exact Hz] end.
  - exfalso. assert (records0 = records ++ r :: rest) as -> by congruence. by eapply (links_stops _ records r rest).
  - exfalso. assert (records = records0 ++ r :: rest) as -> by congruence. by eapply (links_stops _ records0 r rest).
  - assert (records0 = records) as -> by congruence. assert (h0 = h1) as -> by by eapply links_unique. by apply IH.
Qed.
Lemma alarm_exact fs old groups c : alarm fs old groups c <-> code_alarm (N := N) fs old groups c.
Proof.
  split.
  - intros [key paths f Hi Hf Hu|key paths chain prev Hi Hg Hp Hc|key Hk Hn|key paths f Hi Hf Hu].
    + destruct (verify_group_exact fs paths) as ([[[chain n] b]|e] & Hv & Hr).
      * destruct Hr as [Hg _]. exfalso. by eapply chain_no_fault.
      * destruct Hr as (f' & Hf' & He). rewrite (fault_unique _ _ _ _ _ Hf' Hf), Hu in He.
        apply (code_broken _ _ _ key paths Hi). left. by exists e.
    + destruct (verify_group_exact fs paths) as ([[[chain' n] b]|e] & Hv & Hr).
      * destruct Hr as (Hg' & -> & ->). rewrite <- (group_chain_unique _ _ _ _ _ Hg Hg') in Hv.
        apply (code_broken _ _ _ key paths Hi). right. by eexists _, _, _, _.
      * destruct Hr as (f' & Hf' & _). exfalso. by eapply chain_no_fault.
    + by eapply code_gone.
    + destruct (verify_group_exact fs paths) as ([[[chain n] b]|e] & Hv & Hr).
      * destruct Hr as [Hg _]. exfalso. by eapply chain_no_fault.
      * destruct Hr as (f' & Hf' & He). rewrite (fault_unique _ _ _ _ _ Hf' Hf), Hu in He.
        apply (code_corrupt _ _ _ key paths Hi). by exists e.
  - intros [key paths Hi Hb|key Hk Hn|key paths Hi Hc].
    + destruct (verify_group_exact fs paths) as (r & Hv & Hr). destruct Hb as [(e & He & Hcode)|(chain & n & b & prev & He & Hp & Hn)].
      * assert (r = Err e) as -> by congruence. destruct Hr as (f & Hf & Hr). rewrite Hcode in Hr.
        apply (alarm_fault _ _ _ key paths f Hi Hf). by destruct (unparsed f).
      * assert (r = Ok (chain, n, b)) as -> by congruence. destruct Hr as (Hg & _). by eapply alarm_discontinued.
    + by eapply alarm_gone.
    + destruct Hc as (e & He & Hcode). destruct (verify_group_exact fs paths) as (r & Hv & Hr).
      assert (r = Err e) as -> by congruence. destruct Hr as (f & Hf & Hr). rewrite Hcode in Hr.
      apply (alarm_unparsed _ _ _ key paths f Hi Hf). by destruct (unparsed f).
Qed.
(** A line that is not JSON is unparsed; a missing file and a record that does
    not follow are not, unless the path says so. *)
Lemma unparsed_line p n msg : unparsed (Unreadable p (at_line n ("JSON parse error: " +:+ msg))) = true.
Proof.
  unfold unparsed, speaks. apply orb_true_iff. right. apply orb_true_iff. left. cbn [wal_error_display at_line].
  do 4 apply contains_suffix. apply (contains_app "JSON parse error" "" (": " +:+ msg)).
Qed.
End Alarms.

(** * The groups *)

Lemma keys_sorted_NoDup {V} (m : ObjectMap V) : keys_sorted m -> NoDup (map fst m).
Proof.
  induction m as [|[k v] m IH]; [constructor|]. intros [Hs Hk]%keys_sorted_cons. cbn [map fst]. constructor; [|by apply IH].
  intros Hin%list_elem_of_In. rewrite List.Forall_forall in Hk. specialize (Hk k Hin). unfold str_lt in Hk.
  by rewrite str_compare_refl in Hk.
Qed.
Lemma classify_sorted dir entries groups : classify dir entries = Ok groups -> keys_sorted groups.
Proof.
  unfold classify. destruct entries as [names|]; [|done]. intros [= <-]. unfold keys_sorted. rewrite map_map.
  rewrite (map_ext _ fst) by by intros [key paths].
  assert (forall l m, keys_sorted m -> keys_sorted (fold_left (add_entry dir) l m)) as Hl; [|apply Hl, keys_sorted_nil].
  induction l as [|name l IH]; intros m Hm; [done|]. cbn [fold_left]. apply IH. unfold add_entry.
  destruct (group_key name); [|done]. by apply obj_insert_sorted.
Qed.

(** What a scan that succeeds has seen. *)
Lemma scan_succeeds {N : Type} `{SerdeNumber N, SerdeText N, Blake3, Ed25519} fs ts dir entries (files files' : ScanFiles (N := N)) :
  scan_wal_dir (N := N) fs ts dir entries files = Some (Ok tt, files') ->
  exists groups old now, classify dir entries = Ok groups /\ keys_sorted groups /\
    default (Ok map_new) (sf_baseline files) = Ok old /\ sf_baseline files' = Some (Ok now) /\
    (forall key, key ∈ map fst old -> key ∈ map fst groups) /\
    (forall key paths, In (key, paths) groups -> exists chain n bytes,
       verify_group (N := N) fs paths = Some (Ok (chain, n, bytes)) /\
       map_get now key = Some (mk_obs n (default "genesis" (last chain)) bytes "verified") /\
       forall prev, map_get old key = Some prev -> continues prev chain).
Proof.
  unfold scan_wal_dir. destruct self_test as [_u|]; [|done]. destruct (classify dir entries) as [groups|] eqn:Hc; [|done].
  destruct (default (Ok map_new) (sf_baseline files)) as [old|]; [|done].
  pose proof (classify_sorted _ _ _ Hc) as Hsort. pose proof (keys_sorted_NoDup _ Hsort) as Hnd.
  destruct (scan_spec (N := N) fs ts old (sf_log files) groups Hnd) as (s & -> & _ & Hmax & Hin).
  unfold finalize_and_report. destruct (Z.eqb_spec (sc_worst s) EXIT_OK) as [He|He]; [|done]. intros [= <-].
  assert (forall c, ~ code_alarm (N := N) fs old groups c) as Hno.
  { intros c Ha. pose proof (Hmax c Ha) as Hr. rewrite He in Hr. destruct Ha; cbn in Hr; lia. }
  exists groups, old, (sc_now s). split_and!; [done..| |].
  - intros key Hk. destruct (decide (key ∈ map fst groups)) as [|Hn]; [done|]. exfalso. eapply Hno. by eapply code_gone.
  - intros key paths Hi. destruct (Hin key paths Hi) as (obs & Hobs & Hseen).
    destruct (verify_group_total (N := N) fs paths) as [[[[chain n] b]|e] Hv].
    + exists chain, n, b. split_and!; [done|by rewrite Hobs, (Hseen _ _ _ Hv)|]. intros prev Hp.
      destruct (decide (continues prev chain)) as [|Hn]; [done|]. exfalso. eapply Hno. eapply code_broken; [done|].
      right. by exists chain, n, b, prev.
    + exfalso. destruct (rejected_cases e) as [Hr|Hr]; eapply Hno; [eapply code_corrupt; [done|by exists e]|].
      eapply code_broken; [done|]. left. by exists e.
Qed.
(** A chain that goes on from what was seen has the chain before as its
    beginning: the hash of the first facts is the last hash before. *)
Lemma continues_prefix {N : Type} `{SerdeNumber N, SerdeText N, Blake3} (h1 h2 : list Fact) (chain1 chain2 : list string)
    (bytes : Z) (verdict : string) :
  trail (N := N) "genesis" h1 chain1 -> trail (N := N) "genesis" h2 chain2 -> h1 <> [] ->
  continues (mk_obs (Z.of_nat (length chain1)) (default "genesis" (last chain1)) bytes verdict) chain2 ->
  compute_chain_hash (N := N) h1 = compute_chain_hash (N := N) (take (length h1) h2).
Proof.
  intros Ht1 Ht2 Hne Hc. rewrite !compute_chain_hash_from, (trail_last _ _ _ Ht1). symmetry.
  pose proof (trail_length _ _ _ Ht1) as Hl1. pose proof (trail_length _ _ _ Ht2) as Hl2.
  assert (0 < length h1) as Hpos by (destruct h1; [done|cbn; lia]). unfold continues in Hc. cbn [obs_records obs_tail] in Hc.
  destruct Hc as [[Hlen Htail]|[Hlen Hat]].
  - rewrite take_ge by lia. by rewrite (trail_last _ _ _ Ht2), Htail.
  - apply (trail_lookup _ _ _ _ _ Ht2) in Hat. by replace (S (Nat.pred (Z.to_nat (Z.of_nat (length chain1))))) with (length h1) in Hat by lia.
Qed.

(** * Properties *)

(** C31: the sentinel reports the worst thing there is.  When the verifier
    passes its own test and the baseline can be read, a scan always ends.  It
    succeeds exactly when nothing is wrong: every group's files are there and
    read, their records are a chain from genesis in which every stored hash is
    right, and it goes on from what the baseline says of the group, and no
    group of the baseline is gone; then the baseline becomes what was seen of
    each group.  Otherwise the exit code is 3 when some group has a missing
    file, a record that does not follow the one before, a file that is read
    as no log, or a chain that does not go on from the baseline; else 4 when a
    group is gone; else 5, when the first fault of some group is a line that
    does not parse.  Whether a fault is a line that does not parse the
    sentinel decides by words in its report ([unparsed]): a path, or an error
    text, with these words counts as one. *)
Theorem sentinel_exit_exact {N : Type} `{SerdeNumber N, SerdeText N, Blake3, Ed25519} (fs : Files) (ts : Z) (dir : string)
    (entries : Result (list string) string) (files : ScanFiles (N := N)) (groups : ObjectMap (list WalPath)) (old : Baseline) :
  self_test (N := N) = Ok tt -> classify dir entries = Ok groups -> default (Ok map_new) (sf_baseline files) = Ok old ->
  exists r files', scan_wal_dir (N := N) fs ts dir entries files = Some (r, files') /\
    ((r = Ok tt /\ (forall c, ~ alarm (N := N) fs old groups c) /\
      exists now, sf_baseline files' = Some (Ok now) /\
        forall key paths, In (key, paths) groups ->
          exists chain, group_chain (N := N) fs "genesis" paths chain /\
            (forall prev, map_get old key = Some prev -> continues prev chain) /\
            map_get now key = Some (mk_obs (Z.of_nat (length chain)) (default "genesis" (last chain)) (present_bytes fs paths) "verified")) \/
     (exists c, r = Err (SentinelExit c) /\ sf_baseline files' = sf_baseline files /\ alarm (N := N) fs old groups c /\
        (c = 3 \/ (c = 4 /\ ~ alarm (N := N) fs old groups 3) \/
         (c = 5 /\ ~ alarm (N := N) fs old groups 3 /\ ~ alarm (N := N) fs old groups 4))%Z)).
Proof.
  intros Ht Hc Ho. unfold scan_wal_dir. rewrite Ht, Hc, Ho.
  pose proof (keys_sorted_NoDup _ (classify_sorted _ _ _ Hc)) as Hnd.
  destruct (scan_spec (N := N) fs ts old (sf_log files) groups Hnd) as (s & -> & Hw & Hmax & Hin).
  assert (forall c, alarm (N := N) fs old groups c -> rank c <= rank (sc_worst s)) as Hrank by (intros c Ha%alarm_exact; auto).
  eexists _, _. split; [reflexivity|]. unfold finalize_and_report. destruct (Z.eqb_spec (sc_worst s) EXIT_OK) as [He|He].
  - left. assert (forall c, ~ alarm (N := N) fs old groups c) as Hno.
    { intros c Ha. pose proof (Hrank c Ha) as Hr. rewrite He in Hr. destruct Ha; cbn in Hr; lia. }
    split_and!; [done..|]. eexists. split; [reflexivity|]. intros key paths Hi.
    destruct (Hin key paths Hi) as (obs & Hobs & Hseen).
    destruct (verify_group_exact (N := N) fs paths) as ([[[chain n] b]|e] & Hv & Hr).
    + destruct Hr as (Hg & -> & ->). exists chain. split; [done|]. split; [|by rewrite Hobs, (Hseen _ _ _ Hv)].
      intros prev Hp. destruct (decide (continues prev chain)) as [|Hn]; [done|]. exfalso. eapply Hno. by eapply alarm_discontinued.
    + exfalso. destruct Hr as (f & Hf & _). destruct (unparsed (N := N) f) eqn:Hu; eapply Hno; [by eapply alarm_unparsed|by eapply alarm_fault].
  - right. exists (sc_worst s). destruct Hw as [?|Hw]; [done|]. apply alarm_exact in Hw. split_and!; [done..|].
    assert (forall c, rank (sc_worst s) < rank c -> ~ alarm (N := N) fs old groups c) as Hno.
    { intros c Hlt Ha%Hrank. lia. }
    destruct Hw; [by left|by left|right; left|right; right]; split_and!; try done; apply Hno; cbn; lia.
Qed.

(** C30: between two scans without an alarm the logs only grew.  When a scan
    succeeds, and a later scan of the directory with the baseline the first
    one left succeeds too, every group of the first is still there, and the
    facts it held are the first facts of what it holds now (up to the integer
    variant), or comparing the two produces two different inputs of the hash
    function with the same hash.  Nothing else is assumed of what happened to
    the files in between. *)
Theorem sentinel_append_only {N : Type} `{SerdeNumberLaws N, SerdeText N, !SerdeTextLaws N, Blake3, !Blake3Laws, Ed25519}
    (fs1 fs2 : Files) (ts1 ts2 : Z) (dir : string) (entries1 entries2 : Result (list string) string)
    (files1 files1' files2 files2' : ScanFiles (N := N)) (groups1 : ObjectMap (list WalPath)) (key : string) (paths1 : list WalPath) :
  scan_wal_dir (N := N) fs1 ts1 dir entries1 files1 = Some (Ok tt, files1') ->
  scan_wal_dir (N := N) fs2 ts2 dir entries2 files2 = Some (Ok tt, files2') ->
  sf_baseline files2 = sf_baseline files1' ->
  classify dir entries1 = Ok groups1 -> In (key, paths1) groups1 ->
  exists groups2 paths2 h1 h2,
    classify dir entries2 = Ok groups2 /\ In (key, paths2) groups2 /\
    group_history (N := N) fs1 paths1 = Some h1 /\ group_history (N := N) fs2 paths2 = Some h2 /\
    (forallb wf_fact h1 = true -> forallb wf_fact h2 = true ->
     map norm_fact h1 = map norm_fact (take (length h1) h2) \/
     exists texts1 texts2 p,
       fact_texts (N := N) h1 = Ok texts1 /\ fact_texts (N := N) (take (length h1) h2) = Ok texts2 /\
       find_collision (rev texts1) (rev texts2) = Some p /\ collision p).
Proof.
  intros (g1 & old1 & now & Hg1 & Hsort1 & _ & Hnow & _ & Hin1)%scan_succeeds
    (g2 & old2 & now2 & Hg2 & Hsort2 & Hold2 & _ & Hkeys & Hin2)%scan_succeeds Hb Hc1 Hi1.
  assert (g1 = groups1) as -> by congruence. destruct (Hin1 _ _ Hi1) as (chain1 & n1 & b1 & Hv1 & Hseen & _).
  rewrite Hb, Hnow in Hold2. injection Hold2 as <-.
  assert (key ∈ map fst g2) as Hk.
  { apply Hkeys. apply map_get_In in Hseen. apply (in_map fst) in Hseen. by apply list_elem_of_In. }
  apply list_elem_of_In, in_map_iff in Hk as ([k paths2] & Heq & Hi2). cbn in Heq. subst k.
  destruct (Hin2 _ _ Hi2) as (chain2 & n2 & b2 & Hv2 & _ & Hcont). specialize (Hcont _ Hseen).
  apply verify_group_history in Hv1 as (-> & h1 & Hh1 & Ht1), Hv2 as (_ & h2 & Hh2 & Ht2).
  exists g2, paths2, h1, h2. split_and!; [done..|]. intros Hw1 Hw2.
  destruct h1 as [|f h1]; [by left|]. apply same_chain_same_facts; [done|by apply forallb_take|].
  by eapply continues_prefix.
Qed.

(** * Examples *)

(** A hash and a signature scheme that have the values the verifier knows. *)
Module Golden.
Import ZNumber ZText.
Definition texts : list string := map (fun f => default "" (result_ok (fact_text (N := Z) f))) golden_facts.
Definition first_input : string := "genesis" +:+ default "" (head KERNEL_HASH_SNAPSHOT).
Definition table : list (string * string) :=
  (first_input, repeat_byte 64 "0") :: combine texts KERNEL_HASH_SNAPSHOT.
Fixpoint assoc (l : list (string * string)) (s : string) : string :=
  match l with [] => ZHash.fit 64 s | (k, v) :: l => if String.eqb k s then v else assoc l s end.
#[export] Instance hash : Blake3 := {| blake3_hex := assoc table |}.
Definition table_ok : bool := forallb (fun e => Nat.eqb (String.length (snd e)) 64) table.
#[export] Instance hash_laws : Blake3Laws.
Proof.
  split. intros s. cbn [blake3_hex hash]. assert (table_ok = true) as Ht by (vm_compute; reflexivity). unfold table_ok in Ht.
  revert Ht. generalize table. induction l as [|[k v] l IH]; cbn [assoc forallb].
  - intros _. generalize 64%nat. intros n. revert s. by induction n as [|n IH]; intros [|c s]; cbn; rewrite ?IH.
  - intros [Hv Ht]%andb_true_iff. case_match; [by apply Nat.eqb_eq|by apply IH].
Qed.
Definition bytes_of (hex : string) : string := default "" (result_ok (hex_decode hex)).
#[export] Instance ed : Ed25519 := {|
  SigningKey := string;
  signing_key_from_bytes := fun seed => seed;
  verifying_key_bytes := fun k => if String.eqb k golden_seed then bytes_of GOLDEN_PK else ZHash.fit 32 k;
  ed_sign := fun k m => ZHash.fit 64 (k +:+ m);
  verifying_key_check := fun _ => Ok tt;
  ed_verify := fun pk m sig => (String.eqb pk (bytes_of GOLDEN_PK) && String.eqb m golden_payload && String.eqb sig (bytes_of golden_signature))%bool;
|}.

Definition log_path : WalPath := mk_path "" "session_1.wal".
Definition log_of (facts : list Fact) : Files :=
  match wal (inner (append_all (N := Z) (with_wal_options ∅ log_path 10000 false) facts)) with
  | Some (fs, _) => fs
  | None => ∅
  end.
Definition none : ScanFiles (N := Z) := mk_scan_files None None None.
Definition scan_of (facts : list Fact) (files : ScanFiles) : option (Result unit CliError * ScanFiles) :=
  scan_wal_dir (N := Z) (log_of facts) 0 "" (Ok ["session_1.wal"]) files.
Definition left (r : option (Result unit CliError * ScanFiles)) : ScanFiles (N := Z) :=
  match r with Some (_, files) => files | None => none end.
(** A scan of a log, then of a longer one. *)
Definition first : ScanFiles := left (scan_of (take 2 Demo.facts) none).
Definition second : ScanFiles := left (scan_of Demo.facts first).
Definition outcome (r : option (Result unit CliError * ScanFiles (N := Z))) : Z :=
  match r with Some (Ok _, _) => 0 | Some (Err e, _) => exit_code e | None => -1 end.
End Golden.
Import ZNumber ZText.
#[local] Existing Instances Golden.hash Golden.hash_laws Golden.ed.
(** A log without records has the tail [genesis]; when it grows, the chain hash
    of its first record is compared with that. *)
Lemma empty_log_alarm :
  Golden.outcome (Golden.scan_of [] Golden.none) = 0%Z /\
  Golden.outcome (Golden.scan_of Demo.facts (Golden.left (Golden.scan_of [] Golden.none))) = 3%Z.
Proof. split; vm_compute; reflexivity. Qed.

(** The words are looked for in the path too: below a directory with such a
    name, a log that lost its first record gets the code 5, elsewhere 3. *)
Definition moved (dir : string) : Files :=
  {[ path_string (mk_path dir "session_1.wal") := read_file (Golden.log_of (take 2 Demo.facts)) Golden.log_path ]}.
Definition forged (dir : string) : Files :=
  fmap (fun lines : list string => match lines with header :: _ :: rest => header :: rest | _ => lines end) (moved dir).
Definition code_in (dir : string) : Z :=
  Golden.outcome (scan_wal_dir (N := Z) (forged dir) 0 dir (Ok ["session_1.wal"]) Golden.none).
Lemma words_in_path : code_in "logs/" = 3%Z /\ code_in "JSON parse error/" = 5%Z.
Proof. split; vm_compute; reflexivity. Qed.

Lemma sentinel_exit_exact_witness :
  exists r files', Golden.scan_of (drop 1 Demo.facts) Golden.first = Some (r, files') /\
    (r = Ok tt \/ exists c, r = Err (SentinelExit c) /\ sf_baseline files' = sf_baseline Golden.first).
Proof.
  assert (self_test (N := Z) = Ok tt) as Ht by (vm_compute; reflexivity).
  assert (match sf_baseline Golden.first with Some (Ok _) => true | _ => false end = true) as Hb by (vm_compute; reflexivity).
  unfold Golden.scan_of. destruct (sf_baseline Golden.first) as [[old|e]|] eqn:Hf; try discriminate Hb.
  destruct (sentinel_exit_exact (N := Z) (Golden.log_of (drop 1 Demo.facts)) 0 "" (Ok ["session_1.wal"]) Golden.first
    [("session:1", [Golden.log_path])] old Ht) as (r & files' & Hs & Hr).
  - vm_compute. reflexivity.
  - rewrite Hf. exact eq_refl.
  - exists r, files'. split; [exact Hs|]. destruct Hr as [(Hr & _)|(c & Hr & Hk & _)]; [left; exact Hr|right].
    exists c. split; [exact Hr|]. rewrite <- Hf. exact Hk.
Defined.
Lemma sentinel_append_only_witness :
  exists groups2 paths2 h1 h2,
    classify "" (Ok ["session_1.wal"]) = Ok groups2 /\ In ("session:1", paths2) groups2 /\
    group_history (N := Z) (Golden.log_of (take 2 Demo.facts)) [Golden.log_path] = Some h1 /\
    group_history (N := Z) (Golden.log_of Demo.facts) paths2 = Some h2.
Proof.
  assert (match Golden.scan_of (take 2 Demo.facts) Golden.none with Some (Ok _, _) => true | _ => false end = true) as H1
    by (vm_compute; reflexivity).
  assert (match Golden.scan_of Demo.facts Golden.first with Some (Ok _, _) => true | _ => false end = true) as H2
    by (vm_compute; reflexivity).
  revert H2. unfold Golden.first. destruct (Golden.scan_of (take 2 Demo.facts) Golden.none) as [[[[]|] files1]|] eqn:Hs1; try discriminate H1.
  cbn [Golden.left]. destruct (Golden.scan_of Demo.facts files1) as [[[[]|] files2]|] eqn:Hs2; intros H2; try discriminate H2. clear H1 H2.
  unfold Golden.scan_of in Hs1, Hs2.
  destruct (sentinel_append_only (N := Z) _ _ 0 0 "" _ _ Golden.none files1 files1 files2 [("session:1", [Golden.log_path])] "session:1"
    [Golden.log_path] Hs1 Hs2 eq_refl) as (g2 & p2 & h1 & h2 & Hg & Hi & Hh1 & Hh2 & _).
  - vm_compute. reflexivity.
  - left. reflexivity.
  - exists g2, p2, h1, h2. split; [exact Hg|]. split; [exact Hi|]. split; [exact Hh1|exact Hh2].
Defined.
