(* ===== verification/Discipline.v ===== *)
(** The discipline gate, [evorule-discipline/src/lib.rs], with the clauses of
    [evorule-tcb/discipline/core_eval.json] it embeds and the command
    [validate] of [evorule-cli/src/commands/]: what a rule set must look like
    before it is loaded.  The gate annotates each instruction of the set with
    what the kernel does not see, and lets the kernel run the clauses on it. *)

From S2P Require Import Prelude ObjectMap Value Error Path Domain Executor Transition Fact Serde Hash Wal Cli.

(** * The clauses, [core_eval.json] *)

Definition d_instruction (ty : string) : JsonValue :=
  object_from_pairs [("type", JString "instruction"); ("instruction_type", JString ty)].
Definition d_exists (path : string) : JsonValue :=
  object_from_pairs [("type", JString "exists"); ("path", JString path)].
Definition d_eq_true (path : string) : JsonValue :=
  object_from_pairs [("type", JString "eq"); ("path", JString path); ("value", JBool true); ("on_missing", JString "unsat")].
Definition d_lt (path : string) (value : Z) : JsonValue :=
  object_from_pairs [("type", JString "lt"); ("path", JString path); ("value", JInteger value); ("on_missing", JString "unsat")].

Definition clause_domains : list JsonValue :=
  [all_domain [not_domain (d_instruction "branch"); not_domain (d_instruction "set"); not_domain (d_instruction "push");
          not_domain (d_instruction "io_request"); not_domain (d_instruction "enforce")];
   all_domain [d_instruction "enforce"; d_eq_true "instruction._ctx.nested"];
   all_domain [d_instruction "enforce"; not_domain (d_exists "instruction.params.reason")];
   all_domain [d_instruction "io_request"; not_domain (d_exists "instruction.params.io_type")];
   all_domain [d_instruction "io_request"; d_eq_true "instruction._ctx.shadowed"];
   all_domain [d_instruction "set";
          not_domain (all_domain [d_eq_true "instruction._ctx.has_attr"; d_eq_true "instruction._ctx.has_value"])];
   all_domain [d_instruction "branch"; not_domain (d_exists "instruction.params.domain")];
   all_domain [d_instruction "io_request"; d_exists "instruction._ctx.io_in_tree";
          not_domain (d_lt "instruction._ctx.io_in_tree" 2)];
   all_domain [d_instruction "io_request"; d_eq_true "instruction._ctx.preceded_by_mutating"]].
Definition clause_reasons : list string :=
  ["DC-01 未知元指令类型：core_eval 只承认 branch/set/push/io_request/enforce（SSOT: executor.rs META_INSTRUCTION_TYPES）";
   "DC-02 enforce 必须顶层声明：嵌入 branch 子指令时受『传播即停』影响，违反条件时不会 Halted（残留风险 R-1）";
   "DC-03 enforce 必须携带 params.reason：缺 reason 时 Halted 信号无违规说明，Violation 事实不可审计";
   "DC-04 io_request 必须携带 params.io_type：缺失时上层无法路由 I/O";
   "DC-05 io_request 被前置早退规则遮蔽：更靠前的规则已对同一指令类型返回信号，本规则永不求值（BUG-P0-005 同型）";
   "DC-06 set 必须携带 params.attr 与 params.value 两个字段（按字段存在性判定而非值非空：value=null 是受支持的『置空/清除』语义，见 domain.rs exists『null 视为已清除』）";
   "DC-07 branch 必须携带 params.domain：无条件 branch 退化为无条件跳转，违反确定性契约";
   "DC-08 (TCB_SPEC D4) 一条规则内最多一个 io_request：__io_results__ 按 io_type 隔离，多个 io_request 会覆盖冲突";
   "DC-09 (TCB_SPEC D5) io_request 必须是叶子：其前不得有 set/push 等修改状态的操作，否则部分修改丢弃（IoRequired 纯信号）会破坏重放等价性 D11"].
Definition clause (domain : JsonValue) (reason : string) : JsonValue :=
  object_from_pairs [("type", JString "enforce"); ("params", object_from_pairs [("domain", domain); ("reason", JString reason)])].
(** [DISCIPLINE_CORE_EVAL], read: the value of the embedded text. *)
Definition DISCIPLINE_CORE_EVAL : list JsonValue := zip_with clause clause_domains clause_reasons.

(** * The gate's data *)

(** [struct DisciplineError] is its message. *)
Definition discipline_error_display (e : string) : string := "discipline gate error: " +:+ e.
Record Violation : Type := mk_violation {
  vi_path : string;
  vi_node_type : string;
  vi_code : string;
  vi_reason : string;
}.
Record Report : Type := mk_report { scanned : nat; violations : list Violation }.

(** [load_discipline], from what [serde_json] reads of the text. *)
Definition load_discipline {N : Type} `{SerdeNumber N} (raw : Result (SValue N) string) : Result (list JsonValue) string :=
  match raw with
  | Err e => Err ("embedded discipline core_eval is not valid JSON: " +:+ e)
  | Ok raw =>
      let? arr := ok_or (s_as_array raw) "embedded discipline core_eval must be a JSON array of rules" in
      Ok (map serde_to_tcb arr)
  end.

(** * Facts of a rule *)

Definition node_type (n : JsonValue) : string := default "" (let! v := json_get n "type" in as_str v).
Definition params_has_key (n : JsonValue) (key : string) : bool :=
  match (let! p := json_get n "params" in as_object p) with
  | Some o => map_contains_key o key
  | None => false
  end.
Definition children_of (n : JsonValue) (key : string) : list JsonValue :=
  default [] (let! p := json_get n "params" in let! v := json_get p key in as_array v).
(** Both arms of a branch. *)
Definition arms_of (n : JsonValue) : list JsonValue := children_of n "on_true" ++ children_of n "on_false".

(** The recursions on instructions and conditions are bounded by the height of
    the value ([json_height]). *)
Definition domain_type (domain : JsonValue) : option string := let! v := json_get domain "type" in as_str v.
Definition instruction_target (domain : JsonValue) : gset string :=
  match (let! v := json_get domain "instruction_type" in as_str v) with Some s => {[s]} | None => ∅ end.
Definition inner_list (domain : JsonValue) : list JsonValue :=
  match json_get domain "inner" with Some (JArray items) => items | _ => [] end.
Fixpoint collect_targets (fuel : nat) (domain : JsonValue) : gset string :=
  match fuel with
  | O => ∅
  | S fuel =>
      match domain_type domain with
      | Some t =>
          if String.eqb t "instruction" then instruction_target domain
          else if String.eqb t "all" then ⋃ (map (collect_targets fuel) (inner_list domain))
          else if String.eqb t "not" then
            match json_get domain "inner" with Some inner => collect_targets fuel inner | None => ∅ end
          else ∅
      | None => ∅
      end
  end.
(** [rule.get("params").and_then(|p| p.get("domain"))]. *)
Definition rule_domain (rule : JsonValue) : option JsonValue :=
  let! p := json_get rule "params" in json_get p "domain".
Definition on_domain {A} (f : nat -> JsonValue -> A) (none : A) (rule : JsonValue) : A :=
  match rule_domain rule with Some d => f (json_height d) d | None => none end.
Definition top_targets (rule : JsonValue) : gset string := on_domain collect_targets ∅ rule.
(** The inner [walk] of [provable_targets]. *)
Fixpoint provable_walk (fuel : nat) (domain : JsonValue) : gset string :=
  match fuel with
  | O => ∅
  | S fuel =>
      match domain_type domain with
      | Some t =>
          if String.eqb t "instruction" then instruction_target domain
          else if String.eqb t "all" then ⋃ (map (provable_walk fuel) (inner_list domain))
          else ∅
      | None => ∅
      end
  end.
Definition provable_targets (rule : JsonValue) : gset string := on_domain provable_walk ∅ rule.

Fixpoint early_exit (fuel : nat) (n : JsonValue) : bool :=
  match fuel with
  | O => false
  | S fuel =>
      let t := node_type n in
      if (String.eqb t "enforce" || String.eqb t "io_request")%bool then true
      else if String.eqb t "branch" then existsb (early_exit fuel) (arms_of n)
      else false
  end.
Definition is_early_exit (n : JsonValue) : bool := early_exit (json_height n) n.
Fixpoint io_count (fuel : nat) (n : JsonValue) : nat :=
  match fuel with
  | O => 0
  | S fuel =>
      let c := if String.eqb (node_type n) "io_request" then 1 else 0 in
      if String.eqb (node_type n) "branch" then fold_left (fun c ch => c + io_count fuel ch) (arms_of n) c else c
  end.
Definition count_io (n : JsonValue) : nat := io_count (json_height n) n.
Fixpoint mutating (fuel : nat) (n : JsonValue) : bool :=
  match fuel with
  | O => false
  | S fuel =>
      let t := node_type n in
      if (String.eqb t "set" || String.eqb t "push")%bool then true
      else (String.eqb t "branch" && existsb (mutating fuel) (arms_of n))%bool
  end.
Definition has_mutating (n : JsonValue) : bool := mutating (json_height n) n.

Definition maybe_overlap (a b : gset string) : bool :=
  (bool_decide (a = ∅) || bool_decide (b = ∅) || negb (bool_decide (a ∩ b = ∅)))%bool.

(** [struct TopFacts]. *)
Record TopFacts : Type := mk_top_facts {
  shadow_source : bool;
  targets : gset string;
  provable : gset string;
  pos_exists : gset string;
  neg_exists : gset string;
}.
Definition exists_path (domain : JsonValue) : gset string :=
  match (let! v := json_get domain "path" in as_str v) with Some p => {[p]} | None => ∅ end.
(** The positive and the negative paths. *)
Fixpoint collect_exists_paths (fuel : nat) (domain : JsonValue) (negated : bool) : gset string * gset string :=
  match fuel with
  | O => (∅, ∅)
  | S fuel =>
      match domain_type domain with
      | Some t =>
          if String.eqb t "exists" then
            if negated then (∅, exists_path domain) else (exists_path domain, ∅)
          else if String.eqb t "all" then
            let found := map (fun d => collect_exists_paths fuel d negated) (inner_list domain) in
            (⋃ (map fst found), ⋃ (map snd found))
          else if String.eqb t "not" then
            match json_get domain "inner" with
            | Some inner =>
                match domain_type inner with
                | Some t' => if String.eqb t' "exists" then collect_exists_paths fuel inner (negb negated) else (∅, ∅)
                | None => (∅, ∅)
                end
            | None => (∅, ∅)
            end
          else (∅, ∅)
      | None => (∅, ∅)
      end
  end.
Definition is_shadow_source (top_rule : JsonValue) : bool :=
  if String.eqb (node_type top_rule) "enforce" then false else is_early_exit top_rule.
Definition build_top_facts (r : JsonValue) : TopFacts :=
  let '(pos, neg) := on_domain (fun fuel d => collect_exists_paths fuel d false) (∅, ∅) r in
  mk_top_facts (is_shadow_source r) (top_targets r) (provable_targets r) pos neg.
Definition mutually_exclusive (a b : TopFacts) : bool :=
  (negb (bool_decide (pos_exists a ∩ neg_exists b = ∅)) || negb (bool_decide (pos_exists b ∩ neg_exists a = ∅)))%bool.

(** * The nodes of a rule set *)

(** [struct Node]. *)
Record Node : Type := mk_node {
  nd_top : nat;
  nd_path : string;
  nd_node : JsonValue;
  nd_nested : bool;
  nd_targets : gset string;
  nd_io_in_tree : nat;
  nd_preceded : bool;
}.
Definition child_node (parent : Node) (path : string) (node : JsonValue) (nested : bool) (before : list JsonValue) : Node :=
  mk_node (nd_top parent) path node nested (nd_targets parent) (nd_io_in_tree parent)
    (nd_preceded parent || existsb has_mutating before)%bool.
(** The loop over one arm, over the recursive call. *)
Fixpoint walk_arm (walk : Node -> list Node) (nd : Node) (key : string) (j : nat) (prior children : list JsonValue) : list Node :=
  match children with
  | [] => []
  | c :: rest =>
      walk (child_node nd (nd_path nd +:+ "." +:+ key +:+ "[" +:+ show_usize j +:+ "]") c true prior)
      ++ walk_arm walk nd key (S j) (prior ++ [c]) rest
  end.
Fixpoint walk (fuel : nat) (nd : Node) : list Node :=
  match fuel with
  | O => []
  | S fuel =>
      nd :: (if String.eqb (node_type (nd_node nd)) "branch" then
               walk_arm (walk fuel) nd "on_true" 0 [] (children_of (nd_node nd) "on_true")
               ++ walk_arm (walk fuel) nd "on_false" 0 [] (children_of (nd_node nd) "on_false")
             else [])
  end.
(** May the rule [s] with facts [fs] change the state in the transition that
    runs the rule with facts [fr]? *)
Definition same_pass_mutation (s : JsonValue) (fs fr : TopFacts) : bool :=
  (has_mutating s && maybe_overlap (provable fs) (provable fr) && negb (mutually_exclusive fs fr))%bool.
Definition root_node (before : list JsonValue) (i : nat) (r : JsonValue) : Node :=
  let fr := build_top_facts r in
  mk_node i ("[" +:+ show_usize i +:+ "]") r false (targets fr) (count_io r)
    (existsb (fun s => same_pass_mutation s (build_top_facts s) fr) before).
Fixpoint flatten_from (before : list JsonValue) (rules : list JsonValue) : list Node :=
  match rules with
  | [] => []
  | r :: rest =>
      walk (json_height r) (root_node before (length before) r) ++ flatten_from (before ++ [r]) rest
  end.
Definition flatten (rules : list JsonValue) : list Node := flatten_from [] rules.

(** * The probes *)

Definition is_shadowed (nd : Node) (tops : list TopFacts) : bool :=
  let owner := tops !! nd_top nd in
  (String.eqb (node_type (nd_node nd)) "io_request" &&
   existsb (fun t => shadow_source t && maybe_overlap (targets t) (nd_targets nd)
              && negb (match owner with Some o => mutually_exclusive t o | None => false end))%bool
     (take (nd_top nd) tops))%bool.
(** [i64::try_from(..).unwrap_or(i64::MAX)]. *)
Definition i64_of_usize (n : nat) : Z := if (Z.of_nat n <=? i64_max)%Z then Z.of_nat n else i64_max.
Definition build_probe (nd : Node) (tops : list TopFacts) : JsonValue :=
  let ctx := object_from_pairs
    [("path", JString (nd_path nd)); ("nested", JBool (nd_nested nd)); ("shadowed", JBool (is_shadowed nd tops));
     ("io_in_tree", JInteger (i64_of_usize (nd_io_in_tree nd)));
     ("preceded_by_mutating", JBool (nd_preceded nd));
     ("has_attr", JBool (params_has_key (nd_node nd) "attr"));
     ("has_value", JBool (params_has_key (nd_node nd) "value"))] in
  snd (json_insert (nd_node nd) "_ctx" ctx).

(** * The gate *)

(** [format!("DC-{n:02}")]. *)
Definition clause_code (n : nat) : string :=
  "DC-" +:+ (if (n <? 10)%nat then "0" else "") +:+ show_usize n.

Section Gate.
(** [{:?}] of a kernel error. *)
Variable debug_error : TcbError -> string.

Fixpoint check_nodes (discipline : list JsonValue) (tops : list TopFacts) (nodes : list Node) : Result (list Violation) string :=
  match nodes with
  | [] => Ok []
  | nd :: rest =>
      match execute_transition discipline (build_probe nd tops) JNull [] with
      | Ok (THalted rule_index reason) =>
          let? more := check_nodes discipline tops rest in
          Ok (mk_violation (nd_path nd) (node_type (nd_node nd)) (clause_code (S rule_index)) reason :: more)
      | Ok _ => check_nodes discipline tops rest
      | Err e => Err ("discipline evaluation failed at " +:+ nd_path nd +:+ ": " +:+ debug_error e)
      end
  end.
Definition check (discipline : Result (list JsonValue) string) (ruleset : list JsonValue) : Result Report string :=
  let? discipline := discipline in
  let tops := map build_top_facts ruleset in
  let nodes := flatten ruleset in
  let? violations := check_nodes discipline tops nodes in
  Ok (mk_report (length nodes) violations).
Definition discipline_len (discipline : Result (list JsonValue) string) : Result nat string :=
  result_map length discipline.

(** * The command, [validate.rs] over [discipline_gate.rs] *)

Definition gate_error {A} (r : Result A string) : Result A CliError :=
  match r with Ok a => Ok a | Err e => Err (CliOther (discipline_error_display e)) end.
(** [run]; the report it prints is its first result. *)
Definition validate (discipline : Result (list JsonValue) string) (transforms : Result (list JsonValue) CliError) :
    Result (Report * Result unit CliError) CliError :=
  let? transforms := transforms in
  let? _n := gate_error (discipline_len discipline) in
  let? report := gate_error (check discipline transforms) in
  Ok (report,
      match violations report with
      | [] => Ok tt
      | vs => Err (CliOther ("validation failed with " +:+ show_usize (length vs) +:+ " violations"))
      end).
End Gate.
