(* ===== verification/DisciplineSpec.v ===== *)
(** Theorems about the discipline gate: what it reports exactly; and what an
    accepted rule set guarantees of the kernel's runs, with the rule sets it
    accepts without that guarantee. *)

From S2P Require Import Prelude ObjectMap Value Error Path Domain Executor ExecSemantics Transition Fact Serde Hash Wal Cli Discipline.

(** * Running the clauses *)

Fixpoint first_true (bs : list bool) : option nat :=
  match bs with
  | [] => None
  | b :: bs => if b then Some 0 else option_map S (first_true bs)
  end.
(** The clauses hold where [bs] says so, up to the first that does. *)
Fixpoint clauses_hold (s : JsonValue) (domains : list JsonValue) (bs : list bool) : Prop :=
  match domains, bs with
  | [], [] => True
  | d :: domains, b :: bs =>
      (exists m, d = JObject m) /\ (exists o, evaluate_domain_outcome d s = Ok o /\ to_bool o = b) /\
      (b = false -> clauses_hold s domains bs)
  | _, _ => False
  end.

Lemma run_clause m reason s b o :
  evaluate_domain_outcome (JObject m) s = Ok o ->
  exists outs, run_rule (clause (JObject m) reason) s (S b) = Ok (if to_bool o then MHalted reason else MState s, outs) /\
    budget outs = b.
Proof.
  intros Ho. unfold run_rule, exec_fuel. cbn [execute_meta_instruction_budgeted budget]. unfold execute_dispatch.
  change (ok_or (let! v := json_get (clause (JObject m) reason) "type" in as_str v) (MissingField "type")) with (@Ok string TcbError "enforce").
  cbn [String.eqb Ascii.eqb Bool.eqb budget hit_out domain_attr_out]. unfold exec_enforce.
  change (json_get (clause (JObject m) reason) "params")
    with (Some (object_from_pairs [("domain", JObject m); ("reason", JString reason)])). cbn [ok_or].
  change (resolve_path_or_literal s (json_get (object_from_pairs [("domain", JObject m); ("reason", JString reason)]) "domain"))
    with (@Ok JsonValue TcbError (JObject m)).
  change (ok_or (let! v := json_get (object_from_pairs [("domain", JObject m); ("reason", JString reason)]) "reason" in as_str v)
    (MissingField "reason")) with (@Ok string TcbError reason).
  cbv iota beta. rewrite Ho. destruct (to_bool o); cbn [negb]; eexists; split; done.
Qed.
Lemma gate_clauses s domains bs : clauses_hold s domains bs -> forall reasons index b hits,
  length reasons = length domains -> length domains <= b ->
  match first_true bs with
  | Some k => enforce_gate s index (zip_with clause domains reasons) b hits = Ok (inl (THalted (index + k) (nth k reasons "")))
  | None => exists b' hits', enforce_gate s index (zip_with clause domains reasons) b hits = Ok (inr (b', hits'))
  end.
Proof.
  revert bs. induction domains as [|d domains IH]; intros [|c bs]; cbn [clauses_hold]; try done.
  { intros _ [|] index b hits; [|done]. cbn. by eexists _, _. }
  intros ([m ->] & (o & Ho & Hc) & Hrest) [|reason reasons] index b hits; [done|]. cbn [length zip_with enforce_gate].
  intros [= Hl] Hb. destruct b as [|b]; [lia|]. change (is_enforce (clause (JObject m) reason)) with true. cbn [negb].
  destruct (run_clause m reason s b o Ho) as (outs & -> & Houts). rewrite Hc. cbn [first_true]. destruct c.
  - by rewrite Nat.add_0_r.
  - rewrite Houts.
    specialize (IH bs (Hrest eq_refl) reasons (S index) b (hits ++ [rule_hit index (clause (JObject m) reason) outs]) Hl ltac:(lia)).
    destruct (first_true bs) as [k|]; cbn [option_map nth]; [|done]. rewrite IH. do 3 f_equal. lia.
Qed.
Lemma loop_clauses s domains reasons index b hits :
  transform_loop s index (zip_with clause domains reasons) b hits = Ok (inr (s, hits)).
Proof.
  revert index reasons. induction domains as [|d domains IH]; intros index [|r reasons]; try done. cbn [zip_with transform_loop].
  change (is_enforce (clause d r)) with true. apply IH.
Qed.

(** The kernel's state for a probe. *)
Definition probe_state (probe : JsonValue) : JsonValue := build_exec_state probe JNull [].
Lemma run_discipline probe bs :
  clauses_hold (probe_state probe) clause_domains bs ->
  exists t, execute_transition DISCIPLINE_CORE_EVAL probe JNull [] = Ok t /\
    match first_true bs with
    | Some k => t = THalted k (nth k clause_reasons "")
    | None => forall k reason, t <> THalted k reason
    end.
Proof.
  intros Hb. unfold execute_transition. change (length DISCIPLINE_CORE_EVAL) with 9.
  change (MAX_TRANSFORM_RULES <? 9)%nat with false. cbv iota zeta.
  pose proof (gate_clauses (probe_state probe) clause_domains bs Hb clause_reasons 0 MAX_TOTAL_META_INSTRUCTIONS [] eq_refl) as Hg.
  assert (length clause_domains <= MAX_TOTAL_META_INSTRUCTIONS) as Hle by (apply Nat.leb_le; reflexivity).
  specialize (Hg Hle). fold (probe_state probe). fold DISCIPLINE_CORE_EVAL in Hg. destruct (first_true bs) as [k|].
  - rewrite Hg. eexists. split; [reflexivity|done].
  - destruct Hg as (b' & hits' & ->). unfold DISCIPLINE_CORE_EVAL at 1. rewrite loop_clauses.
    rewrite !resolve_path_denotes, denotes_payload, denotes_queue.
    change (get_steps (probe_state probe) PAYLOAD) with (Some JNull).
    change (get_steps (probe_state probe) QUEUE) with (Some (JArray [])). cbn [ok_or as_array].
    case_match; eexists; (split; [reflexivity|]); intros ? ?; discriminate.
Qed.

(** * Evaluating the clauses *)

Definition current_type (s : JsonValue) : option string :=
  let! e := json_get s "__exec__" in let! i := json_get e "instruction" in let! t := json_get i "type" in as_str t.
Definition is_present (v : option JsonValue) : bool := match v with Some JNull | None => false | Some _ => true end.

Ltac at_depth n := rewrite eval_at_eq; destruct (Nat.ltb_spec MAX_DOMAIN_DEPTH n); [lia|].
Lemma eval_instruction n s ty : n <= MAX_DOMAIN_DEPTH ->
  eval_at n s (d_instruction ty) = Ok (from_bool (match current_type s with Some t => String.eqb t ty | None => false end)).
Proof. intros Hn. at_depth n. reflexivity. Qed.
Lemma eval_exists n s path : n <= MAX_DOMAIN_DEPTH ->
  eval_at n s (d_exists path) = Ok (from_bool (is_present (resolve_domain_path s path))).
Proof. intros Hn. at_depth n. reflexivity. Qed.
Lemma eval_eq_true n s path b : n <= MAX_DOMAIN_DEPTH -> resolve_domain_path s path = Some (JBool b) ->
  eval_at n s (d_eq_true path) = Ok (from_bool b).
Proof.
  intros Hn Hp. at_depth n. change (evaluate_domain_type (eval_at (S n) s) (d_eq_true path) s)
    with (evaluate_eq_outcome (d_eq_true path) s). unfold evaluate_eq_outcome.
  change (get_str_field (d_eq_true path) "path") with (@Ok string TcbError path).
  change (parse_on_missing (d_eq_true path)) with (@Ok (option OnMissingPolicy) TcbError (Some PolicyUnsat)).
  change (ok_or (json_get (d_eq_true path) "value") (MissingField "value")) with (@Ok JsonValue TcbError (JBool true)).
  cbn [resolve_value_reference_outcome]. rewrite Hp. by destruct b.
Qed.
Lemma eval_lt n s path v k : n <= MAX_DOMAIN_DEPTH -> resolve_domain_path s path = Some (JInteger k) ->
  eval_at n s (d_lt path v) = Ok (from_bool (k <? v)%Z).
Proof.
  intros Hn Hp. at_depth n. change (evaluate_domain_type (eval_at (S n) s) (d_lt path v) s)
    with (evaluate_lt_outcome (d_lt path v) s). unfold evaluate_lt_outcome.
  change (get_str_field (d_lt path v) "path") with (@Ok string TcbError path).
  change (parse_on_missing (d_lt path v)) with (@Ok (option OnMissingPolicy) TcbError (Some PolicyUnsat)).
  change (ok_or (json_get (d_lt path v) "value") (MissingField "value")) with (@Ok JsonValue TcbError (JInteger v)).
  cbn [resolve_value_reference_outcome]. rewrite Hp. cbn [as_i64]. by destruct (k <? v)%Z.
Qed.
Lemma outcome_not_bool b : outcome_not (from_bool b) = from_bool (negb b).
Proof. by destruct b. Qed.
Lemma eval_not n s d b : n <= MAX_DOMAIN_DEPTH -> eval_at (S n) s d = Ok (from_bool b) ->
  eval_at n s (not_domain d) = Ok (from_bool (negb b)).
Proof. intros Hn Hd. rewrite eval_at_not, Hd by done. cbn [result_map]. by rewrite outcome_not_bool. Qed.
Lemma eval_all n s ds bs : n <= MAX_DOMAIN_DEPTH -> Forall2 (fun d b => eval_at (S n) s d = Ok (from_bool b)) ds bs ->
  eval_at n s (all_domain ds) = Ok (from_bool (forallb id bs)).
Proof.
  intros Hn H. rewrite eval_at_all by done. induction H as [|d b ds bs Hd _ IH]; [done|]. cbn. rewrite Hd. by destruct b.
Qed.
(** The guard of a clause decides it when it is false. *)
Lemma eval_guarded n s ty ds b : n < MAX_DOMAIN_DEPTH ->
  (current_type s = Some ty -> eval_at n s (all_domain (d_instruction ty :: ds)) = Ok (from_bool b)) ->
  eval_at n s (all_domain (d_instruction ty :: ds)) = Ok (from_bool (bool_decide (current_type s = Some ty) && b)).
Proof.
  intros Hn Hb. destruct (bool_decide_reflect (current_type s = Some ty)) as [Ht|Ht]; [by apply Hb|].
  rewrite eval_at_all by lia. cbn [all_loop]. rewrite eval_instruction by lia.
  destruct (current_type s) as [t|]; [|done]. destruct (String.eqb_spec t ty) as [->|]; done.
Qed.

(** Paths into the probe. *)
Lemma probe_params probe key : In key ["reason"; "io_type"; "domain"] ->
  resolve_domain_path (probe_state probe) ("instruction.params." +:+ key) =
  let! p := json_get probe "params" in json_get p key.
Proof.
  intros Hk. unfold resolve_domain_path, resolve_exec_path.
  change (json_get (probe_state probe) "__exec__") with (Some (default JNull (json_get (probe_state probe) "__exec__"))).
  cbv beta iota. rewrite resolve_path_denotes.
  assert (denotes (default ("instruction.params." +:+ key) (strip_prefix "__exec__." ("instruction.params." +:+ key)))
    = Some [Key "instruction"; Key "params"; Key key]) as ->.
  { destruct Hk as [<-|[<-|[<-|[]]]]; vm_compute; reflexivity. }
  change (get_steps (default JNull (json_get (probe_state probe) "__exec__")) [Key "instruction"; Key "params"; Key key])
    with (let! p := json_get probe "params" in let! x := json_get p key in Some x).
  destruct (json_get probe "params") as [p|]; [|done]. by destruct (json_get p key).
Qed.
Lemma probe_ctx probe ctx key : json_get probe "_ctx" = Some ctx ->
  In key ["nested"; "shadowed"; "io_in_tree"; "preceded_by_mutating"; "has_attr"; "has_value"] ->
  resolve_domain_path (probe_state probe) ("instruction._ctx." +:+ key) = json_get ctx key.
Proof.
  intros Hc Hk. unfold resolve_domain_path, resolve_exec_path.
  change (json_get (probe_state probe) "__exec__") with (Some (default JNull (json_get (probe_state probe) "__exec__"))).
  cbv beta iota. rewrite resolve_path_denotes.
  assert (denotes (default ("instruction._ctx." +:+ key) (strip_prefix "__exec__." ("instruction._ctx." +:+ key)))
    = Some [Key "instruction"; Key "_ctx"; Key key]) as ->.
  { destruct Hk as [<-|[<-|[<-|[<-|[<-|[<-|[]]]]]]]; vm_compute; reflexivity. }
  change (get_steps (default JNull (json_get (probe_state probe) "__exec__")) [Key "instruction"; Key "_ctx"; Key key])
    with (let! c := json_get probe "_ctx" in let! x := json_get c key in Some x). rewrite Hc. by destruct (json_get ctx key).
Qed.

(** * The verdict on a node *)

(** Which clauses a node breaks, in their order. *)
Definition param_missing (n : JsonValue) (key : string) : bool :=
  negb (is_present (let! p := json_get n "params" in json_get p key)).
Definition clause_bools (nd : Node) (shadowed : bool) : list bool :=
  let n := nd_node nd in
  let typed ty := String.eqb (node_type n) ty in
  [forallb (fun ty => negb (typed ty)) ["branch"; "set"; "push"; "io_request"; "enforce"];
   typed "enforce" && nd_nested nd;
   typed "enforce" && param_missing n "reason";
   typed "io_request" && param_missing n "io_type";
   typed "io_request" && shadowed;
   typed "set" && negb (params_has_key n "attr" && params_has_key n "value");
   typed "branch" && param_missing n "domain";
   typed "io_request" && (2 <=? nd_io_in_tree nd)%nat;
   typed "io_request" && nd_preceded nd].
Definition verdict (tops : list TopFacts) (nd : Node) : list Violation :=
  match first_true (clause_bools nd (is_shadowed nd tops)) with
  | Some k => [mk_violation (nd_path nd) (node_type (nd_node nd)) (clause_code (S k)) (nth k clause_reasons "")]
  | None => []
  end.

Lemma clauses_cons s inner ds b bs :
  eval_at 0 s (all_domain inner) = Ok (from_bool b) -> (b = false -> clauses_hold s ds bs) ->
  clauses_hold s (all_domain inner :: ds) (b :: bs).
Proof.
  intros He Hr. cbn [clauses_hold]. split; [by eexists|]. split; [|done].
  exists (from_bool b). rewrite evaluate_domain_outcome_at. split; [done|by destruct b].
Qed.
Lemma type_decided s n ty : ty <> "" ->
  current_type s = (let! v := json_get n "type" in as_str v) ->
  bool_decide (current_type s = Some ty) = String.eqb (node_type n) ty /\
  (match current_type s with Some t => String.eqb t ty | None => false end) = String.eqb (node_type n) ty.
Proof.
  intros Hne ->. unfold node_type. destruct (let! v := json_get n "type" in as_str v) as [t|]; cbn [default from_option id].
  - split; [|done]. destruct (String.eqb_spec t ty) as [->|Hn]; [by apply bool_decide_eq_true|].
    apply bool_decide_eq_false. congruence.
  - destruct (String.eqb_spec "" ty) as [<-|_]; [done|]. split; [by apply bool_decide_eq_false|done].
Qed.
Lemma no_type_clauses nd shadowed s :
  current_type s = None -> (forall ty, ty <> "" -> String.eqb (node_type (nd_node nd)) ty = false) ->
  clauses_hold s clause_domains (clause_bools nd shadowed).
Proof.
  intros Ht Hty. unfold clause_domains, clause_bools. apply clauses_cons; cbn [forallb]; rewrite !Hty by done; [|done].
  apply (eval_all 0 _ _ [true; true; true; true; true]); [lia|].
  repeat constructor; apply (eval_not 1 _ _ false); try (unfold MAX_DOMAIN_DEPTH; lia); rewrite eval_instruction, Ht by (unfold MAX_DOMAIN_DEPTH; lia); done.
Qed.
Lemma guarded_clause s n ty ds b : ty <> "" -> current_type s = (let! v := json_get n "type" in as_str v) ->
  (String.eqb (node_type n) ty = true -> eval_at 0 s (all_domain (d_instruction ty :: ds)) = Ok (from_bool b)) ->
  eval_at 0 s (all_domain (d_instruction ty :: ds)) = Ok (from_bool (String.eqb (node_type n) ty && b)).
Proof.
  intros Hne Hs Hb. destruct (type_decided s n ty Hne Hs) as [<- _]. apply eval_guarded; [unfold MAX_DOMAIN_DEPTH; lia|].
  intros Ht. apply Hb. destruct (type_decided s n ty Hne Hs) as [<- _]. by apply bool_decide_eq_true.
Qed.
Lemma json_insert_object m key v : snd (json_insert (JObject m) key v) = JObject (obj_insert m key v).
Proof. unfold json_insert, obj_insert. by destruct (map_insert m key v). Qed.
(** What the clauses see of a node that is an object. *)
Record seen (s : JsonValue) (nd : Node) (shadowed : bool) : Prop := {
  seen_type : current_type s = (let! v := json_get (nd_node nd) "type" in as_str v);
  seen_param key : In key ["reason"; "io_type"; "domain"] ->
    resolve_domain_path s ("instruction.params." +:+ key) = (let! p := json_get (nd_node nd) "params" in json_get p key);
  seen_flag key b : In (key, b) [("nested", nd_nested nd); ("shadowed", shadowed); ("preceded_by_mutating", nd_preceded nd);
      ("has_attr", params_has_key (nd_node nd) "attr"); ("has_value", params_has_key (nd_node nd) "value")] ->
    resolve_domain_path s ("instruction._ctx." +:+ key) = Some (JBool b);
  seen_io : resolve_domain_path s "instruction._ctx.io_in_tree" = Some (JInteger (i64_of_usize (nd_io_in_tree nd)));
}.
Lemma probe_seen nd tops m : nd_node nd = JObject m -> keys_sorted m -> seen (probe_state (build_probe nd tops)) nd (is_shadowed nd tops).
Proof.
  intros Hn Hm. unfold build_probe. rewrite Hn, json_insert_object, <- Hn.
  set (ctx := object_from_pairs _). set (probe := JObject (obj_insert m "_ctx" ctx)).
  assert (json_get probe "_ctx" = Some ctx) as Hctx by apply map_get_insert_eq.
  assert (forall key, "_ctx" <> key -> json_get probe key = json_get (nd_node nd) key) as Hkey.
  { intros key Hne. rewrite Hn. by apply map_get_insert_ne. }
  split.
  - change (current_type (probe_state probe)) with (let! t := json_get probe "type" in as_str t). by rewrite Hkey.
  - intros key Hin. rewrite probe_params by done. by rewrite Hkey.
  - intros key b Hin. rewrite (probe_ctx probe ctx) by (done || (destruct Hin as [[= <- _]|[[= <- _]|[[= <- _]|[[= <- _]|[[= <- _]|[]]]]]]; cbn; tauto)).
    by destruct Hin as [[= <- <-]|[[= <- <-]|[[= <- <-]|[[= <- <-]|[[= <- <-]|[]]]]]].
  - change "instruction._ctx.io_in_tree" with ("instruction._ctx." +:+ "io_in_tree").
    rewrite (probe_ctx probe ctx) by (done || (cbn; tauto)). reflexivity.
Qed.
Lemma small_depth n : n <= 4 -> n <= MAX_DOMAIN_DEPTH.
Proof. unfold MAX_DOMAIN_DEPTH. lia. Qed.
Ltac depth := apply small_depth; lia.
Section Clauses.
Context (s : JsonValue) (nd : Node) (shadowed : bool) (Hseen : seen s nd shadowed).
#[local] Abbreviation ty_is ty := (String.eqb (node_type (nd_node nd)) ty).

Lemma eval_type n ty : ty <> "" -> n <= 4 -> eval_at n s (d_instruction ty) = Ok (from_bool (ty_is ty)).
Proof.
  intros Hne Hn. rewrite eval_instruction by depth. by destruct (type_decided s (nd_node nd) ty Hne (seen_type _ _ _ Hseen)) as [_ ->].
Qed.
Lemma eval_flag n key b : n <= 4 ->
  In (key, b) [("nested", nd_nested nd); ("shadowed", shadowed); ("preceded_by_mutating", nd_preceded nd);
      ("has_attr", params_has_key (nd_node nd) "attr"); ("has_value", params_has_key (nd_node nd) "value")] ->
  eval_at n s (d_eq_true ("instruction._ctx." +:+ key)) = Ok (from_bool b).
Proof. intros Hn Hin. apply eval_eq_true; [depth|]. by apply (seen_flag _ _ _ Hseen). Qed.
Lemma eval_missing n key : n <= 3 -> In key ["reason"; "io_type"; "domain"] ->
  eval_at n s (not_domain (d_exists ("instruction.params." +:+ key))) = Ok (from_bool (param_missing (nd_node nd) key)).
Proof. intros Hn Hin. apply eval_not; [depth|]. rewrite eval_exists by depth. by rewrite (seen_param _ _ _ Hseen). Qed.
(** A clause that asks for a type and one thing more. *)
Lemma eval_clause ty d b : ty <> "" -> eval_at 1 s d = Ok (from_bool b) ->
  eval_at 0 s (all_domain [d_instruction ty; d]) = Ok (from_bool (ty_is ty && b)).
Proof.
  intros Hne Hd. rewrite <- (andb_true_r b). apply (eval_all 0 _ _ [ty_is ty; b]); [depth|].
  repeat constructor; [apply eval_type; [done|lia]|done].
Qed.
Lemma eval_io_count : eval_at 0 s (all_domain [d_instruction "io_request"; d_exists "instruction._ctx.io_in_tree";
    not_domain (d_lt "instruction._ctx.io_in_tree" 2)]) = Ok (from_bool (ty_is "io_request" && (2 <=? nd_io_in_tree nd)%nat)).
Proof.
  rewrite <- (andb_true_r (2 <=? _)%nat). apply (eval_all 0 _ _ [ty_is "io_request"; true; (2 <=? nd_io_in_tree nd)%nat]); [depth|].
  repeat constructor.
  - apply eval_type; [done|lia].
  - rewrite eval_exists by depth. by rewrite (seen_io _ _ _ Hseen).
  - assert (negb (i64_of_usize (nd_io_in_tree nd) <? 2)%Z = (2 <=? nd_io_in_tree nd)%nat) as <-.
    { assert ((i64_of_usize (nd_io_in_tree nd) < 2)%Z <-> nd_io_in_tree nd < 2) as Hio
        by (unfold i64_of_usize, i64_max; destruct (Z.leb_spec (Z.of_nat (nd_io_in_tree nd)) (2 ^ 63 - 1)); lia).
      destruct (Nat.leb_spec 2 (nd_io_in_tree nd)), (Z.ltb_spec (i64_of_usize (nd_io_in_tree nd)) 2); done || lia. }
    apply eval_not; [depth|]. apply eval_lt; [depth|]. apply (seen_io _ _ _ Hseen).
Qed.
Lemma seen_clauses : clauses_hold s clause_domains (clause_bools nd shadowed).
Proof.
  unfold clause_domains, clause_bools. apply clauses_cons.
  { apply (eval_all 0 _ _ (map (fun ty => negb (ty_is ty)) ["branch"; "set"; "push"; "io_request"; "enforce"])); [depth|].
    repeat constructor; (apply eval_not; [depth|apply eval_type; [done|lia]]). }
  intros _. apply clauses_cons; [apply eval_clause, eval_flag; [done|lia|cbn; tauto]|].
  intros _. apply clauses_cons; [apply eval_clause, eval_missing; [done|lia|cbn; tauto]|].
  intros _. apply clauses_cons; [apply eval_clause, eval_missing; [done|lia|cbn; tauto]|].
  intros _. apply clauses_cons; [apply eval_clause, eval_flag; [done|lia|cbn; tauto]|].
  intros _. apply clauses_cons.
  { apply eval_clause, eval_not; [done|depth|]. rewrite <- (andb_true_r (params_has_key _ "value")).
    apply (eval_all 2 _ _ [params_has_key (nd_node nd) "attr"; params_has_key (nd_node nd) "value"]); [depth|].
    repeat constructor; apply eval_flag; try lia; cbn; tauto. }
  intros _. apply clauses_cons; [apply eval_clause, eval_missing; [done|lia|cbn; tauto]|].
  intros _. apply clauses_cons; [apply eval_io_count|].
  intros _. apply clauses_cons; [apply eval_clause, eval_flag; [done|lia|cbn; tauto]|]. done.
Qed.
End Clauses.
Lemma node_clauses nd tops : wf_json (nd_node nd) = true ->
  clauses_hold (probe_state (build_probe nd tops)) clause_domains (clause_bools nd (is_shadowed nd tops)).
Proof.
  intros Hwf. destruct (as_object (nd_node nd)) as [m|] eqn:Hn.
  - destruct (nd_node nd) as [| | | | | |m'] eqn:Hobj; try done. injection Hn as ->. apply wf_JObject in Hwf as [Hs _].
    by apply seen_clauses, (probe_seen nd tops m).
  - apply no_type_clauses.
    + unfold build_probe. by destruct (nd_node nd).
    + intros ty Hty. apply String.eqb_neq. destruct (nd_node nd); try discriminate Hn; intros Heq; by apply Hty.
Qed.

(** * The nodes of a rule set *)

Lemma walk_Forall (P : Node -> Prop) :
  (forall nd path c before, P nd -> c ∈ arms_of (nd_node nd) -> P (child_node nd path c true before)) ->
  forall fuel nd, P nd -> Forall P (walk fuel nd).
Proof.
  intros Hstep. induction fuel as [|fuel IH]; intros nd Hnd; [constructor|]. cbn [walk]. constructor; [done|].
  destruct (String.eqb (node_type (nd_node nd)) "branch"); [|constructor].
  assert (forall key children j prior, (forall c, c ∈ children -> c ∈ arms_of (nd_node nd)) ->
    Forall P (walk_arm (walk fuel) nd key j prior children)) as Harm.
  { intros key. induction children as [|c children IHc]; intros j prior Hin; [constructor|]. cbn [walk_arm]. apply Forall_app. split.
    - apply IH, Hstep; [done|]. apply Hin. left.
    - apply IHc. intros c' Hc'. apply Hin. by right. }
  apply Forall_app. split; apply Harm; intros c Hc; unfold arms_of; apply elem_of_app; [by left|by right].
Qed.
Lemma children_wf n key : wf_json n = true -> Forall (fun c => wf_json c = true) (children_of n key).
Proof.
  intros Hn. unfold children_of. destruct (json_get n "params") as [p|] eqn:Hp; [|constructor].
  destruct (json_get p key) as [v|] eqn:Hv; [|constructor]. apply (json_get_wf _ _ _ Hn) in Hp.
  apply (json_get_wf _ _ _ Hp) in Hv. destruct v; try constructor. by apply wf_JArray.
Qed.
Lemma arms_wf n c : wf_json n = true -> c ∈ arms_of n -> wf_json c = true.
Proof.
  intros Hn. unfold arms_of. rewrite elem_of_app. intros [Hc|Hc];
    eapply Forall_forall in Hc; try apply children_wf; eauto.
Qed.
Lemma flatten_wf rules before : Forall (fun r => wf_json r = true) rules ->
  Forall (fun nd => wf_json (nd_node nd) = true) (flatten_from before rules).
Proof.
  revert before. induction rules as [|r rules IH]; intros before Hr; [constructor|]. apply Forall_cons in Hr as [Hr Hrs].
  cbn [flatten_from]. apply Forall_app. split; [|by apply IH].
  apply walk_Forall; [|done]. intros nd path c b Hnd Hc. by eapply arms_wf.
Qed.

Lemma check_nodes_exact debug_error tops nodes : Forall (fun nd => wf_json (nd_node nd) = true) nodes ->
  check_nodes debug_error DISCIPLINE_CORE_EVAL tops nodes = Ok (concat (map (verdict tops) nodes)).
Proof.
  induction nodes as [|nd nodes IH]; intros Hwf; [done|]. apply Forall_cons in Hwf as [Hnd Hwf]. cbn [check_nodes map concat].
  destruct (run_discipline (build_probe nd tops) _ (node_clauses nd tops Hnd)) as (t & -> & Ht). unfold verdict at 1.
  rewrite (IH Hwf). destruct (first_true _) as [k|]; [by subst t|].
  destruct t as [| |k reason|]; try done. by destruct (Ht k reason).
Qed.

(** * What a rule's facts say of the states it runs in *)

(** The states a rule with these facts can take effect in. *)
Record holds_at (f : TopFacts) (s : JsonValue) : Prop := {
  at_type t : t ∈ provable f -> current_type s = Some t;
  at_pos p : p ∈ pos_exists f -> is_present (resolve_domain_path s p) = true;
  at_neg p : p ∈ neg_exists f -> is_present (resolve_domain_path s p) = false;
}.

Lemma domain_type_field d t : get_str_field d "type" = Ok t -> domain_type d = Some t.
Proof.
  unfold get_str_field, domain_type. destruct (json_get d "type") as [v|]; [|done]. cbn [ok_or].
  destruct (as_str v); [|done]. by intros [= ->].
Qed.
Lemma sem_exists_path s d o p : domain_type d = Some "exists" -> domain_sem s d o -> p ∈ exists_path d ->
  o = from_bool (is_present (resolve_domain_path s p)).
Proof.
  intros Ht Hs Hp. destruct Hs as [d t o Hd _ Ho|d sub o Hd _ _|d arr o Hd _ _]; apply domain_type_field in Hd; try congruence.
  assert (t = "exists") as -> by congruence. change (atom_outcome "exists" d s) with (result_map from_bool (evaluate_exists d s)) in Ho.
  unfold evaluate_exists, get_str_field in Ho. unfold exists_path in Hp. destruct (json_get d "path") as [v|]; [|done]. cbn [ok_or] in Ho.
  destruct (as_str v) as [q|]; [|done]. apply elem_of_singleton in Hp as ->. cbn in Ho. by injection Ho as <-.
Qed.
Lemma sem_instruction_target s d t : domain_type d = Some "instruction" -> domain_sem s d Sat -> t ∈ instruction_target d ->
  current_type s = Some t.
Proof.
  intros Ht Hs Hin. inversion Hs as [d' t' o' Hd _ Ho|d' sub o' Hd _ _|d' arr o' Hd _ _]; subst; apply domain_type_field in Hd; try congruence.
  assert (t' = "instruction") as -> by congruence.
  change (atom_outcome "instruction" d s) with (result_map from_bool (evaluate_instruction_eq d s)) in Ho.
  unfold evaluate_instruction_eq, get_str_field in Ho. unfold instruction_target in Hin.
  destruct (json_get d "instruction_type") as [v|]; [|done]. cbn [ok_or] in Ho. destruct (as_str v) as [ty|]; [|done].
  apply elem_of_singleton in Hin as ->. cbn [result_map] in Ho. fold (current_type s) in Ho. revert Ho. destruct (current_type s) as [t|]; [|done].
  cbn. by destruct (String.eqb_spec t ty) as [->|].
Qed.
Lemma all_sem_Sat s arr : all_sem s arr Sat -> Forall (fun d => domain_sem s d Sat) arr.
Proof.
  induction arr as [|d arr IH]; [constructor|]. intros H. inversion H; subst; [constructor; auto|congruence].
Qed.
Lemma sem_all_inner s d : domain_type d = Some "all" -> domain_sem s d Sat -> Forall (fun d => domain_sem s d Sat) (inner_list d).
Proof.
  intros Ht Hs. inversion Hs as [d' t' o' Hd Hat Ho|d' sub o' Hd _ _ Hn|d' arr o' Hd Hi Ha]; subst; apply domain_type_field in Hd.
  - assert (t' = "all") as -> by congruence. unfold atom_types in Hat. set_unfold in Hat. by destruct_or!.
  - congruence.
  - unfold inner_list. rewrite Hi. by apply all_sem_Sat.
Qed.
Lemma sem_not_inner s d inner : domain_type d = Some "not" -> json_get d "inner" = Some inner -> domain_sem s d Sat -> domain_sem s inner Unsat.
Proof.
  intros Ht Hi Hs. inversion Hs as [d' t' o' Hd Hat Ho|d' sub o' Hd Hsub Hsem Hn|d' arr o' Hd _ Ha]; subst; apply domain_type_field in Hd.
  - assert (t' = "not") as -> by congruence. unfold atom_types in Hat. set_unfold in Hat. by destruct_or!.
  - assert (sub = inner) as -> by congruence. by destruct o'.
  - congruence.
Qed.

Lemma domain_facts s fuel d : domain_sem s d Sat ->
  (forall t, t ∈ provable_walk fuel d -> current_type s = Some t) /\
  (forall p, p ∈ fst (collect_exists_paths fuel d false) -> is_present (resolve_domain_path s p) = true) /\
  (forall p, p ∈ snd (collect_exists_paths fuel d false) -> is_present (resolve_domain_path s p) = false).
Proof.
  revert d. induction fuel as [|fuel IH]; intros d Hs; [by split_and!; intros ? ?|]. cbn [provable_walk collect_exists_paths].
  destruct (domain_type d) as [t|] eqn:Ht; [|by split_and!; intros ? ?].
  destruct (String.eqb_spec t "instruction") as [->|Hne1].
  { split_and!; [|by intros ? ?..]. intros t Hin. by apply (sem_instruction_target s d). }
  destruct (String.eqb_spec t "exists") as [->|Hne2].
  { change (String.eqb "exists" "all") with false. cbv iota. split_and!; [by intros ? ?| |by intros ? ?]. intros p Hp.
    pose proof (sem_exists_path s d Sat p Ht Hs Hp) as Ho. by destruct (is_present _). }
  destruct (String.eqb_spec t "all") as [->|Hne3].
  { pose proof (sem_all_inner s d Ht Hs) as Hall. rewrite Forall_forall in Hall. cbn [fst snd].
    split_and!; intros x Hx; apply elem_of_union_list in Hx as (X & HX & Hx).
    - apply list_elem_of_fmap in HX as (d' & -> & Hd'). by apply (IH d' (Hall d' Hd')).
    - apply list_elem_of_fmap in HX as (pr & -> & Hpr). apply list_elem_of_fmap in Hpr as (d' & -> & Hd'). by apply (IH d' (Hall d' Hd')).
    - apply list_elem_of_fmap in HX as (pr & -> & Hpr). apply list_elem_of_fmap in Hpr as (d' & -> & Hd'). by apply (IH d' (Hall d' Hd')). }
  split; [by intros ? ?|]. destruct (String.eqb_spec t "not") as [->|Hne4]; [|by split; intros ? ?].
  destruct (json_get d "inner") as [inner|] eqn:Hi; [|by split; intros ? ?].
  destruct (domain_type inner) as [t'|] eqn:Ht'; [|by split; intros ? ?].
  destruct (String.eqb_spec t' "exists") as [->|]; [|by split; intros ? ?].
  pose proof (sem_not_inner s d inner Ht Hi Hs) as Hin. destruct fuel as [|fuel]; [by split; intros ? ?|].
  cbn [collect_exists_paths negb]. rewrite Ht'. change (String.eqb "exists" "exists") with true. cbv iota. cbn [fst snd].
  split; [by intros ? ?|]. intros p Hp. pose proof (sem_exists_path s inner Unsat p Ht' Hin Hp) as Ho. by destruct (is_present _).
Qed.

(** Where the rule's condition decides what it does. *)
Definition guarded (r : JsonValue) : bool :=
  (String.eqb (node_type r) "enforce" || negb (is_some (rule_domain r)) ||
   (String.eqb (node_type r) "branch" && match children_of r "on_false" with [] => true | _ => false end))%bool.
Lemma no_domain_facts s r : rule_domain r = None -> holds_at (build_top_facts r) s.
Proof. intros Hr. unfold build_top_facts, provable_targets, on_domain. rewrite Hr. split; cbn; by intros ? ?. Qed.
Lemma node_type_instr i t : instr_type i = Some t -> node_type i = t.
Proof. unfold node_type, instr_type. by intros ->. Qed.

(** The run of an instruction as the sequence of the instructions other than
    branches it executes, each with the state it is executed on. *)
Definition Trace : Type := list (JsonValue * JsonValue).
Inductive exec_trace : JsonValue -> JsonValue -> MetaInstructionResult -> Trace -> Prop :=
| trace_leaf i s r : exec_sem i s r 1 0 -> instr_type i <> Some "branch" -> exec_trace i s r [(i, s)]
| trace_branch i s domain outcome r tr :
    instr_type i = Some "branch" -> instr_domain i s = Ok (domain, outcome) ->
    seq_trace (chosen_branch i outcome) s r tr -> exec_trace i s r tr
with seq_trace : list JsonValue -> JsonValue -> MetaInstructionResult -> Trace -> Prop :=
| trace_nil s : seq_trace [] s (MState s) []
| trace_next i l s s1 r tr1 tr2 :
    exec_trace i s (MState s1) tr1 -> seq_trace l s1 r tr2 -> seq_trace (i :: l) s r (tr1 ++ tr2)
| trace_stop i l s r tr : exec_trace i s r tr -> is_state r = false -> seq_trace (i :: l) s r tr.
Scheme exec_trace_mut := Minimality for exec_trace Sort Prop
  with seq_trace_mut := Minimality for seq_trace Sort Prop.
Combined Scheme exec_seq_trace_ind from exec_trace_mut, seq_trace_mut.

(** Every run has a trace, and a trace is of a run. *)
Lemma run_traced :
  (forall i s r n h, exec_sem i s r n h -> exists tr, exec_trace i s r tr) /\
  (forall l s r n h, seq_sem l s r n h -> exists tr, seq_trace l s r tr).
Proof.
  apply exec_seq_ind.
  - intros i s s' Ht Hs. exists [(i, s)]. apply trace_leaf; [by apply sem_set|by rewrite Ht].
  - intros i s s' Ht Hs. exists [(i, s)]. apply trace_leaf; [by apply sem_push|by rewrite Ht].
  - intros i s r Ht Hs. exists [(i, s)]. apply trace_leaf; [by apply sem_io_request|by rewrite Ht].
  - intros i s r attr Ht Hs. exists [(i, s)]. apply trace_leaf; [by eapply sem_enforce|by rewrite Ht].
  - intros i s domain outcome r n h Ht Hd _ [tr Htr]. exists tr. by eapply trace_branch.
  - intros s. exists []. constructor.
  - intros i l s s1 r n1 h1 n2 h2 _ [tr1 H1] _ [tr2 H2]. exists (tr1 ++ tr2). by eapply trace_next.
  - intros i l s r n h _ [tr Htr] Hr. exists tr. by apply trace_stop.
Qed.
Lemma trace_run :
  (forall i s r tr, exec_trace i s r tr -> exists n h, exec_sem i s r n h) /\
  (forall l s r tr, seq_trace l s r tr -> exists n h, seq_sem l s r n h).
Proof.
  apply exec_seq_trace_ind.
  - intros i s r Hs _. by exists 1, 0.
  - intros i s domain outcome r tr Ht Hd _ (n & h & Hs). exists (S n), (S h). by eapply sem_branch.
  - intros s. exists 0, 0. constructor.
  - intros i l s s1 r tr1 tr2 _ (n1 & h1 & H1) _ (n2 & h2 & H2). eexists _, _. by eapply seq_next.
  - intros i l s r tr _ (n & h & Hs) Hr. exists n, h. by apply seq_stop.
Qed.
(** The trace of a run is determined. *)
Lemma trace_functional :
  (forall i s r tr, exec_trace i s r tr -> forall r' tr', exec_trace i s r' tr' -> r = r' /\ tr = tr') /\
  (forall l s r tr, seq_trace l s r tr -> forall r' tr', seq_trace l s r' tr' -> r = r' /\ tr = tr').
Proof.
  apply exec_seq_trace_ind.
  - intros i s r Hs Hb r' tr' H'. inversion H' as [? ? ? Hs' _|? ? ? ? ? ? Hb']; subst; [|by rewrite Hb' in Hb].
    split; [|done]. inversion Hs; inversion Hs'; subst; congruence.
  - intros i s domain outcome r tr Hb Hd _ IH r' tr' H'. inversion H' as [? ? ? _ Hb'|? ? d' o' ? ? _ Hd' Hseq]; subst; [by rewrite Hb in Hb'|].
    rewrite Hd in Hd'. injection Hd' as <- <-. by apply IH.
  - intros s r' tr' H'. by inversion H'.
  - intros i l s s1 r tr1 tr2 _ IH1 _ IH2 r' tr' H'.
    inversion H' as [|? ? ? s1' ? tr1' tr2' H1 H2|? ? ? ? ? H1 Hr]; subst.
    + destruct (IH1 _ _ H1) as [[= <-] <-]. by destruct (IH2 _ _ H2) as [<- <-].
    + by destruct (IH1 _ _ H1) as [<- _].
  - intros i l s r tr _ IH Hr r' tr' H'. inversion H' as [|? ? ? s1' ? tr1' tr2' H1 H2|? ? ? ? ? H1 Hr']; subst.
    + by destruct (IH _ _ H1) as [-> _].
    + by apply IH.
Qed.
Definition is_write (i : JsonValue) : bool := String.eqb (node_type i) "set" || String.eqb (node_type i) "push".
(** No set and no push, and every instruction on the state [s]. *)
Definition idle (s : JsonValue) (tr : Trace) : Prop := Forall (fun ev => is_write (fst ev) = false /\ snd ev = s) tr.

(** A guarded rule leaves the state alone and executes nothing, or its facts
    hold there. *)
Lemma guarded_effect r s res tr : guarded r = true -> node_type r <> "enforce" ->
  exec_trace r s res tr -> (res = MState s /\ tr = []) \/ holds_at (build_top_facts r) s.
Proof.
  intros Hg Hne Hs. unfold guarded in Hg. destruct (String.eqb_spec (node_type r) "enforce") as [|_]; [done|].
  destruct (rule_domain r) as [d|] eqn:Hd; [|right; by apply no_domain_facts]. cbn [is_some negb orb] in Hg.
  apply andb_true_iff in Hg as [Hb%String.eqb_eq Hfalse].
  inversion Hs as [i s0 r0 _ Ht|i s0 domain outcome r0 tr0 Ht Hdom Hseq]; subst.
  { exfalso. apply Ht. revert Hb. unfold node_type, instr_type. by destruct (let! v := json_get r "type" in as_str v) as [t|]; [intros <-|]. }
  unfold rule_domain in Hd. unfold instr_domain in Hdom. unfold children_of in Hfalse. unfold chosen_branch in Hseq.
  destruct (json_get r "params") as [params|] eqn:Hp; [|done]. cbn [ok_or] in Hdom. rewrite Hd in Hdom.
  destruct (to_bool outcome) eqn:Ho.
  2: { left. destruct (default [] _) as [|c l]; [|done]. by inversion Hseq. }
  right. destruct outcome; try done.
  destruct (resolve_path_or_literal s (Some d)) as [domain'|] eqn:Hres; [|done].
  destruct (evaluate_domain_outcome domain' s) as [o|] eqn:He; [|done]. injection Hdom as -> ->.
  unfold build_top_facts, provable_targets, on_domain, rule_domain. rewrite Hp, Hd.
  assert (domain = d \/ domain_type d = None) as [-> | Hstr].
  { destruct d; cbn [resolve_path_or_literal] in Hres; (right; reflexivity) || (left; congruence). }
  - rewrite evaluate_domain_outcome_at in He. apply eval_at_sound in He.
    pose proof (domain_facts s (json_height d) d He) as (H1 & H2 & H3). destruct (collect_exists_paths (json_height d) d false). by split.
  - destruct (json_height d); cbn [provable_walk collect_exists_paths]; rewrite ?Hstr; split; by intros ? ?.
Qed.

(** * The instruction does not change *)

Definition same_instruction (s s' : JsonValue) : Prop :=
  forall ss, get_steps s' (Key "__exec__" :: Key "instruction" :: ss) = get_steps s (Key "__exec__" :: Key "instruction" :: ss).
#[local] Instance same_instruction_equivalence : Equivalence same_instruction.
Proof.
  split; [by intros s ss|intros s s' H ss; by rewrite H|]. intros s1 s2 s3 H1 H2 ss. by rewrite H2, H1.
Qed.
Lemma frame_same_instruction s s' : run_frame s s' -> same_instruction s s'.
Proof. intros Hf ss. by apply (frame_rest _ _ Hf). Qed.
(** Paths that start at the instruction. *)
Definition instruction_path (p : string) : bool :=
  match denotes (default p (strip_prefix "__exec__." p)) with
  | Some (Key k :: _) => String.eqb k "instruction"
  | Some _ => false
  | None => true
  end.
Lemma same_type s s' : same_instruction s s' -> current_type s' = current_type s.
Proof.
  intros Hs. specialize (Hs [Key "type"]).
  change (json_get s' "__exec__" ≫= (fun e => json_get e "instruction" ≫= (fun i => json_get i "type" ≫= Some))
    = (json_get s "__exec__" ≫= (fun e => json_get e "instruction" ≫= (fun i => json_get i "type" ≫= Some)))) in Hs.
  change (json_get s' "__exec__" ≫= (fun e => json_get e "instruction" ≫= (fun i => json_get i "type" ≫= as_str))
    = (json_get s "__exec__" ≫= (fun e => json_get e "instruction" ≫= (fun i => json_get i "type" ≫= as_str)))).
  transitivity ((json_get s' "__exec__" ≫= (fun e => json_get e "instruction" ≫= (fun i => json_get i "type" ≫= Some))) ≫= as_str).
  { destruct (json_get s' "__exec__") as [e|]; [|done]. cbn. destruct (json_get e "instruction") as [i|]; [|done]. cbn. by destruct (json_get i "type"). }
  rewrite Hs. destruct (json_get s "__exec__") as [e|]; [|done]. cbn. destruct (json_get e "instruction") as [i|]; [|done]. cbn.
  by destruct (json_get i "type").
Qed.
Lemma same_path s s' p : same_instruction s s' -> instruction_path p = true -> resolve_domain_path s' p = resolve_domain_path s p.
Proof.
  intros Hs Hp. unfold instruction_path in Hp. unfold resolve_domain_path, resolve_exec_path.
  destruct (denotes (default p (strip_prefix "__exec__." p))) as [[|[k|i] ss]|] eqn:Hd; try done.
  - apply String.eqb_eq in Hp as ->. specialize (Hs ss). cbn [get_steps] in Hs.
    change (get_step s' (Key "__exec__")) with (json_get s' "__exec__") in Hs. change (get_step s (Key "__exec__")) with (json_get s "__exec__") in Hs.
    destruct (json_get s' "__exec__") as [e'|], (json_get s "__exec__") as [e|]; rewrite ?resolve_path_denotes, ?Hd; done.
  - destruct (json_get s' "__exec__") as [e'|], (json_get s "__exec__") as [e|]; rewrite ?resolve_path_denotes, ?Hd; done.
Qed.

(** * What the annotations of the nodes say of a run *)

(** The condition of the rule tests the instruction only. *)
Definition tests_instruction (r : JsonValue) : bool :=
  forallb instruction_path (elements (pos_exists (build_top_facts r) ∪ neg_exists (build_top_facts r))).
Lemma tests_instruction_path r p : tests_instruction r = true ->
  p ∈ pos_exists (build_top_facts r) \/ p ∈ neg_exists (build_top_facts r) -> instruction_path p = true.
Proof.
  unfold tests_instruction. rewrite forallb_forall. intros H Hp. apply H, list_elem_of_In, elem_of_elements. set_solver.
Qed.
(** Two rules that take effect on the same instruction are found to overlap,
    and not to exclude each other. *)
Lemma holds_both r1 r2 s1 s2 : tests_instruction r1 = true -> same_instruction s1 s2 ->
  holds_at (build_top_facts r1) s1 -> holds_at (build_top_facts r2) s2 ->
  maybe_overlap (provable (build_top_facts r1)) (provable (build_top_facts r2)) = true /\
  mutually_exclusive (build_top_facts r1) (build_top_facts r2) = false.
Proof.
  intros Hr Hs [T1 P1 N1] [T2 P2 N2]. split.
  - unfold maybe_overlap. destruct (decide (provable (build_top_facts r1) = ∅)) as [->|[t1 H1]%set_choose_L]; [done|].
    destruct (decide (provable (build_top_facts r2) = ∅)) as [->|[t2 H2]%set_choose_L].
    { by rewrite (bool_decide_eq_true_2 (∅ = ∅)), orb_true_r. }
    apply orb_true_iff. right. apply negb_true_iff, bool_decide_eq_false. intros He.
    assert (t1 = t2) as -> by (pose proof (same_type _ _ Hs) as Ht; rewrite (T1 _ H1), (T2 _ H2) in Ht; congruence). set_solver.
  - unfold mutually_exclusive. apply orb_false_iff. split; apply negb_false_iff, bool_decide_eq_true; apply elem_of_equiv_empty_L;
      intros p [Hp1 Hp2]%elem_of_intersection.
    + pose proof (P1 _ Hp1) as H1. pose proof (N2 _ Hp2) as H2. rewrite (same_path s1 s2) in H2; [congruence|done|].
      eapply tests_instruction_path; eauto.
    + pose proof (P2 _ Hp1) as H1. pose proof (N1 _ Hp2) as H2. rewrite (same_path s1 s2) in H1; [congruence|done|].
      eapply tests_instruction_path; eauto.
Qed.

(** The branch an outcome selects is an arm. *)
Lemma chosen_branch_children i outcome : chosen_branch i outcome = children_of i (if to_bool outcome then "on_true" else "on_false").
Proof. reflexivity. Qed.
Lemma chosen_branch_arm i outcome c : c ∈ chosen_branch i outcome -> c ∈ arms_of i.
Proof. rewrite chosen_branch_children. unfold arms_of. rewrite elem_of_app. destruct (to_bool outcome); tauto. Qed.
Lemma children_of_height n key c : c ∈ children_of n key -> json_height c < json_height n.
Proof.
  unfold children_of. destruct (json_get n "params") as [p|] eqn:Hp; [|by intros ?%not_elem_of_nil].
  destruct (json_get p key) as [v|] eqn:Hv; [|by intros ?%not_elem_of_nil]. cbn.
  destruct (as_array v) as [l|] eqn:Hl; [|by intros ?%not_elem_of_nil]. intros Hc.
  apply json_get_height in Hp, Hv. pose proof (array_height _ _ _ Hl Hc). lia.
Qed.
Lemma arms_height n c : c ∈ arms_of n -> json_height c < json_height n.
Proof. unfold arms_of. rewrite elem_of_app. intros [H|H]; by apply children_of_height in H. Qed.
Lemma existsb_ext_in {A} (f g : A -> bool) l : (forall x, x ∈ l -> f x = g x) -> existsb f l = existsb g l.
Proof.
  induction l as [|x l IH]; intros H; [done|]. cbn. rewrite (H x) by left. rewrite IH; [done|]. intros y Hy. apply H. by right.
Qed.
Lemma mutating_fuel fuel n : json_height n <= fuel -> mutating fuel n = has_mutating n.
Proof.
  unfold has_mutating. enough (forall f1 f2 n, json_height n <= f1 -> json_height n <= f2 -> mutating f1 n = mutating f2 n) by auto.
  clear. intros f1. assert (forall n, 1 <= json_height n) as Hpos by (intros []; cbn; lia).
  induction f1 as [|f1 IH]; intros [|f2] n H1 H2; pose proof (Hpos n); try lia. cbn [mutating].
  destruct (_ || _)%bool; [done|]. f_equal. apply existsb_ext_in. intros c Hc%arms_height. apply IH; lia.
Qed.
Lemma has_mutating_eq n : has_mutating n =
  (String.eqb (node_type n) "set" || String.eqb (node_type n) "push" ||
   (String.eqb (node_type n) "branch" && existsb has_mutating (arms_of n)))%bool.
Proof.
  rewrite <- (mutating_fuel (S (json_height n))) by lia. cbn [mutating]. destruct (_ || _)%bool; [done|]. cbn [orb]. f_equal.
  apply existsb_ext_in. intros c Hc%arms_height. apply mutating_fuel. lia.
Qed.
Lemma not_mutating_arms n : node_type n = "branch" -> has_mutating n = false -> Forall (fun c => has_mutating c = false) (arms_of n).
Proof.
  intros Hb. rewrite has_mutating_eq, Hb. cbn. intros H. apply Forall_forall. intros c Hc.
  destruct (has_mutating c) eqn:Hm; [|done]. rewrite <- H. symmetry. apply existsb_exists. exists c. split; [by apply list_elem_of_In|done].
Qed.

(** What does not change the state. *)
Lemma io_request_not_state i s s' : exec_io_request i s = Ok (MState s') -> False.
Proof.
  unfold exec_io_request. destruct (ok_or _ _) as [params|]; [|done]. destruct (ok_or _ _) as [t|]; [|done].
  by destruct (match as_object params with Some _ => _ | None => _ end).
Qed.
Lemma enforce_result i s r attr : exec_enforce i s = Ok (r, attr) -> r = MState s \/ exists reason, r = MHalted reason.
Proof.
  unfold exec_enforce. destruct (ok_or _ _) as [params|]; [|done]. destruct (resolve_path_or_literal s _) as [domain|]; [|done].
  destruct (evaluate_domain_outcome domain s) as [outcome|]; [|done]. destruct (negb (to_bool outcome)).
  - intros [= <- _]. by left.
  - destruct (ok_or _ _) as [reason|]; [|done]. intros [= <- _]. right. by exists reason.
Qed.
Lemma not_mutating_leaf i s r n h : exec_sem i s r n h -> instr_type i <> Some "branch" -> has_mutating i = false ->
  is_write i = false /\ forall s', r = MState s' -> s' = s.
Proof.
  rewrite has_mutating_eq. intros Hs Hb [Hw _]%orb_false_iff. split; [exact Hw|]. intros s' ->. revert Hw.
  inversion Hs as [? ? ? Ht%node_type_instr|? ? ? Ht%node_type_instr|? ? ? _ Hr|? ? ? ? _ Hr|]; subst; rewrite ?Ht; try done.
  - by apply io_request_not_state in Hr.
  - by apply enforce_result in Hr as [[= ->]|[reason [=]]].
Qed.
Lemma not_mutating_idle :
  (forall i s r tr, exec_trace i s r tr -> has_mutating i = false -> idle s tr /\ forall s', r = MState s' -> s' = s) /\
  (forall l s r tr, seq_trace l s r tr -> Forall (fun i => has_mutating i = false) l ->
     idle s tr /\ forall s', r = MState s' -> s' = s).
Proof.
  apply exec_seq_trace_ind.
  - intros i s r Hs Hb Hm. destruct (not_mutating_leaf _ _ _ _ _ Hs Hb Hm). split; [by repeat constructor|done].
  - intros i s domain outcome r tr Ht%node_type_instr _ _ IH Hm. apply IH.
    pose proof (not_mutating_arms i Ht Hm) as Ha. rewrite Forall_forall in Ha |- *. intros c Hc. eapply Ha, chosen_branch_arm, Hc.
  - intros s _. split; [constructor|]. by intros s' [= ->].
  - intros i l s s1 r tr1 tr2 _ IH1 _ IH2 [Hi Hl]%Forall_cons. destruct (IH1 Hi) as [H1 Hs1], (IH2 Hl) as [H2 Hs2].
    rewrite (Hs1 s1 eq_refl) in *. split; [by apply Forall_app|done].
  - intros i l s r tr _ IH Hr [Hi _]%Forall_cons. by apply IH.
Qed.

(** A request a node makes is made by an io_request of its tree; a node that
    nothing may have changed the state before makes it there, and the run
    executed no set and no push before. *)
Definition ends_at (tr : Trace) (s i : JsonValue) : Prop := exists before, tr = before ++ [(i, s)] /\ idle s before.
Definition makes_request (nodes : list Node) (s : JsonValue) (ty : string) (p : JsonValue) (preceded : bool) (tr : Trace) : Prop :=
  exists x, x ∈ nodes /\ node_type (nd_node x) = "io_request" /\ (preceded = true -> nd_preceded x = true) /\
    (nd_preceded x = false -> exec_io_request (nd_node x) s = Ok (MIoRequired ty p) /\ ends_at tr s (nd_node x)).
Lemma makes_request_incl nodes nodes' s ty p (b b' : bool) tr : (forall x, x ∈ nodes -> x ∈ nodes') -> (b' = true -> b = true) ->
  makes_request nodes s ty p b tr -> makes_request nodes' s ty p b' tr.
Proof. intros Hin Hb (x & Hx & Hio & Hpre & H). exists x. split_and!; [by apply Hin|done|auto|done]. Qed.
Lemma ends_at_app tr1 tr2 s i : idle s tr1 -> ends_at tr2 s i -> ends_at (tr1 ++ tr2) s i.
Proof. intros H1 (before & -> & H2). exists (tr1 ++ before). rewrite app_assoc. split; [done|by apply Forall_app]. Qed.
Lemma request_leaf i s r ty p : exec_sem i s r 1 0 -> instr_type i <> Some "branch" -> r = MIoRequired ty p ->
  node_type i = "io_request" /\ exec_io_request i s = Ok (MIoRequired ty p).
Proof.
  intros Hs Hb ->. inversion Hs as [| |? ? ? Ht%node_type_instr Hr|? ? ? ? _ Hr|]; subst; [done|].
  by apply enforce_result in Hr as [[=]|[reason [=]]].
Qed.
Lemma walk_requests ty p :
  (forall i s r tr, exec_trace i s r tr -> r = MIoRequired ty p -> forall fuel nd, nd_node nd = i -> json_height i <= fuel ->
    makes_request (walk fuel nd) s ty p (nd_preceded nd) tr) /\
  (forall l s r tr, seq_trace l s r tr -> r = MIoRequired ty p -> forall fuel nd key j prior,
    Forall (fun c => json_height c <= fuel) l ->
    makes_request (walk_arm (walk fuel) nd key j prior l) s ty p (nd_preceded nd || existsb has_mutating prior) tr).
Proof.
  assert (forall n, 1 <= json_height n) as Hpos by (intros []; cbn; lia).
  apply exec_seq_trace_ind.
  - intros i s r Hs Hb Hr [|fuel] nd Hn Hf; pose proof (Hpos i); [lia|].
    destruct (request_leaf _ _ _ _ _ Hs Hb Hr) as [Hio Hreq]. exists nd. rewrite Hn. split_and!; [left|done|done|].
    intros _. split; [done|]. exists []. split; [done|constructor].
  - intros i s domain outcome r tr Ht%node_type_instr _ _ IH Hr [|fuel] nd Hn Hf; pose proof (Hpos i); [lia|]. cbn [walk]. rewrite Hn, Ht.
    change (String.eqb "branch" "branch") with true. cbv iota. rewrite chosen_branch_children in IH.
    refine (makes_request_incl _ _ _ _ _ _ _ _ _ _ (IH Hr fuel nd (if to_bool outcome then "on_true" else "on_false") 0 [] _)).
    + intros x Hx. apply elem_of_cons. right. apply elem_of_app. destruct (to_bool outcome); [by left|by right].
    + intros ->. done.
    + apply Forall_forall. intros c Hc%children_of_height. lia.
  - done.
  - intros i l s s1 r tr1 tr2 H1 _ _ IH Hr fuel nd key j prior [Hi Hl]%Forall_cons. cbn [walk_arm].
    destruct (IH Hr fuel nd key (S j) (prior ++ [i]) Hl) as (x & Hx & Hio & Hpre & Hreq).
    rewrite existsb_app in Hpre. cbn [existsb] in Hpre. rewrite orb_false_r in Hpre.
    exists x. split_and!; [apply elem_of_app; by right|done| |].
    + intros Hb. apply Hpre. rewrite orb_assoc, Hb. done.
    + intros Hx0. destruct (has_mutating i) eqn:Hm; [by rewrite !orb_true_r, Hx0 in Hpre; discriminate (Hpre eq_refl)|].
      destruct (proj1 not_mutating_idle _ _ _ _ H1 Hm) as [Hidle Hs]. rewrite (Hs s1 eq_refl) in *.
      destruct (Hreq Hx0). split; [done|by apply ends_at_app].
  - intros i l s r tr _ IH _ Hr fuel nd key j prior [Hi _]%Forall_cons. cbn [walk_arm].
    refine (makes_request_incl _ _ _ _ _ _ _ _ _ _
      (IH Hr fuel (child_node nd (nd_path nd +:+ "." +:+ key +:+ "[" +:+ show_usize j +:+ "]") i true prior) eq_refl Hi)); [|done].
    intros x Hx. apply elem_of_app. by left.
Qed.

(** * Runs of the rules *)

(** What [run_requests] asks of a rule: its condition decides what it does,
    and is about the instruction. *)
Definition conditioned (r : JsonValue) : bool := (guarded r && tests_instruction r)%bool.
(** The state [s] that the rules [before] leave of [s0], and their trace: the
    state unchanged and nothing written, or a rule that mutates took effect. *)
Definition reached (s0 : JsonValue) (before : list JsonValue) (s : JsonValue) (tr : Trace) : Prop :=
  wf_json s = true /\ same_instruction s0 s /\
  ((s = s0 /\ idle s0 tr) \/
   exists r sj, r ∈ before /\ tests_instruction r = true /\ has_mutating r = true /\ same_instruction s0 sj /\
     holds_at (build_top_facts r) sj).
Lemma reached_weaken s0 before r s tr tr' : reached s0 before s tr -> idle s tr' -> reached s0 (before ++ [r]) s (tr ++ tr').
Proof.
  intros (Hw & Hs & H) Htr. split_and!; [done..|]. destruct H as [[-> Hi]|(r' & sj & Hr & H)]; [left; split; [done|by apply Forall_app]|]. right.
  exists r', sj. split; [apply elem_of_app; by left|done].
Qed.
Lemma not_enforce_type r : is_enforce r = false -> node_type r <> "enforce".
Proof.
  unfold is_enforce, rule_type, node_type. intros H Ht. destruct (let! v := json_get r "type" in as_str v); [|done].
  cbn in H, Ht. by rewrite Ht in H.
Qed.
Lemma reached_step s0 before r s s' tr tr' : reached s0 before s tr -> wf_json r = true -> conditioned r = true ->
  is_enforce r = false -> exec_trace r s (MState s') tr' -> reached s0 (before ++ [r]) s' (tr ++ tr').
Proof.
  intros Hs Hr [Hg Ht]%andb_true_iff He Hx. pose proof Hs as (Hw & Hsame & _).
  destruct (has_mutating r) eqn:Hm.
  2: { destruct (proj1 not_mutating_idle _ _ _ _ Hx Hm) as [Hi Hst]. rewrite (Hst s' eq_refl). by apply reached_weaken. }
  destruct (proj1 trace_run _ _ _ _ Hx) as (n & h & Hrun). pose proof (exec_sem_frame _ _ _ _ _ Hrun Hr Hw) as Hf.
  destruct (guarded_effect r s _ tr' Hg (not_enforce_type r He) Hx) as [[[= ->] ->]|Hat]; [apply reached_weaken; [done|constructor]|].
  split_and!; [apply (frame_wf _ _ Hf)|by rewrite Hsame; apply frame_same_instruction|]. right. exists r, s.
  split_and!; [apply elem_of_app; right; by left|done..].
Qed.
Lemma reached_overlap s0 before r s tr : reached s0 before s tr -> holds_at (build_top_facts r) s ->
  (s = s0 /\ idle s0 tr) \/ existsb (fun r' => same_pass_mutation r' (build_top_facts r') (build_top_facts r)) before = true.
Proof.
  intros (_ & Hsame & [H|(r' & sj & Hin & Ht & Hm & Hsj & Hat)]) Hr; [by left|right]. apply existsb_exists.
  exists r'. split; [by apply list_elem_of_In|]. unfold same_pass_mutation. rewrite Hm.
  assert (same_instruction sj s) as Hss by (rewrite <- Hsj; done).
  destruct (holds_both r' r sj s Ht Hss Hat Hr) as [-> ->]. done.
Qed.
Lemma run_requests s0 ty p : forall rules before s tr tr',
  Forall (fun r => wf_json r = true) rules -> Forall (fun r => conditioned r = true) rules ->
  reached s0 before s tr -> seq_trace (transforms rules) s (MIoRequired ty p) tr' ->
  makes_request (flatten_from before rules) s0 ty p false (tr ++ tr').
Proof.
  induction rules as [|r rules IH]; intros before s tr tr' Hw Hc Hs Hrun; [by inversion Hrun|].
  apply Forall_cons in Hw as [Hwr Hw], Hc as [Hcr Hc]. cbn [flatten_from]. unfold transforms in Hrun. cbn [List.filter] in Hrun.
  assert (forall tr1 tr2 s1, reached s0 (before ++ [r]) s1 tr1 -> seq_trace (transforms rules) s1 (MIoRequired ty p) tr2 ->
    makes_request (walk (json_height r) (root_node before (length before) r) ++ flatten_from (before ++ [r]) rules) s0 ty p false (tr1 ++ tr2)) as Hrest.
  { intros tr1 tr2 s1 H1 H2. refine (makes_request_incl _ _ _ _ _ _ _ _ _ _ (IH _ _ _ _ Hw Hc H1 H2)); [|done].
    intros x Hx. apply elem_of_app. by right. }
  destruct (is_enforce r) eqn:He; cbn [negb] in Hrun.
  { apply (Hrest tr tr' s); [|done]. rewrite <- (app_nil_r tr). apply reached_weaken; [done|constructor]. }
  inversion Hrun as [|i l s' s1 r' tr1 tr2 H1 H2|i l s' r' tr1 H1 H2]; subst.
  { rewrite app_assoc. apply (Hrest (tr ++ tr1) tr2 s1); [by eapply reached_step|done]. }
  destruct (proj1 (walk_requests ty p) _ _ _ _ H1 eq_refl (json_height r) (root_node before (length before) r) eq_refl (le_n _))
    as (x & Hx & Hio & Hpre & Hreq).
  exists x. split_and!; [apply elem_of_app; by left|done..|]. intros Hx0. apply andb_true_iff in Hcr as [Hg _].
  destruct (guarded_effect r s _ tr' Hg (not_enforce_type r He) H1) as [[[=] _]|Hat].
  destruct (reached_overlap s0 before r s tr Hs Hat) as [[-> Hi]|Hov]; [|cbn in Hpre; rewrite Hpre in Hx0; done].
  destruct (Hreq Hx0). split; [done|by apply ends_at_app].
Qed.

Lemma first_true_None bs : first_true bs = None -> Forall (fun b => b = false) bs.
Proof. induction bs as [|[] bs IH]; cbn; try done. intros H. constructor; [done|]. apply IH. by destruct (first_true bs). Qed.
Lemma concat_nil_each {A} (ls : list (list A)) : concat ls = [] -> Forall (fun l => l = []) ls.
Proof. induction ls as [|l ls IH]; cbn; [done|]. intros [H1 H2]%app_eq_nil. constructor; auto. Qed.

(** What the clauses DC-08 and DC-09 ask of a request. *)
Lemma verdict_request tops x : node_type (nd_node x) = "io_request" -> verdict tops x = [] ->
  nd_preceded x = false /\ nd_io_in_tree x < 2.
Proof.
  unfold verdict. intros Hio. destruct (first_true _) as [k|] eqn:E; [done|]. intros _. apply first_true_None in E.
  unfold clause_bools in E. rewrite Hio in E. cbn in E. rewrite Forall_forall in E. split.
  - apply E, list_elem_of_In. cbn. tauto.
  - apply Nat.leb_gt, (E (2 <=? nd_io_in_tree x)%nat), list_elem_of_In. cbn. tauto.
Qed.

(** * Properties *)

(** C26: The gate always answers, and exactly.  On any rule set of well-formed
    values the kernel runs the nine clauses on every node of the set without
    an error and without exhausting its budget; the report lists the nodes in
    their order and gives each the first clause it breaks, where [clause_bools]
    says on the node itself what each clause asks; nothing else is reported. *)
Theorem discipline_exact debug_error ruleset :
  Forall (fun r => wf_json r = true) ruleset ->
  check debug_error (Ok DISCIPLINE_CORE_EVAL) ruleset =
    Ok (mk_report (length (flatten ruleset)) (concat (map (verdict (map build_top_facts ruleset)) (flatten ruleset)))).
Proof. intros Hr. unfold check. cbv zeta. by rewrite check_nodes_exact by by apply flatten_wf. Qed.
(** A set and a request in one branch. *)
Definition set_rule (attr : string) (v : JsonValue) : JsonValue :=
  object_from_pairs [("type", JString "set"); ("params", object_from_pairs [("attr", JString attr); ("operation", JString "set"); ("value", v)])].
Definition io_rule (ty : string) : JsonValue :=
  object_from_pairs [("type", JString "io_request"); ("params", object_from_pairs [("io_type", JString ty)])].
Definition branch_rule (domain : JsonValue) (on_true on_false : list JsonValue) : JsonValue :=
  object_from_pairs [("type", JString "branch");
    ("params", object_from_pairs [("domain", domain); ("on_true", JArray on_true); ("on_false", JArray on_false)])].
Definition bad_rules : list JsonValue :=
  [branch_rule (d_instruction "a") [set_rule "x" (JInteger 1); io_rule "http"] []; io_rule "late"].
Lemma discipline_exact_witness :
  check (fun _ => "") (Ok DISCIPLINE_CORE_EVAL) bad_rules =
    Ok (mk_report 4 [mk_violation "[0].on_true[1]" "io_request" "DC-09" (nth 8 clause_reasons "");
      mk_violation "[1]" "io_request" "DC-05" (nth 4 clause_reasons "")]).
Proof.
  rewrite (discipline_exact (fun _ => "") bad_rules) by (repeat constructor). vm_compute. reflexivity.
Defined.

(** C27: what the gate accepts keeps requests at the leaves.  When an accepted
    rule set, whose conditions decide what their rules do and are about the
    instruction, asks for input or output, then the run of its rules executes
    no set and no push before the request: every instruction executed before,
    and the request itself, an io_request node of the set that has no second
    one in its rule, is executed on the very state the transition was entered
    with.  So nothing that ran before the request is lost when the answer
    makes the kernel run the instruction again. *)
Theorem accepted_io_is_leaf debug_error ruleset report instruction payload queue ty p :
  Forall (fun r => wf_json r = true) ruleset -> Forall (fun r => conditioned r = true) ruleset ->
  wf_json instruction = true -> wf_json payload = true -> Forall (fun i => wf_json i = true) queue ->
  check debug_error (Ok DISCIPLINE_CORE_EVAL) ruleset = Ok report -> violations report = [] ->
  execute_transition ruleset instruction payload queue = Ok (TIoRequired ty p) ->
  let s0 := build_exec_state instruction payload queue in
  exists nd before,
    seq_trace (transforms ruleset) s0 (MIoRequired ty p) (before ++ [(nd_node nd, s0)]) /\
    Forall (fun '(i, s) => is_write i = false /\ s = s0) before /\
    nd ∈ flatten ruleset /\ node_type (nd_node nd) = "io_request" /\ nd_io_in_tree nd < 2.
Proof.
  intros Hw Hc Hi Hp Hq Hcheck Hnone Hrun s0. unfold check in Hcheck. cbv zeta in Hcheck.
  rewrite check_nodes_exact in Hcheck by by apply flatten_wf. injection Hcheck as <-. cbn [violations] in Hnone.
  pose proof (execute_transition_case ruleset instruction payload queue) as Hcase. rewrite Hrun in Hcase.
  assert (exists n h, seq_sem (transforms ruleset) s0 (MIoRequired ty p) n h) as (n & h & Hs).
  { inversion Hcase as [| | |io_type params n h _ Hs| |state hits res _ _ _ _ Hres]; subst; [by exists n, h|]. exfalso. revert Hres.
    cbv zeta. destruct (ok_or _ _); [|done]. destruct (ok_or _ _); [|done]. by case_match. }
  destruct (proj2 run_traced _ _ _ _ _ Hs) as [tr Htr].
  destruct (run_requests s0 ty p ruleset [] s0 [] tr Hw Hc) as (x & Hx & Hio & _ & Hreq).
  { split_and!; [by apply build_exec_state_wf|done|left; split; [done|constructor]]. }
  { done. }
  assert (verdict (map build_top_facts ruleset) x = []) as Hv.
  { apply (proj1 (Forall_forall _ _) (concat_nil_each _ Hnone)). apply list_elem_of_fmap. by exists x. }
  destruct (verdict_request _ _ Hio Hv) as [Hx0 Hn]. destruct (Hreq Hx0) as (_ & before & Heq & Hidle). change ([] ++ tr) with tr in Heq. subst tr.
  exists x, before. split_and!; [done| |done..]. eapply Forall_impl; [exact Hidle|]. by intros [].
Qed.
(** One rule of the instruction fetch stores the answer it carries, the next
    asks for it. *)
Definition fetch_rules : list JsonValue :=
  [clause (d_exists "instruction.params.forbidden") "forbidden";
   branch_rule (all_domain [d_instruction "fetch"; d_exists "instruction.params.answer"]) [set_rule "x" (JInteger 1)] [];
   branch_rule (all_domain [d_instruction "fetch"; not_domain (d_exists "instruction.params.answer")]) [io_rule "http"] []].
Definition fetch : JsonValue := object_from_pairs [("type", JString "fetch"); ("params", object_from_pairs [])].
Lemma accepted_io_is_leaf_witness :
  let s0 := build_exec_state fetch (JInteger 0) [] in
  exists nd before,
    seq_trace (transforms fetch_rules) s0 (MIoRequired "http" (JObject [])) (before ++ [(nd_node nd, s0)]) /\
    Forall (fun '(i, s) => is_write i = false /\ s = s0) before /\
    nd ∈ flatten fetch_rules /\ node_type (nd_node nd) = "io_request" /\ nd_io_in_tree nd < 2.
Proof.
  apply (accepted_io_is_leaf (fun _ => "") fetch_rules (mk_report 5 []) fetch (JInteger 0) [] "http" (JObject []));
    try (repeat constructor); vm_compute; reflexivity.
Defined.

(** * Accepted rule sets outside the guarantee *)

Definition accepts (ruleset : list JsonValue) : bool :=
  match check (fun _ => "") (Ok DISCIPLINE_CORE_EVAL) ruleset with Ok report => match violations report with [] => true | _ => false end | _ => false end.
Definition request_of (ruleset : list JsonValue) (ty : string) : option string :=
  match execute_transition ruleset (object_from_pairs [("type", JString ty)]) (object_from_pairs []) [] with
  | Ok (TIoRequired io_type _) => Some io_type
  | _ => None
  end.
Definition payload_of (ruleset : list JsonValue) (ty : string) : option JsonValue :=
  match execute_transition ruleset (object_from_pairs [("type", JString ty)]) (object_from_pairs []) [] with
  | Ok (TState payload _ _) => Some payload
  | _ => None
  end.
(** The other arm of a branch runs when its condition fails, the gate reads
    the condition as if it held for both: a set of the arm runs before the
    request of another instruction. *)
Definition arm_set : JsonValue := branch_rule (d_instruction "a") [] [set_rule "x" (JInteger 1)].
Definition ask_b : JsonValue := branch_rule (d_instruction "b") [io_rule "http"] [].
Lemma false_arm_set_before_request :
  accepts [arm_set; ask_b] = true /\ request_of [arm_set; ask_b] "b" = Some "http" /\
  payload_of [arm_set] "b" = Some (object_from_pairs [("x", JInteger 1)]) /\ conditioned arm_set = false.
Proof. by vm_compute. Qed.
(** ... and a request of the arm hides a later one. *)
Lemma false_arm_request_shadows :
  let first := branch_rule (d_instruction "a") [] [io_rule "first"] in
  accepts [first; ask_b] = true /\ request_of [first; ask_b] "b" = Some "first".
Proof. by vm_compute. Qed.
(** A negated instruction is taken for a target. *)
Lemma negated_target_shadows :
  let first := branch_rule (not_domain (d_instruction "a")) [io_rule "first"] [] in
  accepts [first; ask_b] = true /\ request_of [first; ask_b] "b" = Some "first".
Proof. by vm_compute. Qed.
(** The rule that sets a field and the rule that needs it exclude each other
    on one state, and run one after the other. *)
Lemma exclusion_forgets_set :
  let first := branch_rule (not_domain (d_exists "payload.x")) [set_rule "x" (JInteger 1)] [] in
  let second := branch_rule (d_exists "payload.x") [io_rule "http"] [] in
  accepts [first; second] = true /\ request_of [first; second] "b" = Some "http" /\
  payload_of [first] "b" = Some (object_from_pairs [("x", JInteger 1)]) /\
  guarded first = true /\ guarded second = true /\ tests_instruction first = false.
Proof. by vm_compute. Qed.
(** The kernel does not read the condition of a request. *)
Lemma request_condition_ignored :
  let first := object_from_pairs [("type", JString "io_request");
    ("params", object_from_pairs [("domain", d_instruction "a"); ("io_type", JString "first")])] in
  accepts [first; ask_b] = true /\ request_of [first; ask_b] "b" = Some "first".
Proof. by vm_compute. Qed.

(** The rule set of the gate itself passes it. *)
Lemma embedded_rules_accepted : accepts DISCIPLINE_CORE_EVAL = true.
Proof. by vm_compute. Qed.
