(* ===== verification/ChannelLocal.v ===== *)
(** The single-threaded queues, [evorule-reactor/src/channel_local.rs]: the
    command pair and the event broadcaster over shared, reference-counted
    queues, and the plain first-in first-out channels they implement. *)

From S2P Require Import Prelude.

Section ChannelLocal.
Context {T : Type}.

(** * The store *)

(** The queues some [Rc] still points to, with the number of these pointers;
    the subscriber lists of the broadcasters; the next fresh address.  An
    address is not used again: the [Weak] pointers to a freed queue keep its
    allocation. *)
Record Heap : Type := mk_heap {
  queues : gmap nat (nat * list T);
  cores : gmap nat (list nat);
  fresh : nat;
}.
Definition heap_new : Heap := mk_heap ∅ ∅ 0.
Definition with_queues (h : Heap) (q : gmap nat (nat * list T)) : Heap := mk_heap q (cores h) (fresh h).
(** [Rc::new] of an empty queue. *)
Definition alloc_queue (h : Heap) : nat * Heap :=
  (fresh h, mk_heap (<[fresh h := (1, [])]> (queues h)) (cores h) (S (fresh h))).
(** [Weak::upgrade], read. *)
Definition upgrade (h : Heap) (q : nat) : option (list T) := snd <$> queues h !! q.
Definition push_back (h : Heap) (q : nat) (v : T) : Heap :=
  with_queues h (alter (fun cell => (fst cell, snd cell ++ [v])) q (queues h)).
(** [Rc::clone] and the drop of an [Rc]. *)
Definition clone_rc (h : Heap) (q : nat) : Heap :=
  with_queues h (alter (fun cell => (S (fst cell), snd cell)) q (queues h)).
Definition drop_rc (h : Heap) (q : nat) : Heap :=
  match queues h !! q with
  | Some (S (S n), l) => with_queues h (<[q := (S n, l)]> (queues h))
  | Some _ => with_queues h (delete q (queues h))
  | None => h
  end.

(** * The command pair *)

(** [struct LocalSendError]; its message. *)
Inductive LocalSendError : Type := ReceiverDropped.
Definition local_send_error_display (e : LocalSendError) : string := "local queue receiver dropped".
(** A [LocalSender] holds a weak pointer, the [LocalReceiver] the only strong
    one: both are the address. *)
Definition local_pair (h : Heap) : nat * Heap := alloc_queue h.
Definition local_send (h : Heap) (q : nat) (v : T) : Result Heap LocalSendError :=
  let? _l := ok_or (upgrade h q) ReceiverDropped in Ok (push_back h q v).
Definition sender_len (h : Heap) (q : nat) : option nat := length <$> upgrade h q.
Definition sender_is_empty (h : Heap) (q : nat) : option bool :=
  (fun l => match l with [] => true | _ => false end) <$> upgrade h q.

(** * The receivers *)

(** Both receivers hold a strong pointer, so [q] is among the queues. *)
Definition try_pop (h : Heap) (q : nat) : option T * Heap :=
  match queues h !! q with
  | Some (n, v :: l) => (Some v, with_queues h (<[q := (n, l)]> (queues h)))
  | _ => (None, h)
  end.
Definition receiver_len (h : Heap) (q : nat) : nat := length (default [] (upgrade h q)).
Definition receiver_is_empty (h : Heap) (q : nat) : bool :=
  match default [] (upgrade h q) with [] => true | _ => false end.

(** * The broadcaster *)

Definition subs_of (h : Heap) (c : nat) : list nat := default [] (cores h !! c).
Definition with_subs (h : Heap) (c : nat) (subs : list nat) : Heap := mk_heap (queues h) (<[c := subs]> (cores h)) (fresh h).
Definition subscribe (h : Heap) (c : nat) : nat * Heap :=
  let '(q, h) := alloc_queue h in (q, with_subs h c (subs_of h c ++ [q])).
(** The new core and its first subscriber. *)
Definition local_broadcaster (h : Heap) : nat * nat * Heap :=
  let c := fresh h in
  let h := mk_heap (queues h) (<[c := []]> (cores h)) (S c) in
  let '(q, h) := subscribe h c in (c, q, h).
(** The loop of [LocalEventSender::send]: the deliveries, and the indices of
    the dead. *)
Fixpoint deliver (h : Heap) (v : T) (idx : nat) (subs : list nat) (dead : list nat) : Heap * list nat :=
  match subs with
  | [] => (h, dead)
  | q :: rest =>
      match upgrade h q with
      | Some _ => deliver (push_back h q v) v (S idx) rest dead
      | None => deliver h v (S idx) rest (dead ++ [idx])
      end
  end.
(** [Vec::swap_remove], for an index in range. *)
Definition swap_remove (l : list nat) (idx : nat) : list nat :=
  match last l with
  | Some x => take (pred (length l)) (<[idx := x]> l)
  | None => l
  end.
Definition event_send (h : Heap) (c : nat) (v : T) : Heap :=
  let '(h', dead) := deliver h v 0 (subs_of h c) [] in
  with_subs h' c (fold_left swap_remove (rev dead) (subs_of h c)).
Definition subscriber_count (h : Heap) (c : nat) : nat := length (subs_of h c).

(** * Programs *)

(** The calls of a program, on handles it holds. *)
Inductive Op : Type :=
| OpPair
| OpSend (q : nat) (v : T)
| OpSenderLen (q : nat)
| OpSenderEmpty (q : nat)
| OpBroadcaster
| OpSubscribe (c : nat)
| OpEventSend (c : nat) (v : T)
| OpClone (q : nat)
| OpDrop (q : nat)
| OpPop (q : nat)
| OpLen (q : nat)
| OpEmpty (q : nat)
| OpCount (c : nat).
Inductive Answer : Type :=
| Nothing
| Handle (q : nat)
| Handles (c q : nat)
| Sent (ok : bool)
| Length (n : option nat)
| Empty (b : option bool)
| Popped (v : option T).
(** A handle of a receiver that was dropped cannot be used, a core that was
    not created has no sender: such calls are skipped. *)
Definition step (h : Heap) (op : Op) : Answer * Heap :=
  let live q (r : Answer * Heap) := if is_some (upgrade h q) then r else (Nothing, h) in
  let known c (r : Answer * Heap) := if is_some (cores h !! c) then r else (Nothing, h) in
  match op with
  | OpPair => let '(q, h) := local_pair h in (Handle q, h)
  | OpSend q v => match local_send h q v with Ok h => (Sent true, h) | Err _ => (Sent false, h) end
  | OpSenderLen q => (Length (sender_len h q), h)
  | OpSenderEmpty q => (Empty (sender_is_empty h q), h)
  | OpBroadcaster => let '(c, q, h) := local_broadcaster h in (Handles c q, h)
  | OpSubscribe c => known c (let '(q, h) := subscribe h c in (Handle q, h))
  | OpEventSend c v => known c (Nothing, event_send h c v)
  | OpClone q => live q (Nothing, clone_rc h q)
  | OpDrop q => live q (Nothing, drop_rc h q)
  | OpPop q => live q (let '(v, h) := try_pop h q in (Popped v, h))
  | OpLen q => live q (Length (Some (receiver_len h q)), h)
  | OpEmpty q => live q (Empty (Some (receiver_is_empty h q)), h)
  | OpCount c => known c (Length (Some (subscriber_count h c)), h)
  end.
Fixpoint run (h : Heap) (ops : list Op) : list Answer * Heap :=
  match ops with
  | [] => ([], h)
  | op :: ops => let '(a, h) := step h op in let '(answers, h) := run h ops in (a :: answers, h)
  end.

(** * The channels they implement *)

(** A live receiver: its broadcaster if it has one, its handles, what it has
    not read yet.  Of a broadcaster, the receivers it counts: those that
    subscribed, less the ones that were gone at its last broadcast. *)
Record Inbox : Type := mk_inbox { of_core : option nat; handles : nat; pending : list T }.
Record Channels : Type := mk_channels { inboxes : gmap nat Inbox; listed : gmap nat (gset nat); next_id : nat }.
Definition senders (s : Channels) : gset nat := dom (listed s).
Definition channels_new : Channels := mk_channels ∅ ∅ 0.
Definition with_inboxes (s : Channels) (i : gmap nat Inbox) : Channels := mk_channels i (listed s) (next_id s).
Definition put (v : T) (i : Inbox) : Inbox := mk_inbox (of_core i) (handles i) (pending i ++ [v]).
Definition new_inbox (s : Channels) (c : option nat) : Channels :=
  mk_channels (<[next_id s := mk_inbox c 1 []]> (inboxes s))
    (match c with Some c => alter (fun l => {[next_id s]} ∪ l) c (listed s) | None => listed s end) (S (next_id s)).
Definition publish (c : nat) (v : T) (i : Inbox) : Inbox := if bool_decide (of_core i = Some c) then put v i else i.
Definition spec_publish (s : Channels) (c : nat) (v : T) : Channels :=
  mk_channels (publish c v <$> inboxes s) (alter (fun l => l ∩ dom (inboxes s)) c (listed s)) (next_id s).
Definition spec_step (s : Channels) (op : Op) : Answer * Channels :=
  match op with
  | OpPair => (Handle (next_id s), new_inbox s None)
  | OpSend q v => (Sent (is_some (inboxes s !! q)), with_inboxes s (alter (put v) q (inboxes s)))
  | OpSenderLen q => (Length ((fun i => length (pending i)) <$> inboxes s !! q), s)
  | OpSenderEmpty q => (Empty ((fun i => bool_decide (pending i = [])) <$> inboxes s !! q), s)
  | OpBroadcaster =>
      let c := next_id s in
      (Handles c (S c), new_inbox (mk_channels (inboxes s) (<[c := ∅]> (listed s)) (S c)) (Some c))
  | OpSubscribe c => if decide (c ∈ senders s) then (Handle (next_id s), new_inbox s (Some c)) else (Nothing, s)
  | OpEventSend c v => if decide (c ∈ senders s) then (Nothing, spec_publish s c v) else (Nothing, s)
  | OpClone q => (Nothing, with_inboxes s (alter (fun i => mk_inbox (of_core i) (S (handles i)) (pending i)) q (inboxes s)))
  | OpDrop q =>
      (Nothing, with_inboxes s (match inboxes s !! q with
         | Some (mk_inbox c (S (S n)) l) => <[q := mk_inbox c (S n) l]> (inboxes s)
         | _ => delete q (inboxes s) end))
  | OpPop q =>
      match inboxes s !! q with
      | Some (mk_inbox c n (v :: l)) => (Popped (Some v), with_inboxes s (<[q := mk_inbox c n l]> (inboxes s)))
      | Some _ => (Popped None, s)
      | None => (Nothing, s)
      end
  | OpLen q => match inboxes s !! q with Some i => (Length (Some (length (pending i))), s) | None => (Nothing, s) end
  | OpEmpty q => match inboxes s !! q with Some i => (Empty (Some (bool_decide (pending i = []))), s) | None => (Nothing, s) end
  | OpCount c => match listed s !! c with Some l => (Length (Some (size l)), s) | None => (Nothing, s) end
  end.
Fixpoint spec_run (s : Channels) (ops : list Op) : list Answer * Channels :=
  match ops with
  | [] => ([], s)
  | op :: ops => let '(a, s) := spec_step s op in let '(answers, s) := spec_run s ops in (a :: answers, s)
  end.

(** * The subscriber list *)

(** The indices, from [idx] on, of the addresses that [live] refuses. *)
Fixpoint dead_from (live : nat -> bool) (idx : nat) (subs : list nat) : list nat :=
  match subs with
  | [] => []
  | q :: rest => (if live q then [] else [idx]) ++ dead_from live (S idx) rest
  end.
Lemma dead_from_snoc live idx l q :
  dead_from live idx (l ++ [q]) = dead_from live idx l ++ (if live q then [] else [idx + length l]).
Proof.
  revert idx. induction l as [|x l IH]; intros idx; cbn; [by rewrite Nat.add_0_r, app_nil_r|].
  rewrite IH, <- app_assoc. do 3 f_equal. destruct (live q); [done|]. f_equal. lia.
Qed.
Lemma swap_remove_middle l x t y : swap_remove (l ++ x :: (t ++ [y])) (length l) = l ++ y :: t.
Proof.
  unfold swap_remove. change (x :: (t ++ [y])) with ((x :: t) ++ [y]). rewrite app_assoc, last_snoc.
  rewrite insert_app_l by (rewrite length_app; cbn; lia). rewrite insert_app_r_alt, Nat.sub_diag by done. cbn.
  rewrite length_app, length_app. cbn. replace (pred (length l + S (length t) + 1)) with (length (l ++ y :: t)) by (rewrite length_app; cbn; lia).
  by rewrite take_app_length.
Qed.
Lemma swap_remove_last l x : swap_remove (l ++ [x]) (length l) = l.
Proof.
  unfold swap_remove. rewrite last_snoc, insert_app_r_alt, Nat.sub_diag by done. cbn. rewrite length_app. cbn.
  replace (pred (length l + 1)) with (length l) by lia. by rewrite take_app_length.
Qed.
(** Removing the dead from the last to the first leaves the others, in some
    order. *)
Lemma swap_remove_dead live l t :
  fold_left swap_remove (rev (dead_from live 0 l)) (l ++ t) ≡ₚ List.filter live l ++ t.
Proof.
  revert t. induction l as [|x l IH] using rev_ind; intros t; [done|]. rewrite dead_from_snoc, List.filter_app. cbn.
  destruct (live x) eqn:Hx.
  - rewrite app_nil_r, <- app_assoc. cbn. rewrite IH. by rewrite <- app_assoc.
  - rewrite rev_app_distr, app_nil_r, <- app_assoc. cbn. destruct t as [|y t _] using rev_ind.
    + specialize (IH []). rewrite !app_nil_r in *. by rewrite swap_remove_last.
    + rewrite swap_remove_middle, IH. apply Permutation_app_head. by rewrite Permutation_cons_append.
Qed.

Definition is_live (h : Heap) (q : nat) : bool := is_some (upgrade h q).
Lemma push_back_live h q v q' : is_live (push_back h q v) q' = is_live h q'.
Proof.
  unfold is_live, upgrade, push_back, with_queues. cbn. destruct (decide (q = q')) as [->|Hne].
  - rewrite lookup_alter_eq. by destruct (queues h !! q').
  - by rewrite lookup_alter_ne.
Qed.
Lemma in_cons_ne (q q' : nat) subs : q <> q' -> bool_decide (q' ∈ q :: subs) = bool_decide (q' ∈ subs).
Proof. intros Hne. apply bool_decide_ext. rewrite elem_of_cons. naive_solver. Qed.
(** What [deliver] does to the queues, on a list without repetition. *)
Lemma deliver_spec v subs : NoDup subs -> forall h idx dead,
  let '(h', dead') := deliver h v idx subs dead in
  dead' = dead ++ dead_from (is_live h) idx subs /\ cores h' = cores h /\ fresh h' = fresh h /\
  forall q, queues h' !! q = (fun cell => (fst cell, snd cell ++ if bool_decide (q ∈ subs) then [v] else [])) <$> queues h !! q.
Proof.
  induction subs as [|q subs IH]; intros Hnd h idx dead; cbn [deliver dead_from].
  { rewrite app_nil_r. split_and!; [done..|]. intros q. destruct (queues h !! q) as [[n l]|]; cbn; [|done]. by rewrite app_nil_r. }
  apply NoDup_cons in Hnd as [Hq Hnd]. destruct (upgrade h q) as [l|] eqn:Hup.
  - specialize (IH Hnd (push_back h q v) (S idx) dead). destruct (deliver (push_back h q v) v (S idx) subs dead) as [h' dead'].
    destruct IH as (-> & Hc & Hf & Hl). split_and!; [|done..|].
    + unfold is_live at 2. rewrite Hup. cbn. f_equal. clear -Hq. revert idx.
      assert (forall idx, dead_from (is_live (push_back h q v)) idx subs = dead_from (is_live h) idx subs) as He; [|intros; apply He].
      clear. induction subs as [|x subs IH]; intros idx; cbn; [done|]. by rewrite push_back_live, IH.
    + intros q'. rewrite Hl. unfold push_back, with_queues. cbn. destruct (decide (q = q')) as [->|Hne].
      * rewrite lookup_alter_eq, bool_decide_eq_false_2, bool_decide_eq_true_2 by (done || left).
        destruct (queues h !! q') as [[n l']|]; cbn; [|done]. by rewrite app_nil_r.
      * by rewrite lookup_alter_ne, in_cons_ne.
  - specialize (IH Hnd h (S idx) (dead ++ [idx])). destruct (deliver h v (S idx) subs (dead ++ [idx])) as [h' dead'].
    destruct IH as (-> & Hc & Hf & Hl). split_and!; [|done..|].
    + unfold is_live at 2. rewrite Hup. cbn. by rewrite <- app_assoc.
    + intros q'. rewrite Hl. unfold upgrade in Hup. destruct (decide (q = q')) as [->|Hne].
      * by destruct (queues h !! q').
      * by rewrite in_cons_ne.
Qed.

(** * The refinement *)

(** The channels [s] are what the store [h] holds; every subscriber list
    holds each live subscriber of its broadcaster once, next to dead ones. *)
Record implements (h : Heap) (s : Channels) : Prop := {
  im_queues : queues h = (fun i => (handles i, pending i)) <$> inboxes s;
  im_fresh : fresh h = next_id s;
  im_senders c : c ∈ senders s <-> is_Some (cores h !! c);
  im_inbox q i : inboxes s !! q = Some i -> 1 <= handles i /\ q < next_id s;
  im_core c : c ∈ senders s -> c < next_id s;
  im_owner q i c : inboxes s !! q = Some i -> of_core i = Some c -> c ∈ senders s;
  im_nodup c subs : cores h !! c = Some subs -> NoDup subs /\ Forall (fun q => q < next_id s) subs;
  im_subs c subs q i : cores h !! c = Some subs -> inboxes s !! q = Some i -> q ∈ subs <-> of_core i = Some c;
  im_listed c subs : cores h !! c = Some subs -> listed s !! c = Some (list_to_set subs);
}.
Lemma implements_new : implements heap_new channels_new.
Proof. split; cbn; try done. intros c. unfold senders. cbn. rewrite lookup_empty. split; [set_solver|by intros [? ?]]. Qed.
Lemma with_inboxes_same s : with_inboxes s (inboxes s) = s.
Proof. by destruct s. Qed.
Section Step.
Context (h : Heap) (s : Channels) (Him : implements h s).

Lemma im_upgrade q : upgrade h q = pending <$> inboxes s !! q.
Proof. unfold upgrade. rewrite (im_queues _ _ Him), lookup_fmap. by destruct (inboxes s !! q). Qed.
Lemma im_lookup q : queues h !! q = (fun i => (handles i, pending i)) <$> inboxes s !! q.
Proof. by rewrite (im_queues _ _ Him), lookup_fmap. Qed.
(** A change of the inboxes that keeps their owners. *)
Lemma implements_update h' inb :
  cores h' = cores h -> fresh h' = fresh h -> queues h' = (fun i => (handles i, pending i)) <$> inb ->
  (forall q i, inb !! q = Some i -> 1 <= handles i /\ exists i0, inboxes s !! q = Some i0 /\ of_core i = of_core i0) ->
  implements h' (with_inboxes s inb).
Proof.
  destruct Him as [Hq Hf Hs Hi Hc Ho Hn Hsub Hlist]. intros Hc' Hf' Hq' Hinb. split; cbn; rewrite ?Hc', ?Hf'; try done.
  - intros q i Hqi. apply Hinb in Hqi as (H1 & i0 & Hqi & _). apply Hi in Hqi. lia.
  - intros q i c Hqi Hic. apply Hinb in Hqi as (H1 & i0 & Hqi & He). eapply Ho; [done|congruence].
  - intros c subs q i Hcs Hqi. apply Hinb in Hqi as (H1 & i0 & Hqi & ->). by eapply Hsub.
Qed.
(** A new queue, for the broadcaster [c] or a pair. *)
Lemma implements_pair : implements (snd (alloc_queue h)) (new_inbox s None).
Proof.
  destruct Him as [Hq Hf Hs Hi Hc Ho Hn Hsub Hlist]. split; cbn; try done.
  - by rewrite Hq, Hf, fmap_insert.
  - by rewrite Hf.
  - intros q i [[<- <-]|[Hne Hqi]]%lookup_insert_Some; [cbn; lia|]. apply Hi in Hqi. lia.
  - intros c Hcs%Hc. lia.
  - intros q i c [[<- <-]|[Hne Hqi]]%lookup_insert_Some Hic; [done|]. by eapply Ho.
  - intros c subs Hcs. destruct (Hn _ _ Hcs) as [H1 H2]. split; [done|]. eapply Forall_impl; [done|]. cbn. lia.
  - intros c subs q i Hcs [[<- <-]|[Hne Hqi]]%lookup_insert_Some; [|by eapply Hsub]. cbn. split; [|done].
    destruct (Hn _ _ Hcs) as [_ H2]. intros Hin. rewrite Forall_forall in H2. apply H2 in Hin. lia.
Qed.
Lemma implements_subscribe c : c ∈ senders s ->
  fst (subscribe h c) = next_id s /\ implements (snd (subscribe h c)) (new_inbox s (Some c)).
Proof.
  intros Hin. pose proof implements_pair as Him'. destruct Him as [Hq Hf Hs Hi Hc Ho Hn Hsub Hlist]. split; [by cbn; rewrite Hf|].
  destruct Him' as [Hq' Hf' Hs' Hi' Hc' Ho' Hn' Hsub' _]. cbn in Hq', Hf', Hs', Hi', Hc', Ho', Hn', Hsub'.
  assert (senders (new_inbox s (Some c)) = senders s) as Hsend by (unfold senders; cbn; apply dom_alter_L).
  destruct (proj1 (Hs c) Hin) as [subs0 Hc0]. split; rewrite ?Hsend; cbn; try done.
  - by rewrite Hq, Hf, fmap_insert.
  - intros c'. rewrite Hs. destruct (decide (c = c')) as [->|Hne]; [rewrite lookup_insert_eq|by rewrite lookup_insert_ne]. by rewrite Hc0.
  - intros q i [[<- <-]|[Hne Hqi]]%lookup_insert_Some; [cbn; lia|]. apply Hi in Hqi. lia.
  - intros q i c' [[<- <-]|[Hne Hqi]]%lookup_insert_Some Hic; [cbn in Hic; congruence|]. by eapply Ho.
  - unfold subs_of. cbn. rewrite Hc0. cbn. intros c' subs [[<- <-]|[Hne Hcs]]%lookup_insert_Some; [|by eapply Hn'].
    destruct (Hn _ _ Hc0) as [H1 H2]. split.
    + apply NoDup_app. split_and!; [done| |apply NoDup_singleton]. intros q Hq1 ->%list_elem_of_singleton.
      rewrite Forall_forall in H2. apply H2 in Hq1. lia.
    + apply Forall_app. split; [eapply Forall_impl; [done|]; cbn; lia|]. apply Forall_singleton. lia.
  - unfold subs_of. cbn. rewrite Hc0. cbn. intros c' subs q i [[<- <-]|[Hne Hcs]]%lookup_insert_Some [[<- <-]|[Hne' Hqi]]%lookup_insert_Some; cbn.
    + rewrite elem_of_app, list_elem_of_singleton, Hf. tauto.
    + rewrite elem_of_app, list_elem_of_singleton. rewrite <- (Hsub _ _ _ _ Hc0 Hqi). rewrite Hf. naive_solver.
    + split; [|naive_solver]. destruct (Hn _ _ Hcs) as [_ H2]. rewrite Forall_forall in H2. intros Hlt%H2. lia.
    + by eapply Hsub.
  - unfold subs_of. cbn. rewrite Hc0. cbn. intros c' subs [[<- <-]|[Hne Hcs]]%lookup_insert_Some.
    + rewrite lookup_alter_eq, (Hlist _ _ Hc0). cbn. f_equal. rewrite list_to_set_app_L, Hf. set_solver.
    + rewrite lookup_alter_ne by done. by apply Hlist.
Qed.
Lemma implements_send c v : c ∈ senders s -> implements (event_send h c v) (spec_publish s c v).
Proof.
  intros Hin. destruct (proj1 (im_senders _ _ Him c) Hin) as [subs Hc0]. destruct (im_nodup _ _ Him _ _ Hc0) as [Hnd Hlt].
  unfold event_send, subs_of. rewrite Hc0. cbn [default from_option id]. pose proof (deliver_spec v subs Hnd h 0 []) as Hd.
  destruct (deliver h v 0 subs []) as [h' dead]. destruct Hd as (-> & Hcores & Hfresh & Hqs). cbn [app].
  assert (fold_left swap_remove (rev (dead_from (is_live h) 0 subs)) subs ≡ₚ List.filter (is_live h) subs) as Hperm.
  { pose proof (swap_remove_dead (is_live h) subs []) as H. by rewrite !app_nil_r in H. }
  assert (queues h' = (fun i => (handles i, pending i)) <$> (publish c v <$> inboxes s)) as Hq'.
  { apply map_eq. intros q. rewrite Hqs, im_lookup, !lookup_fmap. destruct (inboxes s !! q) as [i|] eqn:Hqi; cbn; [|done].
    pose proof (im_subs _ _ Him _ _ _ _ Hc0 Hqi) as Hiff. unfold publish. f_equal.
    destruct (decide (of_core i = Some c)) as [Hic|Hic].
    - rewrite !bool_decide_eq_true_2 by tauto. done.
    - rewrite !bool_decide_eq_false_2 by tauto. by rewrite app_nil_r. }
  set (subs' := fold_left swap_remove (rev (dead_from (is_live h) 0 subs)) subs) in *. clearbody subs'.
  assert (implements h' (with_inboxes s (publish c v <$> inboxes s))) as Him'.
  { apply implements_update; [done..|]. intros q i. rewrite lookup_fmap. destruct (inboxes s !! q) as [i0|] eqn:Hqi; [|done]. cbn.
    intros [= <-]. apply (im_inbox _ _ Him) in Hqi as [H1 _]. split; [|exists i0; split; [done|]]; unfold publish; by case_bool_decide. }
  assert (senders (spec_publish s c v) = senders s) as Hsend by (unfold senders; cbn; apply dom_alter_L).
  destruct Him' as [_ Hf Hs Hi Hc Ho Hn Hsub Hlist]. split; rewrite ?Hsend; cbn; try done.
  - intros c'. rewrite Hs. cbn. destruct (decide (c = c')) as [->|Hne]; [rewrite lookup_insert_eq|by rewrite lookup_insert_ne].
    rewrite Hcores, Hc0. done.
  - intros c' subs'' [[<- <-]|[Hne Hcs]]%lookup_insert_Some; [|by eapply Hn]. rewrite Hperm. split.
    + by apply NoDup_ListNoDup, List.NoDup_filter, NoDup_ListNoDup.
    + rewrite Forall_forall in Hlt |- *. intros q. rewrite list_elem_of_In, List.filter_In. intros [H1 _]. by apply Hlt, list_elem_of_In.
  - intros c' subs'' q i [[<- <-]|[Hne Hcs]]%lookup_insert_Some Hqi; [|by eapply Hsub]. rewrite Hperm.
    rewrite <- (Hsub c subs q i) by (by rewrite ?Hcores). rewrite !list_elem_of_In, List.filter_In. unfold is_live. rewrite im_upgrade.
    rewrite lookup_fmap in Hqi. destruct (inboxes s !! q); [|done]. cbn. tauto.
  - intros c' subs'' [[<- <-]|[Hne Hcs]]%lookup_insert_Some.
    + rewrite lookup_alter_eq, (im_listed _ _ Him _ _ Hc0). cbn. f_equal. apply set_eq. intros q.
      rewrite elem_of_intersection, !elem_of_list_to_set, elem_of_dom, Hperm, !list_elem_of_In, List.filter_In.
      unfold is_live. rewrite im_upgrade. destruct (inboxes s !! q); cbn; split; intros [? H']; (split; [done|]); try done; by destruct H'.
    + rewrite lookup_alter_ne by done. cbn in Hlist. by apply Hlist.
Qed.
End Step.

Lemma implements_change h s q f g : implements h s ->
  (forall i, f (handles i, pending i) = (handles (g i), pending (g i))) ->
  (forall i, 1 <= handles i -> inboxes s !! q = Some i -> 1 <= handles (g i)) -> (forall i, inboxes s !! q = Some i -> of_core (g i) = of_core i) ->
  implements (with_queues h (alter f q (queues h))) (with_inboxes s (alter g q (inboxes s))).
Proof.
  intros Him Hfg Hh Hc. apply (implements_update h); [done..| |].
  - cbn. apply map_eq. intros q'. rewrite (im_queues _ _ Him), lookup_fmap.
    destruct (decide (q = q')) as [->|Hne]; [rewrite !lookup_alter_eq|rewrite !lookup_alter_ne by done]; rewrite lookup_fmap;
      destruct (inboxes s !! q'); cbn; [by rewrite Hfg|done..].
  - intros q' i' Hi'. apply lookup_alter_Some in Hi' as [(-> & i & Hi & ->)|[Hne Hi]]; pose proof (im_inbox _ _ Him _ _ Hi) as [H1 _].
    + split; [by apply Hh|]. exists i. split; [done|by apply Hc].
    + split; [done|by exists i'].
Qed.
Lemma insert_known {A} (m : gmap nat A) q x y : m !! q = Some y -> <[q := x]> m = alter (fun _ => x) q m.
Proof.
  intros Hq. apply map_eq. intros q'. destruct (decide (q = q')) as [->|Hne].
  - by rewrite lookup_insert_eq, lookup_alter_eq, Hq.
  - by rewrite lookup_insert_ne, lookup_alter_ne.
Qed.
(** An inbox whose handles or contents change. *)
Lemma implements_set h s q i n l : implements h s -> inboxes s !! q = Some i -> 1 <= n ->
  implements (with_queues h (<[q := (n, l)]> (queues h))) (with_inboxes s (<[q := mk_inbox (of_core i) n l]> (inboxes s))).
Proof.
  intros Him Hq Hn. assert (queues h !! q = Some (handles i, pending i)) as Hcell by by rewrite (im_lookup h s Him), Hq.
  rewrite (insert_known _ q _ _ Hcell), (insert_known _ q _ _ Hq).
  apply implements_change; [done..|]. intros i' Hi'. cbn. congruence.
Qed.
Lemma implements_delete h s q : implements h s -> implements (with_queues h (delete q (queues h))) (with_inboxes s (delete q (inboxes s))).
Proof.
  intros Him. apply (implements_update h); [done..| |].
  - cbn. by rewrite (im_queues _ _ Him), fmap_delete.
  - intros q' i [Hne Hi]%lookup_delete_Some. pose proof (im_inbox _ _ Him _ _ Hi) as [H1 _]. split; [done|by exists i].
Qed.
Lemma implements_core h s : implements h s ->
  implements (mk_heap (queues h) (<[fresh h := []]> (cores h)) (S (fresh h))) (mk_channels (inboxes s) (<[next_id s := ∅]> (listed s)) (S (next_id s))).
Proof.
  intros [Hq Hf Hs Hi Hc Ho Hn Hsub Hlist].
  assert (senders (mk_channels (inboxes s) (<[next_id s := ∅]> (listed s)) (S (next_id s))) = {[next_id s]} ∪ senders s) as Hsend
    by (unfold senders; cbn; apply dom_insert_L).
  split; rewrite ?Hsend; cbn; try done.
  - by rewrite Hf.
  - intros c. rewrite elem_of_union, elem_of_singleton, Hs, <- Hf. destruct (decide (fresh h = c)) as [->|Hne].
    + rewrite lookup_insert_eq. naive_solver.
    + rewrite lookup_insert_ne by done. naive_solver.
  - intros q i Hqi%Hi. lia.
  - intros c. rewrite elem_of_union, elem_of_singleton. intros [->|Hcs%Hc]; lia.
  - intros q i c Hqi Hic. apply elem_of_union. right. by eapply Ho.
  - intros c subs [[<- <-]|[Hne Hcs]]%lookup_insert_Some; [by split; constructor|]. destruct (Hn _ _ Hcs) as [H1 H2].
    split; [done|]. eapply Forall_impl; [done|]. cbn. lia.
  - intros c subs q i [[<- <-]|[Hne Hcs]]%lookup_insert_Some Hqi; [|by eapply Hsub]. split; [by intros ?%not_elem_of_nil|].
    intros Hic. pose proof (Hc _ (Ho _ _ _ Hqi Hic)). lia.
  - intros c subs [[<- <-]|[Hne Hcs]]%lookup_insert_Some; [by rewrite Hf, lookup_insert_eq|].
    rewrite lookup_insert_ne by congruence. by apply Hlist.
Qed.

Lemma step_refines h s op : implements h s ->
  fst (step h op) = fst (spec_step s op) /\ implements (snd (step h op)) (snd (spec_step s op)).
Proof.
  intros Him. assert (forall c, is_some (cores h !! c) = bool_decide (c ∈ senders s)) as Hknown.
  { intros c. pose proof (im_senders _ _ Him c) as Hc. destruct (cores h !! c); cbn; symmetry; [by apply bool_decide_eq_true_2, Hc|].
    apply bool_decide_eq_false_2. intros [? ?]%Hc. done. }
  destruct op as [|q v|q|q| |c|c v|q|q|q|q|q|c]; cbn [step spec_step]; rewrite ?Hknown; unfold local_send, sender_len, sender_is_empty; rewrite ?(im_upgrade _ _ Him).
  - split; [cbn; f_equal; apply (im_fresh _ _ Him)|by apply implements_pair].
  - destruct (inboxes s !! q) as [i|] eqn:Hq; cbn; (split; [done|]).
    + by apply implements_change.
    + by rewrite alter_id', (with_inboxes_same s).
  - split; [|done]. by destruct (inboxes s !! q).
  - split; [|done]. destruct (inboxes s !! q) as [i|]; [|done]. cbn. by destruct (pending i).
  - pose proof (implements_core h s Him) as Hc. destruct (implements_subscribe _ _ Hc (next_id s)) as [H1 H2]; [unfold senders; cbn; rewrite dom_insert_L; set_solver|].
    unfold local_broadcaster. rewrite (im_fresh _ _ Him) in *. destruct (subscribe _ (next_id s)) as [q h']. cbn in *. by subst.
  - destruct (decide (c ∈ senders s)) as [Hc|Hc]; [rewrite bool_decide_eq_true_2 by done|by rewrite bool_decide_eq_false_2].
    destruct (implements_subscribe h s Him c Hc) as [H1 H2]. destruct (subscribe h c) as [q h']. cbn in *. by subst.
  - destruct (decide (c ∈ senders s)) as [Hc|Hc]; [rewrite bool_decide_eq_true_2 by done|by rewrite bool_decide_eq_false_2].
    split; [done|by apply implements_send].
  - destruct (inboxes s !! q) as [i|] eqn:Hq; cbn; (split; [done|]).
    + apply implements_change; [done..|cbn; lia|done].
    + by rewrite alter_id', (with_inboxes_same s).
  - unfold drop_rc. rewrite (im_lookup _ _ Him). destruct (inboxes s !! q) as [[c [|[|n]] l]|] eqn:Hq; cbn; (split; [done|]).
    + by apply implements_delete.
    + by apply implements_delete.
    + apply (implements_set h s q (mk_inbox c (S (S n)) l)); [done..|lia].
    + by rewrite delete_id, (with_inboxes_same s).
  - unfold try_pop. rewrite (im_lookup _ _ Him). destruct (inboxes s !! q) as [[c n [|v l]]|] eqn:Hq; cbn; (split; [done|]); [done| |done].
    apply (implements_set h s q (mk_inbox c n (v :: l))); [done..|]. by apply (im_inbox _ _ Him) in Hq as [? _].
  - unfold receiver_len. rewrite (im_upgrade _ _ Him). by destruct (inboxes s !! q).
  - unfold receiver_is_empty. rewrite (im_upgrade _ _ Him). destruct (inboxes s !! q) as [i|]; [|done]. cbn. by destruct (pending i).
  - pose proof (im_senders _ _ Him c) as Hc. unfold senders in *. rewrite elem_of_dom in Hc.
    destruct (cores h !! c) as [subs|] eqn:Hcs.
    + rewrite (im_listed _ _ Him _ _ Hcs). rewrite bool_decide_eq_true_2 by (apply elem_of_dom; rewrite (im_listed _ _ Him _ _ Hcs); by eexists).
      destruct (im_nodup _ _ Him _ _ Hcs) as [Hnd _]. unfold subscriber_count, subs_of. rewrite Hcs. cbn.
      by rewrite size_list_to_set.
    + rewrite bool_decide_eq_false_2 by (rewrite elem_of_dom; intros [? ?]%Hc; done).
      destruct (listed s !! c); [|done]. by destruct (proj1 Hc (ltac:(by eexists))).
Qed.

End ChannelLocal.
Arguments Heap : clear implicits.
Arguments Op : clear implicits.
Arguments Answer : clear implicits.
Arguments Channels : clear implicits.
Arguments Inbox : clear implicits.

(** * Properties *)

Lemma run_refines {T} (ops : list (Op T)) : forall h s, implements h s ->
  fst (run h ops) = fst (spec_run s ops) /\ implements (snd (run h ops)) (snd (spec_run s ops)).
Proof.
  induction ops as [|op ops IH]; intros h s Him; [done|]. cbn [run spec_run].
  destruct (step_refines h s op Him) as [Ha Hs]. destruct (step h op) as [a h'], (spec_step s op) as [a' s']. cbn in Ha, Hs. subst a'.
  destruct (IH h' s' Hs) as [Hr Hs']. destruct (run h' ops), (spec_run s' ops). cbn in Hr, Hs' |- *. by subst.
Qed.

(** C32: the shared queues are channels.  Whatever calls a program makes, in
    whatever order, on pairs, broadcasters, subscribers and their clones (all
    the public methods: send, pop, the lengths and emptiness of both ends,
    subscribe, clone, drop and the count of subscribers), it gets the answers
    of plain channels, where a receiver is a first-in first-out list that gets
    what is sent from its subscription on, each value once, until its last
    handle is dropped, and a broadcaster counts the receivers that subscribed
    less those that were gone at its last broadcast.  The order in which the
    subscriber list holds the queues and their removal by swapping are not to
    be seen; a dropped subscriber is, in the count, until the next
    broadcast. *)
Theorem channels_refine {T} (ops : list (Op T)) : fst (run heap_new ops) = fst (spec_run channels_new ops).
Proof. apply run_refines, implements_new. Qed.

(** The list a broadcast leaves holds the live subscribers alone. *)
Lemma send_cleans {T} (ops : list (Op T)) c v subs : cores (snd (run heap_new ops)) !! c = Some subs ->
  Forall (fun q => is_live (event_send (snd (run heap_new ops)) c v) q = true) (subs_of (event_send (snd (run heap_new ops)) c v) c).
Proof.
  intros Hc. destruct (run_refines ops _ _ implements_new) as [_ Him]. set (h := snd (run heap_new ops)) in *.
  destruct (im_nodup _ _ Him _ _ Hc) as [Hnd _].
  assert (subs_of h c = subs) as Hs by (unfold subs_of; by rewrite Hc). unfold event_send. rewrite Hs.
  pose proof (deliver_spec v subs Hnd h 0 []) as Hd. destruct (deliver h v 0 subs []) as [h' dead]. destruct Hd as (-> & _ & _ & Hq).
  unfold subs_of, with_subs. cbn. rewrite lookup_insert_eq. cbn.
  pose proof (swap_remove_dead (is_live h) subs []) as Hp. rewrite !app_nil_r in Hp. rewrite Hp.
  apply Forall_forall. intros q Hin. apply list_elem_of_In, List.filter_In in Hin as [_ Hin]. unfold is_live, upgrade in *. cbn.
  rewrite Hq. by destruct (queues h !! q).
Qed.
(** Between broadcasts the count of subscribers, of the live ones by its
    comment, counts the dropped ones. *)
Definition count_after_drop : list (Op nat) := [OpBroadcaster; OpDrop 1].
Lemma subscriber_count_lags :
  subscriber_count (snd (run heap_new count_after_drop)) 0 = 1 /\ queues (snd (run heap_new count_after_drop)) = ∅ /\
  subscriber_count (event_send (snd (run heap_new count_after_drop)) 0 7) 0 = 0.
Proof. by vm_compute. Qed.
(** A program with two subscribers, one dropped between two broadcasts. *)
Example broadcast_example :
  fst (run heap_new [OpBroadcaster; OpEventSend 0 5; OpSubscribe 0; OpSubscribe 0; OpDrop 1; OpCount 0; OpEventSend 0 6; OpCount 0;
                    OpPop 2; OpPop 3; OpPop 3; OpEmpty 3]) =
    [Handles 0 1; Nothing; Handle 2; Handle 3; Nothing; Length (Some 3); Nothing; Length (Some 2);
     Popped (Some 6); Popped (Some 6); Popped None; Empty (Some true)].
Proof. reflexivity. Qed.
