(* ===== verification/Ffi.v ===== *)
(** The C interface of the reactor, [evorule-reactor/src/ffi.rs]: the handle,
    the commands sent through it, and the small reader of the instructions it
    is given. *)

From S2P Require Import Prelude ObjectMap Value Fact.

(** A call returns, or panics. *)
Inductive Outcome (A : Type) : Type :=
| Returns (a : A)
| Panics.
Arguments Returns {A} _.
Arguments Panics {A}.
Definition outcome_bind {A B} (r : Outcome A) (f : A -> Outcome B) : Outcome B :=
  match r with Returns a => f a | Panics => Panics end.
#[local] Notation "'do' x <- r ; k" := (outcome_bind r (fun x => k)) (at level 10, x name, r at level 100, k at level 200).

(** * The reader *)

(** [str::parse::<i64>]. *)
Definition digit_of (c : ascii) : option Z :=
  if is_digit c then Some (Z.of_nat (nat_of_ascii c) - 48)%Z else None.
Fixpoint read_digits (acc : Z) (s : string) : option Z :=
  match s with
  | EmptyString => Some acc
  | String c s => let! d := digit_of c in read_digits (acc * 10 + d)%Z s
  end.
Definition in_i64 (z : Z) : option Z := if is_i64 z then Some z else None.
Definition parse_i64 (s : string) : option Z :=
  match s with
  | EmptyString => None
  | String c rest =>
      if Ascii.eqb c "-" then
        if str_is_empty rest then None else let! z := read_digits 0 rest in in_i64 (- z)%Z
      else if Ascii.eqb c "+" then
        if str_is_empty rest then None else let! z := read_digits 0 rest in in_i64 z
      else let! z := read_digits 0 s in in_i64 z
  end.

(** [&s[1..s.len() - 1]], for a text that is not empty: the range must not be
    reversed.  Here the ends are ASCII, so the range is on characters. *)
Definition slice_inner (s : string) : Outcome string :=
  if (String.length s <? 2)%nat then Panics else Returns (String.substring 1 (String.length s - 2) s).
Definition enclosed (l r : ascii) (s : string) : bool :=
  (match s with String c _ => Ascii.eqb c l | EmptyString => false end && ends_with_char r s)%bool.
(** [find(':')], as the two parts. *)
Fixpoint split_at (c : ascii) (s : string) : option (string * string) :=
  match s with
  | EmptyString => None
  | String a rest =>
      if Ascii.eqb a c then Some (EmptyString, rest)
      else match split_at c rest with Some (l, r) => Some (String a l, r) | None => None end
  end.
Definition quote : ascii := "034".

(** The loop over the parts of an object, over [parse_simple_json]. *)
Fixpoint parse_fields (parse : string -> Outcome (option JsonValue)) (parts : list string) (obj : ObjectMap JsonValue) :
    Outcome (option JsonValue) :=
  match parts with
  | [] => Returns (Some (JObject obj))
  | part :: rest =>
      let part := trim part in
      if str_is_empty part then parse_fields parse rest obj
      else
        match split_at ":" part with
        | None => Returns None
        | Some (l, r) =>
            let key_part := trim l in
            let val_part := trim r in
            if negb (enclosed quote quote key_part) then Returns None
            else
              do key <- slice_inner key_part;
              do v <- parse val_part;
              match v with
              | None => Returns None
              | Some v => parse_fields parse rest (obj_insert obj key v)
              end
        end
  end.
Definition parse_json_object (parse : string -> Outcome (option JsonValue)) (s : string) : Outcome (option JsonValue) :=
  let s := trim s in
  if negb (enclosed "{" "}" s) then Returns None
  else
    do inner <- slice_inner s;
    let inner := trim inner in
    if str_is_empty inner then Returns (Some (JObject map_new))
    else parse_fields parse (split_char "," inner) map_new.
(** [parse_simple_json]; the calls for the values are on shorter texts. *)
Fixpoint parse_json (fuel : nat) (s : string) : Outcome (option JsonValue) :=
  match fuel with
  | O => Returns None
  | S fuel =>
      let s := trim s in
      if enclosed "{" "}" s then parse_json_object (parse_json fuel) s
      else if enclosed quote quote s then do inner <- slice_inner s; Returns (Some (JString inner))
      else if enclosed "[" "]" s then Returns (Some (JArray []))
      else if String.eqb s "true" then Returns (Some (JBool true))
      else if String.eqb s "false" then Returns (Some (JBool false))
      else if String.eqb s "null" then Returns (Some JNull)
      else Returns (JInteger <$> parse_i64 s)
  end.
Definition parse_simple_json (s : string) : Outcome (option JsonValue) := parse_json (S (String.length s)) s.

(** * The handle *)

Inductive evorule_error_code : Type :=
| EVORULE_OK | EVORULE_ERROR_OOM | EVORULE_ERROR_INVALID_ARG | EVORULE_ERROR_RUNTIME | EVORULE_ERROR_NOT_INITIALIZED.
Definition error_code (e : evorule_error_code) : Z :=
  match e with
  | EVORULE_OK => 0 | EVORULE_ERROR_OOM => 1 | EVORULE_ERROR_INVALID_ARG => 2
  | EVORULE_ERROR_RUNTIME => 3 | EVORULE_ERROR_NOT_INITIALIZED => 4
  end.
(** [struct ReactorFfiHandle]: what its command channel was given and whether
    the reactor still receives; the length in its snapshot; its identifiers. *)
Record ReactorFfiHandle : Type := mk_ffi_handle {
  fh_sent : list Fact;
  fh_open : bool;
  fh_queue_len : Z;
  fh_ids : FactIdGenerator;
}.
Definition new_handle : ReactorFfiHandle := mk_ffi_handle [] true 0 generator_new.
(** [evorule_reactor_new]: is there a runtime to be built, and is the call
    made from inside one ([tokio::spawn] panics outside)?  Null is [None]. *)
Definition evorule_reactor_new (runtime_built inside_runtime : bool) : Outcome (option ReactorFfiHandle) :=
  if negb runtime_built then Returns None
  else if negb inside_runtime then Panics
  else Returns (Some new_handle).
(** A C string: null, bytes that are not UTF-8, or a text. *)
Inductive CText : Type :=
| NullText
| BadText
| Text (s : string).
Definition send_fact (h : ReactorFfiHandle) (f : Fact) (ids : FactIdGenerator) : evorule_error_code * ReactorFfiHandle :=
  if fh_open h then (EVORULE_OK, mk_ffi_handle (fh_sent h ++ [f]) true (fh_queue_len h) ids)
  else (EVORULE_ERROR_RUNTIME, mk_ffi_handle (fh_sent h) false (fh_queue_len h) ids).
Definition evorule_reactor_send_command (reactor : option ReactorFfiHandle) (instruction_json : CText) :
    Outcome (evorule_error_code * option ReactorFfiHandle) :=
  match reactor, instruction_json with
  | None, _ | _, NullText | _, BadText => Returns (EVORULE_ERROR_INVALID_ARG, reactor)
  | Some h, Text s =>
      do instruction <- parse_simple_json s;
      match instruction with
      | None => Returns (EVORULE_ERROR_INVALID_ARG, reactor)
      | Some instruction =>
          let '(id, ids) := next_id (fh_ids h) in
          let '(code, h) := send_fact h (Command id instruction) ids in
          Returns (code, Some h)
      end
  end.
(** The snapshot's lock is not poisoned: nothing else takes it. *)
Definition c_int (z : Z) : Z := ((z + 2 ^ 31) mod 2 ^ 32 - 2 ^ 31)%Z.
Definition evorule_reactor_current_queue_size (reactor : option ReactorFfiHandle) : Z :=
  match reactor with None => (-1)%Z | Some h => c_int (fh_queue_len h) end.
(** [CString::new]. *)
Definition c_string (s : string) : option string := if str_all (fun c => negb (Ascii.eqb c "000")) s then Some s else None.
Definition evorule_result_get_output (result : option string) : option string := let! output := result in c_string output.

(** * The fuel of the reader is enough *)

Lemma slice_inner_length s t : slice_inner s = Returns t -> String.length t < String.length s.
Proof.
  unfold slice_inner. destruct (Nat.ltb_spec (String.length s) 2); [done|]. intros [= <-].
  enough (forall n m s, String.length (String.substring n m s) <= m) as He by (specialize (He 1 (String.length s - 2) s); lia).
  clear. intros n m s. revert n m. induction s as [|c s IH]; intros [|n] [|m]; cbn; try lia.
  - specialize (IH 0 m). lia.
  - apply (IH n 0).
  - apply (IH n (S m)).
Qed.
Lemma split_at_length c s l r : split_at c s = Some (l, r) -> String.length l < String.length s /\ String.length r < String.length s.
Proof.
  revert l r. induction s as [|a s IH]; intros l r; [done|]. cbn. destruct (Ascii.eqb a c); [intros [= <- <-]; cbn; lia|].
  destruct (split_at c s) as [[l' r']|]; [|done]. intros [= <- <-]. destruct (IH l' r' eq_refl). cbn. lia.
Qed.
Lemma split_char_length c s part : In part (split_char c s) -> String.length part <= String.length s.
Proof.
  revert part. induction s as [|a s IH]; intros part; cbn; [by intros [<-|[]]|]. destruct (Ascii.eqb a c).
  - intros [<-|Hin%IH]; cbn; lia.
  - destruct (split_char c s) as [|p ps]; cbn in *.
    + intros [<-|[]]. cbn. lia.
    + intros [<-|Hin]; cbn; [specialize (IH p (or_introl eq_refl)); lia|]. specialize (IH part (or_intror Hin)). lia.
Qed.
Lemma parse_fields_ext p1 p2 parts obj n :
  (forall s, String.length s < n -> p1 s = p2 s) -> Forall (fun part => String.length part <= n) parts ->
  parse_fields p1 parts obj = parse_fields p2 parts obj.
Proof.
  intros Hp Hparts. revert obj. induction Hparts as [|part parts Hpart _ IH]; intros obj; [done|]. cbn [parse_fields].
  destruct (str_is_empty (trim part)); [apply IH|]. destruct (split_at ":" (trim part)) as [[l r]|] eqn:Hs; [|done].
  destruct (negb _); [done|]. destruct (slice_inner (trim l)) as [key|]; [|done]. cbn [outcome_bind].
  apply split_at_length in Hs as [_ Hr]. pose proof (trim_length part). pose proof (trim_length r).
  rewrite (Hp (trim r)) by lia. destruct (p2 (trim r)) as [[v|]|]; [|done..]. apply IH.
Qed.
Lemma parse_object_ext p1 p2 s n : String.length s <= S n -> (forall s, String.length s < n -> p1 s = p2 s) ->
  parse_json_object p1 s = parse_json_object p2 s.
Proof.
  intros Hn Hp. unfold parse_json_object. destruct (negb _); [done|]. destruct (slice_inner (trim s)) as [inner|] eqn:Hi; [|done].
  cbn [outcome_bind]. destruct (str_is_empty (trim inner)); [done|]. apply (parse_fields_ext p1 p2 _ _ n Hp).
  apply List.Forall_forall. intros part Hin%split_char_length. apply slice_inner_length in Hi.
  pose proof (trim_length s). pose proof (trim_length inner). lia.
Qed.
Lemma parse_json_fuel f1 f2 s : String.length s < f1 -> String.length s < f2 -> parse_json f1 s = parse_json f2 s.
Proof.
  revert f2 s. induction f1 as [|f1 IH]; intros [|f2] s H1 H2; [lia..|]. cbn [parse_json].
  destruct (enclosed "{" "}" (trim s)); [|done]. pose proof (trim_length s).
  apply (parse_object_ext _ _ _ (String.length s)); [lia|]. intros s' Hs'. apply IH; lia.
Qed.
(** The equation of the code. *)
Lemma parse_simple_json_eq s : parse_simple_json s =
  let s := trim s in
  if enclosed "{" "}" s then parse_json_object parse_simple_json s
  else if enclosed quote quote s then do inner <- slice_inner s; Returns (Some (JString inner))
  else if enclosed "[" "]" s then Returns (Some (JArray []))
  else if String.eqb s "true" then Returns (Some (JBool true))
  else if String.eqb s "false" then Returns (Some (JBool false))
  else if String.eqb s "null" then Returns (Some JNull)
  else Returns (JInteger <$> parse_i64 s).
Proof.
  unfold parse_simple_json at 1. cbn [parse_json]. cbv zeta. destruct (enclosed "{" "}" (trim s)); [|done].
  pose proof (trim_length s). apply (parse_object_ext _ _ _ (String.length s)); [lia|]. intros s' Hs'.
  apply parse_json_fuel; lia.
Qed.

(** * Reading what the kernel prints *)

Definition value_char (c : ascii) : bool :=
  ((32 <=? nat_of_ascii c)%nat && (nat_of_ascii c <? 127)%nat && negb (Ascii.eqb c quote) && negb (Ascii.eqb c "\") && negb (Ascii.eqb c ","))%bool.
Definition key_char (c : ascii) : bool := (value_char c && negb (Ascii.eqb c ":"))%bool.
Definition flat_scalar (v : JsonValue) : bool :=
  match v with
  | JNull | JBool _ | JInteger _ | JArray [] => true
  | JString s => str_all value_char s
  | _ => false
  end.
Definition flat_field (kv : string * JsonValue) : bool := (str_all key_char (fst kv) && flat_scalar (snd kv))%bool.
Definition flat (v : JsonValue) : bool := match v with JObject m => forallb flat_field m | _ => flat_scalar v end.

Definition no_char (c : ascii) (s : string) : bool := str_all (fun a => negb (Ascii.eqb a c)) s.
Definition solid_last (s : string) : bool := solid_head (str_rev s).
Lemma solid_last_app a b : solid_last b = true -> solid_last (a +:+ b) = true.
Proof. unfold solid_last. rewrite str_rev_app. by destruct (str_rev b). Qed.
Lemma split_char_none c s : no_char c s = true -> split_char c s = [s].
Proof.
  induction s as [|a s IH]; [done|]. cbn. intros [Ha Hs]%andb_true_iff. apply negb_true_iff in Ha. rewrite Ha. by rewrite (IH Hs).
Qed.
Lemma split_char_first c s rest : no_char c s = true -> split_char c (s +:+ String c rest) = s :: split_char c rest.
Proof.
  induction s as [|a s IH]; cbn; [by rewrite Ascii.eqb_refl|]. intros [Ha Hs]%andb_true_iff. apply negb_true_iff in Ha. rewrite Ha.
  by rewrite (IH Hs).
Qed.
Lemma split_at_first c s rest : no_char c s = true -> split_at c (s +:+ String c rest) = Some (s, rest).
Proof.
  induction s as [|a s IH]; cbn; [by rewrite Ascii.eqb_refl|]. intros [Ha Hs]%andb_true_iff. apply negb_true_iff in Ha. rewrite Ha.
  by rewrite (IH Hs).
Qed.
Lemma slice_enclosed l r t : slice_inner (String l (t +:+ String r "")) = Returns t.
Proof.
  unfold slice_inner. cbn [String.length]. rewrite str_app_length. cbn [String.length].
  destruct (Nat.ltb_spec (S (String.length t + 1)) 2); [lia|]. replace (S (String.length t + 1) - 2) with (String.length t) by lia.
  cbn [String.substring]. f_equal. clear. induction t as [|c t IH]; cbn; [done|]. by rewrite IH.
Qed.
Lemma ends_with_char_snoc c t : ends_with_char c (t +:+ String c "") = true.
Proof.
  induction t as [|a t IH]; cbn; [by rewrite Ascii.eqb_refl|]. rewrite IH. by destruct (t +:+ String c "") eqn:E; [destruct t|].
Qed.
Lemma value_char_escape c : value_char c = true -> escape_char c = String c "".
Proof. destruct c as [[] [] [] [] [] [] [] []]; done. Qed.
Lemma escape_body_plain s : str_all value_char s = true -> escape_body s = s.
Proof. induction s as [|c s IH]; [done|]. cbn. intros [Hc Hs]%andb_true_iff. by rewrite value_char_escape, IH. Qed.
Lemma value_char_no_comma c : value_char c = true -> negb (Ascii.eqb c ",") = true.
Proof. unfold value_char. rewrite !andb_true_iff. tauto. Qed.
Lemma key_char_value c : key_char c = true -> value_char c = true.
Proof. unfold key_char. rewrite andb_true_iff. tauto. Qed.
Lemma key_char_no_colon c : key_char c = true -> negb (Ascii.eqb c ":") = true.
Proof. unfold key_char. rewrite andb_true_iff. tauto. Qed.

Lemma digit_of_char x : (x < 10)%N -> digit_of (pretty_N_char x) = Some (Z.of_N x).
Proof. intros Hx. destruct x as [|p]; [done|]. do 4 (destruct p; try done; try lia). Qed.
Lemma read_digits_go x s : read_digits 0 (pretty_N_go x s) = read_digits (Z.of_N x) s.
Proof.
  revert s. induction (N.lt_wf_0 x) as [x _ IH]; intros s. destruct (decide (0 < x)%N) as [Hp|Hp].
  - rewrite pretty_N_go_step by done. rewrite IH by (by apply N.div_lt). cbn [read_digits].
    rewrite digit_of_char by (by apply N.mod_lt).
    replace (Z.of_N (x `div` 10) * 10 + Z.of_N (x `mod` 10))%Z with (Z.of_N x) by (pose proof (N.div_mod x 10); lia). done.
  - replace x with 0%N by lia. by rewrite pretty_N_go_0.
Qed.
Lemma read_digits_pretty (n : N) : read_digits 0 (pretty n) = Some (Z.of_N n).
Proof. unfold pretty, pretty_N. case_decide as Hd; [by subst|]. by rewrite read_digits_go. Qed.
Lemma digit_head s : str_is_empty s = false -> str_all is_digit s = true ->
  exists c s', s = String c s' /\ is_digit c = true.
Proof. destruct s as [|c s]; [done|]. cbn. intros _ [Hc _]%andb_true_iff. by exists c, s. Qed.
Lemma pretty_digit_head (n : N) : exists c s', pretty n = String c s' /\ is_digit c = true.
Proof. apply digit_head; auto using pretty_N_nonempty, pretty_N_digits. Qed.
Lemma parse_i64_pretty z : is_i64 z = true -> parse_i64 (pretty z) = Some z.
Proof.
  intros Hz. destruct z as [|p|p].
  - done.
  - change (pretty (Zpos p)) with (pretty (Npos p)). destruct (pretty_digit_head (Npos p)) as (c & s' & He & Hc).
    pose proof (read_digits_pretty (Npos p)) as Hr. rewrite He in *. unfold parse_i64.
    destruct (Ascii.eqb_spec c "-") as [->|_]; [done|]. destruct (Ascii.eqb_spec c "+") as [->|_]; [done|].
    rewrite Hr. unfold in_i64. cbn [Z.of_N]. by rewrite Hz.
  - change (pretty (Zneg p)) with (String "-" (pretty (Npos p))). cbn [parse_i64]. change (Ascii.eqb "-" "-") with true. cbv iota.
    rewrite pretty_N_nonempty, read_digits_pretty. change (in_i64 (Zneg p) = Some (Zneg p)). unfold in_i64. by rewrite Hz.
Qed.
(** The ends of a number. *)
Lemma digit_solid c : is_digit c = true -> solid c = true.
Proof. destruct c as [[] [] [] [] [] [] [] []]; done. Qed.
Lemma pretty_N_solid (n : N) : solid_head (pretty n) = true /\ solid_last (pretty n) = true.
Proof.
  split; [destruct (pretty_digit_head n) as (c & s' & -> & Hc); by apply digit_solid|].
  assert (str_all is_digit (str_rev (pretty n)) = true) as Hr by by rewrite str_all_rev, pretty_N_digits.
  unfold solid_last. destruct (str_rev (pretty n)) as [|c s'] eqn:E.
  - apply (f_equal String.length) in E. rewrite str_rev_length in E. pose proof (pretty_N_nonempty n). by destruct (pretty n).
  - cbn in Hr |- *. apply andb_true_iff in Hr as [Hr _]. by apply digit_solid.
Qed.
Lemma pretty_Z_facts (z : Z) : no_char "," (pretty z) = true /\ solid_head (pretty z) = true /\ solid_last (pretty z) = true /\
  exists c s', pretty z = String c s' /\ (is_digit c || Ascii.eqb c "-")%bool = true.
Proof.
  assert (forall n : N, no_char "," (pretty n) = true) as Hn.
  { intros n. eapply str_all_impl; [|apply (pretty_N_digits n)]. intros c. by destruct c as [[] [] [] [] [] [] [] []]. }
  assert (forall n : N, exists c s', pretty n = String c s' /\ (is_digit c || Ascii.eqb c "-")%bool = true) as Hd.
  { intros n. destruct (pretty_digit_head n) as (c & s' & -> & Hc). exists c, s'. by rewrite Hc. }
  destruct z as [|p|p].
  - split_and!; try done. by eexists _, _.
  - change (pretty (Zpos p)) with (pretty (Npos p)). destruct (pretty_N_solid (Npos p)). by split_and!.
  - change (pretty (Zneg p)) with (String "-" (pretty (Npos p))). destruct (pretty_N_solid (Npos p)) as [H1 H2]. split_and!.
    + cbn. apply Hn.
    + done.
    + by apply (solid_last_app "-").
    + by eexists _, _.
Qed.

(** The text of a scalar, and of a field. *)
Record reads_back (v : JsonValue) : Prop := {
  rb_comma : no_char "," (json_display v) = true;
  rb_head : solid_head (json_display v) = true;
  rb_last : solid_last (json_display v) = true;
  rb_read : parse_simple_json (json_display v) = Returns (Some v);
}.
Lemma quoted_facts s : str_all value_char s = true ->
  escape_json_string s = String quote (s +:+ String quote "") /\ no_char "," (escape_json_string s) = true /\
  solid_head (escape_json_string s) = true /\ solid_last (escape_json_string s) = true.
Proof.
  intros Hs. unfold escape_json_string. rewrite escape_body_plain by done. split_and!; [done| |done|].
  - cbn. unfold no_char. rewrite str_all_app. cbn. rewrite andb_true_r. by apply (str_all_impl value_char); [apply value_char_no_comma|].
  - change (String "034" (s +:+ String "034" "")) with (String quote s +:+ String quote ""). by apply solid_last_app.
Qed.
Lemma scalar_reads_back v : wf_json v = true -> flat_scalar v = true -> reads_back v.
Proof.
  destruct v as [|b|i|u|s|l|m]; intros Hwf Hf; try done.
  - destruct b; split; vm_compute; reflexivity.
  - destruct (pretty_Z_facts i) as (H1 & H2 & H3 & c & s' & Hc & Hd). split; [done..|].
    cbn [json_display]. rewrite parse_simple_json_eq. cbv zeta. rewrite trim_solid by done.
    rewrite parse_i64_pretty by done. rewrite Hc. clear -Hd.
    unfold enclosed. destruct c as [[] [] [] [] [] [] [] []]; done.
  - destruct (quoted_facts s Hf) as (He & H1 & H2 & H3). split; [done..|]. cbn [json_display]. rewrite parse_simple_json_eq. cbv zeta.
    rewrite trim_solid by done. rewrite He. unfold enclosed. change (Ascii.eqb quote "{") with false. cbn [andb].
    change (Ascii.eqb quote quote) with true. rewrite (ends_with_char_snoc quote (String quote s) : ends_with_char quote (String quote (s +:+ String quote "")) = true).
    cbn [andb]. by rewrite slice_enclosed.
  - destruct l; [|done]. split; vm_compute; reflexivity.
Qed.

(** Fields as [Display] prints them, after the brace. *)
Definition field_text (kv : string * JsonValue) : string := escape_json_string (fst kv) +:+ ": " +:+ json_display (snd kv).
Fixpoint more_fields (m : list (string * JsonValue)) : string :=
  match m with [] => "" | kv :: m => ", " +:+ field_text kv +:+ more_fields m end.
Lemma display_object kv m : json_display (JObject (kv :: m)) = String "{" ((field_text kv +:+ more_fields m) +:+ String "}" "").
Proof.
  destruct kv as [k x]. cbn [json_display]. change (0 <? 0)%nat with false. cbv iota.
  match goal with |- context [?go 1%nat m] => set (g := go) end.
  assert (forall i m, g (S i) m = more_fields m) as Hg.
  { intros i n. revert i. induction n as [|[k' x'] n IH]; intros i; [done|]. cbn [more_fields]. rewrite <- (IH (S i)). unfold field_text. cbn.
    by rewrite <- !str_app_assoc. }
  rewrite Hg. unfold field_text. cbn. rewrite <- !str_app_assoc. cbn. by rewrite <- !str_app_assoc.
Qed.

Lemma field_facts kv : flat_field kv = true -> wf_json (snd kv) = true ->
  no_char "," (field_text kv) = true /\ solid_head (field_text kv) = true /\ solid_last (field_text kv) = true /\
  split_at ":" (field_text kv) = Some (escape_json_string (fst kv), " " +:+ json_display (snd kv)) /\
  enclosed quote quote (escape_json_string (fst kv)) = true /\ slice_inner (escape_json_string (fst kv)) = Returns (fst kv).
Proof.
  destruct kv as [k x]. unfold flat_field. cbn [fst snd]. intros [Hk Hx]%andb_true_iff Hwf.
  pose proof (str_all_impl _ _ _ key_char_value Hk) as Hv. destruct (quoted_facts k Hv) as (He & H1 & H2 & H3).
  destruct (scalar_reads_back x Hwf Hx) as [R1 R2 R3 R4]. unfold field_text. cbn [fst snd]. split_and!.
  - unfold no_char. rewrite !str_all_app. cbn. apply andb_true_iff. by split.
  - by rewrite He.
  - by apply solid_last_app, (solid_last_app ": ").
  - change (": " +:+ json_display x) with (String ":" (" " +:+ json_display x)). apply split_at_first. rewrite He. cbn. unfold no_char.
    rewrite str_all_app. cbn. rewrite andb_true_r. by apply (str_all_impl key_char); [apply key_char_no_colon|].
  - rewrite He. unfold enclosed. change (Ascii.eqb quote quote) with true. apply (ends_with_char_snoc quote (String quote k)).
  - rewrite He. apply slice_enclosed.
Qed.
Lemma parse_fields_flat m : Forall (fun kv => flat_field kv = true /\ wf_json (snd kv) = true) m -> forall parts obj,
  Forall2 (fun kv part => trim part = field_text kv) m parts ->
  parse_fields parse_simple_json parts obj = Returns (Some (JObject (fold_left (fun acc '(k, v) => snd (map_insert acc k v)) m obj))).
Proof.
  induction 1 as [|kv m [Hf Hw] _ IH]; intros parts obj Hp; [by inversion Hp|]. apply Forall2_cons_inv_l in Hp as (part & parts' & Ht & Hp & ->).
  cbn [parse_fields]. rewrite Ht. destruct (field_facts kv Hf Hw) as (_ & Hh & _ & -> & Henc & Hs).
  destruct (field_text kv) as [|c s] eqn:E; [done|]. cbn [str_is_empty]. clear E.
  unfold flat_field in Hf. apply andb_true_iff in Hf as [Hk Hx]. destruct (quoted_facts _ (str_all_impl _ _ _ key_char_value Hk)) as (_ & _ & Q2 & Q3).
  destruct (scalar_reads_back _ Hw Hx) as [_ R2 R3 R4].
  rewrite (trim_solid (escape_json_string _)) by done. rewrite Henc, Hs. cbn [negb outcome_bind].
  change (" " +:+ json_display (snd kv)) with (String " " (json_display (snd kv))). rewrite trim_space, trim_solid, R4 by done.
  cbn [outcome_bind fold_left]. destruct kv as [k x]. by apply IH.
Qed.
Lemma split_fields kv m : Forall (fun kv => flat_field kv = true /\ wf_json (snd kv) = true) (kv :: m) ->
  Forall2 (fun kv part => trim part = field_text kv) (kv :: m) (split_char "," (field_text kv +:+ more_fields m)).
Proof.
  intros H. assert (forall kv m text, Forall (fun kv => flat_field kv = true /\ wf_json (snd kv) = true) (kv :: m) ->
    trim text = field_text kv -> no_char "," text = true ->
    Forall2 (fun kv part => trim part = field_text kv) (kv :: m) (split_char "," (text +:+ more_fields m))) as He.
  { clear. intros kv m. revert kv. induction m as [|kv' m IH]; intros kv text H Ht Hn.
    - rewrite str_app_nil_r, split_char_none by done. by repeat constructor.
    - apply Forall_cons in H as [_ H]. cbn [more_fields].
      change (", " +:+ field_text kv' +:+ more_fields m) with (String "," ((String " " (field_text kv')) +:+ more_fields m)).
      rewrite split_char_first by done. constructor; [done|]. pose proof (proj1 (Forall_cons _ _ _) H) as [[Hf Hw] _].
      destruct (field_facts kv' Hf Hw) as (H1 & H2 & H3 & _). apply IH; [done| |done]. by rewrite trim_space, trim_solid. }
  pose proof (proj1 (Forall_cons _ _ _) H) as [[Hf Hw] _]. destruct (field_facts kv Hf Hw) as (H1 & H2 & H3 & _).
  apply He; [done|by apply trim_solid|done].
Qed.

Lemma solid_head_app a b : solid_head a = true -> solid_head (a +:+ b) = true.
Proof. by destruct a. Qed.
Lemma trim_fields kv m : Forall (fun kv => flat_field kv = true /\ wf_json (snd kv) = true) (kv :: m) ->
  solid_head (field_text kv +:+ more_fields m) = true /\ solid_last (field_text kv +:+ more_fields m) = true.
Proof.
  revert kv. induction m as [|kv' m IH]; intros kv H; pose proof (proj1 (Forall_cons _ _ _) H) as [[Hf Hw] H'];
    destruct (field_facts kv Hf Hw) as (_ & H2 & H3 & _); (split; [by apply solid_head_app|]).
  - by rewrite str_app_nil_r.
  - cbn [more_fields]. apply solid_last_app, (solid_last_app ", "), (IH kv' H').
Qed.

(** What the kernel prints of a flat value, the C interface reads back.
    The text of a well-formed scalar, or of an object of scalars whose names
    and strings are plain, is read as exactly that value, without a panic. *)
Lemma flat_instruction_roundtrip v : wf_json v = true -> flat v = true ->
  parse_simple_json (json_display v) = Returns (Some v).
Proof.
  intros Hwf Hf. destruct v as [|b|i|u|s|l|m]; try by apply scalar_reads_back.
  apply wf_JObject in Hwf as [Hs Hw]. destruct m as [|kv m]; [by vm_compute|]. cbn [flat] in Hf.
  assert (Forall (fun kv => flat_field kv = true /\ wf_json (snd kv) = true) (kv :: m)) as Hall.
  { rewrite forallb_forall in Hf. apply List.Forall_forall. intros x Hx. split; [by apply Hf|]. rewrite List.Forall_forall in Hw. by apply Hw. }
  rewrite display_object, parse_simple_json_eq. cbv zeta. rewrite trim_braces.
  assert (enclosed "{" "}" (String "{" ((field_text kv +:+ more_fields m) +:+ "}")) = true) as Henc.
  { unfold enclosed. change (Ascii.eqb "{" "{") with true. apply (ends_with_char_snoc "}" (String "{" _)). }
  rewrite Henc. unfold parse_json_object. rewrite trim_braces, Henc, slice_enclosed. cbn [negb outcome_bind].
  destruct (trim_fields kv m Hall) as [Hh Hl]. rewrite trim_solid by done.
  destruct (field_text kv +:+ more_fields m) as [|c s] eqn:E; [done|]. cbn [str_is_empty]. rewrite <- E.
  rewrite (parse_fields_flat _ Hall _ _ (split_fields _ _ Hall)). do 3 f_equal. exact (map_from_id _ Hs).
Qed.
Lemma flat_instruction_roundtrip_witness :
  parse_simple_json (json_display (object_from_pairs [("type", JString "add item"); ("n", JInteger (-5))])) =
    Returns (Some (object_from_pairs [("type", JString "add item"); ("n", JInteger (-5))])).
Proof. apply flat_instruction_roundtrip; vm_compute; reflexivity. Defined.

(** * Commands *)

(** The calls of a program on one handle; a panic ends the process. *)
Fixpoint send_commands (h : option ReactorFfiHandle) (texts : list CText) : Outcome (list evorule_error_code * option ReactorFfiHandle) :=
  match texts with
  | [] => Returns ([], h)
  | t :: texts =>
      do r <- evorule_reactor_send_command h t;
      do rest <- send_commands (snd r) texts;
      Returns (fst r :: fst rest, snd rest)
  end.
(** The instructions of the texts that are read. *)
Fixpoint instructions_of (texts : list CText) : list JsonValue :=
  match texts with
  | [] => []
  | Text s :: texts => match parse_simple_json s with Returns (Some v) => v :: instructions_of texts | _ => instructions_of texts end
  | _ :: texts => instructions_of texts
  end.
Definition code_of (t : CText) : evorule_error_code :=
  match t with
  | Text s => match parse_simple_json s with Returns (Some _) => EVORULE_OK | _ => EVORULE_ERROR_INVALID_ARG end
  | _ => EVORULE_ERROR_INVALID_ARG
  end.

Lemma send_commands_spec texts : forall h codes h',
  fh_open h = true -> send_commands (Some h) texts = Returns (codes, h') ->
  codes = map code_of texts /\ exists k, k = length (instructions_of texts) /\
  h' = Some (mk_ffi_handle (fh_sent h ++ zip_with Command (ids_from (gen_next (fh_ids h)) k) (instructions_of texts)) true
    (fh_queue_len h) {| gen_next := id_after (gen_next (fh_ids h)) k |}).
Proof.
  induction texts as [|t texts IH]; intros h codes h' Ho; cbn [send_commands].
  { intros [= <- <-]. split; [done|]. exists 0. split; [done|]. cbn. rewrite app_nil_r. destruct h as [? ? ? []]. cbn in *. by subst. }
  assert (forall c h0,
    (do r0 <- Returns (c, Some h0); do rest <- send_commands (snd r0) texts; Returns (fst r0 :: fst rest, snd rest)) = Returns (codes, h') ->
    exists codes', codes = c :: codes' /\ send_commands (Some h0) texts = Returns (codes', h')) as Hnext.
  { intros c h0. cbn [outcome_bind snd fst]. destruct (send_commands (Some h0) texts) as [[codes' h'']|]; [|done]. cbn.
    intros [= <- <-]. by exists codes'. }
  assert (code_of t = EVORULE_ERROR_INVALID_ARG -> instructions_of (t :: texts) = instructions_of texts ->
    (do r0 <- Returns (EVORULE_ERROR_INVALID_ARG, Some h); do rest <- send_commands (snd r0) texts; Returns (fst r0 :: fst rest, snd rest))
      = Returns (codes, h') -> codes = map code_of (t :: texts) /\ exists k, k = length (instructions_of (t :: texts)) /\
    h' = Some (mk_ffi_handle (fh_sent h ++ zip_with Command (ids_from (gen_next (fh_ids h)) k) (instructions_of (t :: texts))) true
      (fh_queue_len h) {| gen_next := id_after (gen_next (fh_ids h)) k |})) as Hbad.
  { intros Hc Hi H. apply Hnext in H as (codes' & -> & H). destruct (IH _ _ _ Ho H) as [-> Hk]. rewrite Hi. cbn [map]. by rewrite Hc. }
  destruct t as [| |s]; cbn [evorule_reactor_send_command]; [by apply Hbad..|].
  destruct (parse_simple_json s) as [[v|]|] eqn:Hp; cbn [outcome_bind]; [|apply Hbad; cbn [code_of instructions_of]; by rewrite Hp|done].
  unfold next_id, send_fact. rewrite Ho. intros (codes' & -> & H)%Hnext. apply IH in H as [-> (k & Hk & ->)]; [|done].
  cbn [map code_of instructions_of]. rewrite Hp. split; [done|]. exists (S k). cbn [length fh_sent fh_ids fh_queue_len gen_next].
  split; [by rewrite Hk|]. by rewrite <- app_assoc.
Qed.
(** Commands keep their order and get fresh identifiers.  Whatever texts a
    C program sends through a new handle, as long as no call panics: each call
    answers whether its text was read, and the reactor is given exactly the
    commands that were read, in order, with the identifiers 1, 2, 3 and on;
    a refused text uses no identifier. *)
Lemma ffi_commands_exact texts codes reactor :
  send_commands (Some new_handle) texts = Returns (codes, reactor) ->
  codes = map code_of texts /\
  exists h, reactor = Some h /\ fh_sent h = zip_with Command (ids_from 1%Z (length (instructions_of texts))) (instructions_of texts).
Proof.
  intros H. apply send_commands_spec in H as [-> (k & -> & ->)]; [|done]. split; [done|]. eexists. split; [done|]. done.
Qed.
Lemma ffi_commands_exact_witness :
  send_commands (Some new_handle) [Text "7"; BadText; Text "[1]"] =
    Returns ([EVORULE_OK; EVORULE_ERROR_INVALID_ARG; EVORULE_OK],
      Some (mk_ffi_handle [Command 1%Z (JInteger 7); Command 2%Z (JArray [])] true 0 {| gen_next := 3 |})) /\
  exists h, Some (mk_ffi_handle [Command 1%Z (JInteger 7); Command 2%Z (JArray [])] true 0 {| gen_next := 3 |}) = Some h /\
    fh_sent h = [Command 1%Z (JInteger 7); Command 2%Z (JArray [])].
Proof.
  assert (send_commands (Some new_handle) [Text "7"; BadText; Text "[1]"] =
    Returns ([EVORULE_OK; EVORULE_ERROR_INVALID_ARG; EVORULE_OK],
      Some (mk_ffi_handle [Command 1%Z (JInteger 7); Command 2%Z (JArray [])] true 0 {| gen_next := 3 |}))) as H by (vm_compute; reflexivity).
  split; [exact H|]. apply ffi_commands_exact in H as [_ (h & Hh & Hs)]. exists h. split; [exact Hh|]. rewrite Hs. vm_compute. reflexivity.
Defined.

(** * What the reader gets wrong *)

(** A text that is one quotation mark, alone or as a name, panics. *)
Lemma lone_quote_panics :
  parse_simple_json (String quote "") = Panics /\
  evorule_reactor_send_command (Some new_handle) (Text ("{" +:+ String quote "" +:+ ": 1}")) = Panics.
Proof. by vm_compute. Qed.
(** An array is read as the empty array, whatever it holds. *)
Lemma array_read_empty : parse_simple_json "[1, 2" = Returns None /\ parse_simple_json "[1, 2]" = Returns (Some (JArray [])).
Proof. by vm_compute. Qed.
(** A comma in a string, or a second field in a nested object, makes the text
    unreadable; an escape is kept as it is written. *)
Lemma comma_unreadable :
  parse_simple_json (json_display (object_from_pairs [("a", JString "x,y")])) = Returns None /\
  parse_simple_json (json_display (object_from_pairs [("params", object_from_pairs [("a", JInteger 1); ("b", JInteger 2)])])) = Returns None /\
  parse_simple_json (json_display (JString (String quote ""))) = Returns (Some (JString (String "\" (String quote "")))).
Proof. by vm_compute. Qed.
(** The size of the queue is the one of the snapshot the handle was made with. *)
Lemma queue_size_constant texts codes reactor : send_commands (Some new_handle) texts = Returns (codes, reactor) ->
  evorule_reactor_current_queue_size reactor = 0%Z.
Proof. intros H. by apply send_commands_spec in H as [_ (k & _ & ->)]. Qed.
(** Outside a runtime the constructor does not return. *)
Lemma constructor_panics : evorule_reactor_new true false = Panics.
Proof. done. Qed.
