(* ===== verification/BuildGate.v ===== *)
(** The compile-time gate of the kernel crate, [evorule-tcb/build.rs]: the
    scan of the crate's sources for forbidden literals, with the exemptions of
    comments, attributes and test modules, and the scan for application-level
    names.  Texts are their UTF-8 bytes; what the scanners look for is ASCII. *)

From S2P Require Import Prelude Fact Serde Hash Wal WalFile Cli.

(** * The patterns *)

Definition FORBIDDEN : list (string * string) :=
  [("T8-HashMap", "HashMap"); ("T8-HashSet", "HashSet"); ("T9-unwrap-call", ".unwrap("); ("T9-expect-call", ".expect(");
   ("T11-debug_assert", "debug_assert!"); ("F11-panic", "panic!("); ("F11-assert", "assert!("); ("F11-unreachable", "unreachable!(");
   ("F11-todo", "todo!("); ("T10-unsafe-keyword", "unsafe"); ("T12-f32", "f32"); ("T12-f64", "f64"); ("T12-Float", "Float");
   ("T5-SystemTime", "SystemTime"); ("T5-Instant", "Instant"); ("T6-rand", "rand::"); ("T6-random", "random()");
   ("T4-std-fs", "std::fs::"); ("T4-std-net", "std::net::"); ("T4-std-io", "std::io::"); ("T4-File-open", "File::open");
   ("T4-std-process", "std::process::"); ("T14-std-thread", "std::thread"); ("T14-tokio", "tokio::"); ("T14-async", "async");
   ("T14-await", "await"); ("T14-spawn", "spawn(")].
Definition is_test_tolerant (label : string) : bool :=
  bool_decide (label ∈ ["T8-HashMap"; "T8-HashSet"; "T9-unwrap-call"; "T9-expect-call"; "F11-panic"; "F11-assert"; "F11-unreachable"; "F11-todo"]).

(** * The environment *)

(** [skip_requested]: only 1 and true are a request. *)
Definition skip_requested (env : string -> option string) (var : string) : bool :=
  match env var with
  | Some v => let t := str_lower (trim v) in (String.eqb t "1" || String.eqb t "true")%bool
  | None => false
  end.

(** * One line *)

(** [str::lines]. *)
Definition CR : ascii := "013".
Fixpoint str_lines (s : string) : list string :=
  match s with
  | EmptyString => []
  | String c s' =>
      if Ascii.eqb c newline then EmptyString :: str_lines s'
      else if (Ascii.eqb c CR && match s' with String d _ => Ascii.eqb d newline | _ => false end)%bool then str_lines s'
      else match str_lines s' with
           | [] => [String c EmptyString]
           | l :: rest => String c l :: rest
           end
  end.
(** [squeeze_ws]: without the white space. *)
Fixpoint squeeze_from (fuel : nat) (s : string) : string :=
  match fuel, s with
  | S fuel, String c s' =>
      match strip_any whitespace s with
      | Some rest => squeeze_from fuel rest
      | None => String c (squeeze_from fuel s')
      end
  | _, _ => EmptyString
  end.
Definition squeeze_ws (line : string) : string := squeeze_from (String.length line) line.

Definition head_is (c : ascii) (s : string) : bool := match s with String a _ => Ascii.eqb a c | EmptyString => false end.
Definition quote : ascii := "034".
(** The [#]s in front of a text, and what follows them. *)
Fixpoint count_hashes (s : string) : nat * string :=
  match s with
  | String c s' => if Ascii.eqb c "#" then let '(n, rest) := count_hashes s' in (S n, rest) else (0, s)
  | EmptyString => (0, s)
  end.
(** The start of a string literal: raw or not, its [#]s, the start itself and
    the text after it. *)
Definition string_start (s : string) : option (bool * nat * string * string) :=
  let hashed (pre s1 : string) :=
    let '(h, rest) := count_hashes s1 in
    match rest with
    | String c rest' => if Ascii.eqb c quote then Some (true, h, pre +:+ string_of_list_ascii (repeat "#"%char h) +:+ String quote "", rest') else None
    | EmptyString => None
    end in
  match s with
  | String c s1 =>
      if Ascii.eqb c quote then Some (false, 0, String c "", s1)
      else if (Ascii.eqb c "b" && head_is quote s1)%bool then
        match s1 with String d s2 => Some (false, 0, String c (String d ""), s2) | EmptyString => None end
      else if (Ascii.eqb c "r" && head_is quote s1)%bool then
        match s1 with String d s2 => Some (true, 0, String c (String d ""), s2) | EmptyString => None end
      else if (Ascii.eqb c "r" && head_is "#" s1)%bool then hashed "r" s1
      else
        match s1 with
        | String d s2 => if (Ascii.eqb c "b" && Ascii.eqb d "r" && head_is "#" s2)%bool then hashed "br" s2 else None
        | EmptyString => None
        end
  | EmptyString => None
  end.
(** The literal up to its end on the line, and the rest of the line. *)
Fixpoint string_end (fuel : nat) (raw : bool) (hashes : nat) (s : string) : option (string * string) :=
  match fuel with
  | O => None
  | S fuel =>
      match s with
      | EmptyString => None
      | String c s' =>
          if (negb raw && Ascii.eqb c "\")%bool then
            match s' with
            | EmptyString => None
            | String d s'' => let! '(lit, rest) := string_end fuel raw hashes s'' in Some (String c (String d lit), rest)
            end
          else if (Ascii.eqb c quote && (fst (count_hashes s') =? hashes)%nat)%bool then
            Some (String c (string_of_list_ascii (repeat "#"%char hashes)), snd (count_hashes s'))
          else let! '(lit, rest) := string_end fuel raw hashes s' in Some (String c lit, rest)
      end
  end.
Definition comment_start (s : string) : bool := String.prefix "/*" s.
(** The text after the end of the block comment we are inside of. *)
Fixpoint comment_end (fuel : nat) (depth : nat) (s : string) : option string :=
  match fuel with
  | O => None
  | S fuel =>
      match s with
      | String "/" (String "*" s') => comment_end fuel (S depth) s'
      | String "*" (String "/" s') => if (depth =? 1)%nat then Some s' else comment_end fuel (pred depth) s'
      | String _ s' => comment_end fuel depth s'
      | EmptyString => None
      end
  end.
(** The main loop; [None] is the return of the whole line. *)
Fixpoint strip_from (fuel : nat) (s : string) : option string :=
  match fuel with
  | O => None
  | S fuel =>
      match s with
      | EmptyString => Some EmptyString
      | String c s' =>
          match string_start s with
          | Some (raw, hashes, start, rest) =>
              let! '(lit, rest) := string_end (S (String.length rest)) raw hashes rest in
              let! out := strip_from fuel rest in Some (start +:+ lit +:+ out)
          | None =>
              if comment_start s then
                let! rest := comment_end (S (String.length s)) 1 (String.substring 2 (String.length s) s) in
                let! out := strip_from fuel rest in Some (String " " out)
              else let! out := strip_from fuel s' in Some (String c out)
          end
      end
  end.
Definition strip_inline_block_comments (line : string) : string := default line (strip_from (S (String.length line)) line).

Definition is_ascii_alphabetic (c : ascii) : bool :=
  let n := nat_of_ascii c in ((65 <=? n) && (n <=? 90) || (97 <=? n) && (n <=? 122))%nat%bool.
(** The search for a whole word, over the character before. *)
Fixpoint word_hit (before : option ascii) (needle hay : string) : bool :=
  let before_ok := match before with Some c => negb (is_ascii_alphabetic c) | None => true end in
  let after_ok := match strip_prefix needle hay with
                  | Some (String c _) => negb (is_ascii_alphabetic c)
                  | Some EmptyString => true
                  | None => false
                  end in
  ((before_ok && after_ok) || match hay with String c hay' => word_hit (Some c) needle hay' | EmptyString => false end)%bool.
Definition bare_word_hit (hay needle : string) : bool :=
  if (String.eqb needle "async" || String.eqb needle "await")%bool then word_hit None needle hay else contains needle hay.

(** [strip_leading_attr]: the text after the attribute at the head; [None] if
    it does not end on the line. *)
Fixpoint attr_end (depth : nat) (s : string) : option string :=
  match s with
  | EmptyString => None
  | String c s' =>
      if Ascii.eqb c "[" then attr_end (S depth) s'
      else if Ascii.eqb c "]" then if (depth =? 1)%nat then Some s' else attr_end (pred depth) s'
      else attr_end depth s'
  end.
Definition strip_leading_attr (line : string) : option string :=
  match line with
  | String "#" (String "!" (String "[" s)) | String "#" (String "[" s) => attr_end 1 s
  | _ => Some line
  end.

(** * Test modules *)

(** [find] of a pattern: the text before it, and from it on. *)
Fixpoint find_sub (pat s : string) : option (string * string) :=
  if String.prefix pat s then Some (EmptyString, s)
  else match s with
       | EmptyString => None
       | String c s' => let! '(before, rest) := find_sub pat s' in Some (String c before, rest)
       end.
(** [u8 as char].is_whitespace(): Latin-1. *)
Definition byte_is_whitespace (c : ascii) : bool :=
  let n := nat_of_ascii c in ((9 <=? n) && (n <=? 13) || (n =? 32) || (n =? 133) || (n =? 160))%nat%bool.
Fixpoint skip_while (f : ascii -> bool) (s : string) : string * string :=
  match s with
  | String c s' => if f c then let '(a, b) := skip_while f s' in (String c a, b) else (EmptyString, s)
  | EmptyString => (EmptyString, EmptyString)
  end.
Definition not_newline (c : ascii) : bool := negb (Ascii.eqb c newline).
(** To the end of a block comment, without nesting, or of the text. *)
Fixpoint skip_block (s : string) : string * string :=
  match s with
  | String "*" (String "/" s') => ("*/", s')
  | String c s' => let '(a, b) := skip_block s' in (String c a, b)
  | EmptyString => (EmptyString, EmptyString)
  end.
Fixpoint skip_attr (depth : nat) (s : string) : string * string :=
  match depth, s with
  | O, _ | _, EmptyString => (EmptyString, s)
  | S d, String c s' =>
      let '(a, b) := skip_attr (if Ascii.eqb c "[" then S depth else if Ascii.eqb c "]" then d else depth) s' in (String c a, b)
  end.
Definition is_ident_char (c : ascii) : bool := (is_ascii_alphanumeric c || Ascii.eqb c "_")%bool.
(** White space and line comments after [mod]; then a name? *)
Fixpoint names_module (fuel : nat) (s : string) : bool :=
  match fuel with
  | O => false
  | S fuel =>
      let s := snd (skip_while byte_is_whitespace s) in
      if String.prefix "//" s then names_module fuel (snd (skip_while not_newline s))
      else match s with String c _ => is_ident_char c | EmptyString => false end
  end.
(** [skip_to_mod_tests]: what is skipped, and the text from [mod] on. *)
Fixpoint skip_to_mod_tests (fuel : nat) (s : string) : option (string * string) :=
  match fuel with
  | O => None
  | S fuel =>
      let '(ws, s) := skip_while byte_is_whitespace s in
      let after (skipped : string * string) :=
        let! '(more, rest) := skip_to_mod_tests fuel (snd skipped) in Some (ws +:+ fst skipped +:+ more, rest) in
      match s with
      | EmptyString => None
      | String "/" (String "/" _) => after (skip_while not_newline s)
      | String "/" (String "*" s') => let '(a, b) := skip_block s' in after ("/*" +:+ a, b)
      | String "#" (String "[" s') => let '(a, b) := skip_attr 1 s' in after ("#[" +:+ a, b)
      | _ =>
          match strip_prefix "mod" s with
          | Some (String c s') =>
              if (byte_is_whitespace c && names_module (S (String.length s')) s')%bool then Some (ws, s) else None
          | _ => None
          end
      end
  end.

(** The lexical state of [find_inline_lbrace] and [match_brace]. *)
Inductive LexMode : Type :=
| InCode
| InLineComment
| InBlockComment
| InString
| InChar.
(** [char_lit_starts] at a quote, on what follows it. *)
Definition char_lit_starts (after : string) : bool :=
  match after with
  | String c rest => (Ascii.eqb c "\" || head_is "'" rest)%bool
  | EmptyString => false
  end.
(** [skip_lifetime]: the length of the name after the quote, with the quote. *)
Definition skip_lifetime (after : string) : nat := S (String.length (fst (skip_while is_ident_char after))).
(** One turn of both loops: the state and the bytes to move, or a byte of
    code. *)
Definition lex_turn (mode : LexMode) (s : string) : option (LexMode * nat) :=
  match mode, s with
  | _, EmptyString => None
  | InLineComment, String c _ => Some (if Ascii.eqb c newline then InCode else InLineComment, 1)
  | InBlockComment, String c s' => Some (if (Ascii.eqb c "*" && head_is "/" s')%bool then (InCode, 2) else (InBlockComment, 1))
  | InString, String c _ =>
      Some (if Ascii.eqb c "\" then (InString, 2) else if Ascii.eqb c quote then (InCode, 1) else (InString, 1))
  | InChar, String c _ =>
      Some (if Ascii.eqb c "\" then (InChar, 2) else if Ascii.eqb c "'" then (InCode, 1) else (InChar, 1))
  | InCode, String c s' =>
      if (Ascii.eqb c "/" && head_is "/" s')%bool then Some (InLineComment, 2)
      else if (Ascii.eqb c "/" && head_is "*" s')%bool then Some (InBlockComment, 2)
      else if Ascii.eqb c quote then Some (InString, 1)
      else if Ascii.eqb c "'" then Some (if char_lit_starts s' then (InChar, 1) else (InCode, skip_lifetime s'))
      else None
  end.
Definition take_str (n : nat) (s : string) : string := String.substring 0 n s.
Definition drop_str (n : nat) (s : string) : string := String.substring n (String.length s) s.
(** [find_inline_lbrace]: the text before the brace, and from it on. *)
Fixpoint find_inline_lbrace (fuel : nat) (mode : LexMode) (s : string) : option (string * string) :=
  match fuel, s with
  | S fuel, String c s' =>
      match lex_turn mode s with
      | Some (mode', n) => let! '(before, rest) := find_inline_lbrace fuel mode' (drop_str n s) in Some (take_str n s +:+ before, rest)
      | None =>
          if Ascii.eqb c "{" then Some (EmptyString, s)
          else if Ascii.eqb c ";" then None
          else let! '(before, rest) := find_inline_lbrace fuel mode s' in Some (String c before, rest)
      end
  | _, _ => None
  end.
(** [match_brace], from the opening brace on: the text up to the closing
    brace, and the text after it. *)
Fixpoint match_brace (fuel : nat) (mode : LexMode) (depth : Z) (s : string) : option (string * string) :=
  match fuel, s with
  | S fuel, String c s' =>
      match lex_turn mode s with
      | Some (mode', n) => let! '(inside, rest) := match_brace fuel mode' depth (drop_str n s) in Some (take_str n s +:+ inside, rest)
      | None =>
          let depth := if Ascii.eqb c "{" then (depth + 1)%Z else depth in
          if (Ascii.eqb c "}" && (depth - 1 =? 0)%Z)%bool then Some (EmptyString, s')
          else
            let depth := if Ascii.eqb c "}" then (depth - 1)%Z else depth in
            let! '(inside, rest) := match_brace fuel mode depth s' in Some (String c inside, rest)
      end
  | _, _ => None
  end.
(** [strip_test_mod]; a character that is copied is copied byte by byte: a
    search from inside it finds what the search from its start found. *)
Definition CFG_TEST : string := "#[cfg(test)]".
Definition next_test_mod (s : string) : option (string * string) :=
  let! '(before, attr) := find_sub CFG_TEST s in
  let! '(skipped, mod_) := skip_to_mod_tests (S (String.length attr)) attr in
  let! '(header, open) := find_inline_lbrace (S (String.length mod_)) InCode mod_ in
  let! '(_inside, rest) := match_brace (S (String.length open)) InCode 0 open in
  Some (before +:+ skipped +:+ header +:+ "{}", rest).
Fixpoint strip_tests (fuel : nat) (s : string) : string :=
  match fuel, s with
  | S fuel, String c s' =>
      match next_test_mod s with
      | Some (kept, rest) => kept +:+ strip_tests fuel rest
      | None => String c (strip_tests fuel s')
      end
  | _, _ => EmptyString
  end.
Definition strip_test_mod (src : string) : string := strip_tests (S (String.length src)) src.

(** * Float literals *)

(** [mask_string_contents]; a character that is masked becomes one space.
    The flag says that the strings end on the line. *)
Definition is_continuation (c : ascii) : bool := let n := nat_of_ascii c in ((128 <=? n) && (n <? 192))%nat.
Definition next_char (s : string) : string * string :=
  match s with
  | String c s' => let '(more, rest) := skip_while is_continuation s' in (String c more, rest)
  | EmptyString => (EmptyString, EmptyString)
  end.
Fixpoint mask_from (fuel : nat) (in_str : bool) (s : string) : string * bool :=
  match fuel, s with
  | S fuel, String c _ =>
      let '(ch, rest) := next_char s in
      if in_str then
        let '(in_str, rest) :=
          if Ascii.eqb c "\" then (true, snd (next_char rest)) else if Ascii.eqb c quote then (false, rest) else (true, rest) in
        let '(out, closed) := mask_from fuel in_str rest in (String " " out, closed)
      else if Ascii.eqb c quote then let '(out, closed) := mask_from fuel true rest in (String " " out, closed)
      else let '(out, closed) := mask_from fuel false rest in (ch +:+ out, closed)
  | _, _ => (EmptyString, negb in_str)
  end.
Definition mask_string_contents (line : string) : string * bool := mask_from (S (String.length line)) false line.

Definition is_float_digit (c : ascii) : bool := (is_digit c || Ascii.eqb c "_")%bool.
Fixpoint skip_digits (l : list ascii) : list ascii :=
  match l with c :: l' => if is_float_digit c then skip_digits l' else l | [] => [] end.
Definition digit_next (l : list ascii) : bool := match l with c :: _ => is_float_digit c | [] => false end.
Definition dot_next (l : list ascii) : bool := match l with c :: _ => Ascii.eqb c "." | [] => false end.
(** A dot between digits, neither group next to a further dot; [before] is the
    text before, its last character first. *)
Fixpoint float_from (before s : list ascii) : bool :=
  match s with
  | [] => false
  | c :: s' =>
      ((Ascii.eqb c "." && digit_next before && digit_next s'
        && negb (dot_next (skip_digits before)) && negb (dot_next (skip_digits s')))
       || float_from (c :: before) s')%bool
  end.
Definition float_lit_hit (text : string) : bool := float_from [] (list_ascii_of_string text).

(** The lines of a text with their numbers, from [lineno] on. *)
Fixpoint numbered {A} (lineno : nat) (lines : list A) : list (nat * A) :=
  match lines with [] => [] | l :: lines => (lineno, l) :: numbered (S lineno) lines end.
Definition float_line (line : string) : bool :=
  let trimmed := trim_start line in
  if String.prefix "//" trimmed then false
  else
    let '(masked, closed) := mask_string_contents (strip_inline_block_comments trimmed) in
    (closed && float_lit_hit match find_sub "//" masked with Some (code, _) => code | None => masked end)%bool.
Definition float_lit_violations (raw : string) : list (nat * string) :=
  map (fun l => (fst l, trim (snd l))) (List.filter (fun l => float_line (snd l)) (numbered 1 (str_lines (strip_test_mod raw)))).

(** * The scan of a file *)

Definition contains_unsafe (label : string) : bool := contains "unsafe" label.
(** What is matched of a line; [None] passes it. *)
Definition scan_src (label line : string) : option string :=
  let trimmed := trim_start line in
  if String.prefix "//" trimmed then None
  else if (contains_unsafe label && (String.prefix "#[" trimmed || String.prefix "#!" trimmed))%bool then
    match strip_leading_attr trimmed with
    | Some rest => if str_is_empty (trim rest) then None else Some rest
    | None => Some trimmed
    end
  else Some line.
Definition line_hit (label needle line : string) : bool :=
  match scan_src label line with
  | Some src =>
      let stripped := strip_inline_block_comments src in
      (bare_word_hit stripped needle || bare_word_hit (squeeze_ws stripped) needle)%bool
  | None => false
  end.
Definition violation_text (lineno : nat) (line : string) : string := "L" +:+ show_usize lineno +:+ ": " +:+ line.
(** The violations of one file: the path, the label and the place. *)
Definition Violation : Type := (string * string * string)%type.
Definition pattern_violations (path raw : string) (pattern : string * string) : list Violation :=
  let '(label, needle) := pattern in
  let content := if is_test_tolerant label then strip_test_mod raw else raw in
  map (fun l => (path, label, violation_text (fst l) (trim (snd l))))
    (List.filter (fun l => line_hit label needle (snd l)) (numbered 1 (str_lines content))).
Definition BOM : string := byte_string [239; 187; 191].
Definition scan_file (path raw : string) : list Violation :=
  let '(bom, raw) := match strip_prefix BOM raw with
                     | Some rest => ([(path, "BOM-detected", "L1: file starts with UTF-8 BOM (U+FEFF)")], rest)
                     | None => ([], raw)
                     end in
  bom ++ concat (map (pattern_violations path raw) FORBIDDEN)
  ++ map (fun h => (path, "T12-float-lit", violation_text (fst h) (snd h))) (float_lit_violations raw).

(** * The application-level names *)

Record StrategyPattern : Type := mk_strategy { sp_label : string; sp_patterns : list string; sp_description : string }.
Definition quoted (s : string) : string := String quote (s +:+ String quote "").
Definition STRATEGY_PATTERNS : list StrategyPattern :=
  [mk_strategy "P1-business-domain"
     (map quoted ["hospital"; "medical"; "patient"; "clinic"; "finance"; "bank_"; "investment"; "loan_"; "lawyer"; "court_case";
        "legal_document"; "insurance"; "policy_number"; "premium_amount"; "manufacturing"; "production_line"; "ecommerce"; "order_item";
        "payment_method"])
     "机制层包含特定业务领域关键字，策略层逻辑必须在应用层仓实现";
   mk_strategy "P2-control-flow-hardcode"
     ["execute_conditional"; "execute_while_loop"; "execute_sequence"; "handle_conditional"; "handle_while_loop"; "handle_sequence";
      "process_conditional"; "process_while_loop"; "process_sequence"]
     "控制流指令的执行逻辑应在 core_eval.json 中定义，不应在 Rust 代码中实现";
   mk_strategy "P3-business-operation"
     ["calculate_fee"; "calculate_tax"; "calculate_discount"; "validate_insurance"; "process_claim"; "approve_loan"; "check_credit";
      "verify_identity"; "assess_risk"; "generate_invoice"; "create_order"; "process_payment"; "update_inventory"; "ship_product";
      "receive_goods"; "hire_employee"; "pay_salary"; "calculate_bonus"]
     "机制层包含特定业务操作，操作逻辑应在应用层实现";
   mk_strategy "P4-business-rule-name"
     ["hipaa_rule"; "gdpr_rule"; "pci_rule"; "sox_rule"; "compliance_check"; "audit_rule"; "regulatory_check"; "kpl_rule"; "aml_rule"; "kyc_rule"]
     "机制层包含特定业务规则名，规则定义应在应用层实现"].
Definition strategy_violations (path content : string) : list Violation :=
  concat (map (fun d => map (fun p => (path, sp_label d,
      "发现策略层反模式 " +:+ quoted p +:+ ": " +:+ sp_description d +:+ " (模式: " +:+ sp_label d +:+ ")"))
    (List.filter (fun p => contains p content) (sp_patterns d))) STRATEGY_PATTERNS).

(** * The source tree and the gate *)

#[local] Set Warnings "-register-all".
(** A directory entry: a file and what reading it gives, or a directory whose
    entries are listed, unless it cannot be. *)
Inductive FsNode : Type :=
| FsFile (content : option string)
| FsDir (entries : option (list (string * FsNode))).
(** [collect_rs_files_for_strategy]; [fuel] bounds the depth of the tree. *)
Fixpoint collect_rs_files (fuel : nat) (dir : string) (node : FsNode) : list (string * option string) :=
  match fuel, node with
  | S fuel, FsDir (Some entries) =>
      concat (map (fun e =>
        let path := dir +:+ "/" +:+ fst e in
        match snd e with
        | FsDir _ => collect_rs_files fuel path (snd e)
        | FsFile content => if String.eqb (extension (mk_path "" (fst e))) "rs" then [(path, content)] else []
        end) (sort_by_name entries))
  | _, _ => []
  end.
(** [detect_strategy_patterns]; the violations it reports. *)
Definition detect_strategy_patterns (files : list (string * option string)) : list Violation :=
  concat (map (fun f => match snd f with Some content => strategy_violations (fst f) content | None => [] end) files).
Fixpoint scan_files (files : list (string * option string)) : option (list Violation) :=
  match files with
  | [] => Some []
  | (path, Some raw) :: rest => let! more := scan_files rest in Some (scan_file path raw ++ more)
  | (_, None) :: _ => None
  end.
Inductive ExitCode : Type := SUCCESS | FAILURE.
Definition run_gate (env : string -> option string) (src : option FsNode) (depth : nat) : ExitCode :=
  let files := match src with Some node => collect_rs_files depth "src" node | None => [] end in
  if negb (is_some (env "CARGO_MANIFEST_DIR")) then FAILURE
  else
    match detect_strategy_patterns files with
    | _ :: _ => FAILURE
    | [] =>
        if skip_requested env "EVORULE_SKIP_GATE" then SUCCESS
        else
          match src, files with
          | None, _ | _, [] => FAILURE
          | _, _ => match scan_files files with Some [] => SUCCESS | _ => FAILURE end
          end
    end.
