(* ===== verification/BuildGateSpec.v ===== *)
(** Theorems about the compile-time gate of the kernel crate: what a crate it
    passes is free of, against a reference reading of a line of Rust; and the
    texts that get past it. *)

From S2P Require Import Prelude Fact Serde Hash Wal WalFile Cli BuildGate.

(** * A line of Rust *)

(** The body of a string literal, with its closing quote. *)
Inductive str_body : string -> Prop :=
| sb_close : str_body (String quote "")
| sb_escape c s : str_body s -> str_body (String "\" (String c s))
| sb_char c s : c <> quote -> c <> "\"%char -> str_body s -> str_body (String c s).
Definition hashes (h : nat) : string := string_of_list_ascii (repeat "#"%char h).
Inductive raw_body (h : nat) : string -> Prop :=
| rb_close : raw_body h (String quote (hashes h))
| rb_char c s : c <> quote \/ fst (count_hashes s) < h -> raw_body h s -> raw_body h (String c s).
(** A block comment after its opening, at a nesting depth. *)
Inductive block_body : nat -> string -> Prop :=
| bb_close : block_body 1 "*/"
| bb_open d s : block_body (S d) s -> block_body d (String "/" (String "*" s))
| bb_pop d s : 1 <= d -> block_body d s -> block_body (S d) (String "*" (String "/" s))
| bb_char d c s : (c = "/"%char -> head_is "*" s = false) -> (c = "*"%char -> head_is "/" s = false) ->
    block_body d s -> block_body d (String c s).

Inductive Token : Type :=
| Code (c : ascii)
| Literal (text : string)
| Comment (text : string).
(** The character literal of a quotation mark. *)
Definition char_quote (s : string) : bool :=
  (String.prefix (String "'" (String quote "'")) s || String.prefix (String "'" (String "\" (String quote "'"))) s)%bool.
(** A line that begins and ends in code, up to a line comment.  Lifetimes and
    character literals are code; a literal is not followed by a [#]. *)
Inductive lexed : string -> list Token -> Prop :=
| lx_end : lexed "" []
| lx_line_comment s : lexed (String "/" (String "/" s)) [Comment (String "/" (String "/" s))]
| lx_block body s ts : block_body 1 body -> lexed s ts ->
    lexed (String "/" (String "*" (body +:+ s))) (Comment (String "/" (String "*" body)) :: ts)
| lx_string line raw h start body s ts : string_start line = Some (raw, h, start, body +:+ s) ->
    (if raw then raw_body h body else str_body body) -> head_is "#" s = false -> lexed s ts ->
    lexed line (Literal (start +:+ body) :: ts)
| lx_code c s ts : string_start (String c s) = None -> comment_start (String c s) = false -> String.prefix "//" (String c s) = false ->
    char_quote (String c s) = false -> lexed s ts -> lexed (String c s) (Code c :: ts).
(** A text all of code. *)
Definition code_occurs (needle : string) (ts : list Token) : Prop :=
  exists ts1 ts2, ts = ts1 ++ map Code (list_ascii_of_string needle) ++ ts2.

(** * The stripped line *)

Lemma count_hashes_text s : s = hashes (fst (count_hashes s)) +:+ snd (count_hashes s).
Proof.
  induction s as [|c s IH]; [done|]. cbn. destruct (Ascii.eqb_spec c "#") as [->|]; [|done].
  destruct (count_hashes s) as [n rest]. cbn in *. by f_equal.
Qed.
Lemma count_hashes_exact h s : head_is "#" s = false -> count_hashes (hashes h +:+ s) = (h, s).
Proof.
  intros Hs. induction h as [|h IH]; cbn.
  - destruct s as [|c s]; [done|]. cbn in *. by rewrite Hs.
  - unfold hashes in IH. by rewrite IH.
Qed.
(** A quote ends the count. *)
Lemma count_hashes_app s c t rest : c <> "#"%char -> fst (count_hashes (s +:+ String c t +:+ rest)) = fst (count_hashes (s +:+ String c t)).
Proof.
  intros Hc. induction s as [|a s IH]; cbn.
  - destruct (Ascii.eqb_spec c "#"); [done|]. done.
  - destruct (Ascii.eqb a "#"); [|done]. cbn in IH.
    match goal with |- fst (let '(_, _) := ?x in _) = fst (let '(_, _) := ?y in _) => destruct x, y end. cbn in *. by rewrite IH.
Qed.
Lemma raw_body_quote h s : raw_body h s -> exists a t, s = a +:+ String quote t.
Proof.
  induction 1 as [|c s _ _ (a & t & ->)]; [by exists "", (hashes h)|]. by exists (String c a), t.
Qed.

Lemma string_end_normal body s : str_body body -> head_is "#" s = false -> forall fuel, String.length body < fuel ->
  string_end fuel false 0 (body +:+ s) = Some (body, s).
Proof.
  intros Hb Hs. induction Hb as [|c body _ IH|c body H1 H2 _ IH]; intros [|fuel] Hf; cbn in Hf; try lia; cbn [String.append string_end].
  - change (Ascii.eqb quote "\") with false. change (Ascii.eqb quote quote) with true. cbn [negb andb]. change (hashes 0) with "".
    pose proof (count_hashes_exact 0 s Hs) as Hc. change (hashes 0 +:+ s) with s in Hc. by rewrite Hc.
  - change (Ascii.eqb "\" "\") with true. cbn [negb andb]. by rewrite IH by lia.
  - destruct (Ascii.eqb_spec c "\"); [done|]. destruct (Ascii.eqb_spec c quote); [done|]. cbn [negb andb]. by rewrite IH by lia.
Qed.
Lemma string_end_raw h body s : raw_body h body -> head_is "#" s = false -> forall fuel, String.length body < fuel ->
  string_end fuel true h (body +:+ s) = Some (body, s).
Proof.
  intros Hb Hs. induction Hb as [|c body Hc Hb IH]; intros [|fuel] Hf; cbn in Hf; try lia; cbn [String.append string_end]; cbn [negb andb].
  - change (Ascii.eqb quote quote) with true. by rewrite count_hashes_exact, Nat.eqb_refl.
  - assert ((Ascii.eqb c quote && (fst (count_hashes (body +:+ s)) =? h)%nat)%bool = false) as ->.
    { destruct (Ascii.eqb_spec c quote) as [->|]; [|done]. destruct Hc as [|Hc]; [done|]. cbn [andb].
      destruct (raw_body_quote h body Hb) as (a & t & ->). rewrite <- str_app_assoc. change (String quote t +:+ s) with (String quote t +:+ s).
      rewrite count_hashes_app by done. apply Nat.eqb_neq. lia. }
    by rewrite IH by lia.
Qed.
Lemma block_body_eq d fuel s :
  comment_end (S fuel) d s = match s with
    | String "/" (String "*" s') => comment_end fuel (S d) s'
    | String "*" (String "/" s') => if (d =? 1)%nat then Some s' else comment_end fuel (pred d) s'
    | String _ s' => comment_end fuel d s'
    | EmptyString => None
    end.
Proof. reflexivity. Qed.
Lemma comment_end_char d fuel c s : (c = "/"%char -> head_is "*" s = false) -> (c = "*"%char -> head_is "/" s = false) ->
  comment_end (S fuel) d (String c s) = comment_end fuel d s.
Proof.
  intros H1 H2. cbn [comment_end]. destruct s as [|e s]; [by destruct c as [[] [] [] [] [] [] [] []]|].
  destruct (Ascii.eqb_spec c "/") as [->|Hs].
  - specialize (H1 eq_refl). cbn in H1. destruct e as [[] [] [] [] [] [] [] []]; done.
  - destruct (Ascii.eqb_spec c "*") as [->|Ht]; [|by destruct c as [[] [] [] [] [] [] [] []]].
    specialize (H2 eq_refl). cbn in H2. destruct e as [[] [] [] [] [] [] [] []]; done.
Qed.
Lemma head_is_app c a b : a <> "" -> head_is c (a +:+ b) = head_is c a.
Proof. by destruct a. Qed.
Lemma block_body_nonempty d s : block_body d s -> s <> "".
Proof. by destruct 1. Qed.
Lemma comment_end_body d body s : block_body d body -> forall fuel, String.length body < fuel -> comment_end fuel d (body +:+ s) = Some s.
Proof.
  induction 1 as [|d body _ IH|d body Hd Hb IH|d c body H1 H2 Hb IH]; intros [|fuel] Hf; cbn in Hf; try lia.
  - done.
  - cbn. apply IH. lia.
  - cbn. destruct d as [|d]; [lia|]. cbn. apply IH. lia.
  - cbn [String.append]. rewrite comment_end_char; [apply IH; lia|..]; rewrite head_is_app by (by eapply block_body_nonempty); done.
Qed.

Lemma string_start_text s raw h start after : string_start s = Some (raw, h, start, after) ->
  s = start +:+ after /\ start <> "" /\ (raw = false -> h = 0).
Proof.
  assert (forall pre s1, match (let '(n, rest) := count_hashes s1 in match rest with
      | String c rest' => if Ascii.eqb c quote then Some (true, n, pre +:+ hashes n +:+ String quote "", rest') else None
      | EmptyString => None end) with
    | Some (raw, h, start, after) => pre +:+ s1 = start +:+ after /\ (pre <> "" -> start <> "") /\ (raw = false -> h = 0)
    | None => True end) as Hh.
  { intros pre s1. pose proof (count_hashes_text s1) as Ht. destruct (count_hashes s1) as [n rest]. cbn in Ht.
    destruct rest as [|c rest]; [done|]. destruct (Ascii.eqb_spec c quote) as [->|]; [|done]. split_and!; [|by destruct pre|done].
    rewrite Ht, <- !str_app_assoc. done. }
  destruct s as [|c s1]; [done|]. cbn [string_start].
  destruct (Ascii.eqb_spec c quote) as [->|]; [by intros [= <- <- <- <-]|].
  destruct (Ascii.eqb c "b" && head_is quote s1)%bool; [destruct s1 as [|d s2]; [done|by intros [= <- <- <- <-]]|].
  destruct (Ascii.eqb c "r" && head_is quote s1)%bool; [destruct s1 as [|d s2]; [done|by intros [= <- <- <- <-]]|].
  destruct (Ascii.eqb_spec c "r") as [->|Hr].
  - destruct (head_is "#" s1); cbn [andb].
    + intros He. specialize (Hh "r" s1). unfold hashes in Hh. rewrite He in Hh. destruct Hh as (H1 & H2 & H3). split_and!; [done|by apply H2|done].
    + destruct s1 as [|d s2]; [done|]. done.
  - cbn [andb]. destruct s1 as [|d s2]; [done|]. destruct (Ascii.eqb_spec c "b") as [->|]; [|done]. destruct (Ascii.eqb_spec d "r") as [->|]; [|done].
    destruct (head_is "#" s2); [|done]. cbn [andb]. intros He. specialize (Hh "br" s2). unfold hashes in Hh. rewrite He in Hh.
    destruct Hh as (H1 & H2 & H3). split_and!; [done|by apply H2|done].
Qed.

(** The text of the tokens, and what is left of it for matching. *)
Definition token_text (t : Token) : string := match t with Code c => String c "" | Literal s | Comment s => s end.
Definition token_kept (t : Token) : string :=
  match t with Code c => String c "" | Literal s => s | Comment s => if String.prefix "//" s then "" else " " end.
Fixpoint source (ts : list Token) : string := match ts with [] => "" | t :: ts => token_text t +:+ source ts end.
Fixpoint kept (ts : list Token) : string := match ts with [] => "" | t :: ts => token_kept t +:+ kept ts end.
Lemma lexed_source line ts : lexed line ts -> source ts = line.
Proof.
  induction 1 as [|s|body s ts _ _ IH|line raw h start body s ts Hst _ _ _ IH|c s ts _ _ _ _ _ IH]; cbn [source token_text]; [done|by rewrite str_app_nil_r|..].
  - by rewrite IH.
  - apply string_start_text in Hst as [-> _]. by rewrite IH, <- str_app_assoc.
  - by rewrite IH.
Qed.
Lemma substring_0 s n : String.length s <= n -> String.substring 0 n s = s.
Proof. revert n. induction s as [|c s IH]; intros [|n] Hn; cbn in *; try done; [lia|]. by rewrite IH by lia. Qed.
Lemma strip_from_eq fuel c s : strip_from (S fuel) (String c s) =
  match string_start (String c s) with
  | Some (raw, hashes, start, rest) =>
      let! '(lit, rest) := string_end (S (String.length rest)) raw hashes rest in
      let! out := strip_from fuel rest in Some (start +:+ lit +:+ out)
  | None =>
      if comment_start (String c s) then
        let! rest := comment_end (S (String.length (String c s))) 1 (String.substring 2 (String.length (String c s)) (String c s)) in
        let! out := strip_from fuel rest in Some (String " " out)
      else let! out := strip_from fuel s in Some (String c out)
  end.
Proof. reflexivity. Qed.
(** The stripped line keeps all the tokens but the block comments. *)
Lemma strip_lexed line ts : lexed line ts -> forall fuel, String.length line < fuel ->
  match strip_from fuel line with Some out => exists tail, out = kept ts +:+ tail | None => True end.
Proof.
  induction 1 as [|s|body s ts Hb _ IH|line raw h start body s ts Hst Hb Hs _ IH|c s ts Hst Hc Hl _ _ IH]; intros [|fuel] Hf; try lia.
  - by exists "".
  - destruct (strip_from (S fuel) _) as [out|]; [|done]. exists out. by destruct s.
  - cbn in Hf. rewrite str_app_length in Hf. rewrite strip_from_eq.
    change (string_start (String "/" (String "*" (body +:+ s)))) with (@None (bool * nat * string * string)).
    assert (comment_start (String "/" (String "*" (body +:+ s))) = true) as -> by by destruct (body +:+ s).
    change (String.substring 2 ?n (String "/" (String "*" (body +:+ s)))) with (String.substring 0 n (body +:+ s)).
    cbn [String.length String.substring]. rewrite substring_0 by lia.
    rewrite (comment_end_body 1 body s Hb) by (rewrite str_app_length; lia).
    specialize (IH fuel ltac:(lia)). destruct (strip_from fuel s) as [out|]; [|done]. destruct IH as [tail ->]. by exists tail.
  - destruct (string_start_text _ _ _ _ _ Hst) as (-> & Hne & Hraw). destruct start as [|c start]; [done|].
    cbn in Hf. rewrite !str_app_length in Hf. cbn [String.append] in Hst |- *. rewrite strip_from_eq, Hst.
    assert (string_end (S (String.length (body +:+ s))) raw h (body +:+ s) = Some (body, s)) as ->.
    { assert (String.length body < S (String.length (body +:+ s))) as Hlen by (rewrite str_app_length; lia).
      destruct raw; [by apply string_end_raw|]. rewrite (Hraw eq_refl). by apply string_end_normal. }
    specialize (IH fuel ltac:(lia)). destruct (strip_from fuel s) as [out|]; [|done]. destruct IH as [tail ->]. exists tail.
    cbn [kept token_kept]. change (String c (start +:+ body)) with (String c start +:+ body). by rewrite <- !str_app_assoc.
  - cbn in Hf. rewrite strip_from_eq, Hst, Hc. specialize (IH fuel ltac:(lia)). destruct (strip_from fuel s) as [out|]; [|done].
    destruct IH as [tail ->]. by exists tail.
Qed.
Lemma source_app a b : source (a ++ b) = source a +:+ source b.
Proof. induction a as [|t a IH]; [done|]. cbn. by rewrite IH, str_app_assoc. Qed.
Lemma kept_app a b : kept (a ++ b) = kept a +:+ kept b.
Proof. induction a as [|t a IH]; [done|]. cbn. by rewrite IH, str_app_assoc. Qed.
Lemma code_text s : source (map Code (list_ascii_of_string s)) = s /\ kept (map Code (list_ascii_of_string s)) = s.
Proof. induction s as [|c s [IH1 IH2]]; [done|]. cbn. by rewrite IH1, IH2. Qed.
(** Code is matched. *)
Lemma strip_keeps_code line ts needle : lexed line ts -> code_occurs needle ts ->
  contains needle (strip_inline_block_comments line) = true.
Proof.
  intros Hl (ts1 & ts2 & ->). destruct (code_text needle) as [H1 H2]. unfold strip_inline_block_comments.
  pose proof (strip_lexed _ _ Hl (S (String.length line)) ltac:(lia)) as Hk.
  destruct (strip_from _ line) as [out|]; cbn [default from_option id].
  - destruct Hk as [tail ->]. rewrite !kept_app, H2, <- !str_app_assoc. apply contains_app.
  - rewrite <- (lexed_source _ _ Hl), !source_app, H1. apply contains_app.
Qed.

(** * Files without tests *)

Lemma find_sub_tail pat c s : find_sub pat (String c s) = None -> find_sub pat s = None.
Proof. cbn [find_sub]. destruct (String.prefix pat (String c s)); [done|]. by destruct (find_sub pat s) as [[? ?]|]. Qed.
Lemma strip_tests_none fuel s : find_sub CFG_TEST s = None -> String.length s < fuel -> strip_tests fuel s = s.
Proof.
  revert s. induction fuel as [|fuel IH]; intros [|c s] Hs Hf; cbn in Hf; try lia; [done|]. cbn [strip_tests].
  unfold next_test_mod. rewrite Hs. by rewrite IH by (lia || by eapply find_sub_tail).
Qed.
Lemma strip_test_mod_none raw : find_sub CFG_TEST raw = None -> strip_test_mod raw = raw.
Proof. intros H. apply strip_tests_none; [done|lia]. Qed.

(** * What the gate passes *)

Lemma numbered_In {A} (x : A) lines n : In x lines -> exists k, In (k, x) (numbered n lines).
Proof.
  revert n. induction lines as [|l lines IH]; intros n; [done|]. intros [->|Hx]; [by exists n; left|].
  destruct (IH (S n) Hx) as [k Hk]. exists k. by right.
Qed.
Lemma pattern_clean path raw label needle line : pattern_violations path raw (label, needle) = [] ->
  In line (str_lines (if is_test_tolerant label then strip_test_mod raw else raw)) -> line_hit label needle line = false.
Proof.
  unfold pattern_violations. intros Hv Hin. destruct (line_hit label needle line) eqn:E; [|done]. exfalso.
  destruct (numbered_In line _ 1 Hin) as [k Hk]. apply map_eq_nil in Hv.
  assert (In (k, line) (List.filter (fun l => line_hit label needle (snd l))
    (numbered 1 (str_lines (if is_test_tolerant label then strip_test_mod raw else raw))))) as H by by apply List.filter_In.
  by rewrite Hv in H.
Qed.
Lemma concat_map_nil {A B} (f : A -> list B) l x : concat (map f l) = [] -> In x l -> f x = [].
Proof.
  induction l as [|y l IH]; [done|]. cbn. intros [H1 H2]%app_eq_nil [->|Hx]; [done|]. by apply IH.
Qed.
Lemma scan_file_clean path raw : scan_file path raw = [] ->
  strip_prefix BOM raw = None /\ (forall label needle, In (label, needle) FORBIDDEN -> pattern_violations path raw (label, needle) = []) /\
  float_lit_violations raw = [].
Proof.
  unfold scan_file. destruct (strip_prefix BOM raw) as [rest|]; [done|]. cbn [app]. intros [H1 H2]%app_eq_nil. split_and!; [done| |by apply map_eq_nil in H2].
  intros label needle Hin. by apply (concat_map_nil _ _ (label, needle) H1).
Qed.
Lemma scan_files_clean files path content : scan_files files = Some [] -> In (path, content) files ->
  exists raw, content = Some raw /\ scan_file path raw = [].
Proof.
  induction files as [|[p [raw|]] files IH]; cbn; try done. destruct (scan_files files) as [more|]; [|done]. cbn.
  intros [= Hv] Hin. apply app_eq_nil in Hv as [H1 ->]. destruct Hin as [[= -> <-]|Hin]; [by exists raw|]. by apply IH.
Qed.
(** The lines the scan passes over. *)
Definition comment_line (line : string) : bool := String.prefix "//" (trim_start line).
Lemma line_hit_contains label needle line : contains_unsafe label = false -> comment_line line = false ->
  needle <> "async" -> needle <> "await" -> line_hit label needle line = false ->
  contains needle (strip_inline_block_comments line) = false.
Proof.
  unfold line_hit, scan_src, comment_line. intros -> -> H1 H2. cbn [andb]. unfold bare_word_hit.
  destruct (String.eqb_spec needle "async"); [done|]. destruct (String.eqb_spec needle "await"); [done|]. cbn [orb].
  by intros [? _]%orb_false_iff.
Qed.

(** C33: A crate that builds is free of the patterns.  When the gate is not
    skipped and lets a crate build, every source file could be read and does
    not start with a byte-order mark, no file holds an application-level name,
    and no line of code, read as Rust, has a forbidden pattern in its code:
    for the patterns allowed in tests, in files without tests.  Lines that
    start in code and have no character literal of a quotation mark are read
    by [lexed]; the whole-word patterns and the one about unsafe code are not
    in this statement. *)
Theorem gate_passes_clean env node depth path content :
  run_gate env (Some node) depth = SUCCESS -> skip_requested env "EVORULE_SKIP_GATE" = false ->
  In (path, content) (collect_rs_files depth "src" node) ->
  exists raw, content = Some raw /\ strip_prefix BOM raw = None /\ strategy_violations path raw = [] /\
  forall label needle line ts, In (label, needle) FORBIDDEN -> needle <> "async" -> needle <> "await" -> contains_unsafe label = false ->
    (is_test_tolerant label = true -> find_sub CFG_TEST raw = None) ->
    In line (str_lines raw) -> comment_line line = false -> lexed line ts -> ~ code_occurs needle ts.
Proof.
  unfold run_gate. intros Hrun Hskip Hin. destruct (negb _); [done|]. destruct (detect_strategy_patterns _) as [|v vs] eqn:Hstrat; [|done].
  rewrite Hskip in Hrun. destruct (collect_rs_files depth "src" node) as [|f fs] eqn:Hfiles; [done|]. rewrite <- Hfiles in *.
  destruct (scan_files (collect_rs_files depth "src" node)) as [[|v vs]|] eqn:Hscan; [|done..].
  destruct (scan_files_clean _ _ _ Hscan Hin) as (raw & -> & Hclean). destruct (scan_file_clean _ _ Hclean) as (Hbom & Hpat & _).
  exists raw. split_and!; [done..| |].
  - apply (concat_map_nil _ _ _ Hstrat Hin).
  - intros label needle line ts Hl H1 H2 Hu Htol Hline Hc Hlex Hocc. specialize (Hpat label needle Hl).
    assert (line_hit label needle line = false) as Hhit.
    { eapply pattern_clean; [exact Hpat|]. destruct (is_test_tolerant label); [|done]. by rewrite strip_test_mod_none by by apply Htol. }
    apply line_hit_contains in Hhit; [|done..]. by rewrite (strip_keeps_code line ts needle Hlex Hocc) in Hhit.
Qed.
Definition text_of (lines : list string) : string := fold_right (fun l text => l +:+ String newline text) "" lines.
Definition demo_text : string := text_of ["//! A crate."; "fn add(a: u64) -> u64 {"; "    a + 1 /* one more */"; "}"].
Definition demo_crate : FsNode := FsDir (Some [("lib.rs", FsFile (Some demo_text)); ("data.json", FsFile None)]).
Definition demo_env (var : string) : option string := if String.eqb var "CARGO_MANIFEST_DIR" then Some "." else None.
Lemma gate_passes_clean_witness :
  run_gate demo_env (Some demo_crate) 2 = SUCCESS /\
  exists raw, Some demo_text = Some raw /\ strip_prefix BOM raw = None /\ strategy_violations "src/lib.rs" raw = [] /\
    ~ code_occurs ".unwrap(" [Code "}"].
Proof.
  assert (run_gate demo_env (Some demo_crate) 2 = SUCCESS) as Hrun by (vm_compute; reflexivity). split; [exact Hrun|].
  destruct (gate_passes_clean demo_env demo_crate 2 "src/lib.rs" (Some demo_text) Hrun) as (raw & Hraw & H1 & H2 & H3).
  - vm_compute. reflexivity.
  - vm_compute. left. reflexivity.
  - exists raw. split; [exact Hraw|]. split; [exact H1|]. split; [exact H2|]. injection Hraw as <-.
    refine (H3 "T9-unwrap-call" ".unwrap(" "}" [Code "}"] _ _ _ _ _ _ _ _).
    + cbn. tauto.
    + discriminate.
    + discriminate.
    + vm_compute. reflexivity.
    + intros _. vm_compute. reflexivity.
    + vm_compute. tauto.
    + vm_compute. reflexivity.
    + apply lx_code; [vm_compute; reflexivity..|constructor].
Defined.

(** * What gets past the gate *)

(** A character literal of a quotation mark turns the strings of its line
    inside out: the text between two of them can be cut out as a comment. *)
Definition quote_char : string := String "'" (String quote "'").
Definition leak_quote : string :=
  text_of ["fn f() { let a = " +:+ quote_char +:+ "; let s = " +:+ quoted "/*" +:+ "; g().unwrap(); let t = " +:+ quoted "*/" +:+
    "; let b = " +:+ quote_char +:+ "; }"].
Lemma quote_char_hides_code : contains ".unwrap(" leak_quote = true /\ scan_file "src/lib.rs" leak_quote = [].
Proof. by vm_compute. Qed.
(** A line that looks like a comment line, in a block comment that ends on it. *)
Definition leak_comment : string := text_of ["fn f() { /*"; "// */ unsafe { g().unwrap() } }"].
Lemma comment_tail_hides_code : contains "unsafe" leak_comment = true /\ scan_file "src/lib.rs" leak_comment = [].
Proof. by vm_compute. Qed.
(** The test attribute in a comment hides the module after it. *)
Definition leak_module : string := text_of ["// see #[cfg(test)]"; "mod production {"; "    fn f() { g().unwrap(); panic!() }"; "}"].
Lemma mentioned_attribute_hides_module : contains ".unwrap(" leak_module = true /\ scan_file "src/lib.rs" leak_module = [].
Proof. by vm_compute. Qed.
(** A quotation mark as a character hides a float literal on its line. *)
Definition leak_float : string := text_of ["fn f() { if c == " +:+ quote_char +:+ " { x = 1.5; } }"].
Lemma quote_char_hides_float : scan_file "src/lib.rs" leak_float = [] /\
  scan_file "src/lib.rs" (text_of ["fn f() { if c == 'a' { x = 1.5; } }"]) <> [].
Proof. by vm_compute. Qed.
(** The list has three patterns more than its description counts. *)
Lemma forbidden_count : length FORBIDDEN = 27.
Proof. reflexivity. Qed.
