(* ===== verification/Eval.v ===== *)
(** The evaluation harness, [evorule-eval/src/lib.rs]: its run of one
    instruction and of a session of instructions over the kernel, the log it
    keeps and renumbers, and the choice of a seed. *)

From S2P Require Import Prelude ObjectMap Value Error Path Domain Executor ExecSemantics Transition Fact Serde Hash Wal Cli.

Definition MAX_STEPS : nat := 100 * 100.

(** * Input and output results *)

Definition canned_io_response : JsonValue :=
  object_from_pairs [("status", JString "ok"); ("origin", JString "eval-responder")].
Definition inject_io_result (payload : JsonValue) (io_type : string) (result : JsonValue) : JsonValue :=
  let obj := default map_new (as_object payload) in
  let obj := match map_get obj "__io_results__" with
             | None => obj_insert obj "__io_results__" (JObject map_new)
             | Some _ => obj
             end in
  match map_get obj "__io_results__" with
  | Some (JObject c) => JObject (obj_insert obj "__io_results__" (JObject (obj_insert c io_type result)))
  | _ => JObject obj
  end.
Definition clear_io_results (payload : JsonValue) : JsonValue :=
  match payload with JObject m => JObject (obj_remove m "__io_results__") | _ => payload end.

(** * One run *)

(** The variables of [run_once], without the clock readings. *)
Record EvalRun : Type := mk_eval_run {
  er_facts : list Fact;
  er_ids : FactIdGenerator;
  er_queue : list JsonValue;
  er_payload : JsonValue;
  er_steps : nat;
  er_io_rounds : nat;
  er_version : Z;
  er_matched : bool;
  er_recovering : bool;
}.
(** [struct RunResult], without the clock readings. *)
Record RunResult : Type := mk_run_result {
  rr_facts : list Fact;
  rr_final_payload : JsonValue;
  rr_steps : nat;
  rr_io_rounds : nat;
  rr_matched : bool;
}.
Definition prev_fact_id (facts : list Fact) : FactId :=
  match last facts with Some f => fact_id f | None => 0%Z end.
(** A fact of a new identifier, of which the previous one may be the cause. *)
Definition emit (emit_facts : bool) (r : EvalRun) (fact : FactId -> FactId -> Fact) : EvalRun :=
  if emit_facts then
    let '(id, ids) := next_id (er_ids r) in
    mk_eval_run (er_facts r ++ [fact id (prev_fact_id (er_facts r))]) ids (er_queue r) (er_payload r) (er_steps r) (er_io_rounds r)
      (er_version r) (er_matched r) (er_recovering r)
  else r.
(** What the arms change besides the log. *)
Definition er_pop (r : EvalRun) (queue : list JsonValue) : EvalRun :=
  mk_eval_run (er_facts r) (er_ids r) queue (er_payload r) (S (er_steps r)) (er_io_rounds r) (er_version r) (er_matched r) false.
Definition er_transition (r : EvalRun) (payload : JsonValue) (queue : list JsonValue) : EvalRun :=
  mk_eval_run (er_facts r) (er_ids r) queue payload (er_steps r) (er_io_rounds r) (u64_wrapping_add (er_version r) 1) true (er_recovering r).
Definition er_io (r : EvalRun) : EvalRun :=
  mk_eval_run (er_facts r) (er_ids r) (er_queue r) (er_payload r) (er_steps r) (S (er_io_rounds r)) (er_version r) true (er_recovering r).
Definition er_resume (r : EvalRun) (payload : JsonValue) (instruction : JsonValue) : EvalRun :=
  mk_eval_run (er_facts r) (er_ids r) (instruction :: er_queue r) payload (er_steps r) (er_io_rounds r) (er_version r) (er_matched r) true.
Definition er_with_payload (r : EvalRun) (payload : JsonValue) : EvalRun :=
  mk_eval_run (er_facts r) (er_ids r) (er_queue r) payload (er_steps r) (er_io_rounds r) (er_version r) (er_matched r) (er_recovering r).

Section Run.
Context (rules : list JsonValue) (max_steps : nat) (emit_facts : bool).

(** The match on the result; [false] leaves the loop. *)
Definition eval_result (r : EvalRun) (was_recovering : bool) (instruction : JsonValue) (result : Result TransitionResult TcbError) :
    EvalRun * bool :=
  match result with
  | Ok (TState new_payload new_queue _) =>
      let new_payload := if was_recovering then clear_io_results new_payload else new_payload in
      let r := er_transition r new_payload new_queue in
      (emit emit_facts r (fun id prev => StateTransition id prev new_payload new_queue), true)
  | Ok (TIoRequired io_type params) =>
      let r := er_io r in
      if (100 <? er_io_rounds r)%nat then (emit emit_facts r (fun id _ => FError id "io_rounds exceeded 100"), false)
      else
        let r := emit emit_facts r (fun id prev => IoRequest id prev io_type params) in
        let r := emit emit_facts r (fun id prev => IoResponse id prev canned_io_response None) in
        (er_resume r (inject_io_result (er_payload r) io_type canned_io_response) instruction, true)
  | Ok (TIgnored _ _ _) =>
      let r := emit emit_facts r (fun id _ => FError id "Instruction ignored by TCB") in
      (if was_recovering then er_with_payload r (clear_io_results (er_payload r)) else r, false)
  | Ok (THalted _ _) => (emit emit_facts r (fun id prev => Violation id prev 0 "eval-harness" instruction), true)
  | Err _ => (emit emit_facts r (fun id _ => FError id ("TCB error at step " +:+ show_usize (er_steps r))), false)
  end.
(** The loop; every round is a step, so [max_steps + 1] rounds are enough. *)
Fixpoint eval_loop (fuel : nat) (r : EvalRun) : option EvalRun :=
  match fuel with
  | O => None
  | S fuel =>
      match er_queue r with
      | [] => Some r
      | instruction :: queue =>
          if (max_steps <=? er_steps r)%nat then
            Some (emit emit_facts r (fun id _ => FError id ("max_steps exceeded: " +:+ show_usize (er_steps r))))
          else
            let result := execute_transition rules instruction (er_payload r) queue in
            match eval_result (er_pop r queue) (er_recovering r) instruction result with
            | (r, true) => eval_loop fuel r
            | (r, false) => Some r
            end
      end
  end.
Definition eval_start (initial_payload initial_instruction : JsonValue) : EvalRun :=
  emit emit_facts (mk_eval_run [] generator_new [initial_instruction] initial_payload 0 0 0 false false)
    (fun id _ => Command id initial_instruction).
Definition run_once (initial_payload initial_instruction : JsonValue) : option RunResult :=
  let! r := eval_loop (S (S max_steps)) (eval_start initial_payload initial_instruction) in
  let r := emit emit_facts r (fun id _ => Stable id (er_version r)) in
  Some (mk_run_result (er_facts r) (er_payload r) (er_steps r) (er_io_rounds r) (er_matched r)).
End Run.

(** * The session *)

(** [renumber_facts]: the map of the segment, the last new identifier. *)
Definition fix_id (id_map : gmap Z Z) (old : Z) : Z := default old (id_map !! old).
Definition renumber_one (id_map : gmap Z Z) (new_id : FactId) (f : Fact) : Fact :=
  match f with
  | Command _ instruction => Command new_id instruction
  | PayloadUpdate _ path value => PayloadUpdate new_id path value
  | StateTransition _ cause new_payload new_queue => StateTransition new_id (fix_id id_map cause) new_payload new_queue
  | IoRequest _ cause io_type params => IoRequest new_id (fix_id id_map cause) io_type params
  | IoResponse _ request_id result error => IoResponse new_id (fix_id id_map request_id) result error
  | Stable _ version => Stable new_id version
  | FError _ message => FError new_id message
  | TransitionTrace _ cause rule_hits => TransitionTrace new_id (fix_id id_map cause) rule_hits
  | Violation _ cause rule_index reason instruction => Violation new_id (fix_id id_map cause) rule_index reason instruction
  end.
Definition is_command (f : Fact) : bool := match f with Command _ _ => true | _ => false end.
Fixpoint renumber_from (id_map : gmap Z Z) (next_global : Z) (facts : list Fact) : list Fact :=
  match facts with
  | [] => []
  | fact :: rest =>
      let id_map := if is_command fact then ∅ else id_map in
      let next_global := u64_wrapping_add next_global 1 in
      let id_map := <[fact_id fact := next_global]> id_map in
      renumber_one id_map next_global fact :: renumber_from id_map next_global rest
  end.
Definition renumber_facts (facts : list Fact) : list Fact := renumber_from ∅ 0 facts.
Fixpoint batch_loop (rules : list JsonValue) (emit_facts : bool) (acc : RunResult) (instructions : list JsonValue) : option RunResult :=
  match instructions with
  | [] => Some acc
  | instruction :: rest =>
      let! r := run_once rules MAX_STEPS emit_facts (rr_final_payload acc) instruction in
      batch_loop rules emit_facts
        (mk_run_result (rr_facts acc ++ rr_facts r) (rr_final_payload r) (rr_steps acc + rr_steps r) (rr_io_rounds acc + rr_io_rounds r)
           (rr_matched acc || rr_matched r)) rest
  end.
Definition run_batch (rules instructions : list JsonValue) (emit_facts : bool) : option RunResult :=
  let! r := batch_loop rules emit_facts (mk_run_result [] (JObject map_new) 0 0 false) instructions in
  Some (if emit_facts then mk_run_result (renumber_facts (rr_facts r)) (rr_final_payload r) (rr_steps r) (rr_io_rounds r) (rr_matched r) else r).

(** * The seeds *)

(** [select_seed]: the first of the runs that match with the most steps, then
    the most rounds. *)
Definition better (probe best : RunResult) : bool :=
  ((rr_steps best <? rr_steps probe) || (rr_steps probe =? rr_steps best) && (rr_io_rounds best <? rr_io_rounds probe))%nat%bool.
Fixpoint select_from (rules : list JsonValue) (best : option (string * RunResult)) (seeds : list (string * JsonValue)) :
    option (option (string * RunResult)) :=
  match seeds with
  | [] => Some best
  | (id, instruction) :: rest =>
      let! probe := run_once rules MAX_STEPS true (JObject map_new) instruction in
      let take_it := rr_matched probe && match best with Some (_, b) => better probe b | None => true end in
      select_from rules (if take_it then Some (id, probe) else best) rest
  end.
Definition select_seed (rules : list JsonValue) (seeds : list (string * JsonValue)) : option (option (string * RunResult)) :=
  select_from rules None seeds.

Section Files.
Context {N : Type} `{SerdeNumber N, SerdeText N}.
(** [load_rules_file], from what reading the file gives. *)
Definition eval_load_rules (text : Result string string) : Result (list JsonValue) string :=
  let? text := text in
  match serde_from_str text with
  | Err e => Err ("parse json: " +:+ e)
  | Ok value =>
      Ok (match value with
          | SArray items => map Wal.serde_to_tcb items
          | SObject obj =>
              match map_get obj "transform" with
              | Some (SArray items) => map Wal.serde_to_tcb items
              | _ => [Wal.serde_to_tcb value]
              end
          | _ => [Wal.serde_to_tcb value]
          end)
  end.
(** [load_plan_seeds] on the parsed plan. *)
Fixpoint plan_cases (items : list (SValue N)) : Result (list (string * JsonValue)) string :=
  match items with
  | [] => Ok []
  | item :: rest =>
      let? id := ok_or (let! v := s_get item "id" in s_as_str v) "plan case missing id" in
      let? instruction := ok_or (s_get item "instruction") "plan case missing instruction" in
      let? more := plan_cases rest in Ok ((id, Wal.serde_to_tcb instruction) :: more)
  end.
Definition plan_group (plan : SValue N) (group : string) : Result (list (string * JsonValue)) string :=
  match (let! v := s_get plan group in s_as_array v) with Some items => plan_cases items | None => Ok [] end.
Definition load_plan_seeds (plan : SValue N) : Result (list (string * JsonValue)) string :=
  let? fresh := plan_group plan "fresh" in let? sequence := plan_group plan "sequence" in Ok (fresh ++ sequence).
End Files.
