(* ===== verification/EvalSpec.v ===== *)
(** Theorems about the evaluation harness: its runs end and do not depend on
    the log being kept; the logs of sessions are sound after renumbering. *)

From S2P Require Import Prelude ObjectMap Value Error Path Domain Executor ExecSemantics Transition Fact Serde Hash Wal Reactor Cli CliSpec Eval.

(** * Runs end, with or without a log *)

(** Two runs that differ in their logs only. *)
Definition same_but_log (r1 r2 : EvalRun) : Prop :=
  er_queue r1 = er_queue r2 /\ er_payload r1 = er_payload r2 /\ er_steps r1 = er_steps r2 /\ er_io_rounds r1 = er_io_rounds r2 /\
  er_version r1 = er_version r2 /\ er_matched r1 = er_matched r2 /\ er_recovering r1 = er_recovering r2.
Lemma emit_same b1 b2 r1 r2 f1 f2 : same_but_log r1 r2 -> same_but_log (emit b1 r1 f1) (emit b2 r2 f2).
Proof.
  intros H. unfold emit. destruct (next_id (er_ids r1)), (next_id (er_ids r2)). by destruct b1, b2.
Qed.
Lemma eval_result_same b1 b2 r1 r2 was instruction result : same_but_log r1 r2 ->
  same_but_log (fst (eval_result b1 r1 was instruction result)) (fst (eval_result b2 r2 was instruction result)) /\
  snd (eval_result b1 r1 was instruction result) = snd (eval_result b2 r2 was instruction result).
Proof.
  intros H. pose proof H as (Hq & Hp & Hs & Hi & Hv & Hm & Hr).
  destruct result as [[new_payload new_queue hits|io params|i reason|ty why hits]|e]; cbn [eval_result].
  - split; [|done]. apply emit_same. by split_and!; cbn; rewrite ?Hv.
  - assert (same_but_log (er_io r1) (er_io r2)) as H1 by by split_and!; cbn; rewrite ?Hi.
    cbn [er_io_rounds er_io]. rewrite Hi. destruct (100 <? S (er_io_rounds r2))%nat; [split; [by apply emit_same|done]|].
    pose proof (emit_same b1 b2 _ _ (fun id prev => IoRequest id prev io params) (fun id prev => IoRequest id prev io params) H1) as H2.
    pose proof (emit_same b1 b2 _ _ (fun id prev => IoResponse id prev canned_io_response None)
      (fun id prev => IoResponse id prev canned_io_response None) H2) as (Eq & Ep & Es & Ei & Ev & Em & Er).
    split; [|done]. split_and!; cbn; congruence.
  - split; [by apply emit_same|done].
  - pose proof (emit_same b1 b2 _ _ (fun id _ => FError id "Instruction ignored by TCB") (fun id _ => FError id "Instruction ignored by TCB") H)
      as H1. split; [|done]. destruct was; [|done]. destruct H1 as (Eq & Ep & Es & Ei & Ev & Em & Er). split_and!; cbn; congruence.
  - split; [by apply emit_same|done].
Qed.
Lemma eval_loop_same rules max_steps b1 b2 fuel : forall r1 r2, same_but_log r1 r2 ->
  match eval_loop rules max_steps b1 fuel r1, eval_loop rules max_steps b2 fuel r2 with
  | Some r1', Some r2' => same_but_log r1' r2'
  | None, None => True
  | _, _ => False
  end.
Proof.
  induction fuel as [|fuel IH]; intros r1 r2 H; [done|]. cbn [eval_loop]. pose proof H as (Hq & Hp & Hs & Hi & Hv & Hm & Hr).
  rewrite Hq, Hs. destruct (er_queue r2) as [|instruction queue]; [done|]. destruct (max_steps <=? er_steps r2)%nat; [by apply emit_same|].
  rewrite Hp, Hr. set (result := execute_transition rules instruction (er_payload r2) queue).
  assert (same_but_log (er_pop r1 queue) (er_pop r2 queue)) as H1 by by split_and!; cbn; rewrite ?Hs.
  destruct (eval_result_same b1 b2 _ _ (er_recovering r2) instruction result H1) as [H2 Hgo].
  destruct (eval_result b1 _ _ _ _) as [r1' go1], (eval_result b2 _ _ _ _) as [r2' go2]. cbn in H2, Hgo. subst go2.
  destruct go1; [by apply IH|done].
Qed.
(** An arm keeps the count of steps. *)
Lemma emit_steps b r f : er_steps (emit b r f) = er_steps r.
Proof. unfold emit. destruct b; [|done]. by destruct (next_id (er_ids r)). Qed.
Lemma eval_result_steps b r was instruction result : er_steps (fst (eval_result b r was instruction result)) = er_steps r.
Proof.
  destruct result as [[new_payload new_queue hits|io params|i reason|ty why hits]|e]; cbn [eval_result fst]; rewrite ?emit_steps; try done.
  - cbn [er_io_rounds er_io]. destruct (100 <? S (er_io_rounds r))%nat; cbn [fst]; [by rewrite emit_steps|]. cbn. by rewrite !emit_steps.
  - destruct was; cbn; by rewrite emit_steps.
Qed.
Lemma eval_loop_total rules max_steps b fuel r : er_steps r <= max_steps -> max_steps - er_steps r < fuel ->
  exists r', eval_loop rules max_steps b fuel r = Some r' /\ er_steps r' <= max_steps.
Proof.
  revert r. induction fuel as [|fuel IH]; intros r Hle Hf; [lia|]. cbn [eval_loop]. destruct (er_queue r) as [|instruction queue]; [by exists r|].
  destruct (Nat.leb_spec max_steps (er_steps r)).
  { eexists. split; [reflexivity|]. by rewrite emit_steps. }
  pose proof (eval_result_steps b (er_pop r queue) (er_recovering r) instruction (execute_transition rules instruction (er_payload r) queue)) as Hs.
  destruct (eval_result b _ _ _ _) as [r' go]. cbn in Hs. destruct go; [|exists r'; split; [done|lia]]. apply IH; lia.
Qed.
Lemma run_once_total rules max_steps b payload instruction : exists r, run_once rules max_steps b payload instruction = Some r /\ rr_steps r <= max_steps.
Proof.
  unfold run_once. assert (er_steps (eval_start b payload instruction) = 0) as H0 by (unfold eval_start; by rewrite emit_steps).
  destruct (eval_loop_total rules max_steps b (S (S max_steps)) (eval_start b payload instruction)) as (r & -> & Hr); [lia..|].
  eexists. split; [reflexivity|]. cbn. by rewrite emit_steps.
Qed.

(** * The log of one run *)

(** The fact a fact refers to. *)
Definition refers (f : Fact) : option FactId :=
  match f with
  | StateTransition _ c _ _ | IoRequest _ c _ _ | IoResponse _ c _ _ | TransitionTrace _ c _ | Violation _ c _ _ _ => Some c
  | _ => None
  end.
Definition refers_back (f : Fact) : Prop := forall c, refers f = Some c -> (1 <= c < fact_id f)%Z.
(** A segment: identifiers from 1 on, references back, and one command, the
    first. *)
Record segment (facts : list Fact) : Prop := {
  sg_ids : map fact_id facts = seqZ 1 (Z.of_nat (length facts));
  sg_refs : Forall refers_back facts;
  sg_head : exists i rest, facts = Command 1%Z i :: rest /\ Forall (fun f => is_command f = false) rest;
}.
Lemma ids_snoc facts f : map fact_id facts = seqZ 1 (Z.of_nat (length facts)) -> fact_id f = (Z.of_nat (length facts) + 1)%Z ->
  map fact_id (facts ++ [f]) = seqZ 1 (Z.of_nat (length (facts ++ [f]))).
Proof.
  intros Hi Hf. rewrite map_app, Hi, length_app, Nat2Z.inj_add, seqZ_app by lia. f_equal. cbn [map]. rewrite Hf.
  change (Z.of_nat (length [f])) with 1%Z. unfold seqZ. change (Z.to_nat 1) with 1. cbn [seq fmap list_fmap]. f_equal. lia.
Qed.
Lemma segment_last facts : segment facts -> prev_fact_id facts = Z.of_nat (length facts) /\ (1 <= Z.of_nat (length facts))%Z.
Proof.
  intros [Hi _ (i & rest & -> & _)]. split; [|cbn; lia]. unfold prev_fact_id.
  destruct (last (Command 1%Z i :: rest)) as [f|] eqn:E; [|by apply last_None in E]. apply last_Some in E as [l El]. rewrite El in *.
  rewrite map_app, length_app, Nat2Z.inj_add, seqZ_app in Hi by lia. apply app_inj_2 in Hi as [_ Hi]; [|done].
  rewrite length_app, Nat2Z.inj_add. cbn [map] in Hi. change (Z.of_nat (length [f])) with 1%Z in *. unfold seqZ in Hi.
  change (Z.to_nat 1) with 1 in Hi. cbn [seq fmap list_fmap] in Hi. injection Hi as Hi. lia.
Qed.
Section Log.
Variable max_steps : nat.
Context (Hbound : (2 * Z.of_nat max_steps + 5 <= u64_max)%Z).
Record log_inv (k : nat) (r : EvalRun) : Prop := {
  li_segment : segment (er_facts r);
  li_next : gen_next (er_ids r) = (Z.of_nat (length (er_facts r)) + 1)%Z;
  li_len : length (er_facts r) <= k;
}.
Lemma log_inv_mono k k' r : log_inv k r -> k <= k' -> log_inv k' r.
Proof. intros [] Hk. split; [done..|lia]. Qed.
Lemma log_inv_facts k r r' : log_inv k r -> er_facts r' = er_facts r -> er_ids r' = er_ids r -> log_inv k r'.
Proof. intros [] Hf Hi. by split; rewrite ?Hf, ?Hi. Qed.
Lemma emit_log k r f : log_inv k r -> k <= 2 * max_steps + 3 ->
  (forall id prev, fact_id (f id prev) = id) -> (forall id prev c, refers (f id prev) = Some c -> c = prev) ->
  (forall id prev, is_command (f id prev) = false) -> log_inv (S k) (emit true r f).
Proof.
  intros [Hseg Hnext Hlen] Hk Hid Href Hcmd. destruct (segment_last _ Hseg) as [Hlast Hpos]. unfold emit, next_id. rewrite Hnext, Hlast.
  destruct Hseg as [Hi Hr (i & rest & He & Hrest)]. split; cbn [er_facts er_ids gen_next].
  - split; [by apply ids_snoc| |].
    + apply Forall_app. split; [done|]. constructor; [|constructor]. intros c ->%Href. rewrite Hid. lia.
    + rewrite He. exists i, (rest ++ [f (Z.of_nat (length (Command 1%Z i :: rest)) + 1)%Z (Z.of_nat (length (Command 1%Z i :: rest)))]).
      split; [done|]. apply Forall_app. split; [done|]. by constructor.
  - rewrite length_app. cbn [length]. unfold u64_wrapping_add. unfold u64_max in Hbound. rewrite Z.mod_small; lia.
  - rewrite length_app. cbn [length]. lia.
Qed.
Lemma eval_result_log k r was instruction result : log_inv k r -> k <= 2 * max_steps + 1 ->
  log_inv (S (S k)) (fst (eval_result true r was instruction result)).
Proof.
  intros H Hk. destruct result as [[new_payload new_queue hits|io params|i reason|ty why hits]|e]; cbn [eval_result].
  - apply (log_inv_mono (S k)); [|lia]. apply emit_log; try done; [by eapply log_inv_facts|lia|by intros ? ? ? [= ->]].
  - assert (log_inv k (er_io r)) as H1 by by eapply log_inv_facts.
    destruct (100 <? er_io_rounds (er_io r))%nat.
    { apply (log_inv_mono (S k)); [|lia]. apply emit_log; try done. lia. }
    match goal with |- log_inv _ (fst (er_resume ?x _ _, _)) => apply (log_inv_facts _ x); [|done..] end. apply emit_log; [apply emit_log; try done; [lia|by intros ? ? ? [= ->]]|lia|done|by intros ? ? ? [= ->]|done].
  - apply (log_inv_mono (S k)); [|lia]. apply emit_log; try done; [lia|by intros ? ? ? [= ->]].
  - apply (log_inv_mono (S k)); [|lia]. assert (log_inv (S k) (emit true r (fun id _ => FError id "Instruction ignored by TCB"))) as H1
      by (apply emit_log; try done; lia). destruct was; [by eapply log_inv_facts|done].
  - apply (log_inv_mono (S k)); [|lia]. apply emit_log; try done. lia.
Qed.
Lemma eval_loop_log rules fuel r r' : log_inv (2 * er_steps r + 1) r -> er_steps r <= max_steps ->
  eval_loop rules max_steps true fuel r = Some r' -> log_inv (2 * max_steps + 2) r'.
Proof.
  revert r. induction fuel as [|fuel IH]; intros r H Hle; [done|]. cbn [eval_loop]. destruct (er_queue r) as [|instruction queue].
  { intros [= <-]. apply (log_inv_mono (2 * er_steps r + 1)); [done|lia]. }
  destruct (Nat.leb_spec max_steps (er_steps r)).
  { intros Hr. apply (inj Some) in Hr as <-. apply (log_inv_mono (S (2 * er_steps r + 1))); [|lia]. apply emit_log; try done. lia. }
  assert (log_inv (2 * er_steps r + 1) (er_pop r queue)) as H1 by by eapply log_inv_facts.
  pose proof (eval_result_log _ _ (er_recovering r) instruction (execute_transition rules instruction (er_payload r) queue) H1 ltac:(lia)) as H2.
  pose proof (eval_result_steps true (er_pop r queue) (er_recovering r) instruction (execute_transition rules instruction (er_payload r) queue)) as Hs.
  cbv zeta. destruct (eval_result true _ _ _ _) as [r1 go]. cbn in H2, Hs. destruct go.
  - apply IH; [|lia]. apply (log_inv_mono _ _ _ H2). lia.
  - intros [= <-]. apply (log_inv_mono _ _ _ H2). lia.
Qed.
Lemma run_once_log rules payload instruction r : run_once rules max_steps true payload instruction = Some r ->
  segment (rr_facts r) /\ length (rr_facts r) <= 2 * max_steps + 3.
Proof.
  unfold run_once. destruct (eval_loop _ _ _ _ _) as [r0|] eqn:E; [|done]. cbn. intros [= <-].
  apply eval_loop_log in E.
  - assert (log_inv (2 * max_steps + 3) (emit true r0 (fun id _ => Stable id (er_version r0)))) as [H1 _ H2]; [|done].
    apply (log_inv_mono (S (2 * max_steps + 2))); [|lia]. apply emit_log; try done. lia.
  - cbn. split; [|done|done]. split; cbn; [done| |by exists instruction, []]. constructor; [by intros ? ?|constructor].
  - cbn. lia.
Qed.
End Log.

(** * Renumbering *)

(** Every reference is to an earlier fact since the last command; [dom] are
    the identifiers of these. *)
Fixpoint refers_within (dom : gset Z) (facts : list Fact) : Prop :=
  match facts with
  | [] => True
  | f :: rest =>
      let dom := if is_command f then ∅ else dom in
      (forall c, refers f = Some c -> c ∈ dom /\ c <> fact_id f) /\ refers_within ({[fact_id f]} ∪ dom) rest
  end.
Lemma refers_within_app dom l more : refers_within dom l -> (forall dom', refers_within dom' more) -> refers_within dom (l ++ more).
Proof.
  revert dom. induction l as [|f l IH]; intros dom Hl Hm; [apply Hm|]. destruct Hl as [Hf Hl]. split; [done|]. by apply IH.
Qed.
Lemma tail_within k dom l : map fact_id l = seqZ k (Z.of_nat (length l)) -> Forall refers_back l ->
  Forall (fun f => is_command f = false) l -> (forall c, (1 <= c < k)%Z -> c ∈ dom) -> refers_within dom l.
Proof.
  revert k dom. induction l as [|f l IH]; intros k dom Hi Hr Hc Hd; [done|].
  apply Forall_cons in Hr as [Hf Hr], Hc as [Hfc Hc]. cbn [length map] in Hi. rewrite Nat2Z.inj_succ, seqZ_cons in Hi by lia.
  injection Hi as Hfi Hi. rewrite Z.pred_succ in Hi. cbn [refers_within]. rewrite Hfc. split.
  - intros c Hcf. specialize (Hf c Hcf). split; [apply Hd; lia|lia].
  - apply (IH (Z.succ k)); [done..|]. intros c Hck. rewrite Hfi. destruct (decide (c = k)) as [->|]; [set_solver|].
    apply elem_of_union_r, Hd. lia.
Qed.
Lemma segment_within dom l : segment l -> refers_within dom l.
Proof.
  intros [Hi Hr (i & rest & -> & Hc)]. cbn [length map] in Hi. rewrite Nat2Z.inj_succ, seqZ_cons in Hi by lia. injection Hi as Hi.
  rewrite Z.pred_succ in Hi. apply Forall_cons in Hr as [_ Hr]. split; [by intros c|]. apply (tail_within 2); [done..|]. cbn. intros c Hck.
  set_solver by lia.
Qed.
Lemma renumber_one_facts m id f : fact_id (renumber_one m id f) = id /\ refers (renumber_one m id f) = fix_id m <$> refers f.
Proof. by destruct f. Qed.
Lemma renumber_spec facts : forall m n dom, refers_within dom facts -> (0 <= n)%Z -> (n + Z.of_nat (length facts) <= u64_max)%Z ->
  (forall c, c ∈ dom -> exists v, m !! c = Some v /\ (1 <= v <= n)%Z) ->
  map fact_id (renumber_from m n facts) = seqZ (n + 1) (Z.of_nat (length facts)) /\ Forall refers_back (renumber_from m n facts).
Proof.
  induction facts as [|f facts IH]; intros m n dom Hw Hn Hb Hm; [done|]. cbn [renumber_from refers_within length] in *. destruct Hw as [Hf Hw].
  assert (u64_wrapping_add n 1 = n + 1)%Z as Hadd by (unfold u64_wrapping_add, u64_max in *; rewrite Z.mod_small; lia). rewrite Hadd.
  set (m0 := if is_command f then ∅ else m). set (dom0 := if is_command f then ∅ else dom) in *.
  assert (forall c, c ∈ dom0 -> exists v, m0 !! c = Some v /\ (1 <= v <= n)%Z) as Hm0.
  { unfold dom0, m0. destruct (is_command f); [intros c; set_solver|done]. }
  destruct (renumber_one_facts (<[fact_id f := (n + 1)%Z]> m0) (n + 1)%Z f) as [Hid Href].
  destruct (IH (<[fact_id f := (n + 1)%Z]> m0) (n + 1)%Z ({[fact_id f]} ∪ dom0) Hw) as [Hi Hr]; [lia|lia| |].
  { intros c. destruct (decide (c = fact_id f)) as [->|Hne]; [rewrite lookup_insert_eq; intros _; eexists; split; [done|lia]|].
    rewrite lookup_insert_ne by done. intros [?%elem_of_singleton|Hc]%elem_of_union; [done|].
    destruct (Hm0 c Hc) as (v & Hv & ?). exists v. split; [done|lia]. }
  cbn [map]. rewrite Hid, Hi. rewrite Nat2Z.inj_succ, (seqZ_cons (n + 1)) by lia. rewrite Z.pred_succ. replace (Z.succ (n + 1)) with (n + 1 + 1)%Z by lia.
  split; [done|]. constructor; [|done]. intros c. rewrite Href, Hid. destruct (refers f) as [c0|] eqn:E; [|done]. cbn. intros [= <-].
  destruct (Hf c0 eq_refl) as [Hc0 Hne]. unfold fix_id. rewrite lookup_insert_ne by done. destruct (Hm0 c0 Hc0) as (v & -> & ?). cbn. lia.
Qed.
Lemma structural_cause_refers f c : structural_cause f = Some c -> refers f = Some c.
Proof. by destruct f. Qed.
Lemma renumber_sound facts : refers_within ∅ facts -> (Z.of_nat (length facts) <= u64_max)%Z ->
  sound_facts (renumber_facts facts) /\ Forall refers_back (renumber_facts facts).
Proof.
  intros Hw Hb. destruct (renumber_spec facts ∅ 0%Z ∅ Hw ltac:(lia) ltac:(lia)) as [Hi Hr]; [by intros c ?|]. split; [|done].
  assert (length (renumber_facts facts) = length facts) as Hlen.
  { unfold renumber_facts. rewrite <- (length_map fact_id), Hi. unfold seqZ. rewrite length_fmap, length_seq. lia. }
  split; [by rewrite Hlen|]. eapply Forall_impl; [exact Hr|]. intros f Hf c Hc. by apply Hf, structural_cause_refers.
Qed.
Lemma max_steps_bound : (2 * Z.of_nat MAX_STEPS + 5 <= u64_max)%Z.
Proof. apply Z.leb_le. vm_compute. reflexivity. Qed.
Lemma batch_loop_spec rules instructions : forall acc, (forall dom more, (forall d, refers_within d more) -> refers_within dom (rr_facts acc ++ more)) ->
  exists r, batch_loop rules true acc instructions = Some r /\ (forall dom, refers_within dom (rr_facts r)) /\
    length (rr_facts r) <= length (rr_facts acc) + length instructions * (2 * MAX_STEPS + 3).
Proof.
  induction instructions as [|i instructions IH]; intros acc Hacc; cbn [batch_loop].
  { exists acc. split; [done|]. split; [|lia]. intros dom. rewrite <- (app_nil_r (rr_facts acc)). by apply Hacc. }
  destruct (run_once_total rules MAX_STEPS true (rr_final_payload acc) i) as (r & Hr & _). rewrite Hr.
  destruct (run_once_log MAX_STEPS max_steps_bound _ _ _ _ Hr) as [Hseg Hlen].
  edestruct (IH (mk_run_result (rr_facts acc ++ rr_facts r) (rr_final_payload r) (rr_steps acc + rr_steps r) (rr_io_rounds acc + rr_io_rounds r)
     (rr_matched acc || rr_matched r))) as (r' & Hr' & Hw & Hl).
  { intros dom more Hm. cbn. rewrite <- app_assoc. apply Hacc. intros d. apply refers_within_app; [by apply segment_within|done]. }
  exists r'. split; [exact Hr'|]. split; [done|]. cbn [rr_facts] in Hl. rewrite length_app in Hl. cbn [length]. lia.
Qed.

(** * Properties *)

(** A session's log is sound.  A session over any rules and instructions
    that fits the identifiers ends, and its log, after the segments are
    renumbered, has the identifiers 1, 2, 3 and on, and every cause and every
    answered request refers to an earlier fact; so the structural check of the
    command-line tool accepts it. *)
Lemma session_log_sound rules instructions :
  (Z.of_nat (length instructions) * (2 * Z.of_nat MAX_STEPS + 3) <= u64_max)%Z ->
  exists r, run_batch rules instructions true = Some r /\ map fact_id (rr_facts r) = seqZ 1 (Z.of_nat (length (rr_facts r))) /\
    Forall refers_back (rr_facts r) /\ verify_structural_invariants (rr_facts r) = [].
Proof.
  intros Hb. unfold run_batch.
  destruct (batch_loop_spec rules instructions (mk_run_result [] (JObject map_new) 0 0 false)) as (r & Hr & Hw & Hl); [by intros dom more|].
  rewrite Hr. cbn [rr_facts length] in Hl. destruct (renumber_sound (rr_facts r) (Hw ∅)) as [Hs Hrefs].
  { etransitivity; [|exact Hb]. lia. }
  eexists. split; [reflexivity|]. cbn [rr_facts]. split; [apply Hs|]. split; [done|]. by apply sound_verifies.
Qed.
Lemma session_log_sound_witness :
  exists r, run_batch [] [JNull; JNull] true = Some r /\ map fact_id (rr_facts r) = seqZ 1 (Z.of_nat (length (rr_facts r))) /\
    Forall refers_back (rr_facts r) /\ verify_structural_invariants (rr_facts r) = [].
Proof. apply session_log_sound. apply Z.leb_le. vm_compute. reflexivity. Defined.

(** Keeping the log does not change the run.  Every run ends within its
    bound of steps, and with and without facts it gives the same payload,
    steps, rounds and match; without, it keeps none. *)
Lemma log_does_not_matter rules max_steps payload instruction :
  exists r1 r2, run_once rules max_steps true payload instruction = Some r1 /\ run_once rules max_steps false payload instruction = Some r2 /\
    rr_final_payload r1 = rr_final_payload r2 /\ rr_steps r1 = rr_steps r2 /\ rr_io_rounds r1 = rr_io_rounds r2 /\
    rr_matched r1 = rr_matched r2 /\ rr_steps r1 <= max_steps.
Proof.
  destruct (run_once_total rules max_steps true payload instruction) as (r1 & Hr1 & Hs1).
  destruct (run_once_total rules max_steps false payload instruction) as (r2 & Hr2 & _).
  exists r1, r2. split; [done|]. split; [done|]. unfold run_once in Hr1, Hr2.
  assert (same_but_log (eval_start true payload instruction) (eval_start false payload instruction)) as H0 by by apply emit_same.
  pose proof (eval_loop_same rules max_steps true false (S (S max_steps)) _ _ H0) as Hl.
  destruct (eval_loop rules max_steps true _ _) as [e1|], (eval_loop rules max_steps false _ _) as [e2|]; try done.
  cbn in Hr1, Hr2. injection Hr1 as <-. injection Hr2 as <-. destruct Hl as (_ & Hp & Hs & Hi & _ & Hm & _). by split_and!.
Qed.

(** An answer for a type with a dot is put under one name; the reactor puts
    it on a path. *)
Lemma dotted_type_differs :
  inject_io_result (JObject map_new) "a.b" (JInteger 1) =
    object_from_pairs [("__io_results__", object_from_pairs [("a.b", JInteger 1)])] /\
  fst (Reactor.inject_io_result (JObject map_new) "a.b" (JInteger 1)) =
    object_from_pairs [("__io_results__", object_from_pairs [("a", object_from_pairs [("b", JInteger 1)])])].
Proof. by vm_compute. Qed.
