(* ===== verification/EvidWasm.v ===== *)
(** The verifier for the browser, [evid-verify-wasm/src/{handlers,abi,bindings}.rs]:
    the verdicts of the independent verifier as JSON, and the two routes by
    which a page gets them: bytes behind a length, and strings.  A [None] is a
    panic. *)

From S2P Require Import Prelude ObjectMap Value Error Path Domain Executor ExecSemantics Transition Fact Serde Hash Wal Signing EvidParse EvidVerify.

(** [serde_json::from_value] at the types [Vec<AnchorSeal>] and
    [BTreeMap<String, String>]: the readers [derive(Deserialize)] generates; an
    error is its message. *)
Class SealReader (N : Type) : Type := {
  seals_from_value : SValue N -> Result (list Seal.AnchorSeal) string;
  keys_from_value : SValue N -> Result (gmap string string) string;
}.

Section EvidWasm.
Context {N : Type} `{SerdeNumber N, SerdeText N, Blake3, SerdeNumberEq N, Ed25519, SealReader N}.

(** * The verdicts *)

(** [json!] of a string, a [usize] and an option. *)
Definition json_usize (n : nat) : SValue N := SNumber (num_from_u64 (Z.of_nat n)).
Definition json_option {A} (f : A -> SValue N) (o : option A) : SValue N := match o with Some a => f a | None => SNull end.
Definition json_error (e : string) : SValue N := s_object [("ok", SBool false); ("error", SString e)].

Definition step_name (s : ExportStep) : string :=
  match s with Link => "link" | Content => "content" | StableStep => "stable" | Tail => "tail" end.
Definition export_verdict (v : EntryVerdict) : SValue N :=
  s_object [("index", json_usize (ev_index v)); ("ok", SBool (ev_ok v));
            ("step", json_option (fun r => SString (step_name (er_step r))) (ev_reject v));
            ("reason", json_option (fun r => SString (er_reason r)) (ev_reject v))].
Definition handle_export (input : SValue N) : option (SValue N) :=
  match parse_export_doc input with
  | Err e => Some (json_error (reason e))
  | Ok doc =>
      let! report := verify_export (N := N) doc in
      Some (s_object [("ok", SBool (export_all_ok report));
                      ("verdicts", SArray (map export_verdict (xr_verdicts report)));
                      ("stopped_at", json_option json_usize (xr_stopped_at report));
                      ("tail_hash", SString (xr_tail_hash report));
                      ("last_hash_matches", SBool (xr_last_hash_matches report))])
  end.

Definition SHAPE : string := "WAL 输入应为数组或 {" +:+ quote "lines" +:+ ":[…]}".
(** The two forms of the input. *)
Definition wal_array (input : SValue N) : option (list (SValue N)) :=
  match input with
  | SArray a => Some a
  | SObject o => let! l := map_get o "lines" in s_as_array l
  | _ => None
  end.
Fixpoint parse_wal_lines (i : nat) (arr : list (SValue N)) : Result (list WalLine) string :=
  match arr with
  | [] => Ok []
  | lv :: arr =>
      match parse_wal_line lv with
      | Ok line => let? lines := parse_wal_lines (S i) arr in Ok (line :: lines)
      | Err e => Err ("lines[" +:+ pretty (N.of_nat i) +:+ "]: " +:+ reason e)
      end
  end.
Definition wal_verdict (v : WalLineVerdict) : SValue N :=
  s_object [("index", json_usize (wv_index v)); ("ok", SBool (wv_ok v));
            ("step", json_option (fun r => SNumber (num_from_u64 (wr_step r))) (wv_reject v));
            ("reason", json_option (fun r => SString (wr_reason r)) (wv_reject v))].
Definition handle_wal (input : SValue N) : option (SValue N) :=
  match wal_array input with
  | None => Some (json_error SHAPE)
  | Some arr =>
      match parse_wal_lines 0 arr with
      | Err e => Some (json_error e)
      | Ok lines =>
          let! report := verify_wal_lines (N := N) lines in
          Some (s_object [("ok", SBool (wal_all_ok report));
                          ("verdicts", SArray (map wal_verdict (wp_verdicts report)));
                          ("stopped_at", json_option json_usize (wp_stopped_at report));
                          ("tail_hash", SString (wp_tail_hash report))])
      end
  end.

Definition handle_seals (input : SValue N) : SValue N :=
  match s_as_object input with
  | None => json_error ("锚点输入应为对象 {" +:+ quote "seals" +:+ ":[…], " +:+ quote "keys" +:+ ":{…}}")
  | Some obj =>
      match map_get obj "seals" with
      | None => json_error ("缺字段 " +:+ quote "seals")
      | Some seals_v =>
          match seals_from_value seals_v with
          | Err e => json_error ("seals 解析失败: " +:+ e)
          | Ok seals =>
              match map_get obj "keys" with
              | None => json_error ("缺字段 " +:+ quote "keys" +:+ "（公钥表）")
              | Some keys_v =>
                  match keys_from_value keys_v with
                  | Err e => json_error ("keys 解析失败: " +:+ e)
                  | Ok keys =>
                      match Seal.verify_seal_chain seals keys with
                      | Ok _ => s_object [("ok", SBool true); ("seal_count", json_usize (length seals))]
                      | Err e => json_error (Seal.seal_error_display e)
                      end
                  end
              end
          end
      end
  end.

(** * Bytes *)

(** [u32::to_le_bytes] of [n as u32]. *)
Definition u32_le_bytes (n : Z) : string :=
  byte_string (map (fun i => Z.to_nat ((n mod 2 ^ 32) / 2 ^ (8 * i) mod 256)) [0; 1; 2; 3]%Z).
(** [Value::to_string]. *)
Definition json_to_string (v : SValue N) : option string := result_ok (serde_to_string v).
Definition package (verdict : SValue N) : option string :=
  let! body := json_to_string verdict in
  Some (u32_le_bytes (Z.of_nat (String.length body)) +:+ body).
Definition handler (face : Z) (v : SValue N) : option (SValue N) :=
  if (face =? 1)%Z then handle_export v else if (face =? 2)%Z then handle_wal v else Some (handle_seals v).
(** The input is what the pointer and the length give; [None] is a null
    pointer. *)
Definition dispatch (input : option string) (face : Z) : option string :=
  let! verdict :=
    match input with
    | None | Some EmptyString => Some (json_error "空输入")
    | Some bytes =>
        match serde_from_str bytes with
        | Ok v => handler face v
        | Err e => Some (json_error ("输入非法 JSON: " +:+ e))
        end
    end in
  package verdict.
Definition verify_export_wasm (input : option string) : option string := dispatch input 1.
Definition verify_wal_wasm (input : option string) : option string := dispatch input 2.
Definition verify_seals_wasm (input : option string) : option string := dispatch input 3.

(** * Strings *)

Definition run (input : string) (f : SValue N -> option (SValue N)) : option string :=
  match serde_from_str input with
  | Ok v => let! out := f v in json_to_string out
  | Err e => json_to_string (json_error ("输入非法 JSON: " +:+ e))
  end.
Definition verify_export_json (input : string) : option string := run input handle_export.
Definition verify_wal_json (input : string) : option string := run input handle_wal.
Definition verify_seals_json (input : string) : option string := run input (fun v => Some (handle_seals v)).
End EvidWasm.
