(* ===== verification/EvidWasmSpec.v ===== *)
(** Theorems about the verifier for the browser: the answer a page reads is the
    verdict of the independent verifier, by either route, and what makes it
    accept. *)

From S2P Require Import Prelude ObjectMap Value Error Path Domain Executor ExecSemantics Transition Fact Serde Hash Wal WalFile FactsLog FactsLogSpec Recovery Signing Anchor Auditor AuditorSpec AuditorStore EvidParse EvidVerify EvidSpec EvidWasm.

(** * Lengths *)

(** The page's reading of a package: a little-endian length, then the text. *)
Fixpoint le_value (s : string) : Z :=
  match s with EmptyString => 0 | String c s => (Z.of_nat (nat_of_ascii c) + 256 * le_value s)%Z end.
Lemma le_value_bytes n : (0 <= n < 2 ^ 32)%Z -> le_value (u32_le_bytes n) = n.
Proof.
  intros Hn. unfold u32_le_bytes. rewrite Z.mod_small by done. cbn [map byte_string fold_right le_value].
  assert (forall x, Z.of_nat (nat_of_ascii (ascii_of_nat (Z.to_nat (x mod 256)))) = (x mod 256)%Z) as He.
  { intros x. pose proof (Z.mod_pos_bound x 256 ltac:(lia)). rewrite nat_ascii_embedding by lia. lia. }
  rewrite !He. change (2 ^ (8 * 0))%Z with 1%Z. change (2 ^ (8 * 1))%Z with 256%Z.
  change (2 ^ (8 * 2))%Z with 65536%Z. change (2 ^ (8 * 3))%Z with 16777216%Z. change (2 ^ 32)%Z with 4294967296%Z in Hn.
  Z.div_mod_to_equations. lia.
Qed.
Lemma u32_le_bytes_length n : String.length (u32_le_bytes n) = 4.
Proof. reflexivity. Qed.
Lemma substring_app_skip a b n : String.substring (String.length a) n (a +:+ b) = String.substring 0 n b.
Proof. induction a as [|c a IH]; [done|]. exact IH. Qed.
Lemma substring_app_take a b : String.substring 0 (String.length a) (a +:+ b) = a.
Proof. induction a as [|c a IH]; [by destruct b|]. cbn. by rewrite IH. Qed.
Lemma substring_full s : String.substring 0 (String.length s) s = s.
Proof. pose proof (substring_app_take s "") as H. by rewrite str_app_nil_r in H. Qed.

Section EvidWasmSpec.
Context {N : Type} `{SerdeNumberLaws N, SerdeText N, !SerdeTextLaws N, Blake3, SerdeNumberEq N, !SerdeNumberEqLaws N, Ed25519, SealReader N}.
Implicit Types (v answer : SValue N).

Definition page_read (out : string) : option (SValue N) :=
  let len := le_value (String.substring 0 4 out) in
  result_ok (serde_from_str (String.substring 4 (Z.to_nat len) out)).
(** The answer is green. *)
Definition accepts answer : Prop := s_get answer "ok" = Some (SBool true).

Lemma package_read answer out :
  s_wf answer = true -> shallow answer = true -> package answer = Some out -> (Z.of_nat (String.length out) < 2 ^ 32)%Z -> page_read out = Some answer.
Proof.
  unfold package, json_to_string. intros Hwf Hd. destruct (serde_to_string answer) as [body|] eqn:Hb; [|done]. cbn [result_ok]. intros <-%(inj Some).
  rewrite str_app_length, u32_le_bytes_length. intros Hlen. unfold page_read.
  pose proof (substring_app_take (u32_le_bytes (Z.of_nat (String.length body))) body) as Ht. rewrite u32_le_bytes_length in Ht.
  rewrite Ht, le_value_bytes, Nat2Z.id by lia.
  pose proof (substring_app_skip (u32_le_bytes (Z.of_nat (String.length body))) body) as Hs. rewrite u32_le_bytes_length in Hs.
  by rewrite Hs, substring_full, (from_to_string _ _ Hwf Hd Hb).
Qed.

(** * The numbers of an answer *)

Lemma json_usize_wf n : is_u64 (Z.of_nat n) = true -> s_wf (json_usize (N := N) n) = true.
Proof. intros Hn. cbn. unfold is_integer_number. rewrite as_u64_from_u64 by done. by destruct (num_as_i64 _). Qed.
Lemma json_option_wf {A} (f : A -> SValue N) o : (forall a, o = Some a -> s_wf (f a) = true) -> s_wf (json_option f o) = true.
Proof. destruct o; [intros Hf; by apply Hf|done]. Qed.
Lemma forallb_map_wf {A} (f : A -> SValue N) l : Forall (fun a => s_wf (f a) = true) l -> forallb s_wf (map f l) = true.
Proof. induction 1 as [|a l Ha _ IH]; [done|]. cbn. by rewrite Ha, IH. Qed.
Lemma json_error_wf e : s_wf (json_error (N := N) e) = true.
Proof. by apply s_object_wf. Qed.

Lemma u64_below n m : (n < m)%nat -> is_u64 (Z.of_nat m) = true -> is_u64 (Z.of_nat n) = true.
Proof. rewrite !is_u64_spec. lia. Qed.
(** The places of the verdicts, and of the stop, are those of the items. *)
Lemma verify_entries_indices doc index prev vs entries r :
  verify_entries (N := N) doc index prev vs entries = Some r ->
  Forall (fun x => (ev_index x < index + length entries)%nat) vs ->
  Forall (fun x => (ev_index x < index + length entries)%nat) (xr_verdicts r) /\
  (forall k, xr_stopped_at r = Some k -> (k < index + length entries)%nat).
Proof.
  revert index prev vs. induction entries as [|e entries IH]; intros index prev vs; cbn [verify_entries length].
  { by intros [= <-] Hvs. }
  destruct (check_entry prev e) as [[u|rej]|]; [| |done].
  - intros Hr Hvs. rewrite <- Nat.add_succ_comm in *. apply (IH _ _ _ Hr). apply Forall_app. split; [done|]. constructor; [|done].
    cbn. lia.
  - intros [= <-] Hvs. cbn. split; [|intros k [= <-]; lia]. apply Forall_app. split; [done|]. constructor; [|done]. cbn. lia.
Qed.
Lemma check_line_step prev l rej : check_line (N := N) prev l = Some (Err rej) -> is_u64 (wr_step rej) = true.
Proof. unfold check_line. repeat case_match; try done; by intros [= <-]. Qed.
Lemma verify_lines_indices index prev vs lines r :
  verify_lines (N := N) index prev vs lines = Some r ->
  let fits x := (wv_index x < index + length lines)%nat /\ (forall rej, wv_reject x = Some rej -> is_u64 (wr_step rej) = true) in
  Forall fits vs -> Forall fits (wp_verdicts r) /\ (forall k, wp_stopped_at r = Some k -> (k < index + length lines)%nat).
Proof.
  cbn zeta. revert index prev vs. induction lines as [|l lines IH]; intros index prev vs; cbn [verify_lines length].
  { by intros [= <-] Hvs. }
  destruct (check_line prev l) as [[u|rej]|] eqn:Hc; [| |done].
  - intros Hr Hvs. rewrite <- Nat.add_succ_comm in *. apply (IH _ _ _ Hr). apply Forall_app. split; [done|]. constructor; [|done].
    cbn. split; [lia|done].
  - intros [= <-] Hvs. cbn. split; [|intros k [= <-]; lia]. apply Forall_app. split; [done|]. constructor; [|done].
    cbn. split; [lia|]. intros rej' [= <-]. by eapply check_line_step.
Qed.

(** Lists in memory have fewer than 2^64 elements; a document says its own
    number of entries, which is an [u64]. *)
Definition counts_fit (face : Z) v : Prop :=
  if (face =? 1)%Z then True
  else if (face =? 2)%Z then forall arr, wal_array v = Some arr -> is_u64 (vec_len arr) = true
  else forall sv seals, s_get v "seals" = Some sv -> seals_from_value sv = Ok seals -> is_u64 (vec_len seals) = true.

Lemma record_u64_range (m : ObjectMap (SValue N)) key ctx u : record_u64 m key ctx = Ok u -> is_u64 u = true.
Proof.
  unfold record_u64. destruct (req m key ctx) as [v|]; [|done]. intros Hu%ok_or_Ok.
  destruct v as [| |n| | |]; try done. by eapply as_u64_range.
Qed.
Lemma parsed_count v doc : parse_export_doc (N := N) v = Ok doc -> is_u64 (vec_len (ed_entries doc)) = true.
Proof.
  unfold parse_export_doc. destruct (obj_of v _) as [outer|]; [|done].
  destruct (match map_get outer "export" with Some _ => _ | None => _ end) as [obj|]; [|done].
  destruct (req_str obj "version" _) as [ver|]; [|done]. destruct (negb _); [done|].
  destruct (record_u64 obj _ _) as [count|] eqn:Hc; [|done]. apply record_u64_range in Hc.
  destruct (req_str obj "last_hash" _) as [lh|]; [|done].
  destruct (req obj "entries" _) as [raw|]; [|done]. destruct (ok_or _ _) as [arr|]; [|done].
  destruct (parse_export_entries 0 arr) as [entries|]; [|done].
  destruct (Z.eqb_spec (vec_len entries) count) as [<-|]; [|done]. by intros [= <-].
Qed.
Lemma parse_wal_lines_Ok i arr lines :
  parse_wal_lines (N := N) i arr = Ok lines <-> Forall2 (fun x l => parse_wal_line x = Ok l) arr lines.
Proof.
  revert i lines. induction arr as [|x arr IH]; intros i lines; cbn [parse_wal_lines].
  { split; [by intros [= <-]|by intros Hl; inv Hl]. }
  destruct (parse_wal_line x) as [l|] eqn:Hx; [|by split; [done|intros Hl; inv Hl; congruence]].
  specialize (IH (S i)). destruct (parse_wal_lines (S i) arr) as [ls|]; split; try done.
  - intros [= <-]. constructor; [done|]. by apply IH.
  - intros Hl. inversion Hl as [|? l' ? ls' Hx' Hls]; subst. apply IH in Hls. congruence.
  - intros Hl. inversion Hl as [|? l' ? ls' Hx' Hls]; subst. apply IH in Hls. congruence.
Qed.
Lemma export_verdict_wf x : is_u64 (Z.of_nat (ev_index x)) = true -> s_wf (export_verdict (N := N) x) = true.
Proof. intros Hx. apply s_object_wf. cbn [forallb snd]. rewrite json_usize_wf by done. by rewrite !json_option_wf. Qed.
Lemma wal_verdict_wf x : is_u64 (Z.of_nat (wv_index x)) = true -> (forall rej, wv_reject x = Some rej -> is_u64 (wr_step rej) = true) ->
  s_wf (wal_verdict (N := N) x) = true.
Proof.
  intros Hx Hs. apply s_object_wf. cbn [forallb snd]. rewrite json_usize_wf by done. rewrite !json_option_wf; [done|done|].
  intros rej Hrej. specialize (Hs rej Hrej). cbn. unfold is_integer_number. rewrite as_u64_from_u64 by done. by destruct (num_as_i64 _).
Qed.
Lemma handler_wf face v answer : counts_fit face v -> handler face v = Some answer -> s_wf answer = true.
Proof.
  unfold counts_fit, handler. destruct (face =? 1)%Z; [|destruct (face =? 2)%Z].
  - intros _. unfold handle_export. destruct (parse_export_doc v) as [doc|] eqn:Hp; [|intros [= <-]; apply json_error_wf].
    apply parsed_count in Hp. destruct (verify_export doc) as [r|] eqn:Hr; [|done]. intros [= <-].
    destruct (verify_entries_indices _ _ _ _ _ _ Hr ltac:(done)) as [Hv Hk]. cbn in Hv, Hk.
    apply s_object_wf. cbn [forallb snd andb s_wf]. rewrite json_option_wf, !andb_true_r.
    2:{ intros k Hkk. apply json_usize_wf. by eapply u64_below; [apply Hk|]. }
    apply forallb_map_wf. eapply Forall_impl; [exact Hv|]. cbn beta. intros x Hx. apply export_verdict_wf. by eapply u64_below.
  - intros Hfit. unfold handle_wal. destruct (wal_array v) as [arr|]; [|intros [= <-]; apply json_error_wf].
    specialize (Hfit arr eq_refl). destruct (parse_wal_lines 0 arr) as [lines|] eqn:Hp; [|intros [= <-]; apply json_error_wf].
    apply parse_wal_lines_Ok, Forall2_length in Hp. unfold vec_len in Hfit. rewrite Hp in Hfit.
    destruct (verify_wal_lines lines) as [r|] eqn:Hr; [|done]. intros [= <-].
    destruct (verify_lines_indices _ _ _ _ _ Hr ltac:(done)) as [Hv Hk]. cbn in Hv, Hk.
    apply s_object_wf. cbn [forallb snd andb s_wf]. rewrite json_option_wf, !andb_true_r.
    2:{ intros k Hkk. apply json_usize_wf. by eapply u64_below; [apply Hk|]. }
    apply forallb_map_wf. eapply Forall_impl; [exact Hv|]. cbn beta. intros x [Hx Hs]. apply wal_verdict_wf; [|done]. by eapply u64_below.
  - intros Hfit [= <-]. unfold handle_seals. destruct v as [| | | | |obj]; cbn [s_as_object]; try apply json_error_wf.
    destruct (map_get obj "seals") as [sv|] eqn:Hsv; [|apply json_error_wf].
    destruct (seals_from_value sv) as [seals|] eqn:Hse; [|apply json_error_wf]. specialize (Hfit sv seals Hsv Hse).
    destruct (map_get obj "keys"); [|apply json_error_wf]. destruct (keys_from_value _); [|apply json_error_wf].
    destruct (Seal.verify_seal_chain seals _); [|apply json_error_wf]. apply s_object_wf. cbn [forallb snd].
    by rewrite json_usize_wf.
Qed.

(** * What is accepted *)

(** A face accepts what the verifier's specification does. *)
Definition face_accepts (face : Z) v : Prop :=
  if (face =? 1)%Z then
    exists doc, parse_export_doc v = Ok doc /\ good_chain (entry_good (N := N)) entry_next GENESIS (ed_entries doc) (ed_last_hash doc)
  else if (face =? 2)%Z then
    exists arr lines tail, wal_array v = Some arr /\ Forall2 (fun x l => parse_wal_line x = Ok l) arr lines /\
      good_chain (line_good (N := N)) line_next GENESIS lines tail
  else
    exists sv kv seals keys, s_get v "seals" = Some sv /\ s_get v "keys" = Some kv /\ seals_from_value sv = Ok seals /\
      keys_from_value kv = Ok keys /\ Seal.verify_seal_chain seals keys = Ok tt.
Lemma accepts_object pairs b : assoc_last pairs "ok" = Some (SBool b) -> accepts (s_object (N := N) pairs) <-> b = true.
Proof. intros Hb. unfold accepts, s_object, s_get. rewrite map_get_from, Hb. naive_solver. Qed.
Lemma error_refused e : ~ accepts (json_error e).
Proof. unfold json_error. by rewrite (accepts_object _ false). Qed.
(** An answer nests three deep at most, whatever the input. *)
Lemma json_error_depth e : s_depth (json_error (N := N) e) <= 3.
Proof. apply s_depth_s_object. repeat (apply List.Forall_cons; [cbn; lia|]). constructor. Qed.
Lemma json_option_depth {A} (f : A -> SValue N) o k : (forall a, s_depth (f a) <= k) -> s_depth (json_option f o) <= k.
Proof. intros Hf. destruct o; [apply Hf|cbn; lia]. Qed.
Lemma verdicts_depth {A} (f : A -> SValue N) l : (forall a, s_depth (f a) <= 1) -> s_depth (SArray (map f l)) <= 2.
Proof. intros Hf. apply s_depth_array, List.Forall_forall. intros v (a & <- & _)%in_map_iff. apply Hf. Qed.
Lemma handler_depth face v answer : handler face v = Some answer -> s_depth answer <= 3.
Proof.
  assert (forall pairs : list (string * SValue N), Forall (fun kv => s_depth (snd kv) <= 2) pairs -> s_depth (s_object pairs) <= 3)
    as Hobj by (intros pairs; apply s_depth_s_object).
  unfold handler. destruct (face =? 1)%Z; [|destruct (face =? 2)%Z].
  - unfold handle_export. destruct (parse_export_doc v); [|intros [= <-]; apply json_error_depth].
    destruct (verify_export _); [|done]. intros [= <-]. apply Hobj.
    repeat (apply List.Forall_cons; cbn [snd]); try apply List.Forall_nil; try (cbn; lia); try (apply json_option_depth; cbn; lia).
    apply verdicts_depth. intros x. apply s_depth_s_object.
    repeat (apply List.Forall_cons; cbn [snd]); try apply List.Forall_nil; try (cbn; lia); by apply json_option_depth.
  - unfold handle_wal. destruct (wal_array v); [|intros [= <-]; apply json_error_depth].
    destruct (parse_wal_lines _ _); [|intros [= <-]; apply json_error_depth].
    destruct (verify_wal_lines _); [|done]. intros [= <-]. apply Hobj.
    repeat (apply List.Forall_cons; cbn [snd]); try apply List.Forall_nil; try (cbn; lia); try (apply json_option_depth; cbn; lia).
    apply verdicts_depth. intros x. apply s_depth_s_object.
    repeat (apply List.Forall_cons; cbn [snd]); try apply List.Forall_nil; try (cbn; lia); by apply json_option_depth.
  - intros [= <-]. unfold handle_seals. repeat case_match; try apply json_error_depth. apply Hobj.
    repeat (apply List.Forall_cons; cbn [snd]); try apply List.Forall_nil; cbn; lia.
Qed.
Lemma handler_shallow face v answer : handler face v = Some answer -> shallow answer = true.
Proof. intros Ha. apply (shallow_le _ 3); [by eapply handler_depth|unfold recursion_limit; lia]. Qed.
Lemma handler_exact face v answer : handler face v = Some answer -> accepts answer <-> face_accepts face v.
Proof.
  unfold handler, face_accepts. destruct (face =? 1)%Z; [|destruct (face =? 2)%Z].
  - unfold handle_export. destruct (parse_export_doc v) as [doc|e] eqn:Hp.
    2:{ intros [= <-]. split; [by intros []%error_refused|by intros (? & [=] & _)]. }
    apply parsed_doc in Hp as [Hwf%Forall_wf _].
    destruct (verify_export doc) as [r|] eqn:Hr; [|done]. intros [= <-]. rewrite accepts_object by done.
    split.
    + intros Hok. exists doc. split; [done|]. apply export_accepts; [done|]. by exists r.
    + intros (doc' & [= <-] & Hg). apply export_accepts in Hg as (r' & Hr' & Hok); [|done]. congruence.
  - unfold handle_wal. destruct (wal_array v) as [arr|].
    2:{ intros [= <-]. split; [by intros []%error_refused|by intros (? & ? & ? & [=] & _)]. }
    destruct (parse_wal_lines 0 arr) as [lines|e] eqn:Hp.
    2:{ intros [= <-]. split; [by intros []%error_refused|]. intros (arr' & lines & tail & [= <-] & Hl & _).
        apply (parse_wal_lines_Ok 0) in Hl. congruence. }
    apply parse_wal_lines_Ok in Hp. destruct (verify_wal_lines lines) as [r|] eqn:Hr; [|done]. intros [= <-].
    rewrite accepts_object by done. unfold wal_all_ok. destruct (verify_lines_spec _ _ _ _ _ Hr) as (k & Hk & Hv). rewrite Hk. split.
    + destruct k; [done|]. intros _. by exists arr, lines, (wp_tail_hash r).
    + intros (arr' & lines' & tail & [= <-] & Hl & Hg).
      assert (lines' = lines) as ->.
      { clear -Hp Hl. revert lines' Hl. induction Hp as [|x l arr lines Hx _ IH]; intros lines' Hl; inv Hl; [done|]. f_equal; [congruence|by apply IH]. }
      destruct (verify_lines_good 0 GENESIS [] lines tail Hg) as (r' & Hr' & Hs & _). unfold verify_wal_lines in Hr.
      rewrite Hr in Hr'. injection Hr' as <-. rewrite Hk in Hs. by destruct k.
  - intros [= <-]. unfold handle_seals. destruct v as [| | | | |obj]; cbn [s_as_object s_get];
      try (split; [by intros []%error_refused|by intros (? & ? & ? & ? & [=] & _)]).
    destruct (map_get obj "seals") as [sv|]; [|split; [by intros []%error_refused|by intros (? & ? & ? & ? & [=] & _)]].
    destruct (seals_from_value sv) as [seals|] eqn:Hs;
      [|split; [by intros []%error_refused|intros (? & ? & ? & ? & [= <-] & _ & ? & _); congruence]].
    destruct (map_get obj "keys") as [kv|]; [|split; [by intros []%error_refused|by intros (? & ? & ? & ? & _ & [=] & _)]].
    destruct (keys_from_value kv) as [keys|] eqn:Hk;
      [|split; [by intros []%error_refused|intros (? & ? & ? & ? & _ & [= <-] & _ & ? & _); congruence]].
    destruct (Seal.verify_seal_chain seals keys) as [[]|e] eqn:Hv.
    + rewrite accepts_object by done. split; [|done]. intros _. by exists sv, kv, seals, keys.
    + split; [by intros []%error_refused|]. intros (? & ? & ? & ? & [= <-] & [= <-] & ? & ? & ?). congruence.
Qed.
End EvidWasmSpec.

(** C17: the page shows the verifier's verdict, by both routes.  When the input
    is JSON and the lists in it have a length, the package the page gets back,
    below the size of its memory, holds an answer, the string route gives the
    text of the same answer, and the answer is green precisely for: an export
    that is read and is a chain of its facts up to its [last_hash]; lines of a
    log that are all read and chain from the start; seals under known keys
    whose chain the verifier accepts. *)
Theorem page_verdict_exact {N : Type}
    `{SerdeNumberLaws N, SerdeText N, !SerdeTextLaws N, Blake3, SerdeNumberEq N, !SerdeNumberEqLaws N, Ed25519, SealReader N}
    (bytes : string) (face : Z) (v : SValue N) (out : string) :
  bytes <> "" -> serde_from_str bytes = Ok v -> counts_fit face v ->
  dispatch (N := N) (Some bytes) face = Some out -> (Z.of_nat (String.length out) < 2 ^ 32)%Z ->
  exists answer text,
    page_read out = Some answer /\ run bytes (handler (N := N) face) = Some text /\ serde_from_str text = Ok answer /\
    (accepts answer <-> face_accepts face v).
Proof.
  intros Hne Hv Hfit Hd Hlen. unfold dispatch in Hd. destruct bytes as [|c bytes]; [done|]. rewrite Hv in Hd.
  destruct (handler face v) as [answer|] eqn:Ha; [|done]. pose proof (handler_wf face v answer Hfit Ha) as Hwf.
  pose proof (handler_shallow face v answer Ha) as Hsh.
  pose proof (package_read _ _ Hwf Hsh Hd Hlen) as Hread. unfold package in Hd.
  destruct (json_to_string answer) as [text|] eqn:Ht; [|done]. exists answer, text. split_and!; [done| | |by apply handler_exact].
  - unfold run. by rewrite Hv, Ha.
  - unfold json_to_string in Ht. destruct (serde_to_string answer) as [t|] eqn:Hs; [|done]. injection Ht as ->. by eapply from_to_string.
Qed.

(** * Examples *)

Module WasmDemo.
Import ZNumber ZText EvidDemo.
(** No seals. *)
#[export] Instance seal_reader : SealReader Z := {|
  seals_from_value := fun v => match v with SArray [] => Ok [] | _ => Err "expected a sequence" end;
  keys_from_value := fun v => match v with SObject [] => Ok ∅ | _ => Err "expected a map" end;
|}.
Definition text_of_export : string := default "" (json_to_string (export_of EvidDemo.facts)).
End WasmDemo.
Import ZNumber ZText EvidDemo WasmDemo.
Lemma page_verdict_exact_witness :
  exists out answer, verify_export_wasm (N := Z) (H3 := ZSign.ed) (Some text_of_export) = Some out /\
    page_read (N := Z) out = Some answer /\ accepts answer.
Proof.
  assert (match verify_export_wasm (N := Z) (H3 := ZSign.ed) (Some text_of_export) with
          | Some out => (Z.of_nat (String.length out) <? 2 ^ 32)%Z | None => false end = true) as Hlen by (vm_compute; reflexivity).
  destruct (verify_export_wasm (Some text_of_export)) as [out|] eqn:Hout; [|discriminate Hlen].
  destruct (page_verdict_exact (N := Z) (H4 := ZSign.ed) text_of_export 1 (export_of EvidDemo.facts) out) as (answer & text & Hread & _ & _ & Hiff).
  - assert (str_is_empty text_of_export = false) as He by (vm_compute; reflexivity). intros Hx. rewrite Hx in He. discriminate He.
  - vm_compute. reflexivity.
  - exact I.
  - exact Hout.
  - apply Z.ltb_lt. exact Hlen.
  - exists out, answer. split; [reflexivity|]. split; [exact Hread|]. apply Hiff. exists EvidDemo.doc.
    split; [vm_compute; reflexivity|]. vm_compute. repeat split; reflexivity.
Defined.

(** The header of the handlers says that no input makes them panic; an export
    whose claimed hash is cut inside a character does. *)
Definition odd_export : SValue Z :=
  s_object [("version", SString "1.0"); ("entry_count", SNumber 1%Z); ("last_hash", SString "");
    ("entries", SArray [s_object [("fact", fact_to_json (Stable 1%Z 0)); ("content_hash", SString ""); ("fact_id", SNumber 1%Z);
      ("fact_type", SString "Stable"); ("fact_json_stable", SString ""); ("prev_hash", SString "abcdefghijklmnoéé")]])].
Lemma handle_export_can_panic : handle_export odd_export = None.
Proof. vm_compute. reflexivity. Qed.
(** The empty log, and no seals under no keys, are green. *)
Lemma empty_log_accepted : exists answer, handle_wal (N := Z) (SArray []) = Some answer /\ accepts answer.
Proof. eexists. split; [vm_compute; reflexivity|]. reflexivity. Qed.
(** The byte route answers the empty input; the string route leaves it to the
    parser. *)
Lemma empty_input_answered {N} `{SerdeNumberLaws N, SerdeText N, !SerdeTextLaws N, Blake3, SerdeNumberEq N, Ed25519, SealReader N} face :
  exists out, dispatch (N := N) (Some "") face = Some out /\ dispatch (N := N) None face = Some out.
Proof.
  unfold dispatch, package, json_to_string. destruct (to_string_total (json_error (N := N) "空输入")) as [s ->]. by eexists.
Qed.
