(* ===== verification/BuildGateCrates.v ===== *)
(** The compile-time gates of the other crates,
    [evorule-{reactor,governance,cli}/build.rs].  Their scanners of lines, test
    modules and application-level names are copies of those of the kernel crate,
    which [BuildGate] models; here are their own lists of patterns, their
    exemptions, the search of the reactor for wildcard arms, and their main
    functions. *)

From S2P Require Import Prelude Fact Serde Hash Wal WalFile Cli BuildGate.

(** * What the three scans share *)

(** A line is matched without its block comments, as it is and without its
    white space. *)
Definition src_hit (needle src : string) : bool :=
  let stripped := strip_inline_block_comments src in
  (bare_word_hit stripped needle || bare_word_hit (squeeze_ws stripped) needle)%bool.
(** [Path::file_name]. *)
Fixpoint last_part (last s : string) : string :=
  match s with
  | EmptyString => last
  | String c s => if Ascii.eqb c "/" then last_part s s else last_part last s
  end.
Definition file_name (path : string) : string := last_part path path.
Definition lines_violations (path label : string) (hit : string -> bool) (content : string) : list Violation :=
  map (fun l => (path, label, violation_text (fst l) (trim (snd l))))
    (List.filter (fun l => hit (snd l)) (numbered 1 (str_lines content))).
(** [collect_rs_files] of the reactor and of the governance crate: in the
    order of the listing. *)
Fixpoint collect_rs_files_unsorted (fuel : nat) (dir : string) (node : FsNode) : list (string * option string) :=
  match fuel, node with
  | S fuel, FsDir (Some entries) =>
      concat (map (fun e =>
        let path := dir +:+ "/" +:+ fst e in
        match snd e with
        | FsDir _ => collect_rs_files_unsorted fuel path (snd e)
        | FsFile content => if String.eqb (extension (mk_path "" (fst e))) "rs" then [(path, content)] else []
        end) entries)
  | _, _ => []
  end.
(** The scan stops at a file that cannot be read. *)
Fixpoint scan_all (scan : string -> string -> list Violation) (files : list (string * option string)) : option (list Violation) :=
  match files with
  | [] => Some []
  | (path, Some raw) :: rest => let! more := scan_all scan rest in Some (scan path raw ++ more)
  | (_, None) :: _ => None
  end.
(** What a failed or a passed scan exits with. *)
Definition scan_exit (violations : option (list Violation)) : ExitCode :=
  match violations with Some [] => SUCCESS | _ => FAILURE end.
(** The steps before the scan: the application-level names, the valve and the
    environment. *)
Definition before_scan (env : string -> option string) (src : option FsNode) (depth : nat) (scan : FsNode -> ExitCode) : ExitCode :=
  let named := match src with Some node => collect_rs_files depth "src" node | None => [] end in
  if negb (is_some (env "CARGO_MANIFEST_DIR")) then FAILURE
  else
    match detect_strategy_patterns named with
    | _ :: _ => FAILURE
    | [] =>
        if skip_requested env "EVORULE_SKIP_GATE" then SUCCESS
        else match src with None => FAILURE | Some node => scan node end
    end.

(** * The reactor *)

Definition reactor_FORBIDDEN : list (string * string) :=
  [("G8-conditional", quoted "conditional"); ("G8-while_loop", quoted "while_loop"); ("G8-sequence", quoted "sequence");
   ("F11-debug_assert", "debug_assert!"); ("F11-unwrap", ".unwrap("); ("F11-expect", ".expect("); ("F11-panic", "panic!(");
   ("S5.2-math_rule", quoted "math_rule"); ("S5.2-physics_rule", quoted "physics_rule"); ("S5.2-summarize", quoted "summarize");
   ("S5.2-admin", quoted "admin"); ("S5.2-teacher", quoted "teacher"); ("S5.2-call_external", quoted "call_external");
   ("S5.2-call_service", quoted "call_service"); ("T10-unsafe-keyword", "unsafe")].
Definition T10_FILE_EXEMPT : list string := ["ffi.rs"; "facts_log.rs"].
Definition T15_WHITELIST : list string :=
  ["_ => return"; "_ => None"; "_ => false"; "_ => true"; "_ => unreachable!"; "_ => continue"; "_ => break";
   "_ => Default::default()"; "_ => Vec::new()"; "_ => Ok(None)"; "_ => Ok(false)"; "_ => Ok(true)"; "_ => Ok(())"; "_ => Err("].

Definition TAB : ascii := "009".
Definition is_blank (c : ascii) : bool := (Ascii.eqb c " " || Ascii.eqb c TAB)%bool.
(** [has_wildcard_arrow]; [&&] binds tighter than [||]. *)
Fixpoint has_wildcard_arrow (line : string) : bool :=
  match line with
  | String a (String b _ as rest) =>
      ((((Ascii.eqb a "_" && Ascii.eqb b " ") || Ascii.eqb b TAB) && String.prefix "=>" (snd (skip_while is_blank rest)))
       || has_wildcard_arrow rest)%bool
  | _ => false
  end.
Definition scan_window : nat := 50.
(** The line opens the match of a fact; lower case of a letter outside ASCII is
    none of those of the word. *)
Definition fact_match_line (line : string) : bool :=
  (negb (String.prefix "//" (trim_start line)) && contains "match" line && contains "fact" (str_lower line))%bool.
Definition wildcard_arm (line : string) : bool :=
  let inner := trim_start line in
  (negb (String.prefix "//" inner) && has_wildcard_arrow inner && negb (existsb (fun w => contains w inner) T15_WHITELIST))%bool.
(** From each match, the arms in the window after it; [n] is the number of the
    first line. *)
Fixpoint check_t15_from (path : string) (n : nat) (lines : list string) : list Violation :=
  match lines with
  | [] => []
  | line :: rest =>
      (if fact_match_line line then
         map (fun l => (path, "T15-fact-match-wildcard", violation_text (fst l) (trim (snd l))))
           (List.filter (fun l => wildcard_arm (snd l)) (numbered n (firstn scan_window lines)))
       else []) ++ check_t15_from path (S n) rest
  end.
Definition check_t15_fact_match_wildcard (stripped_content path : string) : list Violation :=
  check_t15_from path 1 (str_lines stripped_content).

(** One line; [None] passes it. *)
Definition reactor_scan_src (fname label line : string) : option string :=
  let trimmed := trim_start line in
  let src :=
    if (String.prefix "T10" label && (String.prefix "#[" trimmed || String.prefix "#!" trimmed))%bool then
      match strip_leading_attr trimmed with
      | Some rest => if str_is_empty (trim rest) then None else Some rest
      | None => Some trimmed
      end
    else Some line in
  let! src := src in
  if String.prefix "//" trimmed then None
  else if ((String.prefix "S5.2" label || String.prefix "G8" label) && String.eqb fname "fact.rs")%bool then None
  else Some src.
Definition reactor_line_hit (fname label needle line : string) : bool :=
  match reactor_scan_src fname label line with Some src => src_hit needle src | None => false end.
Definition reactor_pattern_violations (path raw : string) (pattern : string * string) : list Violation :=
  let '(label, needle) := pattern in
  let fname := file_name path in
  if (String.prefix "T10" label && bool_decide (fname ∈ T10_FILE_EXEMPT))%bool then []
  else lines_violations path label (reactor_line_hit fname label needle) (strip_test_mod raw).
Definition reactor_scan_file (path raw : string) : list Violation :=
  concat (map (reactor_pattern_violations path raw) reactor_FORBIDDEN) ++ check_t15_fact_match_wildcard (strip_test_mod raw) path.
Definition reactor_gate (env : string -> option string) (src : option FsNode) (depth : nat) : ExitCode :=
  before_scan env src depth (fun node => scan_exit (scan_all reactor_scan_file (collect_rs_files_unsorted depth "src" node))).

(** * The governance crate *)

Definition governance_FORBIDDEN : list (string * string) :=
  [("G8-conditional", quoted "conditional"); ("G8-while_loop", quoted "while_loop"); ("G8-sequence", quoted "sequence");
   ("F11-debug_assert", "debug_assert!"); ("F11-unwrap", ".unwrap("); ("F11-expect", ".expect("); ("F11-panic", "panic!(");
   ("S5.2-math_rule", quoted "math_rule"); ("S5.2-physics_rule", quoted "physics_rule"); ("S5.2-summarize", quoted "summarize");
   ("S5.2-admin", quoted "admin"); ("S5.2-teacher", quoted "teacher"); ("S5.2-call_external", quoted "call_external");
   ("S5.2-call_service", quoted "call_service")].
Definition governance_line_hit (fname label needle line : string) : bool :=
  (negb (String.prefix "//" (trim_start line))
   && negb ((String.prefix "S5.2" label || String.prefix "G8" label) && String.eqb fname "fact.rs")
   && src_hit needle line)%bool.
Definition governance_scan_file (path raw : string) : list Violation :=
  concat (map (fun p => lines_violations path (fst p) (governance_line_hit (file_name path) (fst p) (snd p)) (strip_test_mod raw))
    governance_FORBIDDEN).
Definition governance_gate (env : string -> option string) (src : option FsNode) (depth : nat) : ExitCode :=
  before_scan env src depth (fun node => scan_exit (scan_all governance_scan_file (collect_rs_files_unsorted depth "src" node))).

(** * The command-line tool *)

Definition cli_FORBIDDEN : list (string * string) :=
  [("G8-conditional", quoted "conditional"); ("G8-while_loop", quoted "while_loop"); ("G8-sequence", quoted "sequence");
   ("F11-debug_assert", "debug_assert!"); ("F11-unwrap", ".unwrap("); ("F11-expect", ".expect("); ("F11-panic", "panic!(")].
Definition cli_line_hit (needle line : string) : bool :=
  (negb (String.prefix "//" (trim_start line)) && src_hit needle line)%bool.
Definition cli_scan_file (path raw : string) : list Violation :=
  concat (map (fun p => lines_violations path (fst p) (cli_line_hit (snd p)) (strip_test_mod raw)) cli_FORBIDDEN).
Definition cli_gate (env : string -> option string) (src : option FsNode) (depth : nat) : ExitCode :=
  before_scan env src depth (fun node =>
    match collect_rs_files depth "src" node with
    | [] => FAILURE
    | files => scan_exit (scan_all cli_scan_file files)
    end).
