(* ===== verification/BuildGateCratesSpec.v ===== *)
(** Theorems about the gates of the other crates: which arms the reactor's
    search finds, and what the crates that build are free of. *)

From S2P Require Import Prelude Fact Serde Hash Wal WalFile Cli BuildGate BuildGateSpec BuildGateCrates.

(** * Wildcard arms *)

Lemma prefix_spec p s : String.prefix p s = true <-> exists post, s = p +:+ post.
Proof.
  revert s. induction p as [|c p IH]; intros s; cbn [String.prefix].
  { split; [intros _; by exists s|by destruct s]. }
  destruct s as [|d s]; [split; [done|by intros (post & [=])]|].
  change (String.prefix (String c p) (String d s)) with (if ascii_dec c d then String.prefix p s else false).
  destruct (ascii_dec c d) as [->|Hne].
  - rewrite IH. split; intros (post & Hp); exists post; [by rewrite Hp|by injection Hp].
  - split; [done|]. intros (post & [=]). congruence.
Qed.
Definition blanks (s : string) : Prop := str_all is_blank s = true.
Lemma skip_blanks s post : blanks s -> (match post with String c _ => is_blank c = false | EmptyString => True end) ->
  skip_while is_blank (s +:+ post) = (s, post).
Proof.
  unfold blanks. induction s as [|c s IH]; cbn [str_all String.append].
  - destruct post as [|c post]; [done|]. cbn. by intros _ ->.
  - intros [Hc Hs]%andb_true_iff Hp. cbn [skip_while]. by rewrite Hc, IH.
Qed.
Lemma skip_while_text f s : s = fst (skip_while f s) +:+ snd (skip_while f s) /\ str_all f (fst (skip_while f s)) = true.
Proof.
  induction s as [|c s [IH1 IH2]]; [done|]. cbn [skip_while]. destruct (f c) eqn:Hc; [|done].
  destruct (skip_while f s) as [a b]. cbn in *. rewrite Hc, IH2. by rewrite IH1 at 1.
Qed.
(** An arrow after a character and white space, a blank and a tab apart: with a
    blank first, the character is the wildcard; with a tab first, it is any. *)
Definition arrow_at (c b : ascii) : Prop := (c = "_"%char /\ b = " "%char) \/ b = TAB.
Theorem wildcard_arrow_exact line :
  has_wildcard_arrow line = true <->
  exists pre c b more post, line = pre +:+ String c (String b (more +:+ "=>" +:+ post)) /\ arrow_at c b /\ blanks more.
Proof.
  split.
  - induction line as [|a [|b line] IH]; [done..|]. cbn [has_wildcard_arrow].
    intros [[Hab Hp]%andb_true_iff|Hrest]%orb_true_iff.
    + assert (arrow_at a b) as Harr.
      { unfold arrow_at. apply orb_true_iff in Hab as [[H1%Ascii.eqb_eq H2%Ascii.eqb_eq]%andb_true_iff|H1%Ascii.eqb_eq]; auto. }
      assert (is_blank b = true) as Hb by (unfold is_blank; destruct Harr as [[_ ->]| ->]; done).
      cbn [skip_while] in Hp. rewrite Hb in Hp. destruct (skip_while_text is_blank line) as [Ht Hall].
      destruct (skip_while is_blank line) as [more rest]. cbn [fst snd] in *. apply prefix_spec in Hp as (post & Hrest).
      exists "", a, b, more, post. split_and!; [|done|done]. by rewrite Ht, Hrest.
    + destruct (IH Hrest) as (pre & c & b' & more & post & Hl & Ha & Hm). exists (String a pre), c, b', more, post. split_and!; [|done|done].
      cbn. by rewrite Hl.
  - intros (pre & c & b & more & post & -> & Ha & Hm). induction pre as [|a pre IH].
    + cbn [String.append has_wildcard_arrow]. apply orb_true_iff. left. apply andb_true_iff. split.
      { destruct Ha as [[-> ->]| ->]; [done|]. by rewrite orb_true_r. }
      assert (is_blank b = true) as Hb by (unfold is_blank; destruct Ha as [[_ ->]| ->]; done).
      cbn [skip_while]. rewrite Hb, skip_blanks by done. cbn [snd]. apply prefix_spec. by exists post.
    + destruct pre as [|a' pre]; cbn [String.append has_wildcard_arrow] in *; apply orb_true_iff; right; exact IH.
Qed.

(** * The search of the reactor *)

Lemma numbered_lookup {A} (lines : list A) n j x : lines !! j = Some x -> In (n + j, x)%nat (numbered n lines).
Proof.
  revert n j. induction lines as [|l lines IH]; intros n [|j]; cbn; try done.
  - intros [= ->]. left. f_equal. lia.
  - intros Hj. right. replace (n + S j)%nat with (S n + j)%nat by lia. by apply IH.
Qed.
Lemma filter_nil {A} (f : A -> bool) l x : List.filter f l = [] -> In x l -> f x = false.
Proof. intros Hn Hx. destruct (f x) eqn:Hf; [|done]. assert (In x (List.filter f l)) as H by by apply List.filter_In. by rewrite Hn in H. Qed.
Lemma check_t15_nil path n lines : check_t15_from path n lines = [] ->
  forall i line k arm, lines !! i = Some line -> fact_match_line line = true -> (k < scan_window)%nat -> lines !! (i + k)%nat = Some arm ->
  wildcard_arm arm = false.
Proof.
  revert n. induction lines as [|l lines IH]; intros n; cbn [check_t15_from]; [done|]. intros [Hv Hrest]%app_eq_nil i line k arm.
  destruct i as [|i]; cbn [lookup list_lookup]; [|by apply (IH _ Hrest)].
  intros [= ->] Hm Hk Harm. rewrite Hm in Hv. apply map_eq_nil in Hv.
  apply (filter_nil _ _ (n + k, arm)%nat Hv). apply numbered_lookup. by rewrite lookup_take_lt.
Qed.

(** * What the crates that build are free of *)

(** A text of the line outside its comments: code, literals, or both. *)
Definition no_comment (t : Token) : Prop := match t with Comment _ => False | _ => True end.
Definition text_occurs (needle : string) (ts : list Token) : Prop :=
  exists ts1 mid ts2, ts = ts1 ++ mid ++ ts2 /\ Forall no_comment mid /\ source mid = needle.
Lemma kept_plain ts : Forall no_comment ts -> kept ts = source ts.
Proof. induction 1 as [|[c|s|s] ts Ht _ IH]; [done|..|done]; cbn; by rewrite IH. Qed.
Lemma strip_keeps_text line ts needle : lexed line ts -> text_occurs needle ts ->
  contains needle (strip_inline_block_comments line) = true.
Proof.
  intros Hl (ts1 & mid & ts2 & -> & Hm & Hs). unfold strip_inline_block_comments.
  pose proof (strip_lexed _ _ Hl (S (String.length line)) ltac:(lia)) as Hk.
  destruct (strip_from _ line) as [out|]; cbn [default from_option id].
  - destruct Hk as [tail ->]. rewrite !kept_app, (kept_plain mid Hm), Hs, <- !str_app_assoc. apply contains_app.
  - rewrite <- (lexed_source _ _ Hl), !source_app, Hs. apply contains_app.
Qed.
Lemma src_hit_text line ts needle : needle <> "async" -> needle <> "await" -> lexed line ts -> text_occurs needle ts -> src_hit needle line = true.
Proof.
  intros H1 H2 Hl Ho. unfold src_hit, bare_word_hit. destruct (String.eqb_spec needle "async"); [done|].
  destruct (String.eqb_spec needle "await"); [done|]. cbn [orb]. by rewrite (strip_keeps_text _ _ _ Hl Ho).
Qed.
Lemma lines_violations_nil path label hit content line :
  lines_violations path label hit content = [] -> In line (str_lines content) -> hit line = false.
Proof.
  unfold lines_violations. intros Hv%map_eq_nil Hin. destruct (numbered_In line _ 1 Hin) as [k Hk].
  exact (filter_nil _ _ (k, line) Hv Hk).
Qed.
Lemma scan_all_clean scan files path content : scan_exit (scan_all scan files) = SUCCESS -> In (path, content) files ->
  exists raw, content = Some raw /\ scan path raw = [].
Proof.
  assert (forall violations, scan_exit violations = SUCCESS -> violations = Some []) as He by by intros [[|]|].
  intros Hx%He. revert Hx. induction files as [|[p [raw|]] files IH]; cbn; try done. destruct (scan_all scan files) as [more|]; [|done]. cbn.
  intros [= Hv] Hin. apply app_eq_nil in Hv as [H1 ->]. destruct Hin as [[= -> <-]|Hin]; [by exists raw|]. by apply IH.
Qed.
Lemma before_scan_success env node depth scan :
  before_scan env (Some node) depth scan = SUCCESS -> skip_requested env "EVORULE_SKIP_GATE" = false ->
  detect_strategy_patterns (collect_rs_files depth "src" node) = [] /\ scan node = SUCCESS.
Proof.
  unfold before_scan. intros Hrun Hskip. destruct (negb _); [done|]. destruct (detect_strategy_patterns _); [|done]. by rewrite Hskip in Hrun.
Qed.

(** The patterns that stand for names, which the module of facts may hold. *)
Definition name_pattern (label : string) : bool := (String.prefix "S5.2" label || String.prefix "G8" label)%bool.
Definition free_of (patterns : list (string * string)) (exempt : string -> bool) (raw : string) : Prop :=
  forall label needle line ts, In (label, needle) patterns -> exempt label = false ->
    In line (str_lines raw) -> comment_line line = false -> lexed line ts -> ~ text_occurs needle ts.
Lemma free_of_lines path patterns (hit : string -> string -> string -> bool) (exempt : string -> bool) raw :
  concat (map (fun p => lines_violations path (fst p) (hit (fst p) (snd p)) raw) patterns) = [] ->
  Forall (fun p => snd p <> "async" /\ snd p <> "await") patterns ->
  (forall label needle line, exempt label = false -> comment_line line = false -> hit label needle line = false -> src_hit needle line = false) ->
  free_of patterns exempt raw.
Proof.
  intros Hv Hw Hhit label needle line ts Hin Hex Hline Hc Hlex Hocc.
  pose proof (concat_map_nil _ _ _ Hv Hin) as Hp. cbn [fst snd] in Hp. apply (lines_violations_nil _ _ _ _ line) in Hp; [|done].
  rewrite List.Forall_forall in Hw. destruct (Hw _ Hin) as [H1 H2]. cbn in H1, H2.
  specialize (Hhit label needle line Hex Hc Hp). by rewrite (src_hit_text line ts) in Hhit.
Qed.

(** The three crates, when they build without the valve: every file could be
    read, and a file without tests is free, outside its comments, of the
    patterns; of the names, unless it is the module of facts.  The statement
    leaves out the reactor's pattern about unsafe code.  In the reactor, no arm
    within fifty lines from the match of a fact is a wildcard, other than the
    listed ones. *)
Theorem crate_gates_pass_clean env node depth path content :
  skip_requested env "EVORULE_SKIP_GATE" = false ->
  let facts label := (name_pattern label && String.eqb (file_name path) "fact.rs")%bool in
  (reactor_gate env (Some node) depth = SUCCESS -> In (path, content) (collect_rs_files_unsorted depth "src" node) ->
   exists raw, content = Some raw /\ (find_sub CFG_TEST raw = None ->
     free_of reactor_FORBIDDEN (fun label => facts label || String.prefix "T10" label)%bool raw /\
     forall i line k arm, str_lines raw !! i = Some line -> fact_match_line line = true -> (k < scan_window)%nat ->
       str_lines raw !! (i + k)%nat = Some arm -> wildcard_arm arm = false)) /\
  (governance_gate env (Some node) depth = SUCCESS -> In (path, content) (collect_rs_files_unsorted depth "src" node) ->
   exists raw, content = Some raw /\ (find_sub CFG_TEST raw = None -> free_of governance_FORBIDDEN facts raw)) /\
  (cli_gate env (Some node) depth = SUCCESS -> In (path, content) (collect_rs_files depth "src" node) ->
   exists raw, content = Some raw /\ (find_sub CFG_TEST raw = None -> free_of cli_FORBIDDEN (fun _ => false) raw)).
Proof.
  intros Hskip facts. split_and!; intros Hrun Hin; apply before_scan_success in Hrun as [_ Hrun]; [|done| |done| |done].
  - destruct (scan_all_clean _ _ _ _ Hrun Hin) as (raw & -> & Hc). exists raw. split; [done|]. intros Ht.
    unfold reactor_scan_file in Hc. rewrite strip_test_mod_none in Hc by done. apply app_eq_nil in Hc as [Hp Ht15].
    split; [|by apply (check_t15_nil path 1)].
    intros label needle line ts Hl Hex Hline Hcomm Hlex Hocc. apply orb_false_iff in Hex as [Hfacts Ht10].
    pose proof (concat_map_nil _ _ _ Hp Hl) as Hv. unfold reactor_pattern_violations in Hv. rewrite Ht10, strip_test_mod_none in Hv by done.
    cbn [andb] in Hv. apply (lines_violations_nil _ _ _ _ line) in Hv; [|done].
    unfold reactor_line_hit, reactor_scan_src in Hv. rewrite Ht10 in Hv. unfold comment_line in Hcomm. rewrite Hcomm in Hv.
    unfold facts, name_pattern in Hfacts. cbn [andb] in Hv. rewrite Hfacts in Hv.
    assert (Forall (fun p => snd p <> "async" /\ snd p <> "await") reactor_FORBIDDEN) as Hw by by repeat constructor.
    rewrite List.Forall_forall in Hw. destruct (Hw _ Hl) as [H1 H2]. by rewrite (src_hit_text line ts) in Hv.
  - destruct (scan_all_clean _ _ _ _ Hrun Hin) as (raw & -> & Hc). exists raw. split; [done|]. intros Ht.
    unfold governance_scan_file in Hc. rewrite strip_test_mod_none in Hc by done.
    eapply (free_of_lines path _ (governance_line_hit (file_name path))); [exact Hc|by repeat constructor|].
    intros label needle line Hfacts Hcomm. unfold governance_line_hit. unfold comment_line in Hcomm. rewrite Hcomm.
    unfold facts, name_pattern in Hfacts. by rewrite Hfacts.
  - destruct (collect_rs_files depth "src" node) as [|f fs] eqn:Hfiles; [done|].
    destruct (scan_all_clean _ _ _ _ Hrun Hin) as (raw & -> & Hc). exists raw. split; [done|]. intros Ht.
    unfold cli_scan_file in Hc. rewrite strip_test_mod_none in Hc by done.
    eapply (free_of_lines path _ (fun _ => cli_line_hit)); [exact Hc|by repeat constructor|].
    intros label needle line _ Hcomm. unfold cli_line_hit. unfold comment_line in Hcomm. by rewrite Hcomm.
Qed.

(** * Examples *)

Definition demo_reactor : FsNode :=
  FsDir (Some [("lib.rs", FsFile (Some (text_of ["match fact {"; "    Fact::Stable(_) => 1,"; "    _ => return 0,"; "}"])))]).
Lemma crate_gates_pass_clean_witness :
  reactor_gate demo_env (Some demo_reactor) 2 = SUCCESS /\ wildcard_arm "    _ => return 0," = false /\ wildcard_arm "    _ => 0," = true.
Proof.
  assert (reactor_gate demo_env (Some demo_reactor) 2 = SUCCESS) as Hrun by (vm_compute; reflexivity).
  split; [exact Hrun|]. split; [|vm_compute; reflexivity].
  destruct (crate_gates_pass_clean demo_env demo_reactor 2 "src/lib.rs"
    (Some (text_of ["match fact {"; "    Fact::Stable(_) => 1,"; "    _ => return 0,"; "}"]))) as [Hreactor _]; [vm_compute; reflexivity|].
  destruct (Hreactor Hrun) as (raw & Hraw & Hclean); [vm_compute; left; reflexivity|]. injection Hraw as <-.
  destruct Hclean as [_ Harms]; [vm_compute; reflexivity|].
  apply (Harms 0 "match fact {" 2 "    _ => return 0,"); [vm_compute; reflexivity..|unfold scan_window; lia|vm_compute; reflexivity].
Defined.

(** * What the search misses and what it invents *)

(** An arm without white space before its arrow is a wildcard that passes,
    although the search is to allow any white space; so is one that only begins
    like a listed one. *)
Lemma wildcard_without_space_passes : wildcard_arm "    _=> lose(fact)," = false /\ wildcard_arm "    _ => trueness(fact)," = false.
Proof. by vm_compute. Qed.
(** An arm that is no wildcard is reported when a tab precedes its arrow. *)
Lemma tab_arm_reported : wildcard_arm ("    Fact::Stable { id }" +:+ String TAB "=> id,") = true.
Proof. by vm_compute. Qed.
(** An arm under two matches is reported twice. *)
Lemma nested_match_reports_twice :
  length (check_t15_fact_match_wildcard (text_of ["match fact { A => match other_fact {"; "match fact {"; "_ => lose(),"; "}}}"]) "src/lib.rs") = 2.
Proof. by vm_compute. Qed.
(** Without any source file the reactor and the governance crate pass, and the
    command-line tool fails. *)
Lemma empty_tree :
  let empty := Some (FsDir (Some [])) in
  reactor_gate demo_env empty 1 = SUCCESS /\ governance_gate demo_env empty 1 = SUCCESS /\ cli_gate demo_env empty 1 = FAILURE /\
  run_gate demo_env empty 1 = FAILURE.
Proof. by vm_compute. Qed.
