(* ===== verification/CliTools.v ===== *)
(** The remaining commands of the command-line tool, [evorule-cli/src/commands/]:
    printing a fact log ([replay.rs]), compiling rules into a pack for the
    microcontroller ([compile_evopack.rs]), and making and deriving the keys of
    the anchors ([anchor_keygen.rs], [anchor_pubkey.rs]).  What a command writes
    to a file and prints are its results; the outcome of a write to a file is an
    argument. *)

From S2P Require Import Prelude ObjectMap Value Error Path Domain Executor ExecSemantics Transition Fact Serde Hash Wal WalFile Signing Cli EvidVerify McuWal.

(** What is written to the output file, if anything, and the printed lines. *)
Record ToolOutput : Type := mk_output { o_file : option string; o_lines : list string }.
Definition written (outcome : Result unit string) (on_error : string -> CliError) : Result unit CliError :=
  match outcome with Ok _ => Ok tt | Err e => Err (on_error e) end.

(** * [replay] *)
Section Replay.
Context {N : Type} `{SerdeNumber N, SerdeText N}.

Definition read_facts (content : Result (list string) string) : Result (list Fact) CliError :=
  match content with Ok lines => parse_facts (N := N) lines | Err e => Err (CliIo e) end.
Definition replay (path : string) (content : Result (list string) string) : Result ToolOutput CliError :=
  let? facts := read_facts content in
  Ok (mk_output None ["=== Replaying " +:+ path +:+ " ==="; facts_to_human facts;
                      "=== End (" +:+ show_usize (length facts) +:+ " facts) ==="]).
End Replay.

(** * [compile-evopack] *)
Section Compile.
Context {N : Type} `{SerdeNumber N, SerdeText N, Postcard}.

Definition compile_evopack (rules_file output : string) (content : Result string string) (write : Result unit string) :
    Result ToolOutput CliError :=
  let? rules := load_rules_file (N := N) rules_file content in
  let rule_count := length rules in
  match from_rules rules with
  | Err e => Err (CliOther ("cannot compile rules: " +:+ mcu_error_display e))
  | Ok pack =>
      match to_evopack pack with
      | Err e => Err (CliOther ("cannot encode evopack: " +:+ mcu_error_display e))
      | Ok bytes =>
          let? _u := written write CliIo in
          Ok (mk_output (Some bytes) ["=== Compiling evopack ==="; "Rules:  " +:+ show_usize rule_count;
                "Output: " +:+ output +:+ " (" +:+ show_usize (String.length bytes) +:+ " bytes)"])
      end
  end.
End Compile.

(** * [anchor-keygen] and [anchor-pubkey] *)
Section Keys.
Context `{Ed25519}.

(** The tool's own [AuditSigner::generate_keys] and [from_hex]; [entropy] is
    what [getrandom] fills the seed with. *)
Definition cli_generate_keys (entropy : option string) : Result (string * string) CliError :=
  match entropy with
  | None => Err (CliOther "audit signature: random seed failure: OS entropy source unavailable")
  | Some seed => Ok (hex_encode seed, hex_encode (verifying_bytes (signer_from_bytes seed)))
  end.
Definition cli_signer_from_hex (seed_hex : string) : Result AuditSigner CliError :=
  let? bytes := cli_hex_decode seed_hex in
  if negb (Nat.eqb (String.length bytes) 32) then Err (cli_sign_error ("private seed length != 32: " +:+ show_usize (String.length bytes)))
  else Ok (signer_from_bytes bytes).
Definition anchor_keygen (output : option string) (entropy : option string) (write : Result unit string) : Result ToolOutput CliError :=
  let? '(sk_seed_hex, pk_hex) := cli_generate_keys entropy in
  match output with
  | Some path =>
      let? _u := written write (fun e => CliOther ("Write private key file failed: " +:+ e)) in
      Ok (mk_output (Some (sk_seed_hex +:+ String newline ""))
            ["[OK] Private seed written to: " +:+ path +:+ " (public key: " +:+ pk_hex +:+ ")";
             "[WARN] This file contains the private seed; keep it secure (chmod 600 or equivalent)"])
  | None =>
      Ok (mk_output None
            ["=== G-A1 Audit Anchor Signing Keypair ==="; "[SECRET] Private seed (sk_seed_hex): " +:+ sk_seed_hex;
             "[PUBLIC] Public key (pk_hex): " +:+ pk_hex;
             "[WARN] Never leak the private seed or commit it to version control; the public key may be distributed to verifiers"])
  end.
(** [stdin_line] is the line [read_line] gives. *)
Definition anchor_pubkey (seed_arg : string) (stdin_line : Result string string) : Result ToolOutput CliError :=
  let? seed_hex :=
    if String.eqb seed_arg "-" then
      match stdin_line with Ok line => Ok (trim line) | Err e => Err (CliOther ("Read stdin failed: " +:+ e)) end
    else Ok seed_arg in
  let? signer := cli_signer_from_hex seed_hex in
  Ok (mk_output None [hex_encode (verifying_bytes signer)]).
End Keys.

(** * The keys that were made *)

Lemma strip_all_step fuel prefixes s t : strip_any prefixes s = Some t -> strip_all (S fuel) prefixes s = strip_all fuel prefixes t.
Proof. intros Hs. cbn [strip_all]. by rewrite Hs. Qed.
(** A line of the file that holds a text without white space at its ends. *)
Lemma trim_line s : solid_head s = true -> solid_head (str_rev s) = true -> trim (s +:+ String newline "") = s.
Proof.
  intros H1 H2. unfold trim. rewrite trim_start_solid by by destruct s. unfold trim_end. rewrite str_rev_app. cbn [str_rev String.append].
  destruct (String.length (s +:+ String newline "")) as [|n] eqn:Hn; [by destruct s|].
  rewrite (strip_all_step _ _ _ (str_rev s)), strip_all_solid by done. apply str_rev_involutive.
Qed.
Lemma hex_encode_solid bytes : str_all solid (hex_encode bytes) = true.
Proof.
  induction bytes as [|b bytes IH]; [done|]. cbn [hex_encode str_all]. rewrite IH, andb_true_r.
  by destruct b as [[] [] [] [] [] [] [] []].
Qed.
Lemma trim_hex_line bytes : bytes <> "" -> trim (hex_encode bytes +:+ String newline "") = hex_encode bytes.
Proof.
  intros Hne. assert (hex_encode bytes <> "") as Hh by by destruct bytes.
  pose proof (str_rev_nonempty _ Hh) as Hr.
  apply trim_line; apply solid_head_all; try done; rewrite ?str_all_rev; apply hex_encode_solid.
Qed.
Lemma cli_hex_roundtrip bytes : cli_hex_decode (hex_encode bytes) = Ok bytes.
Proof.
  pose proof (hex_roundtrip bytes) as Hr. unfold hex_decode in Hr. unfold cli_hex_decode.
  destruct (negb _); [done|]. by rewrite Hr.
Qed.
(** The file [anchor-keygen] writes gives, by either form of [anchor-pubkey],
    one line with a key that [verify-anchors] reads and under which the
    signatures of the seed verify. *)
Theorem made_keys_verify `{Ed25519Laws} (seed path : string) (out : ToolOutput) (stdin : Result string string) :
  String.length seed = 32 -> anchor_keygen (Some path) (Some seed) (Ok tt) = Ok out ->
  exists file pk_hex pk,
    o_file out = Some file /\ anchor_pubkey "-" (Ok file) = Ok (mk_output None [pk_hex]) /\
    anchor_pubkey (trim file) stdin = Ok (mk_output None [pk_hex]) /\ parse_pubkey pk_hex = Ok pk /\
    forall payload, cli_verify_signature pk payload (signature_bytes (signer_from_bytes seed) payload) = Ok true.
Proof.
  intros Hlen. unfold anchor_keygen. cbn [cli_generate_keys written]. intros [= <-]. cbn [o_file].
  assert (seed <> "") as Hne by by intros ->.
  exists (hex_encode seed +:+ String newline ""), (hex_encode (verifying_bytes (signer_from_bytes seed))), (verifying_bytes (signer_from_bytes seed)).
  assert (cli_signer_from_hex (hex_encode seed) = Ok (signer_from_bytes seed)) as Hs.
  { unfold cli_signer_from_hex. by rewrite cli_hex_roundtrip, Hlen. }
  rewrite trim_hex_line by done. split_and!; [done| | | |].
  - unfold anchor_pubkey. cbn [String.eqb]. rewrite trim_hex_line by done. cbn. by rewrite Hs.
  - unfold anchor_pubkey. destruct (String.eqb_spec (hex_encode seed) "-") as [He|]; [|by rewrite Hs].
    apply (f_equal String.length) in He. rewrite hex_encode_length, Hlen in He. done.
  - unfold parse_pubkey. rewrite cli_hex_roundtrip. unfold verifying_bytes, signer_from_bytes. cbn [verifying].
    by rewrite verifying_key_length.
  - intros payload. unfold cli_verify_signature, verifying_bytes, signature_bytes, signer_from_bytes. cbn [verifying signing].
    by rewrite verifying_key_valid, sign_verifies.
Qed.

(** * The packs that were compiled *)

Lemma wal_bridge_wf {N} `{SerdeNumberLaws N, SerdeNumberEq N, !SerdeNumberEqLaws N} (v : SValue N) : wf_json (Wal.serde_to_tcb v) = true.
Proof.
  induction v as [|b|n|s|l IH|m IH] using svalue_ind; cbn; try done.
  - destruct (num_as_i64 n) as [i|] eqn:Ei; [by apply as_i64_range in Ei|].
    destruct (num_as_u64 n) as [u|] eqn:Eu; [|done]. by apply as_u64_range in Eu.
  - apply forallb_forall. intros x Hx. apply in_map_iff in Hx as (y & <- & Hy).
    rewrite List.Forall_forall in IH. by apply IH.
  - apply andb_true_iff. split; [apply keys_sortedb_spec, map_from_sorted|].
    apply forallb_forall. intros kv Hkv%map_from_In. apply in_map_iff in Hkv as (y & <- & Hy). cbn.
    rewrite List.Forall_forall in IH. by apply (IH y).
Qed.
(** The file [compile-evopack] writes is loaded by the microcontroller as the
    rules of the file it read, which are no more than a transition takes. *)
Theorem compiled_pack_loads {N} `{SerdeNumberLaws N, SerdeText N, SerdeNumberEq N, !SerdeNumberEqLaws N, Postcard, !PostcardLaws}
    (rules_file output : string) (content : Result string string) (out : ToolOutput) :
  compile_evopack (N := N) rules_file output content (Ok tt) = Ok out ->
  exists rules bytes, load_rules_file (N := N) rules_file content = Ok rules /\ o_file out = Some bytes /\
    from_evopack bytes = Ok (mk_pack rules) /\ length rules <= MAX_TRANSFORM_RULES.
Proof.
  unfold compile_evopack. destruct (load_rules_file rules_file content) as [rules|] eqn:Hl; [|done].
  destruct (from_rules rules) as [pack|] eqn:Hp; [|done]. destruct (to_evopack pack) as [bytes|] eqn:Hb; [|done]. intros [= <-].
  exists rules, bytes.
  assert (forallb wf_json rules = true) as Hwf.
  { unfold load_rules_file in Hl. destruct content as [text|]; [|done]. destruct (serde_from_str text); [|done]. injection Hl as <-.
    apply forallb_forall. intros x (y & <- & _)%in_map_iff. apply wal_bridge_wf. }
  pose proof (evopack_roundtrip rules pack bytes Hp Hwf Hb) as Hr. unfold from_rules in Hp.
  destruct (Nat.ltb_spec MAX_TRANSFORM_RULES (length rules)); [done|]. injection Hp as <-. done.
Qed.
